(* ===== verification/_CoqProject ===== *)
-Q . S2P
Prelude.v
Effect.v
Money.v
Message.v
SessionLog.v
Turn.v
Lifecycle.v
TranscriptRepair.v
Wire.v
Tokens.v
Compaction.v
ContextManager.v
Skill.v
Hydration.v
Mailbox.v
Approval.v
ApprovalQueue.v
ReadTracker.v
ProgressLedger.v
PromptUpdate.v
Upkeep.v
Streaming.v
SecretVault.v
Security.v
ToolRegistry.v
ToolTrace.v
Trace.v
Recovery.v
InvokeParams.v
Scope.v
ToolExecutor.v
ToolBatch.v
Framing.v
Iteration.v
AgentLoop.v
Cost.v
Billing.v
Background.v
Actor.v
Delivery.v
Supervisor.v
SpawnTool.v
Jobs.v
BashScan.v
BashRoute.v
BashJudge.v
BashTool.v
CronStore.v
CronScheduler.v
Dedup.v
BoardRows.v
Board.v
