(* ===== verification/Prelude.v ===== *)
(** * Verification of the Baybo assistant framework

    Baybo runs a language-model assistant: platform messages enter through
    channels, an actor per session queues them, a turn runs the model and its
    tools until it answers, and the transcript is kept, repaired and compacted
    between turns.  This library models the parts of that core which carry their
    own contracts, in Rust under [crates/], and proves the contracts.

    ** How the parts interact

    A message is deduplicated ([Dedup]) and sent to the session's mailbox
    ([Mailbox]).  The session's actor ([Actor]) takes it from there, folds a
    burst of input into one turn, and between turns puts the results of detached
    work ([Background]) to the model; it is proved against an interface of the
    loop ([LoopApi], with [LoopLaws]), not against the loop below.  The way into
    it is held by a registry ([Supervisor]) that makes, reaps and forgets actors
    and knows the detached jobs of each; subagents are asked for by a tool
    ([SpawnTool]), and they and commands moved to the background run as jobs
    ([Jobs]) whose escorts bring the results back.  A turn of the loop ([AgentLoop]) is opened ([Turn]) inside a
    guard ([Scope]) that settles its row and its trace however the turn leaves;
    the turn's edges go through the lifecycle orchestrator ([Lifecycle]): load
    the row, apply the edge, save, publish.  The turn recalls, then iterates
    ([Iteration]) until the model answers, with texts of the runtime's own put
    in front of it ([Framing]).  The turn's requests are built from the
    transcript ([Wire], of the rows of [Message]); before each one the session's
    notices are brought up to date ([Upkeep], of [Skill] and [PromptUpdate]) and
    the context manager ([ContextManager]) decides by token count ([Tokens])
    whether to compact, and the compactor ([Compaction]) chooses what to keep.
    The reply streams through [Streaming].  Its tool calls are looked up
    ([ToolRegistry]), checked against their schemas ([InvokeParams]), run a
    batch at a time ([ToolBatch]), each through one door ([ToolExecutor]) that
    asks for permission ([Approval], [ApprovalQueue]) and records what happened
    ([ToolTrace], in the rows of [Trace]); the Bash tool ([BashTool]) decides by
    reading the command line ([BashScan], [BashRoute]) and by asking a judge
    ([BashJudge]) whether it runs jailed, on the host or not at all; the file
    tools write files only as the model has seen them
    ([ReadTracker]), are watched for going in circles ([ProgressLedger]), and
    every model call passes a budget gate and is billed ([Billing], [Cost], in
    amounts of [Money]).  What crosses the boundary to the model is
    scrubbed of secrets ([Security]), which a vault keeps ([SecretVault]).  Rows
    are kept in a log ([SessionLog]); after a crash it is loaded ([Hydration]) and repaired
    ([TranscriptRepair]), and the turns and trace rows the crash left open are
    closed ([Recovery], over [Lifecycle] and [Trace]).  Scheduled jobs
    ([CronScheduler], over [CronStore]) fire events that open turns; the events
    are the scheduler's output here and are not fed to the actor.  A project's
    board ([Board]) opens turns of its own: it starts the cards it may
    and asks the lead about those it may not.

    ** Files

    - [Prelude] (this file): results with Rust's [?], machine integers, byte
      strings with the operations of [str] the sources use, list iterators, and
      the automation ([baybo], [app], [split_app], [len_app], [int_cases]).
    - [Effect]: the program logic.  [m X A] is code over a state [X] that may
      fail and keeps what it did; one-, two-state and error specifications with
      their rules, attempts, loops and the zoom into a part of the state.
    - [Money]: [model/src/money.rs], [MicroUsd].
    - [Message]: [model/src/message.rs], [tool_output.rs], [cost.rs],
      [fingerprint.rs]; blocks, rows, wire spellings, the tool-output envelope.
    - [SessionLog]: the transcript half of [storage/src/sqlite/session.rs]: the
      rows, their ordinals, retirement, anchors and the readers' pages.
    - [Turn]: [turn/src/lib.rs], [kind.rs], [cancel.rs], [error.rs], [store.rs];
      a turn is a record and each edge method a function that also says what it
      did to the turn when it refused.
    - [Lifecycle]: [turn/src/lifecycle.rs], [cancellation_registry.rs],
      [test_support.rs]; a monad over the store, the registry and the events
      published so far, against any store satisfying [TurnStoreLaws].
    - [TranscriptRepair]: [context/src/transcript_repair.rs].
    - [Wire]: framing and merging in [context/src/lib.rs] and [prompts/].
    - [Tokens]: [context/src/tokenizer.rs], [budget.rs] and row pricing; the
      [Tokenizer] trait is a class with laws, [HeuristicTokenizer] an instance.
    - [Compaction]: the pure part of [context/src/compressor.rs].
    - [ContextManager]: the transcript-and-budget state machine of
      [context/src/lib.rs] and the compaction flow.
    - [Skill], [PromptUpdate], [Upkeep]: the skill registry and its listing, the
      notices of prompt and skill drift, and the part of the context manager
      that appends them ([skills/src/], [context/src/lib.rs], [prompts/]).
    - [Hydration]: the context manager against its log: cold start, token
      anchors, and the trace markers [query/src/lib.rs] reads back.
    - [Mailbox]: [agent/src/actor/mailbox.rs] over classes for tokio's semaphore
      and notification cell, both as functions and as interleaved steps.
    - [Approval], [ApprovalQueue]: [model/src/approval.rs] and
      [tools/src/approval.rs].
    - [ReadTracker]: [tools/src/read_tracker.rs] and the [Edit] and [Write] tools.
    - [ProgressLedger]: [agent/src/runtime/progress_ledger.rs].
    - [Streaming]: the delta filter and the drain of a streamed reply.
    - [ToolRegistry], [ToolTrace], [InvokeParams]: [tools/src/registry.rs] with
      the deferred tools, the payload a trace row keeps, parameter validation.
    - [Scope]: the guards of [agent/src/runtime/] that open a turn and a span
      and settle them on every exit, as combinators over [Effect].
    - [ToolExecutor]: one call, from its lookup to its settlement, with the
      grants the user gives on the way.
    - [ToolBatch]: the calls of one response, as steps over a pool of permits,
      and the reply rows and summaries made of their results.
    - [SecretVault], [Security]: [security/src/] and [agent/src/security.rs].
    - [Framing]: texts of [context/src/prompts/] and the functions that take
      them off again.
    - [Iteration], [AgentLoop]: [agent/src/runtime/agent_loop.rs], with
      [error_recovery.rs], [compression.rs] and the gates of [title.rs] and
      [progress_observer.rs].  The state of the loop is a record around those of
      the context manager, the executor and the monitor; each component's monad
      is embedded in the loop's ([on_keep], [on_executor], [Scope]'s guards), so
      a turn is the composition of the operations proved correct elsewhere.
      Whatever the loop awaits answers from a world with a class per peer.
    - [Trace]: [trace/src/] ([step.rs], [span.rs], [event.rs], [outcome.rs],
      [recorder.rs], [store.rs]) and [storage/src/sqlite/trace.rs]; the tables
      as maps, the recorder as programs of [Effect] over a store that may fail
      at any call, before or after the call took effect.
    - [Recovery]: [agent/src/recovery.rs] and the listings of
      [turn/src/lifecycle.rs], over any turn store with [TurnListingLaws].
    - [Cost], [Billing]: [cost/src/manager.rs], [llm/src/guard.rs] and
      [llm/src/billed.rs]: the manager as a state, a history as a list of its
      operations, and the calls of many tasks as events over it.
    - [Background], [Actor], [Delivery]: [agent/src/actor/mod.rs],
      [actor/background_notification.rs], [model/src/session.rs] and the prompt
      of [context/src/prompts/background_notification.rs]: the buffers and the
      ledger, the handlers and the loop that drives them, and what holds over
      every run of it.
    - [Supervisor]: [agent/src/actor/supervisor.rs] and the teardown of
      [AgentActor::run]: the registry, the mailboxes behind it and the senders
      cloned out of it, as steps between its locks; the jobs in flight.
    - [SpawnTool]: [subagent/src/tool.rs] and [dispatch.rs], with
      [model/src/spawn_protocol.rs]: the request, the depth, the slots, the texts
      of a result.
    - [Jobs]: [agent/src/runtime/subagent_spawner.rs] and [background_jobs.rs]: a
      step per await of every dispatch and escort, over the jobs in flight of
      [Supervisor]; an abstract relation of the steps ([step]) carries the proofs.
    - [BashScan], [BashRoute], [BashJudge], [BashTool]:
      [tools/src/builtin/bash/] and [llm/src/json_extract.rs].
    - [CronStore], [CronScheduler]: [model/src/cron.rs],
      [storage/src/sqlite/cron.rs] and [cron/src/scheduler.rs]; every store call
      of the scheduler may be preceded by other writers and may fail.
    - [Dedup]: [channels/src/dedup.rs].
    - [BoardRows], [Board]: [store/src/project.rs] and the rules of
      [project/src/] ([stages.rs], [driver.rs], [runs.rs], [budget.rs],
      [timeline.rs]): which cards of a project board start, wait, or are
      brought to the lead.

    ** What the theorems show

    - Refinement of an abstract specification: [Mailbox.mailbox_refines] (a
      stable priority list of bounded size), [Lifecycle.bus_refines_store] (the
      events replay to the stored stage), [Approval.approval_covers_exactly] (a
      grant is the set of accesses within it),
      [SessionLog.scroll_shows_conversation] (paging shows each row once, in
      order), [Streaming.stream_shows_response] (what streamed is what is kept).
    - Background results: [Delivery.results_reach_transcript] (an accepted
      result is owned by the ledger or its prompt is in the transcript; once the
      session's row has it, over restarts and crashes too),
      [Delivery.batch_acknowledged_once], [Delivery.pipeline_owned_once],
      [Actor.actor_survives] and [Actor.burst_in_order].
    - Actors and jobs: [Supervisor.one_actor_per_session] and
      [Supervisor.pinned_parent_survives] (over every interleaving of routes,
      sweeps, panics and teardowns), [Jobs.slots_accounted] (each slot is
      released once), [Jobs.stopped_job_silent] and [Jobs.finished_job_reported],
      [SpawnTool.lineage_depth_exact].
    - Shell commands: [BashTool.host_runs_authorized] and
      [BashTool.destructive_gated] (what runs outside the jail, or deletes, was
      let through by the user, the judge or a rule),
      [BashScan.delete_scan_sound] and [BashScan.delete_scan_exact] (the scan
      against relations that say what runs what and how each wrapper,
      interpreter and subcommand of git reads its arguments),
      [BashRoute.unsandboxed_route_exact] and [BashRoute.jail_exact].
    - Money: [Cost.budget_gate_exact] (the gate against the sum of all rows),
      [Cost.restart_keeps_budget], [Cost.drain_returns],
      [Billing.call_billed_once] (a call refines an automaton of its own events)
      and [Billing.contact_within_budget].
    - Crashes: [Recovery.sweep_only_closes] and
      [Recovery.panic_spares_other_sessions] (with any failures),
      [Recovery.sweep_settles] (without), [Trace.recorder_pairs_rows] and
      [Trace.offered_set_resolves].
    - Scheduled jobs: [CronScheduler.slot_fires_once], [stop_beats_fire],
      [edit_lands], [due_job_fires], [recovery_settles],
      [restore_never_backfires], and of the tables [CronStore.tables_agree] and
      [parts_have_owners].
    - The composition: [Iteration.iteration_adds_exchanges] (whatever happens in
      an iteration, the window and the log grow by the same whole exchanges),
      [AgentLoop.run_settles] (the answer, the turn's row, the last row of the
      log and the memory agree, on every exit), [AgentLoop.turn_is_bounded] (a
      turn ends, within a budget of requests, with a well-nested trace).
    - Round trips: [Hydration.marker_replays] (a trace marker reads back as the
      request that was sent), [Security.secrets_round_trip] and
      [SecretVault.rotation_keeps_secrets] (a secret taken out of a text, or
      sealed under a new key, comes back).
    - Exact characterisations: [Compaction.pair_preserving_cut_greatest],
      [walk_backward_atomic_kept], [TranscriptRepair.repair_conserves],
      [ProgressLedger.repeated_failure_exact], [Board.slate_best],
      [ToolRegistry.offer_matches_lookup], [Skill.listing_matches_lookup].
    - Equivalence with a reference: [InvokeParams.validator_cache_transparent].
    - Termination and liveness: [ToolTrace.trace_row_bounded],
      [ToolBatch.batch_drains], [Mailbox.no_lost_wakeup].
    - Invariants over every history: [Turn.reachable_wf],
      [ContextManager.prices_in_lockstep], [Board.asks_bounded],
      [Upkeep.listing_known], [Hydration.anchor_covers_counted_rows].
    - Safety, under concurrency where the code has it:
      [ToolExecutor.tool_runs_only_if_admitted], [ToolBatch.exclusive_runs_alone],
      [ApprovalQueue.watchers_alternate], [ReadTracker.no_blind_write],
      [Wire.cached_prefix_stable], [Dedup.replay_refused],
      [Message.wrap_tool_output_one_close], [TranscriptRepair.repaired_is_accepted].
    - Errors: [ToolExecutor.verdict_survives_every_exit],
      [ContextManager.compaction_all_or_nothing].
    - Behaviour that departs from the comments: [Lifecycle.overlapping_endings],
      [ReadTracker.staged_read_shadows_write] and [Upkeep.slash_only_forgotten].

    ** Conventions and bounds

    A [String] is its UTF-8 bytes.  [i64], [u64] and [i128] are [Z] with the
    wrap or saturation the code asks for; [usize] counts of list elements are
    [nat] and of tokens [N], both far from overflow.  A [HashMap] is a [gmap];
    a map whose order shows is a list.  Concurrent code is a step relation whose
    steps are the lock's critical sections.  Loops that are not structural carry
    fuel: [recv_loop] 2 (the second round always returns), [unused_repeat_id]
    one more than the ids in use (one of that many candidates is free),
    [cut_loop] the cut itself and [walk_loop] the number of rows (both only move
    down), the shrinking of a trace row its own length (each cut is shorter),
    the calls of a request eleven (the handler's ten retries and the first), the
    summarizer two (its own count), the turn one more than [max_iterations], the
    drain of a burst the length of the queue, the reading of a command line the
    number of its words; the depth 32 of a nested shell text, the judge's two
    attempts and the three of a job's edit are counts of the code's own;
    the theorems about them are about the fuelled functions and so say the fuel
    is enough.  A crash of the actor's process is a step of [Delivery]: from some
    call on, its loop and its stores do nothing more, and it comes back from the
    saved row and the log; the two are stopped each at a call of its own, which
    allows more than one crash does.  A tool under its deadline may be dropped
    between two steps or while a prompt is parked ([ToolExecutor.park]).  Binary64
    arithmetic is the Standard Library's [SpecFloat], executed.

    ** Not modelled

    Input and output are arguments: the stores, the file system, the summarizer,
    the clock, the model's answers.  Left out: serde derives, logging, the
    providers, the gateway, the clients, SQL other than the transcript's, the
    trace's and the jobs', third-party parsers.  The loop records the tasks it
    lets loose (the title of a conversation, the narration of a long turn, the memory of a finished one)
    and their runs are not followed; the pool that resolves a session's client is
    not modelled, and the loop's calls are priced but not run through [Billing].
    The actor meets the loop through an
    interface and no instance of it is built from [AgentLoop]; in [Supervisor]
    an actor is a task that takes messages, without its handlers, and what a
    subagent or a command does is an answer of the world in [Jobs].  The router's
    gates before a message is routed, and the tools by which the model edits
    scheduled jobs, are left out.  The parsers of shell
    text, of cron expressions and of time zones are third-party: arguments, with
    the laws each theorem names.  Left for the future: the board's manager and
    its worktrees, the limiters and the rendezvous of the remote host, the
    carrier's framing, and the analytics of the cost ledger. *)

From Stdlib Require Export ZArith Lia Ascii.
From stdpp Require Export base tactics pretty sorting gmap strings option list.

#[export] Set Warnings "-clear-no-such-hyp,-register-all".
#[global] Arguments String.append : simpl nomatch.

(** ** Fallible operations

    Rust's [Result<T, E>], with the early return of the [?] operator written
    [let? x := e in k]. *)
Inductive result (A E : Type) : Type :=
| Ok (a : A)
| Err (e : E).
Arguments Ok {A E} _.
Arguments Err {A E} _.

Definition result_bind {A B E} (r : result A E) (k : A -> result B E) : result B E :=
  match r with
  | Ok a => k a
  | Err e => Err e
  end.

Declare Scope baybo_scope.
Delimit Scope baybo_scope with baybo.
Open Scope baybo_scope.

Notation "'let?' x ':=' e 'in' k" := (result_bind e (fun x => k))
  (at level 10, x pattern, e at level 100, k at level 200)
  : baybo_scope.

Definition is_Ok {A E} (r : result A E) : bool :=
  match r with Ok _ => true | Err _ => false end.

(** [Option::is_some]. *)
Definition is_some {A} (o : option A) : bool :=
  match o with Some _ => true | None => false end.

(** [Option::is_some_and] *)
Definition is_some_and {A} (f : A -> bool) (o : option A) : bool :=
  match o with Some a => f a | None => false end.
Lemma is_some_and_true {A} (f : A -> bool) o : is_some_and f o = true <-> exists a, o = Some a /\ f a = true.
Proof. destruct o; cbn; split; [eauto | by intros (? & [= <-] & ?) | done | by intros (? & ? & ?)]. Qed.

(** ** Machine integers

    Signed and unsigned widths as ranges of [Z], with the saturating
    operations of the standard library. *)
Definition i64_min : Z := - 2 ^ 63.
Definition i64_max : Z := 2 ^ 63 - 1.
Definition u64_max : Z := 2 ^ 64 - 1.
Definition i128_min : Z := - 2 ^ 127.
Definition i128_max : Z := 2 ^ 127 - 1.

Definition in_i64 (z : Z) : Prop := (i64_min <= z <= i64_max)%Z.
Definition in_u64 (z : Z) : Prop := (0 <= z <= u64_max)%Z.
Definition in_i128 (z : Z) : Prop := (i128_min <= z <= i128_max)%Z.

(** [Ord::clamp] on integers. *)
Definition clamp (lo hi z : Z) : Z :=
  if (z <? lo)%Z then lo else if (hi <? z)%Z then hi else z.

(** [i64::saturating_add] and [i64::saturating_sub]. *)
Definition i64_sat_add (a b : Z) : Z := clamp i64_min i64_max (a + b).
Definition i64_sat_sub (a b : Z) : Z := clamp i64_min i64_max (a - b).

Ltac unfold_ints :=
  unfold in_i64, in_u64, in_i128, i64_sat_add, i64_sat_sub, clamp,
    i64_min, i64_max, u64_max, i128_min, i128_max in *.

(** Case analysis on every integer test in sight, then linear arithmetic. *)
Ltac int_cases :=
  unfold_ints;
  repeat match goal with
  | |- context [(?a <? ?b)%Z] => destruct (Z.ltb_spec a b)
  | H : context [(?a <? ?b)%Z] |- _ => destruct (Z.ltb_spec a b)
  | |- context [(?a <=? ?b)%Z] => destruct (Z.leb_spec a b)
  | H : context [(?a <=? ?b)%Z] |- _ => destruct (Z.leb_spec a b)
  end; try lia.

Lemma clamp_range lo hi z : (lo <= hi)%Z -> (lo <= clamp lo hi z <= hi)%Z.
Proof. intros. int_cases. Qed.

Lemma clamp_id lo hi z : (lo <= z <= hi)%Z -> clamp lo hi z = z.
Proof. intros. int_cases. Qed.

Lemma clamp_mono lo hi x y :
  (lo <= hi)%Z -> (x <= y)%Z -> (clamp lo hi x <= clamp lo hi y)%Z.
Proof. intros. int_cases. Qed.

(** ** Strings

    A Rust [String] is its UTF-8 bytes; the models use [string] (a list of
    8-bit characters) and byte-level operations.  Every pattern the sources
    search for is ASCII, for which byte search and character search agree. *)
Module Str.

(** [str::starts_with] *)
Fixpoint starts_with (p s : string) : bool :=
  match p, s with
  | EmptyString, _ => true
  | String a p', String b s' => Ascii.eqb a b && starts_with p' s'
  | String _ _, EmptyString => false
  end.

(** [str::strip_prefix] *)
Fixpoint strip_prefix (p s : string) : option string :=
  match p, s with
  | EmptyString, _ => Some s
  | String a p', String b s' => if Ascii.eqb a b then strip_prefix p' s' else None
  | String _ _, EmptyString => None
  end.

(** [str::contains] with a string pattern. *)
Fixpoint contains (p s : string) : bool :=
  starts_with p s ||
  match s with
  | EmptyString => false
  | String _ s' => contains p s'
  end.

(** [str::contains] with a character pattern. *)
Fixpoint contains_char (c : ascii) (s : string) : bool :=
  match s with
  | EmptyString => false
  | String d s' => Ascii.eqb c d || contains_char c s'
  end.

(** [str::find] with a character pattern, as the text before and after the
    first occurrence. *)
Fixpoint split_at_char (c : ascii) (s : string) : option (string * string) :=
  match s with
  | EmptyString => None
  | String d s' =>
      if Ascii.eqb c d then Some (EmptyString, s')
      else match split_at_char c s' with
           | Some (a, b) => Some (String d a, b)
           | None => None
           end
  end.

(** [str::split] on a character: always at least one piece. *)
Fixpoint split_char (c : ascii) (s : string) : list string :=
  match s with
  | EmptyString => [EmptyString]
  | String d s' =>
      if Ascii.eqb c d then EmptyString :: split_char c s'
      else match split_char c s' with
           | [] => [String d EmptyString]
           | w :: ws => String d w :: ws
           end
  end.

(** [str::replace] with a non-empty pattern: leftmost, non-overlapping.
    [skip] counts the characters of a match still to be dropped. *)
Fixpoint replace_go (p to : string) (skip : nat) (s : string) : string :=
  match s with
  | EmptyString => EmptyString
  | String c s' =>
      match skip with
      | S k => replace_go p to k s'
      | O => if starts_with p s
             then (to +:+ replace_go p to (String.length p - 1) s')%string
             else String c (replace_go p to 0 s')
      end
  end.
Definition replace (p to s : string) : string := replace_go p to 0 s.

(** [chars().all] over an ASCII character class. *)
Fixpoint forallb (f : ascii -> bool) (s : string) : bool :=
  match s with
  | EmptyString => true
  | String c s' => f c && forallb f s'
  end.

Fixpoint map (f : ascii -> ascii) (s : string) : string :=
  match s with
  | EmptyString => EmptyString
  | String c s' => String (f c) (map f s')
  end.

Definition byte (c : ascii) : N := N_of_ascii c.
Definition in_range (lo hi : N) (c : ascii) : bool := (lo <=? byte c)%N && (byte c <=? hi)%N.
Definition is_ascii_lower : ascii -> bool := in_range 97 122.
Definition is_ascii_upper : ascii -> bool := in_range 65 90.
Definition is_ascii_digit : ascii -> bool := in_range 48 57.
Definition is_ascii_alphabetic (c : ascii) : bool := is_ascii_lower c || is_ascii_upper c.
Definition is_ascii_alphanumeric (c : ascii) : bool := is_ascii_alphabetic c || is_ascii_digit c.
(** [u8::is_ascii_whitespace]: space, tab, line feed, form feed, carriage return. *)
Definition is_ascii_whitespace (c : ascii) : bool :=
  let b := byte c in
  ((b =? 32) || (b =? 9) || (b =? 10) || (b =? 12) || (b =? 13))%N.

(** [to_ascii_lowercase], [eq_ignore_ascii_case]. *)
Definition lower_char (c : ascii) : ascii :=
  if is_ascii_upper c then ascii_of_N (byte c + 32) else c.
Definition to_ascii_lowercase (s : string) : string := map lower_char s.
Definition eq_ignore_ascii_case (a b : string) : bool :=
  String.eqb (to_ascii_lowercase a) (to_ascii_lowercase b).

(** [a[n..]] on byte offsets. *)
Fixpoint drop (n : nat) (s : string) : string :=
  match n, s with
  | O, _ => s
  | S k, String _ s' => drop k s'
  | S _, EmptyString => EmptyString
  end.
Fixpoint get_byte (n : nat) (s : string) : option ascii :=
  match n, s with
  | O, String c _ => Some c
  | S k, String _ s' => get_byte k s'
  | _, EmptyString => None
  end.

(** [a[..n]] on byte offsets. *)
Fixpoint take (n : nat) (s : string) : string :=
  match n, s with
  | S k, String c s' => String c (take k s')
  | _, _ => EmptyString
  end.

(** [str::find] with a string pattern: the offset of the first occurrence. *)
Fixpoint find (p s : string) : option nat :=
  if starts_with p s then Some 0
  else match s with
       | EmptyString => None
       | String _ s' => S <$> find p s'
       end.

(** [str::trim]: the Unicode [White_Space] characters, in UTF-8. *)
Definition bytes (l : list N) : string :=
  List.fold_right (fun n s => String (ascii_of_N n) s) EmptyString l.
Definition white_space : list string :=
  List.map bytes
    ([[9]; [10]; [11]; [12]; [13]; [32]; [0xC2; 0x85]; [0xC2; 0xA0]; [0xE1; 0x9A; 0x80];
      [0xE2; 0x80; 0xA8]; [0xE2; 0x80; 0xA9]; [0xE2; 0x80; 0xAF]; [0xE2; 0x81; 0x9F];
      [0xE3; 0x80; 0x80]]
     ++ List.map (fun k => [0xE2; 0x80; 0x80 + N.of_nat k]) (seq 0 11))%N.
(** The length of the white space character the text starts with. *)
Fixpoint leading_of (ws : list string) (s : string) : option nat :=
  match ws with
  | [] => None
  | w :: ws => if starts_with w s then Some (String.length w) else leading_of ws s
  end.
Fixpoint trim_start_go (skip : nat) (s : string) : string :=
  match s with
  | EmptyString => EmptyString
  | String _ s' =>
      match skip with
      | S k => trim_start_go k s'
      | O => match leading_of white_space s with
             | Some n => trim_start_go (n - 1) s'
             | None => s
             end
      end
  end.
Definition trim_start (s : string) : string := trim_start_go 0 s.
(** No encoding of a white space character starts inside another character, so
    the text after any byte may be tested. *)
Fixpoint trim_end (s : string) : string :=
  match s with
  | EmptyString => EmptyString
  | String c s' => if String.eqb (trim_start s) EmptyString then EmptyString else String c (trim_end s')
  end.
Definition trim (s : string) : string := trim_end (trim_start s).

(** [str::ends_with], [strip_suffix]. *)
Definition strip_suffix (p s : string) : option string :=
  let n := String.length s - String.length p in
  if String.eqb (drop n s) p then Some (take n s) else None.
Definition ends_with (p s : string) : bool :=
  match strip_suffix p s with Some _ => true | None => false end.
(** [trim_end_matches] on a character. *)
Fixpoint trim_end_char (c : ascii) (s : string) : string :=
  match s with
  | EmptyString => EmptyString
  | String d s' =>
      match trim_end_char c s' with
      | EmptyString => if Ascii.eqb c d then EmptyString else String d EmptyString
      | s' => String d s'
      end
  end.

(** [trim_start_matches] on some ASCII characters. *)
Fixpoint trim_start_chars (cs : list ascii) (s : string) : string :=
  match s with
  | String c s' => if bool_decide (c ∈ cs) then trim_start_chars cs s' else s
  | EmptyString => s
  end.

(** [str::find] and [rfind], the offset of the last occurrence. *)
Fixpoint rfind (p s : string) : option nat :=
  match s with
  | EmptyString => if String.eqb p EmptyString then Some 0 else None
  | String _ s' =>
      match rfind p s' with
      | Some n => Some (S n)
      | None => if starts_with p s then Some 0 else None
      end
  end.

(** A byte that starts a character; [chars().count()], [chars().take(n)]. *)
Definition is_char_start (c : ascii) : bool := negb (in_range 128 191 c).
Fixpoint char_count (s : string) : nat :=
  match s with
  | EmptyString => 0
  | String c s' => (if is_char_start c then 1 else 0) + char_count s'
  end.
Fixpoint take_chars (n : nat) (s : string) : string :=
  match s with
  | EmptyString => EmptyString
  | String c s' =>
      if is_char_start c then
        match n with 0 => EmptyString | S k => String c (take_chars k s') end
      else String c (take_chars n s')
  end.

(** [str::lines().count()]: a final newline starts no line. *)
Definition line_count (s : string) : nat :=
  let pieces := split_char "010" s in
  if String.eqb (List.last pieces EmptyString) EmptyString then length pieces - 1 else length pieces.

(** [str::lines]: the carriage return goes with its newline. *)
Definition without_cr (line : string) : string := default line (strip_suffix (String "013" EmptyString) line).
Definition lines (s : string) : list string :=
  let pieces := split_char "010" s in
  List.map without_cr (removelast pieces) ++ match List.last pieces EmptyString with EmptyString => [] | l => [l] end.

(** [String::from_utf8_lossy].  How the bytes start: a character ([inl]) or a
    sequence that is none ([inr]), with its length. *)
Definition second_bounds (b : N) : option (nat * N * N) :=
  if ((0xC2 <=? b) && (b <=? 0xDF))%N then Some (2%nat, 0x80, 0xBF)%N
  else if (b =? 0xE0)%N then Some (3%nat, 0xA0, 0xBF)%N
  else if (b =? 0xED)%N then Some (3%nat, 0x80, 0x9F)%N
  else if ((0xE1 <=? b) && (b <=? 0xEF))%N then Some (3%nat, 0x80, 0xBF)%N
  else if (b =? 0xF0)%N then Some (4%nat, 0x90, 0xBF)%N
  else if ((0xF1 <=? b) && (b <=? 0xF3))%N then Some (4%nat, 0x80, 0xBF)%N
  else if (b =? 0xF4)%N then Some (4%nat, 0x80, 0x8F)%N
  else None.
(** The bytes that continue the character, up to [need]. *)
Fixpoint continued (need : nat) (s : string) : nat :=
  match need, s with
  | S need, String c s => if in_range 0x80 0xBF c then S (continued need s) else 0
  | _, _ => 0
  end.
Definition utf8_head (c : ascii) (s : string) : nat + nat :=
  if (byte c <? 128)%N then inl 1
  else match second_bounds (byte c), s with
       | Some (width, lo, hi), String d s' =>
           if in_range lo hi d then
             let got := 2 + continued (width - 2) s' in
             if Nat.eqb got width then inl got else inr got
           else inr 1
       | _, _ => inr 1
       end.
Definition REPLACEMENT_CHARACTER : string := bytes [0xEF; 0xBF; 0xBD]%N.
Fixpoint lossy_go (copy skip : nat) (s : string) : string :=
  match s with
  | EmptyString => EmptyString
  | String c s' =>
      match copy, skip with
      | S copy, _ => String c (lossy_go copy skip s')
      | 0, S skip => lossy_go 0 skip s'
      | 0, 0 => match utf8_head c s' with
                | inl n => String c (lossy_go (n - 1) 0 s')
                | inr n => (REPLACEMENT_CHARACTER +:+ lossy_go 0 (n - 1) s')%string
                end
      end
  end.
Definition from_utf8_lossy (s : string) : string := lossy_go 0 0 s.

(** [find(char::is_whitespace)], as the text before and from the match. *)
Fixpoint split_at_white (s : string) : option (string * string) :=
  match s with
  | EmptyString => None
  | String c s' =>
      match leading_of white_space s with
      | Some _ => Some (EmptyString, s)
      | None =>
          match split_at_white s' with
          | Some (a, b) => Some (String c a, b)
          | None => None
          end
      end
  end.
(** [split_whitespace] *)
Fixpoint words_go (skip : nat) (word : string) (s : string) : list string :=
  let flush := match word with EmptyString => [] | _ => [word] end in
  match s with
  | EmptyString => flush
  | String c s' =>
      match skip with
      | S k => words_go k word s'
      | 0 =>
          match leading_of white_space s with
          | Some n => flush ++ words_go (n - 1) EmptyString s'
          | None => words_go 0 (word +:+ String c EmptyString)%string s'
          end
      end
  end.
Definition words (s : string) : list string := words_go 0 EmptyString s.

(** *** Facts *)

Lemma starts_with_spec p s : starts_with p s = true <-> exists r, s = (p +:+ r)%string.
Proof.
  revert s; induction p as [|a p IH]; intros s; cbn.
  - split; eauto.
  - destruct s as [|b s]; cbn; [split; [done | intros [r Hr]; discriminate] |].
    rewrite andb_true_iff, IH, Ascii.eqb_eq. split.
    + intros [-> [r ->]]. eauto.
    + intros [r [= -> ->]]. eauto.
Qed.

Lemma strip_prefix_spec p s r :
  strip_prefix p s = Some r <-> s = (p +:+ r)%string.
Proof.
  revert s; induction p as [|a p IH]; intros s; cbn; [split; [by intros [= ->] | by intros ->] |].
  destruct s as [|b s]; [split; discriminate |].
  destruct (Ascii.eqb_spec a b) as [->|Hne].
  - rewrite IH. split; [by intros -> | by intros [= ->]].
  - split; [discriminate | intros [= -> ->]; done].
Qed.

Lemma strip_prefix_app p r : strip_prefix p (p +:+ r) = Some r.
Proof. by apply strip_prefix_spec. Qed.

Lemma contains_spec p s :
  contains p s = true <-> exists a b, s = (a +:+ p +:+ b)%string.
Proof.
  revert p; induction s as [|c s IH]; intros p; cbn.
  - rewrite orb_false_r, starts_with_spec. split.
    + intros [r Hr]. exists ""%string, r. done.
    + intros (a & b & Hab). destruct a; [|discriminate]. exists b. done.
  - rewrite orb_true_iff, starts_with_spec, IH. split.
    + intros [[r ->] | (a & b & ->)].
      * exists ""%string, r. done.
      * exists (String c a), b. done.
    + intros (a & b & Hab). destruct a as [|c' a].
      * left. exists b. done.
      * injection Hab as -> ->. right. eauto.
Qed.

Lemma app_nil_str s : ("" +:+ s)%string = s.
Proof. done. Qed.
Lemma app_cons_str c a b : (String c a +:+ b = String c (a +:+ b))%string.
Proof. done. Qed.
Lemma app_nil_r_str s : (s +:+ "")%string = s.
Proof. induction s; [done | by rewrite app_cons_str, IHs]. Qed.
Lemma app_assoc_str a b c : (a +:+ (b +:+ c) = (a +:+ b) +:+ c)%string.
Proof. induction a; [done | by rewrite !app_cons_str, IHa]. Qed.

Lemma length_app_str a b : String.length (a +:+ b) = String.length a + String.length b.
Proof. induction a; [done | rewrite app_cons_str; cbn; by rewrite IHa]. Qed.

Lemma drop_app a b : drop (String.length a) (a +:+ b) = b.
Proof. induction a; [by destruct b | done]. Qed.

Lemma take_app a b : take (String.length a) (a +:+ b) = a.
Proof. induction a as [|c a IH]; cbn; [by destruct b | by rewrite IH]. Qed.

Lemma strip_suffix_app p s : strip_suffix p (s +:+ p) = Some s.
Proof.
  unfold strip_suffix. rewrite length_app_str, Nat.add_sub, drop_app, String.eqb_refl. by rewrite take_app.
Qed.

Lemma split_at_char_app c a b : contains_char c a = false -> split_at_char c (a +:+ String c b) = Some (a, b).
Proof.
  induction a as [|d a IH]; cbn; [by rewrite Ascii.eqb_refl|].
  intros [Hd Ha]%orb_false_iff. rewrite Hd. by rewrite (IH Ha).
Qed.

(** *** Text in pieces *)

Definition whole (l : list string) : string := foldr String.append EmptyString l.
Lemma whole_app l k : whole (l ++ k) = (whole l +:+ whole k)%string.
Proof. induction l as [|x l IH]; [done|]. cbn [app whole foldr]. fold (whole (l ++ k)). by rewrite IH, app_assoc_str. Qed.
Lemma whole_snoc l x : whole (l ++ [x]) = (whole l +:+ x)%string.
Proof. rewrite whole_app. cbn. by rewrite app_nil_r_str. Qed.

Lemma take_drop_str n s : (take n s +:+ drop n s)%string = s.
Proof. revert n; induction s as [|c s IH]; intros [|n]; cbn; try done. by rewrite IH. Qed.

(** Nothing but white space. *)
Definition blank (s : string) : Prop := exists l, s = whole l /\ Forall (fun w => w ∈ white_space) l.
Lemma blank_nil : blank EmptyString.
Proof. by exists []. Qed.
Lemma blank_app a b : blank a -> blank b -> blank (a +:+ b)%string.
Proof. intros (l & -> & Hl) (k & -> & Hk). exists (l ++ k). split; [by rewrite whole_app | by apply Forall_app]. Qed.

Lemma leading_of_spec ws s n : leading_of ws s = Some n ->
  exists w r, w ∈ ws /\ s = (w +:+ r)%string /\ n = String.length w.
Proof.
  induction ws as [|w ws IH]; cbn; [done|]. destruct (starts_with w s) eqn:E.
  - intros [= <-]. apply starts_with_spec in E as [r ->]. exists w, r. split_and!; [by left | done | done].
  - intros H. destruct (IH H) as (v & r & Hv & -> & ->). exists v, r. split_and!; [by right | done | done].
Qed.
Lemma trim_start_go_skip k s : trim_start_go k s = trim_start_go 0 (drop k s).
Proof.
  revert k; induction s as [|c s IH]; intros [|k]; try done. cbn [trim_start_go drop]. apply IH.
Qed.
Lemma white_space_nonempty w : w ∈ white_space -> w <> EmptyString.
Proof.
  intros Hw ->. assert (EmptyString ∉ white_space) as H by (apply (bool_decide_unpack _); vm_compute; exact I).
  by apply H.
Qed.

(** [trim_start] cuts off white space, and all of it. *)
Lemma trim_start_spec s :
  exists lead, s = (lead +:+ trim_start s)%string /\ blank lead /\ leading_of white_space (trim_start s) = None.
Proof.
  unfold trim_start. remember (String.length s) as n eqn:E. revert s E.
  induction n as [n IH] using lt_wf_ind. intros s ->.
  destruct s as [|c s]; [exists EmptyString; split_and!; [done | apply blank_nil | done]|].
  cbn [trim_start_go]. destruct (leading_of white_space (String c s)) as [k|] eqn:Ek;
    [|exists EmptyString; split_and!; [done | apply blank_nil | exact Ek]].
  apply leading_of_spec in Ek as (w & r & Hw & Es & ->).
  destruct w as [|d w]; [by apply white_space_nonempty in Hw|]. cbn in Es. injection Es as <- ->.
  cbn [String.length]. rewrite Nat.sub_succ, Nat.sub_0_r, trim_start_go_skip, drop_app.
  destruct (IH (String.length r)) with (s := r) as (lead & Er & Hb & Hn);
    [cbn; rewrite length_app_str; lia | done |].
  exists (String c w +:+ lead)%string. split_and!; [|apply blank_app; [|exact Hb] | exact Hn].
  - rewrite <- app_assoc_str, <- Er. done.
  - exists [String c w]. split; [cbn; by rewrite app_nil_r_str | apply Forall_cons_2; [exact Hw | by apply Forall_nil_2]].
Qed.
Lemma trim_start_idem s : trim_start (trim_start s) = trim_start s.
Proof.
  destruct (trim_start_spec s) as (_ & _ & _ & H). generalize dependent (trim_start s). intros t H.
  unfold trim_start. destruct t; [done|]. cbn [trim_start_go]. by rewrite H.
Qed.

(** *** Searching text assembled from pieces *)

(** Number of positions at which [p] occurs in [s]. *)
Fixpoint occurrences (p s : string) : nat :=
  (if starts_with p s then 1 else 0) +
  match s with
  | EmptyString => 0
  | String _ s' => occurrences p s'
  end.

Lemma contains_occurrences p s : contains p s = false -> occurrences p s = 0.
Proof.
  induction s as [|c s IH]; cbn; intros [-> H]%orb_false_iff; cbn; auto.
Qed.

Lemma starts_with_sep p a b d :
  contains_char d p = false ->
  starts_with p (a +:+ String d b) = starts_with p a.
Proof.
  revert p; induction a as [|c a IH]; intros [|e p]; try done; cbn;
    intros [Hde Hp]%orb_false_iff; cbn.
  - by rewrite Ascii.eqb_sym, Hde.
  - by rewrite IH.
Qed.

(** A separator that the pattern does not use splits the count. *)
Lemma occurrences_sep p a b d :
  contains_char d p = false -> p <> EmptyString ->
  occurrences p (a +:+ String d b) = occurrences p a + occurrences p b.
Proof.
  intros Hd Hp. induction a as [|c a IH].
  - rewrite app_nil_str. cbn. destruct p as [|e p]; [done|]. cbn in *.
    apply orb_false_iff in Hd as [Hd _]. by rewrite Ascii.eqb_sym, Hd.
  - rewrite app_cons_str. cbn [occurrences].
    rewrite <- app_cons_str, (starts_with_sep p (String c a)) by done.
    rewrite IH. lia.
Qed.

(** Text that lacks the pattern's first character carries no occurrence. *)
Lemma occurrences_skip c q t r :
  contains_char c t = false ->
  occurrences (String c q) (t +:+ r) = occurrences (String c q) r.
Proof.
  induction t as [|d t IH]; [done|]. rewrite app_cons_str. cbn.
  intros [-> Ht]%orb_false_iff. cbn. auto.
Qed.

Lemma occurrences_clean c q t :
  contains_char c t = false -> occurrences (String c q) t = 0.
Proof.
  induction t as [|d t IH]; cbn; [done|]. intros [-> Ht]%orb_false_iff. cbn. auto.
Qed.

Lemma contains_skip c q t r :
  contains_char c t = false ->
  contains (String c q) (t +:+ r) = contains (String c q) r.
Proof.
  induction t as [|d t IH]; [done|]. rewrite app_cons_str. cbn.
  intros [-> Ht]%orb_false_iff. cbn. auto.
Qed.

Lemma contains_char_app c a b :
  contains_char c (a +:+ b) = contains_char c a || contains_char c b.
Proof.
  induction a as [|d a IH]; [done|]. rewrite app_cons_str. cbn. by rewrite IH, orb_assoc.
Qed.

Lemma contains_char_replace c p to k s :
  contains_char c s = false -> contains_char c to = false ->
  contains_char c (replace_go p to k s) = false.
Proof.
  revert k; induction s as [|d s IH]; intros k; cbn; [done|].
  intros [Hd Hs]%orb_false_iff Ht.
  destruct k; [|by apply IH].
  destruct (starts_with p (String d s)); cbn.
  - rewrite contains_char_app, Ht. by apply IH.
  - rewrite Hd. by apply IH.
Qed.

Lemma contains_char_replace_self c to s :
  contains_char c to = false ->
  contains_char c (replace (String c "") to s) = false.
Proof.
  intros Ht. unfold replace. induction s as [|d s IH]; cbn; [done|].
  destruct (Ascii.eqb_spec c d) as [->|Hne]; cbn.
  - rewrite contains_char_app, Ht. exact IH.
  - apply Ascii.eqb_neq in Hne. by rewrite Hne.
Qed.

(** Replacing every occurrence of a pattern whose first character appears
    nowhere else in it, by a text that starts with the same character and then
    departs from the pattern, leaves no occurrence behind. *)
Section Neutralize.
Context (c x q0 : ascii) (q t : string).
Hypothesis Hq : contains_char c (String q0 q) = false.
Hypothesis Ht : contains_char c (String x t) = false.
Hypothesis Hx : x <> q0.
Let p := String c (String q0 q).
Let to := String c (String x t).

Lemma replace_tail r s :
  contains_char c r = false ->
  starts_with r (replace_go p to 0 s) = true -> starts_with r s = true.
Proof.
  revert r; induction s as [|d s IH]; intros r Hr; [done|]. cbn [replace_go].
  destruct (starts_with p (String d s)).
  - destruct r as [|e r]; [done|]. unfold to. rewrite app_cons_str. cbn.
    cbn in Hr. apply orb_false_iff in Hr as [Hr _].
    by rewrite Ascii.eqb_sym, Hr.
  - destruct r as [|e r]; [done|]. cbn. intros [-> H]%andb_true_iff. cbn.
    cbn in Hr. apply orb_false_iff in Hr as [_ Hr]. by apply IH.
Qed.

Lemma replace_neutralizes k s : contains p (replace_go p to k s) = false.
Proof.
  revert k; induction s as [|d s IH]; intros k; [done|]. cbn [replace_go].
  destruct k as [|k]; [|apply IH].
  destruct (starts_with p (String d s)) eqn:Hp.
  - unfold to. rewrite app_cons_str. cbn [contains].
    apply orb_false_iff; split.
    + unfold p. rewrite app_cons_str. cbn. rewrite Ascii.eqb_refl. cbn.
      by apply not_eq_sym, Ascii.eqb_neq in Hx as ->.
    + unfold p. rewrite contains_skip by done. apply IH.
  - cbn [contains]. apply orb_false_iff; split; [|apply IH].
    destruct (starts_with p (String d (replace_go p to 0 s))) eqn:Hd; [|reflexivity].
    rewrite <- Hp. unfold p at 1 in Hd. unfold p.
    cbn [starts_with] in Hd |- *.
    apply andb_true_iff in Hd as [-> Hd].
    symmetry. apply (replace_tail (String q0 q) s Hq Hd).
Qed.
End Neutralize.

(** *** Cuts at character boundaries: [is_char_boundary], and the loop
    [while cut > 0 && !is_char_boundary(cut) { cut -= 1 }] *)
Definition is_char_boundary (s : string) (n : nat) : bool :=
  Nat.eqb n 0 || match get_byte n s with
                 | Some c => is_char_start c
                 | None => Nat.eqb n (String.length s)
                 end.
(** [str::get] on a range. *)
Definition get_range (s : string) (a b : nat) : option string :=
  if Nat.leb a b && Nat.leb b (String.length s) && is_char_boundary s a && is_char_boundary s b
  then Some (take (b - a) (drop a s)) else None.
Fixpoint char_cut (s : string) (cut : nat) : nat :=
  match cut with
  | 0 => 0
  | S k => if is_char_boundary s cut then cut else char_cut s k
  end.
Lemma char_cut_le s cut : char_cut s cut <= cut.
Proof. induction cut as [|k IH]; cbn [char_cut]; [lia|]. destruct (is_char_boundary s (S k)); lia. Qed.
Lemma char_cut_boundary s cut : is_char_boundary s (char_cut s cut) = true.
Proof. induction cut as [|k IH]; cbn [char_cut]; [done|]. by destruct (is_char_boundary s (S k)) eqn:E. Qed.
Lemma length_take n s : String.length (take n s) = Nat.min n (String.length s).
Proof. revert s; induction n as [|n IH]; intros [|c s]; cbn; [done..|]. by rewrite IH. Qed.

End Str.

(** ** Lists *)

(** [Vec::dedup]: drop consecutive repetitions. *)
Fixpoint vec_dedup {A} `{EqDecision A} (l : list A) : list A :=
  match l with
  | x :: (y :: _) as l' => if decide (x = y) then vec_dedup l' else x :: vec_dedup l'
  | _ => l
  end.

Lemma Forall_vec_dedup {A} `{EqDecision A} (P : A -> Prop) (l : list A) :
  Forall P l -> Forall P (vec_dedup l).
Proof.
  induction 1 as [|x l Hx Hl IH]; cbn; [done|].
  destruct l as [|y l]; [by constructor|]. case_decide; [done | by constructor].
Qed.

Lemma elem_of_vec_dedup {A} `{EqDecision A} (l : list A) x : x ∈ vec_dedup l <-> x ∈ l.
Proof.
  induction l as [|y l IH]; [done|]. cbn [vec_dedup]. destruct l as [|z l]; [done|].
  case_decide as E; [|by rewrite !elem_of_cons, IH, elem_of_cons].
  rewrite IH. subst. rewrite !elem_of_cons. tauto.
Qed.

Lemma head_vec_dedup {A} `{EqDecision A} (l : list A) : head (vec_dedup l) = head l.
Proof.
  induction l as [|y l IH]; [done|]. cbn [vec_dedup]. destruct l as [|z l]; [done|].
  case_decide as E; [|done]. rewrite IH. by subst.
Qed.

(** [sort] on strings, then [dedup]. *)
Definition sort_strings (l : list string) : list string := merge_sort String.le l.

(** [iter().position] and [iter().rposition]. *)
Fixpoint position {A} (f : A -> bool) (l : list A) : option nat :=
  match l with
  | [] => None
  | x :: l' => if f x then Some 0 else S <$> position f l'
  end.

Fixpoint rposition {A} (f : A -> bool) (l : list A) : option nat :=
  match l with
  | [] => None
  | x :: l' => match rposition f l' with
               | Some i => Some (S i)
               | None => if f x then Some 0 else None
               end
  end.

(** [iter().find], [take_while]. *)
Fixpoint find_first {A} (f : A -> bool) (l : list A) : option A :=
  match l with
  | [] => None
  | x :: l' => if f x then Some x else find_first f l'
  end.
Fixpoint take_while {A} (f : A -> bool) (l : list A) : list A :=
  match l with
  | [] => []
  | x :: l' => if f x then x :: take_while f l' else []
  end.

(** Predicates inherited by subsequences. *)
Lemma sublist_Forall {A} (P : A -> Prop) (l k : list A) : sublist l k -> Forall P k -> Forall P l.
Proof. induction 1; rewrite ?Forall_cons; [done | intros [? ?]; auto ..]. Qed.

Lemma sublist_full {A} (l k : list A) : sublist l k -> length k <= length l -> l = k.
Proof.
  induction 1 as [|x l k _ IH|x l k Hs IH]; cbn; [done | intros; f_equal; apply IH; lia|].
  apply sublist_length in Hs. lia.
Qed.
Lemma sublist_sorted {A} (R : relation A) (l k : list A) :
  sublist l k -> StronglySorted R k -> StronglySorted R l.
Proof.
  induction 1 as [|x l k Hs IH|x l k Hs IH]; [done| |]; inversion 1; subst; [constructor|]; eauto.
  by eapply sublist_Forall.
Qed.

(** Loops that rewrite or filter a list while they thread a state:
    [iter_mut] and [Vec::retain]. *)
Fixpoint map_accum {S A B} (f : S -> A -> S * B) (s : S) (l : list A) : S * list B :=
  match l with
  | [] => (s, [])
  | x :: l =>
      let '(s, y) := f s x in
      let '(s, ys) := map_accum f s l in
      (s, y :: ys)
  end.

Fixpoint retain_accum {S A} (f : S -> A -> S * bool) (s : S) (l : list A) : S * list A :=
  match l with
  | [] => (s, [])
  | x :: l =>
      let '(s, keep) := f s x in
      let '(s, ys) := retain_accum f s l in
      (s, if keep then x :: ys else ys)
  end.

Lemma map_accum_app {S A B} (f : S -> A -> S * B) s l k :
  map_accum f s (l ++ k) =
  (let '(s1, l') := map_accum f s l in
   let '(s2, k') := map_accum f s1 k in (s2, l' ++ k')).
Proof.
  revert s; induction l as [|x l IH]; intros s; cbn.
  - by destruct (map_accum f s k).
  - destruct (f s x) as [s1 y]. rewrite IH. destruct (map_accum f s1 l) as [s2 l'].
    by destruct (map_accum f s2 k).
Qed.

Lemma map_accum_length {S A B} (f : S -> A -> S * B) s l :
  length (snd (map_accum f s l)) = length l.
Proof.
  revert s; induction l as [|x l IH]; intros s; cbn; [done|].
  destruct (f s x) as [s1 y]. specialize (IH s1). destruct (map_accum f s1 l). cbn in *. lia.
Qed.

Lemma existsb_elem {A} (f : A -> bool) l : existsb f l = true <-> exists x, x ∈ l /\ f x = true.
Proof. rewrite existsb_exists. by setoid_rewrite list_elem_of_In. Qed.
Lemma existsb_ext_elem {A} (f g : A -> bool) l : (forall x, x ∈ l -> f x = g x) -> existsb f l = existsb g l.
Proof.
  intros H. apply eq_true_iff_eq. rewrite !existsb_elem.
  split; intros (x & Hx & E); exists x; (split; [done|]); [by rewrite <- H | by rewrite H].
Qed.

Lemma find_first_Some {A} (f : A -> bool) l x :
  find_first f l = Some x -> f x = true /\ x ∈ l.
Proof.
  induction l as [|y l IH]; cbn; [discriminate|].
  destruct (f y) eqn:E; [intros [= ->] | intros H; destruct (IH H)]; split; auto;
    by (constructor || constructor 2).
Qed.

Lemma find_first_None {A} (f : A -> bool) l :
  find_first f l = None <-> Forall (fun x => f x = false) l.
Proof.
  induction l as [|y l IH]; cbn; [done|]. rewrite Forall_cons.
  destruct (f y) eqn:E; [|rewrite IH]; intuition congruence.
Qed.

Lemma find_first_app {A} (f : A -> bool) l k :
  find_first f (l ++ k) = match find_first f l with Some x => Some x | None => find_first f k end.
Proof. induction l as [|y l IH]; cbn; [done|]. by destruct (f y). Qed.

Lemma find_first_map {A B} (g : A -> B) (f : B -> bool) (f' : A -> bool) l :
  (forall x, f (g x) = f' x) -> find_first f (map g l) = g <$> find_first f' l.
Proof. intros H. induction l as [|y l IH]; cbn; [done|]. rewrite H. by destruct (f' y). Qed.

Lemma find_first_position {A} (f : A -> bool) l :
  find_first f l = position f l ≫= (fun i => l !! i).
Proof.
  induction l as [|y l IH]; cbn; [done|].
  destruct (f y); [done|]. rewrite IH. by destruct (position f l).
Qed.

Lemma position_Some {A} (f : A -> bool) l i :
  position f l = Some i -> exists x, l !! i = Some x /\ f x = true.
Proof.
  revert i; induction l as [|y l IH]; cbn; intros i; [discriminate|].
  destruct (f y) eqn:E; [intros [= <-]; eauto|].
  destruct (position f l) as [j|]; cbn; [|discriminate]. intros [= <-]. cbn. by apply IH.
Qed.

Lemma rposition_Some {A} (f : A -> bool) l i :
  rposition f l = Some i -> exists x, l !! i = Some x /\ f x = true.
Proof.
  revert i; induction l as [|y l IH]; cbn; intros i; [discriminate|].
  destruct (rposition f l) as [j|]; [intros [= <-]; cbn; by apply IH|].
  destruct (f y) eqn:E; [intros [= <-]; eauto | discriminate].
Qed.

Lemma rposition_None {A} (f : A -> bool) l :
  rposition f l = None <-> Forall (fun x => f x = false) l.
Proof.
  induction l as [|y l IH]; cbn; [done|]. rewrite Forall_cons.
  destruct (rposition f l), (f y) eqn:E; intuition congruence.
Qed.

(** [rposition] finds the last match. *)
Lemma rposition_last {A} (f : A -> bool) l i j x :
  rposition f l = Some i -> l !! j = Some x -> f x = true -> j <= i.
Proof.
  revert i j; induction l as [|y l IH]; intros i j; cbn; [discriminate|].
  destruct (rposition f l) as [k|] eqn:E.
  - intros [= <-] Hj Hx. destruct j as [|j]; [lia|]. cbn in Hj. specialize (IH k j eq_refl Hj Hx). lia.
  - destruct (f y); [|discriminate]. intros [= <-] Hj Hx. destruct j as [|j]; [done|].
    apply rposition_None in E. cbn in Hj. eapply Forall_lookup_1 in E; [|exact Hj]. congruence.
Qed.

(** Lists whose pieces are disjoint. *)
Lemma NoDup_concat_elem {A B} (f : A -> list B) (l : list A) x y z :
  NoDup (concat (map f l)) -> x ∈ l -> y ∈ l -> z ∈ f x -> z ∈ f y -> x = y.
Proof.
  assert (Hin : forall k w, w ∈ k -> z ∈ f w -> z ∈ concat (map f k)).
  { induction 1 as [w k|w v k Hw IH]; intros Hz; cbn [map concat]; apply elem_of_app; auto. }
  induction l as [|a l IH]; cbn [map concat]; intros Hn Hx Hy Hzx Hzy; [by apply not_elem_of_nil in Hx|].
  apply NoDup_app in Hn as (_ & Hdis & Hn).
  apply elem_of_cons in Hx as [->|Hx], Hy as [->|Hy]; auto; exfalso; eapply Hdis; eauto.
Qed.

Lemma NoDup_map_inj {A B} (f : A -> B) (l : list A) x y :
  NoDup (map f l) -> x ∈ l -> y ∈ l -> f x = f y -> x = y.
Proof.
  induction l as [|a l IH]; cbn; intros Hn Hx Hy Hf; [by apply not_elem_of_nil in Hx|].
  apply NoDup_cons in Hn as [Ha Hn].
  assert (Hin : forall z, z ∈ l -> f z ∈ map f l) by (intros z Hz; by apply list_elem_of_fmap_2).
  apply elem_of_cons in Hx as [->|Hx], Hy as [->|Hy]; auto; exfalso; apply Ha;
    [rewrite Hf | rewrite <- Hf]; auto.
Qed.

Lemma NoDup_omap {A B} (f : A -> option B) (l : list A) :
  (forall x y b, f x = Some b -> f y = Some b -> x = y) -> NoDup l -> NoDup (omap f l).
Proof.
  intros Hinj. induction 1 as [|x l Hx Hl IH]; cbn; [constructor|].
  destruct (f x) as [b|] eqn:E; [|done]. constructor; [|done].
  intros (y & Hy & Hyb)%list_elem_of_omap. by rewrite (Hinj x y b E Hyb) in Hx.
Qed.

Lemma filter_partition {A} (f : A -> bool) (l : list A) :
  List.filter (fun x => negb (f x)) l ++ List.filter f l ≡ₚ l.
Proof.
  induction l as [|x l IH]; cbn; [done|]. destruct (f x); cbn; [|by rewrite IH].
  by rewrite <- Permutation_middle, IH.
Qed.

(** ** Counting in a map *)

Section Counting.
Context `{Countable K} {A : Type} (P : K * A -> Prop) `{!forall x, Decision (P x)}.
Implicit Types m : gmap K A.

Lemma size_filter_insert m i x :
  size (filter P (<[i := x]> m)) = (if decide (P (i, x)) then 1 else 0) + size (filter P (delete i m)).
Proof.
  rewrite <- insert_delete_eq. destruct (decide (P (i, x))).
  - rewrite map_filter_insert_True by done. rewrite map_size_insert_None; [done|].
    apply map_lookup_filter_None. left. apply lookup_delete_eq.
  - rewrite map_filter_insert_False by done. by rewrite delete_delete_eq.
Qed.
Lemma size_filter_delete m i x :
  m !! i = Some x ->
  size (filter P m) = (if decide (P (i, x)) then 1 else 0) + size (filter P (delete i m)).
Proof. intros Hi. rewrite <- (insert_id m i x Hi) at 1. apply size_filter_insert. Qed.
End Counting.

(** ** Automation

    [baybo] collects the lemmas components export for [auto]; [app] distributes
    maps, filters, concatenation and length over an append. *)
Create HintDb baybo.
Create Rewrite HintDb app.
#[export] Hint Resolve clamp_range clamp_id Forall_vec_dedup sublist_Forall sublist_sorted : baybo.
#[export] Hint Rewrite @map_app @concat_app @omap_app @List.filter_app @length_app : app.

(** Distribute over appends, in the goal. *)
Ltac split_app := autorewrite with app.
(** Arithmetic on lengths of appended lists. *)
Ltac len_app := rewrite ?length_app in *; cbn in *; lia.
(** A parser of fixed spellings: try each. *)
Ltac by_spelling :=
  repeat match goal with
  | |- context [String.eqb ?a ?b] => destruct (String.eqb_spec a b) as [->|]
  end; try discriminate; try (by intros [= <-]); try done.
