(* ===== verification/Effect.v ===== *)
(** * Effects of the async code

    An [async fn] of the sources runs against a state it shares with the rest
    of the program and returns early with [?]: state passing with an error,
    where the effects made before the error stay made.  [zoom] runs such code on
    a part of a larger state. *)

From S2P Require Import Prelude.

Module Effect.

Definition M (S E A : Type) : Type := S -> S * result A E.

Section Monad.
Context {S E : Type}.

Definition ret {A} (a : A) : M S E A := fun s => (s, Ok a).
Definition throw {A} (e : E) : M S E A := fun s => (s, Err e).
Definition bind {A B} (m : M S E A) (k : A -> M S E B) : M S E B := fun s =>
  match m s with
  | (s, Ok a) => k a s
  | (s, Err e) => (s, Err e)
  end.
(** An error of the body as a value: [match body.await]. *)
Definition attempt {A} (m : M S E A) : M S E (result A E) := fun s =>
  let (s, r) := m s in (s, Ok r).
Definition gets {A} (f : S -> A) : M S E A := fun s => (s, Ok (f s)).
Definition modify (f : S -> S) : M S E unit := fun s => (f s, Ok tt).
(** An answer drawn from the state, which it may change. *)
Definition draw {A} (f : S -> S * A) : M S E A := fun s => let (s, a) := f s in (s, Ok a).
Definition when (b : bool) (m : M S E unit) : M S E unit := if b then m else ret tt.
Definition of_result {A} (r : result A E) : M S E A := fun s => (s, r).

(** [for x in l { f(x).await? }] *)
Fixpoint each {X} (f : X -> M S E unit) (l : list X) : M S E unit :=
  match l with
  | [] => ret tt
  | x :: l => bind (f x) (fun _ => each f l)
  end.
(** The answers too, in the order of the list. *)
Fixpoint gather {X A} (f : X -> M S E A) (l : list X) : M S E (list A) :=
  match l with
  | [] => ret []
  | x :: l => bind (f x) (fun a => bind (gather f l) (fun k => ret (a :: k)))
  end.
End Monad.

Definition zoom {S T E A} (get : S -> T) (put : T -> S -> S) (m : M T E A) : M S E A := fun s =>
  let (t, r) := m (get s) in (put t s, r).
Definition map_error {S E F A} (f : E -> F) (m : M S E A) : M S F A := fun s =>
  let (s, r) := m s in (s, match r with Ok a => Ok a | Err e => Err (f e) end).

Notation "'let*' x ':=' e 'in' k" := (bind e (fun x => k))
  (at level 10, x pattern, e at level 100, k at level 200) : baybo_scope.

(** ** Invariants

    [keeps P m]: whatever [m] returns, a state that satisfies [P] is left in
    one that does. *)
Section Keeps.
Context {S E : Type} (P : S -> Prop).

Definition keeps {A} (m : M S E A) : Prop := forall s, P s -> P (m s).1.

Lemma keeps_ret {A} (a : A) : keeps (ret a).
Proof. by intros s H. Qed.
Lemma keeps_throw {A} (e : E) : keeps (throw (A := A) e).
Proof. by intros s H. Qed.
Lemma keeps_bind {A B} (m : M S E A) (k : A -> M S E B) :
  keeps m -> (forall a, keeps (k a)) -> keeps (bind m k).
Proof.
  intros Hm Hk s Hs. unfold bind. specialize (Hm s Hs).
  destruct (m s) as [s' [a|e]]; cbn in *; [by apply Hk | done].
Qed.
Lemma keeps_attempt {A} (m : M S E A) : keeps m -> keeps (attempt m).
Proof. intros Hm s Hs. unfold attempt. specialize (Hm s Hs). by destruct (m s). Qed.
Lemma keeps_gets {A} (f : S -> A) : keeps (gets f).
Proof. by intros s H. Qed.
Lemma keeps_modify f : (forall s, P s -> P (f s)) -> keeps (modify f).
Proof. intros H s Hs. by apply H. Qed.
Lemma keeps_draw {A} (f : S -> S * A) : (forall s, P s -> P (f s).1) -> keeps (draw f).
Proof. intros H s Hs. specialize (H s Hs). unfold draw. by destruct (f s). Qed.
Lemma keeps_when b m : keeps m -> keeps (when b m).
Proof. intros H. destruct b; [exact H | apply keeps_ret]. Qed.
Lemma keeps_of_result {A} (r : result A E) : keeps (of_result r).
Proof. by intros s H. Qed.
Lemma keeps_each {X} (f : X -> M S E unit) l : (forall x, keeps (f x)) -> keeps (each f l).
Proof.
  intros H. induction l as [|x l IH]; [apply keeps_ret | apply keeps_bind; [apply H | intros _; exact IH]].
Qed.
Lemma keeps_gather {X A} (f : X -> M S E A) l : (forall x, keeps (f x)) -> keeps (gather f l).
Proof.
  intros H. induction l as [|x l IH]; [apply keeps_ret|].
  apply keeps_bind; [apply H | intros a]. apply keeps_bind; [exact IH | intros k; apply keeps_ret].
Qed.
End Keeps.

Lemma keeps_zoom {S T E A} (P : S -> Prop) (Q : T -> Prop) get put (m : M T E A) :
  (forall s, P s -> Q (get s)) -> (forall s t, P s -> Q t -> P (put t s)) ->
  keeps Q m -> keeps P (zoom get put m).
Proof.
  intros Hg Hp Hm s Hs. unfold zoom. specialize (Hm _ (Hg s Hs)).
  destruct (m (get s)) as [t r]. cbn in *. by apply Hp.
Qed.
Lemma keeps_map_error {S E F A} (P : S -> Prop) (f : E -> F) (m : M S E A) :
  keeps P m -> keeps P (map_error f m).
Proof. intros Hm s Hs. unfold map_error. specialize (Hm s Hs). by destruct (m s). Qed.

(** ** Outcomes

    [wp m Q s]: run from [s], [m] ends in a result and a state that satisfy
    [Q]. *)
Section Wp.
Context {S E : Type}.

Definition wp {A} (m : M S E A) (Q : result A E -> S -> Prop) (s : S) : Prop := Q (m s).2 (m s).1.

Lemma wp_mono {A} (m : M S E A) (Q R : result A E -> S -> Prop) s :
  wp m Q s -> (forall r s', Q r s' -> R r s') -> wp m R s.
Proof. intros H HQ. by apply HQ. Qed.
Lemma wp_bind {A B} (m : M S E A) (k : A -> M S E B) Q s :
  wp m (fun r s' => match r with Ok a => wp (k a) Q s' | Err e => Q (Err e) s' end) s ->
  wp (bind m k) Q s.
Proof. unfold wp, bind. by destruct (m s) as [s' [a|e]]. Qed.
Lemma wp_ret {A} (a : A) (Q : result A E -> S -> Prop) s : Q (Ok a) s -> wp (ret a) Q s.
Proof. done. Qed.
Lemma wp_gets {A} (f : S -> A) Q s : Q (Ok (f s)) s -> wp (gets f) Q s.
Proof. done. Qed.
Lemma wp_modify f Q s : Q (Ok tt) (f s) -> wp (modify f) Q s.
Proof. done. Qed.
Lemma wp_attempt {A} (m : M S E A) Q s : wp m (fun r s' => Q (Ok r) s') s -> wp (attempt m) Q s.
Proof. unfold wp, attempt. by destruct (m s). Qed.
Lemma wp_draw {A} (f : S -> S * A) Q s : Q (Ok (f s).2) (f s).1 -> wp (draw f) Q s.
Proof. unfold wp, draw. by destruct (f s). Qed.
Lemma wp_keeps {A} (P : S -> Prop) (m : M S E A) s :
  keeps P m -> P s -> wp m (fun _ s' => P s') s.
Proof. intros H Hs. by apply H. Qed.
Lemma wp_keeps_and {A} (P : S -> Prop) (m : M S E A) Q s :
  keeps P m -> P s -> wp m Q s -> wp m (fun r s' => P s' /\ Q r s') s.
Proof. intros H Hs HQ. split; [by apply H | exact HQ]. Qed.
End Wp.

(** ** Programs that do not throw *)
Section Sure.
Context {S E : Type}.

Definition sure {A} (m : M S E A) : Prop := forall s, is_Ok (m s).2 = true.
(** The answer too. *)
Definition returns {A} (Q : A -> Prop) (m : M S E A) : Prop := forall s, exists a, (m s).2 = Ok a /\ Q a.

Lemma sure_ret {A} (a : A) : sure (ret a).
Proof. done. Qed.
Lemma sure_gets {A} (f : S -> A) : sure (gets f).
Proof. done. Qed.
Lemma sure_modify f : sure (modify f).
Proof. done. Qed.
Lemma sure_draw {A} (f : S -> S * A) : sure (draw f).
Proof. intros s. unfold draw. by destruct (f s). Qed.
Lemma sure_bind {A B} (m : M S E A) (k : A -> M S E B) : sure m -> (forall a, sure (k a)) -> sure (bind m k).
Proof. intros Hm Hk s. unfold bind. specialize (Hm s). destruct (m s) as [s' [a|e]]; [apply Hk | done]. Qed.
Lemma sure_attempt {A} (m : M S E A) : sure (attempt m).
Proof. intros s. unfold attempt. by destruct (m s). Qed.
Lemma sure_when b m : sure m -> sure (when b m).
Proof. by destruct b. Qed.
Lemma sure_each {X} (f : X -> M S E unit) l : (forall x, sure (f x)) -> sure (each f l).
Proof. intros H. induction l as [|x l IH]; [done | by apply sure_bind]. Qed.
Lemma returns_ret {A} (Q : A -> Prop) a : Q a -> returns Q (ret a).
Proof. intros H s. by exists a. Qed.
Lemma returns_bind {A B} (Q : B -> Prop) (m : M S E A) (k : A -> M S E B) :
  sure m -> (forall a, returns Q (k a)) -> returns Q (bind m k).
Proof. intros Hm Hk s. unfold bind. specialize (Hm s). destruct (m s) as [s' [a|e]]; [apply Hk | done]. Qed.
End Sure.

Create HintDb sure.
#[export] Hint Resolve sure_ret sure_gets sure_modify sure_draw sure_attempt : sure.
(** Peels a program into calls the [sure] database knows. *)
Ltac sure_auto :=
  repeat first
    [ solve [eauto 2 with sure] | apply sure_bind; [|intros ?] | apply sure_when
    | match goal with |- sure (match ?x with _ => _ end) => destruct x end ].

Create HintDb keeps.
#[export] Hint Resolve keeps_ret keeps_throw keeps_bind keeps_attempt keeps_gets keeps_when
  keeps_of_result keeps_each keeps_map_error : keeps.

(** Peels a program into its primitive steps. *)
Ltac keeps_step :=
  first
    [ apply keeps_bind; [|intros ?] | apply keeps_attempt | apply keeps_when | apply keeps_each; intros ?
    | apply keeps_ret | apply keeps_throw | apply keeps_gets | apply keeps_of_result
    | apply keeps_map_error ].

End Effect.
