(* ===== verification/Money.v ===== *)
(** * Integer money ([crates/model/src/money.rs])

    [MicroUsd] is an [i64] count of micro-dollars; the operators saturate and
    the token price is computed in [i128] and clamped back. *)
From S2P Require Import Prelude.

Module Money.

(** The newtype [MicroUsd(i64)]: the payload as a [Z] kept in the [i64]
    range by the operations. *)
Record MicroUsd := mk_usd { micros : Z }.

Definition PER_USD : Z := 1000000.
Definition ZERO : MicroUsd := mk_usd 0.

Definition from_micros (m : Z) : MicroUsd := mk_usd m.
Definition into_micros (m : MicroUsd) : Z := micros m.

Definition cost_for_tokens (per_million : MicroUsd) (tokens : Z) : MicroUsd :=
  let raw := Z.quot (tokens * micros per_million) 1000000 in
  mk_usd (clamp i64_min i64_max raw).

Definition add (a b : MicroUsd) : MicroUsd := mk_usd (i64_sat_add (micros a) (micros b)).
Definition sub (a b : MicroUsd) : MicroUsd := mk_usd (i64_sat_sub (micros a) (micros b)).

Definition sum (l : list MicroUsd) : MicroUsd := foldl add ZERO l.

Definition wf (m : MicroUsd) : Prop := in_i64 (micros m).

(** ** Arithmetic stays in range *)

Lemma add_wf a b : wf (add a b).
Proof. apply clamp_range. unfold_ints; lia. Qed.

Lemma sub_wf a b : wf (sub a b).
Proof. apply clamp_range. unfold_ints; lia. Qed.

Lemma sum_wf_from l : forall acc, wf acc -> wf (foldl add acc l).
Proof. induction l as [|x l IH]; cbn; auto using add_wf. Qed.

(** The exact mathematical total of a list of amounts. *)
Fixpoint exact_total (l : list MicroUsd) : Z :=
  match l with
  | [] => 0%Z
  | m :: l' => (micros m + exact_total l')%Z
  end.

Lemma exact_total_nonneg l :
  Forall (fun m => 0 <= micros m)%Z l -> (0 <= exact_total l)%Z.
Proof. induction 1; cbn; lia. Qed.

Lemma sum_from_nonneg l : forall acc,
  (0 <= micros acc <= i64_max)%Z ->
  Forall (fun m => 0 <= micros m)%Z l ->
  micros (foldl add acc l) = Z.min i64_max (micros acc + exact_total l).
Proof.
  induction l as [|x l IH]; cbn; intros acc Hacc Hl.
  - lia.
  - inversion Hl as [|? ? Hx Hl']; subst.
    pose proof (exact_total_nonneg l Hl').
    rewrite IH; [cbn; int_cases | cbn; int_cases | done].
Qed.

(** ** Token cost *)

Lemma quot_million_bounds x :
  (0 <= x)%Z -> (1000000 * Z.quot x 1000000 <= x < 1000000 * Z.quot x 1000000 + 1000000)%Z.
Proof.
  intros. pose proof (Z.quot_rem' x 1000000).
  pose proof (Z.rem_bound_pos x 1000000). lia.
Qed.

Lemma cost_product_i128 price tokens :
  wf price -> in_u64 tokens -> in_i128 (tokens * micros price).
Proof. unfold wf; unfold_ints; nia. Qed.

Lemma cost_unsaturated price tokens :
  (0 <= Z.quot (tokens * micros price) 1000000 <= i64_max)%Z ->
  micros (cost_for_tokens price tokens) = Z.quot (tokens * micros price) 1000000.
Proof. intros. cbn. apply clamp_id. unfold_ints; lia. Qed.

(** The billed amount of one call.  For every [u64] token count and every
    non-negative [i64] price the product fits the [i128] it is computed in,
    the result is a valid amount, and it is the exact price rounded down: at
    most the exact [tokens * price / 10^6] and less than one micro-dollar
    below it, unless the exact price exceeds what an [i64] holds, where it is
    [i64::MAX]. *)
Theorem cost_for_tokens_exact (price : MicroUsd) (tokens : Z)
    (Hp : wf price) (Hpos : (0 <= micros price)%Z) (Ht : in_u64 tokens) :
  let c := micros (cost_for_tokens price tokens) in
  let exact := (tokens * micros price)%Z in
  in_i128 exact /\ wf (cost_for_tokens price tokens) /\
  ((1000000 * c <= exact < 1000000 * c + 1000000)%Z \/
   (c = i64_max /\ (1000000 * i64_max < exact)%Z)).
Proof.
  cbv zeta.
  assert (Hex : (0 <= tokens * micros price)%Z) by (unfold_ints; nia).
  pose proof (quot_million_bounds _ Hex) as Hq.
  repeat split.
  - apply cost_product_i128; auto.
  - apply cost_product_i128; auto.
  - cbn. apply clamp_range. unfold_ints; lia.
  - cbn. apply clamp_range. unfold_ints; lia.
  - cbn. int_cases.
Qed.

Lemma cost_for_tokens_exact_witness :
  (3000000 * 1 <= 1001 * 3000 < 3000000 * 1 + 1000000)%Z /\
  in_i128 (1001 * 3000).
Proof.
  destruct (cost_for_tokens_exact (mk_usd 3000) 1001) as (H1 & H2 & H3);
    [unfold wf; unfold_ints; cbn; lia | cbn; lia | unfold_ints; lia |].
  split; [lia | exact H1].
Defined.

(** Billing a call in two halves never charges more than billing it whole,
    and undercharges by at most one micro-dollar; a larger call never costs
    less. *)
Theorem cost_for_tokens_split (price : MicroUsd) (a b : Z)
    (Hpos : (0 <= micros price)%Z) (Ha : (0 <= a)%Z) (Hb : (0 <= b)%Z)
    (Hfit : ((a + b) * micros price <= 1000000 * i64_max)%Z) :
  let c t := micros (cost_for_tokens price t) in
  (c a + c b <= c (a + b) <= c a + c b + 1)%Z /\ (c a <= c (a + b))%Z.
Proof.
  cbv beta zeta.
  assert (Ha' : (0 <= a * micros price)%Z) by nia.
  assert (Hb' : (0 <= b * micros price)%Z) by nia.
  assert (Hsum : ((a + b) * micros price = a * micros price + b * micros price)%Z) by ring.
  pose proof (quot_million_bounds _ Ha'). pose proof (quot_million_bounds _ Hb').
  assert (0 <= (a + b) * micros price)%Z as Hab by lia.
  pose proof (quot_million_bounds _ Hab).
  rewrite 3!cost_unsaturated by (unfold_ints; lia). lia.
Qed.

Lemma cost_for_tokens_split_witness :
  (micros (cost_for_tokens (mk_usd 1500000) 1) + micros (cost_for_tokens (mk_usd 1500000) 1) = 2)%Z /\
  (2 <= micros (cost_for_tokens (mk_usd 1500000) (1 + 1)) <= 3)%Z.
Proof.
  split; [reflexivity |].
  destruct (cost_for_tokens_split (mk_usd 1500000) 1 1) as [H _];
    [cbn; lia | lia | lia | unfold_ints; cbn; lia |].
  vm_compute in H |- *. exact H.
Defined.

(** Summing spend saturates instead of wrapping.  The sum of any list of
    amounts is a valid amount, and the sum of non-negative amounts is the
    exact total capped at [i64::MAX] — so a comparison with a spending limit
    can never be fooled by an overflow back into the negatives. *)
Theorem sum_saturates (l : list MicroUsd) (H : Forall (fun m => 0 <= micros m)%Z l) :
  wf (sum l) /\ micros (sum l) = Z.min i64_max (exact_total l).
Proof.
  split.
  - apply sum_wf_from. unfold wf; unfold_ints; cbn; lia.
  - unfold sum. rewrite sum_from_nonneg; cbn; auto. unfold_ints; lia.
Qed.

Lemma sum_saturates_witness :
  micros (sum [mk_usd i64_max; mk_usd 5]) = i64_max.
Proof.
  destruct (sum_saturates [mk_usd i64_max; mk_usd 5]) as [_ H].
  - repeat constructor; cbn; unfold_ints; lia.
  - rewrite H. reflexivity.
Defined.

End Money.
