(* ===== verification/SessionLog.v ===== *)
(** * The session transcript log ([crates/store/src/session.rs],
      [crates/storage/src/sqlite/session.rs])

    The [session_messages] table of one session: rows under contiguous ordinals,
    a compaction that supersedes the active rows and appends their replacement,
    source-event keys that make an append idempotent, the token anchor, and the
    two families of reads — the active rows the model is shown and the real
    conversation a chat surface pages through.

    Rows are kept in the order their ordinals were handed out, which
    [log_wf] shows is the order every [ORDER BY ordinal] asks for.  A message is
    stored as its serde text, its payload deduplicated by hash and mirrored into
    the search index: those encodings are left out, so a row simply holds its
    message. *)

From S2P Require Import Prelude Message.
Import Message.

Module SessionLog.

(** ** Timestamps

    [chrono]'s microsecond conversions: what is stored reads back as an instant
    no later than the one that was written. *)
Class Chrono := {
  to_us : Z -> Z;
  from_us : Z -> option Z;
}.
Class ChronoLaws (C : Chrono) :=
  from_to_us : forall t, exists t', from_us (to_us t) = Some t' /\ (t' <= t)%Z.

(** ** Rows *)

Record StoredMessage := mk_row {
  ordinal : Z;
  superseded_by : option Z;
  created_at : Z;
  compaction_inserted : bool;
  source_event_id : option string;
  message : ChatMessage;
}.

Record ActiveMessageRow := mk_active { row_ordinal : Z; row_message : ChatMessage }.

Record TokenAnchor := mk_anchor {
  model_id : string;
  actual_tokens : N;
  message_count : nat;
  request_overhead : N;
  through_ordinal : Z;
}.
(** The anchor's columns of the session's row. *)
Record AnchorColumns := mk_columns {
  token_anchor_model : string;
  token_anchor_tokens : Z;
  token_anchor_message_count : Z;
  token_anchor_request_overhead : Z;
  token_anchor_through_ordinal : Z;
}.

Record NewTokenAnchor := mk_new_anchor {
  new_model_id : string;
  new_actual_tokens : N;
  new_message_count : nat;
  new_request_overhead : N;
}.

Inductive SessionMessageAppendOutcome := Inserted (ordinal : Z) | Existing (ordinal : Z).
Definition outcome_ordinal (o : SessionMessageAppendOutcome) : Z :=
  match o with Inserted n | Existing n => n end.
Definition was_inserted (o : SessionMessageAppendOutcome) : bool :=
  match o with Inserted _ => true | Existing _ => false end.

Inductive StorageError :=
| Storage (s : string) | NotFound (s : string) | Conflict (s : string) | TooLarge (limit actual : N)
| Internal (s : string).

Definition Log : Type := list StoredMessage.

Record SessionStore := mk_store { log : Log; anchor : option AnchorColumns }.

(** ** Writes *)

(** [SELECT MAX(ordinal)]: [NULL] on an empty log. *)
Definition max_opt (x : option Z) (z : Z) : option Z :=
  Some (match x with Some y => Z.max y z | None => z end).
Definition latest_session_ordinal (l : Log) : option Z := foldl max_opt None (map ordinal l).
(** [COALESCE(MAX(ordinal), -1) + 1] *)
Definition next_ordinal (l : Log) : Z := (default (-1) (latest_session_ordinal l) + 1)%Z.

Definition is_active (r : StoredMessage) : bool := negb (is_some (superseded_by r)).

Section Ops.
Context {C : Chrono}.

Definition append_session_message (now : Z) (m : ChatMessage) (l : Log) : Log * Z :=
  let n := next_ordinal l in
  (l ++ [mk_row n None (to_us now) false None m], n).

Definition has_event (key : string) (r : StoredMessage) : bool :=
  bool_decide (source_event_id r = Some key).
Definition find_message_ordinal_by_source_event_id (key : string) (l : Log) : option Z :=
  ordinal <$> find_first (has_event key) l.

(** The insert does nothing when the unique key is taken; then the row that
    holds it is looked up. *)
Definition append_session_message_idempotent (now : Z) (key : string) (m : ChatMessage) (l : Log)
    : Log * result SessionMessageAppendOutcome StorageError :=
  if String.eqb key "" then (l, Err (Storage "source_event_id must not be empty"))
  else
    match find_message_ordinal_by_source_event_id key l with
    | Some n => (l, Ok (Existing n))
    | None =>
        let n := next_ordinal l in
        (l ++ [mk_row n None (to_us now) false (Some key) m], Ok (Inserted n))
    end.

Definition supersede (n : Z) (r : StoredMessage) : StoredMessage :=
  match superseded_by r with
  | Some _ => r
  | None => mk_row (ordinal r) (Some n) (created_at r) (compaction_inserted r)
              (source_event_id r) (message r)
  end.
Fixpoint insert_rows (n : Z) (now : Z) (new_active : list ChatMessage) : Log :=
  match new_active with
  | [] => []
  | m :: ms => mk_row n None (to_us now) true None m :: insert_rows (n + 1) now ms
  end.
Definition apply_session_compaction (now : Z) (new_active : list ChatMessage) (l : Log) : Log * Z :=
  let n := next_ordinal l in
  (map (supersede n) l ++ insert_rows n now new_active, n).

(** ** Reads *)

Definition active_row (r : StoredMessage) : ActiveMessageRow := mk_active (ordinal r) (message r).
Definition load_active_session_message_rows (l : Log) : list ActiveMessageRow :=
  map active_row (List.filter is_active l).
Definition load_active_session_messages (l : Log) : list ChatMessage :=
  map row_message (load_active_session_message_rows l).
Definition count_active_messages (l : Log) : nat := length (List.filter is_active l).
Definition active_index_of_ordinal (n : Z) (l : Log) : option nat :=
  if existsb (fun r => is_active r && (ordinal r =? n)%Z) l then
    Some (length (List.filter (fun r => is_active r && (ordinal r <? n)%Z) l))
  else None.

(** The real conversation: compaction's own rows are hidden, the superseded
    originals shown. *)
Definition displayed (r : StoredMessage) : bool := negb (compaction_inserted r).
Definition out_of_range : StorageError :=
  Storage "session_messages.created_at out of range".
Fixpoint stamped (rs : list StoredMessage) : result (list (Z * Z * ChatMessage)) StorageError :=
  match rs with
  | [] => Ok []
  | r :: rs =>
      match from_us (created_at r) with
      | None => Err out_of_range
      | Some t => let? out := stamped rs in Ok ((ordinal r, t, message r) :: out)
      end
  end.
Definition below (before : option Z) (r : StoredMessage) : bool :=
  match before with Some b => (ordinal r <? b)%Z | None => true end.
(** [ORDER BY ordinal DESC LIMIT n], decoded, then put back in order. *)
Definition load_active_session_messages_tail (before : option Z) (limit : nat) (l : Log)
    : result (list (Z * Z * ChatMessage)) StorageError :=
  match limit with
  | 0 => Ok []
  | _ =>
      let page := take limit (rev (List.filter (fun r => displayed r && below before r) l)) in
      let? out := stamped page in Ok (rev out)
  end.
Definition load_active_session_messages_since (after : Z) (limit : nat) (l : Log)
    : result (list (Z * Z * ChatMessage)) StorageError :=
  match limit with
  | 0 => Ok []
  | _ => stamped (take limit (List.filter (fun r => displayed r && (after <? ordinal r)%Z) l))
  end.

Definition watermarks (l : Log) : list Z := omap superseded_by l.
Definition supersede_watermark (l : Log) : option Z := foldl max_opt None (watermarks l).
Fixpoint stamps (rs : list StoredMessage) : result (list (Z * Z)) StorageError :=
  match rs with
  | [] => Ok []
  | r :: rs =>
      match from_us (created_at r) with
      | None => Err out_of_range
      | Some t => let? out := stamps rs in Ok ((ordinal r, t) :: out)
      end
  end.
Definition compaction_boundaries (l : Log) : result (list (Z * Z)) StorageError :=
  stamps (List.filter (fun r => bool_decide (ordinal r ∈ watermarks l)) l).

(** [ORDER BY ordinal DESC LIMIT 1] *)
Definition find_message_ordinal_by_platform_msg_id (pid : string) (l : Log) : option Z :=
  if String.eqb pid "" then None
  else ordinal <$> find_first (fun r => String.eqb (platform_msg_id (message r)) pid) (rev l).

(** A row as the trace reader gets it: the row with its decoded instant. *)
Fixpoint load_messages_with_supersede_impl (after : option Z) (l : Log)
    : result (list (StoredMessage * Z)) StorageError :=
  match l with
  | [] => Ok []
  | r :: l =>
      if (default i64_min after <? ordinal r)%Z then
        match from_us (created_at r) with
        | None => Err (Internal "session_messages.created_at out of range")
        | Some t => let? out := load_messages_with_supersede_impl after l in Ok ((r, t) :: out)
        end
      else load_messages_with_supersede_impl after l
  end.
Definition load_session_messages_with_supersede (l : Log)
    : result (list (StoredMessage * Z)) StorageError :=
  load_messages_with_supersede_impl None l.

(** ** The token anchor *)

Definition as_i64 (n : Z) : Z := Z.min n i64_max.
(** The [UPDATE] is guarded by [EXISTS]: a session without rows keeps the
    columns it has. *)
Definition record_token_anchor (a : NewTokenAnchor) (s : SessionStore) : SessionStore :=
  match latest_session_ordinal (log s) with
  | None => s
  | Some n =>
      mk_store (log s)
        (Some (mk_columns (new_model_id a) (as_i64 (Z.of_N (new_actual_tokens a)))
                 (as_i64 (Z.of_nat (new_message_count a)))
                 (as_i64 (Z.of_N (new_request_overhead a))) n))
  end.
(** [n.max(0) as usize] *)
Definition as_usize (n : Z) : N := Z.to_N (Z.max n 0).
Definition load_token_anchor (s : SessionStore) : option TokenAnchor :=
  match anchor s with
  | Some c =>
      Some (mk_anchor (token_anchor_model c) (as_usize (token_anchor_tokens c))
              (N.to_nat (as_usize (token_anchor_message_count c)))
              (as_usize (token_anchor_request_overhead c)) (token_anchor_through_ordinal c))
  | None => None
  end.

(** ** Histories of a log

    A compaction always carries rows: the context manager declines an empty
    replacement ([ContextManager.run_compression]). *)

Inductive op :=
| OpAppend (now : Z) (m : ChatMessage)
| OpOnce (now : Z) (key : string) (m : ChatMessage)
| OpCompact (now : Z) (head : ChatMessage) (rest : list ChatMessage).
Definition run_op (l : Log) (o : op) : Log :=
  match o with
  | OpAppend now m => (append_session_message now m l).1
  | OpOnce now key m => (append_session_message_idempotent now key m l).1
  | OpCompact now m ms => (apply_session_compaction now (m :: ms) l).1
  end.
Definition run (l : Log) (os : list op) : Log := foldl run_op l os.

End Ops.

(** ** The shape of a log *)

Definition size (l : Log) : Z := Z.of_nat (length l).

(** Ordinals count up from zero; a marker names an ordinal after its own row
    that the log has; a source event owns one row. *)
Record log_wf (l : Log) : Prop := mk_wf {
  wf_ordinals : map ordinal l = seqZ 0 (size l);
  wf_markers : Forall (fun r => forall s, superseded_by r = Some s ->
                 (ordinal r < s < size l)%Z) l;
  wf_events : NoDup (omap source_event_id l);
}.

Section Proofs.
Context {C : Chrono}.

Lemma foldl_max_seq k (n : nat) :
  foldl max_opt (Some k) (seqZ (k + 1) (Z.of_nat n)) = Some (k + Z.of_nat n)%Z.
Proof.
  revert k. induction n as [|n IH]; intros k.
  { rewrite seqZ_nil by lia. cbn. f_equal. lia. }
  rewrite seqZ_cons by lia. cbn [foldl]. unfold max_opt at 2.
  replace (Z.max k (k + 1)) with (k + 1)%Z by lia.
  replace (Z.succ (k + 1)) with ((k + 1) + 1)%Z by lia.
  replace (Z.pred (Z.of_nat (S n))) with (Z.of_nat n) by lia. rewrite IH. f_equal. lia.
Qed.

Lemma latest_ordinal l : log_wf l ->
  latest_session_ordinal l = match l with [] => None | _ => Some (size l - 1)%Z end.
Proof.
  intros H. unfold latest_session_ordinal. rewrite (wf_ordinals l H). destruct l as [|r l]; [done|].
  rewrite seqZ_cons by (unfold size; cbn; lia). cbn [foldl]. unfold max_opt at 2.
  change (Z.succ 0) with (0 + 1)%Z.
  replace (Z.pred (size (r :: l))) with (Z.of_nat (length l)) by (unfold size; cbn; lia).
  rewrite foldl_max_seq. f_equal. unfold size; cbn. lia.
Qed.

Lemma next_ordinal_length l : log_wf l -> next_ordinal l = size l.
Proof. intros H. unfold next_ordinal. rewrite latest_ordinal by done. unfold size; destruct l; cbn; lia. Qed.

(** ** What later writes do to a log *)

(** A row keeps everything but its marker, which is written once, naming an
    ordinal no earlier than the log's end. *)
Definition row_later (n : Z) (r r' : StoredMessage) : Prop :=
  r' = r \/ (superseded_by r = None /\ exists s, (n <= s)%Z /\ r' = supersede s r).

Definition grows (l l' : Log) : Prop :=
  exists pre rest, l' = pre ++ rest /\ Forall2 (row_later (size l)) l pre /\
    Forall (fun r => (size l <= ordinal r)%Z) rest.

Lemma supersede_again s t r : supersede t (supersede s r) = supersede s r.
Proof. unfold supersede. destruct (superseded_by r) eqn:E; cbn; by rewrite ?E. Qed.

Lemma row_later_refl n r : row_later n r r.
Proof. by left. Qed.
Lemma row_later_trans n m r r' r'' :
  (n <= m)%Z -> row_later n r r' -> row_later m r' r'' -> row_later n r r''.
Proof.
  intros Hnm [->|(Ha & s & Hs & ->)] [->|(Hb & t & Ht & ->)].
  - by left.
  - right. split; [done|]. exists t. split; [lia|done].
  - right. split; [done|]. by exists s.
  - unfold supersede in Hb. rewrite Ha in Hb. done.
Qed.

Lemma grows_refl l : grows l l.
Proof.
  exists l, []. rewrite app_nil_r. split_and!; [done| |done].
  apply Forall_Forall2_diag, Forall_forall. auto using row_later_refl.
Qed.

Lemma grows_length l l' : grows l l' -> length l <= length l'.
Proof. intros (p & q & -> & H & _). apply Forall2_length in H. rewrite length_app. lia. Qed.

Lemma row_later_ordinal n r r' : row_later n r r' -> ordinal r' = ordinal r.
Proof. intros [->|(_ & s & _ & ->)]; [done|]. unfold supersede. by destruct (superseded_by r). Qed.

Lemma Forall2_row_trans n m l1 l2 l3 : (n <= m)%Z ->
  Forall2 (row_later n) l1 l2 -> Forall2 (row_later m) l2 l3 -> Forall2 (row_later n) l1 l3.
Proof.
  intros Hnm H. revert l3. induction H as [|x y l1 l2 Hxy _ IH]; intros l3 H3.
  - by inversion_clear H3.
  - inversion_clear H3. constructor; [by eapply row_later_trans | by apply IH].
Qed.

Lemma grows_trans l l' l'' : grows l l' -> grows l' l'' -> grows l l''.
Proof.
  intros H1 H2. pose proof (grows_length _ _ H1) as Hlen.
  destruct H1 as (p & q & -> & Hp & Hq), H2 as (p' & q' & -> & Hp' & Hq').
  apply Forall2_app_inv_l in Hp' as (p1 & p2 & Hp1 & Hp2 & ->).
  exists p1, (p2 ++ q'). rewrite <- (assoc_L (++)). split_and!; [done| |].
  - eapply Forall2_row_trans; [|exact Hp|exact Hp1]. unfold size. lia.
  - apply Forall_app. split; [|eapply Forall_impl; [exact Hq'|]; cbn; unfold size; intros r Hr; lia].
    clear Hp Hp1 Hq' Hlen. revert Hq. generalize (size l) as n. intros n.
    induction Hp2 as [|x y k k' Hxy _ IH]; intros Hq; [constructor|].
    apply Forall_cons in Hq as [Hx Hk]. constructor; [|by apply IH].
    cbn in *. rewrite (row_later_ordinal _ _ _ Hxy). exact Hx.
Qed.

(** Every write is a growth that keeps the shape. *)
Lemma size_app l k : size (l ++ k) = (size l + size k)%Z.
Proof. unfold size. rewrite length_app. lia. Qed.

Lemma wf_app_row l r :
  log_wf l -> ordinal r = size l -> superseded_by r = None ->
  (forall key, source_event_id r = Some key -> key ∉ omap source_event_id l) ->
  log_wf (l ++ [r]).
Proof.
  intros [H1 H2 H3] Hr Hs Hk. split; rewrite ?size_app.
  - rewrite map_app, H1. unfold size in *. cbn [length].
    replace (Z.of_nat (length l) + Z.of_nat 1)%Z with (Z.of_nat (S (length l))) by lia.
    rewrite seqZ_S. cbn. by rewrite Hr.
  - apply Forall_app. split; [|apply Forall_singleton; by rewrite Hs].
    eapply Forall_impl; [exact H2|]. cbn. intros x Hx s Es. specialize (Hx s Es).
    change (size [r]) with 1%Z. lia.
  - rewrite omap_app. apply NoDup_app. split_and!; [done| |]; cbn.
    + destruct (source_event_id r) as [k|]; cbn; [|set_solver].
      intros x Hx ->%list_elem_of_singleton. by apply (Hk k).
    + destruct (source_event_id r); [apply NoDup_singleton | constructor].
Qed.

Lemma grows_app l k : Forall (fun r => (size l <= ordinal r)%Z) k -> grows l (l ++ k).
Proof.
  intros H. exists l, k. split_and!; [done| |done].
  apply Forall_Forall2_diag, Forall_forall. auto using row_later_refl.
Qed.

Lemma has_event_find key l :
  find_message_ordinal_by_source_event_id key l = None -> key ∉ omap source_event_id l.
Proof.
  unfold find_message_ordinal_by_source_event_id. destruct (find_first _ l) eqn:E; [done|]. intros _.
  intros (r & Hr & Hk)%list_elem_of_omap. apply find_first_None in E.
  rewrite Forall_forall in E. specialize (E r Hr). unfold has_event in E.
  by rewrite bool_decide_eq_true_2 in E.
Qed.

Lemma supersede_fields n r :
  ordinal (supersede n r) = ordinal r /\ message (supersede n r) = message r /\
  created_at (supersede n r) = created_at r /\ source_event_id (supersede n r) = source_event_id r /\
  compaction_inserted (supersede n r) = compaction_inserted r.
Proof. unfold supersede. by destruct (superseded_by r). Qed.

Lemma supersede_ordinals n l : map ordinal (map (supersede n) l) = map ordinal l.
Proof. rewrite map_map. apply map_ext. intros r. apply supersede_fields. Qed.
Lemma supersede_events n l : omap source_event_id (map (supersede n) l) = omap source_event_id l.
Proof.
  induction l as [|r l IH]; cbn; [done|]. rewrite IH.
  by rewrite (proj1 (proj2 (proj2 (proj2 (supersede_fields n r))))).
Qed.

Lemma insert_rows_spec n now ms :
  map ordinal (insert_rows n now ms) = seqZ n (Z.of_nat (length ms)) /\
  map message (insert_rows n now ms) = ms /\
  length (insert_rows n now ms) = length ms /\
  Forall (fun r => superseded_by r = None) (insert_rows n now ms) /\
  omap source_event_id (insert_rows n now ms) = [] /\
  Forall (fun r => (n <= ordinal r)%Z) (insert_rows n now ms).
Proof.
  revert n. induction ms as [|m ms IH]; intros n; [by split_and!|].
  destruct (IH (n + 1)%Z) as (H1 & H2 & H3 & H4 & H5 & H6). cbn [insert_rows map length omap].
  rewrite seqZ_cons by lia. replace (Z.pred (Z.of_nat (S (length ms)))) with (Z.of_nat (length ms)) by lia.
  split_and!; cbn; [by rewrite H1 | by rewrite H2 | by rewrite H3 | by constructor | done |].
  constructor; [cbn; lia|]. eapply Forall_impl; [exact H6|]. cbn. lia.
Qed.

Lemma wf_compact now new l : new <> [] -> log_wf l -> log_wf (apply_session_compaction now new l).1.
Proof.
  intros Hnew H. pose proof (next_ordinal_length l H) as Hn. destruct H as [H1 H2 H3].
  unfold apply_session_compaction. cbn [fst]. rewrite Hn.
  destruct (insert_rows_spec (size l) now new) as (I1 & _ & I3 & I4 & I5 & _).
  assert (size (map (supersede (size l)) l) = size l) as Em by (unfold size; by rewrite length_map).
  assert (size (insert_rows (size l) now new) = Z.of_nat (length new)) as Ei
    by (unfold size at 1; by rewrite I3).
  split; rewrite ?size_app, ?Em, ?Ei.
  - rewrite map_app, supersede_ordinals, H1, I1. rewrite seqZ_app by (unfold size; lia). done.
  - apply Forall_app. split.
    + rewrite Forall_map. rewrite Forall_forall in *. intros r Hr s Hs. specialize (H2 r Hr).
      rewrite (proj1 (supersede_fields _ _)). unfold supersede in Hs.
      destruct (superseded_by r) as [t|] eqn:E.
      * rewrite E in Hs. specialize (H2 s Hs). lia.
      * cbn in Hs. injection Hs as <-.
        assert (ordinal r ∈ map ordinal l) as Hin by (apply list_elem_of_fmap; eauto).
        rewrite H1, elem_of_seqZ in Hin. destruct new; [done|]. unfold size in *. cbn. lia.
    + eapply Forall_impl; [exact I4|]. cbn. intros r ->. done.
  - by rewrite omap_app, supersede_events, I5, app_nil_r.
Qed.

Lemma grows_compact now new l : log_wf l -> grows l (apply_session_compaction now new l).1.
Proof.
  intros H. unfold apply_session_compaction. cbn [fst]. rewrite (next_ordinal_length l H).
  exists (map (supersede (size l)) l), (insert_rows (size l) now new). split_and!; [done| |].
  - apply Forall2_fmap_r, Forall_Forall2_diag, Forall_forall. intros r _. unfold row_later.
    destruct (superseded_by r) eqn:E; [left; unfold supersede; by rewrite E|].
    right. split; [done|]. exists (size l). by split.
  - apply insert_rows_spec.
Qed.

Lemma wf_run_op l o : log_wf l -> log_wf (run_op l o).
Proof.
  intros H. pose proof (next_ordinal_length l H) as Hn. destruct o as [now m|now key m|now m ms]; cbn [run_op].
  - by apply wf_app_row.
  - unfold append_session_message_idempotent. destruct (String.eqb key ""); [done|].
    destruct (find_message_ordinal_by_source_event_id key l) eqn:E; [done|]. cbn [fst].
    apply wf_app_row; [done..|]. cbn. intros k [= <-]. by apply has_event_find.
  - by apply wf_compact.
Qed.

Lemma grows_run_op l o : log_wf l -> grows l (run_op l o).
Proof.
  intros H. pose proof (next_ordinal_length l H) as Hn. destruct o as [now m|now key m|now m ms]; cbn [run_op].
  - apply grows_app, Forall_singleton. cbn. lia.
  - unfold append_session_message_idempotent. destruct (String.eqb key ""); [apply grows_refl|].
    destruct (find_message_ordinal_by_source_event_id key l); [apply grows_refl|].
    apply grows_app, Forall_singleton. cbn. lia.
  - by apply grows_compact.
Qed.

Lemma wf_empty : log_wf [].
Proof. split; [done | done | constructor]. Qed.

Lemma run_log_inv l os : log_wf l -> log_wf (run l os) /\ grows l (run l os).
Proof.
  revert l. induction os as [|o os IH]; intros l H; [split; [done | apply grows_refl]|].
  destruct (IH (run_op l o) (wf_run_op l o H)) as [H1 H2]. split; [exact H1|].
  eapply grows_trans; [by apply grows_run_op | exact H2].
Qed.

(** ** Reading the log as it stood *)

(** [ordinal <= last AND (superseded_by IS NULL OR superseded_by > last)] *)
Definition active_as_of (last : Z) (r : StoredMessage) : bool :=
  (ordinal r <=? last)%Z && match superseded_by r with Some s => (last <? s)%Z | None => true end.

Definition face (r : StoredMessage) : Z * ChatMessage * Z := (ordinal r, message r, created_at r).

Lemma active_now l r : log_wf l -> r ∈ l -> active_as_of (size l - 1) r = is_active r.
Proof.
  intros [H1 H2 _] Hr. unfold active_as_of, is_active.
  assert (ordinal r ∈ map ordinal l) as Hin by (apply list_elem_of_fmap; eauto).
  rewrite H1, elem_of_seqZ in Hin. rewrite Forall_forall in H2. specialize (H2 r Hr).
  replace (ordinal r <=? size l - 1)%Z with true by lia. cbn.
  destruct (superseded_by r) as [s|]; [|done]. specialize (H2 s eq_refl). cbn. lia.
Qed.

(** Rows a log had are, at that log's last ordinal, as active as they were. *)
Lemma active_later n r r' :
  row_later (n + 1) r r' -> (ordinal r <= n)%Z ->
  active_as_of n r' = active_as_of n r /\ face r' = face r.
Proof.
  intros [->|(Ha & s & Hs & ->)] Hn; [done|]. unfold active_as_of, face, supersede. rewrite Ha. cbn.
  split; [|done]. replace (n <? s)%Z with true by lia. done.
Qed.

Lemma as_of_grows l l' : log_wf l -> grows l l' ->
  map face (List.filter (active_as_of (size l - 1)) l') = map face (List.filter is_active l).
Proof.
  intros Hwf (pre & rest & -> & Hp & Hr). rewrite List.filter_app, map_app.
  assert (List.filter (active_as_of (size l - 1)) rest = []) as ->.
  { clear Hp. induction Hr as [|r rest Hr _ IH]; [done|]. cbn [List.filter].
    unfold active_as_of at 1. replace (ordinal r <=? size l - 1)%Z with false by lia. exact IH. }
  cbn. rewrite app_nil_r.
  assert (Forall (fun r => active_as_of (size l - 1) r = is_active r) l) as Hnow
    by (apply Forall_forall; intros; by apply active_now).
  assert (Forall (fun r => (ordinal r <= size l - 1)%Z) l) as Hord.
  { apply Forall_forall. intros r Hin.
    assert (ordinal r ∈ map ordinal l) as Ho by (apply list_elem_of_fmap; eauto).
    rewrite (wf_ordinals _ Hwf), elem_of_seqZ in Ho. lia. }
  replace (size l) with ((size l - 1) + 1)%Z in Hp by lia. revert Hp Hnow Hord.
  generalize (size l - 1)%Z as n. intros n Hp. clear Hr Hwf rest.
  induction Hp as [|r r' l pre Hrr _ IH]; intros Hnow Hord; [done|].
  apply Forall_cons in Hnow as [Hn Hnow], Hord as [Ho Hord].
  destruct (active_later n r r' Hrr Ho) as [Ea Ef]. cbn [List.filter]. rewrite Ea, Hn.
  destruct (is_active r); cbn [map]; [rewrite Ef; f_equal|]; by apply IH.
Qed.

(** ** What a chat surface shows *)

Definition conversation (l : Log) : list ChatMessage :=
  map message (List.filter displayed l).

(** The messages a history's appends brought in, compactions aside; a replayed
    source event brings nothing. *)
Fixpoint delivered (seen : list string) (os : list op) : list ChatMessage :=
  match os with
  | [] => []
  | OpAppend _ m :: os => m :: delivered seen os
  | OpOnce _ key m :: os =>
      if String.eqb key "" then delivered seen os
      else if bool_decide (key ∈ seen) then delivered seen os
      else m :: delivered (seen ++ [key]) os
  | OpCompact _ _ _ :: os => delivered seen os
  end.

Lemma displayed_supersede n l :
  map message (List.filter displayed (map (supersede n) l)) = conversation l.
Proof.
  unfold conversation. induction l as [|r l IH]; [done|]. cbn [map List.filter].
  destruct (supersede_fields n r) as (_ & Em & _ & _ & Ec).
  assert (displayed (supersede n r) = displayed r) as -> by (unfold displayed; by rewrite Ec).
  destruct (displayed r); cbn [map]; [by rewrite Em, IH | exact IH].
Qed.
Lemma displayed_inserted n now ms : List.filter displayed (insert_rows n now ms) = [].
Proof. revert n. induction ms as [|m ms IH]; intros n; cbn; [done | apply IH]. Qed.

Lemma conversation_run l os :
  conversation (run l os) = conversation l ++ delivered (omap source_event_id l) os.
Proof.
  revert l. induction os as [|o os IH]; intros l; [by rewrite app_nil_r|].
  change (run l (o :: os)) with (run (run_op l o) os). rewrite IH. clear IH.
  destruct o as [now m|now key m|now m ms]; cbn [run_op delivered].
  - unfold append_session_message. cbn [fst]. rewrite omap_app, app_nil_r.
    unfold conversation. rewrite List.filter_app, map_app, <- (assoc_L (++)). done.
  - unfold append_session_message_idempotent. destruct (String.eqb key ""); [done|].
    destruct (find_message_ordinal_by_source_event_id key l) as [n|] eqn:E; cbn [fst].
    + rewrite bool_decide_eq_true_2; [done|].
      unfold find_message_ordinal_by_source_event_id in E.
      destruct (find_first _ l) as [r|] eqn:F; [|done]. apply find_first_Some in F as [F Hr].
      apply bool_decide_eq_true_1 in F. apply list_elem_of_omap. eauto.
    + rewrite bool_decide_eq_false_2 by (by apply has_event_find). rewrite omap_app.
      unfold conversation. rewrite List.filter_app, map_app, <- (assoc_L (++)). done.
  - unfold apply_session_compaction. cbn [fst]. unfold conversation at 1.
    rewrite List.filter_app, displayed_inserted, app_nil_r, displayed_supersede.
    destruct (insert_rows_spec (next_ordinal l) now (m :: ms)) as (_ & _ & _ & _ & I5 & _).
    by rewrite omap_app, supersede_events, I5, app_nil_r.
Qed.

(** Later writes keep the rows a log has, or supersede them all. *)
Definition same_epoch (l l' : Log) : Prop :=
  exists pre rest, l' = pre ++ rest /\ (pre = l \/ Forall (fun r => is_active r = false) pre) /\
    length pre = length l /\ Forall (fun r => (size l <= ordinal r)%Z) rest.

Lemma superseded n r : is_active (supersede n r) = false.
Proof. unfold is_active, supersede. destruct (superseded_by r) eqn:E; cbn; by rewrite ?E. Qed.

Lemma epoch_snoc l l' r : log_wf l' -> same_epoch l l' -> ordinal r = next_ordinal l' ->
  same_epoch l (l' ++ [r]).
Proof.
  intros H (pre & rest & -> & He & Hlen & Hr) Hn. exists pre, (rest ++ [r]).
  rewrite <- (assoc_L (++)). split_and!; [done..|]. apply Forall_app. split; [done|].
  apply Forall_singleton. rewrite Hn, next_ordinal_length, size_app by done. unfold size. lia.
Qed.

Lemma epoch_run_op l l' o : log_wf l' -> same_epoch l l' -> same_epoch l (run_op l' o).
Proof.
  intros Hwf H. destruct o as [now m|now key m|now m ms]; cbn [run_op].
  - by apply epoch_snoc.
  - unfold append_session_message_idempotent. destruct (String.eqb key ""); [done|].
    destruct (find_message_ordinal_by_source_event_id key l'); [done|]. by apply epoch_snoc.
  - pose proof (next_ordinal_length l' Hwf) as Hn. unfold apply_session_compaction. cbn [fst].
    rewrite Hn. destruct H as (pre & rest & -> & _ & Hlen & Hr).
    rewrite map_app, <- (assoc_L (++)). eexists _, _. split_and!; [reflexivity| | |].
    + right. apply Forall_map, Forall_true. intros r. apply superseded.
    + by rewrite length_map.
    + apply Forall_app. split.
      * rewrite Forall_map. eapply Forall_impl; [exact Hr|]. cbn. intros r.
        by rewrite (proj1 (supersede_fields _ r)).
      * destruct (insert_rows_spec (size (pre ++ rest)) now (m :: ms)) as (_ & _ & _ & _ & _ & Hi).
        eapply Forall_impl; [exact Hi|]. cbn. intros r. rewrite size_app. unfold size. lia.
Qed.

Lemma epoch_run l os : log_wf l -> same_epoch l (run l os).
Proof.
  intros H. assert (same_epoch l l) as He.
  { exists l, []. split; [by rewrite app_nil_r|]. split; [by left|]. by split. }
  assert (forall l', log_wf l' -> same_epoch l l' -> same_epoch l (run l' os)) as Hall; [|by apply Hall].
  clear H He. induction os as [|o os IH]; intros l' H He; [done|].
  apply (IH (run_op l' o)); [by apply wf_run_op | by apply epoch_run_op].
Qed.

(** ** Scrolling up *)

(** A chat surface asks for the tail, then for the page before the oldest row
    it holds, until a page comes back empty. *)
Fixpoint scroll (fuel : nat) (before : option Z) (limit : nat) (l : Log) : list (Z * Z * ChatMessage) :=
  match fuel with
  | 0 => []
  | S fuel =>
      match load_active_session_messages_tail before limit l with
      | Ok (r :: page) => scroll fuel (Some r.1.1) limit l ++ r :: page
      | _ => []
      end
  end.

Definition shown_rows (before : option Z) (l : Log) : list StoredMessage :=
  List.filter (fun r => displayed r && below before r) l.

Definition decoded (r : StoredMessage) : bool := is_some (from_us (created_at r)).

Lemma stamped_ok rs : forallb decoded rs = true ->
  exists out, stamped rs = Ok out /\ map (fun x => (x.1.1, x.2)) out = map (fun r => (ordinal r, message r)) rs.
Proof.
  induction rs as [|r rs IH]; cbn; [by exists []|]. intros [Hr H]%andb_true_iff.
  unfold decoded in Hr. destruct (from_us (created_at r)) as [t|]; [|done].
  destruct (IH H) as (out & -> & E). exists ((ordinal r, t, message r) :: out). cbn. by rewrite E.
Qed.

Lemma sorted_ordinals l : log_wf l -> StronglySorted Z.lt (map ordinal l).
Proof.
  intros H. rewrite (wf_ordinals _ H). generalize (size l) as n. intros n.
  destruct (decide (0 <= n)%Z) as [Hn|]; [|rewrite seqZ_nil by lia; constructor].
  rewrite <- (Z2Nat.id n Hn). generalize 0%Z as k. induction (Z.to_nat n) as [|m IH]; intros k.
  - rewrite seqZ_nil by lia. constructor.
  - rewrite seqZ_cons by lia. replace (Z.pred (Z.of_nat (S m))) with (Z.of_nat m) by lia.
    constructor; [apply IH|]. apply Forall_forall. intros x Hx%elem_of_seqZ. lia.
Qed.

Lemma sorted_filter f (l : list StoredMessage) :
  StronglySorted Z.lt (map ordinal l) -> StronglySorted Z.lt (map ordinal (List.filter f l)).
Proof.
  induction l as [|r l IH]; cbn; [done|]. intros H. apply StronglySorted_inv in H as [Hs Hf].
  destruct (f r); cbn; [|by apply IH]. constructor; [by apply IH|].
  rewrite Forall_map in *. rewrite Forall_forall in *. intros x Hx. apply Hf.
  apply list_elem_of_In, List.filter_In in Hx as [Hx _]. by apply list_elem_of_In.
Qed.

(** Below a row's ordinal are the rows before it. *)
Lemma below_take i r (D : list StoredMessage) :
  StronglySorted Z.lt (map ordinal D) -> D !! i = Some r ->
  List.filter (below (Some (ordinal r))) D = take i D.
Proof.
  revert D. induction i as [|i IH]; intros [|x D]; cbn; try done; intros Hs Hi;
    apply StronglySorted_inv in Hs as [Hs Hf]; rewrite Forall_map, Forall_forall in Hf.
  - injection Hi as ->. rewrite Z.ltb_irrefl. clear Hs.
    induction D as [|y D IHD]; cbn; [done|].
    replace (ordinal y <? ordinal r)%Z with false
      by (symmetry; apply Z.ltb_ge; specialize (Hf y ltac:(left)); lia).
    apply IHD. intros z Hz. apply Hf. by right.
  - assert (ordinal x < ordinal r)%Z as Hlt by (apply Hf; by eapply list_elem_of_lookup_2).
    replace (ordinal x <? ordinal r)%Z with true by lia. f_equal. by apply IH.
Qed.

Lemma shown_below before l :
  shown_rows before l = List.filter (below before) (List.filter displayed l).
Proof.
  unfold shown_rows. induction l as [|r l IH]; cbn; [done|].
  destruct (displayed r); cbn; [|exact IH]. destruct (below before r); by rewrite IH.
Qed.

Lemma shown_prefix before i l r : log_wf l ->
  shown_rows before l !! i = Some r -> before = None \/ (exists b, before = Some b /\ (ordinal r < b)%Z) ->
  shown_rows (Some (ordinal r)) l = take i (shown_rows before l).
Proof.
  intros H Hi Hb. rewrite <- (below_take i r); [| |exact Hi].
  - rewrite !shown_below. generalize (List.filter displayed l) as D. intros D. clear Hi H.
    induction D as [|x D IH]; cbn [List.filter]; [done|].
    destruct (below (Some (ordinal r)) x) eqn:E1; destruct (below before x) eqn:E2; cbn [List.filter];
      rewrite ?E1, ?IH; try done.
    destruct Hb as [->|(b & -> & Hb)]; [done|]. cbn in *. lia.
  - apply sorted_filter, sorted_ordinals, H.
Qed.

Lemma shown_lt before i l r b : shown_rows before l !! i = Some r -> before = Some b -> (ordinal r < b)%Z.
Proof.
  intros Hi%list_elem_of_lookup_2 ->. unfold shown_rows in Hi.
  apply list_elem_of_In, List.filter_In in Hi as [_ Hi]. cbn in Hi. lia.
Qed.

Lemma rev_take_rev {A} n (l : list A) : rev (take n (rev l)) = drop (length l - n) l.
Proof.
  by rewrite List.firstn_rev, List.rev_involutive.
Qed.

Lemma tail_page before limit l : forallb decoded (shown_rows before l) = true -> limit <> 0 ->
  exists out, load_active_session_messages_tail before limit l = Ok out /\
    map (fun x => (x.1.1, x.2)) out
    = map (fun r => (ordinal r, message r))
        (drop (length (shown_rows before l) - limit) (shown_rows before l)).
Proof.
  intros H Hl. unfold load_active_session_messages_tail. destruct limit as [|k]; [done|].
  fold (shown_rows before l).
  destruct (stamped_ok (take (S k) (rev (shown_rows before l)))) as (out & -> & E).
  { apply forallb_forall. intros r Hr%list_elem_of_In%elem_of_take. destruct Hr as (i & Hr & _).
    rewrite forallb_forall in H. apply H, List.in_rev, list_elem_of_In. by eapply list_elem_of_lookup_2. }
  exists (rev out). split; [done|]. by rewrite map_rev, E, <- map_rev, rev_take_rev.
Qed.

Lemma scroll_spec limit l fuel before : log_wf l -> limit <> 0 -> forallb decoded l = true ->
  length (shown_rows before l) < fuel ->
  map (fun x => (x.1.1, x.2)) (scroll fuel before limit l)
  = map (fun r => (ordinal r, message r)) (shown_rows before l).
Proof.
  intros Hwf Hl Hd. revert before. induction fuel as [|fuel IH]; intros before Hf; [lia|].
  cbn [scroll]. destruct (tail_page before limit l) as (out & -> & E); [|done|].
  { apply forallb_forall. intros r Hr%List.filter_In. exact (proj1 (forallb_forall decoded l) Hd r (proj1 Hr)). }
  set (D := shown_rows before l) in *. set (j := length D - limit) in *.
  destruct out as [|x out].
  - symmetry in E. apply map_eq_nil in E. destruct D as [|d D']; [done|].
    apply (f_equal length) in E. rewrite length_drop in E. cbn in *. lia.
  - destruct (drop j D) as [|r rest] eqn:Ed; [done|]. cbn in E. injection E as Ex1 Ex2 Erest.
    assert (D !! j = Some r) as Hj.
    { rewrite <- (Nat.add_0_r j), <- lookup_drop, Ed. done. }
    assert (shown_rows (Some (ordinal r)) l = take j D) as Hs.
    { apply shown_prefix; [done..|]. destruct before as [b|]; [right; exists b; split; [done|] | by left].
      by eapply shown_lt. }
    rewrite map_app, Ex1, IH; rewrite Hs.
    + cbn. rewrite Ex1, Ex2, Erest. rewrite <- (take_drop j D) at 2. rewrite map_app, Ed. done.
    + rewrite length_take. pose proof (lookup_lt_Some _ _ _ Hj). lia.
Qed.

Lemma decoded_run {CL : ChronoLaws C} l os :
  forallb decoded l = true -> forallb decoded (run l os) = true.
Proof.
  assert (forall now n b k m, decoded (mk_row n None (to_us now) b k m) = true) as Hnew.
  { intros. unfold decoded; cbn. destruct (from_to_us now) as (t & -> & _). done. }
  revert l. induction os as [|o os IH]; intros l Hd; [done|]. apply IH.
  destruct o as [now m|now key m|now m ms]; cbn [run_op].
  - cbn. rewrite List.forallb_app, Hd. cbn. by rewrite Hnew.
  - unfold append_session_message_idempotent. destruct (String.eqb key ""); [done|].
    destruct (find_message_ordinal_by_source_event_id key l); [done|]. cbn.
    rewrite List.forallb_app, Hd. cbn. by rewrite Hnew.
  - unfold apply_session_compaction. cbn [fst]. rewrite List.forallb_app. apply andb_true_iff. split.
    + rewrite forallb_forall in *. intros r (x & <- & Hx)%List.in_map_iff. unfold decoded.
      destruct (supersede_fields (next_ordinal l) x) as (_ & _ & -> & _). by apply Hd.
    + generalize (next_ordinal l) as n. generalize (m :: ms) as new. intros new.
      induction new as [|y new IHn]; intros n; [done|]. cbn. rewrite Hnew. apply IHn.
Qed.

(** Whatever sequence of appends, replayed source events and compactions a
    session's log has been through, its ordinals count up from zero, and a chat
    surface that scrolls up from the tail in pages of any size sees exactly the
    messages delivered, each once and in order: nothing compaction wrote, and
    nothing for a replayed event. *)
Theorem scroll_shows_conversation {CL : ChronoLaws C} (os : list op) (limit fuel : nat)
    (Hlimit : limit <> 0) (Hfuel : length (run [] os) < fuel) :
  map ordinal (run [] os) = seqZ 0 (Z.of_nat (length (run [] os))) /\
  map snd (scroll fuel None limit (run [] os)) = delivered [] os.
Proof.
  destruct (run_log_inv [] os wf_empty) as [Hwf _]. split; [apply Hwf|].
  pose proof (scroll_spec limit (run [] os) fuel None Hwf Hlimit (decoded_run [] os eq_refl)) as H.
  transitivity (map snd (map (fun x => (x.1.1, x.2)) (scroll fuel None limit (run [] os))));
    [by rewrite map_map|].
  rewrite H, map_map; cbn [snd].
  - change (delivered [] os) with (conversation [] ++ delivered (omap source_event_id []) os).
    rewrite <- conversation_run. unfold conversation. f_equal.
    rewrite shown_below. generalize (List.filter displayed (run [] os)) as D.
    induction D as [|r D IH]; cbn; [done | by rewrite IH].
  - unfold shown_rows. pose proof (List.filter_length_le (fun r => displayed r && below None r) (run [] os)). lia.
Qed.

Lemma find_event_run_op key n l o :
  find_message_ordinal_by_source_event_id key l = Some n ->
  find_message_ordinal_by_source_event_id key (run_op l o) = Some n.
Proof.
  unfold find_message_ordinal_by_source_event_id. intros H.
  destruct (find_first (has_event key) l) as [r|] eqn:E; [|done]. cbn in H.
  destruct o as [now m|now key' m|now m ms]; cbn [run_op].
  - cbn. by rewrite find_first_app, E.
  - unfold append_session_message_idempotent. destruct (String.eqb key' ""); [cbn; by rewrite E|].
    destruct (find_message_ordinal_by_source_event_id key' l); cbn; [by rewrite E|].
    by rewrite find_first_app, E.
  - unfold apply_session_compaction. cbn [fst]. rewrite find_first_app.
    rewrite (find_first_map _ _ (has_event key)), E; cbn.
    + by rewrite (proj1 (supersede_fields _ _)).
    + intros x. unfold has_event. by destruct (supersede_fields (next_ordinal l) x) as (_ & _ & _ & -> & _).
Qed.

(** A source event appends at most once: once its append has been answered,
    the same event is answered with the same ordinal, whatever was written in
    between, and changes nothing. *)
Theorem source_event_once (l : Log) (os : list op) now now' key m m' o
    (Hok : (append_session_message_idempotent now key m l).2 = Ok o) :
  let l' := run (append_session_message_idempotent now key m l).1 os in
  append_session_message_idempotent now' key m' l' = (l', Ok (Existing (outcome_ordinal o))).
Proof.
  cbv zeta. set (l1 := (append_session_message_idempotent now key m l).1).
  assert (String.eqb key "" = false /\
          find_message_ordinal_by_source_event_id key l1 = Some (outcome_ordinal o)) as [Hk Hfind].
  { unfold l1. revert Hok. unfold append_session_message_idempotent.
    destruct (String.eqb key ""); [done|].
    destruct (find_message_ordinal_by_source_event_id key l) as [n|] eqn:E; cbn; intros [= <-];
      split; try done.
    unfold find_message_ordinal_by_source_event_id in *. rewrite find_first_app.
    destruct (find_first (has_event key) l); [done|]. cbn. unfold has_event. cbn.
    by rewrite bool_decide_eq_true_2. }
  assert (find_message_ordinal_by_source_event_id key (run l1 os) = Some (outcome_ordinal o)) as Hrun.
  { clearbody l1. clear Hok. revert l1 Hfind. induction os as [|x os IH]; intros l1 Hf; [done|].
    apply IH. by apply find_event_run_op. }
  unfold append_session_message_idempotent. by rewrite Hk, Hrun.
Qed.

End Proofs.

(** ** A log that was compacted *)
Module Sample.
#[local] Instance chrono : Chrono := { to_us t := (t / 1000)%Z; from_us u := Some (u * 1000)%Z }.
#[local] Instance chrono_laws : ChronoLaws chrono.
Proof. intros t. eexists. split; [reflexivity|]. cbn. pose proof (Z.mul_div_le t 1000). lia. Qed.
Definition ops : list op :=
  [OpAppend 1000 (user [Text "hello"]); OpOnce 2000 "evt-1" (cron_notification [Text "done"]);
   OpCompact 3000 (system [Text "be brief"]) [user [Text "a greeting"]];
   OpOnce 4000 "evt-1" (cron_notification [Text "done"]); OpAppend 5000 (assistant [Text "hi"])].
End Sample.
#[local] Existing Instance Sample.chrono.
#[local] Existing Instance Sample.chrono_laws.

Lemma scroll_shows_conversation_witness :
  map snd (scroll 9 None 2 (run [] Sample.ops))
  = [user [Text "hello"]; cron_notification [Text "done"]; assistant [Text "hi"]].
Proof.
  apply (proj2 (scroll_shows_conversation Sample.ops 2 9
    ltac:(discriminate) ltac:(vm_compute; lia))).
Defined.

Lemma source_event_once_witness :
  let l := (append_session_message_idempotent 2000 "evt-1" (user []) []).1 in
  append_session_message_idempotent 9000 "evt-1" (user [])
    (run l Sample.ops)
  = (run l Sample.ops, Ok (Existing 0)).
Proof.
  exact (source_event_once [] Sample.ops 2000 9000 "evt-1" (user []) (user [])
    (Inserted 0) eq_refl).
Defined.

End SessionLog.
