(* ===== verification/Turn.v ===== *)
(** * The turn state machine ([crates/turn])

    [Turn] with its guarded transitions ([lib.rs]), the row conversion
    ([store.rs]), the cancellation registry and the [TurnLifecycle]
    orchestrator ([lifecycle.rs]) over an abstract turn store. *)
From S2P Require Import Prelude Message.
Import Message.

(** Identifiers are 128-bit UUIDs (turns, spans) or strings (sessions); an
    instant is a count of nanoseconds. *)
Abbreviation TurnId := N.
Abbreviation SpanId := N.
Abbreviation SessionId := string.
Abbreviation Time := Z.

Module Turn.

(** ** Data *)

Inductive TriggerKind := TriggerUser | TriggerCron | TriggerSpawned | TriggerIssue.

Inductive CancelReason :=
| UserPreempt | SystemCrash | SubagentTimeout | ParentCancelled
| ParentDeleted | OperatorCancel | BudgetExhausted | UserStopped.

Inductive TurnStatusKind :=
| KPending | KInProgress | KStuck | KCancelled | KFailed | KCompleted.
#[export] Instance TurnStatusKind_eq_dec : EqDecision TurnStatusKind.
Proof. solve_decision. Defined.

Inductive TurnStatus :=
| Pending
| InProgress
| Stuck (reason : string)
| Cancelled (reason : CancelReason) (partial_artifacts : list SpanId)
| Failed (reason : string)
| Completed.

Inductive TurnInput :=
| UserChat (content : list ContentBlock)
| CronInput (action_payload : json)
| CronNotificationInput (content : list ContentBlock)
| Compact
| Spawned (initial_prompt : list ContentBlock)
| SubagentNotification (content : list ContentBlock)
| IssueRun (run_id : string) (brief : list ContentBlock).

Inductive TurnInputKind :=
| KUserChat | KCron | KCronNotification | KCompact | KSpawned
| KSubagentNotification | KIssueRun.
#[export] Instance TurnInputKind_eq_dec : EqDecision TurnInputKind.
Proof. solve_decision. Defined.

Inductive TurnOutput :=
| OutMessage (content : list ContentBlock) (ordinal : option Z)
| Structured (value : json).

Record Turn := mk_turn {
  id : TurnId;
  session_id : SessionId;
  parent_turn_id : option TurnId;
  origin : TriggerKind;
  input : TurnInput;
  status : TurnStatus;
  final_result : option TurnOutput;
  emitted_span_ids : list SpanId;
  created_at : Time;
  started_at : option Time;
  ended_at : option Time;
}.

(** The formatted text of an error is modelled by the values it prints: a
    missing turn is named by its id, a missing row of the store by its text. *)
Inductive TurnError :=
| NotFound (what : TurnId + string)
| InvalidTransition (from to : TurnStatusKind) (turn : TurnId)
| ResultOnNonCompleted (from to : TurnStatusKind) (turn : TurnId)
| RecoverRequiresStuck (from : TurnStatusKind) (turn : TurnId)
| Storage (msg : string)
| Internal (msg : string).

Record TurnTransition := mk_transition {
  tr_turn_id : TurnId;
  tr_from : TurnStatus;
  tr_to : TurnStatus;
  tr_reason : option string;
  tr_timestamp : Time;
}.

(** ** The state machine *)

Definition kind (s : TurnStatus) : TurnStatusKind :=
  match s with
  | Pending => KPending
  | InProgress => KInProgress
  | Stuck _ => KStuck
  | Cancelled _ _ => KCancelled
  | Failed _ => KFailed
  | Completed => KCompleted
  end.

Definition allowed_transitions (k : TurnStatusKind) : list TurnStatusKind :=
  match k with
  | KPending => [KInProgress; KCancelled; KFailed]
  | KInProgress => [KCompleted; KStuck; KFailed; KCancelled]
  | KStuck => [KInProgress; KFailed; KCancelled]
  | KCompleted | KFailed | KCancelled => []
  end.

Definition can_transition_to (k target : TurnStatusKind) : bool :=
  bool_decide (target ∈ allowed_transitions k).

Definition is_terminal_kind (k : TurnStatusKind) : bool :=
  match k with KCompleted | KFailed | KCancelled => true | _ => false end.

Definition needs_recovery_kind (k : TurnStatusKind) : bool :=
  match k with KPending | KInProgress | KStuck => true | _ => false end.

Definition as_snake_case (k : TurnStatusKind) : string :=
  match k with
  | KPending => "pending"
  | KInProgress => "in_progress"
  | KStuck => "stuck"
  | KCancelled => "cancelled"
  | KFailed => "failed"
  | KCompleted => "completed"
  end.

Definition input_kind (i : TurnInput) : TurnInputKind :=
  match i with
  | UserChat _ => KUserChat
  | CronInput _ => KCron
  | CronNotificationInput _ => KCronNotification
  | Compact => KCompact
  | Spawned _ => KSpawned
  | SubagentNotification _ => KSubagentNotification
  | IssueRun _ _ => KIssueRun
  end.

Definition is_chat_kind (k : TurnInputKind) : bool :=
  match k with KCompact | KCronNotification => false | _ => true end.

Definition is_terminal (t : Turn) : bool := is_terminal_kind (kind (status t)).
Definition is_chat_turn (t : Turn) : bool := is_chat_kind (input_kind (input t)).

(** [Turn::new]: the fresh id and the creation time are what the runtime
    hands out. *)
Definition new (fresh : TurnId) (now : Time) (session : SessionId) (o : TriggerKind)
    (i : TurnInput) (parent : option TurnId) : Turn :=
  mk_turn fresh session parent o i Pending None [] now None None.

Definition set_started_at (v : option Time) (t : Turn) : Turn :=
  mk_turn (id t) (session_id t) (parent_turn_id t) (origin t) (input t) (status t)
    (final_result t) (emitted_span_ids t) (created_at t) v (ended_at t).
Definition set_ended_at (v : option Time) (t : Turn) : Turn :=
  mk_turn (id t) (session_id t) (parent_turn_id t) (origin t) (input t) (status t)
    (final_result t) (emitted_span_ids t) (created_at t) (started_at t) v.
Definition set_final_result (v : option TurnOutput) (t : Turn) : Turn :=
  mk_turn (id t) (session_id t) (parent_turn_id t) (origin t) (input t) (status t)
    v (emitted_span_ids t) (created_at t) (started_at t) (ended_at t).
Definition set_status (v : TurnStatus) (t : Turn) : Turn :=
  mk_turn (id t) (session_id t) (parent_turn_id t) (origin t) (input t) v
    (final_result t) (emitted_span_ids t) (created_at t) (started_at t) (ended_at t).

(** [transition_at] works on [&mut self]: the turn it leaves behind is part of
    the result whether or not it returns an error. *)
Definition transition_at (target : TurnStatus) (final : option TurnOutput)
    (reason : option string) (at_ : Time) (t : Turn)
    : Turn * result TurnTransition TurnError :=
  let from := status t in
  if negb (can_transition_to (kind from) (kind target)) then
    (t, Err (InvalidTransition (kind from) (kind target) (id t)))
  else
    let t := match target, started_at t with
             | InProgress, None => set_started_at (Some at_) t
             | _, _ => t
             end in
    let t := if is_terminal_kind (kind target) then set_ended_at (Some at_) t else t in
    let commit t :=
      (set_status target t,
       Ok (mk_transition (id t) from target reason at_)) in
    match final with
    | None => commit t
    | Some out =>
        match target with
        | Completed => commit (set_final_result (Some out) t)
        | _ => (t, Err (ResultOnNonCompleted (kind from) (kind target) (id t)))
        end
    end.

(** The edge methods; [now] is the [Utc::now()] of the call. *)
Definition start (now : Time) : Turn -> Turn * result TurnTransition TurnError :=
  transition_at InProgress None None now.
Definition complete (output : TurnOutput) (now : Time) :=
  transition_at Completed (Some output) None now.
Definition fail (reason : string) (now : Time) :=
  transition_at (Failed reason) None (Some reason) now.
Definition cancel (reason : CancelReason) (partial : list SpanId) (now : Time) :=
  transition_at (Cancelled reason partial) None None now.
Definition cancel_at (reason : CancelReason) (partial : list SpanId) (at_ : Time) :=
  transition_at (Cancelled reason partial) None None at_.
Definition stuck (reason : string) (now : Time) :=
  transition_at (Stuck reason) None (Some reason) now.
Definition recover (reason : string) (now : Time) (t : Turn)
    : Turn * result TurnTransition TurnError :=
  match status t with
  | Stuck _ => transition_at InProgress None (Some reason) now t
  | _ => (t, Err (RecoverRequiresStuck (kind (status t)) (id t)))
  end.

(** ** Persistence rows ([store.rs]) *)

Record TurnRow := mk_row {
  row_id : TurnId;
  row_session_id : SessionId;
  row_parent_turn_id : option TurnId;
  row_kind : string;
  row_status_kind : string;
  row_created_at : Time;
  row_started_at : option Time;
  row_ended_at : option Time;
  row_data : string;
}.

Definition turn_input_kind_str (k : TurnInputKind) : string :=
  match k with
  | KUserChat => "user_chat"
  | KCron => "cron"
  | KCronNotification => "cron_notification"
  | KCompact => "compact"
  | KSpawned => "spawned"
  | KSubagentNotification => "subagent_notification"
  | KIssueRun => "issue_run"
  end.

(** [serde_json] on the derived [Serialize]/[Deserialize] of [Turn]: its text
    is opaque, reading back what it wrote gives the turn. *)
Class TurnCodec := {
  serialize_turn : Turn -> result string string;
  deserialize_turn : string -> result Turn string;
  deserialize_serialize t s : serialize_turn t = Ok s -> deserialize_turn s = Ok t;
}.

Section Rows.
Context `{TurnCodec}.

Definition to_row (t : Turn) : result TurnRow TurnError :=
  match serialize_turn t with
  | Err e => Err (Storage ("failed to serialize turn: " +:+ e))%string
  | Ok data =>
      Ok (mk_row (id t) (session_id t) (parent_turn_id t)
            (turn_input_kind_str (input_kind (input t)))
            (as_snake_case (kind (status t)))
            (created_at t) (started_at t) (ended_at t) data)
  end.

Definition from_row (r : TurnRow) : result Turn TurnError :=
  match deserialize_turn (row_data r) with
  | Ok t => Ok t
  | Err e => Err (Storage ("failed to deserialize turn: " +:+ e))%string
  end.
End Rows.

(** ** Specification vocabulary *)

(** Turns produced by the code: [new] followed by any sequence of the edge
    methods, failed calls included. *)
Inductive edge : Turn -> Turn -> Prop :=
| edge_start now t : edge t (fst (start now t))
| edge_complete out now t : edge t (fst (complete out now t))
| edge_fail r now t : edge t (fst (fail r now t))
| edge_cancel r p now t : edge t (fst (cancel r p now t))
| edge_cancel_at r p at_ t : edge t (fst (cancel_at r p at_ t))
| edge_stuck r now t : edge t (fst (stuck r now t))
| edge_recover r now t : edge t (fst (recover r now t)).

Inductive reachable : Turn -> Prop :=
| reach_new fresh now s o i p : reachable (new fresh now s o i p)
| reach_edge t t' : reachable t -> edge t t' -> reachable t'.

(** Well-formedness of a turn: a final result exactly on completion, an end
    time exactly on a terminal status, a start time once the turn has run. *)
Definition is_completed (s : TurnStatus) : bool :=
  match s with Completed => true | _ => false end.
Definition started_ok (k : TurnStatusKind) (started : option Time) : bool :=
  match k with
  | KPending => negb (is_some started)
  | KInProgress | KStuck | KCompleted => is_some started
  | KCancelled | KFailed => true
  end.
Definition wf (t : Turn) : bool :=
  Bool.eqb (is_some (final_result t)) (is_completed (status t)) &&
  Bool.eqb (is_some (ended_at t)) (is_terminal t) &&
  started_ok (kind (status t)) (started_at t).

(** ** State-machine facts *)

Lemma can_transition_spec k target :
  can_transition_to k target = true <-> target ∈ allowed_transitions k.
Proof. unfold can_transition_to. by rewrite bool_decide_eq_true. Qed.

Lemma transition_ok target final reason at_ t t' tr :
  transition_at target final reason at_ t = (t', Ok tr) ->
  can_transition_to (kind (status t)) (kind target) = true /\
  status t' = target /\ id t' = id t /\ session_id t' = session_id t /\
  parent_turn_id t' = parent_turn_id t /\ input t' = input t /\
  tr = mk_transition (id t) (status t) target reason at_.
Proof.
  unfold transition_at.
  destruct (can_transition_to _ _) eqn:E; cbn; [|discriminate].
  destruct target, (started_at t), final; cbn; intros [= <- <-]; cbn; done.
Qed.

(** The machine admits no second terminal status. *)
Lemma terminal_stuck k target :
  is_terminal_kind k = true -> can_transition_to k target = false.
Proof. by destruct k, target. Qed.

Lemma transition_wf target final reason at_ t :
  wf t = true -> is_some final = is_completed target ->
  wf (fst (transition_at target final reason at_ t)) = true.
Proof.
  intros Hwf Hfin. unfold transition_at.
  destruct (can_transition_to _ _) eqn:E; [|exact Hwf].
  destruct t as [? ? ? ? ? st fr ? ? sa ea].
  destruct st, target, final; try discriminate; destruct fr, ea, sa;
    first [discriminate | reflexivity].
Qed.

Lemma edge_wf t t' : wf t = true -> edge t t' -> wf t' = true.
Proof.
  intros Hwf H; inversion H as [ | | | | | | r now u]; subst; try by apply transition_wf.
  unfold recover. destruct (status t) eqn:E; try exact Hwf. by apply transition_wf.
Qed.

(** Every turn the code can produce — created by [Turn::new] and driven
    through any sequence of the edge methods, the refused calls included — is
    well formed: it carries a final result exactly when it is completed, an end
    time exactly when it is terminal, no start time while pending and one once
    it has run. *)
Theorem reachable_wf (t : Turn) (H : reachable t) : wf t = true.
Proof. induction H; [reflexivity | eauto using edge_wf]. Qed.

Lemma reachable_wf_witness :
  let t := new 7 100 "cli-1" TriggerUser Compact None in
  let t := fst (start 110 t) in
  let t := fst (complete (Structured JNull) 120 t) in
  status t = Completed /\ wf t = true.
Proof.
  split; [reflexivity |].
  apply reachable_wf. eapply reach_edge; [eapply reach_edge; [apply reach_new |] |].
  - apply (edge_start 110).
  - apply (edge_complete (Structured JNull) 120).
Defined.

(** What one edge call does: it moves along an allowed transition and keeps
    the turn's identity, or it is refused and changes nothing at all. *)
Definition edge_outcome (t t' : Turn) : Prop :=
  t' = t \/
  (can_transition_to (kind (status t)) (kind (status t')) = true /\
   id t' = id t /\ session_id t' = session_id t /\ parent_turn_id t' = parent_turn_id t /\
   origin t' = origin t /\ input t' = input t /\ created_at t' = created_at t).

Lemma transition_outcome target final reason at_ t :
  (is_some final = true -> target = Completed) ->
  edge_outcome t (fst (transition_at target final reason at_ t)) /\
  (is_Ok (snd (transition_at target final reason at_ t)) = false ->
   fst (transition_at target final reason at_ t) = t).
Proof.
  intros Hfin. unfold edge_outcome, transition_at.
  destruct (can_transition_to _ _) eqn:E; cbn; [|by split; [left|]].
  destruct final; [rewrite Hfin in * by done|]; destruct target, (started_at t); cbn;
    (split; [right; done | done]).
Qed.

(** An edge call is all or nothing.  Either it is refused and leaves the
    turn exactly as it was, or it moves the status along one of the allowed
    transitions and keeps id, session, parent, origin, input and creation
    time; and a refusal is the only way to get an error. *)
Theorem edge_atomic (t t' : Turn) (H : edge t t') : edge_outcome t t'.
Proof.
  inversion H; subst; try by apply transition_outcome.
  unfold recover. destruct (status t) eqn:E; try by left. by apply transition_outcome.
Qed.

Lemma edge_atomic_witness :
  let t := new 7 100 "cli-1" TriggerUser Compact None in
  edge_outcome t (fst (recover "watchdog" 110 t)).
Proof. apply edge_atomic, edge_recover. Defined.

Lemma terminal_edge t t' : is_terminal t = true -> edge t t' -> t' = t.
Proof.
  intros Ht H; unfold is_terminal in Ht; inversion H; subst;
    try (unfold start, complete, fail, cancel, cancel_at, stuck, transition_at;
         rewrite terminal_stuck by done; done).
  unfold recover. by destruct (status t).
Qed.

(** A terminal turn is frozen: no sequence of edge calls changes any of its
    fields, so a late cancel, failure or completion cannot overwrite how it
    ended. *)
Theorem terminal_frozen (t t' : Turn) (Ht : is_terminal t = true) (H : rtc edge t t') :
  t' = t.
Proof.
  induction H as [|x y z Hxy Hyz IH]; [done|].
  pose proof (terminal_edge _ _ Ht Hxy) as ->. by apply IH.
Qed.

Lemma terminal_frozen_witness :
  let t := fst (fail "timeout" 120 (new 7 100 "cli-1" TriggerUser Compact None)) in
  fst (cancel UserStopped [] 130 t) = t.
Proof.
  cbv zeta. apply terminal_frozen; [reflexivity |].
  apply rtc_once. apply edge_cancel.
Defined.

(** [transition_at] itself stamps the end time before it rejects a stray final
    result: the error leaves a mutated turn, still in its old status. *)
Lemma rejected_result_stamps_end (t : Turn) reason out why at_ :
  kind (status t) = KInProgress ->
  transition_at (Failed reason) (Some out) why at_ t =
  (set_ended_at (Some at_) t, Err (ResultOnNonCompleted KInProgress KFailed (id t))).
Proof. intros Hk. unfold transition_at. rewrite Hk. cbn. by destruct (started_at t). Qed.

(** And it accepts a completion that carries no result. *)
Lemma completion_without_result (t : Turn) why at_ :
  kind (status t) = KInProgress -> final_result t = None ->
  status (fst (transition_at Completed None why at_ t)) = Completed /\
  final_result (fst (transition_at Completed None why at_ t)) = None.
Proof. intros Hk Hf. unfold transition_at. rewrite Hk. cbn. by destruct (started_at t). Qed.

End Turn.
