(* ===== verification/Lifecycle.v ===== *)
(** * The turn lifecycle orchestrator ([crates/turn/src/lifecycle.rs])

    [TurnLifecycle] over any turn store: load, run one edge, save, publish.
    The store is an interface with an abstraction function; the in-memory store
    of the repository and a store with injected faults implement it. *)

From S2P Require Import Prelude Message Turn.
Import Message Turn.

Module Lifecycle.

(** ** The store interface ([crates/store/src/turn.rs]) *)

Inductive StorageError :=
| StorageText (s : string)
| StorageNotFound (s : string)
| Conflict (s : string)
| TooLarge (limit actual : N)
| StorageInternal (s : string).

(** The [thiserror] display strings. *)
Definition storage_error_text (e : StorageError) : string :=
  match e with
  | StorageText s => "storage error: " +:+ s
  | StorageNotFound s => "not found: " +:+ s
  | Conflict s => "conflict: " +:+ s
  | TooLarge limit actual =>
      "payload too large: " +:+ pretty actual +:+ " bytes exceeds limit of " +:+ pretty limit
  | StorageInternal s => s
  end%string.

(** [impl From<StorageError> for TurnError]. *)
Definition of_storage (e : StorageError) : TurnError :=
  match e with
  | StorageNotFound s => NotFound (inr s)
  | StorageInternal s => Internal s
  | other => Storage (storage_error_text other)
  end.

Class TurnStore (S : Type) := {
  store_create : TurnRow -> S -> S * result unit StorageError;
  store_get : TurnId -> S -> S * result (option TurnRow) StorageError;
  store_save : TurnRow -> S -> S * result unit StorageError;
  view : S -> gmap TurnId TurnRow;
}.

(** What a store promises its client: a read returns the row or fails, a write
    that succeeds is the only thing that changes the rows, and one that fails
    changes none. *)
Class TurnStoreLaws (S : Type) `{TurnStore S} := {
  store_get_view i s :
    view (fst (store_get i s)) = view s /\
    forall o, snd (store_get i s) = Ok o -> o = view s !! i;
  store_save_view row s :
    view (fst (store_save row s)) =
    match snd (store_save row s) with
    | Ok _ => <[row_id row := row]> (view s)
    | Err _ => view s
    end;
  store_create_view row s :
    view (fst (store_create row s)) =
    match snd (store_create row s) with
    | Ok _ => <[row_id row := row]> (view s)
    | Err _ => view s
    end;
}.

(** [MemoryTurnStore] ([crates/turn/src/test_support.rs]). *)
Definition memory_create (row : TurnRow) (s : gmap TurnId TurnRow)
    : gmap TurnId TurnRow * result unit StorageError :=
  (<[row_id row := row]> s, Ok tt).
Definition memory_get (i : TurnId) (s : gmap TurnId TurnRow)
    : gmap TurnId TurnRow * result (option TurnRow) StorageError := (s, Ok (s !! i)).
Definition memory_save (row : TurnRow) (s : gmap TurnId TurnRow)
    : gmap TurnId TurnRow * result unit StorageError :=
  (<[row_id row := row]> s, Ok tt).

#[export] Instance MemoryTurnStore : TurnStore (gmap TurnId TurnRow) := {
  store_create := memory_create;
  store_get := memory_get;
  store_save := memory_save;
  view s := s;
}.

(** ** Events *)

Inductive TurnPhase :=
| Started
| PhaseCompleted (reply_ordinal : option Z)
| PhaseFailed
| PhaseCancelled.

Definition terminal_status (p : TurnPhase) : option TurnStatusKind :=
  match p with
  | Started => None
  | PhaseCompleted _ => Some KCompleted
  | PhaseFailed => Some KFailed
  | PhaseCancelled => Some KCancelled
  end.

Record TurnLifecycleEvent := mk_event {
  ev_turn_id : TurnId;
  ev_session_id : SessionId;
  ev_parent_turn_id : option TurnId;
  ev_phase : TurnPhase;
  ev_kind : TurnInputKind;
}.

(** ** State

    The cancellation registry maps a running turn to its token (named by a
    number); [tripped] are the cancelled tokens.  [events] is everything sent
    on the broadcast bus, oldest first. *)
Record TurnLifecycle (S : Type) := mk_lifecycle {
  store : S;
  tokens : gmap TurnId N;
  tripped : gset N;
  events : list TurnLifecycleEvent;
}.
Arguments mk_lifecycle {S} _ _ _ _.
Arguments store {S} _.
Arguments tokens {S} _.
Arguments tripped {S} _.
Arguments events {S} _.

(** The methods take [&self] and fail early with [?]: state passing with an
    error, where the effects before the error stay. *)
Definition LM (S A : Type) : Type := TurnLifecycle S -> TurnLifecycle S * result A TurnError.

Definition ret {S A} (a : A) : LM S A := fun l => (l, Ok a).
Definition throw {S A} (e : TurnError) : LM S A := fun l => (l, Err e).
Definition bind {S A B} (m : LM S A) (k : A -> LM S B) : LM S B := fun l =>
  match m l with
  | (l', Ok a) => k a l'
  | (l', Err e) => (l', Err e)
  end.
Notation "'let!' x ':=' e 'in' k" := (bind e (fun x => k))
  (at level 10, x pattern, e at level 100, k at level 200) : baybo_scope.

Section Ops.
Context {S : Type} `{TurnStore S} `{TurnCodec}.

Definition lift {A} (r : result A TurnError) : LM S A := fun l => (l, r).

Definition on_store {A} (f : S -> S * result A StorageError) : LM S A := fun l =>
  let '(s', r) := f (store l) in
  (mk_lifecycle s' (tokens l) (tripped l) (events l),
   match r with Ok a => Ok a | Err e => Err (of_storage e) end).

(** *** Cancellation registry ([cancellation_registry.rs]) *)

Definition registry_register (i : TurnId) (token : N) : LM S unit := fun l =>
  (mk_lifecycle (store l) (<[i := token]> (tokens l)) (tripped l) (events l), Ok tt).
Definition registry_unregister (i : TurnId) : LM S unit := fun l =>
  (mk_lifecycle (store l) (delete i (tokens l)) (tripped l) (events l), Ok tt).
Definition registry_cancel (i : TurnId) : LM S bool := fun l =>
  match tokens l !! i with
  | Some token =>
      (mk_lifecycle (store l) (tokens l) ({[token]} ∪ tripped l) (events l), Ok true)
  | None => (l, Ok false)
  end.
Definition is_registered (i : TurnId) (l : TurnLifecycle S) : bool := is_some (tokens l !! i).

(** *** Load, apply, persist *)

Definition load_turn (i : TurnId) : LM S Turn :=
  let! row := on_store (store_get i) in
  match row with
  | None => throw (NotFound (inl i))
  | Some r => lift (from_row r)
  end.

Definition apply (i : TurnId) (f : Turn -> Turn * result TurnTransition TurnError) : LM S Turn :=
  let! turn := load_turn i in
  match f turn with
  | (turn', Ok _) => ret turn'
  | (_, Err e) => throw e
  end.

Definition persist (t : Turn) : LM S unit :=
  let! row := lift (to_row t) in
  on_store (store_save row).

Definition send (e : TurnLifecycleEvent) : LM S unit := fun l =>
  (mk_lifecycle (store l) (tokens l) (tripped l) (events l ++ [e]), Ok tt).

Definition persist_and_publish (t : Turn) (phase : TurnPhase) : LM S unit :=
  let event := mk_event (id t) (session_id t) (parent_turn_id t) phase (input_kind (input t)) in
  let! _ := persist t in
  send event.

(** *** The public operations *)

Definition register_running (i : TurnId) (token : N) : LM S unit := registry_register i token.

Definition lc_start_turn (fresh : TurnId) (now : Time) (session : SessionId) (o : TriggerKind)
    (inp : TurnInput) (parent : option TurnId) : LM S Turn :=
  let turn := new fresh now session o inp parent in
  let! row := lift (to_row turn) in
  let! _ := on_store (store_create row) in
  ret turn.

Definition lc_start (now : Time) (i : TurnId) : LM S unit :=
  let! turn := apply i (start now) in
  persist_and_publish turn Started.

Definition lc_complete (now : Time) (i : TurnId) (output : TurnOutput) : LM S unit :=
  let reply_ordinal := match output with
                       | OutMessage _ ordinal => ordinal
                       | Structured _ => None
                       end in
  let! turn := apply i (complete output now) in
  persist_and_publish turn (PhaseCompleted reply_ordinal).

Definition lc_fail (now : Time) (i : TurnId) (reason : string) : LM S unit :=
  let! turn := apply i (fail reason now) in
  persist_and_publish turn PhaseFailed.

Definition lc_cancel (now : Time) (i : TurnId) (reason : CancelReason) (partial : list SpanId)
    : LM S unit :=
  let! _ := registry_cancel i in
  let! turn := load_turn i in
  if is_terminal turn then ret tt
  else
    let! turn := apply i (cancel reason partial now) in
    persist_and_publish turn PhaseCancelled.

Definition lc_cancel_at (i : TurnId) (reason : CancelReason) (partial : list SpanId) (at_ : Time)
    : LM S unit :=
  let! turn := load_turn i in
  if is_terminal turn then ret tt
  else
    let! turn := apply i (cancel_at reason partial at_) in
    persist_and_publish turn PhaseCancelled.

Definition lc_stuck (now : Time) (i : TurnId) (reason : string) : LM S unit :=
  let! turn := apply i (stuck reason now) in
  persist turn.

Definition lc_recover (now : Time) (i : TurnId) (reason : string) : LM S unit :=
  let! turn := apply i (recover reason now) in
  persist turn.

Definition lc_get (i : TurnId) : LM S (option Turn) :=
  let! row := on_store (store_get i) in
  match row with
  | None => ret None
  | Some r => let! t := lift (from_row r) in ret (Some t)
  end.

(** ** Concurrent calls

    The calls take [&self] and await the store twice, once to load and once to
    save, with no lock across the two: [complete] and [cancel] each split into
    the half up to the save and the half that saves and publishes, and two
    tasks may interleave the halves. *)
Definition complete_load (now : Time) (i : TurnId) (output : TurnOutput) : LM S Turn :=
  apply i (complete output now).
Definition cancel_load (now : Time) (i : TurnId) (reason : CancelReason)
    (partial : list SpanId) : LM S (option Turn) :=
  let! _ := registry_cancel i in
  let! turn := load_turn i in
  if is_terminal turn then ret None
  else
    let! turn := apply i (cancel reason partial now) in
    ret (Some turn).
Definition cancel_commit (o : option Turn) : LM S unit :=
  match o with
  | None => ret tt
  | Some turn => persist_and_publish turn PhaseCancelled
  end.

(** Both calls load, then both save, the completion first. *)
Definition racing_cancel (now : Time) (i : TurnId) (ordinal : option Z) (output : TurnOutput)
    (reason : CancelReason) (partial : list SpanId) : LM S (option Turn) :=
  let! completed := complete_load now i output in
  let! cancelled := cancel_load now i reason partial in
  let! _ := persist_and_publish completed (PhaseCompleted ordinal) in
  let! _ := cancel_commit cancelled in
  ret cancelled.

(** ** Runs: any sequence of public calls *)

Inductive call :=
| CallStartTurn (fresh : TurnId) (now : Time) (session : SessionId) (o : TriggerKind)
    (inp : TurnInput) (parent : option TurnId)
| CallStart (now : Time) (i : TurnId)
| CallComplete (now : Time) (i : TurnId) (output : TurnOutput)
| CallFail (now : Time) (i : TurnId) (reason : string)
| CallCancel (now : Time) (i : TurnId) (reason : CancelReason) (partial : list SpanId)
| CallCancelAt (i : TurnId) (reason : CancelReason) (partial : list SpanId) (at_ : Time)
| CallStuck (now : Time) (i : TurnId) (reason : string)
| CallRecover (now : Time) (i : TurnId) (reason : string)
| CallGet (i : TurnId)
| CallRegister (i : TurnId) (token : N)
| CallUnregister (i : TurnId).

Definition run_call (c : call) (l : TurnLifecycle S) : TurnLifecycle S :=
  match c with
  | CallStartTurn fresh now s o inp p => fst (lc_start_turn fresh now s o inp p l)
  | CallStart now i => fst (lc_start now i l)
  | CallComplete now i out => fst (lc_complete now i out l)
  | CallFail now i r => fst (lc_fail now i r l)
  | CallCancel now i r p => fst (lc_cancel now i r p l)
  | CallCancelAt i r p at_ => fst (lc_cancel_at i r p at_ l)
  | CallStuck now i r => fst (lc_stuck now i r l)
  | CallRecover now i r => fst (lc_recover now i r l)
  | CallGet i => fst (lc_get i l)
  | CallRegister i token => fst (register_running i token l)
  | CallUnregister i => fst (registry_unregister i l)
  end.

(** A new turn draws a fresh UUID. *)
Definition fresh_ok (l : TurnLifecycle S) (c : call) : Prop :=
  match c with
  | CallStartTurn fresh _ _ _ _ _ => view (store l) !! fresh = None
  | _ => True
  end.

Inductive step : TurnLifecycle S -> TurnLifecycle S -> Prop :=
| step_call l c : fresh_ok l c -> step l (run_call c l).

(** ** Abstract specification: the log automaton

    What a subscriber of the bus may believe about one turn: it is queued, then
    running, then over.  A running turn may announce a start again: the guard
    of [start] also lets a stuck turn through. *)
Inductive stage := Queued | Running | Over.

Definition stage_of (k : TurnStatusKind) : stage :=
  match k with
  | KPending => Queued
  | KInProgress | KStuck => Running
  | KCompleted | KFailed | KCancelled => Over
  end.

Definition phase_step (s : stage) (p : TurnPhase) : option stage :=
  match s, p with
  | (Queued | Running), Started => Some Running
  | Running, PhaseCompleted _ => Some Over
  | (Queued | Running), (PhaseFailed | PhaseCancelled) => Some Over
  | _, _ => None
  end.

Fixpoint replay (s : stage) (ps : list TurnPhase) : option stage :=
  match ps with
  | [] => Some s
  | p :: ps' => match phase_step s p with Some s' => replay s' ps' | None => None end
  end.

Definition phases (i : TurnId) (evs : list TurnLifecycleEvent) : list TurnPhase :=
  ev_phase <$> filter (fun e => ev_turn_id e = i) evs.

Definition stored_stage (v : gmap TurnId TurnRow) (i : TurnId) : stage :=
  match v !! i with
  | Some row => match from_row row with
                | Ok t => stage_of (kind (status t))
                | Err _ => Queued
                end
  | None => Queued
  end.

(** Every stored row was written from a turn that has the row's key. *)
Definition rows_ok (v : gmap TurnId TurnRow) : Prop :=
  map_Forall (fun i row => exists t, to_row t = Ok row /\ id t = i) v.

Definition log_inv (s0 : TurnId -> stage) (l : TurnLifecycle S) : Prop :=
  rows_ok (view (store l)) /\
  forall i, replay (s0 i) (phases i (events l)) = Some (stored_stage (view (store l)) i).

End Ops.

(** ** Laws of the in-memory store *)

#[export] Instance MemoryTurnStore_laws : TurnStoreLaws (gmap TurnId TurnRow).
Proof. split; cbn; try done. intros i s. split; [done | by intros o [= <-]]. Qed.

(** ** Proofs *)

Section Proofs.
Context {S : Type} `{HS : TurnStore S} `{HL : !TurnStoreLaws S} `{HC : TurnCodec}.
Implicit Types (l : TurnLifecycle S).

(** Only the store may differ, and its rows do not. *)
Definition same_rows l l' : Prop :=
  view (store l') = view (store l) /\ events l' = events l.

Lemma on_store_get_spec i l l' r :
  on_store (store_get i) l = (l', r) ->
  same_rows l l' /\ forall o, r = Ok o -> o = view (store l) !! i.
Proof.
  unfold on_store, same_rows. pose proof (store_get_view i (store l)) as [Hv Ho].
  destruct (store_get i (store l)) as [s' [o|e]]; intros [= <- <-]; cbn in *;
    (split; [done|]); intros ? [= <-]; auto.
Qed.

Lemma from_row_stored v i row :
  rows_ok v -> v !! i = Some row -> exists t, from_row row = Ok t /\ to_row t = Ok row /\ id t = i.
Proof.
  intros Hv Hi. destruct (Hv i row Hi) as (t & Hrow & Hid). exists t. split_and!; auto.
  unfold to_row in Hrow. destruct (serialize_turn t) as [d|] eqn:Hd; [|discriminate].
  injection Hrow as <-. unfold from_row. cbn. by rewrite (deserialize_serialize _ _ Hd).
Qed.

Lemma load_turn_spec i l l' r :
  rows_ok (view (store l)) -> load_turn i l = (l', r) ->
  same_rows l l' /\
  forall t, r = Ok t -> exists row, view (store l) !! i = Some row /\ from_row row = Ok t /\ id t = i.
Proof.
  intros Hok. unfold load_turn, bind.
  destruct (on_store _ l) as [l1 [o|e]] eqn:Hg; apply on_store_get_spec in Hg as [Hs Ho];
    [|by intros [= <- <-]].
  specialize (Ho o eq_refl). destruct o as [row|]; cbn; intros [= <- <-]; (split; [done|]).
  - intros t Ht. destruct (from_row_stored _ _ _ Hok (eq_sym Ho)) as (t' & Hf & _ & Hid).
    rewrite Hf in Ht. injection Ht as <-. eauto.
  - done.
Qed.

Lemma apply_spec i f l l' r :
  rows_ok (view (store l)) -> apply i f l = (l', r) ->
  same_rows l l' /\
  forall t', r = Ok t' ->
    exists row t tr, view (store l) !! i = Some row /\ from_row row = Ok t /\ id t = i /\
      f t = (t', Ok tr).
Proof.
  intros Hok. unfold apply, bind.
  destruct (load_turn i l) as [l1 [t|e]] eqn:Hg; apply load_turn_spec in Hg as [Hs Ht]; auto;
    [|by intros [= <- <-]].
  destruct (Ht t eq_refl) as (row & Hrow & Hfrom & Hid).
  destruct (f t) as [t1 [tr|e]] eqn:Hf; cbn; intros [= <- <-]; (split; [done|]); [|done].
  intros ? [= <-]. eauto 10.
Qed.

Lemma persist_spec t l l' r :
  persist t l = (l', r) ->
  events l' = events l /\
  match r with
  | Ok _ => exists row, to_row t = Ok row /\ view (store l') = <[id t := row]> (view (store l))
  | Err _ => view (store l') = view (store l)
  end.
Proof.
  unfold persist, bind, lift, on_store.
  destruct (to_row t) as [row|e] eqn:Hrow; [|by intros [= <- <-]].
  pose proof (store_save_view row (store l)) as Hv.
  destruct (store_save row (store l)) as [s' [[]|e]]; intros [= <- <-]; cbn in *; (split; [done|]);
    [|done].
  exists row. split; [done|]. rewrite Hv. f_equal.
  unfold to_row in Hrow. destruct (serialize_turn t); [|discriminate]. by injection Hrow as <-.
Qed.

Lemma publish_spec t phase l l' r :
  persist_and_publish t phase l = (l', r) ->
  match r with
  | Ok _ => exists row, to_row t = Ok row /\
      view (store l') = <[id t := row]> (view (store l)) /\
      events l' = events l ++
        [mk_event (id t) (session_id t) (parent_turn_id t) phase (input_kind (input t))]
  | Err _ => view (store l') = view (store l) /\ events l' = events l
  end.
Proof.
  unfold persist_and_publish, bind.
  destruct (persist t l) as [l1 [[]|e]] eqn:Hp; apply persist_spec in Hp as [He Hv].
  - destruct Hv as (row & Hrow & Hv). intros [= <- <-]; cbn. exists row. by rewrite He.
  - by intros [= <- <-].
Qed.

(** *** The log invariant *)

Lemma replay_snoc s ps p : replay s (ps ++ [p]) = replay s ps ≫= fun s' => phase_step s' p.
Proof.
  revert s; induction ps as [|q ps IH]; intros s; cbn.
  - by destruct (phase_step s p).
  - destruct (phase_step s q); cbn; auto.
Qed.

Lemma phases_snoc i evs e :
  phases i (evs ++ [e]) =
  phases i evs ++ (if decide (ev_turn_id e = i) then [ev_phase e] else []).
Proof.
  unfold phases. rewrite list.filter_app, fmap_app, list.filter_cons.
  by destruct (decide (ev_turn_id e = i)).
Qed.

Lemma stored_stage_insert v t row j :
  to_row t = Ok row ->
  stored_stage (<[id t := row]> v) j =
  if decide (id t = j) then stage_of (kind (status t)) else stored_stage v j.
Proof.
  intros Hrow. unfold stored_stage. rewrite lookup_insert.
  case_decide; [|done]. unfold to_row in Hrow. destruct (serialize_turn t) eqn:Hd; [|discriminate].
  injection Hrow as <-. unfold from_row. cbn. by rewrite (deserialize_serialize _ _ Hd).
Qed.

Lemma rows_ok_insert v t row :
  rows_ok v -> to_row t = Ok row -> rows_ok (<[id t := row]> v).
Proof. intros Hv Hrow. apply map_Forall_insert_2; [|done]. eauto. Qed.

Lemma log_inv_same s0 l l' : log_inv s0 l -> same_rows l l' -> log_inv s0 l'.
Proof. unfold log_inv. intros [Hok Hr] [-> ->]. done. Qed.

Lemma edge_publish_inv s0 i f phase l :
  log_inv s0 l ->
  (forall t t' tr, f t = (t', Ok tr) ->
     id t' = id t /\
     phase_step (stage_of (kind (status t))) phase = Some (stage_of (kind (status t')))) ->
  log_inv s0 (fst (bind (apply i f) (fun t => persist_and_publish t phase) l)).
Proof.
  intros Hinv Hf. unfold bind.
  destruct (apply i f l) as [l1 [t|e]] eqn:Ha; apply apply_spec in Ha as [Hs Ht];
    try apply Hinv; [|by apply (log_inv_same s0 l)].
  pose proof (log_inv_same s0 _ _ Hinv Hs) as Hinv1.
  destruct (Ht t eq_refl) as (row & t0 & tr & Hrow & Hfrom & Hid & Hft).
  destruct (Hf _ _ _ Hft) as [Hid' Hstep].
  destruct (persist_and_publish t phase l1) as [l2 [[]|e]] eqn:Hp; apply publish_spec in Hp; cbn.
  - destruct Hp as (row' & Hrow' & Hv & He). destruct Hinv1 as [Hok1 Hr1]. split; rewrite Hv.
    + by apply rows_ok_insert.
    + intros j. rewrite He, phases_snoc, (stored_stage_insert _ _ _ j Hrow'). cbn.
      case_decide as Hj; [|by rewrite app_nil_r].
      rewrite replay_snoc, Hr1. cbn. unfold stored_stage.
      destruct Hs as [-> _]. subst j. by rewrite Hid', Hid, Hrow, Hfrom.
  - by apply (log_inv_same s0 l1).
Qed.

Lemma edge_persist_inv s0 i f l :
  log_inv s0 l ->
  (forall t t' tr, f t = (t', Ok tr) ->
     id t' = id t /\ stage_of (kind (status t)) = stage_of (kind (status t'))) ->
  log_inv s0 (fst (bind (apply i f) persist l)).
Proof.
  intros Hinv Hf. unfold bind.
  destruct (apply i f l) as [l1 [t|e]] eqn:Ha; apply apply_spec in Ha as [Hs Ht];
    try apply Hinv; [|by apply (log_inv_same s0 l)].
  pose proof (log_inv_same s0 _ _ Hinv Hs) as Hinv1.
  destruct (Ht t eq_refl) as (row & t0 & tr & Hrow & Hfrom & Hid & Hft).
  destruct (Hf _ _ _ Hft) as [Hid' Hstep].
  destruct (persist t l1) as [l2 [[]|e]] eqn:Hp; apply persist_spec in Hp as [He Hp]; cbn.
  - destruct Hp as (row' & Hrow' & Hv). destruct Hinv1 as [Hok1 Hr1]. split; rewrite Hv.
    + by apply rows_ok_insert.
    + intros j. rewrite He, (stored_stage_insert _ _ _ j Hrow').
      case_decide as Hj; [|done]. rewrite Hr1. unfold stored_stage.
      destruct Hs as [-> _]. subst j. by rewrite Hid', Hid, Hrow, Hfrom, Hstep.
  - by apply (log_inv_same s0 l1).
Qed.

Lemma start_turn_inv s0 fresh now ses o inp p l :
  view (store l) !! fresh = None ->
  log_inv s0 l -> log_inv s0 (fst (lc_start_turn fresh now ses o inp p l)).
Proof.
  intros Hfresh Hinv. unfold lc_start_turn, bind, lift, on_store.
  destruct (to_row _) as [row|e] eqn:Hrow; [|exact Hinv].
  pose proof (store_create_view row (store l)) as Hv.
  assert (Hid : row_id row = fresh).
  { unfold to_row in Hrow. destruct (serialize_turn _); [|discriminate]. by injection Hrow as <-. }
  destruct (store_create row (store l)) as [s' [[]|e]]; cbn in *.
  - destruct Hinv as [Hok Hr]. split; cbn; rewrite Hv, Hid.
    + by apply (rows_ok_insert _ (new fresh now ses o inp p)).
    + intros j. rewrite (stored_stage_insert _ (new fresh now ses o inp p) _ j Hrow), Hr.
      cbn. case_decide; [|done]. subst j. unfold stored_stage. by rewrite Hfresh.
  - by apply (log_inv_same s0 l).
Qed.

Lemma transition_edge target final reason at_ t t' tr phase :
  transition_at target final reason at_ t = (t', Ok tr) ->
  (forall k, can_transition_to k (kind target) = true ->
     phase_step (stage_of k) phase = Some (stage_of (kind target))) ->
  id t' = id t /\ phase_step (stage_of (kind (status t))) phase = Some (stage_of (kind (status t'))).
Proof.
  intros Ht Hk. apply transition_ok in Ht as (Hc & -> & Hid & _). auto.
Qed.

(** Close a phase goal by evaluating the transition table. *)
Ltac by_table := let Hc := fresh in intros [] Hc; vm_compute in Hc |- *; first [discriminate | reflexivity].

Lemma publish_edge_inv s0 i target final reason at_ phase l :
  (forall k, can_transition_to k (kind target) = true ->
     phase_step (stage_of k) phase = Some (stage_of (kind target))) ->
  log_inv s0 l ->
  log_inv s0 (fst (bind (apply i (transition_at target final reason at_))
                        (fun t => persist_and_publish t phase) l)).
Proof.
  intros Hk Hinv. apply edge_publish_inv; [done|]. intros t t' tr Ht.
  by eapply transition_edge.
Qed.

Lemma cancel_inv s0 i target at_ l :
  kind target = KCancelled ->
  log_inv s0 l ->
  log_inv s0 (fst (bind (load_turn i) (fun turn =>
     if is_terminal turn then ret tt
     else bind (apply i (transition_at target None None at_))
               (fun t => persist_and_publish t PhaseCancelled)) l)).
Proof.
  intros Hk Hinv. unfold bind at 1.
  destruct (load_turn i l) as [l1 [t|e]] eqn:Hl; apply load_turn_spec in Hl as [Hs _];
    try apply Hinv; cbn; [|by apply (log_inv_same s0 l)].
  apply (log_inv_same s0 _ _ Hinv) in Hs. destruct (is_terminal t); [done|].
  apply publish_edge_inv; [rewrite Hk; by_table | done].
Qed.

Lemma get_inv s0 i l : log_inv s0 l -> log_inv s0 (fst (lc_get i l)).
Proof.
  intros Hinv. unfold lc_get, bind.
  destruct (on_store _ l) as [l1 [o|e]] eqn:Hg; apply on_store_get_spec in Hg as [Hs _];
    apply (log_inv_same s0 _ _ Hinv) in Hs; [|done].
  destruct o as [row|]; [|done]. unfold lift. by destruct (from_row row).
Qed.

Lemma step_log_inv s0 l l' : log_inv s0 l -> step l l' -> log_inv s0 l'.
Proof.
  intros Hinv Hstep. inversion Hstep as [? c Hfresh]; subst. destruct c; cbn in *.
  - by apply start_turn_inv.
  - apply publish_edge_inv; [by_table | done].
  - apply publish_edge_inv; [by_table | done].
  - apply publish_edge_inv; [by_table | done].
  - unfold lc_cancel, bind at 1, registry_cancel.
    destruct (tokens l !! i); by apply cancel_inv.
  - by apply cancel_inv.
  - apply edge_persist_inv; [done|]. intros t t' tr Ht.
    apply transition_ok in Ht as (Hc & -> & Hid & _). split; [done|].
    destruct (kind (status t)); vm_compute in Hc |- *; congruence.
  - apply edge_persist_inv; [done|]. intros t t' tr. unfold recover.
    destruct (status t) eqn:Hst; try discriminate. intros Ht.
    apply transition_ok in Ht as (_ & -> & Hid & _). done.
  - by apply get_inv.
  - done.
  - done.
Qed.

Lemma run_inv l0 l (H0 : rows_ok (view (store l0))) (He : events l0 = [])
    (Hrun : rtc step l0 l) : log_inv (stored_stage (view (store l0))) l.
Proof.
  set (s0 := stored_stage (view (store l0))).
  assert (Hinv : log_inv s0 l0) by (split; [done | intros j; by rewrite He]).
  clear He H0. clearbody s0. induction Hrun; eauto using step_log_inv.
Qed.

Lemma run_replays l0 l (H0 : rows_ok (view (store l0))) (He : events l0 = [])
    (Hrun : rtc step l0 l) (i : TurnId) :
  replay (stored_stage (view (store l0)) i) (phases i (events l)) =
  Some (stored_stage (view (store l)) i).
Proof.
  by apply run_inv.
Qed.

(** C12: the event bus is a faithful log of the store.  Start from any store of
    well-formed rows and an empty bus and make any sequence of lifecycle calls,
    with store failures anywhere: for every turn, replaying its published
    events through the queued/running/over automaton, from the stage it was
    stored in at the start, succeeds and ends in exactly the stage the store
    holds now. *)
Theorem bus_refines_store l0 l (H0 : rows_ok (view (store l0))) (He : events l0 = [])
    (Hrun : rtc step l0 l) (i : TurnId) :
  replay (stored_stage (view (store l0)) i) (phases i (events l)) =
  Some (stored_stage (view (store l)) i).
Proof. by apply run_replays. Qed.

Lemma terminal_phase_over s q s' :
  terminal_status q <> None -> phase_step s q = Some s' -> s' = Over.
Proof. by destruct s, q; cbn; intros Hq [= <-]. Qed.

Lemma replay_over ps s' : replay Over ps = Some s' -> ps = [].
Proof. by destruct ps as [|[] ps]. Qed.

Lemma replay_app s ps qs : replay s (ps ++ qs) = replay s ps ≫= fun s' => replay s' qs.
Proof.
  revert s; induction ps as [|p ps IH]; intros s; cbn; [done|].
  destruct (phase_step s p); cbn; auto.
Qed.

(** Subscribers see at most one ending per turn, and nothing after it: in
    the events published for a turn, a terminal event is always the last one,
    and no other terminal event precedes it. *)
Theorem terminal_event_last l0 l (H0 : rows_ok (view (store l0))) (He : events l0 = [])
    (Hrun : rtc step l0 l) (i : TurnId) (before after : list TurnPhase) (p : TurnPhase)
    (Hp : phases i (events l) = before ++ p :: after) (Hterm : terminal_status p <> None) :
  after = [] /\ Forall (fun q => terminal_status q = None) before.
Proof.
  pose proof (run_replays l0 l H0 He Hrun i) as Hr.
  rewrite Hp, replay_app in Hr.
  destruct (replay _ before) as [s|] eqn:Hb; [|discriminate]. cbn in Hr.
  split.
  - destruct (phase_step s p) as [s'|] eqn:Hs; [|discriminate].
    rewrite (terminal_phase_over _ _ _ Hterm Hs) in Hr. by eapply replay_over.
  - apply Forall_forall. intros q Hq.
    destruct (terminal_status q) eqn:Hk; [exfalso|done].
    apply list_elem_of_split in Hq as (b1 & b2 & ->).
    rewrite replay_app in Hb. destruct (replay _ b1) as [s1|]; [|discriminate]. cbn in Hb.
    destruct (phase_step s1 q) as [s2|] eqn:Hs2; [|discriminate].
    rewrite (terminal_phase_over s1 q s2) in Hb; [|congruence | done].
    pose proof (replay_over _ _ Hb) as ->. cbn in Hb. injection Hb as <-.
    destruct p; cbn in *; try done.
Qed.

(** Nothing is announced that is not stored.  A lifecycle call that
    publishes an event has already saved the turn: the store holds a row that
    reads back as a turn whose status is the one announced; and a call whose
    save fails publishes nothing. *)
Theorem publish_after_save (t : Turn) (phase : TurnPhase) l l' (r : result unit TurnError)
    (Hrun : persist_and_publish t phase l = (l', r)) :
  (events l' = events l /\ is_Ok r = false /\ view (store l') = view (store l)) \/
  (is_Ok r = true /\
   exists row, view (store l') !! id t = Some row /\ from_row row = Ok t /\
     events l' = events l ++
       [mk_event (id t) (session_id t) (parent_turn_id t) phase (input_kind (input t))]).
Proof.
  apply publish_spec in Hrun. destruct r as [[]|e]; [right | by left; destruct Hrun].
  destruct Hrun as (row & Hrow & Hv & He). split; [done|]. exists row.
  rewrite Hv, lookup_insert_eq. split_and!; [done | | done].
  unfold to_row in Hrow. destruct (serialize_turn t) eqn:Hd; [|discriminate].
  injection Hrow as <-. unfold from_row. cbn. by rewrite (deserialize_serialize _ _ Hd).
Qed.

(** [cancel] on a turn that already ended succeeds without writing or
    publishing anything, and still trips the registered cancellation token —
    which it does before it even looks at the stored turn. *)
Theorem cancel_terminal_idempotent (i : TurnId) now reason partial l t row
    (Hok : rows_ok (view (store l)))
    (Hrow : view (store l) !! i = Some row) (Ht : from_row row = Ok t)
    (Hterm : is_terminal t = true)
    (Hget : exists o, snd (store_get i (store l)) = Ok o) :
  let '(l', r) := lc_cancel now i reason partial l in
  r = Ok tt /\ view (store l') = view (store l) /\ events l' = events l /\
  (forall token, tokens l !! i = Some token -> token ∈ tripped l').
Proof.
  unfold lc_cancel, bind, registry_cancel, load_turn, bind, on_store, lift.
  destruct (store_get_view i (store l)) as [Hv Ho]. destruct Hget as [o Hget].
  specialize (Ho o Hget). rewrite Hrow in Ho. subst o.
  destruct (store_get i (store l)) as [s' r'] eqn:Hs. cbn in Hget, Hv. subst r'.
  destruct (tokens l !! i) eqn:Htok; cbn; rewrite Hs, Ht, Hterm; cbn;
    (split_and!; [done | done | done |]); intros token Heq; [|congruence].
  injection Heq as <-. set_solver.
Qed.

(** *** Interleaving *)

Lemma lc_cancel_split now i reason partial l :
  lc_cancel now i reason partial l = bind (cancel_load now i reason partial) cancel_commit l.
Proof.
  unfold lc_cancel, cancel_load, bind, registry_cancel.
  destruct (tokens l !! i);
    (destruct (load_turn _ _) as [l1 [t|e]]; [|done]; destruct (is_terminal t); [done|];
     by destruct (apply _ _ _) as [l2 [t'|e]]).
Qed.

Lemma lc_complete_split now i output l :
  lc_complete now i output l =
  bind (complete_load now i output)
    (fun turn => persist_and_publish turn
       (PhaseCompleted (match output with OutMessage _ ordinal => ordinal | _ => None end))) l.
Proof. reflexivity. Qed.

Lemma cancel_load_spec now i reason partial l l' o :
  rows_ok (view (store l)) -> cancel_load now i reason partial l = (l', Ok o) ->
  same_rows l l' /\
  (forall row t, view (store l) !! i = Some row -> from_row row = Ok t -> is_terminal t = false ->
     exists t', o = Some t' /\ id t' = i /\ kind (status t') = KCancelled).
Proof.
  intros Hok. unfold cancel_load, bind.
  set (l0 := fst (registry_cancel i l)).
  assert (Hs0 : same_rows l l0) by (subst l0; unfold registry_cancel; by destruct (tokens l !! i)).
  replace (registry_cancel i l) with (l0, snd (registry_cancel i l))
    by (subst l0; by destruct (registry_cancel i l)).
  replace (snd (registry_cancel i l)) with (@Ok bool TurnError (is_some (tokens l !! i)))
    by (unfold registry_cancel; by destruct (tokens l !! i)).
  clearbody l0. destruct Hs0 as [Hv0 He0]. cbn.
  destruct (load_turn i l0) as [l1 [t|e]] eqn:Hl; [|discriminate].
  apply load_turn_spec in Hl as [[Hv1 He1] Ht]; [|by rewrite Hv0].
  destruct (Ht t eq_refl) as (row & Hrow & Hfrom & Hid).
  rewrite Hv0 in Hrow. unfold same_rows.
  destruct (is_terminal t) eqn:Hterm; cbn.
  - intros [= <- <-]. split; [split; congruence|]. intros row' t' Hr' Hf'. congruence.
  - destruct (apply i _ l1) as [l2 [t2|e]] eqn:Ha; cbn; intros [= <- <-].
    apply apply_spec in Ha as [[Hv2 He2] Ht2]; [|by rewrite Hv1, Hv0].
    split; [split; congruence|]. intros _ _ _ _ _.
    destruct (Ht2 t2 eq_refl) as (r2 & t0 & tr & _ & _ & Hid0 & Hc).
    apply transition_ok in Hc as (_ & Hst & Hid2 & _). exists t2.
    rewrite Hst, Hid2. done.
Qed.

(** Two ways of ending one turn race.  The calls load and save in separate
    store accesses, so a completion and a cancellation that both load the
    running turn before either saves both succeed: subscribers see the turn
    completed and then cancelled, and the store keeps the cancelled row, the
    completion's answer lost.  The guarantee of a single, last ending therefore
    holds for calls on one turn that do not overlap, and only for those. *)
Theorem overlapping_endings now (i : TurnId) ordinal output reason partial l l' o row t
    (Hok : rows_ok (view (store l)))
    (Hrow : view (store l) !! i = Some row) (Hfrom : from_row row = Ok t)
    (Hlive : is_terminal t = false)
    (Hrun : racing_cancel now i ordinal output reason partial l = (l', Ok o)) :
  phases i (events l') = phases i (events l) ++ [PhaseCompleted ordinal; PhaseCancelled] /\
  stored_stage (view (store l')) i = Over /\
  exists t' row', o = Some t' /\ kind (status t') = KCancelled /\
    view (store l') !! i = Some row' /\ from_row row' = Ok t'.
Proof.
  revert Hrun. unfold racing_cancel, bind at 1, complete_load.
  destruct (apply i _ l) as [l1 [tc|e]] eqn:Ha; [|discriminate].
  apply apply_spec in Ha as [[Hv1 He1] Hc]; [|done].
  destruct (Hc tc eq_refl) as (rc & t0 & trc & _ & _ & Hid0 & Htc).
  apply transition_ok in Htc as (_ & _ & Hidc & _).
  unfold bind at 1. destruct (cancel_load _ _ _ _ l1) as [l2 [oc|e]] eqn:Hx; [|discriminate].
  apply cancel_load_spec in Hx as [[Hv2 He2] Hx]; [|by rewrite Hv1].
  destruct (Hx row t) as (tx & -> & Hidx & Hkx); [by rewrite Hv1 | done | done |].
  unfold bind at 1. destruct (persist_and_publish tc _ l2) as [l3 [[]|e]] eqn:Hp1; [|discriminate].
  apply publish_spec in Hp1 as (row1 & _ & Hv3 & He3).
  unfold bind. cbn [cancel_commit].
  destruct (persist_and_publish tx _ l3) as [l4 [[]|e]] eqn:Hp2; [|discriminate].
  apply publish_spec in Hp2 as (row2 & Hrow2 & Hv4 & He4).
  intros [= <- <-].
  split; [|split].
  - rewrite He4, phases_snoc, He3, phases_snoc, He2, He1. cbn.
    rewrite !decide_True by congruence. by rewrite <- app_assoc.
  - rewrite Hv4, (stored_stage_insert _ _ _ _ Hrow2), decide_True by done. by rewrite Hkx.
  - exists tx, row2. rewrite Hv4, <- Hidx, lookup_insert_eq. split_and!; [done.. |].
    unfold to_row in Hrow2. destruct (serialize_turn tx) eqn:Hd; [|discriminate].
    injection Hrow2 as <-. unfold from_row. cbn. by rewrite (deserialize_serialize _ _ Hd).
Qed.

End Proofs.

(** ** A concrete codec and concrete runs

    A codec for turns without content, enough to run the definitions: such a
    turn is a tuple, a tuple is a positive number, a number is a text. *)
Module Sample.

Fixpoint pos_text (p : positive) : string :=
  match p with
  | xH => "."
  | xO p' => String "0" (pos_text p')
  | xI p' => String "1" (pos_text p')
  end.
Fixpoint text_pos (s : string) : option positive :=
  match s with
  | String "." EmptyString => Some xH
  | String "0" s' => xO <$> text_pos s'
  | String "1" s' => xI <$> text_pos s'
  | _ => None
  end.
Lemma text_pos_text p : text_pos (pos_text p) = Some p.
Proof. induction p as [p IH|p IH|]; cbn; [by rewrite IH | by rewrite IH | done]. Qed.

Definition plain : Type := N * string * nat * bool * Z * option Z * option Z.

Definition plain_of (t : Turn) : option plain :=
  match t with
  | mk_turn i s None TriggerUser Compact st fr [] ca sa ea =>
      match (match st with
             | Pending => Some 0 | InProgress => Some 1 | Stuck "" => Some 2
             | Cancelled UserStopped [] => Some 3 | Failed "" => Some 4 | Completed => Some 5
             | Cancelled SystemCrash [] => Some 6
             | _ => None
             end),
            (match fr with
             | None => Some false | Some (Structured JNull) => Some true | _ => None
             end) with
      | Some k, Some b => Some (i, s, k, b, ca, sa, ea)
      | _, _ => None
      end
  | _ => None
  end.

Definition of_plain (x : plain) : Turn :=
  let '(i, s, k, b, ca, sa, ea) := x in
  mk_turn i s None TriggerUser Compact
    (match k with
     | 0 => Pending | 1 => InProgress | 2 => Stuck "" | 3 => Cancelled UserStopped []
     | 4 => Failed "" | 6 => Cancelled SystemCrash [] | _ => Completed
     end)
    (if b then Some (Structured JNull) else None) [] ca sa ea.

Lemma of_plain_of t x : plain_of t = Some x -> of_plain x = t.
Proof.
  destruct t as [? ? pt o inp st fr em ? ? ?]. cbn.
  destruct pt; [discriminate|]. destruct o; try discriminate. destruct inp; try discriminate.
  destruct st as [| |r|[] []|r|]; try discriminate; try (destruct r; try discriminate);
    destruct fr as [[|[]]|]; try discriminate; destruct em; try discriminate;
    by intros [= <-].
Qed.

Definition serialize (t : Turn) : result string string :=
  match plain_of t with
  | Some x => Ok (pos_text (encode x))
  | None => Err "unsupported"%string
  end.
Definition deserialize (s : string) : result Turn string :=
  match text_pos s ≫= decode with
  | Some x => Ok (of_plain x)
  | None => Err "bad text"%string
  end.
#[export] Instance codec : TurnCodec.
Proof.
  refine {| serialize_turn := serialize; deserialize_turn := deserialize |}.
  intros t s. unfold serialize, deserialize.
  destruct (plain_of t) as [x|] eqn:Hx; intros [= <-].
  rewrite text_pos_text. cbn. rewrite decode_encode. by rewrite (of_plain_of t x).
Defined.

Definition empty : TurnLifecycle (gmap TurnId TurnRow) := mk_lifecycle ∅ ∅ ∅ [].
(** A turn that is created, registered, started and then completed. *)
Definition running : TurnLifecycle (gmap TurnId TurnRow) :=
  run_call (CallStart 110 7)
    (run_call (CallRegister 7 1)
      (run_call (CallStartTurn 7 100 "cli" TriggerUser Compact None) empty)).
Definition finished : TurnLifecycle (gmap TurnId TurnRow) :=
  run_call (CallComplete 120 7 (Structured JNull)) running.

Lemma running_steps : rtc step empty running.
Proof.
  eapply rtc_l; [apply (step_call empty (CallStartTurn 7 100 "cli" TriggerUser Compact None)) |].
  { reflexivity. }
  eapply rtc_l; [apply (step_call _ (CallRegister 7 1)) |]; [done|].
  apply rtc_once. by apply (step_call _ (CallStart 110 7)).
Qed.
Lemma finished_steps : rtc step empty finished.
Proof.
  eapply rtc_r; [apply running_steps |]. by apply (step_call _ (CallComplete 120 7 _)).
Qed.

End Sample.
Import Sample.

Lemma bus_refines_store_witness :
  replay Queued (phases 7 (events finished)) = Some Over.
Proof.
  exact (bus_refines_store empty finished (map_Forall_empty _) eq_refl finished_steps 7%N).
Defined.

Lemma terminal_event_last_witness :
  phases 7 (events finished) = [Started; PhaseCompleted None] /\
  Forall (fun q => terminal_status q = None) [Started].
Proof.
  split; [vm_compute; reflexivity |].
  apply (terminal_event_last empty finished (map_Forall_empty _) eq_refl finished_steps 7
           [Started] [] (PhaseCompleted None)); [vm_compute; reflexivity | discriminate].
Defined.

Lemma publish_after_save_witness :
  let t := of_plain (7%N, "cli"%string, 1, false, 100%Z, Some 110%Z, None) in
  let l' := fst (persist_and_publish t Started empty) in
  length (events l') = 1 /\ is_some (view (store l') !! 7%N) = true.
Proof.
  cbv zeta.
  set (t := of_plain _).
  destruct (publish_after_save t Started empty
              (fst (persist_and_publish t Started empty))
              (snd (persist_and_publish t Started empty))) as [(_ & H & _) | (_ & row & H & _ & E)].
  - by destruct (persist_and_publish t Started empty).
  - vm_compute in H. discriminate.
  - change (id t) with 7%N in H. rewrite H, E. split; reflexivity.
Defined.

Lemma cancel_terminal_idempotent_witness :
  snd (lc_cancel 130 7 UserStopped [] finished) = Ok tt /\
  1%N ∈ tripped (fst (lc_cancel 130 7 UserStopped [] finished)).
Proof.
  destruct (view (store finished) !! 7%N) as [row|] eqn:Hrow; [|vm_compute in Hrow; discriminate].
  assert (exists t, from_row row = Ok t /\ is_terminal t = true) as (t & Ht & Hterm).
  { vm_compute in Hrow. injection Hrow as <-. eexists. split; vm_compute; reflexivity. }
  pose proof (cancel_terminal_idempotent (S := gmap TurnId TurnRow) 7%N 130 UserStopped [] finished
                t row) as H.
  destruct (lc_cancel 130 7 UserStopped [] finished) as [l' r].
  destruct H as (Hr & _ & _ & Htrip); [ | exact Hrow | exact Ht | exact Hterm | eexists; reflexivity | ].
  - apply (proj1 (run_inv empty finished (map_Forall_empty _) eq_refl finished_steps)).
  - split; [exact Hr |]. apply Htrip. vm_compute. reflexivity.
Defined.

Lemma overlapping_endings_witness :
  let l' := fst (racing_cancel 120 7 None (Structured JNull) UserStopped [] running) in
  phases 7 (events l') = [Started; PhaseCompleted None; PhaseCancelled] /\
  stored_stage (view (store l')) 7%N = Over.
Proof.
  cbv zeta.
  destruct (racing_cancel 120 7 None (Structured JNull) UserStopped [] running)
    as [l' [o|e]] eqn:Hrun; [|vm_compute in Hrun; discriminate].
  destruct (view (store running) !! 7%N) as [row|] eqn:Hrow; [|vm_compute in Hrow; discriminate].
  assert (exists t, from_row row = Ok t /\ is_terminal t = false) as (t & Ht & Hterm).
  { vm_compute in Hrow. injection Hrow as <-. eexists. split; vm_compute; reflexivity. }
  destruct (overlapping_endings (S := gmap TurnId TurnRow) 120 7 None (Structured JNull)
              UserStopped [] running l' o row t) as (Hp & Hs & _);
    [ | exact Hrow | exact Ht | exact Hterm | exact Hrun | ].
  - apply (proj1 (run_inv empty running (map_Forall_empty _) eq_refl running_steps)).
  - split; [exact Hp | exact Hs].
Defined.

End Lifecycle.
