(* ===== verification/TranscriptRepair.v ===== *)
(** * Repair of tool-call pairing at hydration
      ([crates/context/src/transcript_repair.rs])

    A crash in the middle of a tool batch leaves calls without results, and old
    transcripts reuse call ids; providers refuse both.  The repair renames
    repeated ids, drops results that answer nothing, fills in the missing ones
    and moves each result below its call. *)
From S2P Require Import Prelude Message.
Import Message.

Module TranscriptRepair.

Definition INTERRUPTED_TOOL_RESULT_BODY : string :=
  "[tool execution was interrupted by a crash or restart before it produced a result]".
Definition REPEATED_CALL_ID_SEPARATOR : string := "_".
Definition FIRST_REPEAT_ORDINAL : nat := 2.

Record ToolPairingRepair := mk_repair {
  messages : list ChatMessage;
  fills : list ChatMessage;
  orphan_result_ids : list string;
  duplicate_result_ids : list string;
  renamed_call_ids : list string;
}.

Record CallSlot := mk_slot {
  original : string;
  renamed : string;
  message : nat;
  answered : bool;
}.

Definition set_content (c : list ContentBlock) (m : ChatMessage) : ChatMessage :=
  mk_msg (role m) c (platform_msg_id m) (source m).

(** ** Disambiguation of repeated call ids *)

Definition repeat_id (id : string) (n : nat) : string :=
  (id +:+ REPEATED_CALL_ID_SEPARATOR +:+ pretty (N.of_nat n))%string.

(** The source searches [2..] without a bound; one more candidate than there
    are taken ids is enough (lemma [unused_repeat_id_fresh]). *)
Definition unused_repeat_id (id : string) (taken : gset string) : string :=
  default id
    (find_first (fun candidate => bool_decide (candidate ∉ taken))
       (map (repeat_id id) (seq FIRST_REPEAT_ORDINAL (S (size taken))))).

(** The position of the call that a result with [id] answers. *)
Definition pairing_call (calls : list CallSlot) (id : string) (is_fill : bool) : option nat :=
  let by_window_id :=
    if is_fill then rposition (fun c => negb (answered c) && String.eqb (renamed c) id) calls
    else None in
  match by_window_id with
  | Some i => Some i
  | None =>
      match last calls with
      | None => None
      | Some latest =>
          let start :=
            match rposition (fun c => negb (Nat.eqb (message c) (message latest))) calls with
            | Some i => S i
            | None => 0
            end in
          Nat.add start <$>
            position (fun c => negb (answered c) && String.eqb (original c) id) (drop start calls)
      end
  end.

Record Disamb := mk_disamb {
  taken : gset string;
  calls : list CallSlot;
  renames : list string;
}.

Definition mark_answered (c : CallSlot) : CallSlot :=
  mk_slot (original c) (renamed c) (message c) true.

Definition disamb_block (index : nat) (st : Disamb) (b : ContentBlock) : Disamb * ContentBlock :=
  match b with
  | ToolUse id name inp sig =>
      let repeated := bool_decide (id ∈ taken st) in
      let id' := if repeated then unused_repeat_id id (taken st) else id in
      (mk_disamb ({[id']} ∪ taken st) (calls st ++ [mk_slot id id' index false])
         (if repeated then renames st ++ [id] else renames st),
       ToolUse id' name inp sig)
  | ToolResult id body meta =>
      let is_fill := Str.contains INTERRUPTED_TOOL_RESULT_BODY body in
      match pairing_call (calls st) id is_fill with
      | Some i =>
          match calls st !! i with
          | Some c =>
              (mk_disamb (taken st) (<[i := mark_answered c]> (calls st)) (renames st),
               ToolResult (renamed c) body meta)
          | None => (st, b)
          end
      | None => (st, b)
      end
  | _ => (st, b)
  end.

Definition disamb_row (st : nat * Disamb) (m : ChatMessage) : (nat * Disamb) * ChatMessage :=
  let '(index, st) := st in
  let '(st, c) := map_accum (disamb_block index) st (content m) in
  ((S index, st), set_content c m).

Definition call_id_of (b : ContentBlock) : option string :=
  match b with ToolUse id _ _ _ => Some id | _ => None end.
Definition call_ids (m : ChatMessage) : list string := omap call_id_of (content m).
Definition all_call_ids (ms : list ChatMessage) : list string := concat (map call_ids ms).

(** [any(.. !seen.insert(id))]: some id occurs twice. *)
Definition has_repeats (ids : list string) : bool := negb (bool_decide (NoDup ids)).

Definition disambiguate_repeated_call_ids (ms : list ChatMessage)
    : list ChatMessage * list string :=
  if has_repeats (all_call_ids ms) then
    let '((_, st), ms') := map_accum disamb_row (0, mk_disamb ∅ [] []) ms in
    (ms', renames st)
  else (ms, []).

(** ** Quarantine *)

Definition is_result (b : ContentBlock) : bool :=
  match b with ToolResult _ _ _ => true | _ => false end.
Definition is_tool_result_row (m : ChatMessage) : bool :=
  match content m with [] => false | _ => forallb is_result (content m) end.
Definition result_id_of (b : ContentBlock) : option string :=
  match b with ToolResult id _ _ => Some id | _ => None end.
Definition result_ids (m : ChatMessage) : list string := omap result_id_of (content m).
Definition all_result_ids (ms : list ChatMessage) : list string := concat (map result_ids ms).

Definition synthetic_fill (id tool_name : string) : ChatMessage :=
  tool_result_with_meta id (wrap_tool_output tool_name INTERRUPTED_TOOL_RESULT_BODY []) None.

Record Quarantine := mk_quar {
  seen_result_ids : gset string;
  orphans : list string;
  duplicates : list string;
}.

Definition quar_block (tool_use_ids : gset string) (q : Quarantine) (b : ContentBlock)
    : Quarantine * bool :=
  match b with
  | ToolResult id _ _ =>
      if negb (bool_decide (id ∈ tool_use_ids)) then
        (mk_quar (seen_result_ids q) (orphans q ++ [id]) (duplicates q), false)
      else if bool_decide (id ∈ seen_result_ids q) then
        (mk_quar (seen_result_ids q) (orphans q) (duplicates q ++ [id]), false)
      else (mk_quar ({[id]} ∪ seen_result_ids q) (orphans q) (duplicates q), true)
  | _ => (q, true)
  end.

Definition quar_row (tool_use_ids : gset string) (q : Quarantine) (m : ChatMessage)
    : Quarantine * ChatMessage :=
  let '(q, c) := retain_accum (quar_block tool_use_ids) q (content m) in
  (q, set_content c m).

Definition nonempty (m : ChatMessage) : bool :=
  match content m with [] => false | _ => true end.

Definition quarantine_invalid_results (ms : list ChatMessage)
    : list ChatMessage * list string * list string :=
  let tool_use_ids := list_to_set (all_call_ids ms) in
  let '(q, ms) := map_accum (quar_row tool_use_ids) (mk_quar ∅ [] []) ms in
  (List.filter nonempty ms, orphans q, duplicates q).

(** ** Repair *)

(** [entry(id).or_insert(i)] over the rows in order: the first row wins. *)
Definition index_row (acc : nat * gmap string nat) (m : ChatMessage) : nat * gmap string nat :=
  let '(i, idx) := acc in
  (S i,
   if is_tool_result_row m then
     foldl (fun idx id => match idx !! id with Some _ => idx | None => <[id := i]> idx end)
       idx (result_ids m)
   else idx).
Definition row_of_id (ms : list ChatMessage) : gmap string nat :=
  snd (foldl index_row (0, ∅) ms).

(** The healthy-shape scan: state is (needs repair, ids awaiting a result). *)
Definition scan_id (st : bool * gset string) (id : string) : bool * gset string :=
  let '(bad, expected) := st in (bad || negb (bool_decide (id ∈ expected)), expected ∖ {[id]}).

Definition scan_row (st : bool * gset string) (m : ChatMessage) : bool * gset string :=
  let '(bad, expected) := st in
  if is_tool_result_row m then
    foldl scan_id (bad, expected) (result_ids m)
  else (bad || negb (bool_decide (expected = ∅)), list_to_set (call_ids m)).
Definition needs_repair (ms : list ChatMessage) : bool :=
  let '(bad, expected) := foldl scan_row (false, ∅) ms in
  bad || negb (bool_decide (expected = ∅)).

Definition uses (m : ChatMessage) : list (string * string) :=
  omap (fun b => match b with ToolUse id name _ _ => Some (id, name) | _ => None end) (content m).

Record Rebuild := mk_rebuild {
  consumed : gset nat;
  repaired : list ChatMessage;
  filled : list ChatMessage;
}.

Definition place_result (ms : list ChatMessage) (idx : gmap string nat) (st : Rebuild)
    (use : string * string) : Rebuild :=
  let '(id, name) := use in
  match idx !! id with
  | Some ri =>
      if bool_decide (ri ∈ consumed st) then st
      else
        mk_rebuild ({[ri]} ∪ consumed st)
          (repaired st ++ match ms !! ri with Some r => [r] | None => [] end) (filled st)
  | None =>
      let fill := synthetic_fill id name in
      mk_rebuild (consumed st) (repaired st ++ [fill]) (filled st ++ [fill])
  end.

Definition rebuild_row (ms : list ChatMessage) (idx : gmap string nat) (acc : nat * Rebuild)
    (m : ChatMessage) : nat * Rebuild :=
  let '(i, st) := acc in
  (S i,
   if bool_decide (i ∈ consumed st) then st
   else if is_tool_result_row m then st
   else
     foldl (place_result ms idx) (mk_rebuild (consumed st) (repaired st ++ [m]) (filled st))
       (uses m)).

Definition repair_tool_pairing (input : list ChatMessage) : ToolPairingRepair :=
  let '(ms, renamed) := disambiguate_repeated_call_ids input in
  let '(ms, orphans, duplicates) := quarantine_invalid_results ms in
  if negb (needs_repair ms) then mk_repair ms [] orphans duplicates renamed
  else
    let '(_, st) := foldl (rebuild_row ms (row_of_id ms)) (0, mk_rebuild ∅ [] []) ms in
    mk_repair (repaired st) (filled st) orphans duplicates renamed.

(** ** Specification vocabulary *)

(** A persisted row: one tool result, or no tool result at all. *)
Definition persisted (m : ChatMessage) : Prop :=
  result_ids m = [] \/ exists id body meta, content m = [ToolResult id body meta].

(** What providers accept: every row that is not a result is followed directly
    by the result rows answering its calls, one each, and there are no other
    results. *)
Inductive accepted : list ChatMessage -> Prop :=
| accepted_nil : accepted []
| accepted_group m rs ms :
    is_tool_result_row m = false -> Forall (fun r => is_tool_result_row r = true) rs ->
    all_result_ids rs ≡ₚ call_ids m -> accepted ms ->
    accepted (m :: rs ++ ms).

(** The rebuild without its bookkeeping: below each row, the result row or the
    fill of each of its calls. *)
Definition row_answering (ms : list ChatMessage) (id : string) : option ChatMessage :=
  find_first (fun m => is_tool_result_row m && bool_decide (id ∈ result_ids m)) ms.
Definition answer (ms : list ChatMessage) (use : string * string) : ChatMessage :=
  default (synthetic_fill (fst use) (snd use)) (row_answering ms (fst use)).
Definition reference (ms : list ChatMessage) : list ChatMessage :=
  concat (map (fun m => if is_tool_result_row m then [] else m :: map (answer ms) (uses m)) ms).

(** ** Renaming makes ids unique *)

Lemma repeat_id_inj id n m : repeat_id id n = repeat_id id m -> n = m.
Proof.
  unfold repeat_id. intros H.
  apply (f_equal (Str.drop (String.length id))) in H. rewrite !Str.drop_app in H.
  apply (f_equal (Str.drop 1)) in H. cbn in H. apply (inj pretty) in H. lia.
Qed.

Lemma unused_repeat_id_fresh id (taken : gset string) : unused_repeat_id id taken ∉ taken.
Proof.
  unfold unused_repeat_id. set (l := map _ _).
  destruct (find_first _ l) as [c|] eqn:Hf; cbn.
  - apply find_first_Some in Hf as [Hf _]. by apply bool_decide_eq_true in Hf.
  - exfalso. rewrite find_first_None, Forall_forall in Hf.
    assert (Hnd : NoDup l).
    { apply NoDup_fmap_2; [intros n m; apply repeat_id_inj | apply NoDup_seq]. }
    assert (Hsub : list_to_set l ⊆ taken).
    { intros c Hc. apply elem_of_list_to_set in Hc. specialize (Hf c Hc).
      apply bool_decide_eq_false in Hf. by apply dec_stable. }
    apply subseteq_size in Hsub. rewrite size_list_to_set in Hsub by done.
    subst l. rewrite length_map, length_seq in Hsub. lia.
Qed.

(** What a loop over the blocks adds to the taken ids: fresh ones. *)
Definition fresh_run (old new : gset string) (ids : list string) : Prop :=
  NoDup ids /\ Forall (fun id => id ∉ old) ids /\ new = old ∪ list_to_set ids.

Lemma fresh_run_nil s : fresh_run s s [].
Proof. split_and!; [constructor | done | set_solver]. Qed.

Lemma fresh_run_app a b c l k : fresh_run a b l -> fresh_run b c k -> fresh_run a c (l ++ k).
Proof.
  intros (Hl & Hla & ->) (Hk & Hkb & ->). unfold fresh_run.
  rewrite Forall_forall in Hkb, Hla. split_and!.
  - apply NoDup_app. split_and!; [done | | done]. intros x Hx Hx'.
    specialize (Hkb x Hx'). set_solver.
  - apply Forall_app. rewrite !Forall_forall. split; [done|]. intros x Hx.
    specialize (Hkb x Hx). set_solver.
  - rewrite list_to_set_app_L. set_solver.
Qed.

Lemma disamb_blocks_fresh i st c :
  fresh_run (taken st) (taken (fst (map_accum (disamb_block i) st c)))
    (omap call_id_of (snd (map_accum (disamb_block i) st c))).
Proof.
  revert st; induction c as [|b c IH]; intros st; [apply fresh_run_nil|].
  cbn [map_accum]. destruct (disamb_block i st b) as [st1 b1] eqn:Hb.
  specialize (IH st1). destruct (map_accum (disamb_block i) st1 c) as [st2 c1]. cbn in *.
  assert (Hrun : fresh_run (taken st) (taken st1) (option_list (call_id_of b1))).
  { destruct b; cbn in Hb; try (injection Hb as <- <-; apply fresh_run_nil).
    - injection Hb as <- <-. cbn. split_and!; [apply NoDup_singleton | | cbn; set_solver].
      apply Forall_singleton. case_bool_decide; [apply unused_repeat_id_fresh | done].
    - destruct (pairing_call _ _ _) as [k|]; [destruct (calls st !! k)|];
        injection Hb as <- <-; apply fresh_run_nil. }
  change (omap call_id_of (b1 :: c1)) with
    (match call_id_of b1 with Some y => y :: omap call_id_of c1 | None => omap call_id_of c1 end).
  replace (match call_id_of b1 with Some y => _ | None => _ end)
    with (option_list (call_id_of b1) ++ omap call_id_of c1) by (by destruct (call_id_of b1)).
  by eapply fresh_run_app.
Qed.

Lemma disamb_rows_fresh st ms :
  fresh_run (taken (snd st)) (taken (snd (fst (map_accum disamb_row st ms))))
    (all_call_ids (snd (map_accum disamb_row st ms))).
Proof.
  revert st; induction ms as [|m ms IH]; intros [i st]; [apply fresh_run_nil|].
  cbn [map_accum disamb_row].
  pose proof (disamb_blocks_fresh i st (content m)) as Hrow.
  destruct (map_accum (disamb_block i) st (content m)) as [st1 c1].
  specialize (IH (S i, st1)). destruct (map_accum disamb_row (S i, st1) ms) as [[j st2] ms1].
  cbn in *. by eapply fresh_run_app.
Qed.

Lemma disambiguate_nodup ms : NoDup (all_call_ids (fst (disambiguate_repeated_call_ids ms))).
Proof.
  unfold disambiguate_repeated_call_ids, has_repeats. case_bool_decide as Hd; cbn; [done|].
  pose proof (disamb_rows_fresh (0, mk_disamb ∅ [] []) ms) as (Hn & _ & _).
  by destruct (map_accum disamb_row _ ms) as [[j st2] ms1].
Qed.

(** After disambiguation no two tool calls of the window share an id,
    however often the transcript reuses one and whatever suffixed names it
    already contains. *)
Theorem disambiguated_ids_unique (ms : list ChatMessage) :
  NoDup (all_call_ids (fst (disambiguate_repeated_call_ids ms))).
Proof. apply disambiguate_nodup. Qed.

(** ** Renaming keeps rows in shape *)

Lemma disamb_block_result i st b :
  is_result (snd (disamb_block i st b)) = is_result b /\
  (call_id_of b = None -> call_id_of (snd (disamb_block i st b)) = None).
Proof.
  destruct b; cbn; try done.
  by destruct (pairing_call _ _ _) as [k|]; [destruct (calls st !! k)|].
Qed.

Lemma disamb_blocks_result i st c :
  map is_result (snd (map_accum (disamb_block i) st c)) = map is_result c.
Proof.
  revert st; induction c as [|b c IH]; intros st; cbn [map_accum]; [done|].
  pose proof (disamb_block_result i st b) as [Hb _]. destruct (disamb_block i st b) as [st1 b1].
  specialize (IH st1). destruct (map_accum _ st1 c). cbn in *. congruence.
Qed.

Lemma no_results c : omap result_id_of c = [] <-> Forall (fun r => r = false) (map is_result c).
Proof.
  induction c as [|b c IH]; [done|]. cbn [map]. rewrite Forall_cons, <- IH.
  destruct b; cbn; intuition (discriminate || congruence).
Qed.

Lemma disamb_row_persisted st m : persisted m -> persisted (snd (disamb_row st m)).
Proof.
  destruct st as [i st]. unfold persisted, disamb_row.
  pose proof (disamb_blocks_result i st (content m)) as Hs.
  destruct (map_accum (disamb_block i) st (content m)) as [st1 c1] eqn:E; cbn in *.
  intros [Hn | (id & body & meta & Hc)].
  - left. unfold result_ids in *. cbn. rewrite no_results in *. by rewrite Hs.
  - right. rewrite Hc in E. cbn in E.
    destruct (pairing_call _ _ _) as [k|]; [destruct (calls st !! k)|]; cbn in E;
      injection E as _ <-; eauto.
Qed.

Lemma disamb_persisted ms :
  Forall persisted ms -> Forall persisted (fst (disambiguate_repeated_call_ids ms)).
Proof.
  intros Hp. unfold disambiguate_repeated_call_ids. destruct (has_repeats _); [|done].
  enough (H : forall st, Forall persisted (snd (map_accum disamb_row st ms))).
  { specialize (H (0, mk_disamb ∅ [] [])). by destruct (map_accum _ _ ms) as [[j st] ms1]. }
  induction Hp as [|m ms Hm Hms IH]; intros st; cbn [map_accum]; [constructor|].
  pose proof (disamb_row_persisted st m Hm) as Hr. destruct (disamb_row st m) as [st1 m1].
  specialize (IH st1). destruct (map_accum disamb_row st1 ms). by constructor.
Qed.

(** ** Quarantine leaves one result per call *)

Lemma omap_cons_option {A B} (f : A -> option B) x l :
  omap f (x :: l) = option_list (f x) ++ omap f l.
Proof. cbn. by destruct (f x). Qed.

Definition quar_run (U seen seen' : gset string) (ids : list string) : Prop :=
  fresh_run seen seen' ids /\ Forall (fun id => id ∈ U) ids.

Lemma quar_blocks U q c :
  let '(q', c') := retain_accum (quar_block U) q c in
  omap call_id_of c' = omap call_id_of c /\
  quar_run U (seen_result_ids q) (seen_result_ids q') (omap result_id_of c').
Proof.
  revert q; induction c as [|b c IH]; intros q; cbn [retain_accum].
  { by split; [|split; [apply fresh_run_nil|]]. }
  destruct (quar_block U q b) as [q1 keep] eqn:Hb.
  specialize (IH q1). destruct (retain_accum (quar_block U) q1 c) as [q2 c2].
  destruct IH as (Hc & Hf & HU). unfold quar_run.
  destruct b as [| | | | |id body meta|]; cbn in Hb; try by injection Hb as <- <-; cbn; rewrite Hc.
  destruct (bool_decide (id ∈ U)) eqn:HidU; cbn in Hb; [|by injection Hb as <- <-; cbn].
  case_bool_decide as Hseen; injection Hb as <- <-; cbn; [done|].
  split; [done|]. apply bool_decide_eq_true in HidU. split; [|by constructor].
  refine (fresh_run_app _ _ _ [id] (omap result_id_of c2) _ Hf).
  split_and!; [apply NoDup_singleton | by apply Forall_singleton | cbn; set_solver].
Qed.

Lemma quar_rows U q ms :
  let '(q', ms') := map_accum (quar_row U) q ms in
  all_call_ids ms' = all_call_ids ms /\
  quar_run U (seen_result_ids q) (seen_result_ids q') (all_result_ids ms').
Proof.
  revert q; induction ms as [|m ms IH]; intros q; cbn [map_accum].
  { by split; [|split; [apply fresh_run_nil|]]. }
  unfold quar_row at 1. pose proof (quar_blocks U q (content m)) as Hm.
  destruct (retain_accum (quar_block U) q (content m)) as [q1 c1].
  specialize (IH q1). destruct (map_accum (quar_row U) q1 ms) as [q2 ms2].
  destruct Hm as (Hc & Hf & HU), IH as (Hc' & Hf' & HU').
  split; [|split].
  - unfold all_call_ids in *. cbn [map concat]. rewrite Hc'. f_equal. exact Hc.
  - by eapply fresh_run_app.
  - by apply Forall_app.
Qed.

Lemma empty_no_ids m : nonempty m = false -> call_ids m = [] /\ result_ids m = [].
Proof. unfold nonempty, call_ids, result_ids. by destruct (content m). Qed.

Lemma filter_nonempty_ids ms :
  all_call_ids (List.filter nonempty ms) = all_call_ids ms /\
  all_result_ids (List.filter nonempty ms) = all_result_ids ms.
Proof.
  unfold all_call_ids, all_result_ids.
  induction ms as [|m ms [IH1 IH2]]; [done|]. cbn. destruct (nonempty m) eqn:E; cbn.
  - by rewrite IH1, IH2.
  - apply empty_no_ids in E as [-> ->]. done.
Qed.

Lemma quar_row_persisted U q m : persisted m -> persisted (snd (quar_row U q m)).
Proof.
  unfold persisted, quar_row. intros [Hn | (id & body & meta & Hc)].
  - left. assert (H : retain_accum (quar_block U) q (content m) = (q, content m)).
    { unfold result_ids in Hn. revert q. induction (content m) as [|b c IH]; intros q; [done|].
      destruct b; cbn in Hn |- *; try discriminate; by rewrite IH. }
    rewrite H. exact Hn.
  - rewrite Hc. cbn. destruct (negb _); [by left|].
    case_bool_decide; [by left | right; cbn; eauto].
Qed.

(** What the rest of the repair works on. *)
Record clean (ms : list ChatMessage) : Prop := mk_clean {
  clean_persisted : Forall persisted ms;
  clean_nonempty : Forall (fun m => nonempty m = true) ms;
  clean_calls : NoDup (all_call_ids ms);
  clean_results : NoDup (all_result_ids ms);
  clean_answers : Forall (fun id => id ∈ all_call_ids ms) (all_result_ids ms);
}.

Lemma quarantine_clean ms :
  Forall persisted ms -> NoDup (all_call_ids ms) ->
  let ms' := fst (fst (quarantine_invalid_results ms)) in
  clean ms' /\ all_call_ids ms' = all_call_ids ms.
Proof.
  intros Hp Hn. unfold quarantine_invalid_results. set (U := list_to_set (all_call_ids ms)).
  pose proof (quar_rows U (mk_quar ∅ [] []) ms) as Hq.
  assert (Hps : forall q, Forall persisted (snd (map_accum (quar_row U) q ms))).
  { clear -Hp. clearbody U. induction Hp as [|m ms Hm Hms IH]; intros q; cbn [map_accum]; [constructor|].
    pose proof (quar_row_persisted U q m Hm). destruct (quar_row U q m) as [q1 m1].
    specialize (IH q1). destruct (map_accum _ q1 ms). by constructor. }
  specialize (Hps (mk_quar ∅ [] [])).
  destruct (map_accum (quar_row U) _ ms) as [q ms']. cbn [fst snd] in *.
  destruct Hq as (Hc & (Hnd & _) & HU). destruct (filter_nonempty_ids ms') as [Hc' Hr'].
  cbv zeta. rewrite Hc'. split; [|done]. split; rewrite ?Hc', ?Hr', ?Hc; try done.
  - apply Forall_forall. intros m Hm. rewrite list_elem_of_In, filter_In in Hm.
    rewrite Forall_forall in Hps. apply Hps. apply list_elem_of_In. naive_solver.
  - apply Forall_forall. intros m Hm. rewrite list_elem_of_In, filter_In in Hm. naive_solver.
  - eapply Forall_impl; [exact HU|]. intros id Hid. subst U. by apply elem_of_list_to_set in Hid.
Qed.

(** The rows of the window a repair starts from. *)
Definition window (input : list ChatMessage) : list ChatMessage :=
  fst (fst (quarantine_invalid_results (fst (disambiguate_repeated_call_ids input)))).

Lemma window_clean input : Forall persisted input -> clean (window input).
Proof.
  intros Hp. unfold window.
  by destruct (quarantine_clean _ (disamb_persisted _ Hp) (disambiguate_nodup input)).
Qed.

(** ** The rebuild computes the reference *)

Lemma row_shape m :
  persisted m -> nonempty m = true ->
  (is_tool_result_row m = false /\ result_ids m = []) \/
  (exists id, is_tool_result_row m = true /\ result_ids m = [id] /\ call_ids m = [] /\ uses m = []).
Proof.
  intros [Hn | (id & body & meta & Hc)] Hne; [left | right; exists id].
  - split; [|done]. unfold is_tool_result_row, nonempty, result_ids in *.
    destruct (content m) as [|b c]; [done|]. by destruct b.
  - unfold is_tool_result_row, result_ids, call_ids, uses. by rewrite Hc.
Qed.

Lemma uses_ids m : map fst (uses m) = call_ids m.
Proof.
  unfold uses, call_ids. induction (content m) as [|b c IH]; [done|].
  destruct b; cbn; try done. by f_equal.
Qed.

Definition holds_result (id : string) (m : ChatMessage) : bool :=
  is_tool_result_row m && bool_decide (id ∈ result_ids m).

Lemma insert_first_lookup i ids (idx : gmap string nat) id :
  foldl (fun idx id => match idx !! id with Some _ => idx | None => <[id := i]> idx end) idx ids
    !! id =
  match idx !! id with
  | Some j => Some j
  | None => if bool_decide (id ∈ ids) then Some i else None
  end.
Proof.
  revert idx; induction ids as [|x ids IH]; intros idx; cbn [foldl].
  { by destruct (idx !! id). }
  assert (Hskip : id <> x -> bool_decide (id ∈ x :: ids) = bool_decide (id ∈ ids)).
  { intros Hne. apply bool_decide_ext. rewrite elem_of_cons. intuition. }
  rewrite IH. destruct (idx !! x) eqn:Hx.
  - destruct (idx !! id) eqn:Hid; [done|]. by rewrite Hskip by congruence.
  - destruct (decide (x = id)) as [->|Hne].
    + rewrite lookup_insert_eq, Hx, bool_decide_eq_true_2; [done | constructor].
    + rewrite lookup_insert_ne by done. destruct (idx !! id); [done|].
      by rewrite Hskip by congruence.
Qed.

Lemma row_of_id_position ms id : row_of_id ms !! id = position (holds_result id) ms.
Proof.
  unfold row_of_id.
  enough (H : forall i idx, snd (foldl index_row (i, idx) ms) !! id =
    match idx !! id with Some j => Some j | None => Nat.add i <$> position (holds_result id) ms end).
  { rewrite H, lookup_empty. by destruct (position _ ms). }
  induction ms as [|m ms IH]; intros i idx; cbn [foldl index_row position].
  { cbn. by destruct (idx !! id). }
  rewrite IH. unfold holds_result at 2. destruct (is_tool_result_row m); cbn [andb].
  - rewrite insert_first_lookup. destruct (idx !! id); [done|].
    case_bool_decide; cbn; [by rewrite Nat.add_0_r|].
    destruct (position _ ms); cbn; [|done]. by rewrite Nat.add_succ_r.
  - destruct (idx !! id); [done|]. destruct (position _ ms); cbn; [|done].
    by rewrite Nat.add_succ_r.
Qed.

Lemma row_answering_position ms id :
  row_answering ms id = position (holds_result id) ms ≫= (fun i => ms !! i).
Proof. apply find_first_position. Qed.

Definition unanswered (ms : list ChatMessage) (use : string * string) : option ChatMessage :=
  match row_answering ms (fst use) with
  | Some _ => None
  | None => Some (synthetic_fill (fst use) (snd use))
  end.

Section Rebuild.
Context (ms : list ChatMessage) (Hms : clean ms).

Lemma stored_row i m :
  ms !! i = Some m ->
  (is_tool_result_row m = false /\ result_ids m = []) \/
  (exists id, is_tool_result_row m = true /\ result_ids m = [id] /\ call_ids m = [] /\ uses m = []).
Proof.
  intros Hi. apply list_elem_of_lookup_2 in Hi. destruct Hms as [Hp Hn _ _ _].
  rewrite Forall_forall in Hp, Hn. apply row_shape; auto.
Qed.

Lemma row_answering_Some id r :
  row_answering ms id = Some r -> r ∈ ms /\ is_tool_result_row r = true /\ result_ids r = [id].
Proof.
  intros Hr. apply find_first_Some in Hr as [Hf Hin].
  apply andb_true_iff in Hf as [Hrow Hid]. apply bool_decide_eq_true in Hid.
  apply list_elem_of_lookup in Hin as Hl. destruct Hl as [i Hi].
  destruct (stored_row i r Hi) as [[Hf _] | (id' & _ & Hids & _)]; [congruence|].
  rewrite Hids in *. apply list_elem_of_singleton in Hid as ->. done.
Qed.

(** The consumed rows are those of the calls already processed. *)
Definition tracked (done_ids : list string) (st : Rebuild) : Prop :=
  forall ri, ri ∈ consumed st -> exists id, id ∈ done_ids /\ row_of_id ms !! id = Some ri.

Lemma place_result_spec ids st id name :
  tracked ids st -> id ∉ ids ->
  let st' := place_result ms (row_of_id ms) st (id, name) in
  repaired st' = repaired st ++ [answer ms (id, name)] /\
  filled st' = filled st ++ option_list (unanswered ms (id, name)) /\
  tracked (id :: ids) st'.
Proof.
  intros Ht Hid. unfold place_result, answer, unanswered. cbn [fst snd].
  rewrite row_answering_position, row_of_id_position.
  destruct (position (holds_result id) ms) as [ri|] eqn:Hpos; cbn [mbind option_bind].
  - destruct (position_Some _ _ _ Hpos) as (r & Hri & Hr). rewrite Hri. cbn.
    rewrite bool_decide_eq_false_2.
    + cbn. rewrite app_nil_r. split_and!; [done | done |]. intros rj. cbn.
      rewrite elem_of_union, elem_of_singleton. intros [->|Hj].
      * exists id. rewrite row_of_id_position. split; [constructor | done].
      * destruct (Ht rj Hj) as (id' & Hin & Hidx). exists id'. split; [by constructor | done].
    + intros Hcon. destruct (Ht ri Hcon) as (id' & Hin & Hidx).
      rewrite row_of_id_position in Hidx. destruct (position_Some _ _ _ Hidx) as (r' & Hri' & Hr').
      rewrite Hri in Hri'. injection Hri' as <-.
      unfold holds_result in Hr, Hr'. rewrite andb_true_iff, bool_decide_eq_true in Hr, Hr'.
      destruct (stored_row ri r Hri) as [[Hf _] | (id0 & _ & Hids & _)];
        [destruct Hr; congruence|].
      rewrite Hids, list_elem_of_singleton in Hr, Hr'. destruct Hr as [_ ->], Hr' as [_ ->]. done.
  - cbn. split_and!; [done | done |]. intros rj Hj.
    destruct (Ht rj Hj) as (id' & Hin & Hidx). exists id'. split; [by constructor | done].
Qed.

Lemma place_results_spec us ids st :
  tracked ids st -> NoDup (map fst us) -> Forall (fun id => id ∉ ids) (map fst us) ->
  let st' := foldl (place_result ms (row_of_id ms)) st us in
  repaired st' = repaired st ++ map (answer ms) us /\
  filled st' = filled st ++ omap (unanswered ms) us /\
  tracked (map fst us ++ ids) st'.
Proof.
  revert ids st; induction us as [|[id name] us IH]; intros ids st Ht Hn Hf;
    cbn [foldl map].
  { by rewrite !app_nil_r. }
  cbn [map fst] in Hn, Hf. apply NoDup_cons in Hn as [Hid Hn]. apply Forall_cons in Hf as [Hidf Hf].
  destruct (place_result_spec ids st id name Ht Hidf) as (Hr & Hfi & Ht').
  destruct (IH (id :: ids) _ Ht' Hn) as (Hr' & Hfi' & Ht'').
  { rewrite Forall_forall in *. intros x Hx. specialize (Hf x Hx). set_solver. }
  rewrite Hr', Hfi', Hr, Hfi, omap_cons_option, <- !app_assoc. split_and!; [done | done |].
  intros ri Hri. destruct (Ht'' ri Hri) as (x & Hx & Hxi). exists x. set_solver.
Qed.

Definition group (m : ChatMessage) : list ChatMessage :=
  if is_tool_result_row m then [] else m :: map (answer ms) (uses m).

Lemma rebuild_rows_spec suf pre st :
  ms = pre ++ suf -> tracked (all_call_ids pre) st ->
  let st' := snd (foldl (rebuild_row ms (row_of_id ms)) (length pre, st) suf) in
  repaired st' = repaired st ++ concat (map group suf) /\
  filled st' = filled st ++ omap (unanswered ms) (concat (map uses suf)).
Proof.
  revert pre st; induction suf as [|m suf IH]; intros pre st Heq Ht; cbn [foldl].
  { by rewrite !app_nil_r. }
  assert (Hm : ms !! length pre = Some m) by (rewrite Heq; by apply list_lookup_middle).
  assert (Heq' : ms = (pre ++ [m]) ++ suf) by (by rewrite <- app_assoc).
  assert (Hcalls : all_call_ids (pre ++ [m]) = all_call_ids pre ++ call_ids m).
  { unfold all_call_ids. split_app. cbn [map concat]. by rewrite app_nil_r. }
  cbn [rebuild_row map concat]. unfold group at 1.
  replace (S (length pre)) with (length (pre ++ [m])) by len_app.
  destruct (stored_row _ _ Hm) as [[Hrow _] | (id & Hrow & _ & Hc & Hu)]; rewrite Hrow.
  - rewrite bool_decide_eq_false_2.
    2: { intros Hcon. destruct (Ht _ Hcon) as (id & _ & Hidx). rewrite row_of_id_position in Hidx.
         destruct (position_Some _ _ _ Hidx) as (r & Hr & Hh). rewrite Hm in Hr.
         injection Hr as <-. unfold holds_result in Hh. by rewrite Hrow in Hh. }
    set (st0 := mk_rebuild _ _ _).
    assert (Hn : NoDup (all_call_ids ms)) by apply Hms.
    assert (Happ : all_call_ids ms = all_call_ids pre ++ call_ids m ++ all_call_ids suf).
    { rewrite Heq at 1. unfold all_call_ids. by split_app. }
    rewrite Happ in Hn. apply NoDup_app in Hn as (_ & Hdis & Hn). apply NoDup_app in Hn as (Hn & _ & _).
    destruct (place_results_spec (uses m) (all_call_ids pre) st0) as (Hr & Hf & Ht').
    { exact Ht. }
    { by rewrite uses_ids. }
    { rewrite uses_ids, Forall_forall. intros x Hx Hpre. apply (Hdis x Hpre). set_solver. }
    destruct (IH (pre ++ [m]) _ Heq' ltac:(rewrite Hcalls, <- uses_ids;
      intros ri Hri; destruct (Ht' ri Hri) as (x & Hx & Hxi); exists x; set_solver)) as [Hr2 Hf2].
    rewrite Hr2, Hf2, Hr, Hf, omap_app. subst st0. cbn. rewrite <- !app_assoc. done.
  - assert (Hst : (if bool_decide (length pre ∈ consumed st) then st else st) = st)
      by (by case_bool_decide).
    rewrite Hst. destruct (IH (pre ++ [m]) st Heq') as [Hr Hf].
    { by rewrite Hcalls, Hc, app_nil_r. }
    by rewrite Hr, Hf, Hu.
Qed.

Lemma rebuild_reference :
  let st := snd (foldl (rebuild_row ms (row_of_id ms)) (0, mk_rebuild ∅ [] []) ms) in
  repaired st = reference ms /\ filled st = omap (unanswered ms) (concat (map uses ms)).
Proof. apply (rebuild_rows_spec ms []); [done|]. intros ri. set_solver. Qed.

End Rebuild.

(** ** The rebuilt window is accepted *)

Lemma fill_shape id name :
  is_tool_result_row (synthetic_fill id name) = true /\
  result_ids (synthetic_fill id name) = [id] /\ call_ids (synthetic_fill id name) = [] /\
  nonempty (synthetic_fill id name) = true /\ persisted (synthetic_fill id name).
Proof. split_and!; try done. right. unfold synthetic_fill. cbn. eauto. Qed.

Section Window.
Context (ms : list ChatMessage) (Hms : clean ms).

Lemma answer_shape use :
  is_tool_result_row (answer ms use) = true /\ result_ids (answer ms use) = [fst use].
Proof.
  unfold answer. destruct (row_answering ms (fst use)) as [r|] eqn:Hr; cbn [default].
  - by destruct (row_answering_Some ms Hms _ _ Hr) as (_ & ? & ?).
  - by destruct (fill_shape (fst use) (snd use)) as (? & ? & _).
Qed.

Lemma answers_ids us : all_result_ids (map (answer ms) us) = map fst us.
Proof.
  unfold all_result_ids. induction us as [|u us IH]; [done|]. cbn [map concat].
  by rewrite (proj2 (answer_shape u)), IH.
Qed.

Lemma groups_accepted l : accepted (concat (map (group ms) l)).
Proof.
  induction l as [|m l IH]; [constructor|]. cbn [map concat]. unfold group at 1.
  destruct (is_tool_result_row m) eqn:Hrow; [done|].
  change ((m :: map (answer ms) (uses m)) ++ concat (map (group ms) l))
    with (m :: map (answer ms) (uses m) ++ concat (map (group ms) l)).
  constructor; [done | | | done].
  - rewrite Forall_map. apply Forall_forall. intros u _. apply answer_shape.
  - by rewrite answers_ids, uses_ids.
Qed.

End Window.

(** ** The scan decides acceptance *)

Lemma scan_results bad X rs :
  Forall (fun r => is_tool_result_row r = true) rs ->
  foldl scan_row (bad, X) rs = foldl scan_id (bad, X) (all_result_ids rs).
Proof.
  intros H; revert bad X. induction H as [|r rs Hr Hrs IH]; intros bad X; [done|].
  unfold all_result_ids. cbn [map concat foldl]. rewrite foldl_app. cbn [scan_row]. rewrite Hr.
  destruct (foldl scan_id (bad, X) (result_ids r)) as [bad' X']. apply IH.
Qed.

Lemma scan_bad ms X : fst (foldl scan_row (true, X) ms) = true.
Proof.
  revert X; induction ms as [|m ms IH]; intros X; [done|]. cbn [foldl scan_row].
  destruct (is_tool_result_row m); [|apply IH].
  generalize (result_ids m) as ids. intros ids. revert X.
  induction ids as [|id ids IHi]; intros X; cbn [foldl]; [apply IH | apply IHi].
Qed.

Lemma scan_ids_ok ids X :
  NoDup ids -> Forall (fun id => id ∈ X) ids ->
  foldl scan_id (false, X) ids = (false, X ∖ list_to_set ids).
Proof.
  intros Hn; revert X. induction Hn as [|id ids Hid Hn IH]; intros X Hf; cbn [foldl].
  { f_equal. set_solver. }
  apply Forall_cons in Hf as [Hx Hf]. unfold scan_id at 2. rewrite bool_decide_eq_true_2 by done.
  cbn [negb orb]. rewrite IH; [f_equal; set_solver|].
  rewrite Forall_forall in *. intros y Hy. specialize (Hf y Hy). set_solver.
Qed.

Lemma scan_ids_inv ids X :
  fst (foldl scan_id (false, X) ids) = false ->
  NoDup ids /\ Forall (fun id => id ∈ X) ids.
Proof.
  assert (Hbad : forall ids X, fst (foldl scan_id (true, X) ids) = true).
  { clear. intros ids. induction ids; intros X; [done|]. cbn [foldl]. apply IHids. }
  revert X; induction ids as [|id ids IH]; intros X; cbn [foldl]; [by split; constructor|].
  unfold scan_id at 2. case_bool_decide as Hid; cbn [negb orb]; [|by rewrite Hbad].
  intros H. apply IH in H as [Hn Hf]. rewrite Forall_forall in Hf. split.
  - constructor; [|done]. intros Hin. specialize (Hf id Hin). set_solver.
  - apply Forall_cons. split; [done|]. apply Forall_forall. intros y Hy. specialize (Hf y Hy).
    set_solver.
Qed.

Lemma needs_repair_spec ms :
  needs_repair ms = false <-> foldl scan_row (false, ∅) ms = (false, ∅).
Proof.
  unfold needs_repair. destruct (foldl scan_row (false, ∅) ms) as [bad X].
  rewrite orb_false_iff, negb_false_iff, bool_decide_eq_true.
  split; [by intros [-> ->] | by intros [= -> ->]].
Qed.

Lemma scan_accepted ms X :
  NoDup (all_call_ids ms) -> foldl scan_row (false, X) ms = (false, ∅) ->
  exists rs ms', ms = rs ++ ms' /\ Forall (fun r => is_tool_result_row r = true) rs /\
    NoDup (all_result_ids rs) /\ list_to_set (all_result_ids rs) = X /\ accepted ms'.
Proof.
  revert X; induction ms as [|m ms IH]; intros X Hn Hs.
  { exists [], []. cbn in Hs. injection Hs as ->. split_and!; by try constructor. }
  unfold all_call_ids in Hn. cbn [map concat] in Hn. apply NoDup_app in Hn as (Hnm & _ & Hn).
  cbn [foldl scan_row] in Hs. destruct (is_tool_result_row m) eqn:Hrow.
  - destruct (foldl scan_id (false, X) (result_ids m)) as [bad X'] eqn:Hids.
    destruct bad; [pose proof (scan_bad ms X') as Hb; rewrite Hs in Hb; discriminate|].
    destruct (scan_ids_inv (result_ids m) X) as [Hnd Hf]; [by rewrite Hids|].
    rewrite (scan_ids_ok _ _ Hnd Hf) in Hids. injection Hids as <-.
    destruct (IH _ Hn Hs) as (rs & ms' & -> & Hrs & Hndrs & Hset & Hacc).
    exists (m :: rs), ms'. unfold all_result_ids in *. cbn [map concat].
    assert (Hsub : list_to_set (result_ids m) ⊆ X).
    { intros x Hx. rewrite Forall_forall in Hf. apply Hf. by apply elem_of_list_to_set in Hx. }
    split_and!; [done | by constructor | | | done].
    + apply NoDup_app. split_and!; [done | | done]. intros x Hx Hx'.
      assert (Hx2 : x ∈ (list_to_set (concat (map result_ids rs)) : gset string))
        by by apply elem_of_list_to_set.
      rewrite Hset in Hx2. set_solver.
    + rewrite list_to_set_app_L, Hset. apply set_eq. intros x. rewrite elem_of_union, elem_of_difference.
      destruct (decide (x ∈ (list_to_set (result_ids m) : gset string))); set_solver.
  - rewrite orb_false_l in Hs. case_bool_decide as HX; cbn [negb] in Hs.
    2: { pose proof (scan_bad ms (list_to_set (call_ids m))) as Hb. rewrite Hs in Hb. discriminate. }
    destruct (IH _ Hn Hs) as (rs & ms' & -> & Hrs & Hndrs & Hset & Hacc).
    exists [], (m :: rs ++ ms'). subst X. split_and!; try done; try constructor; try done.
    apply NoDup_Permutation; [done | done |]. intros x.
    rewrite <- (elem_of_list_to_set (C := gset string) x (call_ids m)), <- Hset.
    by rewrite elem_of_list_to_set.
Qed.

Lemma accepted_scan ms :
  accepted ms -> NoDup (all_call_ids ms) -> foldl scan_row (false, ∅) ms = (false, ∅).
Proof.
  induction 1 as [|m rs ms Hm Hrs Hperm Hacc IH]; intros Hn; [done|].
  unfold all_call_ids in Hn. cbn [map concat] in Hn. apply NoDup_app in Hn as (Hnm & _ & Hn).
  rewrite map_app, concat_app in Hn. apply NoDup_app in Hn as (_ & _ & Hn).
  cbn [foldl scan_row]. rewrite Hm, foldl_app, bool_decide_eq_true_2 by done. cbn [negb orb].
  rewrite scan_results, scan_ids_ok; [ | by rewrite Hperm | | done].
  - rewrite Hperm, difference_diag_L. by apply IH.
  - apply Forall_forall. intros x. rewrite Hperm. by rewrite elem_of_list_to_set.
Qed.

Lemma needs_repair_accepted ms :
  NoDup (all_call_ids ms) -> (needs_repair ms = false <-> accepted ms).
Proof.
  intros Hn. rewrite needs_repair_spec. split; [|intros; by apply accepted_scan].
  intros Hs. destruct (scan_accepted ms ∅ Hn Hs) as (rs & ms' & -> & Hrs & _ & Hset & Hacc).
  destruct rs as [|r rs]; [done|]. exfalso. apply Forall_cons in Hrs as [Hr _].
  unfold all_result_ids in Hset. cbn [map concat] in Hset.
  unfold is_tool_result_row, result_ids in *. destruct (content r) as [|b c]; [done|].
  destruct b; try discriminate. cbn in Hset. set_solver.
Qed.

(** ** What a repair returns *)

Lemma repair_spec input :
  Forall persisted input ->
  let ms := window input in
  let out := repair_tool_pairing input in
  clean ms /\
  ((accepted ms /\ messages out = ms /\ fills out = []) \/
   (needs_repair ms = true /\ messages out = reference ms /\
    fills out = omap (unanswered ms) (concat (map uses ms)))).
Proof.
  intros Hp. pose proof (window_clean input Hp) as Hc. split; [done|].
  unfold window, repair_tool_pairing in *.
  destruct (disambiguate_repeated_call_ids input) as [ms1 rn].
  cbn [fst] in Hc |- *. destruct (quarantine_invalid_results ms1) as [[ms or] du]. cbn [fst] in *.
  destruct (needs_repair ms) eqn:Hn; cbn [negb].
  - right. pose proof (rebuild_reference ms Hc) as [Hr Hf].
    destruct (foldl _ _ ms) as [n st]. done.
  - left. apply needs_repair_accepted in Hn; [done | apply Hc].
Qed.

Lemma repair_accepted input : Forall persisted input -> accepted (messages (repair_tool_pairing input)).
Proof.
  intros Hp. destruct (repair_spec input Hp) as [Hc [(Ha & -> & _) | (_ & -> & _)]]; [done|].
  by apply groups_accepted.
Qed.

(** C13: a repaired window is one the providers accept.  For any transcript of
    persisted rows — calls cut off by a crash, reused ids, results out of place,
    orphaned or given twice — every row of the repaired window is followed
    directly by exactly one result for each of its tool calls, and there is no
    other result anywhere. *)
Theorem repaired_is_accepted (input : list ChatMessage) (Hrows : Forall persisted input) :
  accepted (messages (repair_tool_pairing input)).
Proof. by apply repair_accepted. Qed.

(** *** A healthy transcript is left alone *)

Lemma accepted_results ms : accepted ms -> Forall persisted ms -> Forall (fun m => nonempty m = true) ms ->
  all_result_ids ms ≡ₚ all_call_ids ms.
Proof.
  induction 1 as [|m rs ms Hm Hrs Hperm Hacc IH]; intros Hp Hne; [done|].
  apply Forall_cons in Hp as [Hpm Hp], Hne as [Hnem Hne].
  apply Forall_app in Hp as [Hprs Hp], Hne as [Hners Hne].
  unfold all_result_ids, all_call_ids in *. cbn [map concat]. rewrite !map_app, !concat_app.
  destruct (row_shape m Hpm Hnem) as [[_ ->] | (id & ? & _)]; [|congruence].
  rewrite Hperm, (IH Hp Hne). cbn [app].
  replace (concat (map call_ids rs)) with (@nil string); [done|].
  clear -Hrs Hprs Hners. induction rs as [|r rs IH]; [done|].
  apply Forall_cons in Hrs as [Hr Hrs], Hprs as [Hpr Hprs], Hners as [Hner Hners].
  cbn [map concat]. destruct (row_shape r Hpr Hner) as [[? _] | (id & _ & _ & -> & _)]; [congruence|].
  by apply IH.
Qed.

Lemma quar_blocks_id U q c :
  NoDup (omap result_id_of c) -> Forall (fun id => id ∈ U /\ id ∉ seen_result_ids q) (omap result_id_of c) ->
  exists q', retain_accum (quar_block U) q c = (q', c) /\
    seen_result_ids q' = seen_result_ids q ∪ list_to_set (omap result_id_of c) /\
    orphans q' = orphans q /\ duplicates q' = duplicates q.
Proof.
  revert q; induction c as [|b c IH]; intros q Hn Hf; cbn [retain_accum].
  { exists q. split_and!; try done. cbn. set_solver. }
  rewrite omap_cons_option in Hn, Hf. destruct b as [| | | | |id body meta|];
    cbn [quar_block]; try (destruct (IH q Hn Hf) as (q' & -> & ?); by exists q').
  cbn in Hn, Hf. apply NoDup_cons in Hn as [Hid Hn]. apply Forall_cons in Hf as [[HU Hs] Hf].
  rewrite bool_decide_eq_true_2, bool_decide_eq_false_2 by done.
  cbn [negb]. destruct (IH (mk_quar ({[id]} ∪ seen_result_ids q) (orphans q) (duplicates q)) Hn)
    as (q' & -> & Hseen & Ho & Hd).
  { rewrite Forall_forall in *. intros x Hx. destruct (Hf x Hx). split; [done|]. cbn. set_solver. }
  exists q'. rewrite Hseen, Ho, Hd. split_and!; try done. cbn. set_solver.
Qed.

Lemma set_content_id m : set_content (content m) m = m.
Proof. by destruct m. Qed.

Lemma quar_rows_id U q ms :
  NoDup (all_result_ids ms) ->
  Forall (fun id => id ∈ U /\ id ∉ seen_result_ids q) (all_result_ids ms) ->
  exists q', map_accum (quar_row U) q ms = (q', ms) /\
    orphans q' = orphans q /\ duplicates q' = duplicates q.
Proof.
  revert q; induction ms as [|m ms IH]; intros q Hn Hf; cbn [map_accum]; [by exists q|].
  unfold all_result_ids in Hn, Hf. cbn [map concat] in Hn, Hf.
  apply NoDup_app in Hn as (Hnm & Hdis & Hn). apply Forall_app in Hf as [Hfm Hf].
  unfold quar_row at 1.
  destruct (quar_blocks_id U q (content m) Hnm Hfm) as (q1 & -> & Hseen & Ho & Hd).
  destruct (IH q1 Hn) as (q2 & -> & Ho2 & Hd2).
  { rewrite Forall_forall in *. intros x Hx. destruct (Hf x Hx) as [HU Hs]. split; [done|].
    rewrite Hseen. specialize (Hdis x). unfold result_ids in Hdis. set_solver. }
  exists q2. rewrite set_content_id, Ho2, Hd2. done.
Qed.

Lemma filter_all {A} (f : A -> bool) l : Forall (fun x => f x = true) l -> List.filter f l = l.
Proof. induction 1 as [|x l Hx Hl IH]; cbn; [done|]. by rewrite Hx, IH. Qed.

Lemma repair_healthy ms :
  Forall persisted ms -> Forall (fun m => nonempty m = true) ms -> NoDup (all_call_ids ms) ->
  accepted ms -> repair_tool_pairing ms = mk_repair ms [] [] [] [].
Proof.
  intros Hp Hne Hn Hacc. pose proof (accepted_results ms Hacc Hp Hne) as Hperm.
  unfold repair_tool_pairing, disambiguate_repeated_call_ids, has_repeats.
  rewrite bool_decide_eq_true_2 by done. cbn [negb].
  unfold quarantine_invalid_results.
  destruct (quar_rows_id (list_to_set (all_call_ids ms)) (mk_quar ∅ [] []) ms) as (q & -> & Ho & Hd).
  { by rewrite Hperm. }
  { apply Forall_forall. intros x. rewrite Hperm. cbn. set_solver. }
  rewrite Ho, Hd, filter_all by done. cbn [orphans duplicates].
  by rewrite (proj2 (needs_repair_accepted ms Hn) Hacc).
Qed.

Lemma groups_clean ms l :
  clean ms -> Forall persisted l -> Forall (fun m => nonempty m = true) l ->
  let out := concat (map (group ms) l) in
  Forall persisted out /\ Forall (fun m => nonempty m = true) out /\
  all_call_ids out = all_call_ids l.
Proof.
  intros Hc.
  assert (Hans : forall us, Forall (fun m => persisted m /\ nonempty m = true /\ call_ids m = [])
                             (map (answer ms) us)).
  { intros us. rewrite Forall_map. apply Forall_forall. intros u _. unfold answer.
    destruct (row_answering ms (fst u)) as [r|] eqn:Hr; cbn [default].
    - destruct (row_answering_Some ms Hc _ _ Hr) as (Hin & Hrow & _).
      destruct Hc as [Hp Hne _ _ _]. rewrite Forall_forall in Hp, Hne.
      split; [by apply Hp | split; [by apply Hne |]].
      destruct (row_shape r (Hp r Hin) (Hne r Hin)) as [[Hf _] | (? & _ & _ & Hcalls & _)];
        [congruence | exact Hcalls].
    - destruct (fill_shape (fst u) (snd u)) as (_ & _ & ? & ? & ?). done. }
  induction l as [|m l IH]; intros Hp Hne; [done|].
  apply Forall_cons in Hp as [Hpm Hp], Hne as [Hnem Hne]. destruct (IH Hp Hne) as (H1 & H2 & H3).
  unfold all_call_ids in *. cbn [map concat]. unfold group at 1 3 5.
  destruct (row_shape m Hpm Hnem) as [[-> _] | (id & -> & _ & -> & _)]; [|done].
  specialize (Hans (uses m)). cbn [map concat app]. rewrite map_app, concat_app.
  rewrite Forall_cons, Forall_app. rewrite Forall_cons, Forall_app. split_and!; try done.
  - by eapply Forall_impl; [exact Hans|]; cbn; intros ? (? & _).
  - by eapply Forall_impl; [exact Hans|]; cbn; intros ? (_ & ? & _).
  - rewrite H3. f_equal. revert Hans. generalize (map (answer ms) (uses m)). intros rs Hans.
    replace (concat (map call_ids rs)) with (@nil string); [done|].
    induction Hans as [|r rs (_ & _ & Hr) Hrs IHr]; [done|]. cbn [map concat]. by rewrite Hr.
Qed.

Lemma reference_clean ms :
  clean ms -> Forall persisted (reference ms) /\ Forall (fun m => nonempty m = true) (reference ms) /\
    all_call_ids (reference ms) = all_call_ids ms.
Proof. intros Hc. by apply groups_clean; [ | apply Hc ..]. Qed.

Lemma repair_output_healthy input :
  Forall persisted input ->
  let ms := messages (repair_tool_pairing input) in
  Forall persisted ms /\ Forall (fun m => nonempty m = true) ms /\ NoDup (all_call_ids ms).
Proof.
  intros Hp. cbv zeta. destruct (repair_spec input Hp) as [Hc [(_ & -> & _) | (_ & -> & _)]].
  - split_and!; apply Hc.
  - destruct (reference_clean _ Hc) as (H1 & H2 & ->). split_and!; [done | done | apply Hc].
Qed.

(** One repair is enough.  Repairing a repaired window changes nothing: no
    row moves, nothing is filled in, renamed or dropped a second time. *)
Theorem repair_idempotent (input : list ChatMessage) (Hrows : Forall persisted input) :
  let ms := messages (repair_tool_pairing input) in
  repair_tool_pairing ms = mk_repair ms [] [] [] [].
Proof.
  cbv zeta. destruct (repair_output_healthy input Hrows) as (H1 & H2 & H3).
  apply repair_healthy; [done.. | by apply repair_accepted].
Qed.

(** *** Nothing is lost *)

Definition plain_row (m : ChatMessage) : bool := negb (is_tool_result_row m).

Section Conservation.
Context (ms : list ChatMessage) (Hms : clean ms).

Lemma calls_ids : map fst (concat (map uses ms)) = all_call_ids ms.
Proof.
  unfold all_call_ids. clear Hms. induction ms as [|m l IH]; [done|].
  cbn [map concat]. by rewrite map_app, uses_ids, IH.
Qed.

Lemma result_row_id r :
  r ∈ ms -> is_tool_result_row r = true ->
  exists id, result_ids r = [id] /\ id ∈ all_call_ids ms /\ uses r = [].
Proof.
  intros Hin Hrow. destruct Hms as [Hp Hne _ _ Ha]. rewrite Forall_forall in Hp, Hne.
  rewrite Forall_forall in Ha.
  destruct (row_shape r (Hp r Hin) (Hne r Hin)) as [[? _] | (id & _ & Hr & _ & Hu)]; [congruence|].
  exists id. split_and!; [done | | done]. apply Ha. unfold all_result_ids.
  apply list_elem_of_In, in_concat. exists (result_ids r). rewrite Hr. split; [|by left].
  apply in_map_iff. exists r. split; [done|]. by apply list_elem_of_In.
Qed.

Lemma result_rows_nodup l :
  Forall (fun m => is_tool_result_row m = true -> result_ids m <> []) l ->
  NoDup (all_result_ids l) -> NoDup (List.filter is_tool_result_row l).
Proof.
  unfold all_result_ids. induction 1 as [|m l Hm Hl IH]; cbn [map concat List.filter]; intros Hn;
    [constructor|].
  pose proof Hn as Hn'. apply NoDup_app in Hn as (_ & Hdis & Hn).
  destruct (is_tool_result_row m) eqn:Hrow; [|auto]. constructor; [|auto].
  intros Hin. rewrite list_elem_of_In, filter_In in Hin. destruct Hin as [Hin _].
  specialize (Hm eq_refl). destruct (result_ids m) as [|id ids] eqn:Hids; [done|].
  apply (Hdis id); [by left|]. apply list_elem_of_In, in_concat. exists (result_ids m).
  rewrite Hids. split; [apply in_map_iff; eauto | by left].
Qed.

Lemma answered_rows :
  omap (row_answering ms) (all_call_ids ms) ≡ₚ List.filter is_tool_result_row ms.
Proof.
  pose proof Hms as [_ _ Hnc Hnr _].
  apply NoDup_Permutation.
  - apply NoDup_omap; [|done]. intros x y r Hx Hy.
    apply (row_answering_Some ms Hms) in Hx as (_ & _ & Hx), Hy as (_ & _ & Hy). congruence.
  - apply result_rows_nodup; [|done]. apply Forall_forall. intros m Hin Hrow.
    destruct (result_row_id m Hin Hrow) as (id & -> & _). done.
  - intros r. rewrite list_elem_of_omap, (list_elem_of_In _ r), filter_In, <- list_elem_of_In. split.
    + intros (id & _ & Hr). by apply (row_answering_Some ms Hms) in Hr as (? & ? & _).
    + intros [Hin Hrow]. destruct (result_row_id r Hin Hrow) as (id & Hids & Hid & _).
      exists id. split; [done|]. destruct (row_answering ms id) as [r'|] eqn:Hr.
      * destruct (row_answering_Some ms Hms _ _ Hr) as (Hin' & _ & Hids'). f_equal.
        apply (NoDup_concat_elem result_ids ms r' r id); try done;
          [rewrite Hids' | rewrite Hids]; by left.
      * unfold row_answering in Hr. rewrite find_first_None, Forall_forall in Hr.
        specialize (Hr r Hin). rewrite Hrow, Hids, bool_decide_eq_true_2 in Hr by (by left). done.
Qed.

Lemma answers_split us :
  map (answer ms) us ≡ₚ omap (row_answering ms) (map fst us) ++ omap (unanswered ms) us.
Proof.
  induction us as [|u us IH]; [done|]. cbn [map]. rewrite !omap_cons_option.
  unfold answer at 1, unanswered at 1. destruct (row_answering ms (fst u)); cbn.
  - by rewrite IH.
  - rewrite <- Permutation_middle. by rewrite IH.
Qed.

Lemma groups_split l :
  Forall (fun m => is_tool_result_row m = true -> uses m = []) l ->
  concat (map (group ms) l) ≡ₚ List.filter plain_row l ++ map (answer ms) (concat (map uses l)) /\
  List.filter plain_row (concat (map (group ms) l)) = List.filter plain_row l.
Proof.
  induction 1 as [|m l Hm Hl [IH1 IH2]]; [done|]. cbn [map concat List.filter].
  assert (Hg : group ms m = if is_tool_result_row m then [] else m :: map (answer ms) (uses m)) by done.
  assert (Hpl : plain_row m = negb (is_tool_result_row m)) by done.
  destruct (is_tool_result_row m) eqn:Hrow; cbn [negb] in Hpl; rewrite Hg, Hpl.
  - rewrite (Hm eq_refl). split; [exact IH1 | exact IH2].
  - split.
    + cbn [app]. rewrite IH1, map_app. constructor. rewrite !app_assoc. f_equiv.
      apply Permutation_app_comm.
    + cbn [app List.filter]. rewrite Hpl, List.filter_app, IH2. f_equal.
      replace (List.filter plain_row (map _ _)) with (@nil ChatMessage); [done|].
      generalize (uses m) as us. clear -Hms. induction us as [|u us IHu]; [done|].
      cbn [map List.filter]. unfold plain_row at 1. by rewrite (proj1 (answer_shape ms Hms u)).
Qed.

Lemma reference_split :
  reference ms ≡ₚ ms ++ omap (unanswered ms) (concat (map uses ms)) /\
  List.filter plain_row (reference ms) = List.filter plain_row ms.
Proof.
  destruct (groups_split ms) as [H1 H2].
  { apply Forall_forall. intros m Hin Hrow. by destruct (result_row_id m Hin Hrow) as (? & _ & _ & ?). }
  split; [|exact H2]. change (reference ms) with (concat (map (group ms) ms)).
  rewrite H1, answers_split, calls_ids, answered_rows, app_assoc.
  by rewrite (filter_partition is_tool_result_row ms).
Qed.

Lemma row_answering_None id : row_answering ms id = None <-> id ∉ all_result_ids ms.
Proof.
  unfold row_answering. rewrite find_first_None, Forall_forall.
  pose proof Hms as [Hp Hne _ _ _]. rewrite Forall_forall in Hp, Hne. split.
  - intros H Hin. apply list_elem_of_In, in_concat in Hin as (ids & Hids & Hid).
    apply in_map_iff in Hids as (m & <- & Hm). apply list_elem_of_In in Hm, Hid.
    specialize (H m Hm). destruct (row_shape m (Hp m Hm) (Hne m Hm)) as [[_ E] | (i & E & _)].
    + rewrite E in Hid. by apply not_elem_of_nil in Hid.
    + rewrite E, bool_decide_eq_true_2 in H by done. discriminate.
  - intros H m Hm. apply andb_false_iff. destruct (is_tool_result_row m); [right | by left].
    apply bool_decide_eq_false. intros Hid. apply H. apply list_elem_of_In, in_concat.
    exists (result_ids m). split; [apply in_map_iff; exists m | by apply list_elem_of_In].
    split; [done | by apply list_elem_of_In].
Qed.

Lemma fills_ids us :
  all_result_ids (omap (unanswered ms) us) =
  List.filter (fun id => negb (bool_decide (id ∈ all_result_ids ms))) (map fst us).
Proof.
  unfold all_result_ids at 1. induction us as [|u us IH]; [done|].
  rewrite omap_cons_option. cbn [map List.filter]. unfold unanswered at 1.
  destruct (row_answering ms (fst u)) eqn:Hr; cbn [option_list app].
  - rewrite bool_decide_eq_true_2; [done|]. apply dec_stable. intros Hn.
    apply row_answering_None in Hn. congruence.
  - rewrite bool_decide_eq_false_2 by (by apply row_answering_None). cbn [negb].
    rewrite <- IH. reflexivity.
Qed.

End Conservation.

(** A repair moves and adds, it does not lose.  The repaired window is a
    permutation of the rows that passed quarantine and the fills; the rows that
    are not tool results keep their order; and the fills are exactly one
    interrupted-result row for each call without a result, in call order. *)
Theorem repair_conserves (input : list ChatMessage) (Hrows : Forall persisted input) :
  let out := repair_tool_pairing input in
  messages out ≡ₚ window input ++ fills out /\
  List.filter plain_row (messages out) = List.filter plain_row (window input) /\
  all_result_ids (fills out) =
    List.filter (fun id => negb (bool_decide (id ∈ all_result_ids (window input))))
      (all_call_ids (window input)).
Proof.
  cbv zeta. destruct (repair_spec input Hrows) as [Hc [(Ha & -> & ->) | (_ & -> & ->)]].
  - rewrite app_nil_r. split_and!; [done | done |].
    pose proof (accepted_results _ Ha (clean_persisted _ Hc) (clean_nonempty _ Hc)) as Hperm.
    assert (H : Forall (fun id => id ∈ all_result_ids (window input)) (all_call_ids (window input))).
    { apply Forall_forall. intros id. by rewrite Hperm. }
    symmetry. clear Hperm. induction H as [|id ids Hid Hids IH]; [done|]. cbn [List.filter].
    rewrite bool_decide_eq_true_2 by done. exact IH.
  - destruct (reference_split _ Hc) as [H1 H2].
    by rewrite fills_ids, calls_ids by done.
Qed.

(** *** Renaming is stable under appends *)

Lemma pairing_call_spec calls id is_fill i :
  pairing_call calls id is_fill = Some i ->
  exists c, calls !! i = Some c /\ (renamed c = id \/ original c = id).
Proof.
  unfold pairing_call. destruct (if is_fill then _ else _) as [j|] eqn:Hr.
  - intros [= <-]. destruct is_fill; [|discriminate].
    apply rposition_Some in Hr as (c & Hc & Hm). exists c. split; [done | left].
    apply andb_true_iff in Hm as [_ Hm]. by apply String.eqb_eq in Hm.
  - destruct (last calls) as [latest|]; [|discriminate].
    match goal with |- context [position ?f (drop ?start calls)] =>
      destruct (position f (drop start calls)) as [j|] eqn:Hp end; cbn; [|discriminate].
    intros [= <-]. apply position_Some in Hp as (c & Hc & Hm). rewrite lookup_drop in Hc.
    exists c. split; [done | right]. apply andb_true_iff in Hm as [_ Hm]. by apply String.eqb_eq in Hm.
Qed.

(** While no id repeats, the loop renames nothing. *)
Definition unrenamed (st : Disamb) : Prop :=
  Forall (fun c => renamed c = original c) (calls st).

Lemma disamb_block_id i st b :
  unrenamed st -> Forall (fun id => id ∉ taken st) (option_list (call_id_of b)) ->
  exists st', disamb_block i st b = (st', b) /\ unrenamed st' /\
    taken st' = list_to_set (option_list (call_id_of b)) ∪ taken st.
Proof.
  intros Hu Hf. destruct b as [| | | |id name inp sig|id body meta|];
    try (exists st; split_and!; [done | done | cbn; set_solver]).
  - cbn in Hf |- *. apply Forall_cons in Hf as [Hf _].
    rewrite (bool_decide_eq_false_2 (id ∈ taken st)) by exact Hf.
    eexists. split_and!; [done | | cbn; set_solver].
    apply Forall_app. split; [done | by apply Forall_singleton].
  - cbn. destruct (pairing_call _ _ _) as [k|] eqn:Hp.
    2: { exists st. split_and!; [done | done | set_solver]. }
    apply pairing_call_spec in Hp as (c & Hk & Hor). rewrite Hk.
    assert (Hc : renamed c = original c).
    { unfold unrenamed in Hu. rewrite Forall_lookup in Hu. by eapply Hu. }
    assert (Hid : renamed c = id) by (destruct Hor; congruence). rewrite Hid.
    eexists. split_and!; [done | | cbn; set_solver].
    by apply Forall_insert.
Qed.

Lemma disamb_blocks_id i st c :
  unrenamed st -> NoDup (omap call_id_of c) -> Forall (fun id => id ∉ taken st) (omap call_id_of c) ->
  exists st', map_accum (disamb_block i) st c = (st', c) /\ unrenamed st' /\
    taken st' = list_to_set (omap call_id_of c) ∪ taken st.
Proof.
  revert st; induction c as [|b c IH]; intros st Hu Hn Hf; cbn [map_accum].
  { exists st. split_and!; [done | done | cbn; set_solver]. }
  rewrite omap_cons_option in *. apply NoDup_app in Hn as (_ & Hdis & Hn).
  apply Forall_app in Hf as [Hfb Hf].
  destruct (disamb_block_id i st b Hu Hfb) as (st1 & -> & Hu1 & Ht1).
  destruct (IH st1 Hu1 Hn) as (st2 & -> & Hu2 & Ht2).
  { rewrite Forall_forall in *. intros x Hx. specialize (Hf x Hx). specialize (Hdis x).
    rewrite Ht1. set_solver. }
  exists st2. split_and!; [done | done |]. rewrite Ht2, Ht1, list_to_set_app_L. set_solver.
Qed.

Lemma disamb_rows_id i st ms :
  unrenamed st -> NoDup (all_call_ids ms) -> Forall (fun id => id ∉ taken st) (all_call_ids ms) ->
  snd (map_accum disamb_row (i, st) ms) = ms.
Proof.
  unfold all_call_ids. revert i st; induction ms as [|m ms IH]; intros i st Hu Hn Hf;
    cbn [map_accum disamb_row map concat] in *; [done|].
  apply NoDup_app in Hn as (Hnm & Hdis & Hn). apply Forall_app in Hf as [Hfm Hf].
  destruct (disamb_blocks_id i st (content m) Hu Hnm Hfm) as (st1 & -> & Hu1 & Ht1).
  specialize (IH (S i) st1 Hu1 Hn).
  destruct (map_accum disamb_row (S i, st1) ms) as [st2 ms']. cbn in *.
  rewrite set_content_id, IH; [done|].
  rewrite Forall_forall in *. intros x Hx. specialize (Hf x Hx). specialize (Hdis x).
  unfold call_ids in Hdis. rewrite Ht1. set_solver.
Qed.

Lemma disambiguate_loop ms :
  fst (disambiguate_repeated_call_ids ms) =
  snd (map_accum disamb_row (0, mk_disamb ∅ [] []) ms).
Proof.
  unfold disambiguate_repeated_call_ids, has_repeats. case_bool_decide as Hn; cbn [negb].
  - symmetry. apply disamb_rows_id; [constructor | done |].
    apply Forall_forall. intros x _. cbn. set_solver.
  - by destruct (map_accum _ _ ms) as [[j st] ms'].
Qed.

(** Renaming is a function of the rows before a row: whatever is appended to
    a transcript, the rows it had are disambiguated exactly as before, so the
    ids a persisted fill was written under stay valid on every later load. *)
Theorem disambiguation_prefix_stable (ms later : list ChatMessage) :
  take (length ms) (fst (disambiguate_repeated_call_ids (ms ++ later))) =
  fst (disambiguate_repeated_call_ids ms).
Proof.
  rewrite !disambiguate_loop, map_accum_app.
  pose proof (map_accum_length disamb_row (0, mk_disamb ∅ [] []) ms) as Hlen.
  destruct (map_accum disamb_row _ ms) as [st1 ms1].
  destruct (map_accum disamb_row st1 later) as [st2 later1]. cbn [snd] in *.
  by rewrite take_app_length'.
Qed.

(** ** A crashed transcript

    A reused call id, a call cut off by a crash, a nudge in between, and a
    result no call waits for. *)
Module Sample.

Definition use (id name : string) : ContentBlock := ToolUse id name JNull None.
Definition crashed : list ChatMessage :=
  [user [Text "hi"];
   assistant [use "search" "search"];
   tool_result_with_meta "search" "one" None;
   assistant [use "search" "search"; use "read" "read_file"];
   user [Text "go on"];
   tool_result_with_meta "search" "two" None;
   tool_result_with_meta "ghost" "three" None].
Definition repaired_calls : list ChatMessage := messages (repair_tool_pairing crashed).

Lemma crashed_persisted : Forall persisted crashed.
Proof. unfold crashed. repeat (apply Forall_cons_2; [unfold persisted; cbn; eauto 6|]). done. Qed.

Lemma crashed_repair :
  map (fun m => (call_ids m, result_ids m)) repaired_calls =
    [([], []); (["search"], []); ([], ["search"]); (["search_2"; "read"], []); ([], ["search_2"]);
     ([], ["read"]); ([], [])] /\
  orphan_result_ids (repair_tool_pairing crashed) = ["ghost"] /\
  renamed_call_ids (repair_tool_pairing crashed) = ["search"].
Proof. vm_compute. done. Qed.

End Sample.
Import Sample.

Lemma repaired_is_accepted_witness :
  length repaired_calls = 7 /\ accepted repaired_calls.
Proof. split; [vm_compute; done | apply repaired_is_accepted, crashed_persisted]. Defined.

Lemma repair_idempotent_witness :
  repair_tool_pairing repaired_calls = mk_repair repaired_calls [] [] [] [].
Proof. exact (repair_idempotent crashed crashed_persisted). Defined.

Lemma repair_conserves_witness :
  all_result_ids (fills (repair_tool_pairing crashed)) = ["read"] /\
  repaired_calls ≡ₚ window crashed ++ fills (repair_tool_pairing crashed).
Proof.
  split; [vm_compute; done | apply (repair_conserves crashed crashed_persisted)].
Defined.

End TranscriptRepair.
