(* ===== verification/Tokens.v ===== *)
(** * Token accounting of the context window

    [crates/context/src/tokenizer.rs], [budget.rs] and the pricing of stored
    rows in [lib.rs]: the tokenizer interface and its vocabulary-free
    implementation, what a row is charged, and the ceiling whose crossing
    triggers a compaction.  Token counts are [usize]; they stay far below
    [2^64] and are kept in [N].  [f64] arithmetic is IEEE binary64 as in the
    Standard Library's [SpecFloat]. *)

From Stdlib Require Import SpecFloat.
From S2P Require Import Prelude Message Wire.
Import Message Wire.

Module Tokens.

Inductive AudioDelivery := Native | Stub.

(** ** The [Tokenizer] trait *)
Class Tokenizer := {
  text_tokens : string -> N;
  count_message : ChatMessage -> N;
  count_message_media : ChatMessage -> AudioDelivery -> N;
}.

Definition all_text (m : ChatMessage) : bool := forallb is_text (content m).

(** [message_carries_audio] *)
Definition is_audio (b : ContentBlock) : bool :=
  match b with Audio _ _ _ _ => true | _ => false end.
Definition message_carries_audio (m : ChatMessage) : bool := existsb is_audio (content m).

(** What the accounting relies on: a row of text has no media price, the price
    of a row is that of its content, and the model's taste in audio matters to
    rows with audio only. *)
Class TokenizerLaws (T : Tokenizer) := {
  media_of_text m a : all_text m = true -> count_message_media m a = 0%N;
  count_by_content m m' : content m = content m' -> count_message m = count_message m';
  media_without_audio m a a' :
    message_carries_audio m = false -> count_message_media m a = count_message_media m a';
}.

(** ** [HeuristicTokenizer] *)

Definition MESSAGE_OVERHEAD : N := 4.
Definition TOOL_USE_OVERHEAD : N := 20.
Definition BYTES_PER_TOKEN : N := 4.
Definition PADDING_NUM : N := 23.
Definition PADDING_DEN : N := 20.

(** The character that starts at the head of a UTF-8 string, as its scalar
    value and its length in bytes; [None] inside a character. *)
Definition low6 (c : ascii) : N := (Str.byte c - 128)%N.
Definition leading_char (s : string) : option (N * N) :=
  match s with
  | EmptyString => None
  | String c0 t =>
      let b0 := Str.byte c0 in
      if (b0 <? 128)%N then Some (b0, 1%N)
      else if (b0 <? 192)%N then None
      else match t with
      | String c1 t1 =>
          if (b0 <? 224)%N then Some ((b0 - 192) * 64 + low6 c1, 2)%N
          else match t1 with
          | String c2 t2 =>
              if (b0 <? 240)%N then Some (((b0 - 224) * 64 + low6 c1) * 64 + low6 c2, 3)%N
              else match t2 with
              | String c3 _ =>
                  Some ((((b0 - 240) * 64 + low6 c1) * 64 + low6 c2) * 64 + low6 c3, 4)%N
              | EmptyString => None
              end
          | EmptyString => None
          end
      | EmptyString => None
      end
  end.

Definition within (lo hi ch : N) : bool := (lo <=? ch)%N && (ch <=? hi)%N.
Definition is_dense_script (ch len_utf8 : N) : bool :=
  (len_utf8 =? 4)%N ||
  (within 0x13A0 0x13FF ch || within 0x2E80 0x2FDF ch || within 0x3400 0x4DBF ch
   || within 0xA000 0xA4CF ch).

(** [(bytes, dense)] of the loop over [text.chars()]. *)
Fixpoint weigh (s : string) : N * N :=
  match s with
  | EmptyString => (0, 0)%N
  | String _ t =>
      let '(bytes, dense) := weigh t in
      match leading_char s with
      | Some (ch, len_utf8) =>
          if is_dense_script ch len_utf8 then (bytes, dense + len_utf8)%N
          else if within 48 57 ch then (bytes + 2, dense)%N
          else (bytes + len_utf8, dense)%N
      | None => (bytes, dense)
      end
  end.
Definition div_ceil (a b : N) : N := ((a + b - 1) / b)%N.
Definition count_text (text : string) : N :=
  let '(bytes, dense) := weigh text in
  (div_ceil (bytes * PADDING_NUM) (BYTES_PER_TOKEN * PADDING_DEN) + dense)%N.

Fixpoint sum_N (l : list N) : N :=
  match l with [] => 0%N | x :: l => (x + sum_N l)%N end.

Section Heuristic.
(** [serde_json::to_string] on a tool call's input, and the provider's price
    list for media: the length of a block's text stub, the price of a delivered
    image or document, and that of a voice note of a given length. *)
Context (json_text : json -> string) (stub_len delivered : ContentBlock -> N)
  (audio_tokens : option Z -> N).

(** [llm::content_block_tokens]: what is delivered, at least its stub; audio on
    a model that is never sent any is the stub alone, and blocks that are not
    media cost nothing here. *)
Definition content_block_tokens (b : ContentBlock) (a : AudioDelivery) : N :=
  match b with
  | Image _ _ _ _ _ | File _ _ _ _ _ _ => N.max (delivered b) (stub_len b)
  | Audio _ _ _ duration_ms =>
      N.max (match a with Native => audio_tokens duration_ms | Stub => 0 end) (stub_len b)
  | _ => 0
  end%N.
Definition heuristic_media (m : ChatMessage) (a : AudioDelivery) : N :=
  sum_N (map (fun b => content_block_tokens b a) (content m)).

Definition thinking_text (c : ThinkingContent) : option string :=
  match c with ThinkingText t _ => Some t | Summary t => Some t | Redacted _ => None end.
Definition block_tokens (b : ContentBlock) : N :=
  match b with
  | Text t => count_text t
  | Image _ _ _ _ _ | Audio _ _ _ _ | File _ _ _ _ _ _ => 0
  | ToolUse _ _ input _ => TOOL_USE_OVERHEAD + count_text (json_text input)
  | ToolResult _ c _ => TOOL_USE_OVERHEAD + count_text c
  | Thinking _ c => TOOL_USE_OVERHEAD + count_text (joined newline (omap thinking_text c))
  end%N.
Definition heuristic_message (m : ChatMessage) : N :=
  (MESSAGE_OVERHEAD + heuristic_media m Native + sum_N (map block_tokens (content m)))%N.

Definition HeuristicTokenizer : Tokenizer :=
  {| text_tokens := count_text; count_message := heuristic_message; count_message_media := heuristic_media |}.

#[export] Instance HeuristicTokenizer_laws : TokenizerLaws HeuristicTokenizer.
Proof.
  split; cbn.
  - intros m a. unfold all_text, heuristic_media. induction (content m) as [|b bs IH]; cbn; [done|].
    intros [Hb Hbs]%andb_true_iff. rewrite (IH Hbs). by destruct b.
  - unfold heuristic_message, heuristic_media. by intros m m' ->.
  - intros m a a'. unfold message_carries_audio, heuristic_media.
    induction (content m) as [|b bs IH]; cbn; [done|].
    intros [Hb Hbs]%orb_false_iff. rewrite (IH Hbs). by destruct b.
Qed.
End Heuristic.

(** ** What a stored row is charged *)

Record MessageTokens := mk_tokens { text : N; media : N }.
Definition total (t : MessageTokens) : N := (text t + media t)%N.

(** [baybo_llm::delivers_media] *)
Definition delivers_media (r : Role) : bool := bool_decide (r = RoleUser).

(** A tool the next request offers; its schema as JSON text. *)
Record ToolDefinition := mk_tool {
  tool_name : string;
  tool_description : string;
  parameters_schema : string;
}.
Definition tool_definition_tokens {T : Tokenizer} (t : ToolDefinition) : N :=
  (text_tokens (tool_name t) + text_tokens (tool_description t)
   + text_tokens (parameters_schema t))%N.

Section Pricing.
Context {T : Tokenizer} (audio_delivery : AudioDelivery).

Definition split_tokens (m : ChatMessage) : MessageTokens :=
  mk_tokens (count_message m - count_message_media m Native)%N
            (if delivers_media (role m) then count_message_media m audio_delivery else 0%N).

(** Rows sent inside an envelope are charged framed. *)
Definition message_budget_tokens (m : ChatMessage) : MessageTokens :=
  let framed w :=
    split_tokens (user (Text (w [extract_text (content m)])
                        :: List.filter (fun b => negb (is_text b)) (content m))) in
  match source m with
  | UserInterjection => framed wrap_interjections
  | RecalledMemory => framed wrap_recalled_memories
  | _ => split_tokens m
  end.
Definition price (m : ChatMessage) : N := total (message_budget_tokens m).
End Pricing.

(** ** Token budget *)

Definition f64 : Type := spec_float.
Definition f64_of (n : N) : f64 := binary_normalize 53 1024 (Z.of_N n) 0 false.
Definition f64_mul : f64 -> f64 -> f64 := SFmul 53 1024.
Definition USIZE_MAX : N := 2 ^ 64 - 1.

(** [as usize]: truncation, saturating; a NaN and negative numbers give 0. *)
Definition f64_as_usize (f : f64) : N :=
  match f with
  | S754_finite false m (Zneg e) => N.min USIZE_MAX (Npos m / 2 ^ Npos e)
  | S754_finite false m e => N.min USIZE_MAX (Npos m * 2 ^ Z.to_N e)
  | S754_infinity false => USIZE_MAX
  | _ => 0
  end%N.

Record TokenBudget := mk_budget {
  max_tokens : N;
  threshold : f64;
  max_active : N;
  current : N;
}.
Definition new_budget (max : N) (threshold : f64) (active : N) : TokenBudget :=
  mk_budget max threshold active 0.
Definition remaining (b : TokenBudget) : N := (max_tokens b - current b)%N.
Definition compression_ceiling (b : TokenBudget) : N :=
  let share := f64_as_usize (f64_mul (f64_of (max_tokens b)) (threshold b)) in
  if (max_active b =? 0)%N then share else N.min share (max_active b).
Definition needs_compression (b : TokenBudget) : bool := (compression_ceiling b <? current b)%N.
Definition update (n : N) (b : TokenBudget) : TokenBudget :=
  mk_budget (max_tokens b) (threshold b) (max_active b) n.
Definition set_max_tokens (n : N) (b : TokenBudget) : TokenBudget :=
  mk_budget n (threshold b) (max_active b) (current b).

(** ** Bounds of the verbatim tail *)

Definition RECENT_SLICE_MAX_TOKENS_ABS : N := 40000.
(** 0.15, the nearest binary64. *)
Definition RECENT_SLICE_MAX_TOKENS_RATIO : f64 := S754_finite false 5404319552844595 (-55).
(** 0.25. *)
Definition RECENT_SLICE_MIN_RATIO_OF_CAP : f64 := S754_finite false 4503599627370496 (-54).
Definition RECENT_SLICE_MIN_TEXT_BLOCK_MSGS : nat := 5.
Definition MIN_COMPACTABLE_TOKENS : N := 1000.

Definition recent_slice_bounds (max_tokens : N) : N * nat * N :=
  let cap := N.min RECENT_SLICE_MAX_TOKENS_ABS
               (f64_as_usize (f64_mul (f64_of max_tokens) RECENT_SLICE_MAX_TOKENS_RATIO)) in
  (f64_as_usize (f64_mul (f64_of cap) RECENT_SLICE_MIN_RATIO_OF_CAP),
   RECENT_SLICE_MIN_TEXT_BLOCK_MSGS, cap).

(** The windows of the unit tests. *)
Example recent_slice_caps :
  map (fun w => (recent_slice_bounds w).2) [1000000; 272000; 100000; 8192]%N
  = [40000; 40000; 15000; 1228]%N.
Proof. reflexivity. Qed.

(** The ceilings of the unit tests, at the default threshold 0.65. *)
Definition DEFAULT_THRESHOLD : f64 := S754_finite false 5854679515581645 (-53).
Example compression_ceilings :
  map compression_ceiling
    [new_budget 1048576 DEFAULT_THRESHOLD 120000; new_budget 32000 DEFAULT_THRESHOLD 120000;
     new_budget 1048576 DEFAULT_THRESHOLD 0]
  = [120000; 20800; 681574]%N.
Proof. reflexivity. Qed.

Example count_text_examples :
  (count_text "", count_text "abcd", count_text "1234", count_text "日本")
  = (0, 2, 3, 2)%N.
Proof. reflexivity. Qed.

(** ** Facts *)

Lemma needs_compression_spec b : needs_compression b = true <-> (compression_ceiling b < current b)%N.
Proof. apply N.ltb_lt. Qed.

Lemma ceiling_capped b : max_active b <> 0%N -> (compression_ceiling b <= max_active b)%N.
Proof.
  intros Ha%N.eqb_neq. unfold compression_ceiling. rewrite Ha. apply N.le_min_r.
Qed.

Lemma slice_cap_bounded w : ((recent_slice_bounds w).2 <= RECENT_SLICE_MAX_TOKENS_ABS)%N.
Proof. apply N.le_min_l. Qed.

Lemma sum_N_app l k : sum_N (l ++ k) = (sum_N l + sum_N k)%N.
Proof. induction l as [|x l IH]; cbn; [done|]. rewrite IH. lia. Qed.
#[export] Hint Rewrite sum_N_app : app.

(** The model's taste in audio changes the price of rows with audio only. *)
Lemma message_budget_tokens_without_audio {T : Tokenizer} {L : TokenizerLaws T} a a' m :
  message_carries_audio m = false -> message_budget_tokens a m = message_budget_tokens a' m.
Proof.
  intros Hm. assert (Hs : forall k, message_carries_audio k = false ->
    split_tokens a k = split_tokens a' k).
  { intros k Hk. unfold split_tokens. by rewrite (media_without_audio k a a' Hk). }
  assert (Hf : forall s, message_carries_audio
      (user (Text s :: List.filter (fun b => negb (is_text b)) (content m))) = false).
  { intros s. unfold message_carries_audio in *. cbn. revert Hm.
    induction (content m) as [|b bs IH]; cbn; [done|]. intros [Hb Hbs]%orb_false_iff.
    destruct (negb (is_text b)); cbn; rewrite ?Hb; auto. }
  unfold message_budget_tokens. destruct (source m); auto.
Qed.

(** A row of the runtime's own text is charged its text, whatever provenance it
    carries. *)
Lemma price_agent_text {T : Tokenizer} {L : TokenizerLaws T} a m s :
  content m = [Text s] -> source m <> UserInterjection -> source m <> RecalledMemory ->
  price a m = count_message (agent_context [Text s]).
Proof.
  intros Hc H1 H2. unfold price, message_budget_tokens.
  assert (Hm : forall k, count_message_media m k = 0%N).
  { intros k. apply media_of_text. unfold all_text. by rewrite Hc. }
  assert (total (split_tokens a m) = count_message (agent_context [Text s])) as <-.
  { unfold split_tokens, total. cbn. rewrite !Hm, (count_by_content m (agent_context [Text s])) by done.
    destruct (delivers_media (role m)); lia. }
  by destruct (source m).
Qed.
End Tokens.
