(* ===== verification/Compaction.v ===== *)
(** * Compaction: the summary and the verbatim tail
      ([crates/context/src/compressor.rs])

    Reading the summarizer's answer, and choosing how much of the conversation
    to keep word for word below the summary without parting a tool result from
    its call. *)

From S2P Require Import Prelude Message Wire Tokens.
Import Message Wire Tokens.

Module Compaction.

(** ** The summarizer's answer *)

Definition open_tag (tag : string) : string := ("<" +:+ tag +:+ ">")%string.
Definition close_tag (tag : string) : string := ("</" +:+ tag +:+ ">")%string.

(** Byte range of the first block of a tag, both tags included. *)
Definition find_tagged_block (text tag : string) : option (nat * nat) :=
  match Str.find (open_tag tag) text with
  | None => None
  | Some start =>
      let after_open := Str.drop (start + String.length (open_tag tag)) text in
      match Str.find (close_tag tag) after_open with
      | None => None
      | Some close_offset =>
          Some (start, start + String.length (open_tag tag) + close_offset
                       + String.length (close_tag tag))
      end
  end.

Definition strip_analysis_block (text : string) : string :=
  match find_tagged_block text "analysis" with
  | Some (a, b) => (Str.take a text +:+ Str.drop b text)%string
  | None => text
  end.

Definition find_tagged_inner (text tag : string) : option string :=
  match Str.find (open_tag tag) text with
  | None => None
  | Some at_open =>
      let start := at_open + String.length (open_tag tag) in
      match Str.find (close_tag tag) (Str.drop start text) with
      | None => None
      | Some close_offset => Some (Str.take close_offset (Str.drop start text))
      end
  end.

Definition is_blank (s : string) : bool := String.eqb (Str.trim s) "".

Definition parse_summary_response (text : string) : option string :=
  let stripped := strip_analysis_block text in
  let leftover := Str.trim stripped in
  let fallback := if String.eqb leftover "" then None else Some leftover in
  match find_tagged_inner stripped "summary" with
  | Some inner => if is_blank inner then fallback else Some (Str.trim inner)
  | None => fallback
  end.

(** ** The verbatim tail *)

Definition partition_system (ms : list ChatMessage) : list ChatMessage * list ChatMessage :=
  (List.filter (fun m => bool_decide (role m = System)) ms,
   List.filter (fun m => negb (bool_decide (role m = System))) ms).

Definition use_id (b : ContentBlock) : option string :=
  match b with ToolUse id _ _ _ => Some id | _ => None end.
Definition result_id (b : ContentBlock) : option string :=
  match b with ToolResult id _ _ => Some id | _ => None end.
Definition uses (ms : list ChatMessage) : list string := omap use_id (concat (map content ms)).
Definition results (ms : list ChatMessage) : list string := omap result_id (concat (map content ms)).

(** The result ids of a tail whose call is not in it. *)
Definition needed (tail : list ChatMessage) : gset string :=
  list_to_set (results tail) ∖ list_to_set (uses tail).

Definition calls_one_of (ids : gset string) (m : ChatMessage) : bool :=
  existsb (fun b => match use_id b with Some id => bool_decide (id ∈ ids) | None => false end)
    (content m).

(** The [loop]: the cut moves back to the last row that calls a needed id.  It
    only moves down, so as many rounds as its first value are enough. *)
Fixpoint cut_loop (fuel : nat) (ms : list ChatMessage) (new_cut : nat) : nat :=
  match fuel with
  | 0 => new_cut
  | S fuel =>
      let ids := needed (drop new_cut ms) in
      if decide (ids = ∅) then new_cut
      else match rposition (calls_one_of ids) (take new_cut ms) with
           | Some i => cut_loop fuel ms i
           | None => new_cut
           end
  end.

Definition pair_preserving_cut (ms : list ChatMessage) (cut : nat) : nat :=
  let new_cut := Nat.min cut (length ms) in
  if Nat.eqb new_cut 0 then 0 else cut_loop new_cut ms new_cut.

Definition has_text (m : ChatMessage) : bool := existsb is_text (content m).

Section Walk.
Context (tokenize : ChatMessage -> N) (min_tokens : N) (min_text_block_msgs : nat) (max_tokens : N).

Definition tokens_of (ms : list ChatMessage) : N := sum_N (map tokenize ms).
Definition text_msgs_of (ms : list ChatMessage) : nat := length (List.filter has_text ms).

(** One round per atomic unit; the cursor falls by at least one. *)
Fixpoint walk_loop (fuel : nat) (ms : list ChatMessage) (cursor : nat) (tokens : N) (text_msgs : nat)
    : nat :=
  match fuel with
  | 0 => cursor
  | S fuel =>
      if Nat.eqb cursor 0 then cursor
      else
        let new_cursor := pair_preserving_cut ms (cursor - 1) in
        let unit_ := drop new_cursor (take cursor ms) in
        let unit_tokens := tokens_of unit_ in
        if (max_tokens <? tokens + unit_tokens)%N then cursor
        else
          let tokens := (tokens + unit_tokens)%N in
          let text_msgs := text_msgs + text_msgs_of unit_ in
          if (min_tokens <=? tokens)%N && Nat.leb min_text_block_msgs text_msgs
          then new_cursor
          else walk_loop fuel ms new_cursor tokens text_msgs
  end.

Definition walk_backward_atomic (ms : list ChatMessage) : nat :=
  walk_loop (length ms) ms (length ms) 0 0.
End Walk.

(** ** The continuation message *)

Definition CONTINUATION_INTRO : string :=
  ("This session is being continued from a previous conversation that ran out of context. The summary below covers the"
   +:+ newline +:+ "earlier portion of the conversation.")%string.
Definition CONTINUATION_FOOTER_WITH_SLICE : string :=
  ("The most recent messages are preserved verbatim below this summary." +:+ newline)%string.
Definition CONTINUATION_FOOTER : string :=
  ("Continue the conversation from where it left off without asking the user any further questions. Resume directly — do not acknowledge the summary, do not recap what was happening, do not preface with "
   +:+ dquote +:+ "I'll continue" +:+ dquote +:+ " or similar. Pick up the last task as if the break never happened.")%string.

Definition build_summary_message (body transcript : string) (with_slice : bool) : ChatMessage :=
  let body_block := ("Summary:" +:+ newline +:+ Str.trim body)%string in
  let slice_note := if with_slice then CONTINUATION_FOOTER_WITH_SLICE else ""%string in
  agent_context [Text
    (CONTINUATION_INTRO +:+ blank_line +:+ body_block +:+ blank_line
     +:+ "If you need specific details from before compaction (like exact code snippets, error messages, or content you generated), read the full transcript at: " +:+ transcript +:+ blank_line +:+ slice_note +:+ CONTINUATION_FOOTER)%string].

(** ** Cuts *)

(** A cut strands nothing when every result kept has its call kept, or has no
    call at all in the part cut off. *)
Definition closed (ms : list ChatMessage) (k : nat) : Prop :=
  forall id, id ∈ results (drop k ms) -> id ∈ uses (drop k ms) \/ id ∉ uses (take k ms).

Lemma elem_of_needed id tail : id ∈ needed tail <-> id ∈ results tail /\ id ∉ uses tail.
Proof. unfold needed. set_solver. Qed.

Lemma uses_app a b : uses (a ++ b) = uses a ++ uses b.
Proof. unfold uses. by split_app. Qed.
Lemma results_app a b : results (a ++ b) = results a ++ results b.
Proof. unfold results. by split_app. Qed.

Lemma calls_one_of_spec ids m :
  calls_one_of ids m = true <-> exists id, id ∈ ids /\ id ∈ uses [m].
Proof.
  unfold calls_one_of, uses. cbn. rewrite app_nil_r, existsb_exists. split.
  - intros (b & Hb%list_elem_of_In & Hid). destruct (use_id b) as [id|] eqn:E; [|done].
    apply bool_decide_eq_true in Hid. exists id. split; [done|]. apply list_elem_of_omap. eauto.
  - intros (id & Hid & (b & Hb & E)%list_elem_of_omap). exists b.
    split; [by apply list_elem_of_In|]. rewrite E. by apply bool_decide_eq_true.
Qed.

Lemma uses_lookup id ms :
  id ∈ uses ms -> exists i m, ms !! i = Some m /\ id ∈ uses [m].
Proof.
  induction ms as [|x ms IH]; [by intros ?%not_elem_of_nil|].
  rewrite (uses_app [x] ms : uses (x :: ms) = _), elem_of_app. intros [H|H]; [by exists 0, x|].
  destruct (IH H) as (i & m & ? & ?). by exists (S i), m.
Qed.

Lemma uses_of_lookup id ms i m : ms !! i = Some m -> id ∈ uses [m] -> id ∈ uses ms.
Proof.
  intros Hi Hid. apply list_elem_of_split_length in Hi as (a & b & -> & _).
  rewrite uses_app, (uses_app [m] b : uses (m :: b) = _). set_solver.
Qed.

(** A later closed cut cannot lie strictly between the row called and the cut
    that needs it. *)
Lemma closed_below ms c k i :
  closed ms k -> k <= c -> c <= length ms ->
  rposition (calls_one_of (needed (drop c ms))) (take c ms) = Some i -> k <= i.
Proof.
  intros Hk Hkc Hc Hi. destruct (decide (k <= i)) as [|Hlt]; [done|]. exfalso.
  pose proof (rposition_Some _ _ _ Hi) as (m & Hm & (id & Hid & Hu)%calls_one_of_spec).
  apply elem_of_needed in Hid as [Hr Hnu].
  assert (Hsplit : drop k ms = drop k (take c ms) ++ drop c ms).
  { rewrite <- (take_drop c ms) at 1. rewrite drop_app_le; [done|].
    rewrite length_take. lia. }
  destruct (Hk id) as [Hin|Hout].
  - rewrite Hsplit, results_app. set_solver.
  - rewrite Hsplit, uses_app, elem_of_app in Hin. destruct Hin as [Hin|]; [|done].
    apply uses_lookup in Hin as (j & m' & Hj & Hu').
    rewrite lookup_drop in Hj. apply (rposition_last _ _ _ (k + j) m') in Hi; [lia | done |].
    apply calls_one_of_spec. exists id. by rewrite elem_of_needed.
  - apply Hout. apply (uses_of_lookup _ _ i m); [|done].
    apply lookup_take_Some in Hm as [Hm _]. rewrite lookup_take_Some. split; [done|lia].
Qed.

Lemma cut_loop_spec ms fuel c :
  c <= fuel -> c <= length ms ->
  cut_loop fuel ms c <= c /\ closed ms (cut_loop fuel ms c)
  /\ (forall k, closed ms k -> k <= c -> k <= cut_loop fuel ms c).
Proof.
  revert c; induction fuel as [|fuel IH]; intros c Hf Hc; cbn [cut_loop].
  - assert (c = 0) as -> by lia. split_and!; [lia | | lia]. intros id _. right.
    rewrite take_0. apply not_elem_of_nil.
  - case_decide as He.
    + split_and!; [lia | | lia]. intros id Hid. left.
      destruct (decide (id ∈ uses (drop c ms))) as [|Hn]; [done|].
      exfalso. assert (id ∈ needed (drop c ms)) as H by (by apply elem_of_needed). rewrite He in H. set_solver.
    + destruct (rposition _ _) as [i|] eqn:Ei.
      * pose proof (rposition_Some _ _ _ Ei) as (m & Hm & _). apply lookup_lt_Some in Hm.
        rewrite length_take in Hm. destruct (IH i) as (H1 & H2 & H3); [lia..|].
        split_and!; [lia | done |]. intros k Hk Hkc. apply H3; [done|]. by eapply closed_below.
      * split_and!; [lia | | lia]. intros id Hid.
        destruct (decide (id ∈ uses (drop c ms))) as [|Hn]; [by left|]. right.
        intros (i & m & Hi & Hu)%uses_lookup. apply rposition_None in Ei.
        eapply Forall_lookup_1 in Ei; [|exact Hi]. apply not_true_iff_false in Ei. apply Ei.
        apply calls_one_of_spec. exists id. by rewrite elem_of_needed.
Qed.

Lemma pair_preserving_cut_spec ms c :
  pair_preserving_cut ms c <= Nat.min c (length ms)
  /\ closed ms (pair_preserving_cut ms c)
  /\ (forall k, closed ms k -> k <= Nat.min c (length ms) -> k <= pair_preserving_cut ms c).
Proof.
  unfold pair_preserving_cut. destruct (Nat.eqb_spec (Nat.min c (length ms)) 0) as [->|Hne].
  - split_and!; [lia | | lia]. intros id _. right. rewrite take_0. apply not_elem_of_nil.
  - apply cut_loop_spec; lia.
Qed.

(** A cut keeps calls and results together.  [pair_preserving_cut] answers
    the latest cut at or before the one asked for that strands no result — a
    result is kept only with its call, unless the transcript has no such call
    before the cut — so it never drops more than asked and never keeps more
    than it must. *)
Theorem pair_preserving_cut_greatest (ms : list ChatMessage) (cut c : nat) :
  pair_preserving_cut ms cut = c <->
  closed ms c /\ c <= Nat.min cut (length ms)
  /\ (forall k, closed ms k -> k <= Nat.min cut (length ms) -> k <= c).
Proof.
  destruct (pair_preserving_cut_spec ms cut) as (H1 & H2 & H3). split.
  - intros <-. auto.
  - intros (Hc & Hle & Hmax). specialize (Hmax _ H2 H1). specialize (H3 _ Hc Hle). lia.
Qed.

(** ** The walk *)

Section WalkFacts.
Context (tokenize : ChatMessage -> N) (min_tokens : N) (min_text_block_msgs : nat) (max_tokens : N).
Abbreviation tokens_of := (tokens_of tokenize).
Abbreviation walk := (walk_loop tokenize min_tokens min_text_block_msgs max_tokens).

Lemma tokens_of_app a b : tokens_of (a ++ b) = (tokens_of a + tokens_of b)%N.
Proof. unfold Compaction.tokens_of. by split_app. Qed.

Lemma text_msgs_of_app a b : text_msgs_of (a ++ b) = text_msgs_of a + text_msgs_of b.
Proof. unfold text_msgs_of. by split_app. Qed.

Lemma drop_split (ms : list ChatMessage) i j :
  i <= j -> j <= length ms -> drop i ms = drop i (take j ms) ++ drop j ms.
Proof.
  intros Hi Hj. rewrite <- (take_drop j ms) at 1. rewrite drop_app_le; [done|].
  rewrite length_take. lia.
Qed.

Lemma tokens_of_drop_mono ms i j : i <= j -> (tokens_of (drop j ms) <= tokens_of (drop i ms))%N.
Proof.
  intros Hij.
  replace j with (i + (j - i)) by lia. rewrite <- drop_drop.
  rewrite <- (take_drop (j - i) (drop i ms)) at 2. rewrite tokens_of_app. lia.
Qed.

(** Enough is kept from [k] on. *)
Definition meets (ms : list ChatMessage) (k : nat) : Prop :=
  (min_tokens <= tokens_of (drop k ms))%N /\ min_text_block_msgs <= text_msgs_of (drop k ms).

(** The tail the walk is meant to keep: within the cap, the first at which both
    minima are met, or else the longest that fits. *)
Definition kept (ms : list ChatMessage) (c : nat) : Prop :=
  c <= length ms /\ closed ms c /\ (tokens_of (drop c ms) <= max_tokens)%N
  /\ (forall k, closed ms k -> c < k < length ms -> ~ meets ms k)
  /\ ((c < length ms /\ meets ms c)
      \/ forall k, closed ms k -> k < c -> (max_tokens < tokens_of (drop k ms))%N).

Lemma walk_loop_kept ms fuel cursor :
  cursor <= fuel -> cursor <= length ms -> closed ms cursor ->
  (tokens_of (drop cursor ms) <= max_tokens)%N ->
  (forall k, closed ms k -> cursor <= k < length ms -> ~ meets ms k) ->
  kept ms (walk fuel ms cursor (tokens_of (drop cursor ms)) (text_msgs_of (drop cursor ms))).
Proof.
  revert cursor; induction fuel as [|fuel IH]; intros cursor Hf Hlen Hcl Hmax Hno; cbn [walk_loop].
  - assert (cursor = 0) as -> by lia. unfold kept. split_and!; [lia | done | done | |].
    + intros k Hk ?. apply Hno; [done|lia].
    + right. lia.
  - destruct (Nat.eqb_spec cursor 0) as [->|Hne].
    { unfold kept. split_and!; [lia | done | done | intros k Hk ?; apply Hno; [done|lia] | right; lia]. }
    destruct (pair_preserving_cut_spec ms (cursor - 1)) as (H1 & H2 & H3).
    set (c := pair_preserving_cut ms (cursor - 1)) in *.
    replace (Nat.min (cursor - 1) (length ms)) with (cursor - 1) in * by lia.
    assert (Hsplit : drop c ms = drop c (take cursor ms) ++ drop cursor ms) by (apply drop_split; lia).
    assert (Ht : (tokens_of (drop cursor ms) + tokens_of (drop c (take cursor ms)))%N = tokens_of (drop c ms))
      by (rewrite Hsplit, tokens_of_app; lia).
    assert (Hx : text_msgs_of (drop cursor ms) + text_msgs_of (drop c (take cursor ms)) = text_msgs_of (drop c ms))
      by (rewrite Hsplit, text_msgs_of_app; lia).
    rewrite Ht, Hx. destruct (N.ltb_spec max_tokens (tokens_of (drop c ms))) as [Hov|Hfit].
    { unfold kept. split_and!; [lia | done | done | |].
      - intros k Hk ?. apply Hno; [done|lia].
      - right. intros k Hk Hlt. eapply N.lt_le_trans; [exact Hov|].
        apply tokens_of_drop_mono. apply H3; [done|lia]. }
    assert (Hstep : forall k, closed ms k -> c < k < length ms -> ~ meets ms k).
    { intros k Hk Hlt. apply Hno; [done|]. destruct (decide (k < cursor)); [|lia].
      specialize (H3 k Hk). lia. }
    destruct (_ && _) eqn:Hm.
    + apply andb_true_iff in Hm as [Hm1%N.leb_le Hm2%Nat.leb_le].
      unfold kept. split_and!; [lia | done | done | done |]. left. split; [lia | by split].
    + apply IH; [lia | lia | done | done |]. intros k Hk Hlt.
      destruct (decide (k = c)) as [->|]; [|apply Hstep; [done | lia]].
      intros [Hm1%N.leb_le Hm2%Nat.leb_le]. by rewrite Hm1, Hm2 in Hm.
Qed.

(** The tail kept verbatim.  The walk stops at the first cut that parts no
    call from its result and leaves the minimum of tokens and of text messages;
    if no such tail fits the cap it keeps the longest that does, down to
    nothing.  The tail never exceeds the cap. *)
Theorem walk_backward_atomic_kept (ms : list ChatMessage) :
  kept ms (walk_backward_atomic tokenize min_tokens min_text_block_msgs max_tokens ms).
Proof.
  unfold walk_backward_atomic.
  replace 0%N with (tokens_of (drop (length ms) ms)) by (by rewrite drop_all).
  replace 0 with (text_msgs_of (drop (length ms) ms)) by (by rewrite drop_all).
  apply walk_loop_kept; [lia | lia | | rewrite drop_all; cbn; lia | lia].
  intros id. rewrite drop_all. by intros H%not_elem_of_nil.
Qed.
End WalkFacts.
End Compaction.
