(* ===== verification/ContextManager.v ===== *)
(** * The context manager: transcript, budget and the compaction flow
      ([crates/context/src/lib.rs], [compressor.rs])

    The owner of a session's transcript as a state machine: appending and
    restoring rows, anchoring the token count on what the provider billed, and
    the compaction — gate, summarizer call, assembly, savings check, apply.
    Answers from outside (the summarizer, the stores, the prompt sources, the
    skill registry) are arguments; the fields that only name those
    collaborators, the anchor written durably after a call and the prompt-anchor
    queue are left out. *)

From S2P Require Import Prelude Message Wire Tokens Compaction.
Import Message Wire Tokens Compaction.

Module ContextManager.

Record TokenBaseline := mk_baseline {
  actual_tokens : N;
  message_count_at_call : nat;
  baseline_overhead : N;
}.

Inductive SystemPromptVersion :=
| Subagent (profile : string)
| Persona (sources : list (string * option FileFingerprint)).
#[global] Instance SystemPromptVersion_eq_dec : EqDecision SystemPromptVersion.
Proof. solve_decision. Defined.

Record ContextManager := mk_cm {
  keep_recent : nat;
  budget : TokenBudget;
  messages : list ChatMessage;
  persisted_order_diverged : bool;
  per_message_tokens : list MessageTokens;
  called_skills : list string;
  baseline : option TokenBaseline;
  request_overhead : N;
  audio_delivery : AudioDelivery;
  current_model : option string;
  compaction_declined_at_len : option nat;
  task_reminder : option ChatMessage;
  task_reminder_raw : N;
  progress_observation : option ChatMessage;
  progress_observation_raw : N;
  system_prompt_version : option SystemPromptVersion;
  skills_version : option string;
  deferred_tool_notice : option string;
}.

(** What the skill registry answers for this session: the reminder listing the
    skills it may advertise ([None] when there are none), the definitions of
    called skills, and the skill a user's [/command] names. *)
Record Skills := mk_skills {
  render_skill_reminder : option string;
  build_skill_detail_payload : list string -> option string;
  detect_slash_invocation : string -> option string;
}.

(** [ContextError] and its [Display]. *)
Inductive ContextError :=
| Transcript (s : string) | Compression (s : string) | CancelledErr (s : string)
| Snapshot (s : string) | Internal (s : string).
Definition error_text (e : ContextError) : string :=
  match e with
  | Transcript s => "transcript persistence error: " +:+ s
  | Compression s => "context compression error: " +:+ s
  | CancelledErr s => "context compaction cancelled: " +:+ s
  | Snapshot s => "context snapshot error: " +:+ s
  | Internal s => s
  end%string.

Section Manager.
Context {T : Tokenizer} (skills : Skills).

(** ** Field updates *)
Definition set_budget (f : TokenBudget -> TokenBudget) (c : ContextManager) : ContextManager :=
  mk_cm (keep_recent c) (f (budget c)) (messages c) (persisted_order_diverged c)
    (per_message_tokens c) (called_skills c) (baseline c) (request_overhead c) (audio_delivery c)
    (current_model c) (compaction_declined_at_len c) (task_reminder c) (task_reminder_raw c)
    (progress_observation c) (progress_observation_raw c) (system_prompt_version c)
    (skills_version c) (deferred_tool_notice c).
Definition set_transcript (ms : list ChatMessage) (tokens : list MessageTokens) (called : list string)
    (c : ContextManager) : ContextManager :=
  mk_cm (keep_recent c) (budget c) ms (persisted_order_diverged c) tokens called (baseline c)
    (request_overhead c) (audio_delivery c) (current_model c) (compaction_declined_at_len c)
    (task_reminder c) (task_reminder_raw c) (progress_observation c) (progress_observation_raw c)
    (system_prompt_version c) (skills_version c) (deferred_tool_notice c).
Definition set_diverged (b : bool) (c : ContextManager) : ContextManager :=
  mk_cm (keep_recent c) (budget c) (messages c) b (per_message_tokens c) (called_skills c)
    (baseline c) (request_overhead c) (audio_delivery c) (current_model c)
    (compaction_declined_at_len c) (task_reminder c) (task_reminder_raw c) (progress_observation c)
    (progress_observation_raw c) (system_prompt_version c) (skills_version c)
    (deferred_tool_notice c).
Definition set_baseline (b : option TokenBaseline) (c : ContextManager) : ContextManager :=
  mk_cm (keep_recent c) (budget c) (messages c) (persisted_order_diverged c) (per_message_tokens c)
    (called_skills c) b (request_overhead c) (audio_delivery c) (current_model c)
    (compaction_declined_at_len c) (task_reminder c) (task_reminder_raw c) (progress_observation c)
    (progress_observation_raw c) (system_prompt_version c) (skills_version c)
    (deferred_tool_notice c).
Definition set_model (m : option string) (c : ContextManager) : ContextManager :=
  mk_cm (keep_recent c) (budget c) (messages c) (persisted_order_diverged c) (per_message_tokens c)
    (called_skills c) (baseline c) (request_overhead c) (audio_delivery c) m
    (compaction_declined_at_len c) (task_reminder c) (task_reminder_raw c) (progress_observation c)
    (progress_observation_raw c) (system_prompt_version c) (skills_version c)
    (deferred_tool_notice c).
Definition set_overhead (n : N) (c : ContextManager) : ContextManager :=
  mk_cm (keep_recent c) (budget c) (messages c) (persisted_order_diverged c) (per_message_tokens c)
    (called_skills c) (baseline c) n (audio_delivery c) (current_model c)
    (compaction_declined_at_len c) (task_reminder c) (task_reminder_raw c) (progress_observation c)
    (progress_observation_raw c) (system_prompt_version c) (skills_version c)
    (deferred_tool_notice c).
Definition set_audio (a : AudioDelivery) (c : ContextManager) : ContextManager :=
  mk_cm (keep_recent c) (budget c) (messages c) (persisted_order_diverged c) (per_message_tokens c)
    (called_skills c) (baseline c) (request_overhead c) a (current_model c)
    (compaction_declined_at_len c) (task_reminder c) (task_reminder_raw c) (progress_observation c)
    (progress_observation_raw c) (system_prompt_version c) (skills_version c)
    (deferred_tool_notice c).
Definition set_declined (n : option nat) (c : ContextManager) : ContextManager :=
  mk_cm (keep_recent c) (budget c) (messages c) (persisted_order_diverged c) (per_message_tokens c)
    (called_skills c) (baseline c) (request_overhead c) (audio_delivery c) (current_model c) n
    (task_reminder c) (task_reminder_raw c) (progress_observation c) (progress_observation_raw c)
    (system_prompt_version c) (skills_version c) (deferred_tool_notice c).
Definition set_tail (r : option ChatMessage) (r_raw : N) (o : option ChatMessage) (o_raw : N)
    (c : ContextManager) : ContextManager :=
  mk_cm (keep_recent c) (budget c) (messages c) (persisted_order_diverged c) (per_message_tokens c)
    (called_skills c) (baseline c) (request_overhead c) (audio_delivery c) (current_model c)
    (compaction_declined_at_len c) r r_raw o o_raw (system_prompt_version c) (skills_version c)
    (deferred_tool_notice c).
Definition set_versions (v : option SystemPromptVersion) (s : option string) (c : ContextManager)
    : ContextManager :=
  mk_cm (keep_recent c) (budget c) (messages c) (persisted_order_diverged c) (per_message_tokens c)
    (called_skills c) (baseline c) (request_overhead c) (audio_delivery c) (current_model c)
    (compaction_declined_at_len c) (task_reminder c) (task_reminder_raw c) (progress_observation c)
    (progress_observation_raw c) v s (deferred_tool_notice c).

(** [from_config]: the token cap is installed later, with the model. *)
Definition from_config (keep : nat) (thr : f64) (max_active_tokens : N) (notice : option string)
    : ContextManager :=
  mk_cm keep (new_budget 0 thr max_active_tokens) [] false [] [] None 0 Native None None
    None 0 None 0 None None notice.

(** ** Counting *)

Definition budget_tokens (c : ContextManager) : ChatMessage -> MessageTokens :=
  message_budget_tokens (audio_delivery c).
Definition row_price (c : ContextManager) : ChatMessage -> N := price (audio_delivery c).

Definition transient_tail_raw (c : ContextManager) : N :=
  (task_reminder_raw c + progress_observation_raw c)%N.
Definition unanchored_request_tokens (c : ContextManager) (stored : N) : N :=
  (stored + request_overhead c + transient_tail_raw c)%N.

Definition totals (l : list MessageTokens) : N := sum_N (map total l).

(** The provider's own count of the rows it has seen, plus an estimate of those
    appended since; a full estimate when there is no such count. *)
Definition count_tokens (c : ContextManager) : N :=
  let full := unanchored_request_tokens c (totals (per_message_tokens c)) in
  match baseline c with
  | Some b =>
      if Nat.leb (message_count_at_call b) (length (messages c)) then
        let suffix := totals (drop (message_count_at_call b) (per_message_tokens c)) in
        (actual_tokens b + (request_overhead c - baseline_overhead b) + transient_tail_raw c
         + suffix)%N
      else full
  | None => full
  end.

Definition refresh_budget (c : ContextManager) : ContextManager :=
  set_budget (update (count_tokens c)) c.
Definition invalidate_baseline : ContextManager -> ContextManager := set_baseline None.

Definition set_current_model (model_id : string) (c : ContextManager) : ContextManager :=
  if bool_decide (current_model c = Some model_id) then c
  else
    let switching := is_some (current_model c) in
    let c := set_model (Some model_id) c in
    if switching then invalidate_baseline c else c.

Definition note_request_tools (tools : list ToolDefinition) (c : ContextManager) : ContextManager :=
  set_overhead (sum_N (map tool_definition_tokens tools)) c.

Definition record_call_actual (actual_input_tokens : N) (c : ContextManager) : ContextManager :=
  if (actual_input_tokens =? 0)%N then c
  else set_baseline (Some (mk_baseline (actual_input_tokens - transient_tail_raw c)
                             (length (messages c)) (request_overhead c))) c.

(** ** The transcript *)

Definition SKILL_TOOL_NAME : string := "Skill".
Definition SKILL_INPUT_NAME_FIELD : string := "skill".

Definition push_called_skill (acc : list string) (name : string) : list string :=
  if bool_decide (name ∈ acc) then acc else acc ++ [name].
Definition record_skill_calls (acc : list string) (m : ChatMessage) : list string :=
  foldl (fun acc b =>
    match b with
    | ToolUse _ name input _ =>
        if String.eqb name SKILL_TOOL_NAME then
          match Json.get_str input SKILL_INPUT_NAME_FIELD with
          | Some skill_name => push_called_skill acc skill_name
          | None => acc
          end
        else acc
    | _ => acc
    end) acc (content m).
Definition scan_skill_calls (ms : list ChatMessage) : list string := foldl record_skill_calls [] ms.
Definition called_skills_in (ms : list ChatMessage) : list string :=
  foldl (fun called m =>
    if decide (source m = SrcUser) then
      match detect_slash_invocation skills (extract_text (content m)) with
      | Some name => push_called_skill called name
      | None => called
      end
    else called) (scan_skill_calls ms) ms.

Definition push_message (m : ChatMessage) (c : ContextManager) : ContextManager :=
  refresh_budget
    (set_transcript (messages c ++ [m]) (per_message_tokens c ++ [budget_tokens c m])
       (record_skill_calls (called_skills c) m) c).

(** The store answers with the row's ordinal; a failed write changes nothing. *)
Definition append (stored : result Z string) (m : ChatMessage) (c : ContextManager)
    : ContextManager * result Z ContextError :=
  match stored with
  | Ok ordinal => (push_message m c, Ok ordinal)
  | Err e => (c, Err (Transcript e))
  end.

(** A replay of the same source event is answered with the first ordinal. *)
Inductive AppendOutcome := Inserted (ordinal : Z) | Existing (ordinal : Z).
Definition append_idempotent (stored : result AppendOutcome string) (m : ChatMessage)
    (c : ContextManager) : ContextManager * result AppendOutcome ContextError :=
  match stored with
  | Ok (Inserted ordinal) => (push_message m c, Ok (Inserted ordinal))
  | Ok (Existing ordinal) => (c, Ok (Existing ordinal))
  | Err e => (c, Err (Transcript e))
  end.

Definition restore_messages (ms : list ChatMessage) (c : ContextManager) : ContextManager :=
  let c := set_transcript ms (map (budget_tokens c) ms) (called_skills_in ms) c in
  let c := set_versions None None (set_diverged true c) in
  set_declined None (refresh_budget (invalidate_baseline c)).

Definition replace_first_message (m : ChatMessage) (c : ContextManager) : ContextManager :=
  match messages c, per_message_tokens c with
  | _ :: ms, _ :: ts =>
      refresh_budget (invalidate_baseline (set_diverged true
        (set_transcript (m :: ms) (budget_tokens c m :: ts) (called_skills c) c)))
  | _, _ => c
  end.

(** ** The model and the transient rows *)

Definition set_active_model_context_window (window : N) (c : ContextManager) : ContextManager :=
  set_budget (set_max_tokens window) c.

Definition carries_audio (len : nat) (c : ContextManager) : bool :=
  existsb message_carries_audio (take len (messages c)).

Definition set_active_model_audio_delivery (audio : AudioDelivery) (c : ContextManager)
    : ContextManager :=
  match audio_delivery c, audio with
  | Native, Native | Stub, Stub => c
  | _, _ =>
      let c := set_audio audio c in
      let c := match audio, baseline c with
               | Native, Some b =>
                   if carries_audio (message_count_at_call b) c then invalidate_baseline c else c
               | _, _ => c
               end in
      let reprice m t := if message_carries_audio m then budget_tokens c m else t in
      refresh_budget
        (set_transcript (messages c) (zip_with reprice (messages c) (per_message_tokens c))
           (called_skills c) c)
  end.

(** The rendered checklist, [None] when there are no tasks. *)
Definition refresh_task_reminder (rendered : option string) (c : ContextManager) : ContextManager :=
  let row := (fun s => agent_context [Text s]) <$> rendered in
  let raw := default 0%N (count_message <$> row) in
  refresh_budget (set_tail row raw (progress_observation c) (progress_observation_raw c) c).

Definition set_progress_observation (observation : option string) (c : ContextManager)
    : ContextManager :=
  match observation, progress_observation c with
  | None, None => c
  | _, _ =>
      let row := (fun s => agent_context [Text s]) <$> observation in
      let raw := default 0%N (count_message <$> row) in
      refresh_budget (set_tail (task_reminder c) (task_reminder_raw c) row raw c)
  end.

Definition transient_tail (c : ContextManager) (cue : option ChatMessage) : Tail :=
  mk_tail (task_reminder c) (progress_observation c) cue.

(** ** Compaction *)

Definition EMPTY_SUMMARY_REASON : string := "the summarizer returned no usable summary".

Inductive CompressOutput :=
| NoOp | Cancelled | Failed (reason : string) | Replaced (ms : list ChatMessage).
Inductive CompressionOutcome :=
| Compressed | BelowThreshold | StrategyDeclined | NoSavings | OutcomeCancelled
| OutcomeFailed (reason : string).

Definition is_system (m : ChatMessage) : bool := bool_decide (role m = System).

Definition text_row (s : string) : list ContentBlock := [Text s].
Definition skill_trailer (c : ContextManager) : list ChatMessage :=
  option_list ((fun s => skill_listing (text_row s)) <$> render_skill_reminder skills)
  ++ option_list ((fun s => deferred_tool_listing (text_row s)) <$> deferred_tool_notice c)
  ++ option_list ((fun s => agent_context (text_row s))
                    <$> build_skill_detail_payload skills (called_skills c)).
Definition insert_skill_trailer (c : ContextManager) (ms : list ChatMessage) : list ChatMessage :=
  let insert_at := length (take_while is_system ms) in
  take insert_at ms ++ skill_trailer c ++ drop insert_at ms.
Definition estimate_skill_trailer_tokens (c : ContextManager) : N :=
  sum_N (map (fun s => count_message (agent_context (text_row s)))
    (option_list (render_skill_reminder skills) ++ option_list (deferred_tool_notice c)
     ++ option_list (build_skill_detail_payload skills (called_skills c)))).

Definition compaction_fits (c : ContextManager) (candidate : list ChatMessage) : bool :=
  let body := sum_N (map (row_price c) candidate) in
  let total := unanchored_request_tokens c (body + estimate_skill_trailer_tokens c)%N in
  (total <? current (budget c))%N && (total <=? compression_ceiling (budget c))%N.

Definition with_slice (c : ContextManager) (transcript summary : string)
    (system_msgs non_system : list ChatMessage) : list ChatMessage :=
  let '(min_tokens, min_text, cap) := recent_slice_bounds (max_tokens (budget c)) in
  let cut := walk_backward_atomic (row_price c) min_tokens min_text cap non_system in
  system_msgs ++ [build_summary_message summary transcript true] ++ drop cut non_system.
Definition summary_only (transcript summary : string) (system_msgs : list ChatMessage)
    : list ChatMessage :=
  system_msgs ++ [build_summary_message summary transcript false].

Definition assemble_summary (c : ContextManager) (transcript : string)
    (system_msgs non_system : list ChatMessage) (summary : string) : CompressOutput :=
  let rich := with_slice c transcript summary system_msgs non_system in
  match find_first (compaction_fits c) [rich; summary_only transcript summary system_msgs] with
  | Some candidate => Replaced candidate
  | None => Replaced rich
  end.

(** Rows that only describe a prompt or a listing about to be rewritten. *)
Definition is_drift_row (m : ChatMessage) : bool :=
  match source m with
  | SystemPromptUpdate | SkillListing | SkillsUpdate | DeferredToolListing => true
  | _ => false
  end.

Definition SUMMARIZE_INSTRUCTION : string :=
  "Create a continuation summary of the conversation above. Respond with exactly one <summary> block and no text outside it.

Preserve what another model needs to continue the work without reopening settled questions:

1. Every user request, correction, constraint, and preference, noting what is complete, pending, superseded, or still ambiguous.
2. Work completed so far, key decisions and their reasons, and any failed approaches or errors that affect what should happen next.
3. Relevant files, symbols, commands, technical details, and current repository state. Quote exact code only when its exact text is necessary to continue.
4. The task in progress immediately before this summary, its remaining work, and the next action already implied by the user's request.

Recent messages may be preserved verbatim after the summary. Capture their unresolved state, but do not quote or reproduce them. Do not invent next steps or revive completed work.

<summary>
...
</summary>".

(** What the summarizer is sent: the cached prefix and the instruction, which is
    not folded into it. *)
Definition summary_request (c : ContextManager) : list ChatMessage :=
  llm_prefix (messages c) ++ [agent_context [Text SUMMARIZE_INSTRUCTION]].

Definition ChatCallback : Type := list ChatMessage -> result string ContextError.

Definition summarize (c : ContextManager) (transcript : string) (chat : ChatCallback)
    : CompressOutput :=
  let '(system_msgs, non_system) := partition_system (messages c) in
  let non_system := List.filter (fun m => negb (is_drift_row m)) non_system in
  match chat (summary_request c) with
  | Err (CancelledErr _) => Cancelled
  | Err e => Failed (error_text e)
  | Ok answer =>
      match parse_summary_response answer with
      | None => Failed EMPTY_SUMMARY_REASON
      | Some summary => assemble_summary c transcript system_msgs non_system summary
      end
  end.

(** Whether the summarizer is called at all. *)
Definition too_short (c : ContextManager) : bool :=
  let non_system := (partition_system (messages c)).2 in
  Nat.leb (length non_system) (keep_recent c)
  && (sum_N (map (row_price c) non_system) <=? MIN_COMPACTABLE_TOKENS)%N.

Definition run_compression_flow (c : ContextManager) (transcript : string)
    (chat : ChatCallback) : CompressOutput :=
  if too_short c then NoOp else summarize c transcript chat.

(** What the process answers while a compaction runs: the summarizer, the
    transcript's path, the prompt assembled afresh with its version, and
    whether the store took the new rows. *)
Record Answers := mk_answers {
  chat : ChatCallback;
  transcript_path : string;
  resolved_prompt : option string;
  prompt_version : SystemPromptVersion;
  persisted : bool;
}.

Definition leads_with_system_text (c : ContextManager) : bool :=
  match messages c with
  | m :: _ => is_system m && match content m with Text _ :: _ => true | _ => false end
  | [] => false
  end.
Definition reseed_system_row (a : Answers) (c : ContextManager) : ContextManager :=
  if leads_with_system_text c then
    match resolved_prompt a with
    | Some prompt =>
        let c := replace_first_message (system [Text prompt]) c in
        set_versions (Some (prompt_version a)) (skills_version c) c
    | None => c
    end
  else c.
Definition persist_compaction (a : Answers) (c : ContextManager) : ContextManager :=
  set_diverged (negb (persisted a)) c.

Definition apply_compaction (new_messages : list ChatMessage) (after_tokens : N)
    (c : ContextManager) : ContextManager :=
  let c := set_transcript new_messages (map (budget_tokens c) new_messages)
             (called_skills_in new_messages) c in
  let c := set_versions None None (set_diverged true c) in
  set_declined None (set_budget (update after_tokens) c).

Definition run_compression (a : Answers) (c : ContextManager)
    : ContextManager * CompressionOutcome :=
  match run_compression_flow c (transcript_path a) (chat a) with
  | NoOp => (c, StrategyDeclined)
  | Cancelled => (c, OutcomeCancelled)
  | Failed reason => (c, OutcomeFailed reason)
  | Replaced [] => (c, StrategyDeclined)
  | Replaced candidate =>
      let new_messages := insert_skill_trailer c candidate in
      let before_tokens := current (budget c) in
      let c := invalidate_baseline c in
      let after_tokens :=
        unanchored_request_tokens c (totals (map (budget_tokens c) new_messages)) in
      if (before_tokens <=? after_tokens)%N then
        (set_declined (Some (length (messages c))) c, NoSavings)
      else
        (persist_compaction a (reseed_system_row a (apply_compaction new_messages after_tokens c)),
         Compressed)
  end.

Definition compaction_declined (c : ContextManager) : bool :=
  match compaction_declined_at_len c with
  | Some len => Nat.leb (length (messages c)) len
  | None => false
  end.

Definition ready (model_id : string) (tools : list ToolDefinition) (c : ContextManager) : ContextManager :=
  refresh_budget (note_request_tools tools (set_current_model model_id c)).

(** [needs_compression]: whether [maybe_compress] would run a pass. *)
Definition would_compress (model_id : string) (tools : list ToolDefinition) (c : ContextManager)
    : ContextManager * bool :=
  let c := ready model_id tools c in
  (c, needs_compression (budget c) && negb (compaction_declined c)).

Definition maybe_compress (model_id : string) (tools : list ToolDefinition) (a : Answers) (c : ContextManager)
    : ContextManager * CompressionOutcome :=
  let c := ready model_id tools c in
  if negb (needs_compression (budget c)) then (c, BelowThreshold)
  else if compaction_declined c then (c, NoSavings)
  else run_compression a c.

Definition force_compress (model_id : string) (tools : list ToolDefinition) (a : Answers) (c : ContextManager)
    : ContextManager * CompressionOutcome :=
  run_compression a (set_declined None (ready model_id tools c)).

(** ** Any history of a session's manager *)

Inductive op :=
| OpAppend (stored : result Z string) (m : ChatMessage)
| OpAppendIdempotent (stored : result AppendOutcome string) (m : ChatMessage)
| OpRestore (ms : list ChatMessage)
| OpReplaceFirst (m : ChatMessage)
| OpActual (n : N)
| OpWindow (n : N)
| OpAudio (a : AudioDelivery)
| OpReminder (rendered : option string)
| OpObservation (rendered : option string)
| OpNeeds (model : string) (tools : list ToolDefinition)
| OpMaybe (model : string) (tools : list ToolDefinition) (a : Answers)
| OpForce (model : string) (tools : list ToolDefinition) (a : Answers).

Definition run_op (o : op) (c : ContextManager) : ContextManager :=
  match o with
  | OpAppend stored m => (append stored m c).1
  | OpAppendIdempotent stored m => (append_idempotent stored m c).1
  | OpRestore ms => restore_messages ms c
  | OpReplaceFirst m => replace_first_message m c
  | OpActual n => record_call_actual n c
  | OpWindow n => set_active_model_context_window n c
  | OpAudio a => set_active_model_audio_delivery a c
  | OpReminder r => refresh_task_reminder r c
  | OpObservation r => set_progress_observation r c
  | OpNeeds m n => (would_compress m n c).1
  | OpMaybe m n a => (maybe_compress m n a c).1
  | OpForce m n a => (force_compress m n a c).1
  end.

(** Prices in lockstep with the rows; the provider's count and the no-savings
    latch are about rows that are still there. *)
Definition wf (c : ContextManager) : Prop :=
  per_message_tokens c = map (budget_tokens c) (messages c)
  /\ (forall b, baseline c = Some b -> message_count_at_call b <= length (messages c))
  /\ (forall n, compaction_declined_at_len c = Some n -> n <= length (messages c)).

Lemma wf_no_baseline c : wf c -> wf (invalidate_baseline c).
Proof. intros (H1 & _ & H3). by split_and!. Qed.
Lemma wf_refresh c : wf c -> wf (refresh_budget c).
Proof. by intros (H1 & H2 & H3). Qed.
Lemma wf_declined n c :
  wf c -> (forall k, n = Some k -> k <= length (messages c)) -> wf (set_declined n c).
Proof. intros (H1 & H2 & _) H3. by split_and!. Qed.
Lemma wf_ready m n c : wf c -> wf (ready m n c).
Proof.
  intros H. unfold ready. apply wf_refresh. unfold note_request_tools, set_current_model.
  destruct (bool_decide _); [by apply H|]. destruct (is_some _); [|by apply H].
  by apply (wf_no_baseline (set_model (Some m) c)).
Qed.
#[local] Hint Resolve wf_no_baseline wf_refresh wf_declined wf_ready : baybo.

Lemma wf_push m c : wf c -> wf (push_message m c).
Proof.
  intros (H1 & H2 & H3). unfold push_message. apply wf_refresh. split_and!; cbn.
  - by rewrite map_app, H1.
  - intros b Hb. specialize (H2 b Hb). len_app.
  - intros n Hn. specialize (H3 n Hn). len_app.
Qed.

Lemma wf_replace m c : wf c -> wf (replace_first_message m c).
Proof.
  intros (H1 & H2 & H3). unfold replace_first_message.
  destruct (messages c) as [|x ms] eqn:Em, (per_message_tokens c) as [|y ts] eqn:Et; try done;
    [by rewrite <- Em in *; split_and!; rewrite ?Et..|].
  cbn in H1. injection H1 as -> ->. apply wf_refresh. split_and!; cbn; [done | done | exact H3].
Qed.

Lemma wf_reseed a c : wf c -> wf (reseed_system_row a c).
Proof.
  intros H. unfold reseed_system_row. destruct (leads_with_system_text c); [|done].
  destruct (resolved_prompt a) as [p|]; [|done].
  destruct (wf_replace (system [Text p]) c H) as (H1 & H2 & H3). by split_and!.
Qed.

Lemma wf_apply new n c : baseline c = None -> wf (apply_compaction new n c).
Proof. intros Hb. split_and!; cbn; [done | by rewrite Hb | done]. Qed.

Lemma wf_run a c : wf c -> wf (run_compression a c).1.
Proof.
  intros H. unfold run_compression. destruct (run_compression_flow _ _ _) as [| |r|ms]; try done.
  destruct ms as [|x ms]; [done|]. destruct (_ <=? _)%N; cbn [fst].
  - apply wf_declined; [by apply wf_no_baseline | by intros k [= <-]].
  - unfold persist_compaction. set (c' := reseed_system_row _ _).
    assert (wf c') as (H1 & H2 & H3) by (apply wf_reseed, wf_apply; done). by split_and!.
Qed.

Context {L : TokenizerLaws T}.

(** Pricing again the rows with audio prices every row for the new model. *)
Lemma reprice_all a c :
  per_message_tokens c = map (budget_tokens c) (messages c) ->
  zip_with (fun m t => if message_carries_audio m then message_budget_tokens a m else t)
    (messages c) (per_message_tokens c) = map (message_budget_tokens a) (messages c).
Proof.
  intros ->. unfold budget_tokens. generalize (audio_delivery c) as k. intros k.
  induction (messages c) as [|m ms IH]; cbn; [done|]. rewrite IH. f_equal.
  destruct (message_carries_audio m) eqn:E; [done|]. by apply message_budget_tokens_without_audio.
Qed.

Lemma wf_audio a c : wf c -> wf (set_active_model_audio_delivery a c).
Proof.
  intros (H1 & H2 & H3).
  set (c' := set_transcript (messages c)
          (zip_with (fun m t => if message_carries_audio m then message_budget_tokens a m else t)
             (messages c) (per_message_tokens c)) (called_skills c) (set_audio a c)).
  assert (Hkeep : wf c') by (split_and!; cbn; [by apply reprice_all | exact H2 | exact H3]).
  pose proof (wf_no_baseline _ Hkeep) as Hdrop.
  unfold set_active_model_audio_delivery.
  destruct (audio_delivery c), a; try by split_and!.
  - apply wf_refresh, Hkeep.
  - cbn. destruct (baseline c); [destruct (carries_audio _ _)|]; apply wf_refresh;
      [exact Hdrop | exact Hkeep..].
Qed.

Lemma wf_op o c : wf c -> wf (run_op o c).
Proof.
  intros H. destruct o as [[]?|[[]|]?|ms|m|n|n|a|r|r|m n|m n a|m n a]; cbn [run_op append append_idempotent fst];
    try done; auto using wf_push, wf_replace, wf_audio.
  - unfold record_call_actual. destruct (n =? 0)%N; [done|]. destruct H as (H1 & _ & H3).
    split_and!; cbn; [done | by intros b [= <-] | done].
  - unfold set_progress_observation.
    destruct r as [s|], (progress_observation c); try done; by apply wf_refresh.
  - by apply (wf_ready m n c).
  - unfold maybe_compress; cbv zeta. destruct (negb (needs_compression _)); [cbn; auto with baybo|].
    destruct (compaction_declined _); [cbn; auto with baybo|]. apply wf_run. auto with baybo.
  - apply wf_run. apply wf_declined; [auto with baybo | done].
Qed.

Definition after (keep : nat) (thr : f64) (max_active : N) (notice : option string) (os : list op)
    : ContextManager :=
  foldl (fun c o => run_op o c) (from_config keep thr max_active notice) os.

Lemma wf_after keep thr act notice os : wf (after keep thr act notice os).
Proof.
  unfold after. assert (H : wf (from_config keep thr act notice)) by by split_and!.
  revert H. generalize (from_config keep thr act notice). induction os as [|o os IH]; intros c H; [done|].
  apply IH. by apply wf_op.
Qed.

(** ** What a compaction does *)

Lemma trailer_price c :
  sum_N (map (row_price c) (skill_trailer c)) = estimate_skill_trailer_tokens c.
Proof.
  unfold skill_trailer, estimate_skill_trailer_tokens, row_price.
  split_app. f_equal; [|f_equal].
  - destruct (render_skill_reminder skills) as [s|]; cbn; [|done]. by rewrite (price_agent_text _ _ s).
  - destruct (deferred_tool_notice c) as [s|]; cbn; [|done]. by rewrite (price_agent_text _ _ s).
  - destruct (build_skill_detail_payload _ _) as [s|]; cbn; [|done]. by rewrite (price_agent_text _ _ s).
Qed.

Lemma inserted_price c ms :
  sum_N (map (row_price c) (insert_skill_trailer c ms))
  = (sum_N (map (row_price c) ms) + estimate_skill_trailer_tokens c)%N.
Proof.
  unfold insert_skill_trailer. set (n := length _).
  assert (sum_N (map (row_price c) ms)
          = sum_N (map (row_price c) (take n ms)) + sum_N (map (row_price c) (drop n ms)))%N as ->
    by (by rewrite <- sum_N_app, <- map_app, take_drop).
  split_app. rewrite trailer_price. lia.
Qed.

Lemma totals_map c ms : totals (map (budget_tokens c) ms) = sum_N (map (row_price c) ms).
Proof. unfold totals. by rewrite map_map. Qed.

(** The rows of a compacted transcript, before its system row is reseeded. *)
Definition undrifted (c : ContextManager) : list ChatMessage :=
  List.filter (fun m => negb (is_drift_row m)) (partition_system (messages c)).2.
Definition candidate (a : Answers) (c : ContextManager) (summary : string) (sliced : bool)
    : list ChatMessage :=
  let system_msgs := (partition_system (messages c)).1 in
  if sliced then with_slice c (transcript_path a) summary system_msgs (undrifted c)
  else summary_only (transcript_path a) summary system_msgs.
Definition compacted (a : Answers) (c : ContextManager) (summary : string) (sliced : bool)
    : list ChatMessage :=
  insert_skill_trailer c (candidate a c summary sliced).
Definition request_price (c : ContextManager) (ms : list ChatMessage) : N :=
  unanchored_request_tokens c (sum_N (map (row_price c) ms)).

(** The tail goes along when it fits, and when nothing does. *)
Definition keeps_slice (a : Answers) (c : ContextManager) (summary : string) : bool :=
  compaction_fits c (candidate a c summary true)
  || negb (compaction_fits c (candidate a c summary false)).

(** The savings gate and what follows it. *)
Definition settle (a : Answers) (c : ContextManager) (new : list ChatMessage)
    : ContextManager * CompressionOutcome :=
  if (current (budget c) <=? request_price c new)%N
  then (set_declined (Some (length (messages c))) (invalidate_baseline c), NoSavings)
  else (persist_compaction a (reseed_system_row a
          (apply_compaction new (request_price c new) (invalidate_baseline c))), Compressed).

Definition usable (a : Answers) (c : ContextManager) (summary : string) : Prop :=
  too_short c = false
  /\ exists answer, chat a (summary_request c) = Ok answer /\ parse_summary_response answer = Some summary.

Lemma candidate_nonempty a c summary sliced : candidate a c summary sliced <> [].
Proof.
  unfold candidate, with_slice, summary_only. destruct (recent_slice_bounds _) as [[? ?] ?], sliced;
    by destruct (partition_system _).1.
Qed.

Lemma run_usable a c summary :
  usable a c summary ->
  run_compression a c = settle a c (compacted a c summary (keeps_slice a c summary)).
Proof.
  intros (Hs & answer & Hc & Hp).
  assert (Hflow : run_compression_flow c (transcript_path a) (chat a)
                  = Replaced (candidate a c summary (keeps_slice a c summary))).
  { unfold run_compression_flow. rewrite Hs. unfold summarize. rewrite Hc.
    unfold keeps_slice, candidate, undrifted.
    destruct (partition_system (messages c)) as [sys rest] eqn:Ep. cbn [fst snd]. rewrite Hp.
    unfold assemble_summary. cbn [find_first].
    destruct (compaction_fits c (with_slice _ _ _ _ _)); [done|]. cbn [orb].
    by destruct (compaction_fits c (summary_only _ _ _)). }
  unfold run_compression. rewrite Hflow.
  pose proof (candidate_nonempty a c summary (keeps_slice a c summary)) as Hne.
  unfold settle, compacted, request_price. rewrite <- totals_map.
  by destruct (candidate a c summary _).
Qed.

Lemma run_unusable a c :
  (forall summary, ~ usable a c summary) ->
  exists o, run_compression a c = (c, o) /\ o <> Compressed /\ o <> NoSavings.
Proof.
  intros Hno. unfold run_compression, run_compression_flow.
  destruct (too_short c) eqn:Hs; [by eexists|]. unfold summarize.
  destruct (partition_system (messages c)) as [sys rest].
  destruct (chat a (summary_request c)) as [answer|e] eqn:Hc; [|destruct e; by eexists].
  destruct (parse_summary_response answer) as [summary|] eqn:Hp; [|by eexists].
  exfalso. apply (Hno summary). unfold usable. eauto.
Qed.

Lemma usable_dec a c : (exists summary, usable a c summary) \/ forall summary, ~ usable a c summary.
Proof.
  unfold usable. destruct (too_short c); [right; by intros ? [? _]|].
  destruct (chat a (summary_request c)) as [answer|e]; [|right; by intros ? (_ & ? & ? & _)].
  destruct (parse_summary_response answer) as [s|] eqn:E; [left; eauto|].
  right. intros s (_ & x & [= ->] & Hx). congruence.
Qed.

Lemma fits_price a c summary sliced :
  compaction_fits c (candidate a c summary sliced) = true ->
  (request_price c (compacted a c summary sliced) < current (budget c))%N
  /\ (request_price c (compacted a c summary sliced) <= compression_ceiling (budget c))%N.
Proof.
  unfold compaction_fits, request_price, compacted. rewrite inserted_price.
  by intros [H1%N.ltb_lt H2%N.leb_le]%andb_true_iff.
Qed.

(** A candidate accepted by the assembly is applied.  When the summarizer
    gave a usable summary and the summary fits, alone or with its tail, the
    savings gate lets it through: the transcript becomes one priced below what
    it replaces and at or under the ceiling that triggers the next pass, with
    the verbatim tail whenever that fits. *)
Theorem fitting_candidate_applied (a : Answers) (c : ContextManager) (summary : string)
    (Husable : usable a c summary)
    (Hfits : exists sliced, compaction_fits c (candidate a c summary sliced) = true) :
  exists sliced,
    let new := compacted a c summary sliced in
    (request_price c new < current (budget c))%N
    /\ (request_price c new <= compression_ceiling (budget c))%N
    /\ (compaction_fits c (candidate a c summary true) = true -> sliced = true)
    /\ run_compression a c =
         (persist_compaction a (reseed_system_row a
            (apply_compaction new (request_price c new) (invalidate_baseline c))), Compressed).
Proof.
  exists (keeps_slice a c summary). cbv zeta.
  assert (Hk : compaction_fits c (candidate a c summary (keeps_slice a c summary)) = true).
  { unfold keeps_slice. destruct (compaction_fits c (candidate a c summary true)) eqn:Et; [done|].
    destruct Hfits as [[] H]; [congruence|]. by rewrite H. }
  destruct (fits_price _ _ _ _ Hk) as [H1 H2]. split_and!; [done | done | |].
  - intros Ht. unfold keeps_slice. by rewrite Ht.
  - rewrite (run_usable a c summary Husable). unfold settle. by apply N.leb_gt in H1 as ->.
Qed.

(** ** The shape of a compacted transcript *)

Lemma insert_after_system c sys x rest :
  Forall (fun m => is_system m = true) sys -> is_system x = false ->
  insert_skill_trailer c (sys ++ x :: rest) = sys ++ skill_trailer c ++ x :: rest.
Proof.
  intros Hs Hx. unfold insert_skill_trailer.
  assert (take_while is_system (sys ++ x :: rest) = sys) as ->.
  { induction Hs as [|m sys Hm _ IH]; cbn; [by rewrite Hx|]. by rewrite Hm, IH. }
  by rewrite take_app_length, drop_app_length.
Qed.

Lemma system_rows c : Forall (fun m => is_system m = true) (partition_system (messages c)).1.
Proof. apply Forall_forall. by intros m [_ Hm]%list_elem_of_In%List.filter_In. Qed.

(** The tails a compaction may keep. *)
Definition kept_tail (c : ContextManager) (rest tail : list ChatMessage) : Prop :=
  let '(min_tokens, min_text, cap) := recent_slice_bounds (max_tokens (budget c)) in
  exists k, tail = drop k rest /\ kept (row_price c) min_tokens min_text cap rest k.

Lemma compacted_shape a c summary sliced :
  exists tail,
    compacted a c summary sliced
      = (partition_system (messages c)).1 ++ skill_trailer c
        ++ build_summary_message summary (transcript_path a) sliced :: tail
    /\ if sliced then kept_tail c (undrifted c) tail else tail = [].
Proof.
  unfold compacted, candidate. destruct sliced.
  - unfold with_slice, kept_tail. destruct (recent_slice_bounds _) as [[mt tm] cap].
    eexists. split; [apply insert_after_system; [apply system_rows | done]|].
    eexists. split; [done | apply walk_backward_atomic_kept].
  - eexists. split; [apply insert_after_system; [apply system_rows | done] | done].
Qed.

Lemma persist_rows a c : messages (persist_compaction a c) = messages c.
Proof. done. Qed.
Lemma apply_rows new n c : messages (apply_compaction new n c) = new.
Proof. done. Qed.

Lemma reseed_rows a c :
  wf c ->
  messages (reseed_system_row a c) = messages c
  \/ exists prompt x ms, resolved_prompt a = Some prompt /\ messages c = x :: ms /\ role x = System
       /\ messages (reseed_system_row a c) = system [Text prompt] :: ms.
Proof.
  intros (H1 & _). unfold reseed_system_row, leads_with_system_text.
  destruct (messages c) as [|x ms] eqn:Em; [by left|].
  destruct (is_system x) eqn:Es; [|by left]. destruct (content x) as [|[] ?]; try by left.
  destruct (resolved_prompt a) as [p|]; [|by left]. right. exists p, x, ms.
  split_and!; try done; [by apply bool_decide_eq_true in Es|].
  unfold replace_first_message. rewrite Em, H1. done.
Qed.

(** C34: a compaction is all or nothing.  Any other outcome leaves transcript,
    prices and budget as they were; an applied one rests on a usable summary and
    a candidate strictly cheaper than what it replaces, made of the system rows,
    the skill trailer, the summary row, and either a tail that parts no call from
    its result or nothing.  The transcript is then that candidate, or that
    candidate with its first system row assembled afresh; the price of a prompt
    that has grown meanwhile is not counted against the compaction. *)
Theorem compaction_all_or_nothing (a : Answers) (c c' : ContextManager) (o : CompressionOutcome)
    (Hrun : run_compression a c = (c', o)) :
  (o <> Compressed -> messages c' = messages c /\ per_message_tokens c' = per_message_tokens c
                      /\ budget c' = budget c)
  /\ (o = Compressed -> exists (summary : string) (sliced : bool) (tail : list ChatMessage),
        usable a c summary
        /\ (if sliced then kept_tail c (undrifted c) tail else tail = [])
        /\ let new := (partition_system (messages c)).1 ++ skill_trailer c
                      ++ build_summary_message summary (transcript_path a) sliced :: tail in
           (request_price c new < current (budget c))%N
           /\ (messages c' = new
               \/ exists prompt x ms, resolved_prompt a = Some prompt /\ new = x :: ms
                  /\ role x = System /\ messages c' = system [Text prompt] :: ms)).
Proof.
  destruct (usable_dec a c) as [[summary Hu]|Hno].
  - rewrite (run_usable a c summary Hu) in Hrun. revert Hrun. unfold settle.
    destruct (compacted_shape a c summary (keeps_slice a c summary)) as (tail & Hnew & Htail).
    destruct (N.leb_spec (current (budget c)) (request_price c (compacted a c summary (keeps_slice a c summary))))
      as [Hge|Hlt]; intros [= <- <-]; split; try done.
    intros _. exists summary, (keeps_slice a c summary), tail. rewrite Hnew in *.
    split_and!; [done | done | exact Hlt |].
    set (new := _ ++ _). rewrite persist_rows.
    pose proof (reseed_rows a _ (wf_apply new (request_price c new) (invalidate_baseline c) eq_refl)) as H.
    by rewrite apply_rows in H.
  - destruct (run_unusable a c Hno) as (o' & Heq & H1 & H2). rewrite Heq in Hrun.
    injection Hrun as <- <-. split; done.
Qed.

(** No second summarizer call for the same transcript.  After a compaction
    that saved nothing, the threshold check answers without asking the
    summarizer again for as long as no row is appended, whatever the model, the
    tools or the count have become. *)
Theorem no_savings_latched (model model' : string) (tools tools' : list ToolDefinition) (a : Answers)
    (c c' : ContextManager) (Hno : maybe_compress model tools a c = (c', NoSavings)) :
  (maybe_compress model' tools' a c').2 = BelowThreshold
  \/ (maybe_compress model' tools' a c').2 = NoSavings
     /\ forall a', maybe_compress model' tools' a' c' = maybe_compress model' tools' a c'.
Proof.
  assert (Hlen : exists n, compaction_declined_at_len c' = Some n /\ length (messages c') <= n).
  { revert Hno. unfold maybe_compress. cbv zeta. set (r := ready model tools c).
    destruct (negb _); [done|]. destruct (compaction_declined r) eqn:Hd.
    - intros [= <-]. unfold compaction_declined in Hd.
      destruct (compaction_declined_at_len r) as [n|]; [|done]. exists n.
      split; [done | by apply Nat.leb_le].
    - destruct (usable_dec a r) as [[s Hu]|Hun].
      + rewrite (run_usable _ _ _ Hu). unfold settle. destruct (_ <=? _)%N; intros [= <-].
        cbn. eauto.
      + destruct (run_unusable _ _ Hun) as (o & -> & _ & Ho). by intros [= _ ->]. }
  destruct Hlen as (n & Hn & Hle).
  assert (Hd : compaction_declined (ready model' tools' c') = true).
  { unfold compaction_declined, ready, note_request_tools, set_current_model.
    destruct (bool_decide _); [|destruct (is_some _)]; cbn; rewrite Hn; by apply Nat.leb_le. }
  unfold maybe_compress. cbv zeta. destruct (negb _); [by left|]. right. by rewrite Hd.
Qed.

(** The ledger describes the transcript.  After any history, each row's
    recorded price is what that row costs on the bound model, and the
    provider's count and the no-savings latch are about rows still there. *)
Theorem prices_in_lockstep (keep : nat) (thr : f64) (max_active : N) (notice : option string)
    (os : list op) :
  wf (after keep thr max_active notice os).
Proof. apply wf_after. Qed.
End Manager.

(** ** A session that compacts *)
Module Sample.

Definition tok : Tokenizer := HeuristicTokenizer (fun _ => "") (fun _ => 9%N) (fun _ => 100%N) (fun _ => 50%N).
Definition no_skills : Skills := mk_skills (Some "skills: none"%string) (fun _ => None) (fun _ => None).
Fixpoint repeated (n : nat) (s : string) : string :=
  match n with 0 => "" | S n => (s +:+ repeated n s)%string end.
Definition prose : string := repeated 500 "the quick brown fox ".
Definition session : list op :=
  [OpWindow 8192; OpAppend (Ok 0%Z) (system [Text "be brief"]);
   OpAppend (Ok 1%Z) (user [Text prose]); OpAppend (Ok 2%Z) (assistant [Text "done"]);
   OpAppend (Ok 3%Z) (assistant [ToolUse "t1" "Read" JNull None]);
   OpAppend (Ok 4%Z) (tool [ToolResult "t1" "contents" None])].
Definition cm : ContextManager := @after tok no_skills 2 DEFAULT_THRESHOLD 1000 None session.
Definition answers : Answers :=
  mk_answers (fun _ => Ok "<summary>a fox</summary>"%string) "/log" (Some "be briefer"%string) (Persona []) true.
Definition useless : Answers :=
  mk_answers (fun _ => Ok prose) "/log" None (Persona []) true.
End Sample.
#[local] Existing Instance Sample.tok.

Lemma fitting_candidate_applied_witness :
  (exists sliced, compaction_fits Sample.no_skills Sample.cm
     (candidate Sample.answers Sample.cm "a fox" sliced) = true)
  /\ exists new, run_compression Sample.no_skills Sample.answers Sample.cm = (new, Compressed).
Proof.
  assert (Hf : exists sliced, compaction_fits Sample.no_skills Sample.cm
     (candidate Sample.answers Sample.cm "a fox" sliced) = true)
    by (exists true; vm_compute; reflexivity).
  split; [exact Hf|].
  destruct (fitting_candidate_applied Sample.no_skills Sample.answers Sample.cm "a fox") as (s & _ & _ & _ & E).
  - split; [vm_compute; reflexivity|]. exists "<summary>a fox</summary>"%string.
    split; vm_compute; reflexivity.
  - exact Hf.
  - eexists. exact E.
Defined.

Lemma compaction_all_or_nothing_witness :
  let r := run_compression Sample.no_skills Sample.answers Sample.cm in
  r.2 = Compressed
  /\ length (messages r.1) = 6
  /\ exists summary, usable Sample.answers Sample.cm summary.
Proof.
  cbv zeta. assert (Ho : (run_compression Sample.no_skills Sample.answers Sample.cm).2 = Compressed)
    by (vm_compute; reflexivity).
  split; [exact Ho|]. split; [vm_compute; reflexivity|].
  destruct (proj2 (compaction_all_or_nothing Sample.no_skills Sample.answers Sample.cm _ _
    (surjective_pairing _)) Ho) as (s & _ & _ & Hu & _).
  exists s. exact Hu.
Defined.

Lemma prices_in_lockstep_witness : length (messages Sample.cm) = 5 /\ wf Sample.cm.
Proof.
  split; [vm_compute; reflexivity|].
  exact (prices_in_lockstep Sample.no_skills 2 DEFAULT_THRESHOLD 1000 None Sample.session).
Defined.

Lemma no_savings_latched_witness :
  let r := maybe_compress Sample.no_skills "m" [] Sample.useless Sample.cm in
  r.2 = NoSavings
  /\ ((maybe_compress Sample.no_skills "m2" [mk_tool "Read" "reads a file" "{}"] Sample.useless r.1).2 = BelowThreshold
      \/ (maybe_compress Sample.no_skills "m2" [mk_tool "Read" "reads a file" "{}"] Sample.useless r.1).2 = NoSavings).
Proof.
  cbv zeta.
  assert (Ho : maybe_compress Sample.no_skills "m" [] Sample.useless Sample.cm
               = ((maybe_compress Sample.no_skills "m" [] Sample.useless Sample.cm).1, NoSavings))
    by (vm_compute; reflexivity).
  split; [vm_compute; reflexivity|].
  destruct (no_savings_latched Sample.no_skills "m" "m2" [] [mk_tool "Read" "reads a file" "{}"] Sample.useless Sample.cm _ Ho)
    as [H | [H _]]; [left | right]; exact H.
Defined.
End ContextManager.
