(* ===== verification/Skill.v ===== *)
(** * Skills: the registry and what a session is shown of it
      ([crates/skills/src/registry.rs], [render.rs], [tools.rs];
       [crates/context/src/lib.rs])

    The registry scoped by agent, its reload from disk, the listing and the
    definition blocks a session is shown, and the [/command] that names a skill.
    The two regular expressions that neutralise an envelope are the engine's:
    their [replace_all] is an argument. *)

From S2P Require Import Prelude Message Wire Tokens ContextManager.
Import Message Wire Tokens.

Module Skill.

Inductive TrustLevel := Trusted | Installed | Untrusted.
#[global] Instance TrustLevel_eq_dec : EqDecision TrustLevel.
Proof. solve_decision. Defined.

(** [SkillDefinition]: the fields the code below reads; [linked_files] are its
    paths in [iter_paths] order. *)
Record SkillDefinition := mk_skill {
  name : string;
  version : string;
  description : string;
  command : option string;
  agent_invocable : bool;
  channels : list string;
  argument_hint : option string;
  prompt_template : string;
  trust_level : TrustLevel;
  linked_files : list string;
}.
Definition set_template (t : string) (s : SkillDefinition) : SkillDefinition :=
  mk_skill (name s) (version s) (description s) (command s) (agent_invocable s) (channels s)
    (argument_hint s) t (trust_level s) (linked_files s).

Record SkillSummary := mk_summary {
  sum_name : string;
  sum_command : option string;
  sum_description : string;
  sum_argument_hint : option string;
  sum_agent_invocable : bool;
  sum_channels : list string;
  sum_trust_level : TrustLevel;
}.
Definition summary (s : SkillDefinition) : SkillSummary :=
  mk_summary (name s) (command s) (description s) (argument_hint s) (agent_invocable s)
    (channels s) (trust_level s).
Definition allows_channel (channel : string) (s : SkillSummary) : bool :=
  bool_decide (sum_channels s = []) || bool_decide (channel ∈ sum_channels s).

(** ** The registry *)

Definition UNIVERSAL_SKILLS : list string := ["baybo-cli"; "baybo-help"].
Definition BUILTIN_AGENT_PROFILE_ID : string := "baybo".
Definition is_builtin (agent : string) : bool := String.eqb agent BUILTIN_AGENT_PROFILE_ID.

Abbreviation Skills := (gmap string SkillDefinition).
Record SkillRegistry := mk_registry {
  builtin_skills : Skills;
  builtin_seed : list SkillDefinition;
  agent_skills : gmap string Skills;
  agent_dirs : list (string * string);
}.
Definition new : SkillRegistry := mk_registry ∅ [] ∅ [].

Definition insert_skill (m : Skills) (s : SkillDefinition) : Skills := <[name s := s]> m.
Definition by_name (l : list SkillDefinition) : Skills := foldl insert_skill ∅ l.

Definition register (s : SkillDefinition) (r : SkillRegistry) : SkillRegistry :=
  mk_registry (insert_skill (builtin_skills r) s) (builtin_seed r) (agent_skills r) (agent_dirs r).
Definition register_builtins (all : list SkillDefinition) (r : SkillRegistry) : SkillRegistry * nat :=
  let r := foldl (fun r s => register s r) r all in
  (mk_registry (builtin_skills r) all (agent_skills r) (agent_dirs r), length all).

Section Disk.
(** The definitions found under a directory, in the order the file system lists
    them; [None] when it is not a directory.  What does not parse is skipped. *)
Context (disk : string -> option (list SkillDefinition)).

Definition scan_agent_dir_into (dir : string) : Skills * nat :=
  match disk dir with
  | None => (∅, 0)
  | Some found => (by_name found, length found)
  end.

Definition reload (r : SkillRegistry) : SkillRegistry * nat :=
  let builtins := by_name (builtin_seed r) in
  let per_agent :=
    foldl (fun m d => <[d.1 := (scan_agent_dir_into d.2).1]> m) ∅ (agent_dirs r) in
  (mk_registry builtins (builtin_seed r) per_agent (agent_dirs r),
   size builtins + map_fold (fun _ own n => size own + n) 0 per_agent).

Definition agent_dir_loaded (agent : string) (r : SkillRegistry) : bool :=
  existsb (fun d => String.eqb d.1 agent) (agent_dirs r).
Definition load_agent_dir (agent dir : string) (r : SkillRegistry) : SkillRegistry * nat :=
  match disk dir with
  | None => (r, 0)
  | Some _ =>
      let dirs :=
        if existsb (fun d => String.eqb d.1 agent && String.eqb d.2 dir) (agent_dirs r)
        then agent_dirs r else agent_dirs r ++ [(agent, dir)] in
      let (loaded, count) := scan_agent_dir_into dir in
      (mk_registry (builtin_skills r) (builtin_seed r) (<[agent := loaded]> (agent_skills r)) dirs, count)
  end.
(** [dir_of] is the agent's skill directory in the workspace. *)
Definition ensure_agent_skills (dir_of : string -> string) (agent : string) (r : SkillRegistry)
    : SkillRegistry * nat :=
  if agent_dir_loaded agent r then (r, 0) else load_agent_dir agent (dir_of agent) r.
End Disk.

Definition sees_every_builtin (agent : option string) : bool :=
  match agent with None => true | Some a => is_builtin a end.
Definition owner (agent : option string) : string := default BUILTIN_AGENT_PROFILE_ID agent.
Definition admits (agent : option string) (n : string) : bool :=
  sees_every_builtin agent || bool_decide (n ∈ UNIVERSAL_SKILLS).

Definition get_scoped (agent : option string) (n : string) (r : SkillRegistry)
    : option SkillDefinition :=
  match agent_skills r !! owner agent ≫= (fun own => own !! n) with
  | Some s => Some s
  | None => if admits agent n then builtin_skills r !! n else None
  end.

Definition merged (agent : option string) (r : SkillRegistry) : Skills :=
  default ∅ (agent_skills r !! owner agent)
  ∪ filter (fun x => admits agent x.1 = true) (builtin_skills r).
Definition name_le (a b : string * SkillDefinition) : Prop := String.le a.1 b.1.
#[global] Instance name_le_dec : RelDecision name_le.
Proof. intros a b. unfold name_le. apply _. Defined.
#[global] Instance name_le_total : Total name_le.
Proof. intros a b. unfold name_le. apply (base.total String.le). Qed.
#[global] Instance name_le_trans : Transitive name_le.
Proof. intros a b c. unfold name_le. apply (transitivity (R := String.le)). Qed.
Definition all_scoped (agent : option string) (r : SkillRegistry) : list SkillDefinition :=
  map snd (merge_sort name_le (map_to_list (merged agent r))).
Definition summaries_for (agent : option string) (r : SkillRegistry) : list SkillSummary :=
  map summary (all_scoped agent r).

Definition search (agent : option string) (query : string) (r : SkillRegistry)
    : list SkillDefinition :=
  let needle := Str.to_ascii_lowercase (Str.trim query) in
  let hit s := Str.contains needle (Str.to_ascii_lowercase s) in
  List.filter (fun s =>
      String.eqb needle "" || (hit (name s) || hit (description s))
      || match command s with Some c => hit ("/" +:+ c)%string | None => false end)
    (all_scoped agent r).

(** ** What a session may use ([crates/context/src/lib.rs]) *)

Definition skill_scope (agent : option string) : option string :=
  match agent with Some a => if is_builtin a then None else Some a | None => None end.
Definition trusted (s : SkillSummary) : bool := negb (bool_decide (sum_trust_level s = Untrusted)).
Definition invocable_skill_summaries (agent : option string) (channel : string) (r : SkillRegistry)
    : list SkillSummary :=
  List.filter (fun s => sum_agent_invocable s && trusted s && allows_channel channel s)
    (summaries_for (skill_scope agent) r).
Definition slash_skill_summaries (agent : option string) (channel : string) (r : SkillRegistry)
    : list SkillSummary :=
  List.filter (fun s => is_some (sum_command s) && trusted s && allows_channel channel s)
    (summaries_for (skill_scope agent) r).

Definition detect_slash_invocation (user_text : string) (skills : list SkillSummary)
    : option (string * string) :=
  match Str.strip_prefix "/" (Str.trim_start user_text) with
  | None => None
  | Some rest =>
      let (cmd, args) := match Str.split_at_white rest with
                         | Some (a, b) => (a, Str.trim b)
                         | None => (rest, ""%string)
                         end in
      if String.eqb cmd "" then None
      else (fun s => (sum_name s, args))
             <$> find_first (fun s => bool_decide (sum_command s = Some cmd)) skills
  end.

(** ** Rendering *)

Section Render.
Context (escape_listing escape_skill_content : string -> string).

Definition REMINDER_OPEN : string := "<system-reminder>" +:+ newline.
Definition REMINDER_CLOSE : string := newline +:+ "</system-reminder>".
Definition REMINDER_HEADER : string :=
  "The following skills are available for use with the Skill tool:" +:+ newline +:+ newline.
Definition REMINDER_EMPTY : string := "No skills are currently available.".

Definition one_line (text : string) : string := escape_listing (joined " " (Str.words text)).
Definition listing_line (s : SkillSummary) : string :=
  ("- " +:+ sum_name s +:+ ": " +:+ one_line (sum_description s)
   +:+ match sum_argument_hint s with Some h => " " +:+ one_line h | None => "" end)%string.
Definition render_skill_listing (l : list SkillSummary) : string := joined newline (map listing_line l).
Definition render_skill_reminder (l : list SkillSummary) : string :=
  let body := match l with
              | [] => REMINDER_EMPTY
              | _ => (REMINDER_HEADER +:+ render_skill_listing l)%string
              end in
  (REMINDER_OPEN +:+ body +:+ REMINDER_CLOSE)%string.
Definition skill_reminder_listing (reminder : string) : option string :=
  match Str.strip_prefix REMINDER_OPEN reminder ≫= Str.strip_suffix REMINDER_CLOSE with
  | None => None
  | Some body =>
      if String.eqb body REMINDER_EMPTY then Some ""%string else Str.strip_prefix REMINDER_HEADER body
  end.

Definition escape_skill_attr (s : string) : string :=
  Str.replace ">" "&gt;" (Str.replace "<" "&lt;"
    (Str.replace "'" "&apos;" (Str.replace dquote "&quot;" (Str.replace "&" "&amp;" s)))).
Definition render_skill_block (s : SkillDefinition) : string :=
  ("<skill name=" +:+ dquote +:+ escape_skill_attr (name s) +:+ dquote +:+ " version=" +:+ dquote
   +:+ escape_skill_attr (version s) +:+ dquote +:+ ">" +:+ newline
   +:+ escape_skill_content (prompt_template s) +:+ newline +:+ "</skill>")%string.

(** *** The definitions re-broadcast after a compaction *)

Context {T : Tokenizer}.

Definition PER_SKILL_TOKEN_CAP : N := 5000.
Definition TOTAL_SKILL_TOKEN_CAP : N := 25000.
Definition TRUNCATION_MARKER : string :=
  newline +:+ Str.bytes [226; 128; 166]%N +:+ "[truncated]".

Definition target_body_chars (body_chars full_cost cap : N) : N :=
  (N.min (N.min (body_chars * cap) USIZE_MAX / full_cost * 9) USIZE_MAX / 10)%N.
Definition render_skill_block_capped (s : SkillDefinition) (cap : N) : option string :=
  let full := render_skill_block s in
  let full_cost := text_tokens full in
  if (full_cost <=? cap)%N then Some full
  else
    let body_chars := N.of_nat (Str.char_count (prompt_template s)) in
    if (body_chars =? 0)%N then None
    else
      let target := target_body_chars body_chars full_cost cap in
      if (target =? 0)%N then None
      else
        let body := (Str.take_chars (N.to_nat target) (prompt_template s) +:+ TRUNCATION_MARKER)%string in
        let rendered := render_skill_block (set_template body s) in
        if (cap <? text_tokens rendered)%N then None else Some rendered.

Fixpoint detail_blocks (lookup : string -> option SkillDefinition) (total : N) (called : list string)
    : list string :=
  match called with
  | [] => []
  | n :: called =>
      match lookup n with
      | None => detail_blocks lookup total called
      | Some s =>
          let left := (TOTAL_SKILL_TOKEN_CAP - total)%N in
          if (left =? 0)%N then []
          else
            match render_skill_block_capped s (N.min left PER_SKILL_TOKEN_CAP) with
            | None => detail_blocks lookup total called
            | Some b => b :: detail_blocks lookup (total + text_tokens b) called
            end
      end
  end.
Definition DETAIL_OPEN : string :=
  "<system-reminder>" +:+ newline
  +:+ "Full definitions for skills referenced in the conversation summary above:"
  +:+ newline +:+ newline.
Definition build_skill_detail_payload (lookup : string -> option SkillDefinition)
    (called : list string) : option string :=
  match detail_blocks lookup 0 called with
  | [] => None
  | blocks => Some (DETAIL_OPEN +:+ joined blank_line blocks +:+ newline +:+ "</system-reminder>")%string
  end.

(** What the context manager asks of the registry, for one session. *)
Definition answers (agent : option string) (channel : string) (r : SkillRegistry)
    : ContextManager.Skills :=
  let advertised := invocable_skill_summaries agent channel r in
  ContextManager.mk_skills
    match advertised with [] => None | _ => Some (render_skill_reminder advertised) end
    (build_skill_detail_payload (fun n => get_scoped (skill_scope agent) n r))
    (fun text => fst <$> detect_slash_invocation text advertised).
End Render.

(** *** Slash expansion ([crates/skills/src/tools.rs]) *)

Definition SESSION_ID_TOKEN : string := "{{session_id}}".
Definition render_skill_body (s : SkillDefinition) (session_id : string) : string :=
  Str.replace SESSION_ID_TOKEN session_id (prompt_template s).
Definition SLASH_LINKED_FILES_HINT : string :=
  ("<system-reminder>" +:+ newline
   +:+ "The " +:+ dquote +:+ "{{skill_name}}" +:+ dquote
   +:+ " skill ships linked files. To read one, call the {{tool_name}} tool with `skill` set to "
   +:+ dquote +:+ "{{skill_name}}" +:+ dquote +:+ " and `file_path` set to one of:" +:+ newline
   +:+ "{{file_list}}" +:+ newline +:+ "</system-reminder>")%string.
Definition render_linked_files_hint (s : SkillDefinition) : option string :=
  match linked_files s with
  | [] => None
  | files =>
      let file_list := joined newline (map (fun p => "- " +:+ p)%string files) in
      Some (Str.replace "{{file_list}}" file_list
              (Str.replace "{{tool_name}}" ContextManager.SKILL_TOOL_NAME
                 (Str.replace "{{skill_name}}" (name s) SLASH_LINKED_FILES_HINT)))
  end.
Definition render_skill_for_slash (s : SkillDefinition) (session_id : string) : string :=
  (render_skill_body s session_id
   +:+ match render_linked_files_hint s with Some h => blank_line +:+ h | None => "" end)%string.

(** ** The registry's histories *)

Inductive op :=
| OpRegister (s : SkillDefinition)
| OpBuiltins (all : list SkillDefinition)
| OpEnsure (disk : string -> option (list SkillDefinition)) (agent : string)
| OpReload (disk : string -> option (list SkillDefinition)).
Definition run_op (dir_of : string -> string) (r : SkillRegistry) (o : op) : SkillRegistry :=
  match o with
  | OpRegister s => register s r
  | OpBuiltins all => (register_builtins all r).1
  | OpEnsure disk agent => (ensure_agent_skills disk dir_of agent r).1
  | OpReload disk => (reload disk r).1
  end.
Definition run (dir_of : string -> string) (os : list op) : SkillRegistry :=
  foldl (run_op dir_of) new os.

(** Every skill is filed under its own name. *)
Definition named (m : Skills) : Prop := map_Forall (fun n s => name s = n) m.
Record registry_ok (dir_of : string -> string) (r : SkillRegistry) : Prop := mk_ok {
  ok_builtins : named (builtin_skills r);
  ok_own : map_Forall (fun _ own => named own) (agent_skills r);
  ok_dirs : Forall (fun d => d.2 = dir_of d.1) (agent_dirs r);
  ok_loaded a : is_Some (agent_skills r !! a) -> agent_dir_loaded a r = true;
}.

Lemma named_insert m s : named m -> named (insert_skill m s).
Proof. intros H. by apply map_Forall_insert_2. Qed.
Lemma named_by_name l : named (by_name l).
Proof.
  unfold by_name. assert (H : named ∅) by apply map_Forall_empty. revert H.
  generalize (∅ : Skills) as m. induction l as [|s l IH]; intros m H; [done|].
  apply IH, named_insert, H.
Qed.

(** The last definition of a name wins. *)
Lemma by_name_lookup l n :
  by_name l !! n = find_first (fun s => String.eqb (name s) n) (rev l).
Proof.
  unfold by_name. induction l as [|s l IH] using rev_ind; [done|].
  rewrite foldl_app, rev_app_distr. cbn [rev app foldl find_first].
  change (insert_skill ?m s) with (<[name s := s]> m).
  destruct (String.eqb_spec (name s) n) as [->|Hne]; [by rewrite lookup_insert_eq|].
  by rewrite lookup_insert_ne.
Qed.

Lemma scan_named disk dir : named (scan_agent_dir_into disk dir).1.
Proof.
  unfold scan_agent_dir_into. destruct (disk dir); [apply named_by_name | apply map_Forall_empty].
Qed.

Definition rescan (disk : string -> option (list SkillDefinition)) (m : gmap string Skills)
    (d : string * string) : gmap string Skills := <[d.1 := (scan_agent_dir_into disk d.2).1]> m.

Lemma rescan_lookup disk dir_of dirs a m : Forall (fun d => d.2 = dir_of d.1) dirs ->
  foldl (rescan disk) m dirs !! a
  = if existsb (fun d => String.eqb d.1 a) dirs then Some (scan_agent_dir_into disk (dir_of a)).1
    else m !! a.
Proof.
  intros H. revert m. induction H as [|[b dir] dirs Hd _ IH]; intros m; [done|]. cbn [foldl existsb fst].
  rewrite IH. unfold rescan at 1. cbn [fst snd] in *. destruct (existsb _ dirs); [by rewrite orb_true_r|].
  rewrite orb_false_r. destruct (String.eqb_spec b a) as [->|Hne].
  - by rewrite lookup_insert_eq, Hd.
  - by rewrite lookup_insert_ne.
Qed.

Lemma rescan_own disk dirs m :
  map_Forall (fun _ own => named own) m -> map_Forall (fun _ own => named own) (foldl (rescan disk) m dirs).
Proof.
  revert m. induction dirs as [|d dirs IH]; intros m H; [done|].
  apply IH, map_Forall_insert_2; [apply scan_named | exact H].
Qed.

Lemma builtins_fields all r :
  agent_skills (register_builtins all r).1 = agent_skills r
  /\ agent_dirs (register_builtins all r).1 = agent_dirs r
  /\ builtin_seed (register_builtins all r).1 = all
  /\ (named (builtin_skills r) -> named (builtin_skills (register_builtins all r).1)).
Proof.
  unfold register_builtins. cbn [fst agent_skills agent_dirs builtin_skills builtin_seed].
  enough (forall l r, let r' := foldl (fun r s => register s r) r l in
    agent_skills r' = agent_skills r /\ agent_dirs r' = agent_dirs r
    /\ (named (builtin_skills r) -> named (builtin_skills r'))) as H
    by (destruct (H all r) as (-> & -> & Hn); done).
  intros l. induction l as [|s l IH]; intros r0; [done|]. cbn [foldl].
  destruct (IH (register s r0)) as (-> & -> & Hn). split_and!; [done | done |].
  intros Hr. by apply Hn, named_insert.
Qed.

Lemma ok_run_op dir_of r o : registry_ok dir_of r -> registry_ok dir_of (run_op dir_of r o).
Proof.
  intros [Hb Ho Hd Hl]. destruct o as [s|all|disk a|disk]; cbn [run_op].
  - split; [by apply named_insert | exact Ho | exact Hd | exact Hl].
  - destruct (builtins_fields all r) as (Ea & Ed & _ & Hn). split.
    + by apply Hn.
    + by rewrite Ea.
    + by rewrite Ed.
    + intros x. unfold agent_dir_loaded. rewrite Ea, Ed. apply Hl.
  - unfold ensure_agent_skills. destruct (agent_dir_loaded a r) eqn:El; [by split|].
    unfold load_agent_dir. destruct (disk (dir_of a)) as [found|] eqn:Ef; [|by split].
    assert (existsb (fun d => String.eqb d.1 a && String.eqb d.2 (dir_of a)) (agent_dirs r) = false) as ->.
    { apply not_true_iff_false. intros (d & Hin & [H1 _]%andb_true_iff)%existsb_exists.
      unfold agent_dir_loaded in El. apply not_true_iff_false in El. apply El, existsb_exists. by exists d. }
    pose proof (scan_named disk (dir_of a)) as Hs. destruct (scan_agent_dir_into disk (dir_of a)) as [own k].
    split; cbn [fst builtin_skills agent_skills agent_dirs].
    + exact Hb.
    + by apply map_Forall_insert_2.
    + apply Forall_app. split; [exact Hd | by repeat constructor].
    + intros x Hx. unfold agent_dir_loaded. cbn [agent_dirs]. rewrite existsb_app. cbn.
      destruct (String.eqb_spec a x) as [->|Hne]; [by rewrite orb_true_r|].
      rewrite lookup_insert_ne in Hx by done. pose proof (Hl x Hx) as E. unfold agent_dir_loaded in E.
      by rewrite E.
  - unfold reload. split; cbn [fst builtin_skills agent_skills agent_dirs].
    + apply named_by_name.
    + apply (rescan_own disk (agent_dirs r) ∅), map_Forall_empty.
    + exact Hd.
    + intros x [own Hx]. change (foldl _ ∅ (agent_dirs r)) with (foldl (rescan disk) ∅ (agent_dirs r)) in Hx.
      rewrite (rescan_lookup disk dir_of) in Hx by done. unfold agent_dir_loaded. cbn [agent_dirs].
      by destruct (existsb _ _).
Qed.

Lemma ok_run dir_of os : registry_ok dir_of (run dir_of os).
Proof.
  unfold run. assert (H : registry_ok dir_of new).
  { split; [apply map_Forall_empty | apply map_Forall_empty | constructor |]. intros a [? Ha]. discriminate Ha. }
  revert H. generalize new as r. induction os as [|o os IH]; intros r H; [done|].
  apply IH, ok_run_op, H.
Qed.

(** ** Listing and lookup *)

Lemma filtered_lookup agent r n :
  filter (fun x => admits agent x.1 = true) (builtin_skills r) !! n
  = if admits agent n then builtin_skills r !! n else None.
Proof.
  rewrite map_lookup_filter. destruct (builtin_skills r !! n); cbn; [|by destruct (admits agent n)].
  destruct (admits agent n) eqn:E; [by rewrite option_guard_True | by rewrite option_guard_False].
Qed.
Lemma merged_lookup agent r n : merged agent r !! n = get_scoped agent n r.
Proof.
  unfold merged, get_scoped. rewrite lookup_union, filtered_lookup.
  destruct (agent_skills r !! owner agent) as [own|]; cbn.
  - destruct (own !! n) as [s|]; [|by rewrite (left_id_L None _)].
    by destruct (if admits agent n then _ else _).
  - by rewrite lookup_empty, (left_id_L None _).
Qed.

Lemma merged_named dir_of agent r : registry_ok dir_of r -> named (merged agent r).
Proof.
  intros [Hb Ho _ _] n s. rewrite merged_lookup. unfold get_scoped.
  destruct (agent_skills r !! owner agent) as [own|] eqn:Ea; cbn [mbind option_bind].
  - specialize (Ho _ _ Ea). destruct (own !! n) eqn:En; [intros [= <-]; by apply Ho|].
    destruct (admits agent n); [apply Hb | done].
  - destruct (admits agent n); [apply Hb | done].
Qed.

Lemma scoped_names dir_of agent r : registry_ok dir_of r ->
  map sum_name (summaries_for agent r)
  = map fst (merge_sort name_le (map_to_list (merged agent r))).
Proof.
  intros H. unfold summaries_for, all_scoped. rewrite !map_map. apply map_ext_in.
  intros [n s] Hin%list_elem_of_In. cbn. rewrite merge_sort_Permutation in Hin.
  by apply (merged_named dir_of agent r H), elem_of_map_to_list.
Qed.

(** An agent's skill listing and the lookup behind the [Skill] tool agree
    after any history of the registry: a summary is listed exactly when looking
    its name up in the same scope finds the definition it summarises, and the
    names come sorted, each once. *)
Theorem listing_matches_lookup (dir_of : string -> string) (os : list op) (agent : option string) :
  let r := run dir_of os in
  (forall s, s ∈ summaries_for agent r
     <-> exists d, get_scoped agent (sum_name s) r = Some d /\ s = summary d)
  /\ StronglySorted String.le (map sum_name (summaries_for agent r))
  /\ NoDup (map sum_name (summaries_for agent r)).
Proof.
  cbv zeta. pose proof (ok_run dir_of os) as Hok. revert Hok. generalize (run dir_of os) as r. intros r Hok.
  pose proof (merged_named dir_of agent r Hok) as Hn. split_and!.
  - intros s. unfold summaries_for, all_scoped. rewrite map_map. split.
    + intros ([n d] & -> & Hin)%list_elem_of_fmap. rewrite merge_sort_Permutation in Hin.
      apply elem_of_map_to_list in Hin as Hl. cbn. rewrite (Hn n d Hl) in *.
      exists d. by rewrite <- merged_lookup.
    + intros (d & Hg & ->). apply list_elem_of_fmap. exists (name d, d). split; [done|].
      rewrite merge_sort_Permutation. apply elem_of_map_to_list. by rewrite merged_lookup.
  - rewrite (scoped_names dir_of) by done.
    pose proof (StronglySorted_merge_sort name_le (map_to_list (merged agent r))) as Hs.
    induction Hs as [|x l Hs IH Hf]; cbn; constructor; [exact IH|].
    apply Forall_map. exact Hf.
  - rewrite (scoped_names dir_of) by done.
    rewrite (Permutation_map fst (merge_sort_Permutation name_le _)). apply NoDup_fst_map_to_list.
Qed.

(** A reload makes the disk authoritative: whatever the registry went
    through, afterwards each scope sees the last definition of a name in its own
    directory as it is on disk now, else the compiled-in one if the scope admits
    it, and nothing of any other agent's. *)
Theorem reload_reflects_disk (dir_of : string -> string) (os : list op)
    (disk : string -> option (list SkillDefinition)) (agent : option string) (n : string) :
  let r := run dir_of os in
  let last_named l := find_first (fun s => String.eqb (name s) n) (rev l) in
  get_scoped agent n (reload disk r).1
  = match (if agent_dir_loaded (owner agent) r then disk (dir_of (owner agent)) else None) ≫= last_named with
    | Some s => Some s
    | None => if admits agent n then last_named (builtin_seed r) else None
    end.
Proof.
  cbv zeta. destruct (ok_run dir_of os) as [_ _ Hd _]. revert Hd. generalize (run dir_of os) as r. intros r Hd.
  unfold get_scoped, reload. cbn [fst agent_skills builtin_skills].
  change (foldl _ ∅ (agent_dirs r)) with (foldl (rescan disk) ∅ (agent_dirs r)).
  rewrite (rescan_lookup disk dir_of) by done. rewrite by_name_lookup, lookup_empty.
  change (existsb _ (agent_dirs r)) with (agent_dir_loaded (owner agent) r).
  destruct (agent_dir_loaded _ r); [|done]. cbn [mbind option_bind]. unfold scan_agent_dir_into.
  destruct (disk _) as [found|]; cbn; [by rewrite by_name_lookup | by rewrite lookup_empty].
Qed.

(** ** What a session is shown *)

Section Shown.
Context (escape_listing escape_skill_content : string -> string) {T : Tokenizer}.

Lemma reminder_reads_back (l : list SkillSummary) :
  skill_reminder_listing (render_skill_reminder escape_listing l)
  = Some (render_skill_listing escape_listing l).
Proof.
  unfold skill_reminder_listing, render_skill_reminder. rewrite Str.strip_prefix_app.
  cbn [mbind option_bind]. destruct l as [|s l].
  - rewrite Str.strip_suffix_app. reflexivity.
  - rewrite Str.strip_suffix_app.
    assert (String.eqb (REMINDER_HEADER +:+ render_skill_listing escape_listing (s :: l)) REMINDER_EMPTY = false)
      as -> by reflexivity.
    apply Str.strip_prefix_app.
Qed.

(** The listing a session was shown can be read back off its row: parsing a
    rendered reminder gives exactly the listing it was rendered from, the empty
    set included. *)
Theorem reminder_listing_roundtrip (l : list SkillSummary) :
  skill_reminder_listing (render_skill_reminder escape_listing l)
  = Some (render_skill_listing escape_listing l).
Proof. apply reminder_reads_back. Qed.

(** A block is the skill's own rendering, its body possibly cut and marked. *)
Definition definition_of (s : SkillDefinition) (b : string) : Prop :=
  b = render_skill_block escape_skill_content s
  \/ exists k, b = render_skill_block escape_skill_content
                     (set_template (Str.take_chars k (prompt_template s) +:+ TRUNCATION_MARKER)%string s).

Lemma capped_spec s cap b : render_skill_block_capped escape_skill_content s cap = Some b ->
  (text_tokens b <= cap)%N /\ definition_of s b.
Proof.
  unfold render_skill_block_capped.
  destruct (N.leb_spec (text_tokens (render_skill_block escape_skill_content s)) cap) as [Hle|_].
  { intros [= <-]. split; [exact Hle | by left]. }
  destruct (_ =? 0)%N; [done|]. destruct (_ =? 0)%N; [done|].
  match goal with |- context [(cap <? ?n)%N] => destruct (N.ltb_spec cap n) as [|Hle]; [done|] end.
  intros [= <-]. split; [exact Hle|]. right. by eexists.
Qed.

(** The definitions re-broadcast after a compaction stay within their
    budgets: together at most 25,000 tokens, each at most 5,000, whatever the
    tokenizer and however many skills were called, and every one is the
    rendering of a called skill, its body cut at most at the end. *)
Theorem detail_payload_bounded (lookup : string -> option SkillDefinition) (called : list string) :
  let blocks := detail_blocks escape_skill_content lookup 0 called in
  (sum_N (map text_tokens blocks) <= TOTAL_SKILL_TOKEN_CAP)%N
  /\ Forall (fun b => (text_tokens b <= PER_SKILL_TOKEN_CAP)%N
                      /\ exists n s, n ∈ called /\ lookup n = Some s /\ definition_of s b) blocks.
Proof.
  cbv zeta. enough (forall total, (total <= TOTAL_SKILL_TOKEN_CAP)%N ->
    let blocks := detail_blocks escape_skill_content lookup total called in
    (total + sum_N (map text_tokens blocks) <= TOTAL_SKILL_TOKEN_CAP)%N
    /\ Forall (fun b => (text_tokens b <= PER_SKILL_TOKEN_CAP)%N
                        /\ exists n s, n ∈ called /\ lookup n = Some s /\ definition_of s b) blocks) as H
    by (destruct (H 0%N ltac:(unfold TOTAL_SKILL_TOKEN_CAP; lia)) as [H1 H2]; split; [lia | exact H2]).
  induction called as [|n called IH]; intros total Ht; cbn [detail_blocks]; cbv zeta; [split; [cbn; lia | constructor]|].
  assert (Hskip : forall bs,
    Forall (fun b => (text_tokens b <= PER_SKILL_TOKEN_CAP)%N
                     /\ exists m s, m ∈ called /\ lookup m = Some s /\ definition_of s b) bs ->
    Forall (fun b => (text_tokens b <= PER_SKILL_TOKEN_CAP)%N
                     /\ exists m s, m ∈ n :: called /\ lookup m = Some s /\ definition_of s b) bs).
  { intros bs H. eapply Forall_impl; [exact H|]. intros b (H1 & m & s & H2 & H3). split; [exact H1|].
    exists m, s. split; [by right | exact H3]. }
  destruct (lookup n) as [s|] eqn:En.
  2: { destruct (IH total Ht) as [H1 H2]. split; [exact H1 | by apply Hskip]. }
  destruct (_ =? 0)%N; [split; [cbn; lia | constructor]|].
  destruct (render_skill_block_capped _ s _) as [b|] eqn:Eb.
  2: { destruct (IH total Ht) as [H1 H2]. split; [exact H1 | by apply Hskip]. }
  apply capped_spec in Eb as [Hle Hd].
  destruct (IH (total + text_tokens b)%N) as [H1 H2]; [lia|]. split; [cbn [map sum_N]; lia|].
  constructor; [|by apply Hskip]. split; [lia|]. exists n, s. split; [by left | done].
Qed.
End Shown.

End Skill.
