(* ===== verification/Hydration.v ===== *)
(** * Cold start, token anchors and trace markers
      ([crates/context/src/lib.rs], [crates/query/src/lib.rs])

    The context manager against its session's log: the load that brings a
    transcript back after a restart, the provider's token count made durable as
    an anchor and resumed from it, the marker a trace span carries in place of a
    copy of the request, and the reader that turns a marker back into messages.

    A store call that may fail is given the answer it gets; what the store then
    holds is computed by [SessionLog].  Each operation runs against one state of
    the log: between its own store calls nothing else writes the session. *)

From S2P Require Import Prelude Message Wire Tokens Compaction TranscriptRepair ContextManager SessionLog.
Import Message Wire Tokens ContextManager SessionLog.

Module Hydration.

Section Manager.
Context {T : Tokenizer} (skills : Skills) {C : Chrono}.

(** ** Loading the transcript *)

(** The anchor and how many leading rows it covers, when it still describes
    them exactly: the rows up to the ordinal it was written at are all active
    and number what it counted. *)
Definition restorable_anchor_len (loaded : result (option TokenAnchor) string)
    (rows : list ActiveMessageRow) : option (TokenAnchor * nat) :=
  match loaded with
  | Ok (Some a) =>
      let covered := length (take_while (fun r => (row_ordinal r <=? through_ordinal a)%Z) rows) in
      if Nat.eqb covered (message_count a) && Nat.ltb 0 covered then Some (a, covered) else None
  | _ => None
  end.

Definition install_restored_anchor (a : TokenAnchor) (len : nat) (c : ContextManager) : ContextManager :=
  refresh_budget
    (set_baseline (Some (mk_baseline (SessionLog.actual_tokens a) len (SessionLog.request_overhead a)))
       (set_model (Some (model_id a)) c)).

(** Each synthetic fill is appended on its own; the durable rows are the loaded
    ones and the fills the store took. *)
Fixpoint persist_fills (taken : list (option Z)) (fills : list ChatMessage) (l : Log)
    : Log * list ChatMessage :=
  match fills with
  | [] => (l, [])
  | fill :: fills =>
      match taken with
      | Some now :: taken =>
          let (l, kept) := persist_fills taken fills (append_session_message now fill l).1 in
          (l, fill :: kept)
      | _ :: taken => persist_fills taken fills l
      | [] => persist_fills [] fills l
      end
  end.

(** [messages.get(..len)] *)
Definition prefix_of {A} (len : nat) (l : list A) : option (list A) :=
  if Nat.leb len (length l) then Some (take len l) else None.

Definition trusts_audio (len : nat) (c : ContextManager) : bool :=
  match audio_delivery c with Native => negb (carries_audio len c) | Stub => true end.

(** What the store answers while a transcript is restored: the rows, the
    anchor, and when each fill was taken ([None] when it was refused). *)
Record RestoreAnswers := mk_restore {
  rows_loaded : bool;
  anchor_loaded : bool;
  fills_taken : list (option Z);
}.

Definition restore_from_store (a : RestoreAnswers) (s : SessionStore) (c : ContextManager)
    : SessionStore * ContextManager :=
  if negb (rows_loaded a) then (s, c)
  else
    match load_active_session_message_rows (log s) with
    | [] => (s, c)
    | rows =>
        let anchor_rows :=
          restorable_anchor_len
            (if anchor_loaded a then Ok (load_token_anchor s) else Err "unavailable") rows in
        let original := map row_message rows in
        let repair := TranscriptRepair.repair_tool_pairing original in
        let (l, kept) := persist_fills (fills_taken a) (TranscriptRepair.fills repair) (log s) in
        let durable := original ++ kept in
        let c := restore_messages skills (TranscriptRepair.messages repair) c in
        let c := set_diverged (negb (bool_decide (messages c = durable))) c in
        let c :=
          match anchor_rows with
          | Some (an, len) =>
              if bool_decide (prefix_of len (messages c) = prefix_of len original)
                 && trusts_audio len c
              then install_restored_anchor an len c else c
          | None => c
          end in
        (mk_store l (anchor s), c)
    end.

(** ** The provider's count, kept *)

(** The count is always taken up in memory; it is written down only under a
    known model and a window the durable rows describe. *)
Definition record_call_actual_durably (taken : bool) (actual_input_tokens : N)
    (s : SessionStore) (c : ContextManager) : SessionStore * ContextManager :=
  let c' := record_call_actual actual_input_tokens c in
  if (actual_input_tokens =? 0)%N then (s, c')
  else
    match current_model c with
    | Some m =>
        if negb (persisted_order_diverged c) && taken then
          (record_token_anchor
             (mk_new_anchor m (actual_input_tokens - transient_tail_raw c) (length (messages c))
                (ContextManager.request_overhead c)) s, c')
        else (s, c')
    | None => (s, c')
    end.

(** ** Trace markers *)

Inductive LlmCallInputs :=
| Inline (ms : list ChatMessage)
| Persisted (last_ordinal : Z) (prefix_len : nat) (ordinals : list Z) (suffix : list ChatMessage).

(** Each message claims the first row of its content no earlier one claimed. *)
Fixpoint claim_row (m : ChatMessage) (rows : list (bool * ActiveMessageRow))
    : option (Z * list (bool * ActiveMessageRow)) :=
  match rows with
  | [] => None
  | (used, r) :: rows =>
      if negb used && bool_decide (row_message r = m) then Some (row_ordinal r, (true, r) :: rows)
      else
        match claim_row m rows with
        | Some (n, rows) => Some (n, (used, r) :: rows)
        | None => None
        end
  end.
Fixpoint claim_rows (ms : list ChatMessage) (rows : list (bool * ActiveMessageRow)) : option (list Z) :=
  match ms with
  | [] => Some []
  | m :: ms =>
      match claim_row m rows with
      | Some (n, rows) =>
          match claim_rows ms rows with Some ns => Some (n :: ns) | None => None end
      | None => None
      end
  end.
Definition explicit_message_ordinals (ms : list ChatMessage) (rows : list ActiveMessageRow)
    : option (list Z) :=
  match ms with
  | [] => match rows with [] => Some [] | _ => None end
  | _ => claim_rows ms (map (pair false) rows)
  end.

(** Which of the marker's reads are answered; the latest ordinal is asked for
    once per attempt. *)
Record MarkerReads := mk_reads {
  latest_read : bool; count_read : bool; latest_reread : bool; rows_read : bool;
}.

(** The compact marker: the active rows as of the last ordinal. *)
Definition compact_marker (r : MarkerReads) (l : Log) (c : ContextManager) : option (Z * nat) :=
  match (if latest_read r then latest_session_ordinal l else None) with
  | Some last =>
      let prefix_len := count_active_messages l in
      if count_read r && Nat.eqb prefix_len (length (messages c))
         && negb (persisted_order_diverged c)
      then Some (last, prefix_len) else None
  | None => None
  end.
(** The exact one: an ordinal per message of a window that differs. *)
Definition exact_marker (r : MarkerReads) (l : Log) (c : ContextManager) : option (Z * list Z) :=
  match (if latest_reread r then latest_session_ordinal l else None) with
  | Some last =>
      if rows_read r then
        pair last <$> explicit_message_ordinals (messages c) (load_active_session_message_rows l)
      else None
  | None => None
  end.
Definition input_marker_with_suffix (r : MarkerReads) (suffix : list ChatMessage) (l : Log)
    (c : ContextManager) : LlmCallInputs :=
  match compact_marker r l c with
  | Some (last, prefix_len) => Persisted last prefix_len [] suffix
  | None =>
      match exact_marker r l c with
      | Some (last, ns) => Persisted last (length ns) ns suffix
      | None => Inline (messages c ++ suffix)
      end
  end.

(** The notification cue is not a row, so the marker carries it. *)
Definition build_call_input_marker (r : MarkerReads) (cue : option ChatMessage) (l : Log)
    (c : ContextManager) : LlmCallInputs :=
  input_marker_with_suffix r
    (option_list (active_notification_cue (messages c) (transient_tail c cue))) l c.

(** ** Reading a marker back ([hydrate_persisted_trace_data]) *)

Definition reconstruction_warning (expected reconstructed : nat) : ChatMessage :=
  system [Text (Str.bytes [226; 154; 160; 239; 184; 143]%N
    +:+ " trace reconstruction inconsistent: expected " +:+ pretty expected
    +:+ " prefix message(s) from session_messages, reconstructed " +:+ pretty reconstructed
    +:+ ". The log drifted under this span's ordinal reference " +:+ Str.bytes [226; 128; 148]%N
    +:+ " the input shown may be incomplete or wrong.")%string].

Definition candidates (last : Z) (rows : list (StoredMessage * Z)) : list (StoredMessage * Z) :=
  List.filter (fun x => active_as_of last x.1) rows.

(** The rows named, in the order named; a repeated or missing name is flagged. *)
Fixpoint select_rows (seen : list Z) (ordinals : list Z) (rows : list (StoredMessage * Z))
    : list ChatMessage * bool :=
  match ordinals with
  | [] => ([], false)
  | n :: ns =>
      if bool_decide (n ∈ seen) then ((select_rows seen ns rows).1, true)
      else
        let (ms, bad) := select_rows (n :: seen) ns rows in
        match find_first (fun x => (ordinal x.1 =? n)%Z) rows with
        | Some x => (message x.1 :: ms, bad)
        | None => (ms, true)
        end
  end.

Definition hydrate_inputs (started_at : Z) (i : LlmCallInputs) (rows : list (StoredMessage * Z))
    : list ChatMessage :=
  match i with
  | Inline ms => ms
  | Persisted last prefix_len ordinals suffix =>
      let cand := candidates last rows in
      if existsb (fun x => (started_at <? x.2)%Z) cand then []
      else
        let (active, bad) :=
          match ordinals with
          | [] => (map (fun x => message x.1) cand, false)
          | _ => select_rows [] ordinals cand
          end in
        let active :=
          if negb (Nat.eqb (length active) prefix_len) || bad
          then reconstruction_warning prefix_len (length active) :: active else active in
        active ++ suffix
  end.

(** The span's input as the trace view gets it, from the log as it is then. *)
Definition replay_inputs (started_at : Z) (i : LlmCallInputs) (l : Log)
    : result (list ChatMessage) StorageError :=
  match i with
  | Inline ms => Ok ms
  | Persisted _ _ _ _ =>
      let? rows := load_session_messages_with_supersede l in Ok (hydrate_inputs started_at i rows)
  end.

(** ** A session: the manager and its store *)

Record Session := mk_session { store : SessionStore; manager : ContextManager }.

Definition with_log (l : Log) (s : SessionStore) : SessionStore := mk_store l (anchor s).

(** What happens to a session: its own appends (taken by the store or refused),
    a write by somebody else, a provider's count, a compaction, a change of
    model or of its leading row, and a restart on a fresh manager. *)
Inductive step_op :=
| Append (taken : bool) (now : Z) (m : ChatMessage)
| AppendOnce (taken : bool) (now : Z) (key : string) (m : ChatMessage)
| Foreign (now : Z) (m : ChatMessage)
| Actual (taken : bool) (n : N)
| Compact (now : Z) (model : string) (tools : list ToolDefinition) (a : Answers) (forced : bool)
| Local (o : ContextManager.op)
| Restart (keep : nat) (thr : f64) (max_active : N) (notice : option string) (audio : AudioDelivery)
    (window : N) (a : RestoreAnswers).

(** The operations of a manager that write nothing to the store. *)
Definition stays_local (o : ContextManager.op) : bool :=
  match o with
  | ContextManager.OpReplaceFirst _ | ContextManager.OpWindow _ | ContextManager.OpAudio _
  | ContextManager.OpReminder _ | ContextManager.OpObservation _ | ContextManager.OpNeeds _ _ => true
  | _ => false
  end.

(** A compaction that is applied is written down when the store takes it. *)
Definition compact_session (now : Z) (model : string) (tools : list ToolDefinition) (a : Answers)
    (forced : bool) (s : Session) : Session :=
  let (c, outcome) :=
    if forced then force_compress skills model tools a (manager s)
    else maybe_compress skills model tools a (manager s) in
  match outcome with
  | Compressed =>
      mk_session
        (if ContextManager.persisted a
         then with_log (apply_session_compaction now (messages c) (log (store s))).1 (store s)
         else store s) c
  | _ => mk_session (store s) c
  end.

Definition cm_outcome (o : SessionMessageAppendOutcome) : AppendOutcome :=
  match o with
  | Inserted n => ContextManager.Inserted n
  | Existing n => ContextManager.Existing n
  end.

Definition step (s : Session) (o : step_op) : Session :=
  let l := log (store s) in
  match o with
  | Append true now m =>
      let (l, n) := append_session_message now m l in
      mk_session (with_log l (store s)) (append (Ok n) m (manager s)).1
  | Append false _ m => mk_session (store s) (append (Err "store") m (manager s)).1
  | AppendOnce true now key m =>
      let (l, r) := append_session_message_idempotent now key m l in
      mk_session (with_log l (store s))
        (append_idempotent match r with Ok o => Ok (cm_outcome o) | Err _ => Err "store" end m
           (manager s)).1
  | AppendOnce false _ _ m => mk_session (store s) (append_idempotent (Err "store") m (manager s)).1
  | Foreign now m => mk_session (with_log (append_session_message now m l).1 (store s)) (manager s)
  | Actual taken n =>
      let (st, c) := record_call_actual_durably taken n (store s) (manager s) in mk_session st c
  | Compact now model tools a forced => compact_session now model tools a forced s
  | Local o => if stays_local o then mk_session (store s) (ContextManager.run_op skills o (manager s)) else s
  | Restart keep thr max_active notice audio window a =>
      let c := set_active_model_audio_delivery audio
                 (set_active_model_context_window window (from_config keep thr max_active notice)) in
      let (st, c) := restore_from_store a (store s) c in mk_session st c
  end.
Definition history (os : list step_op) : Session :=
  foldl step (mk_session (mk_store [] None) (from_config 0 DEFAULT_THRESHOLD 0 None)) os.

(** ** The window against the durable rows *)

(** Until the window is known to differ, it is the active rows, less what
    others wrote. *)
Definition in_step (c : ContextManager) (l : Log) : Prop :=
  persisted_order_diverged c = false -> sublist (messages c) (load_active_session_messages l).

Record session_ok (s : Session) : Prop := mk_ok {
  ok_wf : log_wf (log (store s));
  ok_decoded : forallb decoded (log (store s)) = true;
  ok_in_step : in_step (manager s) (log (store s));
}.

Lemma active_app l k :
  load_active_session_messages (l ++ k) = load_active_session_messages l ++ load_active_session_messages k.
Proof.
  unfold load_active_session_messages, load_active_session_message_rows.
  by rewrite List.filter_app, !map_app.
Qed.

Lemma active_append now m l :
  load_active_session_messages (append_session_message now m l).1 = load_active_session_messages l ++ [m].
Proof. unfold append_session_message. cbn [fst]. by rewrite active_app. Qed.

Lemma active_compact now new l :
  load_active_session_messages (apply_session_compaction now new l).1 = new.
Proof.
  unfold apply_session_compaction. cbn [fst]. rewrite active_app.
  assert (forall n, load_active_session_messages (map (supersede n) l) = []) as ->.
  { intros n. unfold load_active_session_messages, load_active_session_message_rows.
    induction l as [|r l IH]; [done|]. cbn [map List.filter].
    replace (is_active (supersede n r)) with false; [exact IH|].
    unfold is_active, supersede. destruct (superseded_by r) eqn:E; cbn; by rewrite ?E. }
  cbn. generalize (next_ordinal l) as n. induction new as [|m new IH]; intros n; [done|].
  unfold load_active_session_messages, load_active_session_message_rows in *. cbn. by rewrite IH.
Qed.

Lemma insert_trailer_nonempty c x ms : insert_skill_trailer skills c (x :: ms) <> [].
Proof.
  unfold insert_skill_trailer. generalize (length (take_while is_system (x :: ms))) as n.
  intros n [E1 [_ E2]%app_eq_nil]%app_eq_nil.
  pose proof (take_drop n (x :: ms)) as Htd. by rewrite E1, E2 in Htd.
Qed.
Lemma replace_nonempty m c : messages c <> [] -> messages (replace_first_message m c) <> [].
Proof.
  intros H. unfold replace_first_message. destruct (messages c) as [|y ms] eqn:E; [by rewrite E|].
  destruct (per_message_tokens c); [by rewrite E | discriminate].
Qed.
Lemma reseed_nonempty a c : messages c <> [] -> messages (reseed_system_row a c) <> [].
Proof.
  intros H. unfold reseed_system_row. destruct (leads_with_system_text c); [|exact H].
  destruct (resolved_prompt a) as [p|]; [|exact H]. exact (replace_nonempty _ c H).
Qed.

Lemma persist_window a c :
  messages (persist_compaction a c) = messages c /\
  persisted_order_diverged (persist_compaction a c) = negb (ContextManager.persisted a).
Proof. by split. Qed.
Lemma declined_rows n c :
  messages (set_declined n (invalidate_baseline c)) = messages c /\
  persisted_order_diverged (set_declined n (invalidate_baseline c)) = persisted_order_diverged c.
Proof. by split. Qed.
Lemma apply_window new n c : messages (apply_compaction skills new n c) = new.
Proof. done. Qed.

(** A pass either replaces the window, with rows that say whether they are
    durable, or leaves the rows alone. *)
Lemma run_compression_rows a c r o : run_compression skills a c = (r, o) ->
  (o = Compressed /\ messages r <> [] /\ persisted_order_diverged r = negb (ContextManager.persisted a))
  \/ (o <> Compressed /\ messages r = messages c
      /\ persisted_order_diverged r = persisted_order_diverged c).
Proof.
  unfold run_compression. generalize (run_compression_flow skills c (transcript_path a) (chat a)) as flow.
  intros [| |reason|[|x ms]]; try (intros [= <- <-]; right; split; [discriminate | split; reflexivity]).
  generalize (unanchored_request_tokens (invalidate_baseline c)
    (totals (map (budget_tokens (invalidate_baseline c)) (insert_skill_trailer skills c (x :: ms))))) as n.
  intros n. destruct (_ <=? n)%N; intros [= <- <-].
  { right. split; [discriminate|]. exact (declined_rows _ c). }
  left. split; [done|]. rewrite !(proj1 (persist_window _ _)), (proj2 (persist_window _ _)). split; [|done].
  apply reseed_nonempty. rewrite apply_window. apply insert_trailer_nonempty.
Qed.

Lemma in_step_append now m c l :
  in_step c l -> in_step (push_message m c) (append_session_message now m l).1.
Proof.
  intros H Hd. specialize (H Hd). rewrite active_append. by apply sublist_app.
Qed.
Lemma in_step_foreign now m c l : in_step c l -> in_step c (append_session_message now m l).1.
Proof.
  intros H Hd. specialize (H Hd). rewrite active_append. by apply sublist_inserts_r.
Qed.
Lemma in_step_same c c' l :
  messages c' = messages c -> persisted_order_diverged c' = persisted_order_diverged c ->
  in_step c l -> in_step c' l.
Proof. unfold in_step. by intros -> ->. Qed.

Lemma ready_rows m tools c :
  messages (ready m tools c) = messages c /\
  persisted_order_diverged (ready m tools c) = persisted_order_diverged c.
Proof.
  unfold ready, note_request_tools, set_current_model. cbn.
  destruct (bool_decide _); [done|]. by destruct (is_some _).
Qed.

Lemma forall_decoded l k : forallb decoded (l ++ k) = forallb decoded l && forallb decoded k.
Proof. apply List.forallb_app. Qed.

Context {CL : ChronoLaws C}.

Lemma in_step_run_op s o c :
  session_ok s -> in_step c (run_op (log (store s)) o) ->
  session_ok (mk_session (with_log (run_op (log (store s)) o) (store s)) c).
Proof.
  intros [H1 H2 _] H. split; cbn; [by apply wf_run_op | | exact H].
  exact (decoded_run (log (store s)) [o] H2).
Qed.

Lemma persist_fills_spec taken fills l :
  log_wf l -> forallb decoded l = true ->
  let r := persist_fills taken fills l in
  log_wf r.1 /\ forallb decoded r.1 = true /\
  load_active_session_messages r.1 = load_active_session_messages l ++ r.2.
Proof.
  revert taken l. induction fills as [|f fills IH]; intros taken l Hw Hd; cbn [persist_fills].
  { cbn. by rewrite app_nil_r. }
  destruct taken as [|[now|] taken]; cbn [persist_fills]; [by apply IH| |by apply IH].
  pose proof (wf_run_op l (OpAppend now f) Hw) as Hw'.
  pose proof (decoded_run l [OpAppend now f] Hd) as Hd'.
  specialize (IH taken _ Hw' Hd'). change (run_op l (OpAppend now f)) with (append_session_message now f l).1 in IH.
  destruct (persist_fills taken fills (append_session_message now f l).1) as [l' kept].
  cbn [fst snd] in *. destruct IH as (? & ? & ->). split_and!; [done..|].
  by rewrite active_append, <- (assoc_L (++)).
Qed.

Lemma restored_rows (a : TokenAnchor) n (c : ContextManager) :
  messages (install_restored_anchor a n c) = messages c /\
  persisted_order_diverged (install_restored_anchor a n c) = persisted_order_diverged c.
Proof. done. Qed.

Lemma ok_restore a s c :
  session_ok s -> messages c = [] ->
  let r := restore_from_store a (store s) c in session_ok (mk_session r.1 r.2).
Proof.
  intros [H1 H2 _] Hc. unfold restore_from_store.
  destruct (rows_loaded a); cbn [negb];
    [|split; cbn; [done..|]; intros _; rewrite Hc; apply sublist_nil_l].
  destruct (load_active_session_message_rows (log (store s))) as [|r0 rows] eqn:Er;
    [split; cbn; [done..|]; intros _; rewrite Hc; apply sublist_nil_l|].
  set (repair := TranscriptRepair.repair_tool_pairing _).
  destruct (persist_fills_spec (fills_taken a) (TranscriptRepair.fills repair) (log (store s)) H1 H2)
    as (P1 & P2 & P3).
  destruct (persist_fills _ _ _) as [l kept]. cbn [fst snd] in *.
  set (c' := set_diverged _ _). assert (in_step c' l) as Hin.
  { intros Hd. rewrite P3. unfold load_active_session_messages at 1. rewrite Er.
    subst c'. cbn in Hd. apply negb_false_iff, bool_decide_eq_true_1 in Hd. cbn. rewrite Hd. done. }
  clearbody c'. destruct (restorable_anchor_len _ _) as [[an n]|]; [|by split].
  destruct (_ && _); [|by split]. split; cbn; [done..|]. by eapply in_step_same; [..|exact Hin].
Qed.

Lemma ok_compact now model tools a forced s :
  session_ok s -> session_ok (compact_session now model tools a forced s).
Proof.
  intros H. pose proof H as [H1 H2 H3]. unfold compact_session.
  assert (exists c, in_step c (log (store s)) /\
    ((if forced then force_compress skills model tools a (manager s)
      else maybe_compress skills model tools a (manager s)) = run_compression skills a c \/
     exists o, o <> Compressed /\
     (if forced then force_compress skills model tools a (manager s)
      else maybe_compress skills model tools a (manager s)) = (c, o))) as (c & Hc & Hcase).
  { destruct (ready_rows model tools (manager s)) as [Rm Rd]. destruct forced.
    - exists (set_declined None (ready model tools (manager s))). split; [|by left].
      by apply (in_step_same (manager s)).
    - exists (ready model tools (manager s)). split; [by apply (in_step_same (manager s))|].
      unfold maybe_compress. destruct (negb _); [right; eexists; split; [|reflexivity]; discriminate|].
      destruct (compaction_declined _); [right; eexists; split; [|reflexivity]; discriminate | left; reflexivity]. }
  destruct Hcase as [-> | (o & Ho & ->)].
  - destruct (run_compression skills a c) as [c' o] eqn:Er.
    destruct (run_compression_rows a c c' o Er) as [(-> & Hne & Hd)|(Hn & Hm & Hd)].
    + destruct (ContextManager.persisted a) eqn:Ep.
      * destruct (messages c') as [|m ms] eqn:Em; [done|].
        apply (in_step_run_op s (OpCompact now m ms) c' H). intros _. cbn [run_op].
        by rewrite active_compact, Em.
      * split; cbn; [done..|]. intros E. by rewrite Hd in E.
    + assert (session_ok (mk_session (store s) c')) as Hok
        by (split; cbn; [done..|]; by eapply in_step_same).
      by destruct o.
  - assert (session_ok (mk_session (store s) c)) as Hok by (by split).
    by destruct o.
Qed.

Lemma ok_local o s : session_ok s -> stays_local o = true ->
  session_ok (mk_session (store s) (ContextManager.run_op skills o (manager s))).
Proof.
  intros [H1 H2 H3] Ho. split; cbn; [done..|].
  destruct o; try done; cbn [ContextManager.run_op].
  - unfold replace_first_message. destruct (messages (manager s)) eqn:E; [exact H3|].
    destruct (per_message_tokens (manager s)); [exact H3|]. by intros ?.
  - unfold set_active_model_audio_delivery.
    destruct (audio_delivery (manager s)), a; try exact H3; cbn; destruct (baseline (manager s)); try exact H3;
      cbn; try (destruct (carries_audio _ _)); exact H3.
  - unfold set_progress_observation. destruct rendered, (progress_observation (manager s)); exact H3.
  - unfold would_compress. destruct (ready_rows model tools (manager s)). by eapply in_step_same.
Qed.

Lemma ok_step s o : session_ok s -> session_ok (step s o).
Proof.
  intros H. pose proof H as [H1 H2 H3].
  destruct o as [[|] now m|[|] now key m|now m|taken n|now model tools a forced|o|k thr mx notice audio w a];
    cbn [step].
  - apply (in_step_run_op s (OpAppend now m) (push_message m (manager s)) H). by apply in_step_append.
  - by split.
  - pose proof (in_step_run_op s (OpOnce now key m)) as Hop. cbn [run_op] in Hop.
    unfold append_session_message_idempotent in *. destruct (String.eqb key ""); [by split|].
    destruct (find_message_ordinal_by_source_event_id key (log (store s))); [by split|].
    cbn [fst] in Hop. apply (Hop (push_message m (manager s)) H). intros Hd. specialize (H3 Hd).
    rewrite active_app. by apply sublist_app.
  - by split.
  - apply (in_step_run_op s (OpAppend now m) (manager s) H). by apply in_step_foreign.
  - unfold record_call_actual_durably, record_call_actual. destruct (n =? 0)%N; [done|].
    destruct (current_model (manager s)); [|split; [exact H1 | exact H2 | exact H3]].
    destruct (_ && taken); [|split; [exact H1 | exact H2 | exact H3]]. unfold record_token_anchor.
    destruct (latest_session_ordinal (log (store s))); (split; [exact H1 | exact H2 | exact H3]).
  - by apply ok_compact.
  - destruct (stays_local o) eqn:E; [by apply ok_local | done].
  - set (c := set_active_model_audio_delivery _ _).
    assert (messages c = []) as Hc by (by destruct audio).
    pose proof (ok_restore a s c H Hc) as Hok. clearbody c. revert Hok. cbv zeta.
    destruct (restore_from_store a (store s) c) as [st c']. exact (fun x => x).
Qed.

Lemma ok_history os : session_ok (history os).
Proof.
  unfold history. assert (session_ok (mk_session (mk_store [] None) (from_config 0 DEFAULT_THRESHOLD 0 None)))
    as H by (split; [apply wf_empty | done | intros _; apply sublist_nil_l]).
  revert H. generalize (mk_session (mk_store [] None) (from_config 0 DEFAULT_THRESHOLD 0 None)).
  induction os as [|o os IH]; intros s H; [done|]. apply IH. by apply ok_step.
Qed.

(** ** A marker names the window *)

Definition pair_of (r : ActiveMessageRow) : Z * ChatMessage := (row_ordinal r, row_message r).

Lemma claim_row_spec m rows n rows' : claim_row m rows = Some (n, rows') ->
  exists i r, rows !! i = Some (false, r) /\ row_message r = m /\ row_ordinal r = n /\
    rows' = <[i := (true, r)]> rows.
Proof.
  revert rows'. induction rows as [|[used r] rows IH]; intros rows'; cbn; [done|].
  destruct (negb used && _) eqn:E.
  - apply andb_true_iff in E as [->%negb_true_iff E]. apply bool_decide_eq_true_1 in E.
    intros [= <- <-]. by exists 0, r.
  - destruct (claim_row m rows) as [[k rs]|]; [|done]. intros [= <- <-].
    destruct (IH rs eq_refl) as (i & r' & H1 & H2 & H3 & ->). by exists (S i), r'.
Qed.

Lemma claim_rows_spec ms rows ns :
  NoDup (map (fun x : bool * ActiveMessageRow => row_ordinal x.2) rows) -> claim_rows ms rows = Some ns ->
  NoDup ns /\ Forall2 (fun m n => exists r, (false, r) ∈ rows /\ row_ordinal r = n /\ row_message r = m) ms ns.
Proof.
  revert rows ns. induction ms as [|m ms IH]; intros rows ns Hnd; cbn.
  { intros [= <-]. split; constructor. }
  destruct (claim_row m rows) as [[n rows']|] eqn:E; [|done].
  destruct (claim_row_spec m rows n rows' E) as (i & r & Hi & Hm & Hn & ->).
  destruct (claim_rows ms _) as [ns'|] eqn:E2; [|done]. intros [= <-].
  assert (map (fun x : bool * ActiveMessageRow => row_ordinal x.2) (<[i := (true, r)]> rows)
          = map (fun x : bool * ActiveMessageRow => row_ordinal x.2) rows) as Hmap.
  { change (?f <$> ?l) with (map f l). rewrite list_fmap_insert. apply list_insert_id.
    by rewrite list_lookup_fmap, Hi. }
  destruct (IH _ ns' ltac:(by rewrite Hmap) E2) as [IH1 IH2].
  assert (forall q, (false, q) ∈ <[i := (true, r)]> rows -> (false, q) ∈ rows /\ row_ordinal q <> n) as Hins.
  { intros q Hq. apply list_elem_of_lookup in Hq as (j & Hj).
    apply list_lookup_insert_Some in Hj as [(? & [=] & ?)|(Hij & Hj)].
    split; [by eapply list_elem_of_lookup_2|]. intros Heq. apply Hij.
    eapply (NoDup_lookup _ i j n Hnd); rewrite list_lookup_fmap; [by rewrite Hi; cbn; f_equal|].
    by rewrite Hj; cbn; f_equal. }
  split.
  - constructor; [|exact IH1]. intros Hin. apply list_elem_of_lookup in Hin as (k & Hk).
    destruct (Forall2_lookup_r _ _ _ _ _ IH2 Hk) as (m' & _ & q & Hq & Ho & _).
    by apply (Hins q Hq).
  - constructor.
    + exists r. split_and!; [by eapply list_elem_of_lookup_2 | done..].
    + eapply Forall2_impl; [exact IH2|]. cbn. intros m' n' (q & Hq & Hr). exists q.
      split; [by apply Hins | done].
Qed.

Lemma find_unique n m (rows : list (StoredMessage * Z)) :
  NoDup (map (fun x => ordinal x.1) rows) ->
  (n, m) ∈ map (fun x => (ordinal x.1, message x.1)) rows ->
  exists x, find_first (fun x => (ordinal x.1 =? n)%Z) rows = Some x /\ message x.1 = m.
Proof.
  induction rows as [|x rows IH]; cbn; intros Hnd Hin; [by apply not_elem_of_nil in Hin|].
  apply NoDup_cons in Hnd as [Hx Hnd]. apply elem_of_cons in Hin as [[= -> ->]|Hin].
  - rewrite Z.eqb_refl. by exists x.
  - destruct (Z.eqb_spec (ordinal x.1) n) as [E|_]; [|by apply IH].
    exfalso. apply Hx. rewrite E. apply list_elem_of_fmap in Hin as (y & [= -> ->] & Hy).
    apply list_elem_of_fmap. by exists y.
Qed.

Lemma select_rows_spec seen ns ms (rows : list (StoredMessage * Z)) :
  NoDup (map (fun x => ordinal x.1) rows) -> NoDup ns -> (forall n, n ∈ ns -> n ∉ seen) ->
  Forall2 (fun m n => (n, m) ∈ map (fun x => (ordinal x.1, message x.1)) rows) ms ns ->
  select_rows seen ns rows = (ms, false).
Proof.
  intros Hnd. revert seen ms. induction ns as [|n ns IH]; intros seen ms Hns Hseen Hf; cbn.
  { by inversion_clear Hf. }
  inversion_clear Hf as [|m n' ms' ns' Hm Hf']. apply NoDup_cons in Hns as [Hn Hns].
  rewrite bool_decide_eq_false_2 by (apply Hseen; left).
  rewrite (IH (n :: seen) ms'); [|done| |done].
  - by destruct (find_unique n m rows Hnd Hm) as (x & -> & ->).
  - intros k Hk [->|Hk']%elem_of_cons; [done|]. apply (Hseen k); [by right | done].
Qed.

(** ** Reading a later log *)

Definition stamp_of (x : StoredMessage * Z) : Prop := from_us (created_at x.1) = Some x.2.

Lemma load_all l : forallb decoded l = true -> Forall (fun r => (0 <= ordinal r)%Z) l ->
  exists rows, load_session_messages_with_supersede l = Ok rows /\ map fst rows = l /\ Forall stamp_of rows.
Proof.
  unfold load_session_messages_with_supersede. induction l as [|r l IH]; cbn; [by exists []|].
  intros [Hr Hd]%andb_true_iff [Ho Hl]%Forall_cons.
  assert ((i64_min <? ordinal r)%Z = true) as -> by (apply Z.ltb_lt; unfold_ints; lia).
  unfold decoded in Hr. destruct (from_us (created_at r)) as [t|] eqn:Et; [|done].
  destruct (IH Hd Hl) as (rows & -> & <- & Hs). exists ((r, t) :: rows).
  split_and!; [done | done | by constructor].
Qed.

Lemma candidates_fst last rows :
  map fst (candidates last rows) = List.filter (active_as_of last) (map fst rows).
Proof.
  unfold candidates. induction rows as [|[r t] rows IH]; cbn; [done|].
  destruct (active_as_of last r); cbn; by rewrite IH.
Qed.

Lemma wf_nonneg l : log_wf l -> Forall (fun r => (0 <= ordinal r)%Z) l.
Proof.
  intros H. rewrite <- Forall_map with (P := fun z => (0 <= z)%Z). rewrite (wf_ordinals l H).
  apply Forall_forall. intros x Hx%elem_of_seqZ. lia.
Qed.

(** What the reader finds under a marker written when the log was [l]. *)
Lemma later_candidates l os last : log_wf l -> forallb decoded l = true ->
  latest_session_ordinal l = Some last ->
  exists rows, load_session_messages_with_supersede (run l os) = Ok rows /\
    Forall stamp_of (candidates last rows) /\
    map face (map fst (candidates last rows)) = map face (List.filter is_active l).
Proof.
  intros Hwf Hd Hlast. destruct (run_log_inv l os Hwf) as [Hwf' Hg].
  destruct (load_all (run l os) (decoded_run l os Hd) (wf_nonneg _ Hwf')) as (rows & E & Hf & Hs).
  exists rows. split; [exact E|]. split.
  - unfold candidates. apply Forall_forall. intros x Hx%list_elem_of_In%List.filter_In.
    rewrite Forall_forall in Hs. apply Hs, list_elem_of_In, Hx.
  - rewrite candidates_fst, Hf. rewrite latest_ordinal in Hlast by done.
    assert (last = (size l - 1)%Z) as -> by (destruct l; [done | by injection Hlast]).
    by apply as_of_grows.
Qed.

Lemma map_faces {A} (g : Z * ChatMessage * Z -> A) (l k : list StoredMessage) :
  map face l = map face k -> map (fun r => g (face r)) l = map (fun r => g (face r)) k.
Proof. intros H. by rewrite <- !(map_map face g), H. Qed.

Section Reader.
Context (l : Log) (started_at last : Z) (rows : list (StoredMessage * Z)).
Hypothesis Hnow : forall r t, r ∈ l -> from_us (created_at r) = Some t -> (t <= started_at)%Z.
Hypothesis Hstamps : Forall stamp_of (candidates last rows).
Hypothesis Hfaces : map face (map fst (candidates last rows)) = map face (List.filter is_active l).

Lemma stamps_before_start : existsb (fun x => (started_at <? x.2)%Z) (candidates last rows) = false.
Proof.
  apply not_true_iff_false. intros (x & Hx & Hlt)%existsb_exists.
  pose proof Hstamps as Hst. rewrite Forall_forall in Hst.
  specialize (Hst x ltac:(by apply list_elem_of_In)). unfold stamp_of in Hst.
  assert (face x.1 ∈ map face (List.filter is_active l)) as Hin.
  { rewrite <- Hfaces. apply list_elem_of_In, List.in_map, List.in_map, Hx. }
  apply list_elem_of_fmap in Hin as (r & Hr & Hin). apply list_elem_of_In, List.filter_In in Hin as [Hin _].
  unfold face in Hr. injection Hr as _ _ Hc. rewrite Hc in Hst.
  specialize (Hnow r x.2 ltac:(by apply list_elem_of_In) Hst). lia.
Qed.

Lemma candidate_messages :
  map (fun x => message x.1) (candidates last rows) = load_active_session_messages l.
Proof.
  pose proof (map_faces (fun f => f.1.2) _ _ Hfaces) as H. cbn in H. rewrite map_map in H. rewrite H.
  unfold load_active_session_messages, load_active_session_message_rows. by rewrite map_map.
Qed.
Lemma candidate_pairs :
  map (fun x => (ordinal x.1, message x.1)) (candidates last rows)
  = map pair_of (load_active_session_message_rows l).
Proof.
  pose proof (map_faces (fun f => f.1) _ _ Hfaces) as H. cbn in H. rewrite map_map in H. rewrite H.
  unfold load_active_session_message_rows. by rewrite map_map.
Qed.
End Reader.

Lemma active_ordinals_nodup l : log_wf l ->
  NoDup (map row_ordinal (load_active_session_message_rows l)).
Proof.
  intros H. unfold load_active_session_message_rows. rewrite map_map. cbn.
  pose proof (sorted_filter is_active l (sorted_ordinals l H)) as Hs.
  induction (List.filter is_active l) as [|r k IH]; cbn in *; [constructor|].
  apply StronglySorted_inv in Hs as [Hs Hf]. constructor; [|by apply IH].
  intros Hin. rewrite Forall_forall in Hf. specialize (Hf _ Hin). lia.
Qed.

Lemma explicit_spec l ms ns : log_wf l ->
  explicit_message_ordinals ms (load_active_session_message_rows l) = Some ns ->
  NoDup ns /\ Forall2 (fun m n => (n, m) ∈ map pair_of (load_active_session_message_rows l)) ms ns.
Proof.
  intros Hwf. unfold explicit_message_ordinals. destruct ms as [|m ms].
  { destruct (load_active_session_message_rows l); [|done]. intros [= <-]. split; constructor. }
  intros E. destruct (claim_rows_spec (m :: ms) (map (pair false) (load_active_session_message_rows l)) ns)
    as [H1 H2]; [|exact E|].
  { rewrite map_map. by apply active_ordinals_nodup. }
  split; [exact H1|]. eapply Forall2_impl; [exact H2|]. cbn. intros x n (r & Hr & <- & <-).
  apply list_elem_of_fmap in Hr as (r' & [= ->] & Hr). apply list_elem_of_fmap. by exists r'.
Qed.

(** C14: The marker a trace span keeps in place of a copy of the request always
    stands for the window the manager held: in any session history — appends
    taken or refused, other writers, compactions, restarts that repaired the
    transcript — whichever of the marker's reads fail, and however the log
    grows afterwards, reading it back gives exactly the messages of that
    window followed by the request's own suffix. *)
Theorem marker_replays (os : list step_op) (r : MarkerReads) (cue : option ChatMessage)
    (later : list SessionLog.op) (started_at : Z)
    (Hnow : forall row t, row ∈ log (store (history os)) -> from_us (created_at row) = Some t ->
              (t <= started_at)%Z) :
  let l := log (store (history os)) in
  let c := manager (history os) in
  replay_inputs started_at (build_call_input_marker r cue l c) (run l later)
  = Ok (messages c ++ option_list (active_notification_cue (messages c) (transient_tail c cue))).
Proof.
  cbv zeta. destruct (ok_history os) as [Hwf Hd Hin]. revert Hwf Hd Hin Hnow.
  generalize (log (store (history os))) as l, (manager (history os)) as c. intros l c Hwf Hd Hin Hnow.
  unfold build_call_input_marker, input_marker_with_suffix. set (suffix := option_list _).
  destruct (compact_marker r l c) as [[last k]|] eqn:Ec.
  - unfold compact_marker in Ec. destruct (latest_read r); [|done].
    destruct (latest_session_ordinal l) as [n|] eqn:En; [|done].
    destruct (count_read r && _ && _) eqn:Eb; [|done]. injection Ec as <- <-.
    apply andb_true_iff in Eb as [[_ Ek%Nat.eqb_eq]%andb_true_iff Eb%negb_true_iff].
    destruct (later_candidates l later n Hwf Hd En) as (rows & E & Hs & Hf).
    unfold replay_inputs. rewrite E. cbn [result_bind]. f_equal. unfold hydrate_inputs.
    rewrite (stamps_before_start l started_at n rows Hnow Hs Hf), (candidate_messages l n rows Hf).
    assert (messages c = load_active_session_messages l) as Heq.
    { apply sublist_full; [by apply Hin|]. rewrite <- Ek.
      unfold count_active_messages, load_active_session_messages, load_active_session_message_rows.
      by rewrite !length_map. }
    rewrite <- Heq, <- Ek, Nat.eqb_refl. done.
  - destruct (exact_marker r l c) as [[last ns]|] eqn:Ee; [|done].
    unfold exact_marker in Ee. destruct (latest_reread r); [|done].
    destruct (latest_session_ordinal l) as [n|] eqn:En; [|done]. destruct (rows_read r); [|done].
    destruct (explicit_message_ordinals _ _) as [ns'|] eqn:Ex; [|done]. injection Ee as <- <-.
    destruct (explicit_spec l (messages c) ns' Hwf Ex) as [Hnd H2].
    destruct (later_candidates l later n Hwf Hd En) as (rows & E & Hs & Hf).
    unfold replay_inputs. rewrite E. cbn [result_bind]. f_equal. unfold hydrate_inputs.
    rewrite (stamps_before_start l started_at n rows Hnow Hs Hf).
    pose proof (candidate_pairs l n rows Hf) as Hpairs.
    destruct ns' as [|n0 ns'].
    + inversion H2 as [Em|]. rewrite (candidate_messages l n rows Hf).
      unfold explicit_message_ordinals in Ex. rewrite <- Em in Ex. unfold load_active_session_messages.
      destruct (load_active_session_message_rows l); [done | discriminate Ex].
    + rewrite (select_rows_spec [] (n0 :: ns') (messages c)).
      * rewrite (Forall2_length _ _ _ H2), Nat.eqb_refl. done.
      * pose proof (active_ordinals_nodup l Hwf) as Hu.
        apply (f_equal (map fst)) in Hpairs. rewrite !map_map in Hpairs. cbn in Hpairs.
        by rewrite Hpairs.
      * exact Hnd.
      * intros k _ Hk. by apply not_elem_of_nil in Hk.
      * by rewrite Hpairs.
Qed.

(** ** A count is resumed only over the rows it counted *)

Lemma take_while_all {A} (f : A -> bool) (l k : list A) :
  Forall (fun x => f x = true) l -> Forall (fun x => f x = false) k -> take_while f (l ++ k) = l.
Proof.
  intros Hl Hk. induction Hl as [|x l Hx _ IH]; cbn; [|by rewrite Hx, IH].
  destruct Hk as [|y k Hy _]; cbn; [done | by rewrite Hy].
Qed.

Lemma active_rows_app l k :
  load_active_session_message_rows (l ++ k)
  = load_active_session_message_rows l ++ load_active_session_message_rows k.
Proof. unfold load_active_session_message_rows. by rewrite List.filter_app, map_app. Qed.

Lemma active_rows_Forall (P : Z -> Prop) l :
  Forall (fun r => P (ordinal r)) l -> Forall (fun r => P (row_ordinal r)) (load_active_session_message_rows l).
Proof.
  unfold load_active_session_message_rows. rewrite Forall_map. intros H.
  apply Forall_forall. intros r Hr%list_elem_of_In%List.filter_In. rewrite Forall_forall in H.
  apply (H r), list_elem_of_In, Hr.
Qed.

(** The rows up to an ordinal the log had, in a later log. *)
Lemma covered_rows l later last : log_wf l -> latest_session_ordinal l = Some last ->
  let covered := take_while (fun r => (row_ordinal r <=? last)%Z)
                   (load_active_session_message_rows (run l later)) in
  covered = [] \/ covered = load_active_session_message_rows l.
Proof.
  intros Hwf Hlast. cbv zeta.
  destruct (epoch_run l later Hwf) as (pre & rest & -> & He & _ & Hr). rewrite active_rows_app.
  assert (last = size l - 1)%Z as ->.
  { rewrite latest_ordinal in Hlast by done. destruct l; [done | by injection Hlast]. }
  assert (Forall (fun r => (row_ordinal r <=? size l - 1)%Z = false) (load_active_session_message_rows rest))
    as Hrest.
  { apply (active_rows_Forall (fun z => (z <=? size l - 1)%Z = false)).
    eapply Forall_impl; [exact Hr|]. cbn. lia. }
  destruct He as [-> | He].
  - right. apply take_while_all; [|exact Hrest].
    apply (active_rows_Forall (fun z => (z <=? size l - 1)%Z = true)).
    apply Forall_forall. intros r Hin.
    assert (ordinal r ∈ map ordinal l) as Ho by (apply list_elem_of_fmap; eauto).
    rewrite (wf_ordinals l Hwf), elem_of_seqZ in Ho. lia.
  - left. replace (load_active_session_message_rows pre) with (@nil ActiveMessageRow).
    + apply (take_while_all _ []); [constructor | exact Hrest].
    + unfold load_active_session_message_rows. induction He as [|r pre Hx _ IH]; [done|].
      cbn [List.filter]. by rewrite Hx.
Qed.

Lemma take_while_take {A} (f : A -> bool) l : take (length (take_while f l)) l = take_while f l.
Proof. induction l as [|x l IH]; cbn; [done|]. destruct (f x); cbn; by rewrite ?IH. Qed.

Lemma covered_prefix l later f :
  take_while f (load_active_session_message_rows (run l later)) = load_active_session_message_rows l ->
  let len := length (load_active_session_messages l) in
  prefix_of len (load_active_session_messages (run l later)) = Some (load_active_session_messages l).
Proof.
  unfold load_active_session_messages. intros E. cbv zeta. rewrite length_map. unfold prefix_of.
  rewrite length_map.
  pose proof (take_while_take f (load_active_session_message_rows (run l later))) as Ht.
  rewrite E in Ht. rewrite (proj2 (Nat.leb_le _ _)).
  - by rewrite firstn_map, Ht.
  - rewrite <- Ht at 1. rewrite length_take. lia.
Qed.

(** The baseline a restore leaves is the anchor, over a window whose start is
    the rows the anchor covers. *)
Lemma restored_baseline a s c b : baseline (restore_from_store a s c).2 = Some b ->
  baseline c = None ->
  exists an len, restorable_anchor_len (Ok (load_token_anchor s))
                   (load_active_session_message_rows (log s)) = Some (an, len) /\
    b = mk_baseline (SessionLog.actual_tokens an) len (SessionLog.request_overhead an) /\
    prefix_of len (messages (restore_from_store a s c).2)
    = prefix_of len (load_active_session_messages (log s)).
Proof.
  unfold restore_from_store. intros Hb Hc.
  destruct (rows_loaded a); cbn [negb] in *; [|cbn in Hb; congruence].
  unfold load_active_session_messages.
  destruct (load_active_session_message_rows (log s)) as [|r0 rows] eqn:Er; [cbn in Hb; congruence|].
  destruct (persist_fills _ _ _) as [l kept]. revert Hb. set (c' := set_diverged _ _).
  assert (baseline c' = None) as Hc' by done. clearbody c'. cbv zeta.
  destruct (anchor_loaded a); [|cbn; by rewrite Hc'].
  destruct (restorable_anchor_len _ _) as [[an len]|]; [|cbn; by rewrite Hc'].
  destruct (bool_decide _) eqn:Ep; cbn [andb]; [|cbn; by rewrite Hc'].
  destruct (trusts_audio len c'); [|cbn; by rewrite Hc'].
  cbn. intros [= <-]. exists an, len. split_and!; [done | done |].
  by apply bool_decide_eq_true_1 in Ep.
Qed.

(** A provider's token count outlives the process only over the rows it
    counted: when a count recorded at some point of a session is picked up
    after a restart, however the log was written in between, the restored
    window begins with exactly the rows the manager held when the provider
    counted them, and the count resumed is the one it billed, less the rows
    that were never stored. *)
Theorem anchor_covers_counted_rows (os : list step_op) (n : N) (m : string) (later : list SessionLog.op)
    (a : RestoreAnswers) (c : ContextManager) (b : TokenBaseline)
    (Hn : n <> 0%N) (Hmodel : current_model (manager (history os)) = Some m)
    (Hdurable : persisted_order_diverged (manager (history os)) = false)
    (Hrows : log (store (history os)) <> [])
    (Hwidth : (Z.of_nat (length (messages (manager (history os)))) <= i64_max)%Z)
    (Htokens : (Z.of_N n <= i64_max)%Z) (Hfresh : baseline c = None) :
  let counted := manager (history os) in
  let s := (record_call_actual_durably true n (store (history os)) counted).1 in
  let restored := (restore_from_store a (with_log (run (log s) later) s) c).2 in
  baseline restored = Some b ->
  message_count_at_call b = length (messages counted)
  /\ take (length (messages counted)) (messages restored) = messages counted
  /\ ContextManager.actual_tokens b = (n - transient_tail_raw counted)%N.
Proof.
  destruct (ok_history os) as [Hwf _ Hin]. revert Hwf Hin Hmodel Hdurable Hrows Hwidth.
  generalize (store (history os)) as s0, (manager (history os)) as c0.
  intros s0 c0 Hwf Hin Hmodel Hdur Hrows Hwidth. cbv zeta.
  unfold record_call_actual_durably. rewrite (proj2 (N.eqb_neq n 0) Hn), Hmodel, Hdur. cbn [negb andb fst].
  pose proof (latest_ordinal (log s0) Hwf) as Hlast. destruct (log s0) as [|r0 l0] eqn:El; [done|].
  unfold record_token_anchor. rewrite El, Hlast. cbn [log].
  set (l := r0 :: l0) in *. set (an0 := mk_columns _ _ _ _ _). intros Hb.
  destruct (restored_baseline _ _ _ _ Hb Hfresh) as (an & len & Ha & -> & Hp).
  cbn [with_log log load_token_anchor anchor] in *.
  unfold restorable_anchor_len in Ha. destruct (_ && _) eqn:Eb in Ha; [|done]. injection Ha as <- <-.
  apply andb_true_iff in Eb as [Ecount%Nat.eqb_eq Epos%Nat.ltb_lt].
  subst an0. cbn [message_count through_ordinal SessionLog.actual_tokens token_anchor_tokens
    token_anchor_message_count token_anchor_through_ordinal] in *.
  destruct (covered_rows l later _ Hwf Hlast) as [E|E]; cbv zeta in E; rewrite E in *; [cbn in Epos; lia|].
  pose proof (covered_prefix l later _ E) as Hpre. cbv zeta in Hpre.
  revert Hp Ecount. clear Hb. match goal with |- context [messages ?c'.2] => generalize (messages c'.2) as restored end.
  cbn [new_message_count new_actual_tokens]. intros restored Hp Ecount.
  assert (length (load_active_session_message_rows l) = length (messages c0)) as Hlen.
  { unfold as_i64, as_usize in Ecount. lia. }
  assert (messages c0 = load_active_session_messages l) as Heq.
  { apply sublist_full; [by apply Hin|]. unfold load_active_session_messages. rewrite length_map. lia. }
  rewrite <- Heq in Hpre. rewrite Hlen in *. rewrite Hpre in Hp.
  unfold prefix_of in Hp. destruct (Nat.leb _ _); [|done]. injection Hp as Hp.
  split_and!; [done | exact Hp |]. cbn [ContextManager.actual_tokens]. unfold as_usize, as_i64.
  unfold i64_max in *. lia.
Qed.

End Manager.

(** ** Witnesses *)

Module Sample.
Definition ops : list step_op :=
  [Append true 1000 (user [Text "hello"]); Foreign 2000 (cron_notification [Text "done"]);
   Append true 3000 (assistant [Text "hi"]); Append false 4000 (user [Text "again"])].
Definition counted : list step_op :=
  [Append true 1000 (user [Text "hello"]); Append true 3000 (assistant [Text "hi"]);
   Local (ContextManager.OpNeeds "m" [])].
Definition later : list SessionLog.op := [OpAppend 5000 (user [Text "more"])].
Definition fresh : ContextManager := from_config 2 DEFAULT_THRESHOLD 1000 None.
Definition answers : RestoreAnswers := mk_restore true true [].
End Sample.
#[local] Existing Instance ContextManager.Sample.tok.
#[local] Existing Instance SessionLog.Sample.chrono.
#[local] Existing Instance SessionLog.Sample.chrono_laws.

Lemma marker_replays_witness :
  let s := history ContextManager.Sample.no_skills Sample.ops in
  let marker := build_call_input_marker (mk_reads true true true true) None (log (store s)) (manager s) in
  marker = Persisted 2 2 [0; 2]%Z []
  /\ replay_inputs 9000 marker (run (log (store s)) Sample.later)
     = Ok [user [Text "hello"]; assistant [Text "hi"]].
Proof.
  cbv zeta. split; [vm_compute; reflexivity|].
  rewrite (marker_replays ContextManager.Sample.no_skills Sample.ops (mk_reads true true true true) None
    Sample.later 9000).
  - vm_compute; reflexivity.
  - intros row t Hin. vm_compute in Hin.
    repeat (apply elem_of_cons in Hin as [->|Hin]; [vm_compute; intros [= <-]; done|]).
    by apply not_elem_of_nil in Hin.
Defined.

Lemma anchor_covers_counted_rows_witness :
  let s := history ContextManager.Sample.no_skills Sample.counted in
  let st := (record_call_actual_durably true 77 (store s) (manager s)).1 in
  let restored := (restore_from_store ContextManager.Sample.no_skills Sample.answers
                     (with_log (run (log st) Sample.later) st) Sample.fresh).2 in
  baseline restored = Some (mk_baseline 77 2 (ContextManager.request_overhead (manager s)))
  /\ take 2 (messages restored) = messages (manager s).
Proof.
  cbv zeta. split; [vm_compute; reflexivity|].
  apply (anchor_covers_counted_rows ContextManager.Sample.no_skills Sample.counted 77 "m" Sample.later
    Sample.answers Sample.fresh (mk_baseline 77 2
      (ContextManager.request_overhead (manager (history ContextManager.Sample.no_skills Sample.counted)))));
    first [discriminate | vm_compute; done].
Defined.

End Hydration.
