(* ===== verification/Mailbox.v ===== *)
(** * The actor's priority mailbox ([crates/agent/src/actor/mailbox.rs])

    A bounded, single-consumer channel that serves the highest priority first
    and is first-in first-out within one.  The counting semaphore and the
    notification cell it is built on (tokio) are interfaces with laws.  Two
    views of the code: its methods run one after another, refining a plain list,
    and the interleaved steps of concurrent senders, handle drops and the
    receiver, for the absence of lost wake-ups. *)
From S2P Require Import Prelude.

Module Mailbox.

(** ** Runtime primitives *)

Inductive acquired := Acquired | NoPermits | SemClosed.

(** [tokio::sync::Semaphore]: permits are counted, a closed semaphore hands out
    none, dropping a permit returns it. *)
Class Semaphore := {
  sem : Type;
  sem_new : nat -> sem;
  try_acquire : sem -> sem * acquired;
  release : sem -> sem;
  sem_close : sem -> sem;
  available : sem -> nat;
  is_closed : sem -> bool;
  sem_new_spec n : available (sem_new n) = n /\ is_closed (sem_new n) = false;
  try_acquire_spec s :
    let '(s', r) := try_acquire s in
    is_closed s' = is_closed s /\
    (if is_closed s then r = SemClosed /\ available s' = available s
     else match available s with
          | 0 => r = NoPermits /\ available s' = 0
          | S n => r = Acquired /\ available s' = n
          end);
  release_spec s : available (release s) = S (available s) /\ is_closed (release s) = is_closed s;
  sem_close_spec s : available (sem_close s) = available s /\ is_closed (sem_close s) = true;
}.

(** [tokio::sync::Notify] with one waiter: [notify_one] leaves a permit,
    [notified().await] resolves by taking it. *)
Class Notify := {
  notify : Type;
  notify_new : notify;
  notify_one : notify -> notify;
  notified : notify -> notify * bool;
  pending : notify -> bool;
  notify_new_spec : pending notify_new = false;
  notify_one_spec n : pending (notify_one n) = true;
  notified_spec n :
    let '(n', woken) := notified n in woken = pending n /\ pending n' = false;
}.

(** ** Data *)

Inductive MessagePriority := Stop | BackgroundJobFinished | Trigger.

(** The derived [Ord] follows declaration order. *)
Definition rank (p : MessagePriority) : nat :=
  match p with Stop => 0 | BackgroundJobFinished => 1 | Trigger => 2 end.

Class Prioritized (T : Type) := priority : T -> MessagePriority.

Record Entry (T : Type) := mk_entry {
  e_priority : MessagePriority;
  e_seq : Z;
  e_msg : T;
}.
Arguments mk_entry {T} _ _ _.
Arguments e_priority {T} _.
Arguments e_seq {T} _.
Arguments e_msg {T} _.

(** [impl Ord for Entry]: greater priority first, then the smaller sequence
    number is the greater entry. *)
Definition entry_cmp {T} (a b : Entry T) : comparison :=
  match Nat.compare (rank (e_priority a)) (rank (e_priority b)) with
  | Eq => Z.compare (e_seq b) (e_seq a)
  | c => c
  end.

(** [BinaryHeap]: its elements in insertion order; [pop] takes the greatest. *)
Fixpoint heap_pop {T} (l : list (Entry T)) : option (Entry T * list (Entry T)) :=
  match l with
  | [] => None
  | e :: l' =>
      match heap_pop l' with
      | None => Some (e, [])
      | Some (m, rest) =>
          match entry_cmp e m with
          | Lt => Some (m, e :: rest)
          | _ => Some (e, l')
          end
      end
  end.
Definition heap_peek {T} (l : list (Entry T)) : option (Entry T) := fst <$> heap_pop l.

Section Mailbox.
Context `{Semaphore} `{Notify} {T : Type} `{Prioritized T}.

Record Shared := mk_shared {
  queue : list (Entry T);
  signal : notify;
  capacity : sem;
  sender_count : nat;
  next_seq : Z;
}.

Inductive TrySendError := Full (msg : T) | Closed (msg : T).
Inductive TryRecvError := Empty | Disconnected.
(** An awaiting method, polled once. *)
Inductive poll (A : Type) := Ready (a : A) | Pending.
Arguments Ready {A} _.
Arguments Pending {A}.

Definition channel (cap : nat) : Shared := mk_shared [] notify_new (sem_new cap) 1 0.

(** [next_seq] is an [AtomicU64]: [fetch_add] wraps. *)
Definition push (seq : Z) (msg : T) (s : Shared) : Shared :=
  mk_shared (queue s ++ [mk_entry (priority msg) seq msg]) (signal s) (capacity s)
    (sender_count s) (next_seq s).
Definition fetch_seq (s : Shared) : Shared * Z :=
  (mk_shared (queue s) (signal s) (capacity s) (sender_count s) ((next_seq s + 1) mod 2 ^ 64),
   next_seq s).
Definition notify_receiver (s : Shared) : Shared :=
  mk_shared (queue s) (notify_one (signal s)) (capacity s) (sender_count s) (next_seq s).
Definition set_capacity (c : sem) (s : Shared) : Shared :=
  mk_shared (queue s) (signal s) c (sender_count s) (next_seq s).

Definition enqueue (msg : T) (s : Shared) : Shared :=
  let '(s, seq) := fetch_seq s in
  notify_receiver (push seq msg s).

Definition try_send (msg : T) (s : Shared) : Shared * result unit TrySendError :=
  let '(c, r) := try_acquire (capacity s) in
  let s := set_capacity c s in
  match r with
  | Acquired => (enqueue msg s, Ok tt)
  | NoPermits => (s, Err (Full msg))
  | SemClosed => (s, Err (Closed msg))
  end.

(** [send]: pending until a permit is free or the receiver is gone; the error
    hands the message back. *)
Definition send (msg : T) (s : Shared) : Shared * poll (result unit T) :=
  let '(c, r) := try_acquire (capacity s) in
  let s := set_capacity c s in
  match r with
  | Acquired => (enqueue msg s, Ready (Ok tt))
  | NoPermits => (s, Pending)
  | SemClosed => (s, Ready (Err msg))
  end.

Definition clone_sender (s : Shared) : Shared :=
  mk_shared (queue s) (signal s) (capacity s) (S (sender_count s)) (next_seq s).
Definition fetch_sub_count (s : Shared) : Shared :=
  mk_shared (queue s) (signal s) (capacity s) (pred (sender_count s)) (next_seq s).
Definition drop_sender (s : Shared) : Shared :=
  let last := Nat.eqb (sender_count s) 1 in
  let s := fetch_sub_count s in
  if last then notify_receiver s else s.

(** Popping an entry drops its permit. *)
Definition pop (s : Shared) : Shared * option T :=
  match heap_pop (queue s) with
  | None => (s, None)
  | Some (e, rest) =>
      (mk_shared rest (signal s) (release (capacity s)) (sender_count s) (next_seq s),
       Some (e_msg e))
  end.

(** One iteration of [recv]'s loop, up to its await. *)
Definition recv_iter (s : Shared) : Shared * option (option T) :=
  match pop s with
  | (s, Some m) => (s, Some (Some m))
  | (s, None) =>
      if Nat.eqb (sender_count s) 0 then
        match pop s with
        | (s, Some m) => (s, Some (Some m))
        | (s, None) => (s, Some None)
        end
      else (s, None)
  end.

Definition await_signal (s : Shared) : Shared * bool :=
  let '(n, woken) := notified (signal s) in
  (mk_shared (queue s) n (capacity s) (sender_count s) (next_seq s), woken).

(** A poll of [recv] runs the loop until it returns or parks. *)
Fixpoint recv_loop (fuel : nat) (s : Shared) : option (Shared * poll (option T)) :=
  match fuel with
  | 0 => None
  | S fuel =>
      match recv_iter s with
      | (s, Some r) => Some (s, Ready r)
      | (s, None) =>
          match await_signal s with
          | (s, true) => recv_loop fuel s
          | (s, false) => Some (s, Pending)
          end
      end
  end.

(** Without another task in between, the stored permit lasts for one extra
    round: two are enough (lemma [recv_loop_spec]). *)
Definition recv (s : Shared) : Shared * poll (option T) :=
  match recv_loop 2 s with
  | Some r => r
  | None => (s, Pending)
  end.

Definition peek_priority (s : Shared) : option MessagePriority :=
  e_priority <$> heap_peek (queue s).

Definition try_recv_if (pred : T -> bool) (s : Shared) : Shared * option T :=
  let matches := match heap_peek (queue s) with
                 | Some e => pred (e_msg e)
                 | None => false
                 end in
  if matches then pop s else (s, None).

Definition try_recv (s : Shared) : Shared * result T TryRecvError :=
  match pop s with
  | (s, Some m) => (s, Ok m)
  | (s, None) => (s, Err (if Nat.eqb (sender_count s) 0 then Disconnected else Empty))
  end.

Definition drop_receiver (s : Shared) : Shared := set_capacity (sem_close (capacity s)) s.

(** ** Abstract specification: a list in arrival order *)

Record Spec := mk_spec {
  msgs : list T;
  free : nat;
  senders : nat;
  hung_up : bool;
}.

(** The earliest message of the highest priority present. *)
Fixpoint take_next (l : list T) : option (T * list T) :=
  match l with
  | [] => None
  | x :: l' =>
      match take_next l' with
      | None => Some (x, [])
      | Some (m, rest) =>
          if rank (priority m) <=? rank (priority x) then Some (x, l') else Some (m, x :: rest)
      end
  end.

Inductive op :=
| OpTrySend (msg : T) | OpSend (msg : T) | OpClone | OpDropSender
| OpRecv | OpTryRecv | OpTryRecvIf (pred : T -> bool) | OpPeek | OpDropReceiver.

Inductive out :=
| OutTrySend (r : result unit TrySendError) | OutSend (r : poll (result unit T))
| OutRecv (r : poll (option T)) | OutTryRecv (r : result T TryRecvError)
| OutTryRecvIf (r : option T) | OutPeek (r : option MessagePriority) | OutNone.

Definition run_op (o : op) (s : Shared) : Shared * out :=
  match o with
  | OpTrySend m => let '(s, r) := try_send m s in (s, OutTrySend r)
  | OpSend m => let '(s, r) := send m s in (s, OutSend r)
  | OpClone => (clone_sender s, OutNone)
  | OpDropSender => (drop_sender s, OutNone)
  | OpRecv => let '(s, r) := recv s in (s, OutRecv r)
  | OpTryRecv => let '(s, r) := try_recv s in (s, OutTryRecv r)
  | OpTryRecvIf p => let '(s, r) := try_recv_if p s in (s, OutTryRecvIf r)
  | OpPeek => (s, OutPeek (peek_priority s))
  | OpDropReceiver => (drop_receiver s, OutNone)
  end.

Definition spec_put (m : T) (a : Spec) : Spec :=
  mk_spec (msgs a ++ [m]) (pred (free a)) (senders a) (hung_up a).
Definition spec_take (a : Spec) : Spec * option T :=
  match take_next (msgs a) with
  | None => (a, None)
  | Some (m, rest) => (mk_spec rest (S (free a)) (senders a) (hung_up a), Some m)
  end.
Definition spec_op (o : op) (a : Spec) : Spec * out :=
  match o with
  | OpTrySend m =>
      if hung_up a then (a, OutTrySend (Err (Closed m)))
      else if Nat.eqb (free a) 0 then (a, OutTrySend (Err (Full m)))
      else (spec_put m a, OutTrySend (Ok tt))
  | OpSend m =>
      if hung_up a then (a, OutSend (Ready (Err m)))
      else if Nat.eqb (free a) 0 then (a, OutSend Pending)
      else (spec_put m a, OutSend (Ready (Ok tt)))
  | OpClone => (mk_spec (msgs a) (free a) (S (senders a)) (hung_up a), OutNone)
  | OpDropSender => (mk_spec (msgs a) (free a) (pred (senders a)) (hung_up a), OutNone)
  | OpRecv =>
      match spec_take a with
      | (a', Some m) => (a', OutRecv (Ready (Some m)))
      | (a', None) =>
          (a', OutRecv (if Nat.eqb (senders a) 0 then Ready None else Pending))
      end
  | OpTryRecv =>
      match spec_take a with
      | (a', Some m) => (a', OutTryRecv (Ok m))
      | (a', None) =>
          (a', OutTryRecv (Err (if Nat.eqb (senders a) 0 then Disconnected else Empty)))
      end
  | OpTryRecvIf p =>
      match take_next (msgs a) with
      | Some (m, _) =>
          if p m then let '(a', r) := spec_take a in (a', OutTryRecvIf r)
          else (a, OutTryRecvIf None)
      | None => (a, OutTryRecvIf None)
      end
  | OpPeek => (a, OutPeek ((fun x => priority (fst x)) <$> take_next (msgs a)))
  | OpDropReceiver => (mk_spec (msgs a) (free a) (senders a) true, OutNone)
  end.

Fixpoint run_ops (os : list op) (s : Shared) : list out :=
  match os with
  | [] => []
  | o :: os => let '(s', r) := run_op o s in r :: run_ops os s'
  end.
Fixpoint spec_ops (os : list op) (a : Spec) : list out :=
  match os with
  | [] => []
  | o :: os => let '(a', r) := spec_op o a in r :: spec_ops os a'
  end.

(** The simulation relation: the heap holds the messages in arrival order, under
    increasing sequence numbers, none of which has wrapped. *)
Definition numbered (es : list (Entry T)) (bound : Z) : Prop :=
  StronglySorted (fun a b => (e_seq a < e_seq b)%Z) es /\
  Forall (fun e => (0 <= e_seq e < bound)%Z /\ e_priority e = priority (e_msg e)) es.
Definition rel (a : Spec) (s : Shared) : Prop :=
  e_msg <$> queue s = msgs a /\ numbered (queue s) (next_seq s) /\
  available (capacity s) = free a /\ is_closed (capacity s) = hung_up a /\
  sender_count s = senders a /\ (0 <= next_seq s)%Z.

End Mailbox.
Arguments Shared {_ _} T.
Arguments poll A : clear implicits.
Arguments Ready {A} _.
Arguments Pending {A}.
Arguments TrySendError T : clear implicits.
Arguments Spec T : clear implicits.
Arguments op T : clear implicits.
Arguments out T : clear implicits.

(** ** Proofs: refinement *)

Section Refinement.
Context `{HS : Semaphore} `{HN : Notify} {T : Type} `{HP : Prioritized T}.
Implicit Types (s : Shared T) (a : Spec T) (es : list (Entry T)).

Lemma entry_cmp_later es (e m : Entry T) :
  Forall (fun x => (e_seq e < e_seq x)%Z) es -> m ∈ es ->
  (entry_cmp e m = Lt <-> rank (e_priority e) < rank (e_priority m)).
Proof.
  intros Hlt Hm. rewrite Forall_forall in Hlt. specialize (Hlt m Hm).
  unfold entry_cmp. destruct (Nat.compare_spec (rank (e_priority e)) (rank (e_priority m))).
  - destruct (Z.compare_spec (e_seq m) (e_seq e)); split; intros; try discriminate; lia.
  - done.
  - split; intros; [discriminate | lia].
Qed.

Lemma heap_pop_sub es e rest : heap_pop es = Some (e, rest) -> e ∈ es /\ sublist rest es.
Proof.
  revert e rest; induction es as [|x es IH]; cbn; [discriminate|]. intros e rest.
  destruct (heap_pop es) as [[m r]|] eqn:Hp.
  - destruct (IH m r eq_refl) as [Hin Hsub].
    destruct (entry_cmp x m); intros [= <- <-]; split; try (by constructor);
      try (by apply sublist_cons); try set_solver; by apply sublist_skip.
  - intros [= <- <-]. split; [constructor | apply sublist_nil_l].
Qed.

Lemma numbered_cons e es b :
  numbered (e :: es) b -> numbered es b /\ Forall (fun x => (e_seq e < e_seq x)%Z) es /\
  (0 <= e_seq e < b)%Z /\ e_priority e = priority (e_msg e).
Proof. intros [Hs Hf]. inversion Hs; inversion Hf; subst. done. Qed.

(** The heap's maximum is the earliest message of the highest priority. *)
Lemma heap_pop_take_next es b :
  numbered es b ->
  match heap_pop es with
  | None => es = [] /\ take_next (e_msg <$> es) = None
  | Some (e, rest) => take_next (e_msg <$> es) = Some (e_msg e, e_msg <$> rest)
  end.
Proof.
  induction es as [|x es IH]; cbn; [done|]. intros Hn.
  apply numbered_cons in Hn as (Hn & Hlt & _ & Hpx).
  specialize (IH Hn). destruct (heap_pop es) as [[m rest]|] eqn:Hp.
  - rewrite IH. destruct (heap_pop_sub _ _ _ Hp) as [Hm _].
    pose proof (entry_cmp_later _ _ _ Hlt Hm) as Hc.
    destruct Hn as [_ Hf]. rewrite Forall_forall in Hf. destruct (Hf m Hm) as [_ Hpm].
    rewrite <- Hpx, <- Hpm.
    destruct (Nat.leb_spec (rank (e_priority m)) (rank (e_priority x)));
      destruct (entry_cmp x m); try done; exfalso;
      first [ enough (rank (e_priority x) < rank (e_priority m)) by lia; by apply Hc
            | discriminate (proj2 Hc ltac:(lia)) ].
  - destruct IH as [-> ->]. done.
Qed.

Lemma sublist_numbered es es' b : sublist es' es -> numbered es b -> numbered es' b.
Proof.
  intros Hsub [Hs Hf]. split.
  - by eapply sublist_sorted.
  - by eapply sublist_Forall.
Qed.

Lemma numbered_snoc es n m :
  numbered es n -> (0 <= n)%Z ->
  numbered (es ++ [mk_entry (priority m) n m]) (n + 1).
Proof.
  intros [Hs Hf] Hn. rewrite Forall_forall in Hf. split.
  - apply StronglySorted_app_2; [ | done | repeat constructor].
    intros x1 x2 H1 H2. apply list_elem_of_singleton in H2 as ->. cbn. by apply Hf.
  - apply Forall_app; split; [|repeat constructor; cbn; lia].
    apply Forall_forall. intros x Hx. destruct (Hf x Hx). split; [lia | done].
Qed.

Lemma rel_channel cap : rel (mk_spec [] cap 1 false) (channel cap).
Proof.
  unfold rel, channel, numbered. destruct (sem_new_spec cap) as [Ha Hc]. cbn.
  split_and!; try done; by constructor.
Qed.

Lemma rel_enqueue a s m n :
  rel a s -> (next_seq s < 2 ^ 64 - 1)%Z -> free a = S n ->
  rel (spec_put m a)
    (enqueue m (set_capacity (fst (try_acquire (capacity s))) s)) \/ hung_up a = true.
Proof.
  intros (Hq & Hn & Hav & Hcl & Hsc & H0) Hb Hfree.
  pose proof (try_acquire_spec (capacity s)) as Ht.
  destruct (try_acquire (capacity s)) as [c r]. destruct Ht as [Hc Ht].
  rewrite Hcl in Ht, Hc. destruct (hung_up a) eqn:Hh; [by right | left].
  rewrite Hav, Hfree in Ht. destruct Ht as [_ Ht].
  unfold rel, enqueue, fetch_seq, notify_receiver, push, set_capacity, spec_put; cbn.
  rewrite Z.mod_small by lia. rewrite fmap_app, Hq, Hfree, Hh. cbn.
  split_and!; try done; [|lia]. by apply numbered_snoc.
Qed.

Lemma rel_acquire_fail a s :
  rel a s -> hung_up a = true \/ free a = 0 ->
  rel a (set_capacity (fst (try_acquire (capacity s))) s).
Proof.
  intros (Hq & Hn & Hav & Hcl & Hsc & H0) Hor.
  pose proof (try_acquire_spec (capacity s)) as Ht.
  destruct (try_acquire (capacity s)) as [c r]. destruct Ht as [Hc Ht].
  unfold rel, set_capacity; cbn. split_and!; try done; try congruence.
  rewrite Hcl in Ht. destruct (hung_up a); [destruct Ht; congruence|].
  destruct Hor as [|Hf]; [done|]. rewrite Hav, Hf in Ht. destruct Ht. congruence.
Qed.

Lemma rel_pop a s :
  rel a s -> rel (fst (spec_take a)) (fst (pop s)) /\ snd (spec_take a) = snd (pop s).
Proof.
  intros (Hq & Hn & Hav & Hcl & Hsc & H0).
  unfold spec_take, pop. pose proof (heap_pop_take_next _ _ Hn) as Ht. rewrite Hq in Ht.
  destruct (heap_pop (queue s)) as [[e rest]|] eqn:Hp.
  - rewrite Ht. cbn. split; [|done]. destruct (heap_pop_sub _ _ _ Hp) as [_ Hsub].
    destruct (release_spec (capacity s)) as [Hr Hr'].
    unfold rel; cbn. split_and!; try done; try congruence. by eapply sublist_numbered.
  - destruct Ht as [_ ->]. done.
Qed.

Lemma rel_peek a s :
  rel a s ->
  (fun x => (priority (fst x), fst x)) <$> take_next (msgs a) =
  (fun e => (e_priority e, e_msg e)) <$> heap_peek (queue s).
Proof.
  intros (Hq & Hn & _). pose proof (heap_pop_take_next _ _ Hn) as Ht. rewrite Hq in Ht.
  unfold heap_peek. destruct (heap_pop (queue s)) as [[e rest]|] eqn:Hp.
  - rewrite Ht. cbn. destruct (heap_pop_sub _ _ _ Hp) as [He _].
    destruct Hn as [_ Hf]. rewrite Forall_forall in Hf. by destruct (Hf e He) as [_ ->].
  - by destruct Ht as [_ ->].
Qed.

Lemma rel_signal a s n :
  rel a (mk_shared (queue s) n (capacity s) (sender_count s) (next_seq s)) <-> rel a s.
Proof. done. Qed.

Lemma pop_empty s : snd (pop s) = None -> pop s = (s, None).
Proof. unfold pop. by destruct (heap_pop (queue s)) as [[? ?]|]. Qed.

Lemma recv_iter_spec s :
  recv_iter s =
  match pop s with
  | (s', Some m) => (s', Some (Some m))
  | (s', None) => (s', if Nat.eqb (sender_count s) 0 then Some None else None)
  end.
Proof.
  unfold recv_iter. pose proof (pop_empty s) as Hp.
  destruct (pop s) as [s' [m|]] eqn:E; [done|]. injection (Hp eq_refl) as ->.
  destruct (Nat.eqb (sender_count s) 0); [by rewrite E | done].
Qed.

(** Two rounds always decide: the second one finds no stored permit. *)
Lemma recv_loop_spec s :
  exists s', recv_loop 2 s =
    Some (s', match snd (pop s) with
              | Some m => Ready (Some m)
              | None => if Nat.eqb (sender_count s) 0 then Ready None else Pending
              end) /\
    (forall a, rel a s' <-> rel a (fst (pop s))).
Proof.
  cbn [recv_loop]. rewrite recv_iter_spec.
  pose proof (pop_empty s) as Hp. destruct (pop s) as [s1 [m|]] eqn:E; cbn.
  { by exists s1. }
  injection (Hp eq_refl) as ->.
  destruct (Nat.eqb (sender_count s) 0) eqn:E0; [by exists s|].
  unfold await_signal at 1. pose proof (notified_spec (signal s)) as Hn.
  destruct (notified (signal s)) as [n w]; destruct Hn as [-> Hn].
  destruct (pending (signal s)).
  - set (s2 := mk_shared _ n _ _ _).
    assert (E2 : pop s2 = (s2, None)).
    { apply pop_empty. unfold pop in *. cbn. destruct (heap_pop (queue s)) as [[? ?]|]; done. }
    rewrite recv_iter_spec, E2. cbn [sender_count s2]. rewrite E0.
    unfold await_signal. pose proof (notified_spec (signal s2)) as Hn2. cbn in Hn2 |- *.
    destruct (notified n) as [n2 w2]; destruct Hn2 as [-> Hn2]. rewrite Hn. by eexists.
  - by eexists.
Qed.

Lemma rel_recv a s : rel a s -> rel (fst (spec_op OpRecv a)) (fst (recv s)) /\
  snd (spec_op OpRecv a) = OutRecv (snd (recv s)).
Proof.
  intros Hr. destruct (recv_loop_spec s) as (s' & He & Hs').
  unfold recv. rewrite He. cbn.
  destruct (rel_pop _ _ Hr) as [Hp Hv]. rewrite <- Hv.
  assert (Hsc : sender_count s = senders a) by (by destruct Hr as (_ & _ & _ & _ & ? & _)).
  rewrite Hsc. destruct (spec_take a) as [a' [m|]]; cbn in *; (split; [by apply Hs' | done]).
Qed.

Lemma next_seq_step (o : op T) s :
  (next_seq s + 1 < 2 ^ 64)%Z -> (0 <= next_seq s)%Z ->
  (next_seq (fst (run_op o s)) <= next_seq s + 1)%Z.
Proof.
  intros Hb H0.
  assert (Hpop : forall s, next_seq (fst (pop s)) = next_seq s)
    by (intros t; unfold pop; by destruct (heap_pop (queue t)) as [[? ?]|]).
  destruct o; cbn [run_op]; try (cbn; lia).
  - unfold try_send. destruct (try_acquire _) as [c []]; cbn; try lia.
    rewrite Z.mod_small by lia. lia.
  - unfold send. destruct (try_acquire _) as [c []]; cbn; try lia.
    rewrite Z.mod_small by lia. lia.
  - unfold drop_sender. destruct (Nat.eqb _ 1); cbn; lia.
  - unfold recv. cbn [recv_loop]. rewrite recv_iter_spec. pose proof (Hpop s) as Hs.
    destruct (pop s) as [s1 [m|]]; cbn in *; [lia|].
    destruct (Nat.eqb (sender_count s) 0); cbn; [lia|].
    unfold await_signal at 1. destruct (notified (signal s1)) as [n []]; cbn; [|lia].
    rewrite recv_iter_spec. set (s2 := mk_shared _ n _ _ _). pose proof (Hpop s2) as Hs2.
    destruct (pop s2) as [s3 [m|]]; cbn in *; [lia|].
    destruct (Nat.eqb (sender_count s1) 0); cbn; [lia|].
    unfold await_signal. destruct (notified (signal s3)) as [n3 []]; cbn; lia.
  - unfold try_recv. pose proof (Hpop s). destruct (pop s) as [s1 [m|]]; cbn in *; lia.
  - unfold try_recv_if. pose proof (Hpop s).
    destruct (match _ with Some _ => _ | None => _ end); [|cbn; lia].
    destruct (pop s) as [s1 r]; cbn in *; lia.
Qed.

(** One method call against one abstract operation. *)
Lemma rel_step (o : op T) a s :
  rel a s -> (next_seq s < 2 ^ 64 - 1)%Z ->
  rel (fst (spec_op o a)) (fst (run_op o s)) /\ snd (spec_op o a) = snd (run_op o s).
Proof.
  intros Hr Hb. pose proof Hr as (Hq & Hn & Hav & Hcl & Hsc & H0).
  assert (Hput : forall m, hung_up a = false -> free a <> 0 ->
    rel (spec_put m a) (enqueue m (set_capacity (fst (try_acquire (capacity s))) s))).
  { intros m Hh Hf. destruct (free a) as [|n] eqn:E; [done|].
    destruct (rel_enqueue a s m n Hr Hb E) as [|]; congruence. }
  pose proof (rel_acquire_fail a s Hr) as Hfail.
  pose proof (try_acquire_spec (capacity s)) as Ht. rewrite Hcl, Hav in Ht.
  destruct o; cbn [run_op spec_op].
  - unfold try_send. destruct (try_acquire (capacity s)) as [c r]; cbn in *.
    destruct Ht as [_ Ht], (hung_up a); [destruct Ht as [-> _]; by split; [apply Hfail; left|]|].
    destruct (free a) as [|n]; destruct Ht as [-> _]; cbn; split; auto.
  - unfold send. destruct (try_acquire (capacity s)) as [c r]; cbn in *.
    destruct Ht as [_ Ht], (hung_up a); [destruct Ht as [-> _]; by split; [apply Hfail; left|]|].
    destruct (free a) as [|n]; destruct Ht as [-> _]; cbn; split; auto.
  - split; [|done]. unfold rel; cbn. rewrite Hsc. by split_and!.
  - split; [|done]. unfold rel, drop_sender; cbn. rewrite <- Hsc.
    destruct (Nat.eqb (sender_count s) 1); cbn; by split_and!.
  - pose proof (rel_recv a s Hr) as [H1 H2]. cbn [spec_op] in *.
    destruct (recv s) as [s' r]. done.
  - pose proof (rel_pop a s Hr) as [H1 H2]. unfold try_recv. rewrite <- Hsc.
    destruct (pop s) as [s' [m|]] eqn:E, (spec_take a) as [a' r]; cbn in *; subst r; cbn;
      (split; [done|]); [done|].
    pose proof (pop_empty s) as Hp. rewrite E in Hp. by injection (Hp eq_refl) as ->.
  - pose proof (rel_pop a s Hr) as [H1 H2]. pose proof (rel_peek a s Hr) as Hpk.
    unfold try_recv_if. destruct (heap_peek (queue s)) as [e|], (take_next (msgs a)) as [[m r]|];
      try discriminate; [|done]. cbn in Hpk. injection Hpk as _ ->. cbn.
    destruct (pred (e_msg e)); [|done].
    destruct (pop s) as [s' x], (spec_take a) as [a' y]; cbn in *. by subst.
  - split; [done|]. pose proof (rel_peek a s Hr) as Hpk. unfold peek_priority.
    destruct (heap_peek (queue s)) as [e|], (take_next (msgs a)) as [[m r]|]; try discriminate;
      [|done]. cbn in Hpk |- *. injection Hpk as -> _. done.
  - split; [|done]. unfold drop_receiver.
    destruct (sem_close_spec (capacity s)) as [Ha Hc]. unfold rel, set_capacity; cbn.
    split_and!; try done; congruence.
Qed.

Lemma rel_run (os : list (op T)) a s :
  rel a s -> (next_seq s + Z.of_nat (length os) < 2 ^ 64)%Z -> run_ops os s = spec_ops os a.
Proof.
  revert a s; induction os as [|o os IH]; intros a s Hr Hb; cbn; [done|].
  rewrite length_cons in Hb.
  pose proof (next_seq_step o s) as Hs.
  destruct (rel_step o a s Hr ltac:(lia)) as [Hr' Ho].
  destruct (run_op o s) as [s' r], (spec_op o a) as [a' r']; cbn in *. subst r'. f_equal.
  apply IH; [done|]. destruct Hr as (_ & _ & _ & _ & _ & H0). lia.
Qed.

(** C15: the mailbox is the list it promises to be.  From a new channel, any
    sequence of fewer than [2^64] calls — sends that wait or do not, clones and
    drops of the handles, every way of receiving, the receiver hanging up —
    returns exactly what the abstract mailbox returns: it holds the messages in
    arrival order, refuses a send when the capacity is used up or the receiver
    is gone, hands out the earliest message of the highest priority present,
    and reports disconnection when it is empty and no sender is left. *)
Theorem mailbox_refines (cap : nat) (os : list (op T))
    (Hlen : (Z.of_nat (length os) < 2 ^ 64)%Z) :
  run_ops os (channel cap) = spec_ops os (mk_spec [] cap 1 false).
Proof. apply rel_run; [apply rel_channel | cbn; lia]. Qed.

End Refinement.

(** ** Concurrent tasks

    Senders run [acquire; fetch_add; push; notify_one], a handle's drop runs
    [fetch_sub] and, if it was the last, [notify_one]; the receiver's loop pops,
    loads the sender count, pops again or awaits.  Any interleaving of these
    atomic accesses is a run.  A sender's call borrows a handle until it
    returns, so the last handle is dropped only when no send is in flight. *)
Section Interleaving.
Context `{HS : Semaphore} `{HN : Notify} {T : Type} `{HP : Prioritized T}.

(** A [send] past its acquire: before [fetch_add], before [push], before
    [notify_one]. *)
Inductive send_pc := SHasPermit (msg : T) | SNumbered (msg : T) (seq : Z) | SPushed.
(** [recv]: about to pop, to load the sender count, to pop again, awaiting the
    signal, or returned. *)
Inductive recv_pc := RPop | RCount | RRecheck | RAwait | RDone (r : option T).

Record Sys := mk_sys {
  shared : Shared T;
  sends : list send_pc;
  owed_drops : nat;   (** last-handle drops that have yet to notify *)
  rpc : recv_pc;
}.

Inductive wstep : Sys -> Sys -> Prop :=
| w_acquire s sends d r msg c :
    0 < sender_count s -> try_acquire (capacity s) = (c, Acquired) ->
    wstep (mk_sys s sends d r) (mk_sys (set_capacity c s) (SHasPermit msg :: sends) d r)
| w_number s l k d r msg :
    wstep (mk_sys s (l ++ SHasPermit msg :: k) d r)
      (mk_sys (fst (fetch_seq s)) (l ++ SNumbered msg (snd (fetch_seq s)) :: k) d r)
| w_push s l k d r msg seq :
    wstep (mk_sys s (l ++ SNumbered msg seq :: k) d r)
      (mk_sys (push seq msg s) (l ++ SPushed :: k) d r)
| w_notify s l k d r :
    wstep (mk_sys s (l ++ SPushed :: k) d r) (mk_sys (notify_receiver s) (l ++ k) d r)
| w_clone s sends d r :
    0 < sender_count s ->
    wstep (mk_sys s sends d r) (mk_sys (clone_sender s) sends d r)
| w_drop s sends d r :
    (2 <= sender_count s \/ (sender_count s = 1 /\ sends = [])) ->
    wstep (mk_sys s sends d r)
      (mk_sys (fetch_sub_count s) sends (if Nat.eqb (sender_count s) 1 then S d else d) r)
| w_drop_notify s sends d r :
    wstep (mk_sys s sends (S d) r) (mk_sys (notify_receiver s) sends d r)
| w_pop s sends d :
    wstep (mk_sys s sends d RPop)
      (mk_sys (fst (pop s)) sends d
         (match snd (pop s) with Some m => RDone (Some m) | None => RCount end))
| w_count s sends d :
    wstep (mk_sys s sends d RCount)
      (mk_sys s sends d (if Nat.eqb (sender_count s) 0 then RRecheck else RAwait))
| w_recheck s sends d :
    wstep (mk_sys s sends d RRecheck) (mk_sys (fst (pop s)) sends d (RDone (snd (pop s))))
| w_wake s sends d :
    snd (await_signal s) = true ->
    wstep (mk_sys s sends d RAwait) (mk_sys (fst (await_signal s)) sends d RPop)
| w_again s sends d m :
    wstep (mk_sys s sends d (RDone m)) (mk_sys s sends d RPop).

Definition sys_init (cap : nat) : Sys := mk_sys (channel cap) [] 0 RPop.

(** A wake-up that is stored, or that some task is about to make. *)
Definition wakeup_due (y : Sys) : Prop :=
  pending (signal (shared y)) = true \/ SPushed ∈ sends y \/ 0 < owed_drops y.

Definition winv (y : Sys) : Prop :=
  (sends y <> [] -> 0 < sender_count (shared y)) /\
  match rpc y with
  | RPop => True
  | RCount => queue (shared y) <> [] -> wakeup_due y
  | RRecheck => sender_count (shared y) = 0
  | RAwait => queue (shared y) <> [] \/ sender_count (shared y) = 0 -> wakeup_due y
  | RDone None => queue (shared y) = [] /\ sender_count (shared y) = 0
  | RDone (Some _) => True
  end.

Lemma pop_none (s : Shared T) : snd (pop s) = None -> queue s = [] /\ fst (pop s) = s.
Proof.
  unfold pop. destruct (queue s) as [|e es] eqn:Hq; [done|]. cbn.
  destruct (heap_pop es) as [[m rest]|]; [destruct (entry_cmp e m)|]; discriminate.
Qed.

Lemma pop_count (s : Shared T) : sender_count (fst (pop s)) = sender_count s.
Proof. unfold pop. by destruct (heap_pop (queue s)) as [[? ?]|]. Qed.

Lemma await_signal_spec (s : Shared T) :
  queue (fst (await_signal s)) = queue s /\
  sender_count (fst (await_signal s)) = sender_count s.
Proof. unfold await_signal. by destruct (notified (signal s)). Qed.

(** Moves of the senders that leave a due wake-up due. *)
Ltac due :=
  unfold wakeup_due in *; cbn in *; rewrite ?notify_one_spec in *;
  repeat match goal with
  | H : context [SPushed ∈ _ ++ _ :: _] |- _ =>
      rewrite elem_of_app, elem_of_cons in H
  end;
  rewrite ?elem_of_app, ?elem_of_cons;
  repeat match goal with
  | H : ?A -> _, G : ?A |- _ => specialize (H G)
  | H : _ \/ _ |- _ => destruct H
  | H : SPushed = _ |- _ => try discriminate H; clear H
  end; auto 6.

Lemma winv_step y y' : winv y -> wstep y y' -> winv y'.
Proof.
  intros [Hb Hr] Hstep. destruct Hstep as
    [s ss d r msg c Hc Ha | s l k d r msg | s l k d r msg seq | s l k d r | s ss d r Hc
    | s ss d r Hc | s ss d r | s ss d | s ss d | s ss d | s ss d Hw | s ss d m];
    unfold winv in *; cbn [shared sends owed_drops rpc] in *.
  - split; [auto|]. destruct r as [| | | |[]]; cbn in *; try done; intros Hq; due.
  - assert (0 < sender_count s) by (apply Hb; by destruct l).
    split; [done|]. destruct r as [| | | |[]]; cbn in *; try done; try lia; intros Hq; due.
  - assert (0 < sender_count s) by (apply Hb; by destruct l).
    split; [done|]. destruct r as [| | | |[]]; cbn in *; try done; try lia; intros Hq; due.
  - assert (0 < sender_count s) by (apply Hb; by destruct l).
    split; [done|]. destruct r as [| | | |[]]; cbn in *; try done; try lia; intros Hq; due.
  - split; [cbn; lia|]. destruct r as [| | | |[]]; cbn in *; try done; try lia.
    intros [Hq|]; [|lia]. due.
  - destruct (Nat.eqb_spec (sender_count s) 1) as [E|E].
    + split; [cbn; destruct Hc as [|[_ ->]]; [lia | done]|].
      destruct r as [| | | |[]]; cbn in *; try done; try lia; intros Hq; unfold wakeup_due; cbn;
        right; right; lia.
    + split; [cbn; intros Hs; specialize (Hb Hs); lia|].
      destruct r as [| | | |[]]; cbn in *; try done; try lia.
      intros [Hq|]; [|lia]. due.
  - split; [done|]. destruct r as [| | | |[]]; cbn in *; try done; intros Hq; due.
  - split; [by rewrite pop_count|].
    destruct (snd (pop s)) eqn:E; [done|]. destruct (pop_none _ E) as [Hq ->]. done.
  - split; [done|]. destruct (Nat.eqb_spec (sender_count s) 0); [done|].
    intros [Hq|]; [|done]. due.
  - split; [by rewrite pop_count|].
    destruct (snd (pop s)) eqn:E; [done|]. destruct (pop_none _ E) as [Hq ->]. done.
  - destruct (await_signal_spec s) as [Hq Hs]. by rewrite Hs.
  - done.
Qed.

Lemma winv_run cap y : rtc wstep (sys_init cap) y -> winv y.
Proof.
  intros Hrun.
  assert (Hi : winv (sys_init cap)) by done.
  induction Hrun; eauto using winv_step.
Qed.

(** No wake-up is lost.  In every interleaving of any number of senders and
    handle drops with the receiver, while the receiver waits for the signal
    with a message in the queue or with every sender gone, a wake-up is already
    stored for it or some task is about to make one — so it never sleeps on a
    message or on the disconnection. *)
Theorem no_lost_wakeup (cap : nat) (y : Sys) (Hrun : rtc wstep (sys_init cap) y)
    (Hwait : rpc y = RAwait)
    (Hwork : queue (shared y) <> [] \/ sender_count (shared y) = 0) :
  wakeup_due y.
Proof. apply winv_run in Hrun as [_ Hr]. rewrite Hwait in Hr. auto. Qed.

(** C33: [recv] reports the end of the mailbox only when it is the end: in every
    interleaving, when it has returned [None] the queue is empty, no handle is
    left and no send is in flight, so no accepted message can be missed. *)
Theorem none_means_drained (cap : nat) (y : Sys) (Hrun : rtc wstep (sys_init cap) y)
    (Hnone : rpc y = RDone None) :
  queue (shared y) = [] /\ sender_count (shared y) = 0 /\ sends y = [].
Proof.
  apply winv_run in Hrun as [Hb Hr]. rewrite Hnone in Hr. destruct Hr as [Hq Hs].
  split_and!; [done.. |]. destruct (sends y); [done|]. exfalso.
  enough (0 < sender_count (shared y)) by lia. by apply Hb.
Qed.

End Interleaving.
Arguments Sys {_ _} T.
Arguments send_pc T : clear implicits.
Arguments recv_pc T : clear implicits.

(** ** Concrete primitives and runs *)
Module Sample.

#[export] Instance counting : Semaphore.
Proof.
  refine {| sem := nat * bool; sem_new n := (n, false);
            try_acquire s := match s with
                             | (n, true) => ((n, true), SemClosed)
                             | (0, false) => ((0, false), NoPermits)
                             | (S n, false) => ((n, false), Acquired)
                             end;
            release s := (S (fst s), snd s); sem_close s := (fst s, true);
            available := fst; is_closed := snd |}; try done.
  by intros [[|n] []].
Defined.
#[export] Instance cell : Notify.
Proof.
  by refine {| notify := bool; notify_new := false; notify_one _ := true;
               notified n := (false, n); pending n := n |}.
Defined.
#[export] Instance tagged : Prioritized (MessagePriority * nat) := fst.

End Sample.
Import Sample.

Lemma mailbox_refines_witness :
  run_ops [OpTrySend (Stop, 1); OpTrySend (Trigger, 2); OpSend (Trigger, 3); OpRecv; OpRecv]
    (channel 2) =
  [OutTrySend (Ok tt); OutTrySend (Ok tt); OutSend Pending; OutRecv (Ready (Some (Trigger, 2)));
   OutRecv (Ready (Some (Stop, 1)))].
Proof. rewrite mailbox_refines by (cbn; lia). vm_compute. reflexivity. Defined.

(** The receiver parks, then a message arrives and its sender has yet to
    notify. *)
Lemma no_lost_wakeup_witness :
  let y := mk_sys (push 0 (Trigger, 1) (fst (fetch_seq (set_capacity ((0, false) : @sem counting) (channel 1)))))
             [SPushed] 0 RAwait in
  rpc y = RAwait /\ wakeup_due y.
Proof.
  split; [done|].
  apply (no_lost_wakeup (T := MessagePriority * nat) 1); [ | done | left; done].
  eapply rtc_l; [apply w_pop|]. eapply rtc_l; [apply w_count|].
  eapply rtc_l; [apply (w_acquire _ _ _ _ (Trigger, 1) ((0, false) : @sem counting)); [cbn; lia | done]|].
  eapply rtc_l; [apply (w_number _ [] [])|]. apply rtc_once. apply (w_push _ [] []).
Defined.

Lemma none_means_drained_witness :
  let y := mk_sys (T := MessagePriority * nat) (fetch_sub_count (channel 1)) [] 1 (RDone None) in
  rpc y = RDone None /\ queue (shared y) = [].
Proof.
  intros y. split; [done|].
  apply (none_means_drained (T := MessagePriority * nat) 1 y); [|done].
  eapply rtc_l; [apply w_drop; right; done|]. eapply rtc_l; [apply w_pop|].
  eapply rtc_l; [apply w_count|]. apply rtc_once.
  exact (w_recheck (fetch_sub_count (channel 1)) [] 1).
Defined.

End Mailbox.
