(* ===== verification/Approval.v ===== *)
(** * Approval resources ([crates/model/src/approval.rs])

    What a tool call touches, and what an "approve always" entry covers: paths
    component by component, hosts case-insensitively with wildcards, commands
    verbatim, environment variables as sets. *)
From S2P Require Import Prelude Message.
Import Message.

Module Approval.

Definition ApprovalDecision_as_str (d : ApprovalDecision) : string :=
  match d with Approve => "approve" | ApproveAlways => "approve_always" | Deny => "deny" end.

Inductive ApprovalResolution := Answered | TimedOut | Abandoned | Policy.
#[export] Instance ApprovalResolution_eq_dec : EqDecision ApprovalResolution.
Proof. solve_decision. Defined.

Definition ApprovalResolution_as_str (r : ApprovalResolution) : string :=
  match r with
  | Answered => "answered" | TimedOut => "timed_out" | Abandoned => "abandoned" | Policy => "policy"
  end.

(** ** Paths

    [std::path] on Unix: a path is compared by its components; repeated and
    trailing separators and inner [.] vanish, [..] stays. *)
Inductive Component := RootDir | CurDir | ParentDir | Normal (s : string).
#[export] Instance Component_eq_dec : EqDecision Component.
Proof. solve_decision. Defined.

#[export] Instance Component_countable : Countable Component.
Proof.
  refine (inj_countable'
    (fun c => match c with RootDir => inl 0 | CurDir => inl 1 | ParentDir => inl 2 | Normal s => inr s end)
    (fun x => match x with inl 0 => RootDir | inl 1 => CurDir | inl _ => ParentDir | inr s => Normal s end)
    _).
  by intros [].
Defined.

Definition component (piece : string) : option Component :=
  if String.eqb piece "" then None
  else if String.eqb piece "." then None
  else if String.eqb piece ".." then Some ParentDir
  else Some (Normal piece).

Definition components (path : string) : list Component :=
  let pieces := Str.split_char "/" path in
  (match pieces with
   | first :: _ :: _ => if String.eqb first "" then [RootDir]
                        else if String.eqb first "." then [CurDir] else []
   | [first] => if String.eqb first "." then [CurDir] else []
   | [] => []
   end) ++ omap component pieces.

(** [Path::starts_with] *)
Definition path_starts_with (path base : string) : bool :=
  bool_decide (components base `prefix_of` components path).

Definition path_covers (approved requested : string) : bool := path_starts_with requested approved.

(** ** Hosts *)

Inductive HostPattern := Exact (h : string) | Wildcard (h : string).

Definition exact (host : string) : HostPattern := Exact (Str.to_ascii_lowercase host).
Definition wildcard (host : string) : HostPattern := Wildcard (Str.to_ascii_lowercase host).

(** The byte before the suffix is an ASCII dot, so the slice of the source
    falls on a character boundary. *)
Definition host_matches (p : HostPattern) (host : string) : bool :=
  match p with
  | Exact h => Str.eq_ignore_ascii_case h host
  | Wildcard h =>
      if Str.eq_ignore_ascii_case h host then true
      else
        let n := String.length host in
        let m := String.length h in
        Nat.ltb (m + 1) n &&
        bool_decide (Str.get_byte (n - m - 1) host = Some "."%char) &&
        Str.eq_ignore_ascii_case (Str.drop (n - m) host) h
  end.

(** ** Resources *)

Inductive ResourceAccess :=
| ReadFile (path : string)
| WriteFile (path : string)
| Http (host : string)
| ExecCommand (command : string)
| Env (vars : list string).

Inductive ApprovedResource :=
| ApprovedReadFile (path : string)
| ApprovedWriteFile (path : string)
| ApprovedHttp (host : HostPattern)
| ApprovedExecCommand (command : string)
| ApprovedEnv (vars : list string).

Definition normalize_vars (vars : list string) : list string := vec_dedup (sort_strings vars).

Definition to_approved (a : ResourceAccess) : ApprovedResource :=
  match a with
  | ReadFile path => ApprovedReadFile path
  | WriteFile path => ApprovedWriteFile path
  | Http host => ApprovedHttp (exact host)
  | ExecCommand command => ApprovedExecCommand command
  | Env vars => ApprovedEnv (normalize_vars vars)
  end.

Definition covers (r : ApprovedResource) (a : ResourceAccess) : bool :=
  match r, a with
  | ApprovedReadFile approved, ReadFile requested => path_covers approved requested
  | ApprovedWriteFile approved, WriteFile requested => path_covers approved requested
  | ApprovedHttp pattern, Http requested => host_matches pattern requested
  | ApprovedExecCommand approved, ExecCommand requested => String.eqb approved requested
  | ApprovedEnv approved, Env requested => bool_decide (approved = normalize_vars requested)
  | _, _ => false
  end.

(** ** Specification: what "the same resource" means *)

Definition within (approved requested : ResourceAccess) : Prop :=
  match approved, requested with
  | ReadFile p, ReadFile q | WriteFile p, WriteFile q =>
      exists below, components q = components p ++ below
  | Http h, Http k => Str.to_ascii_lowercase h = Str.to_ascii_lowercase k
  | ExecCommand c, ExecCommand d => c = d
  | Env vs, Env ws => forall v, v ∈ vs <-> v ∈ ws
  | _, _ => False
  end.

(** ** Sorting and de-duplication make a set canonical *)

Lemma vec_dedup_cons {A} `{EqDecision A} (x y : A) l :
  vec_dedup (x :: y :: l) =
  if decide (x = y) then vec_dedup (y :: l) else x :: vec_dedup (y :: l).
Proof. done. Qed.

Lemma vec_dedup_elem {A} `{EqDecision A} (l : list A) x : x ∈ vec_dedup l <-> x ∈ l.
Proof.
  induction l as [|y l IH]; [done|]. destruct l as [|z l]; [done|].
  rewrite vec_dedup_cons. destruct (decide (y = z)) as [->|Hne].
  - rewrite IH, !elem_of_cons. intuition.
  - by rewrite elem_of_cons, IH, (elem_of_cons (z :: l)).
Qed.

(** Strictly increasing in a total order. *)
Definition string_lt (a b : string) : Prop := String.le a b /\ a <> b.

Lemma string_lt_trans a b c : string_lt a b -> string_lt b c -> string_lt a c.
Proof.
  intros [H1 N1] [H2 N2]. split; [by transitivity b|].
  intros ->. apply N1. by apply (anti_symm String.le).
Qed.

Lemma vec_dedup_sorted (l : list string) :
  StronglySorted String.le l -> StronglySorted string_lt (vec_dedup l).
Proof.
  induction 1 as [|y l Hs IH Hy]; [constructor|]. destruct l as [|z l]; [repeat constructor|].
  rewrite vec_dedup_cons. destruct (decide (y = z)) as [|Hne]; [done|]. constructor; [done|].
  apply Forall_cons in Hy as [Hyz Hy]. apply Forall_forall. intros x Hx.
  assert (Hlt : string_lt y z) by done.
  rewrite vec_dedup_elem in Hx. apply elem_of_cons in Hx as [->|Hx]; [done|].
  apply StronglySorted_inv in Hs as [_ Hz]. rewrite Forall_forall in Hz. specialize (Hz x Hx).
  split; [by transitivity z|]. intros ->. apply Hne.
  by apply (anti_symm String.le).
Qed.

Lemma strict_unique (l k : list string) :
  StronglySorted string_lt l -> StronglySorted string_lt k ->
  (forall x, x ∈ l <-> x ∈ k) -> l = k.
Proof.
  intros Hl; revert k; induction Hl as [|x l Hl IH Hx]; intros k Hk Heq.
  { destruct k as [|y k]; [done|]. exfalso. eapply not_elem_of_nil, Heq. by left. }
  destruct Hk as [|y k Hk Hy]; [exfalso; eapply not_elem_of_nil, Heq; by left|].
  rewrite Forall_forall in Hx, Hy.
  assert (x = y) as <-.
  { pose proof (proj1 (Heq x) ltac:(by left)) as [Hxy|Hxk]%elem_of_cons; [done|].
    pose proof (proj2 (Heq y) ltac:(by left)) as [Hyx|Hyl]%elem_of_cons; [done|].
    exfalso. destruct (string_lt_trans _ _ _ (Hx y Hyl) (Hy x Hxk)). done. }
  f_equal. apply IH; [done|]. intros z. specialize (Heq z). rewrite !elem_of_cons in Heq.
  assert (z ∈ l -> z <> x) by (intros Hz ->; by destruct (Hx x Hz)).
  assert (z ∈ k -> z <> x) by (intros Hz ->; by destruct (Hy x Hz)).
  intuition.
Qed.

Lemma normalize_vars_spec vs ws :
  normalize_vars vs = normalize_vars ws <-> forall v, v ∈ vs <-> v ∈ ws.
Proof.
  assert (Hin : forall l v, v ∈ normalize_vars l <-> v ∈ l).
  { intros l v. unfold normalize_vars, sort_strings.
    by rewrite vec_dedup_elem, merge_sort_Permutation. }
  split.
  - intros Heq v. by rewrite <- (Hin vs), Heq, Hin.
  - intros Heq. apply strict_unique.
    + apply vec_dedup_sorted, StronglySorted_merge_sort; apply _.
    + apply vec_dedup_sorted, StronglySorted_merge_sort; apply _.
    + intros v. rewrite !Hin. apply Heq.
Qed.

(** ** Case-insensitive comparison *)

Lemma eq_ignore_case_spec a b :
  Str.eq_ignore_ascii_case a b = true <-> Str.to_ascii_lowercase a = Str.to_ascii_lowercase b.
Proof. unfold Str.eq_ignore_ascii_case. apply String.eqb_eq. Qed.

Lemma lower_char_idem c : Str.lower_char (Str.lower_char c) = Str.lower_char c.
Proof. by destruct c as [[] [] [] [] [] [] [] []]. Qed.

Lemma lowercase_idem s :
  Str.to_ascii_lowercase (Str.to_ascii_lowercase s) = Str.to_ascii_lowercase s.
Proof.
  unfold Str.to_ascii_lowercase. induction s as [|c s IH]; cbn; [done|].
  by rewrite lower_char_idem, IH.
Qed.

Lemma covers_within (approved requested : ResourceAccess) :
  covers (to_approved approved) requested = true <-> within approved requested.
Proof.
  destruct approved as [p|p|h|c|vs], requested as [q|q|k|d|ws]; cbn; try (split; done).
  - apply bool_decide_eq_true.
  - apply bool_decide_eq_true.
  - by rewrite eq_ignore_case_spec, lowercase_idem.
  - apply String.eqb_eq.
  - rewrite bool_decide_eq_true. apply normalize_vars_spec.
Qed.

(** C37: "approve always" remembers exactly the resource that was approved: the
    entry made from one access covers another precisely when it is the same
    kind of access to the same thing — a path at or below the approved one,
    component by component, the same host up to case, the same command, the
    same set of environment variables. *)
Theorem approval_covers_exactly (approved requested : ResourceAccess) :
  covers (to_approved approved) requested = true <-> within approved requested.
Proof. apply covers_within. Qed.

(** *** Wildcards *)

Lemma drop_length s : Str.drop (String.length s) s = ""%string.
Proof. induction s; cbn; auto. Qed.

Lemma split_at_byte n s c :
  Str.get_byte n s = Some c ->
  exists sub rest, s = (sub +:+ String c rest)%string /\ String.length sub = n /\
    Str.drop (S n) s = rest.
Proof.
  revert s; induction n as [|n IH]; intros [|d s]; cbn; try discriminate.
  - intros [= ->]. by exists "", s.
  - intros H. destruct (IH s H) as (sub & rest & -> & Hlen & Hd).
    exists (String d sub), rest. cbn in *. by rewrite Hlen.
Qed.

Lemma get_byte_app sub c rest :
  Str.get_byte (String.length sub) (sub +:+ String c rest)%string = Some c.
Proof. by induction sub. Qed.

Lemma lowercase_length s : String.length (Str.to_ascii_lowercase s) = String.length s.
Proof. unfold Str.to_ascii_lowercase. induction s; cbn; auto. Qed.

(** A wildcard entry matches its own host and every subdomain, and nothing
    else: a host matches precisely when, case aside, it is the pattern's host or
    a non-empty label sequence, a dot, and the pattern's host. *)
Theorem wildcard_matches_subdomains (h host : string) :
  host_matches (wildcard h) host = true <->
  Str.to_ascii_lowercase host = Str.to_ascii_lowercase h \/
  (exists sub rest, sub <> ""%string /\ host = (sub +:+ "." +:+ rest)%string /\
     Str.to_ascii_lowercase rest = Str.to_ascii_lowercase h).
Proof.
  unfold wildcard. cbn [host_matches].
  destruct (Str.eq_ignore_ascii_case _ host) eqn:He.
  { apply eq_ignore_case_spec in He. rewrite lowercase_idem in He. split; [by left | done]. }
  assert (Hne : Str.to_ascii_lowercase host <> Str.to_ascii_lowercase h).
  { intros Heq. rewrite <- not_true_iff_false, eq_ignore_case_spec, lowercase_idem in He. congruence. }
  rewrite lowercase_length, !andb_true_iff, Nat.ltb_lt, bool_decide_eq_true, eq_ignore_case_spec,
    lowercase_idem.
  set (n := String.length host). set (m := String.length h). split.
  - intros [[Hlt Hdot] Hrest]. right.
    destruct (split_at_byte _ _ _ Hdot) as (sub & rest & Heq & Hlen & Hd).
    exists sub, rest. split_and!; [intros -> | by rewrite Heq |]; [cbn in Hlen; lia|].
    replace (n - m) with (S (n - m - 1)) in Hrest by lia. by rewrite Hd in Hrest.
  - intros [|(sub & rest & Hsub & Heq & Hrest)]; [done|].
    assert (Hm : m = String.length rest).
    { unfold m. by rewrite <- (lowercase_length h), <- Hrest, lowercase_length. }
    assert (Hn : n = String.length sub + S m).
    { unfold n. rewrite Heq, Str.length_app_str. cbn. by rewrite Hm. }
    assert (Hs : 0 < String.length sub) by (destruct sub; [done | cbn; lia]).
    split_and!; [lia | |].
    + replace (n - m - 1) with (String.length sub) by lia. rewrite Heq. apply get_byte_app.
    + replace (n - m) with (String.length (sub +:+ ".")%string)
        by (rewrite Str.length_app_str; cbn; lia).
      rewrite Heq, Str.app_assoc_str, Str.drop_app. done.
Qed.

End Approval.
