(* ===== verification/ApprovalQueue.v ===== *)
(** * The approval gate, its queue and its watchers ([crates/tools/src/approval.rs])

    Pending prompts wait in a queue shared by producers and resolvers; a
    session's crossings between waiting and not waiting go through an outbox to
    the watchers, drained by one thread at a time outside the queue lock. *)
From S2P Require Import Prelude Message Turn Approval.
Import Message Turn Approval.

Module ApprovalQueue.

(** ** Data *)

Record ApprovalRequest := mk_request {
  call_id : string;
  tool_call_id : option string;
  req_session : SessionId;
  user_id : string;
  tool_name : string;
  accesses : list ResourceAccess;
  params_preview : string;
  description : option string;
}.

Record ApprovalOutcome := mk_outcome {
  decision : ApprovalDecision;
  resolution : ApprovalResolution;
}.

Definition answered (d : ApprovalDecision) : ApprovalOutcome := mk_outcome d Answered.
Definition policy (d : ApprovalDecision) : ApprovalOutcome := mk_outcome d Policy.
Definition timed_out : ApprovalOutcome := mk_outcome Deny TimedOut.
Definition abandoned : ApprovalOutcome := mk_outcome Deny Abandoned.

(** The responder is the sending half of a oneshot channel, named by a number;
    a mirror entry has none. *)
Record PendingApproval := mk_pending {
  req : ApprovalRequest;
  responder : option N;
}.

Inductive PendingEdge :=
| Raised (call : string) (tool : string)
| EdgeAnswered
| EdgeAbandoned.

Definition edge_is_pending (e : PendingEdge) : bool :=
  match e with Raised _ _ => true | _ => false end.

Record Queue := mk_queue {
  inner : list PendingApproval;
  outbox : list (SessionId * PendingEdge);
  publishing : bool;
}.
Definition empty_queue : Queue := mk_queue [] [] false.

(** ** Operations under the queue lock

    Each returns whether the caller has to publish: whether it put an edge in
    the outbox. *)

Definition session_waits (s : SessionId) (q : list PendingApproval) : bool :=
  existsb (fun e => bool_decide (req_session (req e) = s)) q.

Definition note_pending_edge (q : list PendingApproval) (s : SessionId) (was_pending : bool)
    (e : PendingEdge) (o : list (SessionId * PendingEdge))
    : list (SessionId * PendingEdge) * bool :=
  if Bool.eqb (session_waits s q) was_pending then (o, false) else (o ++ [(s, e)], true).

Definition push (entry : PendingApproval) (st : Queue) : Queue * bool :=
  let s := req_session (req entry) in
  let raised := Raised (call_id (req entry)) (tool_name (req entry)) in
  let was_pending := session_waits s (inner st) in
  let q := inner st ++ [entry] in
  let '(o, crossed) := note_pending_edge q s was_pending raised (outbox st) in
  (mk_queue q o (publishing st), crossed).

Definition enqueue_mirror (r : ApprovalRequest) (st : Queue) : Queue * bool :=
  push (mk_pending r None) st.

(** What a resolution does to the outside: it fires the prompt's oneshot, or,
    for a mirror, the installed resolver. *)
Inductive effect :=
| OneshotSend (responder : N) (d : ApprovalDecision)
| ResolverCall (call : string) (d : ApprovalDecision).

Definition resolve_head (d : ApprovalDecision) (has_resolver : bool) (st : Queue)
    : Queue * bool * list effect * bool :=
  match inner st with
  | [] => (st, false, [], false)
  | p :: q =>
      let '(o, crossed) := note_pending_edge q (req_session (req p)) true EdgeAnswered (outbox st) in
      (mk_queue q o (publishing st), crossed,
       match responder p with
       | Some tx => [OneshotSend tx d]
       | None => if has_resolver then [ResolverCall (call_id (req p)) d] else []
       end, true)
  end.

Definition remove_call (call : string) (edge : PendingEdge) (st : Queue)
    : option (Queue * bool * PendingApproval) :=
  match position (fun e => String.eqb (call_id (req e)) call) (inner st) with
  | None => None
  | Some pos =>
      match inner st !! pos with
      | None => None
      | Some p =>
          let q := delete pos (inner st) in
          let '(o, crossed) := note_pending_edge q (req_session (req p)) true edge (outbox st) in
          Some (mk_queue q o (publishing st), crossed, p)
      end
  end.

Definition resolve_by_call_id (call : string) (d : ApprovalDecision) (st : Queue)
    : Queue * bool * list effect * option SessionId :=
  match remove_call call EdgeAnswered st with
  | None => (st, false, [], None)
  | Some (st, crossed, p) =>
      (st, crossed, match responder p with Some tx => [OneshotSend tx d] | None => [] end,
       Some (req_session (req p)))
  end.

Definition drop_call (call : string) (st : Queue) : Queue * bool * bool :=
  match remove_call call EdgeAbandoned st with
  | None => (st, false, false)
  | Some (st, crossed, _) => (st, crossed, true)
  end.

Definition peek_head (st : Queue) : option ApprovalRequest := req <$> head (inner st).
Definition list_requests (st : Queue) : list ApprovalRequest := map req (inner st).
Definition queue_len (st : Queue) : nat := length (inner st).
Definition is_empty (st : Queue) : bool := Nat.eqb (queue_len st) 0.
Definition pending_sessions (st : Queue) : gset SessionId :=
  list_to_set (map (fun e => req_session (req e)) (inner st)).

(** The gate: a request pushes its entry, waits, and drops its entry on the way
    out whatever happened. *)
Inductive wait_result := Decided (d : ApprovalDecision) | SenderGone | Elapsed.

Definition request_push (r : ApprovalRequest) (tx : N) (st : Queue) : Queue * bool :=
  push (mk_pending r (Some tx)) st.
Definition request_finish (r : ApprovalRequest) (w : wait_result) (st : Queue)
    : Queue * bool * ApprovalOutcome :=
  let '(st, crossed, _) := drop_call (call_id r) st in
  (st, crossed,
   match w with
   | Decided d => answered d
   | SenderGone => abandoned
   | Elapsed => timed_out
   end).

(** ** The gate map *)

Definition ChannelType := string.
Inductive Gate := AutoDenyGate | RegisteredGate (n : N).

Record ApprovalGateMap := mk_gates {
  type_level : gmap ChannelType Gate;
  session_level : gmap (ChannelType * SessionId) Gate;
}.
Definition no_gates : ApprovalGateMap := mk_gates ∅ ∅.

Definition insert_gate (c : ChannelType) (g : Gate) (m : ApprovalGateMap) : ApprovalGateMap :=
  mk_gates (<[c := g]> (type_level m)) (session_level m).
Definition insert_session (c : ChannelType) (s : SessionId) (g : Gate) (m : ApprovalGateMap)
    : ApprovalGateMap :=
  mk_gates (type_level m) (<[(c, s) := g]> (session_level m)).
Definition remove_gate (c : ChannelType) (m : ApprovalGateMap) : ApprovalGateMap :=
  mk_gates (delete c (type_level m)) (session_level m).
Definition remove_session (c : ChannelType) (s : SessionId) (m : ApprovalGateMap)
    : ApprovalGateMap :=
  mk_gates (type_level m) (delete (c, s) (session_level m)).
Definition get_gate (c : ChannelType) (s : SessionId) (m : ApprovalGateMap) : Gate :=
  match session_level m !! (c, s) with
  | Some g => g
  | None => default AutoDenyGate (type_level m !! c)
  end.

(** ** Concurrent publication

    A mutation that crossed calls [publish_pending], whose atomic accesses
    interleave with those of other threads and with further mutations. *)
Inductive pc :=
| PCrossed                                   (** about to claim the drain *)
| PDraining                                  (** holds the claim, about to pop *)
| PDelivering (e : SessionId * PendingEdge)  (** holds it, running the watchers *)
| PReleasing                                 (** holds it, saw the outbox empty *)
| PReleased                                  (** let go, about to look again *)
| PReclaim.                                  (** saw an edge, about to claim again *)

Inductive mutation :=
| MPush (entry : PendingApproval)
| MResolveHead (d : ApprovalDecision) (has_resolver : bool)
| MResolveCall (call : string) (d : ApprovalDecision)
| MDropCall (call : string).

Definition mutate (m : mutation) (st : Queue) : Queue * bool :=
  match m with
  | MPush entry => push entry st
  | MResolveHead d r => fst (fst (resolve_head d r st))
  | MResolveCall call d => fst (fst (resolve_by_call_id call d st))
  | MDropCall call => fst (drop_call call st)
  end.

(** [seen] is what the watchers were called with, oldest first. *)
Record Sys := mk_sys {
  queue : Queue;
  threads : list pc;
  seen : list (SessionId * PendingEdge);
}.

Definition set_publishing (b : bool) (st : Queue) : Queue := mk_queue (inner st) (outbox st) b.
Definition set_outbox (o : list (SessionId * PendingEdge)) (st : Queue) : Queue :=
  mk_queue (inner st) o (publishing st).

Inductive pstep : Sys -> Sys -> Prop :=
| p_mutate q ts log m :
    pstep (mk_sys q ts log)
      (mk_sys (fst (mutate m q)) (if snd (mutate m q) then PCrossed :: ts else ts) log)
| p_claim q l k log :
    publishing q = false ->
    pstep (mk_sys q (l ++ PCrossed :: k) log)
      (mk_sys (set_publishing true q) (l ++ PDraining :: k) log)
| p_claim_busy q l k log :
    publishing q = true ->
    pstep (mk_sys q (l ++ PCrossed :: k) log) (mk_sys q (l ++ k) log)
| p_pop q l k log e o :
    outbox q = e :: o ->
    pstep (mk_sys q (l ++ PDraining :: k) log)
      (mk_sys (set_outbox o q) (l ++ PDelivering e :: k) log)
| p_deliver q l k log e :
    pstep (mk_sys q (l ++ PDelivering e :: k) log)
      (mk_sys q (l ++ PDraining :: k) (log ++ [e]))
| p_drained q l k log :
    outbox q = [] ->
    pstep (mk_sys q (l ++ PDraining :: k) log) (mk_sys q (l ++ PReleasing :: k) log)
| p_release q l k log :
    pstep (mk_sys q (l ++ PReleasing :: k) log)
      (mk_sys (set_publishing false q) (l ++ PReleased :: k) log)
| p_return q l k log :
    outbox q = [] ->
    pstep (mk_sys q (l ++ PReleased :: k) log) (mk_sys q (l ++ k) log)
| p_more q l k log :
    outbox q <> [] ->
    pstep (mk_sys q (l ++ PReleased :: k) log) (mk_sys q (l ++ PReclaim :: k) log)
| p_reclaim q l k log :
    publishing q = false ->
    pstep (mk_sys q (l ++ PReclaim :: k) log)
      (mk_sys (set_publishing true q) (l ++ PDraining :: k) log)
| p_reclaim_busy q l k log :
    publishing q = true ->
    pstep (mk_sys q (l ++ PReclaim :: k) log) (mk_sys q (l ++ k) log).

Definition sys_init : Sys := mk_sys empty_queue [] [].

(** ** Specification: one bit per session *)

Definition edge_step (waiting : bool) (e : PendingEdge) : option bool :=
  if Bool.eqb (edge_is_pending e) waiting then None else Some (edge_is_pending e).
Fixpoint replay_edges (waiting : bool) (es : list PendingEdge) : option bool :=
  match es with
  | [] => Some waiting
  | e :: es => match edge_step waiting e with Some w => replay_edges w es | None => None end
  end.
#[global] Arguments session_waits : simpl never.
Definition edges_of (s : SessionId) (l : list (SessionId * PendingEdge)) : list PendingEdge :=
  omap (fun x => if bool_decide (fst x = s) then Some (snd x) else None) l.

Definition holds_claim (p : pc) : bool :=
  match p with PDraining | PDelivering _ | PReleasing => true | _ => false end.
Definition in_flight (ts : list pc) : list (SessionId * PendingEdge) :=
  omap (fun p => match p with PDelivering e => Some e | _ => None end) ts.
Definition history (y : Sys) : list (SessionId * PendingEdge) :=
  seen y ++ in_flight (threads y) ++ outbox (queue y).

Definition claims (ts : list pc) : nat := length (List.filter holds_claim ts).

Definition pinv (y : Sys) : Prop :=
  claims (threads y) = (if publishing (queue y) then 1 else 0) /\
  (threads y = [] -> outbox (queue y) = []) /\
  forall s, replay_edges false (edges_of s (history y)) = Some (session_waits s (inner (queue y))).

(** ** Proofs *)

Lemma replay_edges_app w es fs :
  replay_edges w (es ++ fs) = replay_edges w es ≫= fun w' => replay_edges w' fs.
Proof.
  revert w; induction es as [|e es IH]; intros w; cbn; [done|]. by destruct (edge_step w e).
Qed.

Lemma edges_of_app s l k : edges_of s (l ++ k) = edges_of s l ++ edges_of s k.
Proof. apply omap_app. Qed.

Lemma session_waits_app s l k : session_waits s (l ++ k) = session_waits s l || session_waits s k.
Proof. apply existsb_app. Qed.

Lemma session_waits_cons s p k :
  session_waits s (p :: k) = bool_decide (req_session (req p) = s) || session_waits s k.
Proof. done. Qed.

(** A queue operation and what it adds to the outbox. *)
Definition noted (st st' : Queue) (crossed : bool) : Prop :=
  publishing st' = publishing st /\
  exists new, outbox st' = outbox st ++ new /\ (crossed = false -> new = []) /\
    forall s, replay_edges (session_waits s (inner st)) (edges_of s new) =
              Some (session_waits s (inner st')).

Lemma noted_refl st : noted st st false.
Proof. split; [done|]. exists []. by rewrite app_nil_r. Qed.

Lemma noted_note st q s was e :
  session_waits s (inner st) = was ->
  (forall s', s' <> s -> session_waits s' q = session_waits s' (inner st)) ->
  (session_waits s q <> was -> edge_is_pending e = session_waits s q) ->
  let '(o, crossed) := note_pending_edge q s was e (outbox st) in
  noted st (mk_queue q o (publishing st)) crossed.
Proof.
  intros Hwas Hother Hdir. unfold note_pending_edge.
  destruct (Bool.eqb (session_waits s q) was) eqn:E.
  - apply Bool.eqb_prop in E. split; [done|]. exists []. cbn. rewrite app_nil_r.
    split_and!; [done | done |]. intros s'. cbn [edges_of omap list_omap replay_edges].
    destruct (decide (s' = s)) as [->|Hne]; [congruence | by rewrite Hother].
  - apply Bool.eqb_false_iff in E. split; [done|]. exists [(s, e)]. split_and!; [done | done |].
    intros s'. destruct (decide (s = s')) as [->|Hne].
    + replace (edges_of s' [(s', e)]) with [e]
        by (unfold edges_of; cbn; by rewrite bool_decide_eq_true_2).
      cbn [replay_edges]. unfold edge_step. rewrite (Hdir E), Hwas.
      apply Bool.eqb_false_iff in E. by rewrite E.
    + replace (edges_of s' [(s, e)]) with (@nil PendingEdge)
        by (unfold edges_of; cbn; by rewrite bool_decide_eq_false_2).
      cbn [replay_edges]. by rewrite Hother.
Qed.

Lemma push_noted entry st : noted st (fst (push entry st)) (snd (push entry st)).
Proof.
  unfold push. set (s := req_session (req entry)).
  assert (Hs : session_waits s (inner st ++ [entry]) = true).
  { rewrite session_waits_app, session_waits_cons, bool_decide_eq_true_2 by done. apply orb_true_r. }
  pose proof (noted_note st (inner st ++ [entry]) s (session_waits s (inner st))
                (Raised (call_id (req entry)) (tool_name (req entry))) eq_refl) as H.
  destruct (note_pending_edge _ _ _ _ _) as [o crossed]. apply H.
  - intros s' Hne. rewrite session_waits_app, session_waits_cons, bool_decide_eq_false_2 by done.
    apply orb_false_r.
  - by rewrite Hs.
Qed.

Lemma removal_noted st l p k e :
  inner st = l ++ p :: k -> edge_is_pending e = false ->
  let '(o, crossed) := note_pending_edge (l ++ k) (req_session (req p)) true e (outbox st) in
  noted st (mk_queue (l ++ k) o (publishing st)) crossed.
Proof.
  intros Hin He. apply noted_note.
  - rewrite Hin, session_waits_app, session_waits_cons, bool_decide_eq_true_2 by done. apply orb_true_r.
  - intros s' Hne. rewrite Hin, !session_waits_app, session_waits_cons.
    by rewrite bool_decide_eq_false_2.
  - rewrite He. by destruct (session_waits _ _).
Qed.

Lemma remove_call_noted call e st :
  edge_is_pending e = false ->
  match remove_call call e st with
  | Some (st', crossed, _) => noted st st' crossed
  | None => True
  end.
Proof.
  intros He. unfold remove_call. destruct (position _ (inner st)) as [pos|]; [|done].
  destruct (inner st !! pos) as [p|] eqn:Hp; [|done].
  apply list_elem_of_split_length in Hp as (l & k & Hin & ->).
  rewrite Hin. rewrite delete_middle.
  pose proof (removal_noted st l p k e Hin He) as H.
  by destruct (note_pending_edge _ _ _ _ _).
Qed.

Lemma mutate_noted m st : noted st (fst (mutate m st)) (snd (mutate m st)).
Proof.
  destruct m as [entry|d r|call d|call]; cbn [mutate].
  - apply push_noted.
  - unfold resolve_head. destruct (inner st) as [|p q] eqn:Hin; [apply noted_refl|].
    pose proof (removal_noted st [] p q EdgeAnswered Hin eq_refl) as H. cbn [app] in H.
    by destruct (note_pending_edge _ _ _ _ _).
  - unfold resolve_by_call_id. pose proof (remove_call_noted call EdgeAnswered st eq_refl) as H.
    destruct (remove_call _ _ st) as [[[st' c] p]|]; [done | apply noted_refl].
  - unfold drop_call. pose proof (remove_call_noted call EdgeAbandoned st eq_refl) as H.
    destruct (remove_call _ _ st) as [[[st' c] p]|]; [done | apply noted_refl].
Qed.

(** *** The publication invariant *)

Lemma claims_app l k : claims (l ++ k) = claims l + claims k.
Proof. unfold claims. by split_app. Qed.
Lemma claims_cons p k : claims (p :: k) = (if holds_claim p then 1 else 0) + claims k.
Proof. unfold claims. cbn. by destruct (holds_claim p). Qed.
Lemma in_flight_app l k : in_flight (l ++ k) = in_flight l ++ in_flight k.
Proof. apply omap_app. Qed.

Lemma no_claims_idle ts : claims ts = 0 -> in_flight ts = [].
Proof.
  unfold claims, in_flight. induction ts as [|p ts IH]; [done|]. cbn.
  destruct p; cbn; try done.
Qed.

Lemma claims_nonempty l k : claims (l ++ k) = 1 -> l ++ k <> [].
Proof. intros H E. rewrite E in H. discriminate. Qed.

Lemma pinv_step y y' : pinv y -> pstep y y' -> pinv y'.
Proof.
  intros (Hc & He & Hr) Hstep. destruct Hstep; unfold pinv, history in *;
    cbn [queue threads seen publishing outbox inner set_publishing set_outbox] in *;
    rewrite ?claims_app, ?claims_cons, ?in_flight_app in *; cbn [holds_claim] in *.
  - destruct (mutate_noted m q) as (Hp & new & Ho & Hnew & Hrep).
    destruct (mutate m q) as [q' crossed]; cbn [fst snd] in *. rewrite Hp, Ho.
    assert (Hfl : in_flight (if crossed then PCrossed :: ts else ts) = in_flight ts)
      by (by destruct crossed).
    rewrite Hfl. split_and!.
    + destruct crossed; [by rewrite claims_cons | done].
    + destruct crossed; [done|]. intros Hts. rewrite (He Hts), Hnew by done. done.
    + intros s. rewrite !app_assoc, edges_of_app, replay_edges_app, <- app_assoc, Hr. apply Hrep.
  - split_and!; [ | by destruct l | exact Hr]. destruct (publishing q); [done | lia].
  - split_and!; [done | | exact Hr]. rewrite H in Hc.
    intros Hnil. apply app_eq_nil in Hnil as [-> ->]. cbn in Hc. lia.
  - split_and!; [done | by destruct l |]. intros s. rewrite <- Hr. f_equal.
    assert (Hidle : claims l = 0 /\ claims k = 0) by (destruct (publishing q); lia).
    change (in_flight (PDelivering e :: k)) with (e :: in_flight k).
    change (in_flight (PDraining :: k)) with (in_flight k).
    rewrite (no_claims_idle l), (no_claims_idle k) by apply Hidle. by rewrite H.
  - split_and!; [done | by destruct l |]. intros s. rewrite <- Hr. f_equal.
    assert (Hidle : claims l = 0 /\ claims k = 0) by (destruct (publishing q); lia).
    change (in_flight (PDelivering e :: k)) with (e :: in_flight k).
    change (in_flight (PDraining :: k)) with (in_flight k).
    rewrite (no_claims_idle l), (no_claims_idle k) by apply Hidle. cbn. by rewrite <- app_assoc.
  - split_and!; [done | by destruct l | exact Hr].
  - split_and!; [ | by destruct l | exact Hr]. destruct (publishing q); lia.
  - split_and!; [done | by intros _ | exact Hr].
  - split_and!; [done | by destruct l | exact Hr].
  - split_and!; [ | by destruct l | exact Hr]. destruct (publishing q); [done | lia].
  - split_and!; [done | | exact Hr]. rewrite H in Hc.
    intros Hnil. apply app_eq_nil in Hnil as [-> ->]. cbn in Hc. lia.
Qed.

Lemma pinv_run y : rtc pstep sys_init y -> pinv y.
Proof.
  intros Hrun. assert (Hi : pinv sys_init) by (split_and!; [done | done | by intros s]).
  induction Hrun; eauto using pinv_step.
Qed.

(** C33: watchers hear a session's crossings in order.  Whatever threads push,
    resolve and drop prompts at the same time, the edges delivered for a
    session so far alternate strictly, a raise first — no crossing is doubled,
    skipped or overtaken. *)
Theorem watchers_alternate (y : Sys) (Hrun : rtc pstep sys_init y) (s : SessionId) :
  exists waiting, replay_edges false (edges_of s (seen y)) = Some waiting.
Proof.
  apply pinv_run in Hrun as (_ & _ & Hr). specialize (Hr s). unfold history in Hr.
  rewrite edges_of_app, replay_edges_app in Hr.
  destruct (replay_edges false (edges_of s (seen y))) as [w|]; [by exists w | discriminate].
Qed.

(** No crossing is stranded.  Once every call has returned, the watchers
    have been told everything: for each session, the edges they heard end in
    exactly the state of the queue — waiting when a prompt of the session is
    parked, not waiting when none is. *)
Theorem watchers_converge (y : Sys) (Hrun : rtc pstep sys_init y) (Hquiet : threads y = [])
    (s : SessionId) :
  outbox (queue y) = [] /\
  replay_edges false (edges_of s (seen y)) = Some (session_waits s (inner (queue y))).
Proof.
  apply pinv_run in Hrun as (_ & He & Hr). specialize (Hr s). unfold history in Hr.
  rewrite Hquiet, (He Hquiet), app_nil_r in Hr. split; [by apply He | done].
Qed.

(** ** The gate map as a log of registrations *)

Inductive registration :=
| RegType (c : ChannelType) (g : Gate)
| RegSession (c : ChannelType) (s : SessionId) (g : Gate)
| DropType (c : ChannelType)
| DropSession (c : ChannelType) (s : SessionId).

Definition register (r : registration) (m : ApprovalGateMap) : ApprovalGateMap :=
  match r with
  | RegType c g => insert_gate c g m
  | RegSession c s g => insert_session c s g m
  | DropType c => remove_gate c m
  | DropSession c s => remove_session c s m
  end.

(** The last registration of a key decides; [None] when it was dropped or never
    made. *)
Fixpoint latest {A} (f : registration -> option A) (rs : list registration) : option A :=
  match rs with
  | [] => None
  | r :: rs => match latest f rs with Some x => Some x | None => f r end
  end.
Definition type_event (c : ChannelType) (r : registration) : option (option Gate) :=
  match r with
  | RegType c' g => if decide (c' = c) then Some (Some g) else None
  | DropType c' => if decide (c' = c) then Some None else None
  | _ => None
  end.
Definition session_event (c : ChannelType) (s : SessionId) (r : registration)
    : option (option Gate) :=
  match r with
  | RegSession c' s' g => if decide ((c', s') = (c, s)) then Some (Some g) else None
  | DropSession c' s' => if decide ((c', s') = (c, s)) then Some None else None
  | _ => None
  end.

Definition gates_after (rs : list registration) : ApprovalGateMap :=
  foldl (fun m r => register r m) no_gates rs.

Lemma latest_snoc {A} (f : registration -> option A) rs r :
  latest f (rs ++ [r]) = match f r with Some x => Some x | None => latest f rs end.
Proof.
  induction rs as [|r' rs IH]; cbn; [by destruct (f r)|]. rewrite IH. by destruct (f r).
Qed.

Lemma gates_after_levels rs c s :
  type_level (gates_after rs) !! c = default None (latest (type_event c) rs) /\
  session_level (gates_after rs) !! (c, s) = default None (latest (session_event c s) rs).
Proof.
  unfold gates_after. induction rs as [|r rs [IH1 IH2]] using rev_ind; [done|].
  rewrite foldl_app, !latest_snoc. cbn [foldl].
  destruct r; cbn [register insert_gate insert_session remove_gate remove_session
    type_level session_level type_event session_event]; rewrite ?IH1, ?IH2; split; try done;
    rewrite ?lookup_insert, ?lookup_delete, ?IH1, ?IH2; by case_decide.
Qed.

(** A tool call is answered by the right gate.  After any registrations and
    removals, the gate of a session is the one last registered for that session
    on the channel if it still is, else the channel's own, else the one that
    denies everything: an unregistered channel never approves. *)
Theorem gate_resolution (rs : list registration) (c : ChannelType) (s : SessionId) :
  get_gate c s (gates_after rs) =
  match default None (latest (session_event c s) rs) with
  | Some g => g
  | None => default AutoDenyGate (default None (latest (type_event c) rs))
  end.
Proof.
  unfold get_gate. destruct (gates_after_levels rs c s) as [-> ->]. done.
Qed.

(** ** A run: a prompt raised and answered *)
Module Sample.

Definition prompt : PendingApproval :=
  mk_pending (mk_request "a1" (Some "t1") "cli-1" "" "Bash" [ExecCommand "ls"] "{}" None) (Some 1%N).
Definition waiting_sys : Sys :=
  mk_sys (mk_queue [prompt] [] false) [] [("cli-1", Raised "a1" "Bash")].

Lemma waiting_run : rtc pstep sys_init waiting_sys.
Proof.
  eapply rtc_l; [apply (p_mutate _ _ _ (MPush prompt))|].
  eapply rtc_l; [apply (p_claim _ [] []); done|].
  eapply rtc_l; [apply (p_pop _ [] [] _ ("cli-1", Raised "a1" "Bash") []); done|].
  eapply rtc_l; [apply (p_deliver _ [] [])|].
  eapply rtc_l; [apply (p_drained _ [] []); done|].
  eapply rtc_l; [apply (p_release _ [] [])|].
  apply rtc_once. by apply (p_return _ [] []).
Qed.

End Sample.
Import Sample.

Lemma watchers_alternate_witness :
  exists waiting, replay_edges false (edges_of "cli-1" (seen waiting_sys)) = Some waiting.
Proof. exact (watchers_alternate waiting_sys waiting_run "cli-1"%string). Defined.

Lemma watchers_converge_witness :
  replay_edges false (edges_of "cli-1" (seen waiting_sys)) = Some true.
Proof. exact (proj2 (watchers_converge waiting_sys waiting_run eq_refl "cli-1"%string)). Defined.

End ApprovalQueue.
