(* ===== verification/ReadTracker.v ===== *)
(** * Read before write ([crates/tools/src/read_tracker.rs] and the file tools)

    The tracker that lets [Edit] and [Write] change a file only when the model
    has seen its current content, the hydration of the tracker from a
    transcript, and the two tools' own steps outside the managed persona
    directories.  What the operating system answers ([canonicalize], [stat],
    the read, the write) is an argument at each step, so that any change of the
    file system between two steps is covered. *)
From S2P Require Import Prelude Message Approval.
Import Message Approval.

Module ReadTracker.

Inductive ReadCheck := Current | NeverRead | Stale.

(** U+2014 in UTF-8. *)
Definition em_dash : string :=
  String (ascii_of_nat 226) (String (ascii_of_nat 128) (String (ascii_of_nat 148) "")).

Definition rejection (c : ReadCheck) (path action : string) : option string :=
  match c with
  | Current => None
  | NeverRead => Some
      (path +:+ " has not been read in this session " +:+ em_dash
       +:+ " use the Read tool on it before " +:+ action
       +:+ ". Editing a file you have not read risks clobbering content you cannot see.")%string
  | Stale => Some
      (path +:+ " has changed on disk since you last read it (edited by the user, a formatter, "
       +:+ "another tool, or " +:+ em_dash
       +:+ " for a shared file " +:+ em_dash
       +:+ " another agent) " +:+ em_dash
       +:+ " use the Read tool on it again before " +:+ action
       +:+ " so your change applies to the current content.")%string
  end.

(** [PathBuf] keys are compared by their components. *)
Definition PathKey : Type := list Component.

Record Inner := mk_inner {
  committed : gmap PathKey FileFingerprint;
  pending : gmap PathKey FileFingerprint;
}.
Definition empty_tracker : Inner := mk_inner ∅ ∅.

(** The canonical path, or the path as given when the file system cannot
    resolve it. *)
Definition key (canonicalize : string -> option string) (path : string) : PathKey :=
  components (default path (canonicalize path)).

(** [extend]: the promoted entries overwrite. *)
Definition begin_response (t : Inner) : Inner := mk_inner (pending t ∪ committed t) ∅.

Section Ops.
Context (canonicalize : string -> option string).

Definition record_read (path : string) (fp : FileFingerprint) (t : Inner) : Inner :=
  mk_inner (committed t) (<[key canonicalize path := fp]> (pending t)).
Definition record_committed (path : string) (fp : FileFingerprint) (t : Inner) : Inner :=
  mk_inner (<[key canonicalize path := fp]> (committed t)) (pending t).
Definition record_prompt_delivered (path : string) (fp : FileFingerprint) (t : Inner) : Inner :=
  record_committed path fp t.
(** [meta] is what the [stat] after the write answered. *)
Definition record_write_from_disk (path : string) (meta : option FileFingerprint) (t : Inner)
    : Inner :=
  match meta with
  | Some fp => record_committed path fp t
  | None => t
  end.

Definition check (path : string) (current : FileFingerprint) (t : Inner) : ReadCheck :=
  match committed t !! key canonicalize path with
  | None => NeverRead
  | Some recorded => if decide (recorded = current) then Current else Stale
  end.

Definition get (path : string) (t : Inner) : option FileFingerprint :=
  match pending t !! key canonicalize path with
  | Some fp => Some fp
  | None => committed t !! key canonicalize path
  end.

(** *** Hydration *)

Definition READ_TRACKER_ANCHORING_TOOLS : list string := ["Read"; "Edit"; "Write"].
Definition FILE_WRITING_TOOLS : list string := ["Edit"; "Write"].

Definition anchor_path (b : ContentBlock) : option (string * string) :=
  match b with
  | ToolUse id name inp _ =>
      if bool_decide (name ∈ READ_TRACKER_ANCHORING_TOOLS) then
        pair id <$> Json.get_str inp "file_path"
      else None
  | _ => None
  end.
Definition anchor_fingerprint (b : ContentBlock) : option (string * FileFingerprint) :=
  match b with
  | ToolResult id _ (Some meta) => pair id <$> read_fingerprint meta
  | _ => None
  end.

Definition blocks (ms : list ChatMessage) : list ContentBlock := concat (map content ms).

Definition read_paths (ms : list ChatMessage) : gmap string string :=
  foldl (fun m '(id, path) => <[id := path]> m) ∅ (omap anchor_path (blocks ms)).

Definition rebuild_from_messages (ms : list ChatMessage) (t : Inner) : Inner :=
  foldl (fun t '(id, fp) =>
           match read_paths ms !! id with
           | Some path => record_committed path fp t
           | None => t
           end) t (omap anchor_fingerprint (blocks ms)).

End Ops.

(** ** The file tools *)

Inductive ToolError :=
| NotFound (s : string)
| InvalidParams (s : string)
| Execution (s : string)
| Timeout (s : string)
| NotImplemented (s : string)
| SubagentDepthExceeded (current_depth cap : N)
| SubagentFanoutExceeded (current_count cap : N)
| Denied (tool reason : string)
| Mcp (s : string)
| Internal (s : string).

(** [str::matches(p).count()]: occurrences that do not overlap, from the left;
    the empty pattern matches at every character boundary. *)
Fixpoint count_go (p : string) (skip : nat) (s : string) : nat :=
  match s with
  | EmptyString => 0
  | String _ s' =>
      match skip with
      | S k => count_go p k s'
      | 0 => if Str.starts_with p s then S (count_go p (pred (String.length p)) s')
             else count_go p 0 s'
      end
  end.
Definition matches_count (p s : string) : nat :=
  if String.eqb p "" then S (Str.char_count s) else count_go p 0 s.

(** [replacen(p, to, 1)] *)
Fixpoint replace_first (p to s : string) : string :=
  if Str.starts_with p s then (to +:+ Str.drop (String.length p) s)%string
  else match s with
       | EmptyString => EmptyString
       | String c s' => String c (replace_first p to s')
       end.

(** [replace] with the empty pattern: at every character boundary. *)
Fixpoint replace_empty (to s : string) : string :=
  match s with
  | EmptyString => to
  | String c s' =>
      if Str.is_char_start c then (to +:+ String c (replace_empty to s'))%string
      else String c (replace_empty to s')
  end.
Definition replace_all (p to s : string) : string :=
  if String.eqb p "" then replace_empty to s else Str.replace p to s.

Definition is_absolute (path : string) : bool := Str.starts_with "/" path.
Definition require_absolute (path tool field : string) : result unit ToolError :=
  if is_absolute path then Ok tt
  else Err (InvalidParams
    (tool +:+ " `" +:+ field +:+ "` must be an absolute path, got `" +:+ path +:+ "`"))%string.

Record EditParams := mk_edit {
  file_path : string;
  old_string : string;
  new_string : string;
  replace_all_flag : bool;
}.

Definition nat_text (n : nat) : string := pretty (N.of_nat n).

(** The answers of the operating system, in the order the tool asks. *)
Record Answers := mk_answers {
  canonical : string -> option string;
  stat_before : option FileFingerprint;
  read_back : result string string;
  write_done : result unit string;
  stat_after : option FileFingerprint;
}.

(** The read-before-write gate shared by the two tools: no tracker, or a file
    that cannot be [stat]ed, passes. *)
Definition write_gate (a : Answers) (tracker : option Inner) (path action : string)
    : result unit ToolError :=
  match tracker, stat_before a with
  | Some t, Some meta =>
      match rejection (check (canonical a) path meta t) path action with
      | Some reason => Err (Execution reason)
      | None => Ok tt
      end
  | _, _ => Ok tt
  end.

Definition edit_update (p : EditParams) (contents : string) : result (string * nat) ToolError :=
  let matches := matches_count (old_string p) contents in
  if Nat.eqb matches 0 then Err (Execution "old_string not found in file")
  else if negb (replace_all_flag p) && Nat.ltb 1 matches then
    Err (Execution ("old_string matches " +:+ nat_text matches
                    +:+ " times; set replace_all=true or add more context"))%string
  else if replace_all_flag p then
    Ok (replace_all (old_string p) (new_string p) contents, matches)
  else Ok (replace_first (old_string p) (new_string p) contents, 1).

(** [Edit] on a path outside the managed directories: what it left in the
    tracker, what it wrote, and its answer. *)
Definition edit_execute (p : EditParams) (a : Answers) (tracker : option Inner)
    : option Inner * option string * result string ToolError :=
  let outcome :=
    let? _ := require_absolute (file_path p) "Edit" "file_path" in
    let? _ := (if String.eqb (old_string p) (new_string p)
               then Err (InvalidParams "old_string and new_string are identical") else Ok tt) in
    let? _ := write_gate a tracker (file_path p) "editing it" in
    let? contents := (match read_back a with
                      | Ok c => Ok c
                      | Err e => Err (Execution ("read " +:+ file_path p +:+ ": " +:+ e)%string)
                      end) in
    edit_update p contents in
  match outcome with
  | Err e => (tracker, None, Err e)
  | Ok (updated, replaced) =>
      match write_done a with
      | Err e => (tracker, Some updated, Err (Execution ("write " +:+ file_path p +:+ ": " +:+ e)%string))
      | Ok _ =>
          (record_write_from_disk (canonical a) (file_path p) (stat_after a) <$> tracker,
           Some updated,
           Ok ("replaced " +:+ nat_text replaced +:+ " occurrence(s) in " +:+ file_path p)%string)
      end
  end.

(** [Write] on a path outside the managed directories. *)
Definition write_execute (path body : string) (a : Answers) (tracker : option Inner)
    : option Inner * option string * result string ToolError :=
  let outcome :=
    let? _ := require_absolute path "Write" "file_path" in
    write_gate a tracker path "overwriting it with Write" in
  match outcome with
  | Err e => (tracker, None, Err e)
  | Ok _ =>
      match write_done a with
      | Err e => (tracker, Some body, Err (Execution ("write " +:+ path +:+ ": " +:+ e)%string))
      | Ok _ =>
          (record_write_from_disk (canonical a) path (stat_after a) <$> tracker, Some body,
           Ok ("wrote " +:+ nat_text (String.length body) +:+ " bytes to " +:+ path)%string)
      end
  end.

(** ** Histories of a session's tracker *)

Inductive event :=
| Begin
| ReadSeen (canon : string -> option string) (path : string) (fp : FileFingerprint)
| PromptSeen (canon : string -> option string) (path : string) (fp : FileFingerprint)
| Wrote (canon : string -> option string) (path : string) (meta : option FileFingerprint).

Definition apply_event (t : Inner) (e : event) : Inner :=
  match e with
  | Begin => begin_response t
  | ReadSeen canon path fp => record_read canon path fp t
  | PromptSeen canon path fp => record_prompt_delivered canon path fp t
  | Wrote canon path meta => record_write_from_disk canon path meta t
  end.
Definition after (h : list event) : Inner := foldl apply_event empty_tracker h.

(** The event vouches for content [fp] under key [k]. *)
Definition read_of (k : PathKey) (fp : FileFingerprint) (e : event) : Prop :=
  match e with ReadSeen canon path fp' => key canon path = k /\ fp' = fp | _ => False end.
Definition anchored_by (k : PathKey) (fp : FileFingerprint) (e : event) : Prop :=
  match e with
  | PromptSeen canon path fp' => key canon path = k /\ fp' = fp
  | Wrote canon path meta => key canon path = k /\ meta = Some fp
  | _ => False
  end.

(** The model had seen the content: a read completed in an earlier response, the
    system prompt, or its own write. *)
Definition vouched (k : PathKey) (fp : FileFingerprint) (h : list event) : Prop :=
  (exists h1 e h2, h = h1 ++ e :: h2 /\ read_of k fp e /\ Begin ∈ h2) \/
  (exists e, e ∈ h /\ anchored_by k fp e).
Definition staged (k : PathKey) (fp : FileFingerprint) (h : list event) : Prop :=
  exists h1 e h2, h = h1 ++ e :: h2 /\ read_of k fp e.

Lemma vouched_snoc k fp h e : vouched k fp h -> vouched k fp (h ++ [e]).
Proof.
  intros [(h1 & r & h2 & -> & Hr & Hb) | (r & Hin & Hr)]; [left | right].
  - exists h1, r, (h2 ++ [e]). rewrite <- app_assoc. split_and!; [done.. |].
    apply elem_of_app. by left.
  - exists r. split; [|done]. apply elem_of_app. by left.
Qed.

Lemma staged_snoc k fp h e : staged k fp h -> staged k fp (h ++ [e]).
Proof. intros (h1 & r & h2 & -> & Hr). exists h1, r, (h2 ++ [e]). by rewrite <- app_assoc. Qed.

Lemma after_inv h k fp :
  (committed (after h) !! k = Some fp -> vouched k fp h) /\
  (pending (after h) !! k = Some fp -> staged k fp h).
Proof.
  revert k fp. induction h as [|e h IH] using rev_ind; intros k fp.
  { split; cbn; by rewrite lookup_empty. }
  unfold after in *. rewrite foldl_app. cbn [foldl]. set (t := foldl _ _ h) in *.
  assert (Hv : committed t !! k = Some fp -> vouched k fp (h ++ [e]))
    by (intros; by apply vouched_snoc, IH).
  assert (Hs : pending t !! k = Some fp -> staged k fp (h ++ [e]))
    by (intros; by apply staged_snoc, IH).
  assert (Hlast : e ∈ h ++ [e]) by (apply elem_of_app; right; by left).
  destruct e as [|canon path fp'|canon path fp'|canon path [fp'|]];
    cbn [apply_event begin_response record_read record_prompt_delivered record_committed
         record_write_from_disk committed pending]; try done.
  - rewrite lookup_empty. split; [|done]. rewrite lookup_union_Some_raw.
    intros [Hp | [_ Hc]]; [|by apply Hv].
    destruct (proj2 (IH k fp) Hp) as (h1 & r & h2 & -> & Hr). left.
    exists h1, r, (h2 ++ [Begin]). rewrite <- app_assoc. split_and!; [done.. |].
    apply elem_of_app. right. by left.
  - split; [done|]. rewrite lookup_insert_Some. intros [[<- <-] | [_ Hp]]; [|by apply Hs].
    by exists h, (ReadSeen canon path fp'), [].
  - split; [|done]. rewrite lookup_insert_Some. intros [[<- <-] | [_ Hc]]; [|by apply Hv].
    right. by eexists.
  - split; [|done]. rewrite lookup_insert_Some. intros [[<- <-] | [_ Hc]]; [|by apply Hv].
    right. by eexists.
Qed.

Lemma gate_vouched h a path action meta :
  stat_before a = Some meta -> write_gate a (Some (after h)) path action = Ok tt ->
  vouched (key (canonical a) path) meta h.
Proof.
  unfold write_gate, check. intros ->.
  destruct (committed (after h) !! _) as [fp|] eqn:Hc; [|discriminate].
  case_decide as E; [|discriminate]. intros _. subst fp. by apply after_inv.
Qed.

(** C37: no blind write.  In any session, if [Edit] or [Write] gets as far as
    writing a file that exists, then the version of the file on disk when the
    tool looked is one the model had been shown: by a read that completed in an
    earlier response, by the system prompt, or by its own write — a read in the
    same response does not count. *)
Theorem no_blind_write (h : list event) (a : Answers) (meta : FileFingerprint)
    (Hexists : stat_before a = Some meta) :
  (forall p written, snd (fst (edit_execute p a (Some (after h)))) = Some written ->
     vouched (key (canonical a) (file_path p)) meta h) /\
  (forall path body written,
     snd (fst (write_execute path body a (Some (after h)))) = Some written ->
     vouched (key (canonical a) path) meta h).
Proof.
  split.
  - intros p written. unfold edit_execute.
    destruct (require_absolute _ _ _) as [[]|]; [|discriminate]. cbn [result_bind].
    destruct (String.eqb _ _); [discriminate|]. cbn [result_bind].
    destruct (write_gate _ _ _ _) as [[]|] eqn:Hg; [|discriminate].
    intros _. by eapply gate_vouched.
  - intros path body written. unfold write_execute.
    destruct (require_absolute _ _ _) as [[]|]; [|discriminate]. cbn [result_bind].
    destruct (write_gate _ _ _ _) as [[]|] eqn:Hg; [|discriminate].
    intros _. by eapply gate_vouched.
Qed.

(** A read staged beside a write undoes the write's anchor.  When one
    response reads a file and then edits it, the edit is anchored to what it
    wrote, but the anchor that is persisted with the edit's result and the one
    in force from the next response on are both the staged read's: the model's
    own edit then looks like a foreign change, and its next edit is refused as
    stale. *)
Theorem staged_read_shadows_write (h : list event) canon path (seen written : FileFingerprint)
    (Hnew : written <> seen) :
  let edited := after (h ++ [ReadSeen canon path seen; Wrote canon path (Some written)]) in
  check canon path written edited = Current /\
  get canon path edited = Some seen /\
  check canon path written (begin_response edited) = Stale.
Proof.
  cbv zeta. unfold after. rewrite foldl_app. set (t := foldl _ _ h).
  cbn [foldl apply_event record_read record_write_from_disk record_committed].
  unfold check, get, begin_response, record_committed, record_read. cbn [committed pending].
  rewrite !lookup_insert_eq, decide_True by done. split_and!; [done.. |].
  erewrite lookup_union_Some_l by apply lookup_insert_eq.
  by rewrite decide_False by congruence.
Qed.

(** ** What an edit does to the text *)

Lemma count_go_skip p k s : count_go p k s = count_go p 0 (Str.drop k s).
Proof.
  revert s; induction k as [|k IH]; intros [|c s]; try done. cbn [count_go Str.drop]. apply IH.
Qed.

Lemma count_go_absent p s : Str.contains p s = true -> p <> ""%string -> 0 < count_go p 0 s.
Proof.
  intros Hc Hp. induction s as [|c s IH].
  - destruct p; [done | discriminate].
  - cbn [Str.contains count_go] in *.
    destruct (Str.starts_with p (String c s)); [lia | by apply IH].
Qed.

Lemma count_go_first p to s n :
  p <> ""%string -> count_go p 0 s = S n ->
  exists pre post, s = (pre +:+ p +:+ post)%string /\
    replace_first p to s = (pre +:+ to +:+ post)%string /\ count_go p 0 post = n.
Proof.
  intros Hp. induction s as [|c s IH]; [discriminate|].
  cbn [count_go replace_first]. destruct (Str.starts_with p (String c s)) eqn:Hs.
  - intros [= Hn]. apply Str.starts_with_spec in Hs as [post Heq].
    exists "", post. rewrite Heq, Str.drop_app. split_and!; [done.. |].
    rewrite count_go_skip in Hn. destruct p as [|d p]; [done|].
    cbn [String.length pred] in Hn. injection Heq as _ Heq.
    rewrite Heq in Hn. by rewrite Str.drop_app in Hn.
  - intros Hn. destruct (IH Hn) as (pre & post & -> & Hr & Hpost).
    exists (String c pre), post. rewrite Hr. done.
Qed.

Lemma replace_first_empty to s : replace_first "" to s = (to +:+ s)%string.
Proof. by destruct s. Qed.

(** An edit without [replace_all] changes one place, and the only one.  When
    it succeeds, the text read is some prefix, the old string and some suffix;
    what is written is the same prefix and suffix around the new string; and
    the old string does not occur in the suffix. *)
Theorem edit_replaces_one (p : EditParams) (a : Answers) (tracker : option Inner)
    (contents answer : string)
    (Hread : read_back a = Ok contents) (Hone : replace_all_flag p = false)
    (Hok : snd (edit_execute p a tracker) = Ok answer) :
  exists pre post,
    contents = (pre +:+ old_string p +:+ post)%string /\
    snd (fst (edit_execute p a tracker)) = Some (pre +:+ new_string p +:+ post)%string /\
    (old_string p <> ""%string -> Str.contains (old_string p) post = false).
Proof.
  revert Hok. unfold edit_execute. rewrite Hread.
  destruct (require_absolute _ _ _) as [[]|]; [|discriminate]. cbn [result_bind].
  destruct (String.eqb (old_string p) (new_string p)); [discriminate|]. cbn [result_bind].
  destruct (write_gate _ _ _ _) as [[]|]; [|discriminate]. cbn [result_bind].
  unfold edit_update. rewrite Hone. cbn [negb andb].
  destruct (Nat.eqb_spec (matches_count (old_string p) contents) 0) as [|Hne]; [discriminate|].
  destruct (Nat.ltb_spec 1 (matches_count (old_string p) contents)) as [|Hle]; [discriminate|].
  assert (Hm : matches_count (old_string p) contents = 1) by lia. clear Hne Hle.
  destruct (write_done a) as [[]|]; [|discriminate]. intros _. cbn [fst snd].
  unfold matches_count in Hm. destruct (String.eqb_spec (old_string p) "") as [E|Hp].
  - rewrite E. exists "", contents. by rewrite replace_first_empty.
  - destruct (count_go_first _ (new_string p) _ _ Hp Hm) as (pre & post & Heq & Hr & Hz).
    exists pre, post. rewrite Hr. split_and!; [done.. |]. intros _.
    destruct (Str.contains (old_string p) post) eqn:Hc; [|done].
    pose proof (count_go_absent _ _ Hc Hp). lia.
Qed.

(** ** A session *)
Module Sample.

Definition fp (m s : Z) : FileFingerprint := {| mtime := m; fp_size := s |}.
Definition canon (path : string) : option string := Some path.
Definition session : list event := [Begin; ReadSeen canon "/w/a.txt" (fp 1 5); Begin].
Definition answers : Answers :=
  mk_answers canon (Some (fp 1 5)) (Ok "hello") (Ok tt) (Some (fp 2 5)).
Definition params : EditParams := mk_edit "/w/a.txt" "hell" "jell" false.

Lemma edit_runs :
  snd (fst (edit_execute params answers (Some (after session)))) = Some "jello"%string /\
  snd (edit_execute params answers (Some (after session))) =
    Ok "replaced 1 occurrence(s) in /w/a.txt"%string.
Proof. vm_compute. done. Qed.

End Sample.
Import Sample.

Lemma no_blind_write_witness : vouched [RootDir; Normal "w"; Normal "a.txt"] (fp 1 5) session.
Proof.
  exact (proj1 (no_blind_write session answers (fp 1 5) eq_refl) params "jello"%string
           (proj1 edit_runs)).
Defined.

Lemma staged_read_shadows_write_witness :
  check canon "/w/a.txt" (fp 2 5)
    (begin_response (after (session ++ [ReadSeen canon "/w/a.txt" (fp 1 5);
                                        Wrote canon "/w/a.txt" (Some (fp 2 5))]))) = Stale.
Proof.
  apply (staged_read_shadows_write session canon "/w/a.txt" (fp 1 5) (fp 2 5)). discriminate.
Defined.

Lemma edit_replaces_one_witness :
  exists pre post, "hello"%string = (pre +:+ "hell" +:+ post)%string /\
    Str.contains "hell" post = false.
Proof.
  destruct (edit_replaces_one params answers (Some (after session)) "hello" _ eq_refl eq_refl
              (proj2 edit_runs)) as (pre & post & Heq & _ & Hc).
  exists pre, post. split; [exact Heq | apply Hc; discriminate].
Defined.

End ReadTracker.
