(* ===== verification/ProgressLedger.v ===== *)
(** * The turn's progress monitor ([crates/agent/src/runtime/progress_ledger.rs])

    Two detectors of a turn that has stopped moving: per file, the sequence of
    state transitions; for every other tool, the current run of identical
    errors.  The hash of the standard library is a parameter. *)
From S2P Require Import Prelude Message Approval ReadTracker.
Import Message Approval.

Module ProgressLedger.

Definition MAX_TRACKED_TARGETS : nat := 128.
Definition MAX_ATTEMPTS_PER_TARGET : nat := 64.
Definition CHURN_SIGNALS_BEFORE_REPORT : nat := 3.
Definition CLEAN_EDITS_THAT_CLEAR_SIGNALS : nat := 3.
Definition FUTILE_STREAK_THRESHOLD : nat := 3.
Definition REPEATED_TOOL_FAILURE_THRESHOLD : nat := 3.

(** ** Data *)

Inductive ToolOutput :=
| OutText (s : string)
| OutJson (v : json)
| OutError (reason : string)
| WithAttachments (text : string) (attachments : list ContentBlock)
| MultiModalText (text : string) (llm_images : list ContentBlock).

(** [anyhow::Result<ToolOutput>]: an error is its display text. *)
Definition CallOutput : Type := result ToolOutput string.

Record StateTransition := mk_st { from : option Z; to : Z }.
#[export] Instance StateTransition_eq_dec : EqDecision StateTransition.
Proof. solve_decision. Defined.

Inductive AttemptOutcome := Applied | Rejected.
#[export] Instance AttemptOutcome_eq_dec : EqDecision AttemptOutcome.
Proof. solve_decision. Defined.

Record Attempt := mk_attempt { transition : StateTransition; outcome : AttemptOutcome }.

Inductive ProgressVerdict :=
| AttemptRepeated (path : string) (attempts : nat)
| StateRevisited (path : string) (edits : nat)
| Futile (path : string) (streak : nat)
| RepeatedToolFailure (tool_name : string) (attempts : nat).

Record TargetHistory := mk_history {
  path : string;
  attempts : list Attempt;
  churn_signals : nat;
  clean_streak : nat;
  reported : bool;
}.

Inductive ChurnSignal := SigRepeated | SigRevisited.

Record FailureStreak := mk_streak {
  sig_tool : string;
  sig_hash : Z;
  streak_attempts : nat;
  streak_reported : bool;
}.

Record TurnProgressMonitor := mk_monitor {
  targets : list TargetHistory;
  streak : option FailureStreak;
}.
Definition clear : TurnProgressMonitor := mk_monitor [] None.

Section Monitor.
Context (hash_of : string -> Z).

(** ** The file detector *)

Definition transition_for (tool_name : string) (arguments : json) : option StateTransition :=
  let arg k := Json.get_str arguments k in
  if String.eqb tool_name "Write" then
    match arg "content"%string with
    | Some c => Some (mk_st None (hash_of c))
    | None => None
    end
  else
    match arg "old_string"%string with
    | None => None
    | Some o => match arg "new_string"%string with
                | None => None
                | Some n => Some (mk_st (Some (hash_of o)) (hash_of n))
                end
    end.

Definition churn_signal_for (past : list Attempt) (t : StateTransition) (o : AttemptOutcome)
    : option ChurnSignal :=
  if existsb (fun a => bool_decide (transition a = t) && is_some (from (transition a))) past
  then Some SigRepeated
  else if bool_decide (o = Applied) &&
          existsb (fun a => bool_decide (outcome a = Applied) &&
                            (bool_decide (from (transition a) = Some (to t)) ||
                             bool_decide (to (transition a) = to t))) past
  then Some SigRevisited
  else None.

Definition rejected (a : Attempt) : bool := bool_decide (outcome a = Rejected).

Definition verdict_for (h : TargetHistory) (signal : option ChurnSignal) (o : AttemptOutcome)
    (n : nat) : option ProgressVerdict :=
  if is_some signal && Nat.leb CHURN_SIGNALS_BEFORE_REPORT (churn_signals h) then
    Some (match signal with
          | Some SigRepeated => AttemptRepeated (path h) n
          | _ => StateRevisited (path h) n
          end)
  else if bool_decide (o = Rejected) then
    let run := S (length (take_while rejected (rev (attempts h)))) in
    if Nat.leb FUTILE_STREAK_THRESHOLD run then Some (Futile (path h) run) else None
  else None.

(** Paths are equal when their components are. *)
Definition same_path (p q : string) : bool := bool_decide (components p = components q).

(** [target_index]: the histories with the file's own moved to, or made at, the
    back; the oldest is dropped to make room. *)
Definition target_index (p : string) (ts : list TargetHistory) : list TargetHistory * TargetHistory :=
  match position (fun t => same_path (path t) p) ts with
  | Some i =>
      match ts !! i with
      | Some h => (delete i ts, h)
      | None => (ts, mk_history p [] 0 0 false)
      end
  | None =>
      (if Nat.eqb (length ts) MAX_TRACKED_TARGETS then tail ts else ts,
       mk_history p [] 0 0 false)
  end.

Definition note_signal (h : TargetHistory) (signal : option ChurnSignal) (o : AttemptOutcome)
    : TargetHistory :=
  let upd churn clean := mk_history (path h) (attempts h) churn clean (reported h) in
  if is_some signal then upd (S (churn_signals h)) 0
  else if bool_decide (o = Applied) then
    if Nat.leb CLEAN_EDITS_THAT_CLEAR_SIGNALS (S (clean_streak h)) then upd 0 0
    else upd (churn_signals h) (S (clean_streak h))
  else upd (churn_signals h) 0.

Definition record_attempt (h : TargetHistory) (t : StateTransition) (o : AttemptOutcome)
    : TargetHistory * option ProgressVerdict :=
  let signal := churn_signal_for (attempts h) t o in
  let h := note_signal h signal o in
  let n := S (length (attempts h)) in
  let verdict := if reported h then None else verdict_for h signal o n in
  let kept := if Nat.eqb (length (attempts h)) MAX_ATTEMPTS_PER_TARGET
              then tail (attempts h) else attempts h in
  (mk_history (path h) (kept ++ [mk_attempt t o]) (churn_signals h) (clean_streak h)
     (reported h || is_some verdict),
   verdict).

Definition is_file_tool (tool_name : string) : bool :=
  bool_decide (tool_name ∈ ReadTracker.FILE_WRITING_TOOLS).

(** What a call means to the file detector, if anything. *)
Definition mutation_of (tool_name : string) (arguments : json) (applied : bool)
    : option (string * StateTransition * AttemptOutcome) :=
  if negb (is_file_tool tool_name) then None
  else
    match Json.get_str arguments "file_path" with
    | None => None
    | Some p =>
        match transition_for tool_name arguments with
        | None => None
        | Some t => Some (p, t, if applied then Applied else Rejected)
        end
    end.

Definition files_record (tool_name : string) (arguments : json) (applied : bool)
    (ts : list TargetHistory) : list TargetHistory * option ProgressVerdict :=
  match mutation_of tool_name arguments applied with
  | None => (ts, None)
  | Some (p, t, o) =>
      let '(ts, h) := target_index p ts in
      let '(h, verdict) := record_attempt h t o in
      (ts ++ [h], verdict)
  end.

(** ** The failure detector *)

Definition tool_call_succeeded (out : CallOutput) : bool :=
  match out with
  | Ok (OutError _) => false
  | Ok _ => true
  | Err _ => false
  end.

Definition error_hash (out : CallOutput) : option Z :=
  match out with
  | Ok (OutError reason) => Some (hash_of reason)
  | Err error => Some (hash_of error)
  | Ok _ => None
  end.

Definition failures_record (tool_name : string) (out : CallOutput) (s : option FailureStreak)
    : option FailureStreak * option ProgressVerdict :=
  match error_hash out with
  | None => (None, None)
  | Some h =>
      match s with
      | Some st =>
          if String.eqb (sig_tool st) tool_name && Z.eqb (sig_hash st) h then
            let n := S (streak_attempts st) in
            if Nat.leb REPEATED_TOOL_FAILURE_THRESHOLD n && negb (streak_reported st) then
              (Some (mk_streak (sig_tool st) (sig_hash st) n true),
               Some (RepeatedToolFailure tool_name n))
            else (Some (mk_streak (sig_tool st) (sig_hash st) n (streak_reported st)), None)
          else (Some (mk_streak tool_name h 1 false), None)
      | None => (Some (mk_streak tool_name h 1 false), None)
      end
  end.

Definition record (tool_name : string) (arguments : json) (out : CallOutput)
    (m : TurnProgressMonitor) : TurnProgressMonitor * option ProgressVerdict :=
  if is_file_tool tool_name then
    let '(ts, v) := files_record tool_name arguments (tool_call_succeeded out) (targets m) in
    (mk_monitor ts None, v)
  else
    let '(s, v) := failures_record tool_name out (streak m) in
    (mk_monitor (targets m) s, v).

(** ** A turn's calls *)

Record call := mk_call { tool : string; arguments : json; output : CallOutput }.

Definition monitor_after (cs : list call) : TurnProgressMonitor :=
  foldl (fun m c => fst (record (tool c) (arguments c) (output c) m)) clear cs.
Definition verdict_at (cs : list call) (c : call) : option ProgressVerdict :=
  snd (record (tool c) (arguments c) (output c) (monitor_after cs)).

(** The length of the run of identical failures the calls end in. *)
Definition failure_of (c : call) : option (string * Z) :=
  if is_file_tool (tool c) then None else pair (tool c) <$> error_hash (output c).
Definition fails_as (sig : string * Z) (c : call) : bool := bool_decide (failure_of c = Some sig).
Definition failure_run (cs : list call) : nat :=
  match last cs with
  | Some c => match failure_of c with
              | Some sig => length (take_while (fails_as sig) (rev cs))
              | None => 0
              end
  | None => 0
  end.

(** Every mutation of one file, oldest first. *)
Definition mutation (c : call) : option (string * StateTransition * AttemptOutcome) :=
  mutation_of (tool c) (arguments c) (tool_call_succeeded (output c)).
Definition attempts_on (p : string) (cs : list call) : list Attempt :=
  omap (fun c => match mutation c with
                 | Some (q, t, o) => if same_path q p then Some (mk_attempt t o) else None
                 | None => None
                 end) cs.

(** The churn signals of a full log, judged without window or decay. *)
Fixpoint signals_from (past log : list Attempt) : nat :=
  match log with
  | [] => 0
  | a :: log =>
      (if is_some (churn_signal_for past (transition a) (outcome a)) then 1 else 0) +
      signals_from (past ++ [a]) log
  end.
Definition signals (log : list Attempt) : nat := signals_from [] log.

End Monitor.

(** ** Proofs: the failure detector *)

Section Failures.
Context (hash_of : string -> Z).
Abbreviation run := (failure_run hash_of).

Lemma monitor_after_snoc cs c :
  monitor_after hash_of (cs ++ [c]) =
  fst (record hash_of (tool c) (arguments c) (output c) (monitor_after hash_of cs)).
Proof. unfold monitor_after. by rewrite foldl_app. Qed.

Lemma run_snoc cs c :
  run (cs ++ [c]) =
  match failure_of hash_of c with
  | None => 0
  | Some sig =>
      match last cs with
      | Some c' => if fails_as hash_of sig c' then S (run cs) else 1
      | None => 1
      end
  end.
Proof.
  unfold failure_run. rewrite last_snoc. destruct (failure_of hash_of c) as [sig|] eqn:Hf; [|done].
  rewrite rev_app_distr. cbn [rev app take_while].
  assert (Hself : fails_as hash_of sig c = true) by by apply bool_decide_eq_true. rewrite Hself.
  destruct cs as [|c0 cs] using rev_ind; [done|]. clear IHcs.
  rewrite last_snoc, rev_app_distr. cbn [rev app take_while].
  destruct (fails_as hash_of sig c0) eqn:Hc; [|done].
  apply bool_decide_eq_true in Hc as Hc'. rewrite Hc'. by rewrite Hc.
Qed.

(** The detector's streak is the run the calls end in. *)
Definition tracks (cs : list call) (s : option FailureStreak) : Prop :=
  match s with
  | Some st =>
      (exists c, last cs = Some c /\ failure_of hash_of c = Some (sig_tool st, sig_hash st)) /\
      streak_attempts st = run cs /\ 0 < run cs /\
      streak_reported st = Nat.leb REPEATED_TOOL_FAILURE_THRESHOLD (run cs)
  | None => run cs = 0
  end.

Lemma tracks_last cs c h n :
  failure_of hash_of c = Some (tool c, h) -> run (cs ++ [c]) = S n ->
  tracks (cs ++ [c])
    (Some (mk_streak (tool c) h (S n) (Nat.leb REPEATED_TOOL_FAILURE_THRESHOLD (S n)))).
Proof.
  intros Hc Hr. cbn [tracks sig_tool sig_hash streak_attempts streak_reported]. rewrite Hr.
  split_and!; [ | done | lia | done]. exists c. by rewrite last_snoc.
Qed.

(** The run with one more failure: it grows if the streak matches. *)
Lemma run_grows cs c h s :
  tracks cs s -> failure_of hash_of c = Some (tool c, h) ->
  run (cs ++ [c]) =
  match s with
  | Some st => if String.eqb (sig_tool st) (tool c) && Z.eqb (sig_hash st) h
               then S (run cs) else 1
  | None => 1
  end.
Proof.
  intros Ht Hc. rewrite run_snoc, Hc. unfold fails_as. destruct s as [st|].
  - destruct Ht as ((c' & Hl & Hc') & _). rewrite Hl, Hc'.
    destruct (String.eqb_spec (sig_tool st) (tool c)) as [E1|E1];
      destruct (Z.eqb_spec (sig_hash st) h) as [E2|E2]; cbn [andb];
      (first [rewrite bool_decide_eq_true_2 by congruence | rewrite bool_decide_eq_false_2 by congruence]);
      done.
  - cbn [tracks] in Ht. destruct cs as [|c0 cs] using rev_ind; [done|]. clear IHcs.
    rewrite last_snoc. case_bool_decide as Hf; [exfalso|done].
    rewrite run_snoc, Hf in Ht. destruct (last cs); [destruct (fails_as _ _ _)|]; done.
Qed.

Lemma tracks_step cs c :
  tracks cs (streak (monitor_after hash_of cs)) ->
  tracks (cs ++ [c]) (streak (monitor_after hash_of (cs ++ [c]))) /\
  (is_file_tool (tool c) = false ->
   verdict_at hash_of cs c =
   if Nat.eqb (run (cs ++ [c])) REPEATED_TOOL_FAILURE_THRESHOLD
   then Some (RepeatedToolFailure (tool c) REPEATED_TOOL_FAILURE_THRESHOLD) else None).
Proof.
  intros Ht. rewrite monitor_after_snoc. unfold verdict_at, record.
  assert (Hnone : failure_of hash_of c = None -> run (cs ++ [c]) = 0)
    by (intros E; by rewrite run_snoc, E).
  unfold failure_of in Hnone. destruct (is_file_tool (tool c)) eqn:Hfile.
  { destruct (files_record _ _ _ _ _) as [ts v]. split; [by apply Hnone | done]. }
  unfold failures_record. destruct (error_hash hash_of (output c)) as [h|] eqn:He.
  2: { cbn [fst snd streak tracks]. by rewrite Hnone. }
  assert (Hc : failure_of hash_of c = Some (tool c, h)) by (unfold failure_of; by rewrite Hfile, He).
  pose proof (run_grows cs c h _ Ht Hc) as Hrun.
  pose proof (tracks_last cs c h) as Hlast. specialize (fun n => Hlast n Hc).
  destruct (streak (monitor_after hash_of cs)) as [st|].
  2: { rewrite Hrun. split; [by apply (Hlast 0) | done]. }
  destruct (String.eqb (sig_tool st) (tool c) && Z.eqb (sig_hash st) h) eqn:Hsame.
  2: { rewrite Hrun. split; [by apply (Hlast 0) | done]. }
  apply andb_true_iff in Hsame as [->%String.eqb_eq ->%Z.eqb_eq].
  destruct Ht as (_ & -> & Hpos & ->). rewrite Hrun.
  specialize (Hlast (run cs) Hrun). revert Hlast.
  destruct (run cs) as [|[|[|n]]]; [lia | done | done | done].
Qed.

Lemma tracks_all cs : tracks cs (streak (monitor_after hash_of cs)).
Proof.
  induction cs as [|c cs IH] using rev_ind; [done|]. by apply tracks_step.
Qed.

(** A repeated failure is pointed out once, at the third time.  For every
    call to a tool that does not write files, the monitor speaks precisely when
    the call is the third of a run of consecutive calls of that tool failing
    with the same error; a success, another tool, another error or a file call
    starts over. *)
Theorem repeated_failure_exact (cs : list call) (c : call)
    (Htool : is_file_tool (tool c) = false) :
  verdict_at hash_of cs c =
  if Nat.eqb (run (cs ++ [c])) REPEATED_TOOL_FAILURE_THRESHOLD
  then Some (RepeatedToolFailure (tool c) REPEATED_TOOL_FAILURE_THRESHOLD) else None.
Proof. by apply tracks_step; [apply tracks_all |]. Qed.

End Failures.

(** ** Proofs: the file detector *)

Section Files.
Context (hash_of : string -> Z).
Abbreviation log := (attempts_on hash_of).

Lemma same_path_spec p q : same_path p q = true <-> components p = components q.
Proof. unfold same_path. by rewrite bool_decide_eq_true. Qed.

Lemma log_same p q cs : components p = components q -> log p cs = log q cs.
Proof.
  intros E. unfold attempts_on. induction cs as [|c cs IH]; [done|]. cbn. rewrite IH.
  destruct (mutation hash_of c) as [[[r t] o]|]; [|done]. unfold same_path. by rewrite E.
Qed.

Lemma log_snoc p cs c :
  log p (cs ++ [c]) = log p cs ++
  match mutation hash_of c with
  | Some (q, t, o) => if same_path q p then [mk_attempt t o] else []
  | None => []
  end.
Proof.
  unfold attempts_on. rewrite omap_app. f_equal. cbn.
  destruct (mutation hash_of c) as [[[q t] o]|]; [|done]. by destruct (same_path q p).
Qed.

Lemma signals_snoc past l a :
  signals_from past (l ++ [a]) =
  signals_from past l +
  (if is_some (churn_signal_for (past ++ l) (transition a) (outcome a)) then 1 else 0).
Proof.
  revert past; induction l as [|b l IH]; intros past; cbn [app signals_from].
  - rewrite app_nil_r. lia.
  - rewrite IH, <- app_assoc. cbn [app]. lia.
Qed.

Lemma existsb_suffix {A} (f : A -> bool) (l k : list A) :
  l `suffix_of` k -> existsb f l = true -> existsb f k = true.
Proof. intros [pre ->] H. rewrite existsb_app, H. apply orb_true_r. Qed.

(** More history can only show more churn. *)
Lemma signal_mono past full t o :
  past `suffix_of` full ->
  is_some (churn_signal_for past t o) = true -> is_some (churn_signal_for full t o) = true.
Proof.
  intros Hs. unfold churn_signal_for.
  destruct (existsb _ past) eqn:E1.
  { intros _. apply (existsb_suffix _ _ _ Hs) in E1. by rewrite E1. }
  destruct (existsb (fun a => bool_decide (transition a = t) && _) full); [done|].
  destruct (bool_decide (o = Applied)); [|done]. cbn [andb].
  clear E1. destruct (existsb _ past) eqn:E2; [|discriminate].
  intros _. apply (existsb_suffix _ _ _ Hs) in E2. by rewrite E2.
Qed.

(** What the ledger keeps of one file is true of the file's full log. *)
Definition history_ok (cs : list call) (h : TargetHistory) : Prop :=
  attempts h `suffix_of` log (path h) cs /\
  length (attempts h) <= MAX_ATTEMPTS_PER_TARGET /\
  churn_signals h <= signals (log (path h) cs).
Definition ledger_ok (cs : list call) (ts : list TargetHistory) : Prop :=
  NoDup (map (fun h => components (path h)) ts) /\
  length ts <= MAX_TRACKED_TARGETS /\ Forall (history_ok cs) ts.

Lemma target_index_ok cs p ts :
  ledger_ok cs ts ->
  let '(ts', h) := target_index p ts in
  components (path h) = components p /\ history_ok cs h /\ ledger_ok cs ts' /\
  length ts' < MAX_TRACKED_TARGETS /\
  Forall (fun k => components (path k) <> components p) ts'.
Proof.
  intros (Hn & Hlen & Hf). unfold target_index.
  assert (Hfresh : history_ok cs (mk_history p [] 0 0 false)).
  { split_and!; cbn; [apply suffix_nil | unfold MAX_ATTEMPTS_PER_TARGET; lia | lia]. }
  destruct (position _ ts) as [i|] eqn:Hpos.
  - destruct (position_Some _ _ _ Hpos) as (h & Hi & Hsame). rewrite Hi.
    apply same_path_spec in Hsame.
    apply list_elem_of_split_length in Hi as (l & k & -> & ->).
    rewrite delete_middle. rewrite map_app in Hn. cbn [map] in Hn.
    apply NoDup_app in Hn as (Hnl & Hdis & Hnk). apply NoDup_cons in Hnk as [Hhk Hnk].
    apply Forall_app in Hf as [Hfl Hfk]. apply Forall_cons in Hfk as [Hfh Hfk].
    rewrite length_app in Hlen. cbn in Hlen. split_and!; [done | done | split_and! | |].
    + rewrite map_app. apply NoDup_app. split_and!; [done | | done].
      intros x Hx Hx'. apply (Hdis x Hx). by right.
    + len_app.
    + by apply Forall_app.
    + len_app.
    + apply Forall_app. rewrite !Forall_forall. split; intros x Hx E.
      * apply (Hdis (components (path x))); [by apply (list_elem_of_fmap_2 (fun h => components (path h)))|].
        rewrite E, <- Hsame. by left.
      * apply Hhk. rewrite Hsame, <- E. by apply (list_elem_of_fmap_2 (fun h => components (path h))).
  - assert (Hno : Forall (fun k => components (path k) <> components p) ts).
    { apply Forall_forall. intros x Hx E. apply same_path_spec in E.
      clear -Hpos Hx E. induction Hx as [x ts|x y ts Hx IH]; cbn in Hpos.
      - by rewrite E in Hpos.
      - destruct (same_path (path y) p); [done|]. by destruct (position _ ts); [|apply IH]. }
    cbn [path]. destruct (Nat.eqb_spec (length ts) MAX_TRACKED_TARGETS) as [E|E].
    + destruct ts as [|t ts]; [done|]. cbn [tail map length] in *.
      apply NoDup_cons in Hn as [_ Hn]. apply Forall_cons in Hf as [_ Hf], Hno as [_ Hno].
      split; [done|]. split; [done|]. split; [split_and!; [done | lia | done]|].
      split; [lia | done].
    + split; [done|]. split; [done|]. split; [split_and!; done|]. split; [lia | done].
Qed.

Lemma note_signal_frame h sig o :
  path (note_signal h sig o) = path h /\ attempts (note_signal h sig o) = attempts h /\
  churn_signals (note_signal h sig o) <=
    churn_signals h + (if is_some sig then 1 else 0).
Proof.
  unfold note_signal. destruct (is_some sig); [cbn; split_and!; [done.. | lia]|].
  destruct (bool_decide _); [|cbn; split_and!; [done.. | lia]].
  destruct (Nat.leb _ _); cbn; split_and!; try done; lia.
Qed.

Lemma record_attempt_ok cs c h p t o :
  mutation hash_of c = Some (p, t, o) -> components (path h) = components p -> history_ok cs h ->
  let h' := note_signal h (churn_signal_for (attempts h) t o) o in
  path (fst (record_attempt h t o)) = path h /\
  history_ok (cs ++ [c]) (fst (record_attempt h t o)) /\
  churn_signals h' <= signals (log p (cs ++ [c])).
Proof.
  intros Hm Hp (Hsuf & Hlen & Hsig). cbv zeta. unfold record_attempt.
  set (sig := churn_signal_for (attempts h) t o).
  destruct (note_signal_frame h sig o) as (Hnp & Hna & Hns).
  set (h' := note_signal h sig o) in *. cbn [fst path attempts churn_signals].
  assert (Hlog : log (path h) (cs ++ [c]) = log (path h) cs ++ [mk_attempt t o]).
  { rewrite log_snoc, Hm. by rewrite (proj2 (same_path_spec p (path h))). }
  assert (Hmono : churn_signals h' <= signals (log (path h) (cs ++ [c]))).
  { unfold signals in *. rewrite Hlog, signals_snoc. cbn [app transition outcome].
    destruct (is_some sig) eqn:E; [|lia].
    rewrite (signal_mono _ _ _ _ Hsuf E). lia. }
  split_and!; [done | | by rewrite <- (log_same _ _ _ Hp)].
  unfold history_ok. cbn [path attempts churn_signals]. rewrite Hnp, Hna. split_and!.
  - rewrite Hlog. apply suffix_app. destruct (Nat.eqb _ _); [|done].
    destruct (attempts h) as [|a l]; [done|]. destruct Hsuf as [k Hk]. cbn [tail].
    exists (k ++ [a]). by rewrite Hk, <- app_assoc.
  - rewrite length_app. cbn [length].
    destruct (Nat.eqb_spec (length (attempts h)) MAX_ATTEMPTS_PER_TARGET) as [E|E]; [|lia].
    destruct (attempts h); cbn in *; unfold MAX_ATTEMPTS_PER_TARGET in *; lia.
  - done.
Qed.

Lemma history_ok_other cs c h :
  history_ok cs h ->
  (forall p t o, mutation hash_of c = Some (p, t, o) -> components (path h) <> components p) ->
  history_ok (cs ++ [c]) h.
Proof.
  intros Hh Hne. unfold history_ok in *. rewrite log_snoc.
  destruct (mutation hash_of c) as [[[p t] o]|]; [|by rewrite app_nil_r].
  specialize (Hne p t o eq_refl). unfold same_path.
  rewrite bool_decide_eq_false_2 by congruence. by rewrite app_nil_r.
Qed.

Lemma ledger_step cs c :
  ledger_ok cs (targets (monitor_after hash_of cs)) ->
  ledger_ok (cs ++ [c]) (targets (monitor_after hash_of (cs ++ [c]))).
Proof.
  intros Hok. rewrite monitor_after_snoc. unfold record.
  assert (Hsame : mutation hash_of c = None ->
    ledger_ok (cs ++ [c]) (targets (monitor_after hash_of cs))).
  { intros E. destruct Hok as (Hn & Hl & Hf). split_and!; [done.. |].
    eapply Forall_impl; [exact Hf|]. intros h Hh. apply history_ok_other; [done|].
    intros p t o. by rewrite E. }
  destruct (is_file_tool (tool c)) eqn:Hfile.
  2: { destruct (failures_record _ _ _ _) as [s v]. apply Hsame.
       unfold mutation, mutation_of. by rewrite Hfile. }
  unfold files_record. fold (mutation hash_of c).
  destruct (mutation hash_of c) as [[[p t] o]|] eqn:Hm; [clear Hsame | by apply Hsame].
  pose proof (target_index_ok cs p _ Hok) as Ht.
  destruct (target_index p _) as [ts' h]. destruct Ht as (Hp & Hh & (Hn & Hl & Hf) & Hlt & Hne).
  destruct (record_attempt_ok cs c h p t o Hm Hp Hh) as (Hpath & Hh' & _).
  destruct (record_attempt h t o) as [h' v]. cbn [fst targets] in *. split_and!.
  - rewrite map_app. apply NoDup_app. split_and!; [done | | apply NoDup_singleton].
    intros x Hx Hx'. cbn in Hx'. apply list_elem_of_singleton in Hx'. subst x.
    apply list_elem_of_fmap in Hx as (k & Hk & Hin). rewrite Forall_forall in Hne.
    apply (Hne k Hin). congruence.
  - len_app.
  - apply Forall_app. split; [|by apply Forall_singleton].
    rewrite Forall_forall in *. intros k Hk. apply history_ok_other; [by apply Hf|].
    intros p' t' o' E. rewrite Hm in E. injection E as <- _ _. by apply Hne.
Qed.

Lemma ledger_all cs : ledger_ok cs (targets (monitor_after hash_of cs)).
Proof.
  induction cs as [|c cs IH] using rev_ind; [|by apply ledger_step].
  split_and!; [constructor | cbn; lia | constructor].
Qed.

(** The ledger stays within its bounds.  However long the turn, it tracks at
    most 128 files, each once, and at most the last 64 attempts of each: what
    it keeps of a file is an end of the file's true history. *)
Theorem ledger_bounded (cs : list call) :
  let ts := targets (monitor_after hash_of cs) in
  length ts <= MAX_TRACKED_TARGETS /\
  NoDup (map (fun h => components (path h)) ts) /\
  Forall (fun h => length (attempts h) <= MAX_ATTEMPTS_PER_TARGET /\
                   attempts h `suffix_of` log (path h) cs) ts.
Proof.
  cbv zeta. destruct (ledger_all cs) as (Hn & Hl & Hf). split_and!; [done.. |].
  eapply Forall_impl; [exact Hf|]. by intros h (? & ? & _).
Qed.

(** What a verdict about a file claims, read against the file's full log. *)
Definition claim_holds (cs : list call) (c : call) (v : ProgressVerdict) : Prop :=
  exists p t o, mutation hash_of c = Some (p, t, o) /\
  match v with
  | AttemptRepeated q _ =>
      components q = components p /\ CHURN_SIGNALS_BEFORE_REPORT <= signals (log p (cs ++ [c])) /\
      exists a, a ∈ log p cs /\ transition a = t /\ is_some (from t) = true
  | StateRevisited q _ =>
      components q = components p /\ CHURN_SIGNALS_BEFORE_REPORT <= signals (log p (cs ++ [c])) /\
      o = Applied /\
      exists a, a ∈ log p cs /\ outcome a = Applied /\
        (from (transition a) = Some (to t) \/ to (transition a) = to t)
  | Futile q streak =>
      components q = components p /\ FUTILE_STREAK_THRESHOLD <= streak /\ o = Rejected /\
      exists before run, log p cs = before ++ run /\ S (length run) = streak /\
        Forall (fun a => outcome a = Rejected) run
  | RepeatedToolFailure _ _ => False
  end.

Lemma take_while_prefix {A} (f : A -> bool) l :
  Forall (fun x => f x = true) (take_while f l) /\ exists k, l = take_while f l ++ k.
Proof.
  induction l as [|x l [IH [k Hk]]]; cbn; [split; [done | by exists []]|].
  destruct (f x) eqn:E; cbn.
  - split; [by constructor | exists k; by rewrite Hk at 1].
  - split; [constructor | by eexists].
Qed.

Lemma futile_run (past full : list Attempt) :
  past `suffix_of` full ->
  exists before run, full = before ++ run /\
    length run = length (take_while rejected (rev past)) /\
    Forall (fun a => outcome a = Rejected) run.
Proof.
  intros [pre ->]. destruct (take_while_prefix rejected (rev past)) as [Hf [k Hk]].
  exists (pre ++ rev k), (rev (take_while rejected (rev past))). split_and!.
  - rewrite <- app_assoc, <- rev_app_distr, <- Hk. by rewrite rev_involutive.
  - apply length_rev.
  - apply Forall_rev. eapply Forall_impl; [exact Hf|]. intros a. unfold rejected.
    by rewrite bool_decide_eq_true.
Qed.

(** A verdict about a file is true of the turn.  Whatever the monitor says
    when it sees a file call: a repeat names a file on which an earlier call
    made the same edit, a revisit one that an earlier successful call had in the
    state this successful call leaves, both only after at least three such
    signals on that file; a futile streak of [n] names a file whose last [n]
    attempts were all refused or failed. *)
Theorem file_verdict_sound (cs : list call) (c : call) (v : ProgressVerdict)
    (Htool : is_file_tool (tool c) = true) (Hv : verdict_at hash_of cs c = Some v) :
  claim_holds cs c v.
Proof.
  unfold verdict_at, record, files_record in Hv. rewrite Htool in Hv.
  fold (mutation hash_of c) in Hv. unfold claim_holds.
  destruct (mutation hash_of c) as [[[p t] o]|] eqn:Hm; [|discriminate].
  pose proof (target_index_ok cs p _ (ledger_all cs)) as Ht.
  destruct (target_index p _) as [ts' h]. destruct Ht as (Hp & Hh & _).
  destruct (record_attempt_ok cs c h p t o Hm Hp Hh) as (_ & _ & Hsig).
  destruct Hh as (Hsuf & _). rewrite (log_same _ _ _ Hp) in Hsuf.
  unfold record_attempt in Hv. cbn [snd] in Hv.
  set (sig := churn_signal_for (attempts h) t o) in *.
  destruct (note_signal_frame h sig o) as (Hnp & Hna & _).
  set (h' := note_signal h sig o) in *. destruct (reported h'); [discriminate|].
  exists p, t, o. split; [done|]. unfold verdict_for in Hv.
  destruct (is_some sig && Nat.leb CHURN_SIGNALS_BEFORE_REPORT (churn_signals h')) eqn:Hc.
  - apply andb_true_iff in Hc as [Hs Hc]. apply Nat.leb_le in Hc.
    assert (H3 : CHURN_SIGNALS_BEFORE_REPORT <= signals (log p (cs ++ [c]))) by lia.
    unfold sig, churn_signal_for in Hv, Hs.
    destruct (existsb _ (attempts h)) eqn:E1.
    + injection Hv as <-. rewrite Hnp. split_and!; [done.. |].
      apply (existsb_suffix _ _ _ Hsuf), existsb_exists in E1 as (a & Hin & Ha).
      apply andb_true_iff in Ha as [Ha Hfr]. apply bool_decide_eq_true in Ha.
      exists a. rewrite <- Ha at 2. split_and!; [by apply list_elem_of_In | done | done].
    + clear E1. destruct (bool_decide (o = Applied) && _) eqn:E2; [|discriminate].
      injection Hv as <-. apply andb_true_iff in E2 as [Ho E2]. apply bool_decide_eq_true in Ho.
      rewrite Hnp. split_and!; [done.. |].
      apply (existsb_suffix _ _ _ Hsuf), existsb_exists in E2 as (a & Hin & Ha).
      apply andb_true_iff in Ha as [Ha Hor]. apply bool_decide_eq_true in Ha.
      rewrite orb_true_iff, !bool_decide_eq_true in Hor.
      exists a. split_and!; [by apply list_elem_of_In | done | done].
  - case_bool_decide as Ho; [|discriminate].
    destruct (Nat.leb_spec FUTILE_STREAK_THRESHOLD (S (length (take_while rejected (rev (attempts h'))))))
      as [H3|]; [|discriminate].
    injection Hv as <-. rewrite Hnp, Hna in *. split_and!; [done.. |].
    destruct (futile_run _ _ Hsuf) as (before & run & -> & Hlen & Hf).
    exists before, run. by rewrite Hlen.
Qed.

End Files.

(** ** A turn that toggles a setting *)
Module Sample.

(** A stand-in hash: the length of the text. *)
Definition len_hash (s : string) : Z := Z.of_nat (String.length s).
Definition edit (o n : string) : call :=
  mk_call "Edit" (JObject [("file_path", JString "/w/a"); ("old_string", JString o);
                           ("new_string", JString n)]) (Ok (OutText "ok")).
Definition toggles : list call := [edit "a" "bb"; edit "bb" "a"; edit "a" "bb"].
Definition failing : call := mk_call "Bash" JNull (Err "boom").

Lemma toggles_verdict :
  verdict_at len_hash toggles (edit "bb" "a") = Some (AttemptRepeated "/w/a" 4).
Proof. vm_compute. done. Qed.

End Sample.
Import Sample.

Lemma repeated_failure_exact_witness :
  verdict_at len_hash [failing; failing] failing = Some (RepeatedToolFailure "Bash" 3).
Proof. rewrite repeated_failure_exact by done. vm_compute. done. Defined.

Lemma file_verdict_sound_witness :
  claim_holds len_hash toggles (edit "bb" "a") (AttemptRepeated "/w/a" 4).
Proof. exact (file_verdict_sound len_hash toggles (edit "bb" "a") _ eq_refl toggles_verdict). Defined.

End ProgressLedger.
