(* ===== verification/PromptUpdate.v ===== *)
(** * Drift notices: what the prompt or the skills became
      ([crates/context/src/prompts/system_prompt_update.rs],
       [skills_update.rs], [line_diff.rs], [soul.rs])

    The row appended when the sources behind the leading system row, or the
    skill registry behind the listing row, have moved: each a complete delta
    against that row, of which the last one wins.  The diff itself is the
    [similar] crate's; the interface [Differ] says what the notices rely on. *)

From S2P Require Import Prelude Message Wire Approval.
Import Message Wire Approval.

Module PromptUpdate.

(** ** The unified diff *)

(** [lines_diff a b] is the text of [TextDiff::from_lines(a, b).unified_diff()];
    [patch a d] is what a reader holding [a] makes of [d]. *)
Class Differ := {
  lines_diff : string -> string -> string;
  patch : string -> string -> option string;
}.
Class DifferLaws (D : Differ) := {
  diff_same a : lines_diff a a = ""%string;
  diff_patch a b : a <> b -> lines_diff a b <> ""%string /\ patch a (lines_diff a b) = Some b;
}.

Definition DIFF_ATTR : string := "diff".
Definition terminate (s : string) : string :=
  match s with EmptyString => "" | _ => s +:+ newline end%string.
Definition unified_diff {D : Differ} (prior current : string) : string :=
  lines_diff (terminate prior) (terminate current).

(** ** The parts of a prompt ([soul.rs]) *)

Inductive SectionTag := Soul | Identity | SharedUserProfile | UserNotes | Memory.
Definition tag_str (t : SectionTag) : string :=
  match t with
  | Soul => "soul" | Identity => "identity" | SharedUserProfile => "shared_user_profile"
  | UserNotes => "user_notes" | Memory => "memory"
  end.
Inductive PromptPart :=
| Hint (text : string)
| Section_ (tag : SectionTag) (path body : string).

Definition trimmed_body (body : string) : string := Str.trim_end_char "010" body.
Definition open_tag (t : SectionTag) : string := ("<" +:+ tag_str t +:+ " path=" +:+ dquote)%string.
Definition close_tag (t : SectionTag) : string := ("</" +:+ tag_str t +:+ ">")%string.
Definition render_part (p : PromptPart) : string :=
  match p with
  | Hint text => text
  | Section_ t path body =>
      (open_tag t +:+ path +:+ dquote +:+ ">" +:+ newline +:+ trimmed_body body
       +:+ newline +:+ close_tag t)%string
  end.
Definition AssembledPrompt : Type := list PromptPart.
Definition opaque (text : string) : AssembledPrompt := [Hint text].
Definition sections (p : AssembledPrompt) : list (string * string) :=
  omap (fun x => match x with Section_ _ path body => Some (path, body) | Hint _ => None end) p.
Definition PART_SEPARATOR : string := blank_line.
Definition prompt_text (p : AssembledPrompt) : string := joined PART_SEPARATOR (map render_part p).

(** ** The system prompt's update *)

Definition FRAMING_BODY : string :=
  ("The system prompt above was assembled when this conversation started; some of its sources have changed since. Each block below updates the part carrying the same tag "
   +:+ Str.bytes [226; 128; 148]%N
   +:+ " anything not named is still current, and the last such update wins."
   +:+ newline
   +:+ newline
   +:+ "Any `path` a block carries is where that file lives now. Any other path the prompt above gives for that tag is dead: it may still exist on disk, so writing there appears to succeed and is never read.")%string.
Definition DIFF_FRAMING : string :=
  ("A block marked `diff` is a unified diff against the copy in the system prompt above. An unmarked block is that part's full current text.")%string.
Definition SINCE_YOUR_WRITE_FRAMING : string :=
  ("A block marked `changed_since_you_wrote_it` is a unified diff against the copy YOU wrote earlier in this conversation, not the older one in the system prompt above. Something else has written to that file since.")%string.
Definition NOTHING_DIFFERS_BODY : string :=
  ("Disregard any earlier system-prompt update in this conversation: the files behind the system prompt have changed back, so the prompt above is accurate again and every path it names is current.")%string.
Definition SELF_EDIT_FRAMING : string :=
  ("An empty block marked `edited_by_you_in_this_conversation` is not a replacement: you rewrote that file yourself earlier in this conversation, so the copy above is out of date exactly where you changed it and accurate everywhere else. Your own edit is what it says now; `Read` the path for the exact bytes.")%string.
Definition SINCE_YOUR_WRITE_ATTR : string := "changed_since_you_wrote_it".
Definition SELF_EDITED_ATTR : string := "edited_by_you_in_this_conversation".
Definition MOVED_ATTR : string := "content_unchanged".

(** What the conversation last wrote, by path ([PathBuf] keys are components). *)
Definition PathKey : Type := list Approval.Component.
Record SelfWrite := mk_self { still_current : bool; written : option string }.

Inductive UpdateBlock :=
| Full (text : string)
| Diff (tag : SectionTag) (path diff : string)
| SinceYourWrite (tag : SectionTag) (path diff : string)
| Moved (tag : SectionTag) (path : string)
| SelfEdited (tag : SectionTag) (path : string).

Definition diff_block (t : SectionTag) (path diff attrs : string) : string :=
  (open_tag t +:+ path +:+ dquote +:+ " " +:+ attrs +:+ ">" +:+ newline +:+ diff +:+ close_tag t)%string.
Definition self_closing (t : SectionTag) (path attr : string) : string :=
  (open_tag t +:+ path +:+ dquote +:+ " " +:+ attr +:+ "/>")%string.
Definition render_block (b : UpdateBlock) : string :=
  match b with
  | Full text => text
  | Diff t path diff => diff_block t path diff DIFF_ATTR
  | SinceYourWrite t path diff => diff_block t path diff (DIFF_ATTR +:+ " " +:+ SINCE_YOUR_WRITE_ATTR)
  | Moved t path => self_closing t path MOVED_ATTR
  | SelfEdited t path => self_closing t path SELF_EDITED_ATTR
  end%string.

(** The body the leading row carries for a tag. *)
Definition seeded_section_body (seeded : string) (t : SectionTag) : option string :=
  match Str.find (open_tag t) seeded with
  | None => None
  | Some i =>
      let attr := Str.drop (i + String.length (open_tag t)) seeded in
      match Str.split_at_char (ascii_of_nat 34) attr with
      | None => None
      | Some (_, after_path) =>
          let tail := (dquote +:+ after_path)%string in
          match Str.find (">" +:+ newline) tail with
          | None => None
          | Some j =>
              let body := Str.drop (j + 2) tail in
              (fun k => Str.take k body) <$> Str.find (newline +:+ close_tag t) body
          end
      end
  end.

Section Blocks.
Context {D : Differ}.

Definition worthwhile_diff (prior body text : string) (framing_charge : nat) : option string :=
  let diff := unified_diff prior body in
  if negb (String.eqb diff "")
     && Nat.ltb (String.length diff + framing_charge) (String.length text)
  then Some diff else None.

Definition block_against_own_write (mine : SelfWrite) (t : SectionTag) (path body text : string)
    : option UpdateBlock :=
  if still_current mine then Some (SelfEdited t path)
  else
    match written mine with
    | None => None
    | Some base =>
        let base := trimmed_body base in
        if String.eqb base body then Some (SelfEdited t path)
        else SinceYourWrite t path <$> worthwhile_diff base body text 0
    end.

Definition block_for (self_written : gmap PathKey SelfWrite) (seeded : string) (p : PromptPart)
    (text : string) : UpdateBlock :=
  match p with
  | Hint _ => Full text
  | Section_ t path body =>
      let body := trimmed_body body in
      match self_written !! Approval.components path ≫= (fun mine => block_against_own_write mine t path body text) with
      | Some b => b
      | None =>
          match seeded_section_body seeded t with
          | None => Full text
          | Some prior =>
              if String.eqb prior body then Moved t path
              else
                match worthwhile_diff prior body text (String.length DIFF_FRAMING) with
                | Some diff => Diff t path diff
                | None => Full text
                end
          end
      end
  end.

Definition build_blocks (current : AssembledPrompt) (seeded : string)
    (self_written : gmap PathKey SelfWrite) : list UpdateBlock :=
  map (fun p => block_for self_written seeded p (render_part p))
    (List.filter (fun p => negb (Str.contains (render_part p) seeded)) current).

Definition is_diff (b : UpdateBlock) : bool := match b with Diff _ _ _ => true | _ => false end.
Definition is_since (b : UpdateBlock) : bool :=
  match b with SinceYourWrite _ _ _ => true | _ => false end.
Definition is_self_edited (b : UpdateBlock) : bool :=
  match b with SelfEdited _ _ => true | _ => false end.
Definition with_paragraph (present : bool) (extra framing : string) : string :=
  if present then (framing +:+ blank_line +:+ extra)%string else framing.
Definition wrap_update (blocks : list UpdateBlock) : string :=
  match blocks with
  | [] => NOTHING_DIFFERS_BODY
  | _ =>
      let framing :=
        with_paragraph (existsb is_self_edited blocks) SELF_EDIT_FRAMING
          (with_paragraph (existsb is_since blocks) SINCE_YOUR_WRITE_FRAMING
             (with_paragraph (existsb is_diff blocks) DIFF_FRAMING FRAMING_BODY)) in
      (framing +:+ blank_line +:+ "<system_prompt_update>" +:+ newline
       +:+ joined blank_line (map render_block blocks) +:+ newline +:+ "</system_prompt_update>")%string
  end.
End Blocks.

(** ** The skill listing's update *)

Definition SKILLS_FRAMING_BODY : string :=
  ("The skills listed in the earlier system-reminder have changed since it was written. Below is a unified diff against that listing: `-` lines are skills that are gone "
   +:+ Str.bytes [226; 128; 148]%N
   +:+ " they are uninstalled, and calling one will fail "
   +:+ Str.bytes [226; 128; 148]%N
   +:+ " and `+` lines are available now. If this conversation carries more than one such update, the last one wins.")%string.
Definition SKILLS_NOTHING_DIFFERS_BODY : string :=
  ("Disregard any earlier skills update in this conversation: the skills listed in the earlier system-reminder are available again exactly as listed there.")%string.
Definition SKILLS_OPEN : string :=
  (blank_line +:+ "<skills_update>" +:+ newline +:+ "<skills " +:+ DIFF_ATTR +:+ ">" +:+ newline)%string.
Definition SKILLS_CLOSE : string := ("</skills>" +:+ newline +:+ "</skills_update>")%string.
Definition wrap_skills_update {D : Differ} (seeded current : string) (told_before : bool)
    : option string :=
  let diff := unified_diff seeded current in
  if String.eqb diff "" then
    if told_before then Some SKILLS_NOTHING_DIFFERS_BODY else None
  else Some (SKILLS_FRAMING_BODY +:+ SKILLS_OPEN +:+ diff +:+ SKILLS_CLOSE)%string.

(** ** What a reader makes of a skills update *)

(** The listing a conversation ends up with: the one it was shown, patched by
    the last update. *)
Definition read_skills_update {D : Differ} (seeded update : string) : option string :=
  if String.eqb update SKILLS_NOTHING_DIFFERS_BODY then Some (terminate seeded)
  else
    match Str.strip_prefix (SKILLS_FRAMING_BODY +:+ SKILLS_OPEN)%string update
            ≫= Str.strip_suffix SKILLS_CLOSE with
    | Some diff => patch (terminate seeded) diff
    | None => None
    end.

Lemma terminate_inj a b : terminate a = terminate b -> a = b.
Proof.
  assert (forall c s, (String c s +:+ newline)%string <> ""%string) by done.
  destruct a as [|c a], b as [|d b]; cbn [terminate]; [done | | |].
  - by intros E.
  - by intros E.
  - intros E. pose proof (f_equal (Str.strip_suffix newline) E) as H'.
    rewrite !Str.strip_suffix_app in H'. by injection H' as -> ->.
Qed.

Section Reading.
Context {D : Differ} {L : DifferLaws D}.

Lemma unified_diff_empty a b : unified_diff a b = ""%string <-> a = b.
Proof.
  unfold unified_diff. split; [|intros ->; apply diff_same].
  destruct (decide (terminate a = terminate b)) as [E|Hne]; [intros _; by apply terminate_inj|].
  intros E. by destruct (diff_patch _ _ Hne).
Qed.

(** Every update reads back as the listing it was made from. *)
Lemma wrap_skills_reads a b told u : wrap_skills_update a b told = Some u ->
  read_skills_update a u = Some (terminate b).
Proof.
  unfold wrap_skills_update. destruct (String.eqb_spec (unified_diff a b) "") as [E|Hne].
  { apply unified_diff_empty in E as ->. destruct told; [|done]. intros [= <-]. reflexivity. }
  intros E.
  assert (u = (SKILLS_FRAMING_BODY +:+ SKILLS_OPEN +:+ unified_diff a b +:+ SKILLS_CLOSE)%string)
    as -> by congruence. clear E. unfold read_skills_update.
  assert (forall d, String.eqb (SKILLS_FRAMING_BODY +:+ SKILLS_OPEN +:+ d) SKILLS_NOTHING_DIFFERS_BODY = false)
    as -> by reflexivity.
  rewrite Str.app_assoc_str, Str.strip_prefix_app. cbn [mbind option_bind].
  rewrite Str.strip_suffix_app. apply diff_patch. intros E. apply Hne, unified_diff_empty.
  by apply terminate_inj.
Qed.

Lemma wrap_skills_silent a b told :
  wrap_skills_update a b told = None <-> a = b /\ told = false.
Proof.
  unfold wrap_skills_update. destruct (String.eqb_spec (unified_diff a b) "") as [E|Hne].
  - apply unified_diff_empty in E as ->. destruct told; naive_solver.
  - split; [done|]. intros [-> _]. by destruct Hne; apply unified_diff_empty.
Qed.
End Reading.

End PromptUpdate.
