(* ===== verification/Upkeep.v ===== *)
(** * Keeping the conversation in step with its sources
      ([crates/context/src/lib.rs])

    The async operations of the context manager that look outside before they
    append: seeding the system prompt, the skill listing and the deferred-tool
    notice; reconciling the prompt and the listing with files and registry that
    moved since; expanding a [/command].  They run against a world that answers
    (and may change under) every look at the file system, the registry and the
    store. *)

From S2P Require Import Prelude Message Wire Tokens Approval ReadTracker Compaction ContextManager.
From S2P Require Import SessionLog Hydration Effect Skill PromptUpdate.
Import Approval Message Wire Tokens ContextManager SessionLog Hydration Effect.

Module Upkeep.

(** What the operations ask of the rest of the process.  Each look at something
    that lives outside may find it changed, so it returns the world after it. *)
Class World (W : Type) := {
  append_answer : W -> W * result Z string;
  assemble : W -> W * option PromptUpdate.AssembledPrompt;
  profile_prompt : string -> W -> option string;
  stat : string -> W -> W * option FileFingerprint;
  read_to_string : string -> W -> W * option string;
  registry : W -> Skill.SkillRegistry;
  spill : string -> W -> W * option string;
}.

(** What a manager is bound to for a session's whole life. *)
Record Binding := mk_binding {
  bound_session : string;
  channel : string;
  agent : option string;
  subagent_profile : option string;
  prompt_paths : list string;
}.

(** The manager with its store, and the prompt files noted for the read tracker. *)
Record Keep (W : Type) := mk_keep {
  world : W;
  session : Session;
  pending_prompt_anchors : list (string * FileFingerprint);
}.
Arguments mk_keep {W} _ _ _.
Arguments world {W} _.
Arguments session {W} _.
Arguments pending_prompt_anchors {W} _.

Section Ops.
Context {T : Tokenizer} {C : Chrono} {D : PromptUpdate.Differ} {W : Type} {O : World W}.
Context (escape_listing escape_skill_content : string -> string) (bound : Binding).

Definition KM (A : Type) : Type := M (Keep W) ContextError A.

Definition set_world (w : W) (k : Keep W) : Keep W := mk_keep w (session k) (pending_prompt_anchors k).
Definition set_session (s : Session) (k : Keep W) : Keep W := mk_keep (world k) s (pending_prompt_anchors k).
Definition set_anchors (a : list (string * FileFingerprint)) (k : Keep W) : Keep W :=
  mk_keep (world k) (session k) a.
Definition ask {A} (f : W -> W * A) : KM A := draw (fun k => let (w, a) := f (world k) in (set_world w k, a)).
Definition of_manager {A} (f : ContextManager -> A) : KM A := gets (fun k => f (manager (session k))).
Definition on_manager (f : ContextManager -> ContextManager) : KM unit :=
  modify (fun k => set_session (mk_session (store (session k)) (f (manager (session k)))) k).

(** ** Appending *)

Definition append (m : ChatMessage) : KM Z := fun k =>
  let (w, taken) := append_answer (world k) in
  let s := session k in
  match taken with
  | Ok now =>
      let (l, n) := append_session_message now m (log (store s)) in
      let (c, r) := ContextManager.append (Ok n) m (manager s) in
      (set_world w (set_session (mk_session (with_log l (store s)) c) k), r)
  | Err e =>
      let (c, r) := ContextManager.append (Err e) m (manager s) in
      (set_world w (set_session (mk_session (store s) c) k), r)
  end.
Definition append_idempotent (source_event_id : string) (m : ChatMessage)
    : KM SessionMessageAppendOutcome := fun k =>
  let (w, taken) := append_answer (world k) in
  let s := session k in
  match taken with
  | Ok now =>
      let (l, r) := append_session_message_idempotent now source_event_id m (log (store s)) in
      match r with
      | Ok o =>
          let c := (ContextManager.append_idempotent (Ok (cm_outcome o)) m (manager s)).1 in
          (set_world w (set_session (mk_session (with_log l (store s)) c) k), Ok o)
      | Err _ => (set_world w k, Err (Transcript "source_event_id must not be empty"))
      end
  | Err e => (set_world w k, Err (Transcript e))
  end.
Definition append_user_interjection_with_platform_msg_id (content : list ContentBlock) (pid : string)
    : KM Z := append (with_platform_msg_id (user_interjection content) pid).
Definition append_recalled_memory (content : list ContentBlock) : KM Z :=
  append (recalled_memory content).

(** ** The system prompt's sources *)

Definition try_resolve_system_prompt : KM (option PromptUpdate.AssembledPrompt) :=
  match subagent_profile bound with
  | Some p => gets (fun k => PromptUpdate.opaque <$> profile_prompt p (world k))
  | None => ask assemble
  end.

Fixpoint fingerprints (paths : list string) : KM (list (string * option FileFingerprint)) :=
  match paths with
  | [] => ret []
  | p :: paths =>
      let* fp := ask (stat p) in
      let* rest := fingerprints paths in
      ret ((p, fp) :: rest)
  end.
Definition current_system_prompt_version : KM SystemPromptVersion :=
  match subagent_profile bound with
  | Some p => ret (Subagent p)
  | None => let* fps := fingerprints (prompt_paths bound) in ret (Persona fps)
  end.

Definition note_prompt_anchor (section : string * string) : KM unit :=
  let (path, body) := section in
  let* meta := ask (stat path) in
  match meta with
  | None => ret tt
  | Some fp =>
      let* current := ask (read_to_string path) in
      when (bool_decide (current = Some body))
        (modify (fun k => set_anchors (pending_prompt_anchors k ++ [(path, fp)]) k))
  end.
Definition note_prompt_anchors (p : PromptUpdate.AssembledPrompt) : KM unit :=
  each note_prompt_anchor (PromptUpdate.sections p).
Definition take_prompt_anchors : KM (list (string * FileFingerprint)) :=
  let* a := gets pending_prompt_anchors in
  let* _ := modify (set_anchors []) in
  ret a.

(** ** What the transcript already says *)

Definition block_text (content : list ContentBlock) : string := joined newline (omap text_of content).
(** [iter().rfind(..)] *)
Definition newest (src : MessageSource) (ms : list ChatMessage) : option ChatMessage :=
  find_first (fun m => bool_decide (source m = src)) (rev ms).
Definition newest_text (src : MessageSource) (ms : list ChatMessage) : option string :=
  (fun m => block_text (content m)) <$> newest src ms.
Definition newest_prompt_update_text : list ChatMessage -> option string := newest_text SystemPromptUpdate.
Definition newest_skills_update_text : list ChatMessage -> option string := newest_text SkillsUpdate.
Definition leading_system_text (ms : list ChatMessage) : string :=
  match ms with
  | m :: _ => if is_system m then block_text (content m) else ""
  | [] => ""
  end.
Definition seeded_skill_listing (ms : list ChatMessage) : string :=
  match newest SkillListing ms with
  | Some m =>
      match content m with
      | Text t :: _ => default "" (Skill.skill_reminder_listing t)
      | _ => ""
      end
  | None => ""
  end%string.

(** *** The files the conversation wrote itself *)

Definition WRITE_TOOL_NAME : string := "Write".
Definition TOOL_FILE_PATH_ARG : string := "file_path".
Definition TOOL_CONTENT_ARG : string := "content".

Record Writes := mk_writes {
  wrote : gmap PromptUpdate.PathKey (string * FileFingerprint * option string);
  in_flight : gmap string (string * option string);
}.
Definition note_block (w : Writes) (b : ContentBlock) : Writes :=
  match b with
  | ToolUse id name input _ =>
      if bool_decide (name ∈ ReadTracker.FILE_WRITING_TOOLS) then
        match Json.get_str input TOOL_FILE_PATH_ARG with
        | Some path =>
            let body := if String.eqb name WRITE_TOOL_NAME
                        then Json.get_str input TOOL_CONTENT_ARG else None in
            mk_writes (wrote w) (<[id := (path, body)]> (in_flight w))
        | None => w
        end
      else w
  | ToolResult id _ (Some meta) =>
      match in_flight w !! id with
      | Some (path, body) =>
          let rest := delete id (in_flight w) in
          match write_fingerprint meta with
          | Some fp =>
              mk_writes (<[Approval.components path := (path, fp, body)]> (wrote w)) rest
          | None => mk_writes (wrote w) rest
          end
      | None => w
      end
  | _ => w
  end.
Definition writes_in (ms : list ChatMessage) : Writes :=
  foldl note_block (mk_writes ∅ ∅) (concat (map content ms)).

Fixpoint verify_writes (l : list (PromptUpdate.PathKey * (string * FileFingerprint * option string)))
    : KM (gmap PromptUpdate.PathKey PromptUpdate.SelfWrite) :=
  match l with
  | [] => ret ∅
  | (key, (path, fp, body)) :: l =>
      let* live := ask (stat path) in
      let* mine := verify_writes l in
      ret (<[key := PromptUpdate.mk_self (bool_decide (live = Some fp)) body]> mine)
  end.
Definition self_written_sections : KM (gmap PromptUpdate.PathKey PromptUpdate.SelfWrite) :=
  let* ms := of_manager messages in
  verify_writes (map_to_list (wrote (writes_in ms))).

(** ** Seeding *)

Definition FALLBACK_SYSTEM_PROMPT : string := "You are Baybo, an intelligent assistant.".
Definition resolve_system_prompt : KM string :=
  let* p := try_resolve_system_prompt in
  ret (default FALLBACK_SYSTEM_PROMPT (PromptUpdate.prompt_text <$> p)).

Definition leads_with_system (ms : list ChatMessage) : bool :=
  match ms with m :: _ => is_system m | [] => false end.
Definition invocable (k : Keep W) : list Skill.SkillSummary :=
  Skill.invocable_skill_summaries (agent bound) (channel bound) (registry (world k)).
Definition listing (k : Keep W) : string := Skill.render_skill_listing escape_listing (invocable k).
Definition set_prompt_version (v : SystemPromptVersion) : KM unit :=
  on_manager (fun c => set_versions (Some v) (skills_version c) c).
Definition set_skills_version (s : string) : KM unit :=
  on_manager (fun c => set_versions (system_prompt_version c) (Some s) c).

(** The rows after the skill listing. *)
Definition finish_seeding (listing : string) : KM unit :=
  let* notice := of_manager deferred_tool_notice in
  let* _ := match notice with
            | Some n => let* _ := append (deferred_tool_listing [Text n]) in ret tt
            | None => ret tt
            end in
  set_skills_version listing.
Definition ensure_seeded : KM unit :=
  let* ms := of_manager messages in
  if leads_with_system ms then ret tt
  else
    let* resolved := try_resolve_system_prompt in
    let* skills := gets invocable in
    let prompt := default FALLBACK_SYSTEM_PROMPT (PromptUpdate.prompt_text <$> resolved) in
    let* _ := append (system [Text prompt]) in
    let* _ := match resolved with
              | Some p =>
                  let* v := current_system_prompt_version in
                  let* _ := set_prompt_version v in
                  note_prompt_anchors p
              | None => ret tt
              end in
    let* _ := match skills with
              | [] => ret tt
              | _ =>
                  let* _ := append (skill_listing
                              [Text (Skill.render_skill_reminder escape_listing skills)]) in
                  ret tt
              end in
    finish_seeding (Skill.render_skill_listing escape_listing skills).

(** ** Reconciling *)

Definition reconcile_system_prompt : KM unit :=
  let* leads := of_manager leads_with_system_text in
  if negb leads then ret tt
  else
    let* version := current_system_prompt_version in
    let* known := of_manager system_prompt_version in
    if bool_decide (known = Some version) then ret tt
    else
      let* resolved := try_resolve_system_prompt in
      match resolved with
      | None => ret tt
      | Some parts =>
          let* resolved_version := current_system_prompt_version in
          let* ms := of_manager messages in
          let* self_written := self_written_sections in
          let unseen := PromptUpdate.build_blocks parts (leading_system_text ms) self_written in
          let told := newest_prompt_update_text ms in
          match unseen, told with
          | [], None => set_prompt_version resolved_version
          | _, _ =>
              let update := PromptUpdate.wrap_update unseen in
              if bool_decide (told = Some update) then set_prompt_version resolved_version
              else
                let* _ := append (system_prompt_update [Text update]) in
                set_prompt_version resolved_version
          end
      end.

Definition reconcile_skills : KM unit :=
  let* leads := of_manager leads_with_system_text in
  if negb leads then ret tt
  else
    let* now := gets listing in
    let* known := of_manager skills_version in
    if bool_decide (known = Some now) then ret tt
    else
      let* ms := of_manager messages in
      let told := newest_skills_update_text ms in
      match PromptUpdate.wrap_skills_update (seeded_skill_listing ms) now (is_some told) with
      | None => set_skills_version now
      | Some update =>
          if bool_decide (told = Some update) then set_skills_version now
          else
            let* _ := append (skills_update [Text update]) in
            set_skills_version now
      end.

(** ** Slash commands *)

Definition slash_expansion_message (k : Keep W) : option (string * ChatMessage) :=
  match last (messages (manager (session k))) with
  | Some m =>
      if bool_decide (source m = SrcUser) then
        match Skill.detect_slash_invocation (extract_text (content m))
                (Skill.slash_skill_summaries (agent bound) (channel bound) (registry (world k))) with
        | Some (skill_name, _) =>
            match Skill.get_scoped (Skill.skill_scope (agent bound)) skill_name (registry (world k)) with
            | Some s =>
                Some (skill_name,
                      agent_context [Text (Skill.render_skill_for_slash s (bound_session bound))])
            | None => None
            end
        | None => None
        end
      else None
  | None => None
  end.
Definition note_called_skill (name : string) (c : ContextManager) : ContextManager :=
  set_transcript (messages c) (per_message_tokens c) (push_called_skill (called_skills c) name) c.
Definition expand_slash_command : KM unit :=
  let* e := gets slash_expansion_message in
  match e with
  | Some (skill_name, m) =>
      let* _ := append m in
      on_manager (note_called_skill skill_name)
  | None => ret tt
  end.

(** ** Tool output too large for the window
      ([crates/context/src/prompts/tool_output.rs]) *)

Definition MAX_TOOL_OUTPUT_BYTES : N := 32 * 1024.
Definition truncation_notice (shown total : nat) (path : option string) : string :=
  (blank_line +:+ "[... truncated: " +:+ pretty shown +:+ "/" +:+ pretty total
   +:+ " bytes shown (per-tool-result cap is " +:+ pretty (MAX_TOOL_OUTPUT_BYTES / 1024)%N +:+ " KiB / "
   +:+ pretty MAX_TOOL_OUTPUT_BYTES +:+ " bytes). "
   +:+ match path with
       | Some p => "Full output written to " +:+ p +:+ " " +:+ ReadTracker.em_dash
           +:+ " call the `Read` tool with that absolute path (use `offset`/`limit` for ranges) to fetch the rest, or re-run the original tool with a narrower scope.]"
       | None => "Re-run the tool with a narrower scope for the rest.]"
       end)%string.
Definition capped (content : string) (spill_path : option string) : string :=
  if (N.of_nat (String.length content) <=? MAX_TOOL_OUTPUT_BYTES)%N then content
  else
    let cut := Str.char_cut content (N.to_nat MAX_TOOL_OUTPUT_BYTES) in
    (Str.take cut content +:+ truncation_notice cut (String.length content) spill_path)%string.
Definition cap_tool_output (content : string) : KM string :=
  if (N.of_nat (String.length content) <=? MAX_TOOL_OUTPUT_BYTES)%N then ret content
  else
    let* path := ask (spill content) in
    ret (capped content path).

(** ** What the conversation says the skills are *)

Definition shown_skills (ms : list ChatMessage) : option string :=
  match newest_skills_update_text ms with
  | None => Some (PromptUpdate.terminate (seeded_skill_listing ms))
  | Some u => PromptUpdate.read_skills_update (seeded_skill_listing ms) u
  end.

Definition is_skill_row (m : ChatMessage) : bool :=
  match source m with SkillListing | SkillsUpdate => true | _ => false end.

(** While the transcript is led by a system row, a listing the manager has
    agreed to is the one its rows say. *)
Record skills_ok (c : ContextManager) : Prop := mk_skills_ok {
  ok_shown l : leads_with_system (messages c) = true -> skills_version c = Some l ->
    shown_skills (messages c) = Some (PromptUpdate.terminate l);
  ok_unseeded : messages c = [] -> skills_version c = None;
}.

Lemma newest_snoc src ms m :
  newest src (ms ++ [m]) = if bool_decide (source m = src) then Some m else newest src ms.
Proof. unfold newest. by rewrite rev_app_distr. Qed.

Lemma newest_update_snoc ms m : is_skill_row m = false ->
  newest_skills_update_text (ms ++ [m]) = newest_skills_update_text ms.
Proof.
  intros Hm. unfold newest_skills_update_text, newest_text. rewrite newest_snoc. unfold is_skill_row in Hm.
  rewrite bool_decide_eq_false_2; [done | by intros E; rewrite E in Hm].
Qed.
Lemma seeded_snoc ms m : is_skill_row m = false ->
  seeded_skill_listing (ms ++ [m]) = seeded_skill_listing ms.
Proof.
  intros Hm. unfold seeded_skill_listing. rewrite newest_snoc. unfold is_skill_row in Hm.
  rewrite bool_decide_eq_false_2; [done | by intros E; rewrite E in Hm].
Qed.
Lemma shown_snoc ms m : is_skill_row m = false -> shown_skills (ms ++ [m]) = shown_skills ms.
Proof. intros Hm. unfold shown_skills. by rewrite newest_update_snoc, seeded_snoc. Qed.

Lemma leads_snoc ms m : leads_with_system ms = true -> leads_with_system (ms ++ [m]) = true.
Proof. by destruct ms. Qed.
Lemma leads_text c : leads_with_system_text c = true -> leads_with_system (messages c) = true.
Proof. unfold leads_with_system_text. destruct (messages c); [done|]. by intros [H _]%andb_true_iff. Qed.

(** ** Appends, step by step *)

Definition stored (now : Z) (m : ChatMessage) (k : Keep W) : Session :=
  mk_session (with_log (append_session_message now m (log (store (session k)))).1 (store (session k)))
    (push_message m (manager (session k))).

Lemma append_cases m k : exists w,
  (exists now, append m k = (set_world w (set_session (stored now m k) k),
                             Ok (next_ordinal (log (store (session k)))))) \/
  (exists e, append m k = (set_world w k, Err (Transcript e))).
Proof.
  unfold append. destruct (append_answer (world k)) as [w [now|e]]; exists w; [left; by exists now | right].
  exists e. by destruct k as [? [] ?].
Qed.

(** An invariant of the session that an append keeps. *)
Lemma keeps_append (P : Session -> Prop) m :
  (forall now k, P (session k) -> P (stored now m k)) -> keeps (fun k => P (session k)) (append m).
Proof.
  intros H k Hk. destruct (append_cases m k) as (w & [(now & ->) | (e & ->)]); cbn; [by apply H | exact Hk].
Qed.

Lemma keeps_world (P : Session -> Prop) {A} (f : W -> W * A) : keeps (fun k => P (session k)) (ask f).
Proof. intros k Hk. unfold ask, draw. by destruct (f (world k)). Qed.

Lemma keeps_fingerprints (P : Session -> Prop) paths : keeps (fun k => P (session k)) (fingerprints paths).
Proof.
  induction paths as [|p paths IH]; cbn [fingerprints]; [apply keeps_ret|].
  apply keeps_bind; [apply keeps_world|]. intros fp. apply keeps_bind; [exact IH|]. intros ?. apply keeps_ret.
Qed.
Lemma keeps_version (P : Session -> Prop) : keeps (fun k => P (session k)) current_system_prompt_version.
Proof.
  unfold current_system_prompt_version. destruct (subagent_profile bound); [apply keeps_ret|].
  apply keeps_bind; [apply keeps_fingerprints | intros ?; apply keeps_ret].
Qed.
Lemma keeps_resolve (P : Session -> Prop) : keeps (fun k => P (session k)) try_resolve_system_prompt.
Proof.
  unfold try_resolve_system_prompt. destruct (subagent_profile bound); [apply keeps_gets | apply keeps_world].
Qed.
Lemma keeps_anchors (P : Session -> Prop) p : keeps (fun k => P (session k)) (note_prompt_anchors p).
Proof.
  apply keeps_each. intros [path body]. cbn. apply keeps_bind; [apply keeps_world|]. intros [fp|]; [|apply keeps_ret].
  apply keeps_bind; [apply keeps_world|]. intros current. apply keeps_when, keeps_modify. by intros.
Qed.
Lemma keeps_verify (P : Session -> Prop) l : keeps (fun k => P (session k)) (verify_writes l).
Proof.
  induction l as [|[key [[path fp] body]] l IH]; cbn [verify_writes]; [apply keeps_ret|].
  apply keeps_bind; [apply keeps_world|]. intros live. apply keeps_bind; [exact IH | intros ?; apply keeps_ret].
Qed.
Lemma keeps_self_written (P : Session -> Prop) : keeps (fun k => P (session k)) self_written_sections.
Proof. apply keeps_bind; [apply keeps_gets | intros ms; apply keeps_verify]. Qed.
Lemma keeps_manager (P : Session -> Prop) f :
  (forall s, P s -> P (mk_session (store s) (f (manager s)))) ->
  keeps (fun k => P (session k)) (on_manager f).
Proof. intros H. apply keeps_modify. intros k Hk. by apply H. Qed.

(** Peels an operation that looks outside and appends. *)
Ltac upkeep :=
  repeat (keeps_step || apply keeps_version || apply keeps_resolve || apply keeps_anchors
          || apply keeps_self_written || apply keeps_world).

(** *** The skill rows *)

Lemma ok_push m c : is_skill_row m = false -> skills_ok c -> skills_ok (push_message m c).
Proof.
  intros Hm [H1 H2].
  split; cbn [push_message refresh_budget set_budget set_transcript messages skills_version].
  - intros l Hl Hv. rewrite shown_snoc by done. destruct (messages c) as [|x ms] eqn:E.
    + by rewrite (H2 eq_refl) in Hv.
    + by apply H1.
  - by destruct (messages c).
Qed.
Lemma keeps_skills_append m : is_skill_row m = false ->
  keeps (fun k => skills_ok (manager (session k))) (append m).
Proof.
  intros Hm. apply (keeps_append (fun s => skills_ok (manager s))). intros now k Hk. by apply ok_push.
Qed.


(** A manager that has agreed to no listing, or holds a transcript that no system
    row leads, claims nothing. *)
Lemma ok_unclaimed c : messages c <> [] -> skills_version c = None \/ leads_with_system (messages c) = false ->
  skills_ok c.
Proof. intros Hne [Hv|Hl]; split; congruence. Qed.

(** What the rest of a seeding keeps, once its system row is in: the transcript
    shows [l] and no listing is agreed to yet, or it is not led at all. *)
Definition seeding (l : string) (s : Session) : Prop :=
  messages (manager s) <> []
  /\ (leads_with_system (messages (manager s)) = false
      \/ skills_version (manager s) = None
         /\ newest_skills_update_text (messages (manager s)) = None
         /\ seeded_skill_listing (messages (manager s)) = l).

Lemma seeding_ok l s : seeding l s -> skills_ok (manager s).
Proof. intros (Hne & [H | [H _]]); apply ok_unclaimed; auto. Qed.
Lemma seeding_append l m : is_skill_row m = false -> keeps (fun k => seeding l (session k)) (append m).
Proof.
  intros Hm. apply keeps_append. intros now k (Hne & H).
  split; cbn [stored manager push_message refresh_budget set_budget set_transcript messages skills_version].
  - by destruct (messages (manager (session k))).
  - destruct H as [H | (Hv & Hn & Hl)]; [left; by destruct (messages (manager (session k)))|].
    right. split; [exact Hv|]. by rewrite newest_update_snoc, seeded_snoc.
Qed.

Lemma wp_append m (Q : result Z ContextError -> Keep W -> Prop) k :
  (forall w now, Q (Ok (next_ordinal (log (store (session k))))) (set_world w (set_session (stored now m k) k))) ->
  (forall w e, Q (Err (Transcript e)) (set_world w k)) ->
  wp (append m) Q k.
Proof.
  intros H1 H2. unfold wp. destruct (append_cases m k) as (w & [(now & ->) | (e & ->)]); [apply H1 | apply H2].
Qed.

Lemma keeps_seeding_version l : keeps (fun k => seeding l (session k))
  (let* v := current_system_prompt_version in set_prompt_version v).
Proof.
  apply keeps_bind; [apply keeps_version|]. intros v. apply (keeps_manager (seeding l)). by intros s H.
Qed.

(** The first row of a seeding. *)
Lemma seeding_start now k prompt : leads_with_system (messages (manager (session k))) = false ->
  skills_ok (manager (session k)) -> seeding "" (stored now (system [Text prompt]) k).
Proof.
  intros Hl [_ H].
  split; cbn [stored manager push_message refresh_budget set_budget set_transcript messages skills_version].
  - by destruct (messages (manager (session k))).
  - destruct (messages (manager (session k))) as [|x ms]; [right | by left].
    split; [by apply H|]. by split.
Qed.
(** The listing row shows what it was rendered from. *)
Lemma seeding_listing now k skills : seeding "" (session k) ->
  seeding (Skill.render_skill_listing escape_listing skills)
    (stored now (skill_listing [Text (Skill.render_skill_reminder escape_listing skills)]) k).
Proof.
  intros (Hne & H).
  split; cbn [stored manager push_message refresh_budget set_budget set_transcript messages skills_version].
  - by destruct (messages (manager (session k))).
  - destruct H as [H | (Hv & Hn & _)]; [left; by destruct (messages (manager (session k)))|].
    right. split_and!; [exact Hv | |].
    + unfold newest_skills_update_text, newest_text in *. by rewrite newest_snoc.
    + unfold seeded_skill_listing. rewrite newest_snoc, bool_decide_eq_true_2 by done.
      unfold skill_listing. cbn [content]. by rewrite Skill.reminder_reads_back.
Qed.
Lemma seeding_agreed l s : seeding l s ->
  skills_ok (set_versions (system_prompt_version (manager s)) (Some l) (manager s)).
Proof.
  intros (Hne & H). split; cbn; [|done]. intros l' Hl [= <-]. destruct H as [H | (_ & Hn & Hs)]; [congruence|].
  unfold shown_skills. by rewrite Hn, Hs.
Qed.

(** A step that keeps a seeding going, then the rest. *)
Lemma wp_seeding {A B} l (m : KM A) (f : A -> KM B) Q k :
  keeps (fun k => seeding l (session k)) m -> seeding l (session k) ->
  (forall e k', skills_ok (manager (session k')) -> Q (Err e) k') ->
  (forall a k', seeding l (session k') -> wp (f a) Q k') ->
  wp (bind m f) Q k.
Proof.
  intros Hm Hk He Ha. apply wp_bind. eapply wp_mono; [by apply (wp_keeps _ m k Hm)|].
  intros [a|e] k' H; cbn in H; [by apply Ha | by eapply He, seeding_ok].
Qed.

Lemma finish_ok l k : seeding l (session k) ->
  wp (finish_seeding l) (fun _ k' => skills_ok (manager (session k'))) k.
Proof.
  intros Hk. apply wp_bind, wp_gets, (wp_seeding l); [|exact Hk | done|].
  - destruct (deferred_tool_notice _); [|apply keeps_ret].
    apply keeps_bind; [by apply seeding_append | intros; apply keeps_ret].
  - intros _ k5 Hk5. apply wp_modify. by apply seeding_agreed.
Qed.

Lemma seed_ok k : skills_ok (manager (session k)) ->
  wp ensure_seeded (fun _ k' => skills_ok (manager (session k'))) k.
Proof.
  intros Hk. unfold ensure_seeded. apply wp_bind, wp_gets.
  destruct (leads_with_system (messages (manager (session k)))) eqn:Hl; [by apply wp_ret|].
  apply wp_bind. eapply wp_mono; [apply (wp_keeps (fun k' => session k' = session k) _ k); [|reflexivity]|].
  { apply (keeps_resolve (fun s => s = session k)). }
  intros [resolved|e] k1 E; [|by rewrite E].
  apply wp_bind, wp_gets, wp_bind, wp_append; [|intros w e; cbn; by rewrite E].
  intros w now. set (k2 := set_world w _).
  assert (Hk2 : seeding "" (session k2)) by (apply seeding_start; rewrite E; assumption).
  clearbody k2. clear E Hk.
  apply (wp_seeding ""); [|exact Hk2 | done|].
  { destruct resolved; [|apply keeps_ret]. apply keeps_bind; [apply keeps_version|]. intros v.
    apply keeps_bind; [|intros _; apply keeps_anchors]. apply (keeps_manager (seeding "")). by intros s H. }
  intros _ k3 Hk3. apply wp_bind.
  set (l := Skill.render_skill_listing escape_listing (invocable k1)).
  assert (Hrest : forall k4, seeding l (session k4) -> wp (finish_seeding l)
      (fun _ k' => skills_ok (manager (session k'))) k4) by (intros; by apply finish_ok).
  destruct (invocable k1) as [|x skills] eqn:Es; [by apply wp_ret, Hrest|].
  apply wp_bind, wp_append.
  - intros w3 now3. apply wp_ret, Hrest. by apply seeding_listing.
  - intros w3 e. by eapply seeding_ok.
Qed.

(** ** A session's life *)

(** The rows and versions an operation may touch, kept by every one of them. *)
Section Operations.
Context (P : Session -> Prop).
Context (P_row : forall m, is_skill_row m = false -> keeps (fun k => P (session k)) (append m)).
Context (P_prompt : forall v s, P s ->
  P (mk_session (store s) (set_versions (Some v) (skills_version (manager s)) (manager s)))).
Context (P_called : forall n s, P s -> P (mk_session (store s) (note_called_skill n (manager s)))).

Lemma keeps_prompt_version v : keeps (fun k => P (session k)) (set_prompt_version v).
Proof. apply keeps_manager. intros s H. by apply P_prompt. Qed.
Lemma keeps_reconcile_prompt : keeps (fun k => P (session k)) reconcile_system_prompt.
Proof using P_row P_prompt.
  apply keeps_bind; [apply keeps_gets|]. intros leads. destruct (negb leads); [apply keeps_ret|].
  apply keeps_bind; [apply keeps_version|]. intros version. apply keeps_bind; [apply keeps_gets|]. intros known.
  destruct (bool_decide _); [apply keeps_ret|]. apply keeps_bind; [apply keeps_resolve|].
  intros [parts|]; [|apply keeps_ret]. apply keeps_bind; [apply keeps_version|]. intros v.
  apply keeps_bind; [apply keeps_gets|]. intros ms. apply keeps_bind; [apply keeps_self_written|]. intros mine.
  cbv zeta. pose proof (keeps_prompt_version v) as Hv.
  assert (forall u, keeps (fun k => P (session k))
    (if bool_decide (newest_prompt_update_text ms = Some u) then set_prompt_version v
     else let* _ := append (system_prompt_update [Text u]) in set_prompt_version v)) as Hu.
  { intros u. destruct (bool_decide _); [exact Hv|]. apply keeps_bind; [by apply P_row | by intros _]. }
  destruct (PromptUpdate.build_blocks _ _ _), (newest_prompt_update_text ms); try exact Hv; apply Hu.
Qed.
Lemma keeps_slash : keeps (fun k => P (session k)) expand_slash_command.
Proof using P_row P_called.
  intros k Hk. unfold expand_slash_command, bind, gets. cbn [fst snd].
  destruct (slash_expansion_message k) as [[n m]|] eqn:E; [|exact Hk].
  assert (is_skill_row m = false) as Hm.
  { unfold slash_expansion_message in E. destruct (last _); [|done]. destruct (bool_decide _); [|done].
    destruct (Skill.detect_slash_invocation _ _) as [[? ?]|]; [|done]. destruct (Skill.get_scoped _ _ _); [|done].
    by injection E as _ <-. }
  apply (keeps_bind (fun k => P (session k)) (append m) (fun _ => on_manager (note_called_skill n)));
    [by apply P_row | intros _ | exact Hk].
  apply keeps_manager. intros s H. by apply P_called.
Qed.
End Operations.

(** The manager agrees to what its rows show. *)
Lemma agreed l c : messages c <> [] -> shown_skills (messages c) = Some (PromptUpdate.terminate l) ->
  skills_ok (set_versions (system_prompt_version c) (Some l) c).
Proof. intros Hne H. split; cbn; [|done]. by intros l' _ [= <-]. Qed.

Context {DL : PromptUpdate.DifferLaws D}.

(** A reconcile leaves the rows, or adds the one that brings them up to date. *)
Lemma reconcile_skills_spec k : skills_ok (manager (session k)) ->
  wp reconcile_skills (fun r k' => skills_ok (manager (session k'))
    /\ (messages (manager (session k')) = messages (manager (session k))
        \/ exists u, messages (manager (session k')) = messages (manager (session k)) ++ [skills_update [Text u]])
    /\ (r = Ok tt -> leads_with_system_text (manager (session k)) = true ->
        shown_skills (messages (manager (session k'))) = Some (PromptUpdate.terminate (listing k)))) k.
Proof using DL.
  intros Hk. unfold reconcile_skills. apply wp_bind, wp_gets.
  destruct (leads_with_system_text (manager (session k))) eqn:Hl; cbn [negb];
    [|apply wp_ret; split_and!; [done | by left | done]].
  assert (messages (manager (session k)) <> []) as Hne
    by (intros E; unfold leads_with_system_text in Hl; by rewrite E in Hl).
  apply wp_bind, wp_gets, wp_bind, wp_gets.
  case_bool_decide as Hv; [apply wp_ret; split_and!; [done | by left |]|].
  { intros _ _. by apply (ok_shown _ Hk); [apply leads_text|]. }
  apply wp_bind, wp_gets. cbv zeta.
  set (ms := messages (manager (session k))) in *. set (now := listing k).
  assert (forall k0, session k0 = session k -> shown_skills ms = Some (PromptUpdate.terminate now) ->
    wp (set_skills_version now) (fun r k' => skills_ok (manager (session k'))
      /\ (messages (manager (session k')) = ms \/ exists u, messages (manager (session k')) = ms ++ [skills_update [Text u]])
      /\ (r = Ok tt -> true = true -> shown_skills (messages (manager (session k'))) = Some (PromptUpdate.terminate now))) k0)
    as Hset.
  { intros k0 E H. apply wp_modify. cbn [set_session session manager]. rewrite E.
    split_and!; [by apply agreed | by left | by intros _ _]. }
  destruct (PromptUpdate.wrap_skills_update _ now _) as [u|] eqn:Eu.
  - pose proof (PromptUpdate.wrap_skills_reads _ _ _ _ Eu) as Hr.
    case_bool_decide as Ht; [apply Hset; [done|]; unfold shown_skills; by rewrite Ht|].
    assert (shown_skills (ms ++ [skills_update [Text u]]) = Some (PromptUpdate.terminate now)) as Hs.
    { unfold shown_skills, newest_skills_update_text, newest_text, seeded_skill_listing.
      rewrite !newest_snoc. exact Hr. }
    apply wp_bind, wp_append; [|intros w e; split_and!; [exact Hk | by left | done]].
    intros w0 t. apply wp_modify. split_and!; [|by right; exists u|by intros _ _].
    apply (agreed _ (push_message _ _)); [cbn; by destruct (messages _) | exact Hs].
  - apply PromptUpdate.wrap_skills_silent in Eu as [Es Ht]. apply Hset; [done|]. unfold shown_skills.
    destruct (newest_skills_update_text ms); [done|]. by rewrite Es.
Qed.

(** What can happen to a session: the files, the registry or the store move;
    the manager reconciles, expands, appends; or one of the operations of
    [Hydration] (a compaction, a restart, a count, another writer's row). *)
Inductive op :=
| Outside (f : W -> W)
| Seed | ReconcilePrompt | ReconcileSkills | Slash
| Appended (m : ChatMessage) | AppendedOnce (source_event_id : string) (m : ChatMessage)
| Managed (o : step_op).

Definition registry_answers (k : Keep W) : ContextManager.Skills :=
  Skill.answers escape_listing escape_skill_content (agent bound) (channel bound) (registry (world k)).
Definition run_op (k : Keep W) (o : op) : Keep W :=
  match o with
  | Outside f => set_world (f (world k)) k
  | Seed => (ensure_seeded k).1
  | ReconcilePrompt => (reconcile_system_prompt k).1
  | ReconcileSkills => (reconcile_skills k).1
  | Slash => (expand_slash_command k).1
  | Appended m => (append m k).1
  | AppendedOnce key m => (append_idempotent key m k).1
  | Managed o => set_session (step (registry_answers k) (session k) o) k
  end.
Definition life (w : W) (os : list op) : Keep W :=
  foldl run_op (mk_keep w (mk_session (mk_store [] None) (from_config 0 DEFAULT_THRESHOLD 0 None)) []) os.

(** Rows about the skills are appended by the manager's own operations alone;
    [replace_first_message] is private to the reseeding. *)
Definition ordinary (o : op) : bool :=
  match o with
  | Appended m | AppendedOnce _ m | Managed (Hydration.Append _ _ m) | Managed (AppendOnce _ _ _ m) =>
      negb (is_skill_row m)
  | Managed (Local (OpReplaceFirst _)) => false
  | _ => true
  end.

Lemma skills_ok_same c c' : messages c' = messages c -> skills_version c' = skills_version c ->
  skills_ok c -> skills_ok c'.
Proof. intros Em Ev [H1 H2]. split; rewrite Em, Ev; assumption. Qed.
Lemma ready_versions m tools c : skills_version (ready m tools c) = skills_version c.
Proof.
  unfold ready, note_request_tools, set_current_model. cbn.
  destruct (bool_decide _); [done|]. by destruct (is_some _).
Qed.
Lemma skills_ok_ready m tools c : skills_ok c -> skills_ok (ready m tools c).
Proof. apply skills_ok_same; [apply ready_rows | apply ready_versions]. Qed.

Lemma reseed_skills_version a c : skills_version (reseed_system_row a c) = skills_version c.
Proof.
  unfold reseed_system_row. destruct (leads_with_system_text c); [|done].
  destruct (resolved_prompt a) as [p|]; [|done]. unfold replace_first_message.
  destruct (messages c); [done|]. by destruct (per_message_tokens c).
Qed.
Lemma persist_skills_version a c : skills_version (persist_compaction a c) = skills_version c.
Proof. done. Qed.
Lemma apply_skills_version sk new n c : skills_version (apply_compaction sk new n c) = None.
Proof. done. Qed.
Lemma declined_skills_version n c : skills_version (set_declined n (invalidate_baseline c)) = skills_version c.
Proof. done. Qed.
Lemma compression_version sk a c c' o : run_compression sk a c = (c', o) ->
  skills_version c' = match o with Compressed => None | _ => skills_version c end.
Proof.
  unfold run_compression. generalize (run_compression_flow sk c (transcript_path a) (ContextManager.chat a)) as flow.
  intros [| |reason|[|x ms]]; try (by intros [= <- <-]).
  generalize (unanchored_request_tokens (invalidate_baseline c)
    (totals (map (budget_tokens (invalidate_baseline c)) (insert_skill_trailer sk c (x :: ms))))) as n.
  intros n. destruct (_ <=? n)%N; intros [= <- <-].
  - by rewrite declined_skills_version.
  - by rewrite persist_skills_version, reseed_skills_version, apply_skills_version.
Qed.
Lemma skills_ok_compression sk a c : skills_ok c -> skills_ok (run_compression sk a c).1.
Proof.
  intros H. destruct (run_compression sk a c) as [c' o] eqn:E. cbn [fst].
  pose proof (compression_version sk a c c' o E) as Hv.
  destruct (run_compression_rows sk a c c' o E) as [(-> & Hne & _) | (Hn & Hm & _)].
  - apply ok_unclaimed; [exact Hne | by left].
  - apply (skills_ok_same c); [exact Hm | by destruct o | exact H].
Qed.

Lemma skills_ok_compact sk now model tools a forced s :
  skills_ok (manager s) -> skills_ok (manager (compact_session sk now model tools a forced s)).
Proof.
  intros H. unfold compact_session.
  assert (forall c o, skills_ok c -> skills_ok (manager match o with
      | Compressed => mk_session (if ContextManager.persisted a
         then with_log (apply_session_compaction now (messages c) (log (store s))).1 (store s) else store s) c
      | _ => mk_session (store s) c end)) as Hout by (by intros c []).
  pose proof (skills_ok_ready model tools (manager s) H) as Hr.
  match goal with |- context [let (c, outcome) := ?r in _] => assert (skills_ok r.1) as Hc end.
  { destruct forced; [apply skills_ok_compression; by apply (skills_ok_same (ready model tools (manager s)))|].
    unfold maybe_compress. cbv zeta. destruct (negb _); [exact Hr|]. destruct (compaction_declined _); [exact Hr|].
    by apply skills_ok_compression. }
  match goal with |- context [let (c, outcome) := ?r in _] => destruct r as [c o] end. by apply Hout.
Qed.

Lemma restore_skills_version sk a s c : skills_version c = None ->
  skills_version (restore_from_store sk a s c).2 = None.
Proof.
  intros Hv. unfold restore_from_store. destruct (rows_loaded a); [|exact Hv]. cbn [negb].
  destruct (load_active_session_message_rows _); [exact Hv|]. destruct (persist_fills _ _ _) as [l' kept].
  set (c' := set_diverged _ _). assert (skills_version c' = None) as Hc by reflexivity. clearbody c'. cbv zeta.
  destruct (anchor_loaded a); [|exact Hc].
  destruct (restorable_anchor_len _ _) as [[an n]|]; [|exact Hc]. destruct (_ && _); exact Hc.
Qed.
Lemma skills_ok_restore sk a s c : skills_version c = None -> skills_ok (restore_from_store sk a s c).2.
Proof. intros Hv. pose proof (restore_skills_version sk a s c Hv) as E. split; congruence. Qed.

Lemma local_rows sk o c : stays_local o = true -> ordinary (Managed (Local o)) = true ->
  messages (ContextManager.run_op sk o c) = messages c
  /\ skills_version (ContextManager.run_op sk o c) = skills_version c.
Proof.
  intros E Ho. destruct o; try discriminate; cbn [ContextManager.run_op]; try done.
  - unfold set_active_model_audio_delivery.
    destruct (audio_delivery c), a; try done; cbn; destruct (baseline c); try done;
      cbn; try (by destruct (carries_audio _ _)).
  - unfold set_progress_observation. by destruct rendered, (progress_observation c).
  - split; [apply ready_rows | apply ready_versions].
Qed.

Lemma skills_ok_step sk s o : ordinary (Managed o) = true -> skills_ok (manager s) -> skills_ok (manager (step sk s o)).
Proof.
  intros Ho H. destruct o as [[|] now m|[|] now key m|now m|taken n|now model tools a forced|o|k thr mx notice audio w a];
    cbn [step]; cbv zeta.
  - cbn [append_session_message manager ContextManager.append fst]. apply ok_push; [by apply negb_true_iff | exact H].
  - exact H.
  - destruct (append_session_message_idempotent _ _ _ _) as [l1 [[n|n]|e]]; cbn; [|exact H..].
    apply ok_push; [by apply negb_true_iff | exact H].
  - exact H.
  - exact H.
  - unfold record_call_actual_durably, record_call_actual. destruct (n =? 0)%N; [exact H|].
    destruct (current_model (manager s)); [|by apply (skills_ok_same (manager s))].
    destruct (_ && taken); [|by apply (skills_ok_same (manager s))].
    unfold record_token_anchor. destruct (latest_session_ordinal _); by apply (skills_ok_same (manager s)).
  - by apply skills_ok_compact.
  - destruct (stays_local o) eqn:E; [|exact H].
    destruct (local_rows sk o (manager s) E Ho) as [Hm Hv]. by apply (skills_ok_same (manager s)).
  - set (c := set_active_model_audio_delivery _ _).
    assert (skills_version c = None) as Hv by (by destruct audio). clearbody c.
    pose proof (skills_ok_restore sk a (store s) c Hv) as Hr. by destruct (restore_from_store _ _ _ _).
Qed.

Lemma skills_ok_once key m k : is_skill_row m = false -> skills_ok (manager (session k)) ->
  skills_ok (manager (session (append_idempotent key m k).1)).
Proof.
  intros Hm H. unfold append_idempotent. destruct (append_answer (world k)) as [w [now|e]]; [|exact H].
  destruct (append_session_message_idempotent _ _ _ _) as [l1 [[n|n]|e]]; cbn; [by apply ok_push | exact H..].
Qed.
Lemma skills_ok_run k o : ordinary o = true -> skills_ok (manager (session k)) ->
  skills_ok (manager (session (run_op k o))).
Proof using DL.
  intros Ho H. destruct o as [f| | | | |m|key m|o]; cbn [run_op].
  - exact H.
  - exact (seed_ok k H).
  - apply (keeps_reconcile_prompt (fun s => skills_ok (manager s))); [exact keeps_skills_append | | exact H].
    intros v s. by apply skills_ok_same.
  - exact (proj1 (reconcile_skills_spec k H)).
  - apply (keeps_slash (fun s => skills_ok (manager s))); [exact keeps_skills_append | | exact H].
    intros n s. by apply skills_ok_same.
  - apply (keeps_skills_append m); [by apply negb_true_iff | exact H].
  - apply skills_ok_once; [by apply negb_true_iff | exact H].
  - by apply skills_ok_step.
Qed.
Lemma skills_ok_life w os : Forall (fun o => ordinary o = true) os -> skills_ok (manager (session (life w os))).
Proof using DL.
  unfold life. set (k0 := mk_keep _ _ _). intros Hos.
  assert (skills_ok (manager (session k0))) as H by (by split). revert H. generalize k0.
  induction Hos as [|o os Ho _ IH]; intros k H; [exact H|]. apply IH. by apply skills_ok_run.
Qed.

(** The model is never left with a stale skill list.  In any life of a
    session — seeding, compactions, restarts, appends taken or refused, slash
    commands, other writers, the registry moving under it — a turn that
    reconciled its skills and whose transcript is led by the system prompt has
    rows that read, the seeded listing patched by the last update, as exactly
    what the registry advertises now; and it took at most one appended row. *)
Theorem listing_known (w : W) (os : list op) (Hos : Forall (fun o => ordinary o = true) os) :
  let k := life w os in
  let (k', r) := reconcile_skills k in
  (messages (manager (session k')) = messages (manager (session k))
   \/ exists u, messages (manager (session k')) = messages (manager (session k)) ++ [skills_update [Text u]])
  /\ (r = Ok tt -> leads_with_system_text (manager (session k)) = true ->
      shown_skills (messages (manager (session k'))) = Some (PromptUpdate.terminate (listing k))).
Proof using DL.
  cbv zeta. pose proof (reconcile_skills_spec _ (skills_ok_life w os Hos)) as (_ & H1 & H2). unfold wp in *.
  destruct (reconcile_skills (life w os)) as [k' r]. by split.
Qed.
End Ops.

(** ** Witnesses *)

Module Sample.
(** A diff that carries the whole text. *)
#[local] Instance differ : PromptUpdate.Differ := {
  lines_diff a b := if String.eqb a b then "" else "+" +:+ b;
  patch a d := match d with String _ b => Some b | EmptyString => Some a end;
}.
#[local] Instance differ_laws : PromptUpdate.DifferLaws differ.
Proof.
  split; [intros a; cbn; by rewrite String.eqb_refl|]. intros a b Hne. cbn.
  by destruct (String.eqb_spec a b).
Qed.
(** A world of one registry, which takes every row. *)
#[local] Instance world : World Skill.SkillRegistry := {
  append_answer r := (r, Ok 1000%Z);
  assemble r := (r, Some [PromptUpdate.Hint "be brief"]);
  profile_prompt _ _ := None;
  stat _ r := (r, None);
  read_to_string _ r := (r, None);
  registry r := r;
  spill _ r := (r, None);
}.
Definition bound : Binding := mk_binding "s" "web" None None [].
Definition deploy : Skill.SkillDefinition :=
  Skill.mk_skill "deploy" "1" "Ships it" (Some "deploy") true [] None "Ship." Skill.Trusted [].
Definition audit : Skill.SkillDefinition :=
  Skill.mk_skill "audit" "1" "Audits" (Some "audit") false [] None "Audit." Skill.Trusted [].
Definition seeded : list (op (W := Skill.SkillRegistry)) :=
  [Outside (Skill.register audit); Seed; Appended (user [Text "hello"]); Outside (Skill.register deploy)].
Definition audited : list (op (W := Skill.SkillRegistry)) :=
  [Outside (Skill.register audit); Seed; Appended (user [Text "/audit now"]); Slash].
End Sample.
#[local] Existing Instance ContextManager.Sample.tok.
#[local] Existing Instance SessionLog.Sample.chrono.
#[local] Existing Instance Sample.differ.
#[local] Existing Instance Sample.differ_laws.
#[local] Existing Instance Sample.world.

Lemma listing_known_witness :
  let k := life (fun s => s) (fun s => s) Sample.bound Skill.new Sample.seeded in
  let r := reconcile_skills (fun s => s) Sample.bound k in
  r.2 = Ok tt /\ length (messages (manager (session r.1))) = 3
  /\ shown_skills (messages (manager (session r.1))) = Some (PromptUpdate.terminate (listing (fun s => s) Sample.bound k)).
Proof.
  cbv zeta.
  assert (Forall (fun o => ordinary o = true) Sample.seeded) as Hos by (repeat constructor).
  pose proof (listing_known (fun s => s) (fun s => s) Sample.bound Skill.new Sample.seeded Hos) as H. cbv zeta in H.
  split; [vm_compute; reflexivity|]. split; [vm_compute; reflexivity|].
  destruct (reconcile_skills _ _ _) as [k' r] eqn:E. destruct H as [_ H]. apply H.
  - change r with (k', r).2. rewrite <- E. vm_compute; reflexivity.
  - vm_compute; reflexivity.
Defined.

(** A skill that only a slash command may call is recorded when it is called,
    but the transcript, read again, no longer yields it: [called_skills_in]
    looks among the skills the model may call. *)
Example slash_only_forgotten :
  let k := life (fun s => s) (fun s => s) Sample.bound Skill.new Sample.audited in
  let c := manager (session k) in
  called_skills c = ["audit"%string]
  /\ called_skills (restore_messages (registry_answers (fun s => s) (fun s => s) Sample.bound k) (messages c) c) = [].
Proof. split; vm_compute; reflexivity. Qed.

End Upkeep.
