(* ===== verification/Streaming.v ===== *)
(** * The streamed reply
      ([chat_streaming] and its helpers in [crates/agent/src/runtime/agent_loop.rs],
       [crates/agent/src/runtime/error_recovery.rs], [crates/llm/src/error.rs],
       [crates/context/src/prompts/cancelled_turn.rs])

    One provider call: the events of the stream are folded into a response while
    its text and its reasoning go out in fragments.  What each fragment may show
    is the security gateway's answer. *)

From S2P Require Import Prelude Message Wire Effect.
Import Message Wire Effect.

Module Streaming.

(** ** The provider's data ([crates/llm/src/lib.rs]) *)

Record ToolCallInfo := mk_call {
  call_id : string;
  call_name : string;
  call_arguments : json;
  call_signature : option string;
}.
Record TokenUsage := mk_usage {
  input_tokens : N;
  output_tokens : N;
  cached_input_tokens : N;
  cache_creation_input_tokens : N;
}.
Definition no_usage : TokenUsage := mk_usage 0 0 0 0.
Record LlmResponse := mk_response {
  resp_content : string;
  content_blocks : list ContentBlock;
  tool_calls : list ToolCallInfo;
  usage : TokenUsage;
  thinking : option string;
}.
Definition empty_llm_response : LlmResponse := mk_response "" [] [] no_usage None.

Inductive StreamEvent :=
| EvText (chunk : string)
| EvToolCall (info : ToolCallInfo)
| EvReasoning (r : string)
| EvThinkingBlock (block : ContentBlock)
| EvUsage (u : TokenUsage).

Inductive LlmError :=
| Transient (s : string) | RateLimited (retry_after : option N) (message : string)
| QuotaExhausted (resets_in : option N) (message : string) | BadRequest (s : string) | Auth (s : string)
| Decode (s : string) | Config (s : string) | ModelNotFound (s : string) | GuardRejected (s : string)
| LlmInternal (s : string).
Definition is_retriable (e : LlmError) : bool :=
  match e with Transient _ | RateLimited _ _ => true | _ => false end.

(** ** Retrying ([error_recovery.rs]), in milliseconds *)

Record ErrorHandler := mk_handler {
  max_retries : N;
  backoff_base : N;
  backoff_max : N;
}.
Definition default_handler : ErrorHandler := mk_handler 10 1000 30000.
Definition u32_max : N := 2 ^ 32 - 1.
Definition backoff_duration (h : ErrorHandler) (attempt : N) : N :=
  let backoff := (backoff_base h * N.min u32_max (2 ^ attempt))%N in
  if (backoff_max h <? backoff)%N then backoff_max h else backoff.

(** ** Fragments *)

Definition STREAM_BUFFER_HIGH_WATER : nat := 128.

Definition safe_flush_boundary (pending : string) : nat :=
  if Nat.ltb STREAM_BUFFER_HIGH_WATER (String.length pending) then String.length pending
  else
    let rest := if Str.ends_with "[" pending then String.length pending - 1 else String.length pending in
    match Str.rfind "[{" pending with
    | Some idx => if Str.contains "}]" (Str.drop idx pending) then rest else idx
    | None => rest
    end.
(** The chunk to show, with what became of the flag; [None] when there is
    nothing to show. *)
Definition skip_leading_whitespace (chunk : string) (stripped : bool) : option string * bool :=
  if stripped then (if String.eqb chunk "" then None else Some chunk, true)
  else
    let after := Str.trim_start chunk in
    if String.eqb after "" then (None, false) else (Some after, true).

(** What leaves the agent while a reply streams. *)
Inductive Delta :=
| AnswerDelta (s : string)
| ReasoningDelta (s : string).

(** The security gateway's answers ([crates/agent/src/security.rs]): a fragment
    scrubbed ([None] when the scrub failed), a whole response, the injection
    rules a text trips. *)
Class Gateway (W : Type) := {
  sanitize_stream_fragment : string -> W -> W * option string;
  sanitize_llm_response : LlmResponse -> W -> W * LlmResponse;
  detect_injection : string -> list string;
}.

Section Stream.
Context {W : Type} {G : Gateway W}.

(** The locals of [chat_streaming], with the gateway's world and what was sent. *)
Record Stream := mk_stream {
  outside : W;
  sent : list Delta;
  content_ : string;
  calls_ : list ToolCallInfo;
  usage_ : TokenUsage;
  thinking_ : string;
  thinking_blocks : list ContentBlock;
  pending : string;
  leading_stripped : bool;
  pending_reasoning : string;
  reasoning_seen : bool;
  reasoning_part_closed : bool;
}.
Definition opened (w : W) : Stream := mk_stream w [] "" [] no_usage "" [] "" false "" false false.

Definition show (w : W) (d : list Delta) (c : string) (s : Stream) : Stream :=
  mk_stream w (sent s ++ d) c (calls_ s) (usage_ s) (thinking_ s) (thinking_blocks s) (pending s)
    (leading_stripped s) (pending_reasoning s) (reasoning_seen s) (reasoning_part_closed s).
Definition set_pending (p : string) (stripped : bool) (s : Stream) : Stream :=
  mk_stream (outside s) (sent s) (content_ s) (calls_ s) (usage_ s) (thinking_ s) (thinking_blocks s) p
    stripped (pending_reasoning s) (reasoning_seen s) (reasoning_part_closed s).
Definition set_reasoning (t : string) (bs : list ContentBlock) (p : string) (seen closed : bool) (s : Stream)
    : Stream :=
  mk_stream (outside s) (sent s) (content_ s) (calls_ s) (usage_ s) t bs (pending s) (leading_stripped s)
    p seen closed.
Definition set_ends (calls : list ToolCallInfo) (u : TokenUsage) (s : Stream) : Stream :=
  mk_stream (outside s) (sent s) (content_ s) calls u (thinking_ s) (thinking_blocks s) (pending s)
    (leading_stripped s) (pending_reasoning s) (reasoning_seen s) (reasoning_part_closed s).

Definition stream_emit (fragment : string) (s : Stream) : Stream :=
  match sanitize_stream_fragment fragment (outside s) with
  | (w, Some clean) => show w [AnswerDelta clean] (content_ s +:+ clean)%string s
  | (w, None) => show w [] (content_ s) s
  end.
Definition stream_emit_reasoning (fragment : string) (s : Stream) : Stream :=
  match sanitize_stream_fragment fragment (outside s) with
  | (w, Some clean) => show w [ReasoningDelta clean] (content_ s) s
  | (w, None) => show w [] (content_ s) s
  end.

(** Text drained from the buffer on its way out. *)
Definition emit_text (flushable rest : string) (s : Stream) : Stream :=
  match skip_leading_whitespace flushable (leading_stripped s) with
  | (Some shown, stripped) => stream_emit shown (set_pending rest stripped s)
  | (None, stripped) => set_pending rest stripped s
  end.
Definition flush_reasoning (s : Stream) : Stream :=
  let flush_to := safe_flush_boundary (pending_reasoning s) in
  if Nat.ltb 0 flush_to then
    stream_emit_reasoning (Str.take flush_to (pending_reasoning s))
      (set_reasoning (thinking_ s) (thinking_blocks s) (Str.drop flush_to (pending_reasoning s))
         (reasoning_seen s) (reasoning_part_closed s) s)
  else s.

Definition on_event (e : StreamEvent) (s : Stream) : Stream :=
  match e with
  | EvText chunk =>
      let p := (pending s +:+ chunk)%string in
      let flush_to := safe_flush_boundary p in
      if Nat.ltb 0 flush_to then emit_text (Str.take flush_to p) (Str.drop flush_to p) s
      else set_pending p (leading_stripped s) s
  | EvToolCall info => set_ends (calls_ s ++ [info]) (usage_ s) s
  | EvReasoning r =>
      let break := if reasoning_part_closed s && reasoning_seen s then blank_line else ""%string in
      flush_reasoning
        (set_reasoning (thinking_ s +:+ r)%string (thinking_blocks s)
           (pending_reasoning s +:+ break +:+ r)%string
           (reasoning_seen s || negb (String.eqb r "")) false s)
  | EvThinkingBlock b =>
      set_reasoning (thinking_ s) (thinking_blocks s ++ [b]) (pending_reasoning s) (reasoning_seen s) true s
  | EvUsage u => set_ends (calls_ s) u s
  end.

(** After the loop: the buffers go out, the response is put together. *)
Definition finish (s : Stream) : Stream :=
  let s := if String.eqb (pending s) "" then s else emit_text (pending s) "" s in
  if String.eqb (pending_reasoning s) "" then s
  else stream_emit_reasoning (pending_reasoning s)
         (set_reasoning (thinking_ s) (thinking_blocks s) "" (reasoning_seen s) (reasoning_part_closed s) s).
Definition response_of (s : Stream) : LlmResponse :=
  let blocks :=
    match thinking_blocks s with
    | [] => if String.eqb (thinking_ s) "" then []
            else [Thinking None [ThinkingText (thinking_ s) None]]
    | bs => bs
    end in
  let blocks := if String.eqb (content_ s) "" then blocks else blocks ++ [Text (content_ s)] in
  mk_response (content_ s) blocks (calls_ s) (usage_ s)
    (if String.eqb (thinking_ s) "" then None else Some (thinking_ s)).

(** How a stream the agent opened came to its end: the provider closed it (or
    the turn's token stopped it), or it failed. *)
Record Received := mk_received {
  events : list StreamEvent;
  failed : option LlmError;
}.
Definition chat_streaming (r : Received) (w : W) : Stream * (TokenUsage * result LlmResponse LlmError) :=
  let s := foldl (fun s e => on_event e s) (opened w) (events r) in
  match failed r with
  | Some e => (s, (usage_ s, Err e))
  | None => let s := finish s in (s, (usage_ s, Ok (response_of s)))
  end.
End Stream.
Arguments Stream W : clear implicits.

(** ** The response at rest *)

Definition on_text (f : string -> string) (b : ContentBlock) : ContentBlock :=
  match b with Text t => Text (f t) | b => b end.
Definition trim_response_text_edges (r : LlmResponse) : LlmResponse :=
  mk_response (Str.trim (resp_content r)) (map (on_text Str.trim) (content_blocks r)) (tool_calls r)
    (usage r) (thinking r).

(** *** A turn cut short *)

Definition SUFFIX : string :=
  (blank_line +:+ "[This turn was cancelled before it finished " +:+ Str.bytes [226; 128; 148]%N
   +:+ " the reply and any reasoning above are incomplete.]")%string.
Definition marker_block_text : string := Str.trim_start SUFFIX.
Definition strip_marker (text : string) : string :=
  match Str.strip_suffix SUFFIX text with
  | Some t => Str.trim_end t
  | None =>
      match Str.strip_suffix (Str.trim_start SUFFIX) text with
      | Some t => Str.trim_end t
      | None => text
      end
  end.
Definition salvageable (b : ContentBlock) : bool :=
  match b with
  | Text t => negb (String.eqb (Str.trim t) "")
  | Thinking _ _ => true
  | _ => false
  end.
Definition salvage_partial_blocks (r : LlmResponse) : list ContentBlock :=
  let blocks := List.filter salvageable (content_blocks r) in
  match last blocks with
  | None => []
  | Some (Text t) => removelast blocks ++ [Text (t +:+ SUFFIX)%string]
  | Some _ => blocks ++ [Text marker_block_text]
  end.

(** *** Where a buffer may be cut *)

(** A placeholder of the gateway: no delimiter of another inside. *)
Definition placeholder (ph : string) : Prop :=
  exists body, ph = ("[{" +:+ body +:+ "}]")%string /\ Str.contains "[{" body = false /\ Str.contains "}]" body = false.
(** Of what was [held], all but [kept] was let go; and while no more than the
    high-water mark was held, no placeholder, whatever comes after, is in two by
    the cut. *)
Definition uncut (held kept : string) : Prop :=
  exists gone, held = (gone +:+ kept)%string /\
    (String.length held <= STREAM_BUFFER_HIGH_WATER -> forall more x ph y, placeholder ph ->
       (held +:+ more = x +:+ ph +:+ y)%string ->
       ~ (String.length x < String.length gone < String.length x + String.length ph)).

Lemma str_split_at a b c d : (a +:+ b = c +:+ d)%string -> String.length c <= String.length a ->
  exists u, a = (c +:+ u)%string /\ d = (u +:+ b)%string.
Proof.
  revert a. induction c as [|e c IH]; intros a; [by exists a|]. destruct a as [|f a]; cbn [String.length]; [lia|].
  rewrite !Str.app_cons_str. intros [= -> E] H. destruct (IH a E ltac:(lia)) as (u & -> & ->). by exists u.
Qed.
Lemma opens_once body u v : Str.contains "[{" body = false -> u <> EmptyString ->
  ("[{" +:+ body +:+ "}]" <> u +:+ "[{" +:+ v)%string.
Proof.
  intros Hb Hu E. destruct u as [|c1 [|c2 u]]; [done | discriminate E|]. injection E as _ _ E.
  assert (Str.contains "[{" (body +:+ "}]") = true) as Hc by (rewrite E; apply Str.contains_spec; eauto).
  clear E. revert Hb Hc. induction body as [|c body IH]; [done|]. rewrite Str.app_cons_str. cbn [Str.contains].
  intros [H1 H2]%orb_false_iff [H|H]%orb_true_iff; [|by apply IH]. revert H1 H. cbn [Str.starts_with].
  destruct (Ascii.eqb "[" c); [cbn [andb] | done]. destruct body as [|d body]; [done|].
  rewrite Str.app_cons_str. by intros ->.
Qed.
Lemma closes_once body a w : Str.contains "}]" body = false ->
  ("[{" +:+ body +:+ "}]" = a +:+ "}]" +:+ w)%string -> w = EmptyString.
Proof.
  intros Hb E. destruct a as [|c1 [|c2 a]]; [discriminate E | discriminate E|]. injection E as _ _ E.
  revert a E Hb. induction body as [|c body IH]; intros a E Hb.
  - destruct a as [|d1 [|d2 a]]; [by injection E | discriminate E|]. by destruct a.
  - destruct a as [|d a].
    + exfalso. injection E as -> E. cbn [Str.contains] in Hb. apply orb_false_iff in Hb as [Hb _]. destruct body as [|d body]; [discriminate E|].
      injection E as -> _. done.
    + injection E as <- E. cbn [Str.contains] in Hb. apply orb_false_iff in Hb as [_ Hb]. by apply (IH a).
Qed.
Lemma rfind_never p s a b : Str.rfind p s = None -> s <> (a +:+ p +:+ b)%string.
Proof.
  revert a. induction s as [|c s IH]; intros a; cbn [Str.rfind].
  - destruct (String.eqb_spec p "") as [->|Hp]; [done|]. intros _. destruct a; [by destruct p | done].
  - destruct (Str.rfind p s); [done|]. destruct (Str.starts_with p (String c s)) eqn:Es; [done|]. intros _ E.
    destruct a as [|d a]; [|injection E as <- E; by apply (IH a)].
    assert (Str.starts_with p (String c s) = true) as Ht by (apply Str.starts_with_spec; by exists b). congruence.
Qed.
Lemma rfind_last p s n : Str.rfind p s = Some n -> p <> EmptyString ->
  exists a b, s = (a +:+ p +:+ b)%string /\ String.length a = n /\
    forall a' b', s = (a' +:+ p +:+ b')%string -> String.length a' <= n.
Proof.
  intros H Hp. revert n H. induction s as [|c s IH]; intros n; cbn [Str.rfind]; [by destruct p|].
  destruct (Str.rfind p s) as [m|] eqn:E.
  - intros [= <-]. destruct (IH m eq_refl) as (a & b & -> & <- & Hl). exists (String c a), b. split_and!; [done | done|].
    intros [|d a'] b' Ea; cbn [String.length]; [lia|]. injection Ea as <- Ea. apply le_n_S. by apply (Hl a' b').
  - destruct (Str.starts_with p (String c s)) eqn:Es; [|done]. intros [= <-]. apply Str.starts_with_spec in Es as (b & Es).
    exists EmptyString, b. split_and!; [done | done|]. intros [|d a'] b' Ea; [done|]. injection Ea as <- Ea.
    exfalso. revert Ea. by apply rfind_never.
Qed.
Lemma snoc_char a b c d : (a +:+ String c "" = b +:+ String d "")%string -> c = d.
Proof.
  revert b. induction a as [|e a IH]; intros [|f b] E; cbn in E.
  - by injection E.
  - injection E as _ E. by destruct b.
  - injection E as _ E. by destruct a.
  - injection E as _ E. by apply (IH b).
Qed.
Lemma placeholder_end body u : ("[{" +:+ body +:+ "}]" <> u +:+ "[")%string.
Proof.
  intros E. assert ("]" = "[")%char as H; [|discriminate H]. apply (snoc_char ("[{" +:+ body +:+ "}") u).
  rewrite <- E. by rewrite <- !Str.app_assoc_str.
Qed.
(** A cut at the end of what was held, or before a bracket that ends it, when
    every placeholder opened in it was closed. *)
Lemma closed_uncut held x u v kept body more y :
  held = (x +:+ u +:+ kept)%string -> ("[{" +:+ body +:+ "}]" = u +:+ v)%string -> Str.contains "}]" body = false ->
  u <> EmptyString -> v <> EmptyString -> (kept +:+ more = v +:+ y)%string ->
  kept = "["%string \/ (kept = EmptyString /\ Str.ends_with "[" held = false) ->
  (forall a b, held = (a +:+ "[{" +:+ b)%string -> exists a' b', held = (a' +:+ "[{" +:+ b')%string /\
     String.length a <= String.length a' /\ Str.contains "}]" ("[{" +:+ b') = true) -> False.
Proof.
  intros -> Eph Hc Hu Hv Ev Hk Hlast. destruct u as [|c1 [|c2 u]]; [done| |].
  - injection Eph as <- Eph. destruct Hk as [->|[-> He]].
    + destruct v as [|d v]; [done|]. injection Eph as <- _. injection Ev as Ev. discriminate Ev.
    + rewrite Str.app_nil_r_str in He. unfold Str.ends_with in He. by rewrite Str.strip_suffix_app in He.
  - pose proof Eph as Eph'. injection Eph' as <- <- _.
    destruct (Hlast x (u +:+ kept)%string) as (a & b & E & Hl & Hb); [done|].
    apply Str.contains_spec in Hb as (p & q & Hb). symmetry in E. rewrite Hb in E.
    destruct (str_split_at a (p +:+ "}]" +:+ q) x (String "[" (String "{" u) +:+ kept)) as (t & -> & Et); [done | done|].
    assert (exists v', v = (kept +:+ v')%string) as [v' ->].
    { destruct Hk as [->|[-> _]]; [|by exists v]. destruct v as [|d v]; [done|]. injection Ev as <- _. by exists v. }
    assert (q +:+ v' = EmptyString)%string as Hq.
    { apply (closes_once body (t +:+ p)); [done|]. rewrite Eph, (Str.app_assoc_str _ kept), Et. by rewrite <- !Str.app_assoc_str. }
    destruct q as [|? ?]; [|done]. cbn in Hq. subst v'. rewrite Str.app_nil_r_str in *.
    destruct Hk as [->|[-> _]]; [by apply placeholder_end in Eph | done].
Qed.
(** The last placeholder opened in [held] is closed. *)
Definition all_closed (held : string) : Prop :=
  forall a b, held = (a +:+ "[{" +:+ b)%string -> exists a' b', held = (a' +:+ "[{" +:+ b')%string /\
    String.length a <= String.length a' /\ Str.contains "}]" ("[{" +:+ b') = true.
Lemma drop_everything s : Str.drop (String.length s) s = EmptyString.
Proof. rewrite <- (Str.app_nil_r_str s) at 2. apply Str.drop_app. Qed.
Lemma boundary_spec held : String.length held <= STREAM_BUFFER_HIGH_WATER ->
  let kept := Str.drop (safe_flush_boundary held) held in
  (all_closed held /\ (kept = "["%string \/ (kept = EmptyString /\ Str.ends_with "[" held = false))) \/
  exists t, kept = ("[{" +:+ t)%string.
Proof.
  intros Hle. cbn zeta. unfold safe_flush_boundary. rewrite (proj2 (Nat.ltb_ge _ _)) by done.
  set (rest := if Str.ends_with "[" held then String.length held - 1 else String.length held).
  assert (Str.drop rest held = "["%string \/ (Str.drop rest held = EmptyString /\ Str.ends_with "[" held = false)) as Hrest.
  { subst rest. unfold Str.ends_with, Str.strip_suffix. cbn [String.length].
    destruct (String.eqb_spec (Str.drop (String.length held - 1) held) "[") as [E|_]; [by left|]. right. by rewrite drop_everything. }
  destruct (Str.rfind "[{" held) as [n|] eqn:Ef.
  - apply rfind_last in Ef as (a & b & -> & <- & Hl); [|done]. rewrite Str.drop_app.
    destruct (Str.contains "}]" ("[{" +:+ b)) eqn:Ec; [left; split; [|exact Hrest] | right; rewrite Str.drop_app; by exists b].
    intros a' b' E. exists a, b. split_and!; [done | by apply (Hl a' b') | done].
  - left. split; [|exact Hrest]. intros a b E. by destruct (rfind_never "[{" held a b).
Qed.
Lemma flush_uncut held : uncut held (Str.drop (safe_flush_boundary held) held).
Proof.
  exists (Str.take (safe_flush_boundary held) held). split; [symmetry; apply Str.take_drop_str|].
  intros Hle more x ph y (body & -> & Ho & Hc) E [H1 H2].
  pose proof (Str.take_drop_str (safe_flush_boundary held) held) as Eh. pose proof (boundary_spec held Hle) as Hb. cbn zeta in Hb.
  set (gone := Str.take _ _) in *. set (kept := Str.drop _ _) in *. clearbody gone kept.
  rewrite <- Eh, <- Str.app_assoc_str in E.
  destruct (str_split_at _ _ _ _ E) as (u & Eg & Eu); [lia|].
  assert (String.length gone = String.length x + String.length u) as Hu by (by rewrite Eg, Str.length_app_str).
  destruct (str_split_at _ _ _ _ Eu) as (v & Ev & Ey); [lia|].
  assert (u <> EmptyString) as Hu0 by (intros ->; cbn in Hu; lia).
  assert (v <> EmptyString) as Hv0 by (intros ->; rewrite Ev, Str.app_nil_r_str in H2; lia).
  assert (held = (x +:+ u +:+ kept)%string) as Ehx by (by rewrite <- Eh, Eg, <- Str.app_assoc_str).
  destruct Hb as [[Hall Hk]|[t ->]]; [by eapply closed_uncut|].
  destruct v as [|c1 [|c2 v]]; [done | injection Ey as <- _ | injection Ey as <- <- _].
  - by apply placeholder_end in Ev.
  - by apply (opens_once body u v) in Ev.
Qed.

(** ** What the reader of the stream sees *)

Definition answer_of (d : Delta) : option string := match d with AnswerDelta t => Some t | _ => None end.
Definition answers (ds : list Delta) : list string := omap answer_of ds.
Definition text_chunk (e : StreamEvent) : option string := match e with EvText c => Some c | _ => None end.
Definition reasoning_chunk (e : StreamEvent) : option string :=
  match e with EvReasoning c => Some c | _ => None end.
Definition call_of (e : StreamEvent) : option ToolCallInfo :=
  match e with EvToolCall c => Some c | _ => None end.
Definition block_of (e : StreamEvent) : option ContentBlock :=
  match e with EvThinkingBlock b => Some b | _ => None end.
Definition usage_of (e : StreamEvent) : option TokenUsage := match e with EvUsage u => Some u | _ => None end.

Section Facts.
Context {W : Type} {G : Gateway W}.

(** The text and the reasoning shown; everything else is told by the events. *)
Definition silent (s s' : Stream W) : Prop :=
  calls_ s' = calls_ s /\ thinking_blocks s' = thinking_blocks s /\ thinking_ s' = thinking_ s
  /\ usage_ s' = usage_ s.
(** The answer shown is the answer kept. *)
Definition mirrored (s : Stream W) : Prop := content_ s = Str.whole (answers (sent s)).

Lemma emit_facts f s : silent s (stream_emit f s) /\ (mirrored s -> mirrored (stream_emit f s))
  /\ pending (stream_emit f s) = pending s /\ pending_reasoning (stream_emit f s) = pending_reasoning s.
Proof.
  unfold stream_emit, mirrored, answers. destruct (sanitize_stream_fragment f (outside s)) as [w [c|]];
    (split_and!; [done | cbn; intros -> | done | done]); rewrite omap_app; [|by rewrite app_nil_r].
  cbn [omap list_omap answer_of]. by rewrite Str.whole_snoc.
Qed.
Lemma emit_reasoning_facts f s :
  silent s (stream_emit_reasoning f s) /\ answers (sent (stream_emit_reasoning f s)) = answers (sent s)
  /\ content_ (stream_emit_reasoning f s) = content_ s /\ pending (stream_emit_reasoning f s) = pending s
  /\ leading_stripped (stream_emit_reasoning f s) = leading_stripped s.
Proof.
  unfold stream_emit_reasoning, answers. destruct (sanitize_stream_fragment f (outside s)) as [w [c|]];
    (split_and!; [done | cbn | done..]); by rewrite omap_app, app_nil_r.
Qed.
Lemma emit_text_facts f rest s : silent s (emit_text f rest s) /\ (mirrored s -> mirrored (emit_text f rest s)).
Proof.
  unfold emit_text. destruct (skip_leading_whitespace f (leading_stripped s)) as [[shown|] stripped]; [|done].
  pose proof (emit_facts shown (set_pending rest stripped s)) as (H1 & H2 & _). by split.
Qed.
Lemma emit_text_pending f rest s : pending (emit_text f rest s) = rest.
Proof.
  unfold emit_text. destruct (skip_leading_whitespace f (leading_stripped s)) as [[shown|] stripped]; [|done].
  by destruct (emit_facts shown (set_pending rest stripped s)) as (_ & _ & -> & _).
Qed.
Lemma emit_reasoning_pending f s : pending_reasoning (stream_emit_reasoning f s) = pending_reasoning s.
Proof. unfold stream_emit_reasoning. by destruct (sanitize_stream_fragment f (outside s)) as [w [c|]]. Qed.
Lemma drop_none s : Str.drop 0 s = s.
Proof. by destruct s. Qed.
Lemma flush_facts s : silent s (flush_reasoning s) /\ answers (sent (flush_reasoning s)) = answers (sent s)
  /\ content_ (flush_reasoning s) = content_ s /\ pending (flush_reasoning s) = pending s
  /\ leading_stripped (flush_reasoning s) = leading_stripped s.
Proof. unfold flush_reasoning. cbv zeta. destruct (Nat.ltb _ _); [exact (emit_reasoning_facts _ (set_reasoning _ _ _ _ _ s)) | done]. Qed.
Lemma finish_facts s : silent s (finish s) /\ (mirrored s -> mirrored (finish s)).
Proof.
  unfold finish. cbv zeta. set (s1 := if String.eqb (pending s) "" then _ else _).
  assert (silent s s1 /\ (mirrored s -> mirrored s1)) as [H1 H2]
    by (subst s1; destruct (String.eqb _ _); [done | apply emit_text_facts]).
  clearbody s1. destruct (String.eqb _ _); [done|].
  match goal with |- context [stream_emit_reasoning ?f ?s2] =>
    pose proof (emit_reasoning_facts f s2) as (E1 & E2 & E3 & _) end.
  unfold silent, mirrored in *. cbn in *. destruct E1 as (-> & -> & -> & ->). rewrite E2, E3. by split.
Qed.

(** What the events say. *)
Definition told (evs : list StreamEvent) (s : Stream W) : Prop :=
  calls_ s = omap call_of evs /\ thinking_blocks s = omap block_of evs
  /\ thinking_ s = Str.whole (omap reasoning_chunk evs)
  /\ usage_ s = default no_usage (last (omap usage_of evs)).

Lemma told_silent evs s s' : silent s s' -> told evs s -> told evs s'.
Proof. unfold silent, told. by intros (-> & -> & -> & ->). Qed.
Lemma event_facts evs e s : told evs s -> mirrored s ->
  told (evs ++ [e]) (on_event e s) /\ mirrored (on_event e s).
Proof.
  unfold told. rewrite !omap_app. intros (H1 & H2 & H3 & H4) Hm.
  destruct e as [c|info|r|b|u]; cbn [on_event omap list_omap call_of block_of reasoning_chunk usage_of];
    rewrite ?app_nil_r, ?Str.whole_snoc, ?last_snoc.
  - cbv zeta. destruct (Nat.ltb _ _); [|done].
    destruct (emit_text_facts (Str.take (safe_flush_boundary (pending s +:+ c)) (pending s +:+ c))
      (Str.drop (safe_flush_boundary (pending s +:+ c)) (pending s +:+ c)) s) as [Hs Hk].
    split; [|by apply Hk]. unfold silent in Hs. destruct Hs as (-> & -> & -> & ->). done.
  - cbn. by rewrite H1.
  - cbv zeta. match goal with |- context [flush_reasoning ?s2] =>
      pose proof (flush_facts s2) as (Hs & Ha & Hc & _) end.
    unfold silent, mirrored in *. destruct Hs as (-> & -> & -> & ->). rewrite Ha, Hc. cbn. by rewrite H3.
  - cbn. by rewrite H2.
  - done.
Qed.
Lemma stream_facts w evs :
  let s := foldl (fun s e => on_event e s) (opened w) evs in told evs s /\ mirrored s.
Proof.
  cbv zeta. induction evs as [|e evs IH] using rev_ind; [done|].
  rewrite foldl_app. destruct IH as [H1 H2]. by apply event_facts.
Qed.

(** *** A gateway that finds nothing *)

Definition clean : Prop := forall f w, (sanitize_stream_fragment f w).2 = Some f.
Definition untrimmed (l : list string) : Prop := forall d, head l = Some d -> Str.trim_start d = d.

Lemma clean_emit f s : clean -> answers (sent (stream_emit f s)) = answers (sent s) ++ [f]
  /\ content_ (stream_emit f s) = (content_ s +:+ f)%string.
Proof.
  intros H. unfold stream_emit, answers. specialize (H f (outside s)).
  destruct (sanitize_stream_fragment f (outside s)) as [w [c|]]; [|done]. cbn in H. injection H as ->.
  cbn. by rewrite omap_app.
Qed.

(** All the text is in the reply or still held back, but for the white space it
    began with. *)
Definition kept (text held : string) (s : Stream W) : Prop :=
  (exists lead, text = (lead +:+ content_ s +:+ held)%string /\ Str.blank lead)
  /\ untrimmed (answers (sent s))
  /\ (if leading_stripped s then answers (sent s) <> []
      else answers (sent s) = [] /\ content_ s = ""%string).

Lemma kept_emit_text text f rest s : clean -> kept text (f +:+ rest)%string s -> kept text rest (emit_text f rest s).
Proof.
  intros Hc ((lead & Ht & Hb) & Hu & Hs). unfold emit_text, skip_leading_whitespace.
  destruct (leading_stripped s) eqn:El; rewrite ?El in Hs.
  - destruct (String.eqb_spec f "") as [->|Hf]; [by split_and!; [exists lead|..]|].
    destruct (clean_emit f (set_pending rest true s) Hc) as [Ea Ec].
    unfold kept. rewrite Ea, Ec. unfold stream_emit. cbn [set_pending sent content_].
    destruct (sanitize_stream_fragment _ _) as [w [c|]]; cbn [show leading_stripped set_pending];
      (split_and!; [exists lead; by rewrite Ht, !Str.app_assoc_str | by destruct (answers (sent s)) |
        by destruct (answers (sent s))]).
  - destruct Hs as [Ea Ec]. destruct (Str.trim_start_spec f) as (pre & Ef & Hp & _).
    destruct (String.eqb_spec (Str.trim_start f) "") as [E|Hf].
    + split_and!; [|exact Hu | by split]. exists (lead +:+ f)%string. cbn. rewrite E, Str.app_nil_r_str in Ef.
      rewrite Ef. split; [|by apply Str.blank_app]. by rewrite Ht, Ec, Ef, !Str.app_assoc_str, !Str.app_nil_r_str.
    + destruct (clean_emit (Str.trim_start f) (set_pending rest true s) Hc) as [Ea' Ec'].
      unfold kept. rewrite Ea', Ec'. cbn [set_pending sent content_]. rewrite Ea, Ec.
      split_and!; [|cbn; intros d [= <-]; apply Str.trim_start_idem |].
      * exists (lead +:+ pre)%string. split; [|by apply Str.blank_app].
        rewrite Ht, Ec. rewrite Ef at 1. by rewrite !Str.app_assoc_str, !Str.app_nil_r_str.
      * unfold stream_emit. by destruct (sanitize_stream_fragment _ _) as [w [c|]].
Qed.

Lemma kept_same text held s s' : answers (sent s') = answers (sent s) -> content_ s' = content_ s ->
  leading_stripped s' = leading_stripped s -> kept text held s -> kept text held s'.
Proof. unfold kept. by intros -> -> ->. Qed.

Lemma kept_event text e s : clean -> kept text (pending s) s ->
  kept (text +:+ default "" (text_chunk e))%string (pending (on_event e s)) (on_event e s).
Proof.
  intros Hc H. destruct e as [c|info|r|b|u]; cbn [on_event text_chunk default]; rewrite ?Str.app_nil_r_str; try exact H.
  - assert (kept (text +:+ c)%string (pending s +:+ c)%string s) as Hp.
    { destruct H as ((lead & -> & Hb) & H). split; [|exact H]. exists lead. by rewrite !Str.app_assoc_str. }
    cbv zeta. destruct (Nat.ltb _ _); [|exact Hp].
    set (n := safe_flush_boundary _). rewrite <- (Str.take_drop_str n (pending s +:+ c)) in Hp at 1.
    pose proof (kept_emit_text _ _ _ _ Hc Hp) as Hk.
    replace (pending (emit_text _ _ s)) with (Str.drop n (pending s +:+ c)); [exact Hk|].
    unfold emit_text. destruct (skip_leading_whitespace _ _) as [[shown|] st]; [|done].
    symmetry. apply (emit_facts shown (set_pending _ st s)).
  - cbv zeta. match goal with |- context [flush_reasoning ?s2] =>
      destruct (flush_facts s2) as (_ & Ha & Hcc & Hp & Hl) end.
    rewrite Hp. by eapply kept_same.
Qed.
Lemma kept_finish text s : clean -> kept text (pending s) s -> kept text "" (finish s).
Proof.
  intros Hc H. unfold finish. cbv zeta.
  assert (kept text "" (if String.eqb (pending s) "" then s else emit_text (pending s) "" s)) as H1.
  { destruct (String.eqb_spec (pending s) "") as [E|_]; [by rewrite E in H|].
    apply kept_emit_text; [exact Hc|]. by rewrite Str.app_nil_r_str. }
  generalize dependent (if String.eqb (pending s) "" then s else emit_text (pending s) "" s). intros s1 H1.
  destruct (String.eqb _ _); [exact H1|].
  match goal with |- context [stream_emit_reasoning ?f ?s2] =>
    destruct (emit_reasoning_facts f s2) as (_ & Ha & Hcc & _ & Hl) end.
  by eapply kept_same.
Qed.
Lemma kept_stream w evs : clean ->
  let s := foldl (fun s e => on_event e s) (opened w) evs in
  kept (Str.whole (omap text_chunk evs)) (pending s) s.
Proof.
  intros Hc. cbv zeta. induction evs as [|e evs IH] using rev_ind.
  { split_and!; [by exists ""%string; split; [|apply Str.blank_nil] | by intros d | done]. }
  rewrite foldl_app, omap_app, Str.whole_app. cbn [foldl].
  replace (Str.whole (omap text_chunk [e])) with (default "" (text_chunk e)); [by apply kept_event|].
  cbn. destruct (text_chunk e); cbn; [by rewrite Str.app_nil_r_str | done].
Qed.

(** How each event cuts its buffer. *)
Definition cuts (evs : list StreamEvent) (w : W) : Prop :=
  forall before e after, evs = before ++ e :: after ->
    let s := foldl (fun s e => on_event e s) (opened w) before in
    let s' := on_event e s in
    match e with
    | EvText c => uncut (pending s +:+ c) (pending s')
    | EvReasoning t =>
        uncut (pending_reasoning s +:+ (if reasoning_part_closed s && reasoning_seen s then blank_line else "") +:+ t)
          (pending_reasoning s')
    | _ => pending s' = pending s /\ pending_reasoning s' = pending_reasoning s
    end.
Lemma cuts_hold evs w : cuts evs w.
Proof.
  intros before e after _. cbn zeta. set (s := foldl _ _ _). clearbody s. destruct e as [c|info|t|b|u]; try done.
  - assert (forall p, pending (on_event (EvText c) s) = p -> uncut (pending s +:+ c) p) as H; [|by apply H].
    intros p <-. pose proof (flush_uncut (pending s +:+ c)) as Hc. revert Hc. cbn [on_event].
    destruct (Nat.ltb_spec 0 (safe_flush_boundary (pending s +:+ c))) as [_|H0]; [by rewrite emit_text_pending|].
    replace (safe_flush_boundary (pending s +:+ c)) with 0 by lia. by rewrite drop_none.
  - match goal with |- uncut ?held _ => pose proof (flush_uncut held) as Hc; set (h := held) in * end.
    cbn [on_event]. unfold flush_reasoning. cbn [pending_reasoning set_reasoning]. fold h.
    destruct (Nat.ltb_spec 0 (safe_flush_boundary h)) as [_|H0].
    + match goal with |- context [stream_emit_reasoning ?f ?s2] => rewrite (emit_reasoning_pending f s2) end. exact Hc.
    + revert Hc. replace (safe_flush_boundary h) with 0 by lia. by rewrite drop_none.
Qed.

(** C35: A streamed reply is the reply that is kept.  However the provider cuts
    it into chunks and whatever the gateway scrubs, the fragments sent add up
    to the text of the response; its tool calls, its thinking (byte for byte)
    and the usage billed are the ones received, the usage also when the stream
    breaks; where the gateway finds nothing to scrub, the text is the provider's,
    less the white space it opened with; and no event sends off one half of a
    placeholder while it holds no more than 128 bytes of its buffer (a chunk that
    brings more is sent whole, as the code means it to be). *)
Theorem stream_shows_response (r : Received) (w : W) :
  let '(s, (u, result)) := chat_streaming r w in
  u = default no_usage (last (omap usage_of (events r)))
  /\ cuts (events r) w
  /\ match result with
     | Err e => failed r = Some e
     | Ok resp =>
         resp_content resp = Str.whole (answers (sent s))
         /\ tool_calls resp = omap call_of (events r)
         /\ default ""%string (thinking resp) = Str.whole (omap reasoning_chunk (events r))
         /\ usage resp = u
         /\ (clean -> exists lead, Str.whole (omap text_chunk (events r)) = (lead +:+ resp_content resp)%string
              /\ Str.blank lead /\ untrimmed (answers (sent s)))
     end.
Proof.
  unfold chat_streaming. pose proof (stream_facts w (events r)) as [(H1 & H2 & H3 & H4) Hm].
  pose proof (kept_stream w (events r)) as Hk. cbv zeta in *.
  set (s := foldl _ _ _) in *. clearbody s.
  destruct (failed r) as [e|]; [split_and!; [by rewrite H4 | apply cuts_hold | done]|].
  destruct (finish_facts s) as [(E1 & _ & E3 & E4) Hf]. specialize (Hf Hm).
  assert (clean -> kept (Str.whole (omap text_chunk (events r))) "" (finish s)) as Hkf
    by (intros Hc; by apply kept_finish, Hk).
  generalize dependent (finish s). intros s' E1 E3 E4 Hf Hkf.
  split; [by rewrite E4|]. split; [apply cuts_hold|]. cbn [response_of resp_content tool_calls thinking usage].
  split_and!; [exact Hf | by rewrite E1 | | done |].
  - rewrite <- H3, <- E3. destruct (String.eqb_spec (thinking_ s') "") as [->|]; done.
  - intros Hc. destruct (Hkf Hc) as ((lead & Ht & Hb) & Hu & _).
    exists lead. by rewrite Str.app_nil_r_str in Ht.
Qed.

(** A cancelled reply loses its mark on display, and nothing else. *)
Lemma strip_marker_folded t : strip_marker (t +:+ SUFFIX)%string = Str.trim_end t.
Proof. unfold strip_marker. by rewrite Str.strip_suffix_app. Qed.
End Facts.

End Streaming.
