(* ===== verification/SecretVault.v ===== *)
(** * The secret vault ([crates/security/src/crypto.rs], [secret_vault.rs],
      [user_secret.rs])

    Secrets are kept as AES-256-GCM records, each bound to the name it is stored
    under, in a store that only sees ciphertext.  The cipher is the [aes_gcm]
    crate's and the store an implementation of the [SecretStore] trait; both
    enter as interfaces with the laws they document. *)

From S2P Require Import Prelude Effect.
Import Effect.

Module SecretVault.

Inductive SecurityError :=
| Violation (m : string)
| Encryption (m : string)
| NotFound (m : string)
| Storage (m : string)
| Internal (m : string).
(** [Display] *)
Definition security_text (e : SecurityError) : string :=
  match e with
  | Violation m => "security violation: " +:+ m
  | Encryption m => "encryption error: " +:+ m
  | NotFound m => "secret not found: " +:+ m
  | Storage m => "secret storage error: " +:+ m
  | Internal m => m
  end.

(** ** Interfaces *)

(** AES-256-GCM over byte strings: [seal key nonce msg aad], and its opening;
    the nonce comes from the process's random numbers. *)
Class Cipher (W : Type) := {
  seal : string -> string -> string -> string -> option string;
  unseal : string -> string -> string -> string -> option string;
  fill_nonce : W -> W * string;
}.
Class SecretStore (W : Type) := {
  store : string -> string -> W -> W * result unit string;
  retrieve : string -> W -> W * result (option string) string;
  list_entries : W -> W * result (list string) string;
  delete_entry : string -> W -> W * result unit string;
  rewrite_all : list (string * string) -> W -> W * result unit string;
  (** what is persisted; only the laws speak of it *)
  entries : W -> gmap string string;
}.

Definition AES256_KEY_LEN : nat := 32.
Definition NONCE_LEN : nat := 12.
Definition TAG_LEN : nat := 16.

Class CipherLaws (W : Type) `{Cipher W} `{SecretStore W} := {
  unseal_seal k n m a c : seal k n m a = Some c -> unseal k n c a = Some m;
  seal_length k n m a c : seal k n m a = Some c -> String.length c = String.length m + TAG_LEN;
  nonce_length w : String.length (fill_nonce w).2 = NONCE_LEN;
  nonce_entries w : entries (fill_nonce w).1 = entries w;
}.
(** A write lands or it does not; the many of [rewrite_all] land together. *)
Class SecretStoreLaws (W : Type) `{SecretStore W} := {
  store_entries n v w :
    entries (store n v w).1 = if is_Ok (store n v w).2 then <[n := v]> (entries w) else entries w;
  retrieve_entries n w : entries (retrieve n w).1 = entries w;
  retrieve_found n w o : (retrieve n w).2 = Ok o -> o = entries w !! n;
  list_stays w : entries (list_entries w).1 = entries w;
  list_names_all w l : (list_entries w).2 = Ok l -> NoDup l /\ forall n, n ∈ l <-> n ∈ dom (entries w);
  delete_entries n w :
    entries (delete_entry n w).1 = if is_Ok (delete_entry n w).2 then delete n (entries w) else entries w;
  rewrite_entries l w :
    entries (rewrite_all l w).1 =
    if is_Ok (rewrite_all l w).2 then foldl (fun m e => <[e.1 := e.2]> m) (entries w) l else entries w;
}.

Section Vault.
Context {W : Type} `{HC : Cipher W} `{HS : SecretStore W}.
Definition VM (A : Type) : Type := M W SecurityError A.

(** ** The records ([crypto.rs]) *)

Definition new_key (key : string) : result string SecurityError :=
  if Nat.eqb (String.length key) AES256_KEY_LEN then Ok key
  else Err (Encryption ("encryption key must be exactly 32 bytes, got "
                        +:+ pretty (String.length key))%string).
Definition reject_empty_aad (aad : string) : result unit SecurityError :=
  if String.eqb aad "" then
    Err (Encryption "associated data must not be empty — a record has to be bound to an identity")
  else Ok tt.
Definition encrypt (plaintext key aad : string) : VM string :=
  let* _ := of_result (reject_empty_aad aad) in
  let* nonce := draw fill_nonce in
  match seal key nonce plaintext aad with
  | Some ciphertext => ret (nonce +:+ ciphertext)%string
  | None => throw (Encryption "AES-256-GCM encryption failed")
  end.
(** [nonce || ciphertext || tag], split at the nonce. *)
Definition decrypt (data key aad : string) : result string SecurityError :=
  let? _ := reject_empty_aad aad in
  if Nat.ltb (String.length data) (NONCE_LEN + TAG_LEN) then
    Err (Encryption "too short to be an encrypted record")
  else
    match unseal key (Str.take NONCE_LEN data) (Str.drop NONCE_LEN data) aad with
    | Some m => Ok m
    | None => Err (Encryption "AES-256-GCM decryption failed")
    end.

(** ** The vault ([secret_vault.rs]) *)

Definition on_storage {A} (f : W -> W * result A string) : VM A :=
  let* r := draw f in
  match r with Ok a => ret a | Err e => throw (Storage e) end.

Definition store_secret (key name value : string) : VM unit :=
  let* encrypted := encrypt value key name in
  on_storage (store name encrypted).
Definition get_secret (key name : string) : VM (option string) :=
  let* encrypted := on_storage (retrieve name) in
  match encrypted with
  | Some data => let* plaintext := of_result (decrypt data key name) in ret (Some plaintext)
  | None => ret None
  end.
Definition delete_secret (name : string) : VM unit := on_storage (delete_entry name).
Definition list_names : VM (list string) := on_storage list_entries.

Definition export_entry (name : string) : VM (string * string) :=
  let* encrypted := on_storage (retrieve name) in
  match encrypted with
  | Some data => ret (name, data)
  | None => throw (Storage ("entry " +:+ name +:+ " vanished")%string)
  end.
Definition export_encrypted : VM (list (string * string)) :=
  let* names := list_names in gather export_entry names.

Definition rotate_entry (key fresh name : string) : VM (string * string) :=
  let* encrypted := on_storage (retrieve name) in
  match encrypted with
  | Some data =>
      let* plaintext := of_result (decrypt data key name) in
      let* again := encrypt plaintext fresh name in
      ret (name, again)
  | None => throw (Storage ("entry " +:+ name +:+ " vanished mid-rotation")%string)
  end.
Definition rotate_master_key (key fresh : string) : VM nat :=
  let* names := list_names in
  let* rewritten := gather (rotate_entry key fresh) names in
  let* _ := on_storage (rewrite_all rewritten) in
  ret (length rewritten).

(** ** Secrets the user manages ([user_secret.rs]) *)

Definition USER_SECRET_PREFIX : string := "user_env.".
Definition PREVIEW_KEEP : nat := 4.
Inductive AddOutcome := Created | Replaced.

Definition name_start (c : ascii) : bool := Ascii.eqb c "_" || Str.is_ascii_alphabetic c.
Definition name_char (c : ascii) : bool := Ascii.eqb c "_" || Str.is_ascii_alphanumeric c.
Definition valid_name (name : string) : bool :=
  match name with
  | String c rest => name_start c && Str.forallb name_char rest
  | EmptyString => false
  end.
Definition validate_name (name : string) : result unit SecurityError :=
  if valid_name name then Ok tt
  else Err (Violation ("invalid secret name '" +:+ name +:+ "': must match [A-Za-z_][A-Za-z0-9_]*")%string).
Definition vault_key (name : string) : string := (USER_SECRET_PREFIX +:+ name)%string.

Definition get_user (key name : string) : VM (option string) := get_secret key (vault_key name).
Definition user_exists (key name : string) : VM bool :=
  let* v := get_user key name in ret (is_some v).
Definition add (key name value : string) (overwrite : bool) : VM AddOutcome :=
  let* _ := of_result (validate_name name) in
  if String.eqb value "" then throw (Violation "secret value must not be empty")
  else
    let* existed := user_exists key name in
    if existed && negb overwrite then
      throw (Violation ("secret '" +:+ name +:+ "' already exists; pass overwrite to replace it")%string)
    else
      let* _ := store_secret key (vault_key name) value in
      ret (if existed then Replaced else Created).
Definition delete_user (name : string) : VM unit := delete_secret (vault_key name).
Definition list_users : VM (list string) :=
  let* names := list_names in
  ret (sort_strings (omap (Str.strip_prefix USER_SECRET_PREFIX) names)).
Definition exists_many (names : list string) : VM (list (string * bool)) :=
  let* present := list_users in
  ret (map (fun n => (n, bool_decide (n ∈ present))) names).

(** The preview of a value that is text. *)
Fixpoint stars (n : nat) : string :=
  match n with O => "" | S n => String "*" (stars n) end.
Fixpoint skip_chars (n : nat) (s : string) : string :=
  match n with O => s | S n => skip_chars n (Str.drop (String.length (Str.take_chars 1 s)) s) end.
Definition mask_preview (value : string) : string :=
  let n := Str.char_count value in
  if Nat.leb n (PREVIEW_KEEP * 2) then stars (Nat.max n 1)
  else (Str.take_chars PREVIEW_KEEP value +:+ "…" +:+ skip_chars (n - PREVIEW_KEEP) value)%string.
Definition preview_of (key name : string) : VM (string * string) :=
  let* v := get_user key name in
  ret (name, match v with Some v => mask_preview v | None => "" end).
Definition list_with_previews (key : string) : VM (list (string * string)) :=
  let* names := list_users in gather (preview_of key) names.
(** ** What a record gives back *)

Context {CL : CipherLaws W} {SL : SecretStoreLaws W}.

(** The record stored under a name, opened. *)
Definition opened (key name : string) (w : W) : option (result string SecurityError) :=
  (fun d => decrypt d key name) <$> entries w !! name.
(** Code that only looks. *)
Definition reads {A} (m : VM A) : Prop := forall w, entries (m w).1 = entries w.

Lemma reads_keeps {A} (m : VM A) v : reads m -> keeps (fun w => entries w = v) m.
Proof. intros H w <-. apply H. Qed.
Lemma reads_bind {A B} (m : VM A) (k : A -> VM B) : reads m -> (forall a, reads (k a)) -> reads (bind m k).
Proof.
  intros Hm Hk w. unfold bind. specialize (Hm w). destruct (m w) as [w' [a|e]]; [|done].
  cbn in Hm. by rewrite Hk.
Qed.
Lemma reads_gather {X A} (f : X -> VM A) l : (forall x, reads (f x)) -> reads (gather f l).
Proof.
  intros H. induction l as [|x l IH]; [done|]. apply reads_bind; [apply H | intros a].
  by apply reads_bind.
Qed.
Lemma reads_storage {A} (f : W -> W * result A string) :
  (forall w, entries (f w).1 = entries w) -> reads (on_storage f).
Proof. intros H w. specialize (H w). unfold on_storage, bind, draw. destruct (f w) as [w' [a|e]]; done. Qed.
Lemma reads_encrypt v key aad : reads (encrypt v key aad).
Proof.
  intros w. unfold encrypt, bind, of_result, draw. destruct (reject_empty_aad aad); [|done].
  pose proof (nonce_entries w) as H. destruct (fill_nonce w) as [w' n]. cbn in *.
  by destruct (seal key n v aad).
Qed.
Lemma reads_retrieve n : reads (on_storage (retrieve n)).
Proof. apply reads_storage. intros. apply retrieve_entries. Qed.
Lemma reads_rotate_entry key fresh n : reads (rotate_entry key fresh n).
Proof.
  apply reads_bind; [apply reads_retrieve|]. intros [d|]; [|done].
  apply reads_bind; [done|]. intros p. apply reads_bind; [apply reads_encrypt|]. done.
Qed.

(** A record opens to what was sealed in it, under the name it was sealed for. *)
Lemma decrypt_encrypt v key aad w c : (encrypt v key aad w).2 = Ok c -> decrypt c key aad = Ok v.
Proof.
  unfold encrypt, decrypt, bind, of_result, draw, result_bind, ret, throw. destruct (reject_empty_aad aad) as [[]|]; [|done].
  pose proof (nonce_length w) as Hn. destruct (fill_nonce w) as [w' n]. cbn in Hn.
  destruct (seal key n v aad) as [ct|] eqn:Hs; [|done]. intros [= <-].
  rewrite Str.length_app_str, Hn, (seal_length _ _ _ _ _ Hs).
  destruct (Nat.ltb_spec (NONCE_LEN + (String.length v + TAG_LEN)) (NONCE_LEN + TAG_LEN)); [lia|].
  rewrite <- Hn, Str.take_app, Str.drop_app. by rewrite (unseal_seal _ _ _ _ _ Hs).
Qed.
Lemma retrieve_spec n w w' o : on_storage (retrieve n) w = (w', Ok o) -> entries w' = entries w /\ o = entries w !! n.
Proof.
  intros E. pose proof (reads_retrieve n w) as H1. rewrite E in H1. split; [done|]. revert E.
  unfold on_storage, bind, draw. destruct (retrieve n w) as [w1 [o1|e]] eqn:Er; [|done]. intros [= <- <-].
  apply retrieve_found. by rewrite Er.
Qed.
Lemma rotate_entry_spec key fresh n w w' e : rotate_entry key fresh n w = (w', Ok e) ->
  exists d p, entries w !! n = Some d /\ decrypt d key n = Ok p /\ e.1 = n /\ decrypt e.2 fresh n = Ok p.
Proof.
  unfold rotate_entry. unfold bind at 1. destruct (on_storage (retrieve n) w) as [w1 [[d|]|e1]] eqn:Er; try done.
  apply retrieve_spec in Er as [_ Hd]. unfold bind, of_result. destruct (decrypt d key n) as [p|] eqn:Hp; [|done].
  destruct (encrypt p fresh n w1) as [w2 [again|]] eqn:Ee; [|done]. intros [= <- <-]. exists d, p.
  split_and!; [done | done | done |]. apply (decrypt_encrypt p fresh n w1). by rewrite Ee.
Qed.
Lemma rotate_entries_spec key fresh ns w w' l : gather (rotate_entry key fresh) ns w = (w', Ok l) ->
  Forall2 (fun n e => exists d p, entries w !! n = Some d /\ decrypt d key n = Ok p /\ e.1 = n /\
                                  decrypt e.2 fresh n = Ok p) ns l.
Proof.
  revert w l. induction ns as [|n ns IH]; intros w l; cbn [gather]; [by intros [= _ <-]|].
  unfold bind at 1. destruct (rotate_entry key fresh n w) as [w1 [e|]] eqn:Ee; [|done].
  pose proof (reads_rotate_entry key fresh n w) as Hw. rewrite Ee in Hw. cbn in Hw.
  unfold bind. destruct (gather (rotate_entry key fresh) ns w1) as [w2 [k|]] eqn:Ek; [|done]. intros [= <- <-].
  constructor; [by apply rotate_entry_spec in Ee|]. rewrite <- Hw. by eapply IH.
Qed.
Lemma written_over (l : list (string * string)) (m : gmap string string) n : NoDup (map fst l) ->
  foldl (fun m e => <[e.1 := e.2]> m) m l !! n = match list_to_map (M := gmap string string) l !! n with
                                                 | Some d => Some d | None => m !! n end.
Proof.
  revert m. induction l as [|[k d] l IH]; intros m; [done|]. cbn. intros [Hk Hl]%NoDup_cons.
  rewrite IH by done. destruct (decide (n = k)) as [->|Hne].
  - rewrite lookup_insert_eq.
    assert (list_to_map (M := gmap string string) l !! k = None) as -> by (by apply not_elem_of_list_to_map_1).
    by rewrite lookup_insert_eq.
  - by rewrite !lookup_insert_ne by done.
Qed.

Lemma store_secret_spec key name v w w' : store_secret key name v w = (w', Ok tt) ->
  exists d, entries w' = <[name := d]> (entries w) /\ decrypt d key name = Ok v.
Proof using CL SL.
  unfold store_secret. unfold bind at 1. pose proof (reads_encrypt v key name w) as Hw.
  destruct (encrypt v key name w) as [w1 [d|e]] eqn:Ee; cbn in Hw; [|done].
  unfold on_storage, bind, draw, ret, throw. pose proof (store_entries name d w1) as Hs.
  destruct (store name d w1) as [w2 [[]|e]]; [|done]. intros [= <-]. cbn in Hs. exists d. rewrite Hs, Hw.
  split; [done|]. apply (decrypt_encrypt v key name w). by rewrite Ee.
Qed.
Lemma get_secret_spec key name w w' o : get_secret key name w = (w', Ok o) ->
  entries w' = entries w /\ opened key name w = Ok <$> o.
Proof using CL SL.
  unfold get_secret. unfold bind at 1. destruct (on_storage (retrieve name) w) as [w1 [[d|]|e]] eqn:Er; [| |done];
    apply retrieve_spec in Er as [Hw Hd]; unfold bind, of_result, ret, opened; rewrite <- Hd.
  - destruct (decrypt d key name) as [p|e] eqn:Hp; [|done]. intros [= <- <-]. cbn. by rewrite Hp.
  - by intros [= <- <-].
Qed.

Lemma get_secret_fails key name w w' e : get_secret key name w = (w', Err e) ->
  (exists m, e = Storage m) \/ opened key name w = Some (Err e).
Proof using CL SL.
  unfold get_secret. unfold bind at 1. destruct (on_storage (retrieve name) w) as [w1 [[d|]|x]] eqn:Er; [| done |].
  - apply retrieve_spec in Er as [_ Hd]. unfold bind, of_result, ret, opened. rewrite <- Hd.
    destruct (decrypt d key name) as [p|x] eqn:Hp; [done|]. intros [= _ <-]. right. cbn [fmap option_fmap option_map].
    by rewrite Hp.
  - intros [= _ <-]. left. revert Er. unfold on_storage, bind, draw, throw.
    destruct (retrieve name w) as [w2 [o|m]]; [done|]. intros [= _ <-]. by exists m.
Qed.

(** C11: Rotating the master key loses nothing and is all or nothing.  When it
    succeeds every entry has been rewritten, each opened under the old key before
    and opens under the new key to the same secret after, and no name appears or
    disappears; when it fails, for whatever reason, the store is untouched, so
    every entry still opens under the old key. *)
Theorem rotation_keeps_secrets (key fresh : string) (w : W) :
  let (w', r) := rotate_master_key key fresh w in
  match r with
  | Ok n =>
      n = size (entries w) /\ dom (entries w') = dom (entries w) /\
      forall name d, entries w !! name = Some d ->
        exists secret, opened key name w = Some (Ok secret) /\ opened fresh name w' = Some (Ok secret)
  | Err _ => entries w' = entries w
  end.
Proof using CL SL.
  unfold rotate_master_key. unfold bind at 1. unfold list_names.
  destruct (on_storage list_entries w) as [w1 [ns|e]] eqn:El;
    pose proof (reads_storage list_entries list_stays w) as H1; rewrite El in H1; cbn in H1; [|done].
  assert ((list_entries w).2 = Ok ns) as [Hnd Hns]%list_names_all.
  { revert El. unfold on_storage, bind, draw. destruct (list_entries w) as [? [?|]]; [|done]. by intros [= _ <-]. }
  unfold bind at 1. destruct (gather (rotate_entry key fresh) ns w1) as [w2 [l|e]] eqn:Eg;
    pose proof (reads_gather _ ns (reads_rotate_entry key fresh) w1) as H2; rewrite Eg in H2; cbn in H2;
    [|by rewrite H2].
  apply rotate_entries_spec in Eg. rewrite H1 in Eg. pose proof (rewrite_entries l w2) as H3.
  unfold on_storage, bind, draw, ret, throw. destruct (rewrite_all l w2) as [w3 [[]|e]]; cbn in H3; cbn; rewrite H2, H1 in H3; rewrite H3;
    [|done]. clear El H1 H2 w1 w2.
  assert (map fst l = ns) as Hl.
  { clear -Eg. induction Eg as [|n e ns l (d & p & _ & _ & <- & _) _ IH]; [done|]. cbn. by rewrite IH. }
  rewrite <- Hl in Hnd. split_and!.
  - rewrite <- (length_map fst l), Hl, <- size_dom. rewrite Hl in Hnd. rewrite <- (size_list_to_set (C := gset string) ns Hnd).
    f_equal. apply set_eq. intros x. by rewrite elem_of_list_to_set, Hns.
  - apply set_eq. intros n. rewrite !elem_of_dom, written_over by done.
    destruct (list_to_map l !! n) as [d|] eqn:En; [|done]. apply elem_of_list_to_map_2 in En.
    apply (list_elem_of_fmap_2 fst) in En. cbn in En. change (fst <$> l) with (map fst l) in En. rewrite Hl in En.
    apply Hns, elem_of_dom in En. split; [by intros _ | by eexists].
  - intros name d Hd. assert (name ∈ ns) as Hin by (apply Hns, elem_of_dom; by eexists).
    apply list_elem_of_lookup in Hin as [i Hi]. destruct (Forall2_lookup_l _ _ _ _ _ Eg Hi) as ([n' d'] & Hi' & H).
    cbn in H. destruct H as (d0 & p & Hd0 & Hp & -> & Hp'). rewrite Hd in Hd0. injection Hd0 as <-.
    exists p. unfold opened. rewrite Hd, ?H3, written_over by done. cbn. rewrite Hp. split; [done|].
    rewrite (elem_of_list_to_map_1 l name d'); [cbn; by rewrite Hp' | done |]. by eapply list_elem_of_lookup_2.
Qed.

(** Placeholders, credentials and the user's secrets live under names of their
    own. *)
Lemma vault_key_inj a b : vault_key a = vault_key b -> a = b.
Proof. unfold vault_key, USER_SECRET_PREFIX. cbn. congruence. Qed.

End Vault.

(** ** A vault in memory, with a cipher that signs what it seals *)

Module Sample.
Definition dots : string := "................".
Definition tag (k : string) : string := Str.take TAG_LEN (k +:+ dots)%string.
Definition twelve : string := "nonce-nonce-".
Abbreviation Mem := (gmap string string).

#[local] Instance signing : Cipher Mem := {
  seal k _ m _ := Some (m +:+ tag k)%string;
  unseal k _ c _ := Str.strip_suffix (tag k) c;
  fill_nonce w := (w, twelve);
}.
#[local] Instance memory : SecretStore Mem := {
  store n v w := (<[n := v]> w, Ok tt);
  retrieve n w := (w, Ok (w !! n));
  list_entries w := (w, Ok (map fst (map_to_list w)));
  delete_entry n w := (delete n w, Ok tt);
  rewrite_all l w := (foldl (fun m e => <[e.1 := e.2]> m) w l, Ok tt);
  entries w := w;
}.
#[local] Instance signing_laws : CipherLaws Mem.
Proof.
  split; try done.
  - intros k n m a c [= <-]. apply Str.strip_suffix_app.
  - intros k n m a c [= <-]. rewrite Str.length_app_str. f_equal. unfold tag.
    rewrite Str.length_take, Str.length_app_str. change (String.length dots) with 16. unfold TAG_LEN. lia.
Qed.
#[local] Instance memory_laws : SecretStoreLaws Mem.
Proof.
  split; try done; [by intros n w o [= <-]|]. intros w l [= <-]. split; [apply NoDup_fst_map_to_list|].
  intros n. rewrite elem_of_dom. split.
  - intros ([n' v] & -> & H)%list_elem_of_fmap. apply elem_of_map_to_list in H. by eexists.
  - intros [v H]. apply list_elem_of_fmap. exists (n, v). split; [done|]. by apply elem_of_map_to_list.
Qed.
Definition old : string := "old-master-key--old-master-key--".
Definition fresh : string := "new-master-key--new-master-key--".
Definition mem : Mem := (store_secret old "gateway.admin_token" "s3cret" ∅).1.
End Sample.

#[local] Existing Instances Sample.signing Sample.memory Sample.signing_laws Sample.memory_laws.
Lemma rotation_keeps_secrets_witness :
  (rotate_master_key Sample.old Sample.fresh Sample.mem).2 = Ok 1 /\
  match rotate_master_key Sample.old Sample.fresh Sample.mem with
  | (w', Ok n) => n = 1 /\ opened Sample.fresh "gateway.admin_token" w' = Some (Ok "s3cret"%string)
  | _ => False
  end.
Proof.
  pose proof (rotation_keeps_secrets Sample.old Sample.fresh Sample.mem) as H.
  assert ((rotate_master_key Sample.old Sample.fresh Sample.mem).2 = Ok 1) as E by (vm_compute; reflexivity).
  split; [exact E|]. destruct (rotate_master_key Sample.old Sample.fresh Sample.mem) as [w' r]. cbn in E. subst r.
  destruct H as (_ & _ & H). split; [reflexivity|].
  destruct (H "gateway.admin_token"%string ("nonce-nonce-s3cretold-master-key--"%string)) as (s & Ho & Hn);
    [vm_compute; reflexivity|]. rewrite Hn. rewrite <- Ho. vm_compute. reflexivity.
Defined.

End SecretVault.
