(* ===== verification/Security.v ===== *)
(** * The leak boundary ([crates/agent/src/security.rs],
      [crates/security/src/leak_detector.rs], [placeholder.rs],
      [injection_detector.rs], [log_redact.rs])

    Everything that enters or leaves the agent is scanned for secrets.  A secret
    that is found goes to the vault, and the text keeps a placeholder in its
    place, which a tool call turns back into the secret just before it runs.  The
    patterns belong to the [regex] crate and the placeholder's digest to the
    [hmac] crate: the model is told which substrings of a text a rule matches,
    and a digest for each secret. *)

From S2P Require Import Prelude Effect Message Wire Approval ReadTracker ProgressLedger Streaming SecretVault.
Import Message Effect SecretVault.

Module Security.

Import Approval(ResourceAccess).
#[local] Existing Instance Approval.Component_eq_dec.
Import ReadTracker(ToolError, InvalidParams, Execution).
Import ProgressLedger(ToolOutput, OutText, OutJson, OutError, WithAttachments, MultiModalText).

(** ** Placeholders ([placeholder.rs]) *)

Definition PLACEHOLDER_OPEN : string := "[{".
Definition PLACEHOLDER_CLOSE : string := "}]".
Definition PLACEHOLDER_PREFIX : string := "REDACTED_SECRET_".
Definition PLACEHOLDER_HEX_LEN : nat := 24.
Definition placeholder_head : string := (PLACEHOLDER_OPEN +:+ PLACEHOLDER_PREFIX)%string.

Definition is_hex (c : ascii) : bool := Str.is_ascii_digit c || Str.in_range 97 102 c.
Fixpoint hex_run (s : string) : nat :=
  match s with
  | String c s => if is_hex c then S (hex_run s) else 0
  | EmptyString => 0
  end.
(** [\[\{REDACTED_SECRET_[0-9a-f]{16,32}\}\]] at the start of the text, and how
    much of it: the digits are followed by a brace, so the match takes the whole
    run of them. *)
Definition match_placeholder (s : string) : option nat :=
  match Str.strip_prefix placeholder_head s with
  | Some r =>
      let n := hex_run r in
      if Nat.leb 16 n && Nat.leb n 32 && Str.starts_with PLACEHOLDER_CLOSE (Str.drop n r)
      then Some (String.length placeholder_head + n + String.length PLACEHOLDER_CLOSE) else None
  | None => None
  end.
(** [find_iter]: leftmost, non-overlapping. *)
Fixpoint find_go (skip : nat) (s : string) : list string :=
  match s with
  | EmptyString => []
  | String _ rest =>
      match skip with
      | S k => find_go k rest
      | O =>
          match match_placeholder s with
          | Some n => Str.take n s :: find_go (n - 1) rest
          | None => find_go 0 rest
          end
      end
  end.
Definition find_placeholders (s : string) : list string := find_go 0 s.

(** ** Rules ([leak_detector.rs]) *)

Inductive LeakAction := Block | Replace.
Record LeakMatch := mk_match { original : string; matched_rule : string }.
Record LeakScanResult := mk_scan {
  matches : list LeakMatch;
  blocked : bool;
  block_reason : option string;
}.
Record Mint := mk_mint { placeholder : string; minted : string; mint_rule : string }.

(** ** Markers of injection ([injection_detector.rs]) *)

Inductive InjectionSeverity := Low | Medium | High | Critical.
Record InjectionWarning := mk_warning { warning_rule : string; severity : InjectionSeverity }.
Definition severity_rank (s : InjectionSeverity) : nat :=
  match s with Low => 0 | Medium => 1 | High => 2 | Critical => 3 end.
Definition severity_max (a b : InjectionSeverity) : InjectionSeverity :=
  if Nat.leb (severity_rank b) (severity_rank a) then a else b.

(** Every hit of one payload, folded into one log line. *)
Record InjectionSummary := mk_summary {
  counts : gmap string nat;
  max_severity : option InjectionSeverity;
}.
Definition add_warning (s : InjectionSummary) (w : InjectionWarning) : InjectionSummary :=
  mk_summary (<[warning_rule w := default 0 (counts s !! warning_rule w) + 1]> (counts s))
    (Some match max_severity s with
          | Some cur => severity_max cur (severity w)
          | None => severity w
          end).
Definition add_warnings (s : InjectionSummary) (ws : list InjectionWarning) : InjectionSummary :=
  foldl add_warning s ws.
Definition rules_summary (s : InjectionSummary) : string :=
  Wire.joined "," (map (fun rule => (rule +:+ ":" +:+ pretty (default 0 (counts s !! rule)))%string)
                     (sort_strings (elements (dom (counts s))))).

Inductive OutputSource := DeclaredFiles | Opaque.
Inductive OutputProvenance := WorkspaceLocal | Foreign.
Definition inside_checkout (root : string) (a : ResourceAccess) : bool :=
  match a with
  | Approval.ReadFile path =>
      negb (existsb (fun c => bool_decide (c = Approval.ParentDir)) (Approval.components path))
      && Approval.path_starts_with path root
  | _ => false
  end.
Definition classify (source : OutputSource) (accesses : list ResourceAccess) (checkout_root : option string)
    : OutputProvenance :=
  match source, checkout_root, accesses with
  | DeclaredFiles, Some root, _ :: _ =>
      if forallb (inside_checkout root) accesses then WorkspaceLocal else Foreign
  | _, _, _ => Foreign
  end.
Inductive Level := LevelWarn | LevelInfo | LevelDebug.
Definition emitted_level (s : InjectionSeverity) (p : OutputProvenance) : Level :=
  match p, s with
  | Foreign, (Critical | High) => LevelWarn
  | Foreign, Medium => LevelInfo
  | Foreign, Low => LevelDebug
  | WorkspaceLocal, (Critical | High) => LevelInfo
  | WorkspaceLocal, (Medium | Low) => LevelDebug
  end.

(** ** Texts with holes

    A text some of whose substrings are taken out: literals, and between them
    what was taken.  [render g] puts [g x] where [x] was. *)
Definition Doc : Type := string * list (string * string).
Definition render (g : string -> string) (d : Doc) : string :=
  (d.1 +:+ Str.whole (map (fun t : string * string => g t.1 +:+ t.2) d.2))%string.
Definition plain (s : string) : string := s.

(** The pieces [str::replace] leaves between the matches. *)
Fixpoint split_go (p : string) (skip : nat) (s : string) : Doc :=
  match s with
  | EmptyString => (EmptyString, [])
  | String c s' =>
      match skip with
      | S k => split_go p k s'
      | O =>
          if Str.starts_with p s then
            let (a, ts) := split_go p (String.length p - 1) s' in (EmptyString, (p, a) :: ts)
          else let (a, ts) := split_go p 0 s' in (String c a, ts)
      end
  end.
Definition split_on (p s : string) : Doc := split_go p 0 s.
Definition cut_after (p : string) (t : string * string) : list (string * string) :=
  let (a, ts) := split_on p t.2 in (t.1, a) :: ts.
Definition cut (p : string) (d : Doc) : Doc :=
  let (a, ts) := split_on p d.1 in (a, ts ++ concat (map (cut_after p) d.2)).

Definition comparable (a b : string) : bool := Str.starts_with a b || Str.starts_with b a.
(** Occurrences of the two never overlap, in any text. *)
Definition apart (p q : string) : Prop :=
  (forall i, i < String.length p -> comparable (Str.drop i p) q = false) /\
  (forall i, i < String.length q -> comparable (Str.drop i q) p = false).

Lemma starts_with_app p a b : Str.starts_with p a = true -> Str.starts_with p (a +:+ b)%string = true.
Proof.
  intros [r ->]%Str.starts_with_spec. apply Str.starts_with_spec. exists (r +:+ b)%string.
  by rewrite Str.app_assoc_str.
Qed.
Lemma starts_with_within p a b : Str.starts_with p (a +:+ b)%string = true -> comparable p a = true.
Proof.
  unfold comparable. revert a. induction p as [|c p IH]; intros [|d a]; try done. cbn.
  intros [Hc H]%andb_true_iff. rewrite Hc, Ascii.eqb_sym, Hc. cbn. by apply IH.
Qed.
Lemma comparable_sym a b : comparable a b = comparable b a.
Proof. apply orb_comm. Qed.
Lemma drop_0 s : Str.drop 0 s = s.
Proof. by destruct s. Qed.
Lemma drop_cons i s c r : Str.drop i s = String c r -> Str.drop (S i) s = r /\ i < String.length s.
Proof.
  revert i. induction s as [|x s IH]; intros [|i] E; try discriminate.
  - injection E as -> ->. split; [by destruct r | cbn; lia].
  - destruct (IH i E) as [H1 H2]. split; [exact H1 | cbn; lia].
Qed.
Lemma drop_all s : Str.drop (String.length s) s = ""%string.
Proof. by induction s. Qed.

(** A match of [p] that begins before [q] ends before it. *)
Lemma no_straddle p a q b : apart p q -> Str.starts_with p (a +:+ (q +:+ b))%string = true ->
  Str.starts_with p a = true.
Proof.
  intros [Hp _]. cut (forall i, i <= String.length p ->
    Str.starts_with (Str.drop i p) (a +:+ (q +:+ b))%string = true -> Str.starts_with (Str.drop i p) a = true).
  { intros H. specialize (H 0). rewrite drop_0 in H. apply H. lia. }
  induction a as [|c a IH]; intros i Hi H; rewrite ?Str.app_cons_str, ?Str.app_nil_str in *.
  - destruct (decide (i = String.length p)) as [->|Hne].
    + by rewrite drop_all.
    + apply starts_with_within in H. by rewrite Hp in H by lia.
  - destruct (Str.drop i p) as [|d r] eqn:E; [done|]. cbn in *. apply andb_true_iff in H as [-> H].
    destruct (drop_cons _ _ _ _ E) as [<- Hlt]. by apply IH.
Qed.
(** No match of [p] begins in [q]. *)
Lemma no_start p q b i : apart p q -> i < String.length q ->
  Str.starts_with p (Str.drop i q +:+ b)%string = false.
Proof.
  intros [_ Hq] Hi. destruct (Str.starts_with _ _) eqn:E; [|done]. apply starts_with_within in E.
  by rewrite comparable_sym, Hq in E.
Qed.

Lemma replace_enters p to q b : apart p q ->
  Str.replace_go p to 0 (q +:+ b)%string = (q +:+ Str.replace_go p to 0 b)%string.
Proof.
  intros H. cut (forall n i, String.length q = i + n ->
    Str.replace_go p to 0 (Str.drop i q +:+ b)%string = (Str.drop i q +:+ Str.replace_go p to 0 b)%string).
  { intros G. specialize (G (String.length q) 0). rewrite drop_0 in G. by apply G. }
  induction n as [|n IH]; intros i Hi.
  - replace i with (String.length q) by lia. by rewrite drop_all.
  - pose proof (no_start p q b i H ltac:(lia)) as Hno. specialize (IH (S i) ltac:(lia)).
    destruct (Str.drop i q) as [|c r] eqn:E; [done|].
    destruct (drop_cons _ _ _ _ E) as [Er _].
    rewrite Er in IH. rewrite !Str.app_cons_str in *. cbn [Str.replace_go]. by rewrite Hno, IH.
Qed.

Lemma replace_over p to q b a k : apart p q -> k <= String.length a ->
  Str.replace_go p to k (a +:+ (q +:+ b))%string = (Str.replace_go p to k a +:+ (q +:+ Str.replace_go p to 0 b))%string.
Proof.
  intros H. revert k. induction a as [|c a IH]; intros k Hk.
  - replace k with 0 by (cbn in Hk; lia). rewrite !Str.app_nil_str. by apply replace_enters.
  - rewrite !Str.app_cons_str. cbn [Str.replace_go]. destruct k as [|k]; [|apply IH; cbn in Hk; lia].
    destruct (Str.starts_with p (String c (a +:+ (q +:+ b)))) eqn:E.
    + rewrite <- Str.app_cons_str in E. apply no_straddle in E; [|exact H]. rewrite E.
      rewrite IH; [by rewrite !Str.app_assoc_str|].
      apply Str.starts_with_spec in E as [r E]. apply (f_equal String.length) in E.
      rewrite Str.length_app_str in E. cbn in E. lia.
    + destruct (Str.starts_with p (String c a)) eqn:E'.
      * apply (starts_with_app _ _ (q +:+ b)) in E'. rewrite Str.app_cons_str in E'. congruence.
      * by rewrite IH by lia.
Qed.
Lemma contains_over p q a b : apart p q -> Str.contains p a = false -> Str.contains p b = false ->
  Str.contains p (a +:+ (q +:+ b))%string = false.
Proof.
  intros H Ha Hb. assert (Hq : Str.contains p (q +:+ b)%string = false).
  { cut (forall n i, String.length q = i + n -> Str.contains p (Str.drop i q +:+ b)%string = false).
    { intros G. specialize (G (String.length q) 0). rewrite drop_0 in G. by apply G. }
    induction n as [|n IH]; intros i Hi.
    - replace i with (String.length q) by lia. by rewrite drop_all.
    - pose proof (no_start p q b i H ltac:(lia)) as Hno. specialize (IH (S i) ltac:(lia)).
      destruct (Str.drop i q) as [|c r] eqn:E; [done|]. destruct (drop_cons _ _ _ _ E) as [Er _].
      rewrite Er in IH. rewrite Str.app_cons_str in *. cbn [Str.contains]. by rewrite Hno, IH. }
  induction a as [|c a IH]; [done|]. rewrite Str.app_cons_str. cbn [Str.contains] in *.
  apply orb_false_iff in Ha as [Hs Ha]. rewrite IH by done. rewrite orb_false_r.
  destruct (Str.starts_with p (String c (a +:+ (q +:+ b)))) eqn:E; [|done].
  rewrite <- Str.app_cons_str in E. apply no_straddle in E; [congruence | exact H].
Qed.

(** *** Cutting *)

Definition literals (d : Doc) : list string := d.1 :: map snd d.2.
Definition tokens (d : Doc) : list string := map fst d.2.
Definition free (p s : string) : Prop := Str.contains p s = false.

Lemma render_cons g a t l ts : render g (a, (t, l) :: ts) = (a +:+ (g t +:+ render g (l, ts)))%string.
Proof. unfold render. cbn. by rewrite !Str.app_assoc_str. Qed.
Lemma render_app g a ts us : render g (a, ts ++ us) = (render g (a, ts) +:+ render g (""%string, us))%string.
Proof. unfold render. cbn. by rewrite map_app, Str.whole_app, Str.app_assoc_str. Qed.

Lemma split_replace g p k s : Str.replace_go p (g p) k s = render g (split_go p k s).
Proof.
  revert k. induction s as [|c s IH]; intros k; [done|]. cbn [Str.replace_go split_go].
  destruct k as [|k]; [|apply IH]. destruct (Str.starts_with p (String c s)).
  - rewrite IH. destruct (split_go p (String.length p - 1) s) as [a ts]. by rewrite render_cons.
  - rewrite IH. by destruct (split_go p 0 s) as [a ts].
Qed.
Lemma split_tokens p k s : Forall (eq p) (tokens (split_go p k s)).
Proof.
  revert k. induction s as [|c s IH]; intros k; [constructor|]. cbn [split_go].
  destruct k as [|k]; [|apply IH].
  destruct (Str.starts_with p (String c s)); [specialize (IH (String.length p - 1)) | specialize (IH 0)];
    destruct (split_go p _ s); [by constructor | exact IH].
Qed.
Lemma split_plain p k s : p <> ""%string -> render plain (split_go p k s) = Str.drop k s.
Proof.
  intros Hp. revert k. induction s as [|c s IH]; intros k; [by destruct k|]. cbn [split_go].
  destruct k as [|k]; [|apply IH]. destruct (Str.starts_with p (String c s)) eqn:E.
  - specialize (IH (String.length p - 1)). destruct (split_go p (String.length p - 1) s) as [a ts].
    rewrite render_cons, IH. apply Str.starts_with_spec in E as [r E]. rewrite E. unfold plain.
    rewrite Str.app_nil_str. f_equal. destruct p as [|d p]; [done|]. cbn in E. injection E as <- ->. cbn.
    by rewrite Nat.sub_0_r, Str.drop_app.
  - specialize (IH 0). destruct (split_go p 0 s) as [a ts]. rewrite drop_0 in *.
    change (render plain (String c a, ts)) with (String c (render plain (a, ts))). by rewrite IH.
Qed.
Lemma split_on_plain p s : p <> ""%string -> render plain (split_on p s) = s.
Proof. intros Hp. unfold split_on. rewrite split_plain by done. apply drop_0. Qed.

Lemma contains_mid p a b c : Str.contains p b = true -> Str.contains p (a +:+ (b +:+ c))%string = true.
Proof.
  intros (x & y & ->)%Str.contains_spec. apply Str.contains_spec. exists (a +:+ x)%string, (y +:+ c)%string.
  by rewrite !Str.app_assoc_str.
Qed.
Lemma literal_within d l : l ∈ literals d -> exists a b, render plain d = (a +:+ (l +:+ b))%string.
Proof.
  destruct d as [a ts]. unfold literals. cbn [fst snd]. revert a. induction ts as [|[t k] ts IH]; intros a.
  - intros ->%list_elem_of_singleton. exists ""%string, ""%string. unfold render. cbn. done.
  - intros [->|Hl]%elem_of_cons.
    + exists ""%string. eexists. by rewrite render_cons.
    + destruct (IH k Hl) as (x & y & E). exists (a +:+ (plain t +:+ x))%string, y.
      rewrite render_cons, E. by rewrite !Str.app_assoc_str.
Qed.
Lemma free_literals o d : free o (render plain d) -> Forall (free o) (literals d).
Proof.
  intros H. apply Forall_forall. intros l (a & b & E)%literal_within. unfold free in *.
  destruct (Str.contains o l) eqn:El; [|done]. apply (contains_mid _ a _ b) in El. congruence.
Qed.
Lemma split_free p k s : p <> ""%string -> Forall (free p) (literals (split_go p k s)).
Proof.
  intros Hp. revert k. induction s as [|c s IH]; intros k.
  - repeat constructor. unfold free. by destruct p.
  - cbn [split_go]. destruct k as [|k]; [|apply IH]. destruct (Str.starts_with p (String c s)) eqn:E.
    + specialize (IH (String.length p - 1)). destruct (split_go p _ s). constructor; [by destruct p | exact IH].
    + pose proof (split_plain p 0 s Hp) as Hs. specialize (IH 0). destruct (split_go p 0 s) as [a ts].
      inversion IH as [|? ? Ha Hts]; subst. constructor; [|exact Hts]. unfold free in *. cbn [fst Str.contains] in *.
      rewrite Ha, orb_false_r. destruct (Str.starts_with p (String c a)) eqn:E'; [|done]. rewrite drop_0 in Hs.
      unfold render in Hs. cbn [fst] in Hs. rewrite <- Hs, <- Str.app_cons_str in E. by rewrite starts_with_app in E.
Qed.

Lemma cut_cons p a t l ts : cut p (a, (t, l) :: ts) =
  ((split_on p a).1, (split_on p a).2 ++ (t, (cut p (l, ts)).1) :: (cut p (l, ts)).2).
Proof.
  unfold cut. cbn [fst snd map concat]. unfold cut_after at 1. cbn [fst snd].
  by destruct (split_on p a) as [a0 as_], (split_on p l) as [l0 ls].
Qed.
Lemma cut_nil p a : cut p (a, []) = split_on p a.
Proof. unfold cut. cbn [fst snd map concat]. destruct (split_on p a). by rewrite app_nil_r. Qed.

Lemma cut_render g p d : Forall (fun t => apart p (g t)) (tokens d) ->
  Str.replace p (g p) (render g d) = render g (cut p d).
Proof.
  destruct d as [a ts]. unfold Str.replace, tokens. cbn [snd]. revert a. induction ts as [|[t l] ts IH]; intros a Ht.
  - rewrite cut_nil. unfold render at 1. cbn. rewrite Str.app_nil_r_str. apply split_replace.
  - inversion Ht as [|? ? H1 H2]; subst. rewrite render_cons, replace_over by (done || lia). rewrite IH by done.
    rewrite cut_cons, render_app, split_replace. fold (split_on p a).
    destruct (split_on p a) as [a0 as_], (cut p (l, ts)) as [l0 ls]. cbn [fst snd]. by rewrite render_cons, Str.app_nil_str.
Qed.
Lemma cut_plain p d : p <> ""%string -> render plain (cut p d) = render plain d.
Proof.
  intros Hp. destruct d as [a ts]. revert a. induction ts as [|[t l] ts IH]; intros a.
  - rewrite cut_nil, split_on_plain by done. unfold render. cbn. by rewrite Str.app_nil_r_str.
  - rewrite (render_cons plain a), <- IH, cut_cons, render_app.
    pose proof (split_on_plain p a Hp) as Ha. destruct (split_on p a) as [a0 as_], (cut p (l, ts)) as [l0 ls].
    cbn [fst snd]. by rewrite render_cons, Ha, Str.app_nil_str.
Qed.
Lemma cut_tokens p d t : t ∈ tokens (cut p d) -> t = p \/ t ∈ tokens d.
Proof.
  destruct d as [a ts]. unfold tokens. revert a. induction ts as [|[u l] ts IH]; intros a.
  - rewrite cut_nil. pose proof (split_tokens p 0 a) as H. rewrite Forall_forall in H. intros Hin. left. symmetry.
    by apply H.
  - rewrite cut_cons. cbn. rewrite map_app. cbn. rewrite elem_of_app, !elem_of_cons. intros [H | [-> | H]].
    + left. pose proof (split_tokens p 0 a) as Hf. rewrite Forall_forall in Hf. symmetry. by apply Hf.
    + right. by left.
    + destruct (IH l H) as [->|H']; [by left | right; by right].
Qed.
Lemma cut_literals p d l : p <> ""%string -> l ∈ literals (cut p d) ->
  free p l /\ exists k, k ∈ literals d /\ forall o, free o k -> free o l.
Proof.
  intros Hp. destruct d as [a ts]. unfold literals at 1 2. cbn [fst snd].
  assert (Hpiece : forall s x, x ∈ literals (split_on p s) -> free p x /\ forall o, free o s -> free o x).
  { intros s x Hx. split.
    - pose proof (split_free p 0 s Hp) as Hf. rewrite Forall_forall in Hf. by apply Hf.
    - intros o Ho. pose proof (free_literals o (split_on p s)) as Hf. rewrite split_on_plain in Hf by done.
      specialize (Hf Ho). rewrite Forall_forall in Hf. by apply Hf. }
  revert a l. induction ts as [|[u k] ts IH]; intros a l.
  - rewrite cut_nil. intros Hl. destruct (Hpiece a l Hl) as [H1 H2]. split; [done|]. exists a.
    split; [by left | done].
  - rewrite cut_cons. cbn [fst snd]. rewrite map_app. cbn [map snd]. rewrite !elem_of_cons, elem_of_app, elem_of_cons.
    intros H. assert (l ∈ literals (split_on p a) \/ l ∈ literals (cut p (k, ts))) as [Hl|Hl].
    { unfold literals. rewrite !elem_of_cons. naive_solver. }
    + destruct (Hpiece a l Hl) as [H1 H2]. split; [done|]. exists a. split; [by left | done].
    + destruct (IH k l Hl) as (H1 & k' & Hk & H2). split; [done|]. exists k'. split; [by right | done].
Qed.
Lemma render_free g o d : Forall (fun t => apart o (g t)) (tokens d) -> Forall (free o) (literals d) ->
  free o (render g d).
Proof.
  destruct d as [a ts]. unfold literals, tokens. cbn [fst snd]. revert a. induction ts as [|[t l] ts IH]; intros a Ht Hl.
  - inversion Hl; subst. unfold free, render. cbn. by rewrite Str.app_nil_r_str.
  - inversion Ht; inversion Hl; subst. rewrite render_cons. apply contains_over; [done | done |]. by apply IH.
Qed.

Section Gateway.
(** [find_iter] of a rule's pattern, the hex digest of a secret under the
    placeholder key, the injection rules a text trips, and the order a hash set
    of placeholders is walked in. *)
Context {P : Type} (find_iter : P -> string -> list string) (digest : string -> string).
Context (scan_injection : string -> list InjectionWarning) (hash_order : forall A : Type, list A -> list A).

Record LeakDetectionRule := mk_rule { rule_name : string; pattern : P; action : LeakAction }.
Context (rules : list LeakDetectionRule).

Definition mint (secret : string) : string :=
  (PLACEHOLDER_OPEN +:+ PLACEHOLDER_PREFIX +:+ Str.take PLACEHOLDER_HEX_LEN (digest secret)
   +:+ PLACEHOLDER_CLOSE)%string.

(** ** Scanning *)

Definition scan_match (rule : LeakDetectionRule) (acc : LeakScanResult) (mat : string) : LeakScanResult :=
  match action rule with
  | Block =>
      mk_scan (matches acc) true
        (Some ("blocked by rule '" +:+ rule_name rule +:+ "': sensitive data detected")%string)
  | Replace => mk_scan (matches acc ++ [mk_match mat (rule_name rule)]) (blocked acc) (block_reason acc)
  end.
Definition scan_rule (text : string) (acc : LeakScanResult) (rule : LeakDetectionRule) : LeakScanResult :=
  foldl (scan_match rule) acc (find_iter (pattern rule) text).
Definition scan_text (text : string) : LeakScanResult := foldl (scan_rule text) (mk_scan [] false None) rules.
Definition scan_block (acc : LeakScanResult) (b : ContentBlock) : LeakScanResult :=
  match b with
  | Text t =>
      let r := scan_text t in
      if blocked r then mk_scan (matches acc ++ matches r) true (block_reason r)
      else mk_scan (matches acc ++ matches r) (blocked acc) (block_reason acc)
  | _ => acc
  end.
Definition scan_content_blocks (bs : list ContentBlock) : LeakScanResult :=
  foldl scan_block (mk_scan [] false None) bs.
(** One-way, for the log file ([log_redact.rs]); [replace_all] is the crate's. *)
Definition apply_redaction (replace_all : P -> string -> string -> string) (text : string) : string :=
  foldl (fun out rule =>
    match action rule with
    | Replace => replace_all (pattern rule) ("[{REDACTED_LOG_" +:+ rule_name rule +:+ "}]")%string out
    | Block => out
    end) text rules.

(** ** Secrets out of the text *)

Definition substitute (st : list string * string * list Mint) (m : LeakMatch) : list string * string * list Mint :=
  let '(seen, text, mints) := st in
  if bool_decide (original m ∈ seen) then st
  else
    let ph := mint (original m) in
    (original m :: seen, Str.replace (original m) ph text, mints ++ [mk_mint ph (original m) (matched_rule m)]).
Definition sanitize_string (text : string) (mints : list Mint) : string * list Mint :=
  let '(_, out, mints) := foldl substitute ([], text, mints) (matches (scan_text text)) in (out, mints).

Fixpoint sanitize_value (v : json) (mints : list Mint) : json * list Mint :=
  match v with
  | JString s => let (s, mints) := sanitize_string s mints in (JString s, mints)
  | JArray l =>
      let (l, mints) :=
        (fix go (l : list json) mints :=
           match l with
           | [] => ([], mints)
           | x :: l =>
               let (x, mints) := sanitize_value x mints in
               let (l, mints) := go l mints in (x :: l, mints)
           end) l mints in
      (JArray l, mints)
  | JObject fields =>
      let (fields, mints) :=
        (fix go (l : list (string * json)) mints :=
           match l with
           | [] => ([], mints)
           | (k, x) :: l =>
               let (x, mints) := sanitize_value x mints in
               let (l, mints) := go l mints in ((k, x) :: l, mints)
           end) fields mints in
      (JObject fields, mints)
  | v => (v, mints)
  end.

(** [iter_mut] with the mints threaded through. *)
Definition each_mut {A} (f : A -> list Mint -> A * list Mint) (l : list A) (mints : list Mint) : list A * list Mint :=
  let (mints, l) := map_accum (fun mints x => let (x, mints) := f x mints in (mints, x)) mints l in (l, mints).

Definition sanitize_thinking (t : ThinkingContent) (mints : list Mint) : ThinkingContent * list Mint :=
  match t with
  | ThinkingText text sig => let (text, mints) := sanitize_string text mints in (ThinkingText text sig, mints)
  | Summary text => let (text, mints) := sanitize_string text mints in (Summary text, mints)
  | Redacted d => (Redacted d, mints)
  end.
Definition sanitize_block (b : ContentBlock) (mints : list Mint) : ContentBlock * list Mint :=
  match b with
  | Text t => let (t, mints) := sanitize_string t mints in (Text t, mints)
  | Thinking id ts => let (ts, mints) := each_mut sanitize_thinking ts mints in (Thinking id ts, mints)
  | b => (b, mints)
  end.
Definition sanitize_call (c : Streaming.ToolCallInfo) (mints : list Mint) : Streaming.ToolCallInfo * list Mint :=
  let (a, mints) := sanitize_value (Streaming.call_arguments c) mints in
  (Streaming.mk_call (Streaming.call_id c) (Streaming.call_name c) a (Streaming.call_signature c), mints).
Definition sanitized_response (r : Streaming.LlmResponse) : Streaming.LlmResponse * list Mint :=
  let (content, mints) := sanitize_string (Streaming.resp_content r) [] in
  let (blocks, mints) := each_mut sanitize_block (Streaming.content_blocks r) mints in
  let (thinking, mints) :=
    match Streaming.thinking r with
    | Some t => let (t, mints) := sanitize_string t mints in (Some t, mints)
    | None => (None, mints)
    end in
  let (calls, mints) := each_mut sanitize_call (Streaming.tool_calls r) mints in
  (Streaming.mk_response content blocks calls (Streaming.usage r) thinking, mints).
Definition sanitized_output (o : ToolOutput) : ToolOutput * list Mint :=
  match o with
  | OutText s => let (s, mints) := sanitize_string s [] in (OutText s, mints)
  | OutError s => let (s, mints) := sanitize_string s [] in (OutError s, mints)
  | OutJson v => let (v, mints) := sanitize_value v [] in (OutJson v, mints)
  | WithAttachments t l => let (t, mints) := sanitize_string t [] in (WithAttachments t l, mints)
  | MultiModalText t l => let (t, mints) := sanitize_string t [] in (MultiModalText t l, mints)
  end.

(** The injection markers of a payload: what is logged of it. *)
Fixpoint accumulate_injection_warnings (v : json) (s : InjectionSummary) : InjectionSummary :=
  match v with
  | JString t => add_warnings s (scan_injection t)
  | JArray l => foldl (fun s x => accumulate_injection_warnings x s) s l
  | JObject fields => foldl (fun s (f : string * json) => accumulate_injection_warnings f.2 s) s fields
  | _ => s
  end.
Definition logged (o : ToolOutput) : InjectionSummary :=
  let none := mk_summary ∅ None in
  match o with
  | OutText s | OutError s | WithAttachments s _ | MultiModalText s _ => add_warnings none (scan_injection s)
  | OutJson v => accumulate_injection_warnings v none
  end.

(** [apply_matches_to_blocks]: what the caller's scan found, out of every text. *)
Definition mint_match (mints : list Mint) (m : LeakMatch) : list Mint :=
  if bool_decide (original m ∈ map minted mints) then mints
  else mints ++ [mk_mint (mint (original m)) (original m) (matched_rule m)].
Definition apply_mint (text : string) (m : Mint) : string :=
  if Str.contains (minted m) text then Str.replace (minted m) (placeholder m) text else text.
Definition apply_matches_to_blocks (bs : list ContentBlock) (ms : list LeakMatch)
    : list ContentBlock * list Mint :=
  let mints := foldl mint_match [] ms in
  (map (Streaming.on_text (fun t => foldl apply_mint t mints)) bs, mints).

(** ** Secrets into the vault *)

Context {W : Type} `{HC : Cipher W} `{HS : SecretStore W}.
Context (master_key : string).

Definition store_mints (mints : list Mint) : VM (W := W) unit :=
  each (fun m => store_secret master_key (placeholder m) (minted m)) mints.
(** A gateway call rewrites its argument in place before it stores, so the
    rewritten text is there whatever the store answers. *)
Definition then_store {A} (x : A * list Mint) (w : W) : W * (A * result unit SecurityError) :=
  let (a, mints) := x in let (w, r) := store_mints mints w in (w, (a, r)).

Definition sanitize_llm_response (r : Streaming.LlmResponse) : W -> W * (Streaming.LlmResponse * result unit SecurityError) :=
  then_store (sanitized_response r).
Definition sanitize_tool_output (o : ToolOutput) : W -> W * (ToolOutput * result unit SecurityError) :=
  then_store (sanitized_output o).
(** [sanitize_stream_fragment], [sanitize_error], and [sanitize] but for its
    error: an owned copy. *)
Definition sanitize_text (text : string) : VM (W := W) string :=
  let (out, mints) := sanitize_string text [] in
  let* _ := store_mints mints in ret out.

Definition MIN_REDACT_LEN : nat := 5.
(** The gateway's errors as a tool sees them. *)
Definition as_execution {A} (m : VM (W := W) A) : M W ToolError A :=
  map_error (fun e => Execution (security_text e)) m.
Fixpoint redact (text : string) (values : list string) : M W ToolError string :=
  match values with
  | [] => ret text
  | v :: values =>
      if Nat.ltb (String.length v) MIN_REDACT_LEN || negb (Str.contains v text) then redact text values
      else
        let* _ := as_execution (store_secret master_key (mint v) v) in
        redact (Str.replace v (mint v) text) values
  end.

(** What a message becomes, with the session's map from placeholder to rule. *)
Definition persist_mints (mints : list Mint) (known : gmap string string) (w : W)
    : W * (gmap string string * result unit SecurityError) :=
  match mints with
  | [] => (w, (known, Ok tt))
  | _ =>
      let known := foldl (fun m x => <[placeholder x := mint_rule x]> m) known mints in
      let (w, r) := store_mints mints w in (w, (known, r))
  end.
Definition sanitize_input (content : list ContentBlock) (known : gmap string string) (w : W)
    : W * (list ContentBlock * gmap string string * result unit SecurityError) :=
  let scan := scan_content_blocks content in
  if blocked scan then
    (w, ([Text "[blocked: sensitive data detected]"], known,
         Err (Violation (default "input blocked by leak detection rule"%string (block_reason scan)))))
  else
    match matches scan with
    | [] => (w, (content, known, Ok tt))
    | ms =>
        let (content, mints) := apply_matches_to_blocks content ms in
        let '(w, (known, r)) := persist_mints mints known w in
        (w, (content, known, r))
    end.
Definition sanitize_output (content : list ContentBlock) (w : W)
    : W * (list ContentBlock * result unit SecurityError) :=
  let scan := scan_content_blocks content in
  if blocked scan then
    (w, ([Text "[response redacted: sensitive data detected]"],
         Err (Violation (default "output blocked by leak detection rule"%string (block_reason scan)))))
  else
    match matches scan with
    | [] => (w, (content, Ok tt))
    | ms => then_store (apply_matches_to_blocks content ms) w
    end.

(** ** Secrets back into the text *)

(** Placeholders are stored from a [str], so what comes back is text. *)
Fixpoint resolve (phs : list string) : VM (W := W) (list (string * string)) :=
  match phs with
  | [] => ret []
  | ph :: phs =>
      let* secret := get_secret master_key ph in
      let* rest := resolve phs in
      ret match secret with Some s => (ph, s) :: rest | None => rest end
  end.
Definition reveal_one (out : string) (r : string * string) : string := Str.replace r.1 r.2 out.
Definition reveal_in_text (text : string) : VM (W := W) string :=
  let* found := resolve (hash_order _ (remove_dups (find_placeholders text))) in
  ret (foldl reveal_one text found).

Fixpoint collect_placeholders (v : json) : list string :=
  match v with
  | JString s => find_placeholders s
  | JArray l => concat (map collect_placeholders l)
  | JObject fields => concat (map (fun f : string * json => collect_placeholders f.2) fields)
  | _ => []
  end.
Definition substitute_one (s : string) (r : string * string) : string :=
  if Str.contains r.1 s then Str.replace r.1 r.2 s else s.
Fixpoint substitute_in_value (resolved : list (string * string)) (v : json) : json :=
  match v with
  | JString s => JString (foldl substitute_one s resolved)
  | JArray l => JArray (map (substitute_in_value resolved) l)
  | JObject fields => JObject (map (fun f : string * json => (f.1, substitute_in_value resolved f.2)) fields)
  | v => v
  end.
Definition reveal_in_value (v : json) : VM (W := W) json :=
  match remove_dups (collect_placeholders v) with
  | [] => ret v
  | phs => let* found := resolve (hash_order _ phs) in ret (substitute_in_value (hash_order _ found) v)
  end.
(** The tool-side view of a response: every text leaf revealed. *)
Definition reveal_block (b : ContentBlock) : VM (W := W) ContentBlock :=
  match b with
  | Text t => let* t := reveal_in_text t in ret (Text t)
  | ToolUse id name input sig => let* input := reveal_in_value input in ret (ToolUse id name input sig)
  | ToolResult id content meta => let* content := reveal_in_text content in ret (ToolResult id content meta)
  | b => ret b
  end.
Definition reveal_call (c : Streaming.ToolCallInfo) : VM (W := W) Streaming.ToolCallInfo :=
  let* a := reveal_in_value (Streaming.call_arguments c) in
  ret (Streaming.mk_call (Streaming.call_id c) (Streaming.call_name c) a (Streaming.call_signature c)).
Definition reveal_llm_response (r : Streaming.LlmResponse) : VM (W := W) Streaming.LlmResponse :=
  let* content := reveal_in_text (Streaming.resp_content r) in
  let* thinking := match Streaming.thinking r with
                   | Some t => let* t := reveal_in_text t in ret (Some t)
                   | None => ret None
                   end in
  let* blocks := gather reveal_block (Streaming.content_blocks r) in
  let* calls := gather reveal_call (Streaming.tool_calls r) in
  ret (Streaming.mk_response content blocks calls (Streaming.usage r) thinking).

(** The environment a command runs with. *)
Definition resolve_env_one (name : string) : M W ToolError (string * string) :=
  let* v := as_execution (get_user master_key name) in
  match v with
  | Some v => ret (name, v)
  | None => throw (InvalidParams ("secret '" +:+ name +:+ "' not found")%string)
  end.
Definition resolve_env (names : list string) : M W ToolError (list (string * string)) := gather resolve_env_one names.

(** ** Lossless *)

Context {CL : CipherLaws W} {SL : SecretStoreLaws W}.
Context (digest_hex : forall s, String.length (digest s) = 64 /\ Str.forallb is_hex (digest s) = true).

Definition originals (text : string) : list string := map original (matches (scan_text text)).
(** [d] is the text with some of [os] taken out, and none of them left in. *)
Record masked (text : string) (os : list string) (d : Doc) : Prop := mk_masked {
  masked_plain : render plain d = text;
  masked_tokens t : t ∈ tokens d -> t ∈ os;
  masked_literals o l : o ∈ os -> l ∈ literals d -> free o l;
}.

Lemma masked_nothing text : masked text [] (text, []).
Proof.
  split; [unfold render; cbn; by rewrite Str.app_nil_r_str | by intros t ?%elem_of_nil | by intros o l ?%elem_of_nil].
Qed.
Lemma masked_cut text os d o : o <> ""%string -> (forall t, t ∈ os -> apart o (mint t)) -> masked text os d ->
  masked text (o :: os) (cut o d) /\ Str.replace o (mint o) (render mint d) = render mint (cut o d).
Proof using Type.
  intros Ho Ha [H1 H2 H3]. split.
  - split; [by rewrite cut_plain | |].
    + intros t [->|Ht]%cut_tokens; [by left | right; by apply H2].
    + intros x l Hx Hl. destruct (cut_literals o d l Ho Hl) as (Hfree & k & Hk & Hsub).
      apply elem_of_cons in Hx as [->|Hx]; [done|]. by apply Hsub, (H3 x k).
  - apply cut_render, Forall_forall. intros t Ht. by apply Ha, H2.
Qed.

(** The mints of a scan: one per secret that was taken out. *)
Definition mints_of (os : list string) (mints : list Mint) : Prop :=
  Forall (fun m => placeholder m = mint (minted m)) mints /\ forall o, o ∈ map minted mints <-> o ∈ os.
Lemma substitute_spec (all : list string) ms (seen : list string) text mints d :
  (forall a b, a ∈ all -> b ∈ all -> apart a (mint b)) ->
  Forall (fun m => original m ∈ all /\ original m <> ""%string) ms -> (forall o, o ∈ seen -> o ∈ all) ->
  masked text seen d -> mints_of seen mints ->
  exists seen' d' mints', foldl substitute (seen, render mint d, mints) ms = (seen', render mint d', mints') /\
    masked text seen' d' /\ mints_of seen' mints' /\ (forall o, o ∈ seen' <-> o ∈ seen \/ o ∈ map original ms).
Proof using Type.
  clear digest_hex scan_injection hash_order SL CL. intros Ha. revert seen mints d. induction ms as [|m ms IH]; intros seen mints d Hms Hseen Hd Hm.
  - exists seen, d, mints. split_and!; [done..|]. intros o. cbn. rewrite elem_of_nil. naive_solver.
  - inversion Hms as [|? ? [Hin Hne] Hms']; subst. cbn [foldl]. unfold substitute at 2. case_bool_decide as Hs.
    + destruct (IH seen mints d Hms' Hseen Hd Hm) as (seen' & d' & mints' & E & H1 & H2 & H3).
      exists seen', d', mints'. split_and!; [done..|]. intros o. rewrite H3. cbn. rewrite elem_of_cons. naive_solver.
    + destruct (masked_cut text seen d (original m)) as [Hc Hr]; [done | by intros; apply Ha, Hseen | done |].
      rewrite Hr. destruct (IH (original m :: seen) (mints ++ [mk_mint (mint (original m)) (original m) (matched_rule m)])
        (cut (original m) d) Hms') as (seen' & d' & mints' & E & H1 & H2 & H3); [| exact Hc | |].
      * intros o [->|Ho]%elem_of_cons; [done | by apply Hseen].
      * destruct Hm as [Hf Hm]. split; [apply Forall_app; split; [done | by repeat constructor]|].
        intros o. rewrite map_app, elem_of_app, Hm, elem_of_cons. cbn. rewrite list_elem_of_singleton. naive_solver.
      * exists seen', d', mints'. split_and!; [done..|]. intros o. rewrite H3. cbn. rewrite !elem_of_cons. naive_solver.
Qed.

Definition separable (text : string) : Prop :=
  (forall o, o ∈ originals text -> o <> ""%string) /\
  forall a b, a ∈ originals text -> b ∈ originals text -> apart a (mint b).
Lemma sanitize_spec text : separable text -> exists d mints,
  sanitize_string text [] = (render mint d, mints) /\ masked text (originals text) d /\
  mints_of (originals text) mints.
Proof using Type.
  clear digest_hex scan_injection hash_order SL CL. intros [Hne Ha]. unfold sanitize_string.
  destruct (substitute_spec (originals text) (matches (scan_text text)) [] text [] (text, []))
    as (seen & d & mints & E & Hd & [Hm1 Hm2] & Hs); try done.
  - apply Forall_forall. intros m Hm. assert (original m ∈ originals text) by (apply list_elem_of_fmap; by exists m).
    split; [done | by apply Hne].
  - by intros o ?%elem_of_nil.
  - apply masked_nothing.
  - exists d, mints. assert (render mint (text, []) = text) as Et
      by (unfold render; cbn; by rewrite Str.app_nil_r_str). rewrite Et in E. rewrite E.
    assert (Hs' : forall o, o ∈ seen <-> o ∈ originals text)
      by (intros o; rewrite Hs, elem_of_nil; unfold originals; naive_solver).
    split_and!; [done | |].
    + destruct Hd as [H1 H2 H3]. split; [done | intros; by apply Hs', H2 | intros; apply (H3 o); [by apply Hs'|done]].
    + split; [done|]. intros o. by rewrite Hm2.
Qed.

(** *** Placeholders among the text *)

Lemma digest_take s : exists h, mint s = (placeholder_head +:+ (h +:+ PLACEHOLDER_CLOSE))%string /\
  String.length h = PLACEHOLDER_HEX_LEN /\ Str.forallb is_hex h = true.
Proof using digest_hex.
  exists (Str.take PLACEHOLDER_HEX_LEN (digest s)). destruct (digest_hex s) as [Hl Hh]. split_and!; [done | |].
  - rewrite Str.length_take, Hl. done.
  - clear Hl. revert Hh. generalize PLACEHOLDER_HEX_LEN, (digest s). induction n as [|n IH]; intros [|c t]; cbn; try done.
    intros [-> H]%andb_true_iff. by apply IH.
Qed.
Lemma mint_length s : String.length (mint s) = 44.
Proof using digest_hex.
  destruct (digest_take s) as (h & -> & Hl & _). rewrite !Str.length_app_str, Hl. done.
Qed.
Lemma hex_run_app h r : Str.forallb is_hex h = true -> hex_run (h +:+ r)%string = String.length h + hex_run r.
Proof. induction h as [|c h IH]; [done|]. cbn. intros [-> H]%andb_true_iff. by rewrite IH. Qed.
Lemma match_mint s r : match_placeholder (mint s +:+ r)%string = Some (String.length (mint s)).
Proof using digest_hex.
  rewrite mint_length. destruct (digest_take s) as (h & -> & Hl & Hh). unfold match_placeholder.
  rewrite <- Str.app_assoc_str, Str.strip_prefix_app, <- Str.app_assoc_str, hex_run_app by done.
  change (hex_run (PLACEHOLDER_CLOSE +:+ r)) with 0. rewrite Nat.add_0_r, Str.drop_app, Hl. done.
Qed.

(** The character a placeholder opens with is nowhere else in it. *)
Lemma hex_no_bracket h : Str.forallb is_hex h = true -> Str.contains_char "[" h = false.
Proof.
  induction h as [|c h IH]; [done|]. cbn [Str.forallb Str.contains_char]. intros [Hc H]%andb_true_iff. rewrite IH by done.
  rewrite orb_false_r. apply Ascii.eqb_neq. by intros <-.
Qed.
Lemma mint_head s : exists t, mint s = String "[" (String "{" t) /\ Str.contains_char "[" (String "{" t) = false.
Proof using digest_hex.
  destruct (digest_take s) as (h & -> & _ & Hh). exists (PLACEHOLDER_PREFIX +:+ (h +:+ PLACEHOLDER_CLOSE))%string.
  split; [done|]. change (Str.contains_char "[" (PLACEHOLDER_PREFIX +:+ (h +:+ PLACEHOLDER_CLOSE))%string = false).
  by rewrite !Str.contains_char_app, (hex_no_bracket h Hh).
Qed.
Lemma drop_no_char c i s d r : Str.contains_char c s = false -> Str.drop i s = String d r -> d <> c.
Proof.
  revert i. induction s as [|x s IH]; intros [|i]; cbn; try done; intros [Hx Hs]%orb_false_iff.
  - intros [= <- <-] <-. by rewrite Ascii.eqb_refl in Hx.
  - by apply IH.
Qed.
Lemma same_length (p a : string) : String.length p = String.length a -> Str.starts_with p a = true -> p = a.
Proof.
  intros Hl [r ->]%Str.starts_with_spec. rewrite Str.length_app_str in Hl. destruct r; [by rewrite Str.app_nil_r_str|].
  cbn in Hl. lia.
Qed.
Lemma comparable_mint a b i : mint a <> mint b -> i < String.length (mint a) ->
  comparable (Str.drop i (mint a)) (mint b) = false.
Proof using digest_hex.
  intros Hab Hi. unfold comparable. destruct i as [|i].
  - rewrite drop_0. pose proof (mint_length a). pose proof (mint_length b).
    apply orb_false_iff. split; apply not_true_iff_false; intros E; apply same_length in E; try congruence.
  - destruct (mint_head b) as (tb & -> & _). destruct (mint_head a) as (ta & Ea & Hta). rewrite Ea in *. cbn [Str.drop].
    destruct (Str.drop i (String "{" ta)) as [|d r] eqn:E.
    + exfalso. clear -E Hi. cbn [String.length] in Hi.
      assert (i < String.length (String "{" ta)) as Hi' by (cbn [String.length]; lia). clear Hi. revert i E Hi'.
      generalize (String "{" ta). induction s as [|c s IH]; intros [|i] E Hi; cbn in *; try lia; [done|].
      by apply (IH i); [|lia].
    + pose proof (drop_no_char "[" _ _ _ _ Hta E) as Hd. cbn [Str.starts_with]. apply Ascii.eqb_neq in Hd.
      by rewrite Hd, (Ascii.eqb_sym "[" d), Hd.
Qed.
Lemma mint_apart a b : mint a <> mint b -> apart (mint a) (mint b).
Proof using digest_hex. intros H. split; intros i; by apply comparable_mint. Qed.

(** What may follow a literal: nothing, or a placeholder. *)
Definition opens (r : string) : Prop := r = ""%string \/ exists s b, r = (mint s +:+ b)%string.
Lemma literal_no_open l r : free PLACEHOLDER_OPEN l -> opens r -> l <> ""%string ->
  Str.starts_with PLACEHOLDER_OPEN (l +:+ r)%string = false.
Proof using digest_hex.
  intros Hl Hr Hne. apply not_true_iff_false. intros E. destruct l as [|c [|d l]]; [done | |].
  - destruct Hr as [->|(s & b & ->)]; [by destruct c as [[][][][][][][][]]|].
    destruct (mint_head s) as (t & Et & _). rewrite Et, !Str.app_cons_str in E. cbn in E.
    by apply andb_true_iff in E as [_ E].
  - unfold free in Hl. cbn [Str.contains] in Hl. apply orb_false_iff in Hl as [Hl _].
    rewrite !Str.app_cons_str in E. cbn in E, Hl. congruence.
Qed.
Lemma free_tail p c s : free p (String c s) -> free p s.
Proof. unfold free. cbn. by intros [_ H]%orb_false_iff. Qed.
Lemma open_mint s p : Str.starts_with PLACEHOLDER_OPEN p = false -> Str.starts_with (mint s) p = false.
Proof using digest_hex.
  destruct (mint_head s) as (t & -> & _). intros H. apply not_true_iff_false. intros [r ->]%Str.starts_with_spec.
  by rewrite !Str.app_cons_str in H.
Qed.
Lemma replace_literal s to l r : free PLACEHOLDER_OPEN l -> opens r ->
  Str.replace_go (mint s) to 0 (l +:+ r)%string = (l +:+ Str.replace_go (mint s) to 0 r)%string.
Proof using digest_hex.
  intros Hl Hr. induction l as [|c l IH]; [done|].
  pose proof (literal_no_open _ _ Hl Hr ltac:(done)) as H. apply (open_mint s) in H.
  rewrite !Str.app_cons_str in *. cbn [Str.replace_go]. rewrite H. f_equal. by apply IH, (free_tail _ c).
Qed.
Lemma find_literal l r : free PLACEHOLDER_OPEN l -> opens r -> find_go 0 (l +:+ r)%string = find_go 0 r.
Proof using digest_hex.
  intros Hl Hr. induction l as [|c l IH]; [done|].
  pose proof (literal_no_open _ _ Hl Hr ltac:(done)) as H. rewrite Str.app_cons_str in *. cbn [find_go].
  assert (match_placeholder (String c (l +:+ r)) = None) as ->; [|by apply IH, (free_tail _ c)].
  unfold match_placeholder. destruct (Str.strip_prefix _ _) as [x|] eqn:E; [|done].
  apply Str.strip_prefix_spec in E. rewrite E in H. done.
Qed.
Lemma find_skip k s : find_go k s = find_go 0 (Str.drop k s).
Proof. revert k. induction s as [|c s IH]; intros [|k]; try done. apply IH. Qed.
Lemma find_token s r : find_go 0 (mint s +:+ r)%string = mint s :: find_go 0 r.
Proof using digest_hex.
  pose proof (match_mint s r) as Hm. pose proof (Str.take_app (mint s) r) as Ht. pose proof (Str.drop_app (mint s) r) as Hd.
  destruct (mint s) as [|c t] eqn:E; [by destruct (mint_head s) as (? & E' & _); rewrite E' in E|].
  rewrite Str.app_cons_str in *. cbn [find_go]. rewrite Hm, Ht, find_skip. cbn [String.length].
  rewrite Nat.sub_succ, Nat.sub_0_r, Str.drop_app. done.
Qed.

Definition open_free (d : Doc) : Prop := Forall (free PLACEHOLDER_OPEN) (literals d).
Lemma opens_render ts l : exists r, render mint (l, ts) = (l +:+ r)%string /\ opens r.
Proof.
  destruct ts as [|[t k] ts]; [exists ""%string | eexists; rewrite render_cons]; split; try done; [by left|].
  right. by eexists _, _.
Qed.
Lemma find_placeholders_render d : open_free d -> find_placeholders (render mint d) = map mint (tokens d).
Proof using digest_hex.
  destruct d as [a ts]. unfold find_placeholders, open_free, literals, tokens. cbn [fst snd]. revert a.
  induction ts as [|[t l] ts IH]; intros a H; inversion H; subst.
  - unfold render. cbn. rewrite find_literal by (done || by left). done.
  - rewrite render_cons, find_literal, find_token by (done || (right; by eexists _, _)). cbn. f_equal. by apply IH.
Qed.
(** Revealing one secret turns every one of its placeholders back, and touches
    nothing else. *)
Lemma swap_render o d : open_free d -> (forall t, t ∈ tokens d -> mint o = mint t -> o = t) ->
  Str.replace (mint o) o (render mint d) = render (fun t => if decide (t = o) then o else mint t) d.
Proof using digest_hex.
  destruct d as [a ts]. unfold Str.replace, open_free, literals, tokens. cbn [fst snd]. revert a.
  induction ts as [|[t l] ts IH]; intros a H Hinj; inversion H; subst.
  - change (Str.replace_go (mint o) o 0 (a +:+ "")%string = (a +:+ "")%string).
    by rewrite replace_literal by (done || by left).
  - rewrite !render_cons, replace_literal by (done || (right; by eexists _, _)). f_equal.
    assert (IH' := IH l ltac:(done) ltac:(intros; apply Hinj; [by right | done])). clear IH.
    destruct (decide (t = o)) as [->|Hne].
    + pose proof (Str.starts_with_spec (mint o) (mint o +:+ render mint (l, ts))) as Hs.
      pose proof (Str.drop_app (mint o) (render mint (l, ts))) as Hd.
      rewrite <- IH'. clear IH'. set (go := Str.replace_go (mint o) o). set (rest := render mint (l, ts)) in *.
      assert (Hskip : forall k s, go k s = go 0 (Str.drop k s)).
      { intros k s. revert k. induction s as [|x s IHs]; intros [|k]; try done. apply IHs. }
      assert (Str.starts_with (mint o) (mint o +:+ rest) = true) as Hst by (apply Hs; by eexists).
      unfold go at 1. destruct (mint o) as [|c m] eqn:E; [by destruct (mint_head o) as (? & E' & _); rewrite E' in E|].
      rewrite Str.app_cons_str in *. cbn [Str.replace_go]. rewrite Hst. fold go. rewrite Hskip. cbn [String.length].
      by rewrite Nat.sub_succ, Nat.sub_0_r, Str.drop_app.
    + rewrite replace_enters; [by rewrite IH'|]. apply mint_apart. intros E. apply Hne. symmetry.
      apply Hinj; [by left | done].
Qed.

(** The text with the secrets of [D] back in their places. *)
Fixpoint inlined (D : list string) (a : string) (ts : list (string * string)) : Doc :=
  match ts with
  | [] => (a, [])
  | (t, l) :: ts =>
      if decide (t ∈ D) then inlined D (a +:+ (t +:+ l))%string ts
      else let (l, us) := inlined D l ts in (a, (t, l) :: us)
  end.
Definition shown (D : list string) (g : string -> string) (t : string) : string :=
  if decide (t ∈ D) then t else g t.
Lemma render_prefix g a b ts : render g ((a +:+ b)%string, ts) = (a +:+ render g (b, ts))%string.
Proof. unfold render. cbn [fst snd]. by rewrite Str.app_assoc_str. Qed.
Lemma inlined_render D g a ts : render g (inlined D a ts) = render (shown D g) (a, ts).
Proof.
  revert a. induction ts as [|[t l] ts IH]; intros a; [done|]. rewrite render_cons. cbn [inlined]. unfold shown at 1.
  destruct (decide (t ∈ D)) as [H|H].
  - by rewrite IH, !render_prefix.
  - specialize (IH l). destruct (inlined D l ts) as [l' us]. by rewrite render_cons, IH.
Qed.
Lemma inlined_tokens D a ts t : t ∈ tokens (inlined D a ts) -> t ∈ tokens (a, ts).
Proof.
  unfold tokens. cbn [snd]. revert a. induction ts as [|[u l] ts IH]; intros a; [done|]. cbn [inlined].
  destruct (decide (u ∈ D)); [intros H; right; by apply (IH _ H)|].
  specialize (IH l). destruct (inlined D l ts) as [l' us]. cbn. intros [->|H]%elem_of_cons; [by left | right; by apply IH].
Qed.
Lemma render_ext g h d : (forall t, t ∈ tokens d -> g t = h t) -> render g d = render h d.
Proof.
  destruct d as [a ts]. unfold tokens, render. cbn [fst snd]. intros H. f_equal. f_equal.
  apply map_ext_in. intros [t l] Hin%list_elem_of_In. cbn. f_equal. apply H. apply list_elem_of_fmap. by exists (t, l).
Qed.

Lemma reveal_step D o d : free PLACEHOLDER_OPEN (render plain d) ->
  (forall t, t ∈ tokens d -> mint o = mint t -> o = t) ->
  Str.replace (mint o) o (render (shown D mint) d) = render (shown (o :: D) mint) d.
Proof using digest_hex.
  intros Hfree Hinj. destruct d as [a ts]. rewrite <- inlined_render, swap_render, inlined_render.
  - apply render_ext. intros t _. unfold shown. destruct (decide (t ∈ D)) as [H|H].
    + by rewrite decide_True by (by right).
    + destruct (decide (t = o)) as [->|Hne]; [by rewrite decide_True by (by left)|].
      by rewrite decide_False by (intros [->|]%elem_of_cons; done).
  - apply free_literals. rewrite inlined_render. rewrite (render_ext _ plain); [done|].
    intros t _. unfold shown, plain. by case_decide.
  - intros t Ht. by apply Hinj, (inlined_tokens D).
Qed.
Lemma reveal_steps os D d : free PLACEHOLDER_OPEN (render plain d) ->
  (forall o t, o ∈ os -> t ∈ tokens d -> mint o = mint t -> o = t) ->
  foldl reveal_one (render (shown D mint) d) (map (fun o => (mint o, o)) os) = render (shown (rev os ++ D) mint) d.
Proof using digest_hex.
  intros Hfree. revert D. induction os as [|o os IH]; intros D Hinj; [done|]. cbn [map foldl].
  unfold reveal_one at 2. cbn [fst snd]. rewrite reveal_step by (try done; intros; by apply Hinj; [left|..]).
  rewrite IH by (intros x t Hx; by apply Hinj; right). cbn [rev]. by rewrite <- app_assoc.
Qed.
Lemma reveal_all os d : free PLACEHOLDER_OPEN (render plain d) -> (forall t, t ∈ tokens d -> t ∈ os) ->
  (forall o t, o ∈ os -> t ∈ tokens d -> mint o = mint t -> o = t) ->
  foldl reveal_one (render mint d) (map (fun o => (mint o, o)) os) = render plain d.
Proof using digest_hex.
  clear CL SL. intros Hfree Hall Hinj. rewrite (render_ext mint (shown [] mint)) by (intros; unfold shown; by rewrite decide_False by set_solver).
  rewrite reveal_steps by done. apply render_ext. intros t Ht. unfold shown, plain.
  rewrite decide_True; [done|]. apply elem_of_app. left. rewrite list_elem_of_In, <- in_rev, <- list_elem_of_In. by apply Hall.
Qed.

(** *** Through the vault *)

Definition kept (os : list string) (w : W) : Prop := forall o, o ∈ os -> opened master_key (mint o) w = Some (Ok o).
Lemma store_mints_spec mints os w w' : Forall (fun m => placeholder m = mint (minted m)) mints ->
  (forall a b, a ∈ os ++ map minted mints -> b ∈ os ++ map minted mints -> mint a = mint b -> a = b) ->
  kept os w -> store_mints mints w = (w', Ok tt) -> kept (os ++ map minted mints) w'.
Proof using CL SL.
  clear digest_hex scan_injection hash_order. intros Hp. revert os w. induction Hp as [|m mints Hm Hp IH]; intros os w Hinj Hk.
  - cbn. intros [= <-]. by rewrite app_nil_r.
  - cbn [map] in *. unfold store_mints in *. cbn [each]. unfold bind at 1.
    destruct (store_secret master_key (placeholder m) (minted m) w) as [w1 [[]|e]] eqn:E; [|done].
    apply store_secret_spec in E as (d & Ed & Hd). rewrite cons_middle, app_assoc in *. apply IH; [done|].
    intros o Ho. unfold opened. rewrite Ed, Hm in *. destruct (decide (mint o = mint (minted m))) as [E|E].
    + apply Hinj in E; [subst o | set_solver..]. rewrite lookup_insert_eq. cbn [fmap option_fmap option_map]. by rewrite Hd.
    + rewrite lookup_insert_ne by done. apply Hk. set_solver.
Qed.
Lemma resolve_spec os w : kept os w ->
  match (resolve (map mint os) w).2 with
  | Ok found => found = map (fun o => (mint o, o)) os
  | Err e => exists m, e = Storage m
  end.
Proof using CL SL.
  revert w. induction os as [|o os IH]; intros w Hk; [done|]. cbn [map resolve]. unfold bind at 1.
  destruct (get_secret master_key (mint o) w) as [w1 [s|e]] eqn:E; cbn [snd].
  - apply get_secret_spec in E as [Hw Hs]. rewrite Hk in Hs by (by left). destruct s as [s|]; [|done].
    injection Hs as <-. assert (kept os w1) as Hk1 by (intros x Hx; unfold opened; rewrite Hw; apply Hk; by right).
    specialize (IH w1 Hk1). unfold bind. destruct (resolve (map mint os) w1) as [w2 [rest|e]]; [|done].
    cbn in *. by rewrite IH.
  - apply get_secret_fails in E as [H|H]; [exact H|]. rewrite Hk in H by (by left). discriminate.
Qed.

(** The secrets behind a list of placeholders. *)
Lemma unmint (ts ps : list string) : (forall p, p ∈ ps -> p ∈ map mint ts) ->
  exists os, ps = map mint os /\ forall o, o ∈ os -> o ∈ ts.
Proof.
  clear digest_hex scan_injection hash_order CL SL. induction ps as [|p ps IH]; intros H; [exists []; set_solver|].
  destruct IH as (os & -> & Hos); [set_solver|].
  destruct (proj1 (list_elem_of_fmap _ _ _) (H p ltac:(left))) as (o & -> & Ho). exists (o :: os).
  split; [done|]. intros x [->|Hx]%elem_of_cons; [done | by apply Hos].
Qed.

Context (hash_perm : forall (A : Type) (l : list A), hash_order A l ≡ₚ l).

(** C10: Taking the secrets out of a text and putting them back loses nothing and
    leaks nothing.  For a text in which the opening of a placeholder does not
    occur at all (no earlier placeholder, no JSON array of objects), whose
    secrets cannot run into a placeholder and have digests of their own: once the
    text went out sanitized, no secret found by a rule that redacts is left in it
    (what a rule that blocks finds is not taken out here), and from any state of
    the vault with the same entries revealing it gives the very text back; the
    only way to fail is the store's. *)
Theorem secrets_round_trip (text out : string) (w w1 w2 : W) :
  free PLACEHOLDER_OPEN text -> separable text ->
  (forall a b, a ∈ originals text -> b ∈ originals text -> mint a = mint b -> a = b) ->
  sanitize_text text w = (w1, Ok out) -> entries w2 = entries w1 ->
  (forall o, o ∈ originals text -> free o out) /\
  match (reveal_in_text out w2).2 with
  | Ok back => back = text
  | Err e => exists m, e = Storage m
  end.
Proof using digest_hex CL SL hash_perm.
  intros Hfree Hsep Hinj Hout Hw. destruct (sanitize_spec text Hsep) as (d & mints & Es & [Hp Ht Hl] & [Hm Hmo]).
  unfold sanitize_text in Hout. rewrite Es in Hout. unfold bind in Hout.
  destruct (store_mints mints w) as [w0 [[]|e]] eqn:Em; [|done]. injection Hout as -> <-.
  assert (kept (map minted mints) w2) as Hk.
  { intros o Ho. unfold opened. rewrite Hw. revert o Ho. apply (store_mints_spec mints [] w w1); [done | | by intros ? ?%elem_of_nil | done].
    intros a b Ha Hb. apply Hinj; by apply Hmo. }
  split.
  - intros o Ho. apply render_free; apply Forall_forall.
    + intros t Hin. by apply Hsep, Ht.
    + intros l Hin. by apply (Hl o).
  - unfold reveal_in_text. rewrite find_placeholders_render by (apply free_literals; by rewrite Hp).
    destruct (unmint (tokens d) (hash_order _ (remove_dups (map mint (tokens d))))) as (os & Eo & Hos).
    { intros p. by rewrite hash_perm, elem_of_remove_dups. }
    assert (forall t, t ∈ tokens d -> t ∈ os) as Hall.
    { intros t Hin. assert (mint t ∈ map mint os) as (o & E & Ho)%list_elem_of_fmap.
      { rewrite <- Eo, hash_perm, elem_of_remove_dups. apply list_elem_of_fmap. by exists t. }
      apply Hinj in E; [by subst | by apply Ht | by apply Ht, Hos]. }
    rewrite Eo. pose proof (resolve_spec os w2) as Hr.
    unfold bind. destruct (resolve (map mint os) w2) as [w3 [found|e]]; cbn [snd] in *.
    + rewrite Hr by (intros o Ho; by apply Hk, Hmo, Ht, Hos). cbn. rewrite reveal_all; [done | by rewrite Hp | done |].
      intros o t Ho Hin. apply Hinj; by auto.
    + apply Hr. intros o Ho. by apply Hk, Hmo, Ht, Hos.
Qed.

(** ** The gateway as the loop sees it *)

#[local] Instance as_gateway : Streaming.Gateway W := {
  sanitize_stream_fragment s w :=
    match sanitize_text s w with
    | (w, Ok s) => (w, Some s)
    | (w, Err _) => (w, None)
    end;
  Streaming.sanitize_llm_response r w := let '(w, (r, _)) := sanitize_llm_response r w in (w, r);
  detect_injection t := map warning_rule (scan_injection t);
}.
End Gateway.

#[local] Existing Instances SecretVault.Sample.signing SecretVault.Sample.memory
  SecretVault.Sample.signing_laws SecretVault.Sample.memory_laws.

(** ** A detector of one token, over the vault in memory *)

Module Sample.
Definition token : string := "sk-live-1234".
Definition find_iter (p text : string) : list string := if Str.contains p text then [p; p] else [].
Definition hex_of (c : ascii) : string := Str.map (fun _ => c) "0123456789abcdef0123456789abcdef0123456789abcdef0123456789abcdef".
Definition digest (s : string) : string := if String.eqb s token then hex_of "a" else hex_of "b".
Definition walk (A : Type) (l : list A) : list A := rev l.
Definition rules : list (LeakDetectionRule (P := string)) := [mk_rule "token" token Replace].
Definition text : string := "key=sk-live-1234, again sk-live-1234!".
Definition clean : string :=
  "key=[{REDACTED_SECRET_aaaaaaaaaaaaaaaaaaaaaaaa}], again [{REDACTED_SECRET_aaaaaaaaaaaaaaaaaaaaaaaa}]!".
Definition out := sanitize_text find_iter digest rules SecretVault.Sample.old text SecretVault.Sample.mem.
End Sample.

Lemma secrets_round_trip_witness :
  Sample.out.2 = Ok Sample.clean /\ free Sample.token Sample.clean /\
  match (reveal_in_text Sample.walk SecretVault.Sample.old Sample.clean Sample.out.1).2 with
  | Ok back => back = Sample.text
  | Err e => exists m, e = Storage m
  end.
Proof.
  assert (Sample.out.2 = Ok Sample.clean) as E by (vm_compute; reflexivity). split; [exact E|].
  assert (originals Sample.find_iter Sample.rules Sample.text = [Sample.token; Sample.token]) as Eo
    by (vm_compute; reflexivity).
  destruct (secrets_round_trip Sample.find_iter Sample.digest Sample.walk Sample.rules SecretVault.Sample.old)
    with (text := Sample.text) (out := Sample.clean) (w := SecretVault.Sample.mem) (w1 := Sample.out.1)
         (w2 := Sample.out.1) as [H1 H2].
  - intros s. unfold Sample.digest. destruct (String.eqb s Sample.token); split; vm_compute; reflexivity.
  - intros A l. symmetry. apply Permutation_rev.
  - vm_compute. reflexivity.
  - split; rewrite Eo; [|]; intros a.
    + by intros [->| [->|[]%elem_of_nil]%elem_of_cons]%elem_of_cons.
    + intros b Ha Hb. assert (a = Sample.token /\ b = Sample.token) as [-> ->] by set_solver.
      split; intros i Hi.
      * do 12 (destruct i as [|i]; [vm_compute; reflexivity|]). exfalso. revert Hi. change (String.length Sample.token) with 12. lia.
      * do 44 (destruct i as [|i]; [vm_compute; reflexivity|]). exfalso. revert Hi.
        assert (String.length (mint Sample.digest Sample.token) = 44) as -> by (vm_compute; reflexivity). lia.
  - rewrite Eo. set_solver.
  - rewrite <- E. unfold Sample.out. by destruct (sanitize_text _ _ _ _ _ _).
  - reflexivity.
  - split; [|exact H2]. apply H1. rewrite Eo. by left.
Defined.

End Security.
