(* ===== verification/ToolRegistry.v ===== *)
(** * The tool registry
      ([crates/tools/src/registry.rs], [lib.rs], [builtin/tool_search.rs],
       [crates/model/src/session.rs])

    Builtin and dynamic tools, the definitions a session is offered, the
    deferred tools it finds through [ToolSearch] and calls through
    [ToolInvoke].  A tool is a trait object: here, what its methods answer. *)

From S2P Require Import Prelude Message Wire Approval Skill.
Import Message Wire.

Module ToolRegistry.

(** ** Where a session comes from ([session.rs]) *)

Inductive TriggerSource :=
| User
| Cron (cron_job_id : string) (origin_session_id : option string) (conversation : bool)
    (job_title : option string) (project_id : option string)
| Issue (project_id issue_id : string) (number : Z).
#[export] Instance TriggerSource_eq_dec : EqDecision TriggerSource.
Proof. solve_decision. Defined.

Definition project (t : TriggerSource) : option string :=
  match t with Issue p _ _ => Some p | Cron _ _ _ _ p => p | User => None end.
Definition issue (t : TriggerSource) : option (string * string * Z) :=
  match t with Issue p i n => Some (p, i, n) | _ => None end.
Definition is_cron_conversation (t : TriggerSource) : bool :=
  match t with Cron _ _ conversation _ _ => conversation | _ => false end.
Definition can_host_background_jobs (t : TriggerSource) : bool :=
  match t with User => true | Cron _ _ _ _ _ => is_cron_conversation t | Issue _ _ _ => false end.

(** ** What a tool says of itself *)

Inductive ToolTriggerScope := Any | CronConversation | ProjectBoard | SharedWorkspace | BackgroundHost.
Definition allows_trigger (s : ToolTriggerScope) (t : TriggerSource) : bool :=
  match s with
  | Any => true
  | CronConversation => is_cron_conversation t
  | ProjectBoard => is_some (project t)
  | SharedWorkspace => negb (is_some (issue t))
  | BackgroundHost => can_host_background_jobs t
  end.
Inductive ToolConcurrency := Concurrent | Exclusive | Independent.
Record ToolDefinition := mk_def { def_name : string; def_description : string; parameters_schema : json }.

Record Tool := mk_tool {
  tool_name : string;
  description : string;
  schema : json;
  schema_for : TriggerSource -> json;
  trigger_scope : ToolTriggerScope;
  tool_concurrency : ToolConcurrency;
  tool_progress_label : json -> option string;
  accessed_resources : json -> list Approval.ResourceAccess;
  call_label : json -> option string;
}.
Definition tool_definition_for (t : Tool) : ToolDefinition := mk_def (tool_name t) (description t) (schema t).
Definition tool_definition_offered (tr : TriggerSource) (t : Tool) : ToolDefinition :=
  mk_def (tool_name t) (description t) (schema_for t tr).

Inductive ToolCapability := ReadFile | WriteFile | Http | ExecCommand.
Record ToolManifest := mk_manifest {
  manifest_name : string;
  trust_level : Skill.TrustLevel;
  capabilities : list ToolCapability;
  channels : list string;
}.
Definition allows_channel (channel : string) (m : ToolManifest) : bool :=
  bool_decide (channels m = []) || bool_decide (channel ∈ channels m).
Inductive ToolManifestTrustError := Untrusted | InstalledWriteFile | InstalledExecCommand.
Definition validate_auto_execution (m : ToolManifest) : result unit ToolManifestTrustError :=
  match trust_level m with
  | Skill.Untrusted => Err Untrusted
  | Skill.Installed =>
      match omap (fun c => match c with
                           | WriteFile => Some InstalledWriteFile
                           | ExecCommand => Some InstalledExecCommand
                           | _ => None
                           end) (capabilities m) with
      | e :: _ => Err e
      | [] => Ok tt
      end
  | Skill.Trusted => Ok tt
  end.

(** ** The registry *)

Abbreviation Tools := (gmap string Tool).
Abbreviation Manifests := (gmap string ToolManifest).
Record DynamicState := mk_dynamic {
  tools : Tools;
  manifests : Manifests;
  by_source : gmap string (list string);
  deferred : gset string;
}.
Record ToolRegistry := mk_registry {
  builtin : Tools;
  builtin_manifests : Manifests;
  dynamic : DynamicState;
}.
Definition new : ToolRegistry := mk_registry ∅ ∅ (mk_dynamic ∅ ∅ ∅ ∅).
Definition with_dynamic (d : DynamicState) (r : ToolRegistry) : ToolRegistry :=
  mk_registry (builtin r) (builtin_manifests r) d.

Definition register (t : Tool) (m : ToolManifest) (r : ToolRegistry) : ToolRegistry :=
  mk_registry (<[tool_name t := t]> (builtin r)) (<[tool_name t := m]> (builtin_manifests r)) (dynamic r).
Definition register_dynamic_inner (source : string) (t : Tool) (m : ToolManifest) (is_deferred : bool)
    (r : ToolRegistry) : ToolRegistry :=
  let d := dynamic r in
  let n := tool_name t in
  with_dynamic (mk_dynamic (<[n := t]> (tools d)) (<[n := m]> (manifests d))
    (<[source := default [] (by_source d !! source) ++ [n]]> (by_source d))
    (if is_deferred then {[n]} ∪ deferred d else deferred d ∖ {[n]})) r.
Definition register_dynamic (source : string) (t : Tool) (m : ToolManifest) : ToolRegistry -> ToolRegistry :=
  register_dynamic_inner source t m false.
Definition register_dynamic_deferred (source : string) (t : Tool) (m : ToolManifest)
    : ToolRegistry -> ToolRegistry := register_dynamic_inner source t m true.

Definition drop_name (d : DynamicState) (n : string) : DynamicState :=
  mk_dynamic (delete n (tools d)) (delete n (manifests d)) (by_source d) (deferred d ∖ {[n]}).
Definition drop_source (source : string) (d : DynamicState) : DynamicState * list string :=
  let names := default [] (by_source d !! source) in
  (foldl drop_name (mk_dynamic (tools d) (manifests d) (delete source (by_source d)) (deferred d)) names, names).
Definition add_tool (d : DynamicState) (x : Tool * ToolManifest) : DynamicState :=
  let (t, m) := x in
  mk_dynamic (<[tool_name t := t]> (tools d)) (<[tool_name t := m]> (manifests d)) (by_source d) (deferred d).
Definition replace_source (source : string) (l : list (Tool * ToolManifest)) (r : ToolRegistry)
    : ToolRegistry * list string :=
  let d := foldl add_tool (drop_source source (dynamic r)).1 l in
  let names := map (fun x => tool_name x.1) l in
  (with_dynamic (mk_dynamic (tools d) (manifests d)
     match names with [] => delete source (by_source d) | _ => <[source := names]> (by_source d) end
     (deferred d)) r, names).
Definition unregister_for_source (source : string) (r : ToolRegistry) : ToolRegistry * list string :=
  let (d, names) := drop_source source (dynamic r) in (with_dynamic d r, names).
Definition dynamic_names_for_source (source : string) (r : ToolRegistry) : list string :=
  default [] (by_source (dynamic r) !! source).

(** *** Lookup *)

Definition get_with_manifest (n : string) (r : ToolRegistry) : option (Tool * option ToolManifest) :=
  match tools (dynamic r) !! n with
  | Some t => Some (t, manifests (dynamic r) !! n)
  | None => (fun t => (t, builtin_manifests r !! n)) <$> builtin r !! n
  end.
Definition get (n : string) (r : ToolRegistry) : option Tool := fst <$> get_with_manifest n r.
Definition get_manifest (n : string) (r : ToolRegistry) : option ToolManifest :=
  match manifests (dynamic r) !! n with Some m => Some m | None => builtin_manifests r !! n end.
Definition progress_label (n : string) (params : json) (r : ToolRegistry) : option string :=
  get n r ≫= fun t => tool_progress_label t params.
Definition concurrency (n : string) (r : ToolRegistry) : ToolConcurrency :=
  match get n r with Some t => tool_concurrency t | None => Exclusive end.
Definition is_deferred (n : string) (r : ToolRegistry) : bool := bool_decide (n ∈ deferred (dynamic r)).

Definition canonical_deferred_name (d : DynamicState) (requested : string) : option string :=
  if bool_decide (requested ∈ deferred d) then Some requested
  else
    match Str.split_at_char "/" requested with
    | None => None
    | Some (source, bare) =>
        if bool_decide (bare ∈ deferred d) && bool_decide (bare ∈ default [] (by_source d !! source))
        then Some bare else None
    end.
Definition resolve_deferred_target (n : string) (r : ToolRegistry) : option string :=
  canonical_deferred_name (dynamic r) n.

(** *** The definitions on offer *)

Definition admitted (channel : string) (tr : TriggerSource) (m : option ToolManifest) (t : Tool) : bool :=
  match m with Some m => allows_channel channel m | None => true end && allows_trigger (trigger_scope t) tr.
Definition allowed (allowlist : option (list string)) (n : string) : bool :=
  match allowlist with None => true | Some l => bool_decide (n ∈ l) end.

(** [sort_by] on the names of a map's entries. *)
Definition key_le {V} (a b : string * V) : Prop := String.le a.1 b.1.
#[global] Instance key_le_dec {V} : RelDecision (key_le (V := V)).
Proof. intros a b. unfold key_le. apply _. Defined.
#[global] Instance key_le_total {V} : Total (key_le (V := V)).
Proof. intros a b. unfold key_le. apply (base.total String.le). Qed.
#[global] Instance key_le_trans {V} : Transitive (key_le (V := V)).
Proof. intros a b c. unfold key_le. apply (transitivity (R := String.le)). Qed.
Definition sort_by_key {V} : list (string * V) -> list (string * V) := merge_sort key_le.

Abbreviation Defs := (gmap string ToolDefinition).
Definition sorted_defs (m : Defs) : list ToolDefinition := map snd (sort_by_key (map_to_list m)).
Definition tool_definitions (r : ToolRegistry) : list ToolDefinition :=
  let note defs (x : string * Tool) := <[tool_name x.2 := tool_definition_for x.2]> defs in
  sorted_defs (foldl note (foldl note ∅ (map_to_list (builtin r))) (map_to_list (tools (dynamic r)))).

Definition offer_builtin (channel : string) (tr : TriggerSource) (allowlist : option (list string))
    (r : ToolRegistry) (defs : Defs) (x : string * Tool) : Defs :=
  let (n, t) := x in
  if admitted channel tr (builtin_manifests r !! n) t && allowed allowlist n
  then <[tool_name t := tool_definition_offered tr t]> defs else defs.
Definition withheld (allowlist : option (list string)) (d : DynamicState) (n : string) : bool :=
  bool_decide (n ∈ deferred d) && negb (match allowlist with None => false | Some l => bool_decide (n ∈ l) end).
Definition offer_dynamic (channel : string) (tr : TriggerSource) (allowlist : option (list string))
    (d : DynamicState) (defs : Defs) (x : string * Tool) : Defs :=
  let (n, t) := x in
  if admitted channel tr (manifests d !! n) t && allowed allowlist n && negb (withheld allowlist d n)
  then <[tool_name t := tool_definition_offered tr t]> defs else delete n defs.
Definition offered (channel : string) (tr : TriggerSource) (allowlist : option (list string))
    (r : ToolRegistry) : Defs :=
  foldl (offer_dynamic channel tr allowlist (dynamic r))
    (foldl (offer_builtin channel tr allowlist r) ∅ (map_to_list (builtin r)))
    (map_to_list (tools (dynamic r))).
Definition tool_definitions_for_session (channel : string) (tr : TriggerSource)
    (allowlist : option (list string)) (r : ToolRegistry) : list ToolDefinition :=
  sorted_defs (offered channel tr allowlist r).

(** *** The deferred index *)

Definition directory_le (a b : string * ToolDefinition) : Prop :=
  if decide (a.1 = b.1) then String.le (def_name a.2) (def_name b.2) else String.le a.1 b.1.
#[global] Instance directory_le_dec : RelDecision directory_le.
Proof. intros a b. unfold directory_le. destruct (decide (a.1 = b.1)); apply _. Defined.
Definition visible_with_source (channel : string) (tr : TriggerSource) (r : ToolRegistry)
    : list (string * ToolDefinition) :=
  let d := dynamic r in
  let shown source n :=
    if bool_decide (n ∈ deferred d) then
      match tools d !! n with
      | Some t => if admitted channel tr (manifests d !! n) t
                  then Some (source, tool_definition_offered tr t) else None
      | None => None
      end
    else None in
  merge_sort directory_le
    (concat (map (fun x => omap (shown x.1) x.2) (map_to_list (by_source d)))).

Inductive DeferredLookup := Visible (d : ToolDefinition) | OutOfScope | Eager | Unknown.
Definition lookup (n channel : string) (tr : TriggerSource) (r : ToolRegistry) : DeferredLookup :=
  let d := dynamic r in
  let n := match tools d !! n with Some _ => n | None => default n (canonical_deferred_name d n) end in
  match tools d !! n with
  | None => Unknown
  | Some t =>
      if negb (admitted channel tr (manifests d !! n) t) then OutOfScope
      else if negb (bool_decide (n ∈ deferred d)) then Eager
      else Visible (tool_definition_offered tr t)
  end.

(** *** [ToolSearch] by exact names ([tool_search.rs]) *)

Definition TOOL_INVOKE_NAME : string := "ToolInvoke".
Definition field (k v : string) : string * json := (k, JString v).
Definition search_entry (n channel : string) (tr : TriggerSource) (r : ToolRegistry) : json :=
  match lookup n channel tr r with
  | Visible d => JObject [field "name" (def_name d); field "description" (def_description d);
                       ("parameters_schema"%string, parameters_schema d); field "call_with" TOOL_INVOKE_NAME]
  | OutOfScope => JObject [field "name" n; field "error"
      "registered but not available to this session (channel or trigger scope)"]
  | Eager => JObject [field "name" n; field "note"
      ("not deferred " +:+ Str.bytes [226; 128; 148]%N
       +:+ " this tool is already in your tool list; call it directly")%string]
  | Unknown => JObject [field "name" n; field "error"
      "no such deferred tool; if it is not in your tool list either, the name is wrong or its server is disconnected"]
  end.
Fixpoint exact_search (names : list string) (shown max_results : nat) (channel : string)
    (tr : TriggerSource) (r : ToolRegistry) : list json :=
  match names with
  | [] => []
  | raw :: names =>
      let n := Str.trim raw in
      if String.eqb n "" then exact_search names shown max_results channel tr r
      else
        (if Nat.leb max_results shown
         then JObject [field "name" n; field "note" "over max_results budget; fetch in a follow-up exact call"]
         else search_entry n channel tr r)
        :: exact_search names (S shown) max_results channel tr r
  end.

(** *** [ToolInvoke] ([DispatchedToolCall::resolve] in
        [crates/agent/src/runtime/agent_loop.rs]) *)

Record DispatchedToolCall := mk_dispatch { dc_name : string; dc_arguments : json; via_invoke : bool }.
Definition resolve (name : string) (arguments : json) (r : ToolRegistry) : DispatchedToolCall :=
  let plain := mk_dispatch name arguments false in
  if String.eqb name TOOL_INVOKE_NAME then
    match Str.trim <$> Json.get_str arguments "name" with
    | Some raw =>
        if String.eqb raw "" then plain
        else
          let target := match resolve_deferred_target raw r with
                        | Some n => Some n
                        | None => if Str.contains_char "/" raw then Some raw else None
                        end in
          match target with
          | Some n => mk_dispatch n (default (JObject []) (Json.get arguments "params")) true
          | None => plain
          end
    | None => plain
    end
  else plain.

(** ** The registry's histories *)

Inductive op :=
| Register (t : Tool) (m : ToolManifest)
| RegisterDynamic (source : string) (t : Tool) (m : ToolManifest) (is_deferred : bool)
| ReplaceSource (source : string) (l : list (Tool * ToolManifest))
| UnregisterSource (source : string).
Definition run_op (r : ToolRegistry) (o : op) : ToolRegistry :=
  match o with
  | Register t m => register t m r
  | RegisterDynamic source t m is_deferred => register_dynamic_inner source t m is_deferred r
  | ReplaceSource source l => (replace_source source l r).1
  | UnregisterSource source => (unregister_for_source source r).1
  end.
Definition run (os : list op) : ToolRegistry := foldl run_op new os.

Definition named (m : Tools) : Prop := map_Forall (fun n t => tool_name t = n) m.
Record dynamic_ok (d : DynamicState) : Prop := mk_ok {
  ok_named : named (tools d);
  ok_deferred n : n ∈ deferred d -> is_Some (tools d !! n);
}.
Definition registry_ok (r : ToolRegistry) : Prop := named (builtin r) /\ dynamic_ok (dynamic r).

Lemma ok_same_tools d d' : tools d' = tools d -> deferred d' = deferred d -> dynamic_ok d -> dynamic_ok d'.
Proof. intros Et Ed [H1 H2]. split; rewrite Et; [exact H1 | by rewrite Ed]. Qed.
Lemma ok_drop_name d n : dynamic_ok d -> dynamic_ok (drop_name d n).
Proof.
  intros [H1 H2]. split; cbn.
  - intros k t [_ Hk]%lookup_delete_Some. by apply H1.
  - intros k [Hk Hn]%elem_of_difference. rewrite lookup_delete_ne by set_solver. by apply H2.
Qed.
Lemma ok_drop_source source d : dynamic_ok d -> dynamic_ok (drop_source source d).1.
Proof.
  intros H. unfold drop_source. cbn [fst]. set (d0 := mk_dynamic _ _ _ _).
  assert (dynamic_ok d0) as H0 by (by apply (ok_same_tools d)). revert H0. generalize d0.
  induction (default [] (by_source d !! source)) as [|n l IH]; intros d1 H1; [exact H1|].
  by apply IH, ok_drop_name.
Qed.
Lemma ok_add_tool d x : dynamic_ok d -> dynamic_ok (add_tool d x).
Proof.
  destruct x as [t m]. intros [H1 H2]. split; cbn.
  - by apply map_Forall_insert_2.
  - intros n Hn. destruct (decide (n = tool_name t)) as [->|Hne]; [rewrite lookup_insert_eq; eauto|].
    rewrite lookup_insert_ne by done. by apply H2.
Qed.
Lemma catalog_run_op r o : registry_ok r -> registry_ok (run_op r o).
Proof.
  intros [Hb Hd]. destruct o as [t m|source t m def|source l|source]; cbn [run_op].
  - split; [by apply map_Forall_insert_2 | exact Hd].
  - split; [exact Hb|]. cbn. destruct (ok_add_tool _ (t, m) Hd) as [H1 H2]. split; [exact H1|]. cbn in *.
    intros n Hn. destruct (decide (n = tool_name t)) as [->|Hne]; [rewrite lookup_insert_eq; eauto|].
    apply H2. destruct def; set_solver.
  - split; [exact Hb|]. unfold replace_source. cbn [fst with_dynamic dynamic].
    apply (ok_same_tools (foldl add_tool (drop_source source (dynamic r)).1 l)); [done..|].
    pose proof (ok_drop_source source _ Hd) as H. revert H. generalize (drop_source source (dynamic r)).1.
    induction l as [|x l IH]; intros d H; [exact H|]. by apply IH, ok_add_tool.
  - split; [exact Hb|]. unfold unregister_for_source.
    pose proof (ok_drop_source source _ Hd) as H. by destruct (drop_source source (dynamic r)).
Qed.
Lemma catalog_run os : registry_ok (run os).
Proof.
  unfold run. assert (registry_ok new) as H by (by repeat split). revert H. generalize new.
  induction os as [|o os IH]; intros r H; [exact H|]. by apply IH, catalog_run_op.
Qed.

(** ** What is offered *)

(** A pass over a map's entries that touches each at its own name. *)
Lemma fold_entries {V} (step : Defs -> string * V -> Defs) (val : string -> V -> option ToolDefinition -> option ToolDefinition)
    (m : gmap string V) (defs : Defs) (n : string) :
  (forall k v d, m !! k = Some v -> step d (k, v) !! k = val k v (d !! k)) ->
  (forall k v d, m !! k = Some v -> n <> k -> step d (k, v) !! n = d !! n) ->
  foldl step defs (map_to_list m) !! n
  = match m !! n with Some v => val n v (defs !! n) | None => defs !! n end.
Proof.
  intros Hown Hother. rewrite <- (list_to_map_to_list m) at 2.
  assert (forall k v, (k, v) ∈ map_to_list m -> m !! k = Some v) as Hin by (intros; by apply elem_of_map_to_list).
  pose proof (NoDup_fst_map_to_list m) as Hnd. revert Hin Hnd. generalize (map_to_list m) as l.
  intros l. revert defs. induction l as [|[k v] l IH]; intros defs Hin Hnd; [cbn; by rewrite lookup_empty|].
  apply NoDup_cons in Hnd as [Hk Hnd]. cbn [foldl]. rewrite IH; [|intros; by apply Hin; right | exact Hnd].
  cbn [list_to_map foldr fst snd]. destruct (decide (n = k)) as [->|Hne].
  - rewrite lookup_insert_eq, (not_elem_of_list_to_map_1 l) by exact Hk. apply Hown, Hin. by left.
  - rewrite lookup_insert_ne by done. rewrite Hother; [done | apply Hin; by left | done].
Qed.

Section Offer.
Context (channel : string) (tr : TriggerSource) (allowlist : option (list string)).

Lemma offered_lookup r n : registry_ok r ->
  offered channel tr allowlist r !! n
  = match get_with_manifest n r with
    | Some (t, m) =>
        if admitted channel tr m t && allowed allowlist n && negb (withheld allowlist (dynamic r) n)
        then Some (tool_definition_offered tr t) else None
    | None => None
    end.
Proof.
  intros [Hb [Hd Hdef]]. unfold offered, get_with_manifest.
  rewrite (fold_entries _ (fun n t _ => if admitted channel tr (manifests (dynamic r) !! n) t
      && allowed allowlist n && negb (withheld allowlist (dynamic r) n)
    then Some (tool_definition_offered tr t) else None)).
  - destruct (tools (dynamic r) !! n) as [t|] eqn:Et; [done|].
    rewrite (fold_entries _ (fun n t old => if admitted channel tr (builtin_manifests r !! n) t
      && allowed allowlist n then Some (tool_definition_offered tr t) else old)).
    + destruct (builtin r !! n) as [t|]; [|by rewrite lookup_empty]. cbn [fmap option_fmap option_map].
      rewrite lookup_empty. replace (withheld allowlist (dynamic r) n) with false; [by rewrite andb_true_r|].
      unfold withheld. rewrite bool_decide_eq_false_2; [done|]. intros [? H]%Hdef. congruence.
    + intros k t d Hk. cbn. rewrite (Hb k t Hk). destruct (_ && _); [by rewrite lookup_insert_eq | done].
    + intros k t d Hk Hne. cbn. rewrite (Hb k t Hk). destruct (_ && _); [by rewrite lookup_insert_ne | done].
  - intros k t d Hk. cbn. rewrite (Hd k t Hk).
    destruct (_ && _); [by rewrite lookup_insert_eq | by rewrite lookup_delete_eq].
  - intros k t d Hk Hne. cbn. rewrite (Hd k t Hk).
    destruct (_ && _); [by rewrite lookup_insert_ne | by rewrite lookup_delete_ne].
Qed.

Lemma get_named r n t m : registry_ok r -> get_with_manifest n r = Some (t, m) -> tool_name t = n.
Proof.
  intros [Hb [Hd _]]. unfold get_with_manifest. destruct (tools (dynamic r) !! n) as [t'|] eqn:E.
  - intros [= <- _]. by apply Hd.
  - destruct (builtin r !! n) as [t'|] eqn:Eb; [|done]. cbn. intros [= <- _]. by apply Hb.
Qed.

Lemma offered_named r n d : registry_ok r -> offered channel tr allowlist r !! n = Some d -> def_name d = n.
Proof.
  intros Hok. rewrite offered_lookup by done. destruct (get_with_manifest n r) as [[t m]|] eqn:E; [|done].
  destruct (_ && _); [|done]. intros [= <-]. cbn. by eapply get_named.
Qed.
Lemma offered_names r : registry_ok r ->
  map def_name (tool_definitions_for_session channel tr allowlist r)
  = map fst (sort_by_key (map_to_list (offered channel tr allowlist r))).
Proof.
  intros H. unfold tool_definitions_for_session, sorted_defs. rewrite map_map. apply map_ext_in.
  intros [n d] Hin%list_elem_of_In. unfold sort_by_key in Hin. rewrite merge_sort_Permutation in Hin.
  apply elem_of_map_to_list in Hin. by apply (offered_named r).
Qed.

(** What a session is offered is what it may call.  After any history of
    registrations, replacements and removals, a definition is in the session's
    tool block exactly when looking its name up finds the tool it describes,
    that tool's manifest and trigger scope admit the session, and its schema is
    not withheld, i.e. not deferred unless the session's allowlist names it; and
    the block comes sorted, each name once. *)
Theorem offer_matches_lookup (os : list op) :
  let r := run os in
  let block := tool_definitions_for_session channel tr allowlist r in
  (forall d, d ∈ block <->
     exists t m, get_with_manifest (def_name d) r = Some (t, m) /\ d = tool_definition_offered tr t
       /\ admitted channel tr m t = true /\ allowed allowlist (def_name d) = true
       /\ withheld allowlist (dynamic r) (def_name d) = false)
  /\ StronglySorted String.le (map def_name block) /\ NoDup (map def_name block).
Proof.
  cbv zeta. pose proof (catalog_run os) as Hok. generalize dependent (run os). intros r Hok. split_and!.
  - intros d. unfold tool_definitions_for_session, sorted_defs. split.
    + intros ([n d'] & -> & Hin)%list_elem_of_fmap. unfold sort_by_key in Hin. rewrite merge_sort_Permutation in Hin.
      apply elem_of_map_to_list in Hin. cbn [snd]. rewrite (offered_named r n d' Hok Hin) in *.
      rewrite offered_lookup in Hin by done. destruct (get_with_manifest n r) as [[t m]|]; [|done].
      destruct (_ && _) eqn:E; [|done]. injection Hin as <-.
      apply andb_true_iff in E as [[E1 E2]%andb_true_iff E3%negb_true_iff]. by exists t, m.
    + intros (t & m & Hg & -> & H1 & H2 & H3). apply list_elem_of_fmap.
      exists (def_name (tool_definition_offered tr t), tool_definition_offered tr t). split; [done|].
      unfold sort_by_key. rewrite merge_sort_Permutation. apply elem_of_map_to_list.
      rewrite offered_lookup by done. by rewrite Hg, H1, H2, H3.
  - rewrite offered_names by done.
    pose proof (StronglySorted_merge_sort key_le (map_to_list (offered channel tr allowlist r))) as Hs.
    unfold sort_by_key. induction Hs as [|x l Hs IH Hf]; cbn; constructor; [exact IH|]. apply Forall_map. exact Hf.
  - rewrite offered_names by done. unfold sort_by_key.
    rewrite (Permutation_map fst (merge_sort_Permutation key_le _)). apply NoDup_fst_map_to_list.
Qed.

(** What [ToolSearch] lists, [ToolInvoke] reaches.  Every deferred tool in
    the directory of a session resolves by its name and, where the name has no
    namespace of its own, by the [source/name] spelling the directory suggests;
    looking it up there shows the same definition; and nothing but a deferred
    tool is ever resolved to. *)
Theorem directory_resolves (os : list op) (source : string) (d : ToolDefinition) (n : string) :
  let r := run os in
  ((source, d) ∈ visible_with_source channel tr r ->
   let name := def_name d in
   resolve_deferred_target name r = Some name
   /\ lookup name channel tr r = Visible d
   /\ (Str.contains_char "/" source = false ->
      resolve_deferred_target (source +:+ "/" +:+ name)%string r
      = Some (if is_deferred (source +:+ "/" +:+ name)%string r then (source +:+ "/" +:+ name)%string else name)))
  /\ (forall target, resolve_deferred_target n r = Some target -> is_deferred target r = true).
Proof.
  cbv zeta. destruct (catalog_run os) as [_ [Hd _]]. generalize dependent (run os). intros r Hd. split.
  - intros Hin. unfold visible_with_source in Hin. rewrite merge_sort_Permutation in Hin.
    apply list_elem_of_In, in_concat in Hin as (l & Hl & Hin).
    apply in_map_iff in Hl as ([src names] & <- & Hs%list_elem_of_In%elem_of_map_to_list).
    apply list_elem_of_In, list_elem_of_omap in Hin as (k & Hk & E). cbn in Hk, E.
    destruct (bool_decide (k ∈ deferred (dynamic r))) eqn:Edef; [|done].
    destruct (tools (dynamic r) !! k) as [t|] eqn:Et; [|done].
    destruct (admitted channel tr _ t) eqn:Ea; [|done]. injection E as -> <-. cbn. rewrite (Hd k t Et).
    apply bool_decide_eq_true in Edef. apply list_elem_of_In in Hk. split_and!.
    + unfold resolve_deferred_target, canonical_deferred_name. by rewrite bool_decide_eq_true_2.
    + unfold lookup. cbv zeta. rewrite Et. cbv iota. rewrite Et, Ea. cbn. by rewrite bool_decide_eq_true_2.
    + intros Hsrc. unfold resolve_deferred_target, is_deferred, canonical_deferred_name.
      destruct (bool_decide (_ ∈ deferred (dynamic r))) eqn:E1; [done|].
      rewrite Str.split_at_char_app by done. rewrite (bool_decide_eq_true_2 (k ∈ deferred (dynamic r))) by done.
      rewrite Hs. cbn. rewrite bool_decide_eq_true_2; [done | by apply list_elem_of_In].
  - intros target. unfold resolve_deferred_target, is_deferred, canonical_deferred_name.
    destruct (bool_decide (n ∈ deferred (dynamic r))) eqn:E1; [by intros [= <-]|].
    destruct (Str.split_at_char "/" n) as [[src bare]|]; [|done].
    destruct (bool_decide (bare ∈ deferred (dynamic r))) eqn:E2; [|done].
    cbn [andb]. destruct (bool_decide (_ ∈ default _ _)); [|done]. by intros [= <-].
Qed.
End Offer.
End ToolRegistry.
