(* ===== verification/ToolTrace.v ===== *)
(** * What a tool call leaves in the trace
      ([crates/agent/src/runtime/tool_executor.rs], [crates/trace/src/event.rs],
       [span.rs])

    The events a tool reports while it runs, the reason a failed call is
    labelled with, and the copy of its output the span keeps: every text is cut
    to a bound, at a character boundary, before it is stored. *)

From S2P Require Import Prelude Message Tokens ProgressLedger Effect ContextManager PromptUpdate Upkeep.
Import Message.

Module ToolTrace.

Definition bytes (s : string) : N := N.of_nat (String.length s).

(** ** Tool events ([event.rs]) *)

Definition SPAN_EVENT_TEXT_MAX_BYTES : N := 4 * 1024.
Inductive ToolEventPayload :=
| Phase (duration_ms : N)
| HttpFetch (status nbytes : N) (content_type body_preview : option string)
| LlmCall (model input output : string)
| ParseFailure (command : string).

Definition truncate_field (s : string) : string :=
  if (bytes s <=? SPAN_EVENT_TEXT_MAX_BYTES)%N then s
  else
    let cut := Str.char_cut s (N.to_nat SPAN_EVENT_TEXT_MAX_BYTES) in
    (Str.take cut s +:+ newline +:+ "… [truncated, " +:+ pretty (bytes s) +:+ " bytes total]")%string.
Definition truncate_text_fields (p : ToolEventPayload) : ToolEventPayload :=
  match p with
  | Phase d => Phase d
  | HttpFetch s n content_type body_preview =>
      HttpFetch s n (truncate_field <$> content_type) (truncate_field <$> body_preview)
  | LlmCall model input output =>
      LlmCall (truncate_field model) (truncate_field input) (truncate_field output)
  | ParseFailure command => ParseFailure (truncate_field command)
  end.

(** ** The recorder of one call ([tool_executor.rs]) *)

Definition TOOL_EVENTS_MAX_PAYLOAD_BYTES : N := 64 * 1024 * 1024.
Definition payload_text_bytes (p : ToolEventPayload) : N :=
  match p with
  | Phase _ => 0
  | HttpFetch _ _ content_type body_preview =>
      default 0 (bytes <$> content_type) + default 0 (bytes <$> body_preview)
  | LlmCall model input output => bytes model + bytes input + bytes output
  | ParseFailure command => bytes command
  end%N.
Record SpanEventRecorder := mk_recorder { items : list (string * ToolEventPayload); text_bytes : N }.
Definition new_recorder : SpanEventRecorder := mk_recorder [] 0.
Definition USIZE_MAX : N := 2 ^ 64 - 1.
Definition saturating_add (a b : N) : N := N.min (a + b) USIZE_MAX.
Definition saturating_mul (a b : N) : N := N.min (a * b) USIZE_MAX.
Definition emit (r : SpanEventRecorder) (e : string * ToolEventPayload) : SpanEventRecorder :=
  let (action, payload) := e in
  let payload := truncate_text_fields payload in
  let cost := (bytes action + payload_text_bytes payload)%N in
  if (TOOL_EVENTS_MAX_PAYLOAD_BYTES <? saturating_add (text_bytes r) cost)%N then r
  else mk_recorder (items r ++ [(action, payload)]) (text_bytes r + cost)%N.
Definition drain (r : SpanEventRecorder) : SpanEventRecorder * list (string * ToolEventPayload) :=
  (mk_recorder [] (text_bytes r), items r).

(** ** Reasons and previews *)

Definition FAILURE_REASON_MAX_BYTES : N := 512.
Definition truncate_for_reason (s : string) (max_bytes : N) : string :=
  if (bytes s <=? max_bytes)%N then s
  else (Str.take (Str.char_cut s (N.to_nat max_bytes)) s +:+ "…")%string.

(** ** The output as the trace keeps it *)

(** [serde_json::Map] keeps its keys sorted. *)
Fixpoint map_insert (k : string) (v : json) (m : list (string * json)) : list (string * json) :=
  match m with
  | [] => [(k, v)]
  | (k', v') :: m' =>
      match String.compare k k' with
      | Lt => (k, v) :: m
      | Eq => (k, v) :: m'
      | Gt => (k', v') :: map_insert k v m'
      end
  end.
Definition tagged (tag field : string) (v : json) : json :=
  JObject (map_insert field v (map_insert "type" (JString tag) [])).

Section Text.
(** [serde_json::to_string], and the derived serialization of a media block. *)
Context (json_text : json -> string) (media_json : ContentBlock -> json).

Definition serialized_len (v : json) : N := bytes (json_text v).

Definition APPROVAL_PARAMS_PREVIEW_LEN : N := 512.
Definition preview_params (params : json) (max_len : N) : string :=
  let s := json_text params in
  if (bytes s <=? max_len)%N then s
  else (Str.take (Str.char_cut s (N.to_nat max_len)) s +:+ "…")%string.

Definition tool_output_to_trace_value_uncapped (output : ProgressLedger.ToolOutput) : json :=
  match output with
  | ProgressLedger.OutText s => tagged "text" "text" (JString s)
  | ProgressLedger.OutError s => tagged "error" "error" (JString s)
  | ProgressLedger.OutJson (JObject m) => JObject (map_insert "type" (JString "json") m)
  | ProgressLedger.OutJson v => tagged "json" "value" v
  | ProgressLedger.WithAttachments text attachments =>
      JObject (map_insert "attachments" (JArray (map media_json attachments))
                (map_insert "text" (JString text) (map_insert "type" (JString "with_attachments") [])))
  | ProgressLedger.MultiModalText text llm_images =>
      JObject (map_insert "llm_images" (JArray (map media_json llm_images))
                (map_insert "text" (JString text) (map_insert "type" (JString "multi_modal_text") [])))
  end.

(** The loop that shrinks the body until the row fits; [None] is fuel run out. *)
Fixpoint shrink (fuel : nat) (tag field body : string) (cut : nat) : option json :=
  match fuel with
  | 0 => None
  | S fuel =>
      let cut := Str.char_cut body cut in
      let candidate := tagged tag field (JString (Str.take cut body)) in
      let serialized := serialized_len candidate in
      if (serialized <=? Upkeep.MAX_TOOL_OUTPUT_BYTES)%N || Nat.eqb cut 0 then Some candidate
      else shrink fuel tag field body
             (N.to_nat (N.min (saturating_mul (N.of_nat cut) Upkeep.MAX_TOOL_OUTPUT_BYTES / serialized)
                              (N.of_nat cut - 1)))
  end.
Definition body_of (value : json) : string * string * string :=
  let tag := default "json"%string (Json.get_str value "type") in
  let '(field, body) :=
    if String.eqb tag "text" then ("text", Json.get_str value "text")
    else if String.eqb tag "error" then ("error", Json.get_str value "error")
    else ("text", None)%string in
  (tag, field, default (json_text value) body).
Definition cap_trace_output_with_len (value : json) (full_len : N) : option (json * option N) :=
  if (full_len <=? Upkeep.MAX_TOOL_OUTPUT_BYTES)%N then Some (value, None)
  else
    match value with
    | JObject _ =>
        let '(tag, field, body) := body_of value in
        let cut := N.to_nat (N.min Upkeep.MAX_TOOL_OUTPUT_BYTES (bytes body)) in
        (fun v => (v, Some full_len)) <$> shrink (S cut) tag field body cut
    | _ => Some (value, None)
    end.

(** ** Inline, or a pointer to the transcript row ([span.rs]) *)

Record PersistedToolCallOutput := mk_persisted {
  ref_tool_use_id : string;
  ref_attachments : list ContentBlock;
  ref_llm_images : list ContentBlock;
}.
Inductive ToolCallOutput := Persisted (r : PersistedToolCallOutput) | Inline (v : json).
Definition SESSION_TOOL_RESULT_REFERENCE_TAG : string := "session_tool_result".
Definition field_unless_empty (k : string) (l : list ContentBlock) : list (string * json) :=
  match l with [] => [] | _ => [(k, JArray (map media_json l))] end.
Definition output_json (o : ToolCallOutput) : json :=
  match o with
  | Inline v => v
  | Persisted r =>
      JObject (("$baybo_ref"%string, JString SESSION_TOOL_RESULT_REFERENCE_TAG)
               :: ("tool_use_id"%string, JString (ref_tool_use_id r))
               :: field_unless_empty "attachments" (ref_attachments r)
               ++ field_unless_empty "llm_images" (ref_llm_images r))
  end.
Definition result_for (id : string) (b : ContentBlock) : option string :=
  match b with
  | ToolResult i content _ => if String.eqb i id then Some content else None
  | _ => None
  end.
Definition resolve_reference (r : PersistedToolCallOutput) (m : ChatMessage) : result json string :=
  match head (omap (result_for (ref_tool_use_id r)) (content m)) with
  | None => Err ("session log has no ToolResult for " +:+ ref_tool_use_id r)%string
  | Some text =>
      Ok match ref_attachments r, ref_llm_images r with
         | (_ :: _) as l, _ =>
             JObject [("attachments", JArray (map media_json l)); ("text", JString text);
                      ("type", JString "with_attachments")]
         | [], (_ :: _) as l =>
             JObject [("llm_images", JArray (map media_json l)); ("text", JString text);
                      ("type", JString "multi_modal_text")]
         | [], [] => JString text
         end%string
  end.
Definition resolve (o : ToolCallOutput) (m : ChatMessage) : result json string :=
  match o with Inline v => Ok v | Persisted r => resolve_reference r m end.

Definition tool_output_media (o : ProgressLedger.ToolOutput) : list ContentBlock * list ContentBlock :=
  match o with
  | ProgressLedger.WithAttachments _ attachments => (attachments, [])
  | ProgressLedger.MultiModalText _ llm_images => ([], llm_images)
  | _ => ([], [])
  end.
Record ToolCallResult := mk_result {
  output : ToolCallOutput;
  success : bool;
  output_truncated_from : option N;
}.
Definition is_error_output (o : ProgressLedger.ToolOutput) : bool :=
  match o with ProgressLedger.OutError _ => true | _ => false end.
(** The close-time result: the shorter of the two forms. *)
Definition call_result (tool_use_id : string) (o : ProgressLedger.ToolOutput) : option ToolCallResult :=
  let value := tool_output_to_trace_value_uncapped o in
  let full_len := serialized_len value in
  (fun capped =>
    let inline := Inline capped.1 in
    let (attachments, llm_images) := tool_output_media o in
    let reference := Persisted (mk_persisted tool_use_id attachments llm_images) in
    mk_result (if (serialized_len (output_json reference) <? serialized_len (output_json inline))%N
               then reference else inline)
      (negb (is_error_output o))
      (if (Upkeep.MAX_TOOL_OUTPUT_BYTES <? full_len)%N then Some full_len else None))
  <$> cap_trace_output_with_len value full_len.

(** ** The shrinking ends *)

Lemma shrink_total fuel tag field body cut : cut < fuel -> exists n,
  shrink fuel tag field body cut = Some (tagged tag field (JString (Str.take n body))) /\
  n <= cut /\ Str.is_char_boundary body n = true /\
  ((serialized_len (tagged tag field (JString (Str.take n body))) <= Upkeep.MAX_TOOL_OUTPUT_BYTES)%N \/ n = 0).
Proof.
  revert cut. induction fuel as [|fuel IH]; intros cut Hlt; [lia|].
  cbn [shrink]. pose proof (Str.char_cut_le body cut) as Hle.
  pose proof (Str.char_cut_boundary body cut) as Hb.
  set (n := Str.char_cut body cut) in *. clearbody n.
  destruct (N.leb_spec (serialized_len (tagged tag field (JString (Str.take n body))))
              Upkeep.MAX_TOOL_OUTPUT_BYTES) as [Hfit|Hbig]; [exists n; cbn; eauto 6|].
  destruct (Nat.eqb_spec n 0) as [->|Hn]; [exists 0; cbn; eauto 6|]. cbn [orb].
  destruct (IH (N.to_nat (N.min (saturating_mul (N.of_nat n) Upkeep.MAX_TOOL_OUTPUT_BYTES
              / serialized_len (tagged tag field (JString (Str.take n body)))) (N.of_nat n - 1))))
    as (m & Hm & Hmn & Hmb & Hfin); [lia|].
  exists m. split_and!; [exact Hm | lia | exact Hmb | exact Hfin].
Qed.

Definition uncapped_is_object (o : ProgressLedger.ToolOutput) : bool :=
  match tool_output_to_trace_value_uncapped o with JObject _ => true | _ => false end.
Lemma uncapped_object o : exists fields, tool_output_to_trace_value_uncapped o = JObject fields.
Proof. destruct o as [s|[]|s|t l|t l]; cbn; eauto. Qed.

(** C38: recording a tool's output always ends, with a row that fits.  Whatever
    the tool returned and however the serializer inflates it, the loop that
    shrinks an oversized output stops within as many rounds as the body has
    bytes (never out of fuel), and the span's inline value is then either the
    shaped output itself, when it serializes within the cap, or an object of the
    same tag whose body is cut at a character boundary and which serializes
    within the cap or has an empty body; the true length is reported exactly
    when something was cut. *)
Theorem trace_row_bounded (o : ProgressLedger.ToolOutput) :
  let value := tool_output_to_trace_value_uncapped o in
  exists v cut_from, cap_trace_output_with_len value (serialized_len value) = Some (v, cut_from) /\
  match cut_from with
  | None => v = value /\ (serialized_len v <= Upkeep.MAX_TOOL_OUTPUT_BYTES)%N
  | Some full =>
      full = serialized_len value /\ (Upkeep.MAX_TOOL_OUTPUT_BYTES < full)%N /\
      exists field body n, Str.is_char_boundary body n = true /\
        (N.of_nat n <= Upkeep.MAX_TOOL_OUTPUT_BYTES)%N /\
        v = tagged (default "json"%string (Json.get_str value "type")) field (JString (Str.take n body)) /\
        ((serialized_len v <= Upkeep.MAX_TOOL_OUTPUT_BYTES)%N \/ n = 0)
  end.
Proof.
  cbv zeta. destruct (uncapped_object o) as [fields ->]. set (value := JObject fields).
  unfold cap_trace_output_with_len.
  destruct (N.leb_spec (serialized_len value) Upkeep.MAX_TOOL_OUTPUT_BYTES) as [Hfit|Hbig];
    [by exists value, None|].
  unfold value at 2. fold value. unfold body_of.
  set (fb := if String.eqb _ "text" then _ else _). destruct fb as [field body].
  set (text := default (json_text value) body). set (cut := N.to_nat _).
  destruct (shrink_total (S cut) (default "json"%string (Json.get_str value "type")) field text cut)
    as (n & Hn & Hle & Hb & Hfin); [lia|].
  rewrite Hn. eexists _, (Some (serialized_len value)). split; [reflexivity|]. split_and!; [done | done |].
  exists field, text, n. split_and!; [done | lia | done | done].
Qed.

(** *** The event recorder *)

Definition event_bytes (e : string * ToolEventPayload) : N := (bytes e.1 + payload_text_bytes e.2)%N.
Definition truncated (e : string * ToolEventPayload) : string * ToolEventPayload :=
  (e.1, truncate_text_fields e.2).
Definition total (l : list (string * ToolEventPayload)) : N := Tokens.sum_N (map event_bytes l).

Lemma total_app l k : total (l ++ k) = (total l + total k)%N.
Proof. unfold total. induction l as [|e l IH]; cbn; [done|]. rewrite IH. lia. Qed.
Lemma saturating_over a b c : (c < USIZE_MAX)%N -> (c <? saturating_add a b)%N = (c <? a + b)%N.
Proof. intros H. unfold saturating_add. destruct (N.ltb_spec c (a + b)), (N.ltb_spec c (N.min (a + b) USIZE_MAX)); lia. Qed.
Lemma emit_all es r : total (items r) = text_bytes r -> (text_bytes r <= TOOL_EVENTS_MAX_PAYLOAD_BYTES)%N ->
  let r' := foldl emit r es in
  exists kept, items r' = items r ++ kept /\ kept `sublist_of` map truncated es /\
    total (items r') = text_bytes r' /\ (text_bytes r' <= TOOL_EVENTS_MAX_PAYLOAD_BYTES)%N /\
    ((text_bytes r + total (map truncated es) <= TOOL_EVENTS_MAX_PAYLOAD_BYTES)%N -> kept = map truncated es).
Proof.
  cbv zeta. revert r. induction es as [|[action p] es IH]; intros r Ht Hcap.
  { exists []. rewrite app_nil_r. by split_and!. }
  cbn [foldl map]. set (e := (action, truncate_text_fields p)).
  assert (Hemit : emit r (action, p) =
    if (TOOL_EVENTS_MAX_PAYLOAD_BYTES <? text_bytes r + event_bytes e)%N then r
    else mk_recorder (items r ++ [e]) (text_bytes r + event_bytes e)%N).
  { unfold emit. rewrite saturating_over; [done|]. by vm_compute. }
  rewrite Hemit. change (truncated (action, p)) with e.
  destruct (N.ltb_spec TOOL_EVENTS_MAX_PAYLOAD_BYTES (text_bytes r + event_bytes e)) as [Hover|Hfit].
  - destruct (IH r Ht Hcap) as (kept & ? & ? & ? & ? & _). exists kept. split_and!; [done | by constructor | done.. |].
    unfold total. cbn. lia.
  - destruct (IH (mk_recorder (items r ++ [e]) (text_bytes r + event_bytes e)%N)) as (kept & Hk & Hs & Htot & ? & Hall);
      [cbn [items text_bytes]; rewrite total_app, Ht; unfold total; cbn; lia | done |].
    cbn [items] in Hk. rewrite <- (assoc_L (++)) in Hk. rewrite Hk in Htot |- *.
    exists (e :: kept). split_and!; [done | by constructor | done | done |].
    intros Hsum. rewrite Hall; [done|]. cbn. revert Hsum. unfold total. cbn. lia.
Qed.

(** The event sink keeps a bounded, honest record of a tool's run.  Whatever
    a tool emits, the recorder holds a subsequence of its events, in order, each
    with its text fields cut, of at most 64 MiB of text in all; and it loses none
    of them while their cut texts fit the budget together, so a fat early event
    cannot evict a later one by itself. *)
Theorem events_recorded (es : list (string * ToolEventPayload)) :
  let kept := items (foldl emit new_recorder es) in
  kept `sublist_of` map truncated es /\ (total kept <= TOOL_EVENTS_MAX_PAYLOAD_BYTES)%N /\
  ((total (map truncated es) <= TOOL_EVENTS_MAX_PAYLOAD_BYTES)%N -> kept = map truncated es).
Proof.
  cbv zeta. destruct (emit_all es new_recorder) as (kept & Hk & Hs & Ht & Hcap & Hall); [done | done |].
  rewrite <- Ht in Hcap. cbn [new_recorder items app] in Hk. rewrite Hk in *. by split_and!.
Qed.
End Text.

End ToolTrace.
