(* ===== verification/Trace.v ===== *)
(** * Steps, spans and their recorder ([crates/trace/src],
      [crates/storage/src/sqlite/trace.rs])

    A turn leaves a tree in the trace tables: steps, spans under a step, events
    under a span.  The recorder writes a row when one begins and again when it
    ends, and publishes both; the tables read the parent and the times out of
    the JSON of a row. *)

From S2P Require Import Prelude Message Turn Lifecycle Effect Approval Hydration ToolTrace.
Import Lifecycle Effect.

Module Trace.

Abbreviation TurnId := Turn.TurnId.
Abbreviation StepId := N.
Abbreviation SpanId := Turn.SpanId.
Abbreviation Time := Turn.Time.

(** ** Data *)

Inductive LifecycleOutcome :=
| OutcomeOk
| OutcomeFailed (reason : string)
| OutcomeCancelled (reason : Turn.CancelReason).
Inductive LifecycleState := Pending | Done (o : LifecycleOutcome).
Definition is_terminal (s : LifecycleState) : bool := match s with Done _ => true | Pending => false end.

Inductive CompressionTrigger := Threshold | Forced.
Inductive StepKind :=
| LlmIteration
| Compression (trigger : option CompressionTrigger)
| MemoryRecall
| MemoryWrite
| SkillSelection
| ProgressObserver
| TitleGeneration.

Record Step := mk_step {
  step_id : StepId;
  turn_id : TurnId;
  step_kind : StepKind;
  step_started_at : Time;
  step_ended_at : option Time;
  step_outcome : LifecycleState;
}.
Definition step_close (o : LifecycleOutcome) (at_ : Time) (s : Step) : Step :=
  mk_step (step_id s) (turn_id s) (step_kind s) (step_started_at s) (Some at_) (Done o).
Definition step_ended (at_ : Time) (s : Step) : Step :=
  mk_step (step_id s) (turn_id s) (step_kind s) (step_started_at s) (Some at_) (step_outcome s).

Inductive SecretKind :=
| ApiKey | BearerToken | AwsAccessKey | AwsSecretKey | PrivateKey | Password | HighEntropy | Other.
Inductive SpanEventKind :=
| SanitizeHit (hits_count : nat) (kinds : list SecretKind) (placeholder_ids : list string)
| ApprovalEvent (decision : Message.ApprovalDecision) (resource : Approval.ResourceAccess)
| ToolEvent (action : string) (payload : ToolTrace.ToolEventPayload).
Record SpanEvent := mk_span_event {
  event_span_id : SpanId;
  seq : N;
  at_ : Time;
  event_kind : SpanEventKind;
}.

Record LlmToolDefinition := mk_tool_definition {
  tool_definition_name : string;
  tool_definition_description : string;
  parameters_schema : Message.json;
}.
Record LlmToolSetRef := mk_tool_set_ref { set_hash : string; set_count : nat }.
(** A temperature is the bits of its [f32]. *)
Record LlmCallBegin := mk_llm_begin {
  model_id : string;
  provider : string;
  input_messages : Hydration.LlmCallInputs;
  temperature : option N;
  reasoning_effort : option string;
  offered_tools : option LlmToolSetRef;
}.
Record LlmToolCallRecord := mk_call_record { call_id : string; call_name : string; arguments : Message.json }.
Record LlmCallResult := mk_llm_result {
  output_content : string;
  thinking : option string;
  tool_calls : list LlmToolCallRecord;
  input_tokens : N;
  output_tokens : N;
  cached_input_tokens : N;
  cache_creation_input_tokens : N;
}.
Record ToolCallOrigin := mk_origin { llm_span_id : SpanId; origin_tool_use_id : string }.
Record ToolCallBegin := mk_tool_begin {
  tool_name : string;
  triggered_by : option ToolCallOrigin;
  params : Message.json;
}.
Inductive SpanKind :=
| LlmCall (begin : LlmCallBegin) (r : option LlmCallResult)
| ToolCall (begin : ToolCallBegin) (r : option ToolTrace.ToolCallResult).
Definition span_kind_tag (k : SpanKind) : string :=
  match k with LlmCall _ _ => "llm_call" | ToolCall _ _ => "tool_call" end.

Record Span := mk_span {
  span_id : SpanId;
  span_step_id : StepId;
  span_kind : SpanKind;
  parallel_group : option N;
  span_started_at : Time;
  span_ended_at : option Time;
  span_outcome : LifecycleState;
  span_events_inline : list SpanEvent;
}.
Definition span_close (o : LifecycleOutcome) (at_ : Time) (s : Span) : Span :=
  mk_span (span_id s) (span_step_id s) (span_kind s) (parallel_group s) (span_started_at s) (Some at_)
    (Done o) (span_events_inline s).
Definition span_ended (at_ : Time) (s : Span) : Span :=
  mk_span (span_id s) (span_step_id s) (span_kind s) (parallel_group s) (span_started_at s) (Some at_)
    (span_outcome s) (span_events_inline s).

Inductive SpanFinalize :=
| FinalizeLlm (r : LlmCallResult)
| FinalizeTool (r : ToolTrace.ToolCallResult)
| FinalizeEmpty.

(** What [begin_step] and [begin_span] hand back for the end. *)
Record StepHandle := mk_step_handle {
  handle_step_id : StepId;
  handle_turn_id : TurnId;
  handle_step_kind : StepKind;
  handle_step_started_at : Time;
}.
Record SpanHandle := mk_span_handle {
  handle_span_id : SpanId;
  handle_span_step_id : StepId;
  handle_span_kind : SpanKind;
  handle_span_started_at : Time;
  handle_parallel_group : option N;
}.

Inductive TraceError :=
| NotFound (s : string)
| Storage (s : string)
| InvalidOperation (s : string)
| Internal (s : string).
Definition from_storage (e : StorageError) : TraceError :=
  match e with
  | StorageNotFound s => NotFound s
  | StorageInternal s => Internal s
  | other => Storage (storage_error_text other)
  end.

(** ** The tables

    A row's JSON either reads back to its value, or is only known by the
    fields the generated columns extract. *)
Inductive StepData :=
| StepJson (s : Step)
| OtherStep (turn : TurnId) (started : Time) (ended : option Time).
Inductive SpanData :=
| SpanJson (s : Span)
| OtherSpan (step : StepId) (started : Time) (ended : option Time).
Inductive EventData := EventJson (e : SpanEvent) | OtherEvent.

Definition col_turn_id (d : StepData) : TurnId := match d with StepJson s => turn_id s | OtherStep t _ _ => t end.
Definition col_step_started (d : StepData) : Time :=
  match d with StepJson s => step_started_at s | OtherStep _ t _ => t end.
Definition col_step_ended (d : StepData) : option Time :=
  match d with StepJson s => step_ended_at s | OtherStep _ _ t => t end.
Definition col_step_id (d : SpanData) : StepId := match d with SpanJson s => span_step_id s | OtherSpan i _ _ => i end.
Definition col_span_started (d : SpanData) : Time :=
  match d with SpanJson s => span_started_at s | OtherSpan _ t _ => t end.
Definition col_span_ended (d : SpanData) : option Time :=
  match d with SpanJson s => span_ended_at s | OtherSpan _ _ t => t end.

Definition step_from_row (d : StepData) : result Step TraceError :=
  match d with StepJson s => Ok s | OtherStep _ _ _ => Err (Storage "deserialize step") end.
Definition span_from_row (d : SpanData) : result Span TraceError :=
  match d with SpanJson s => Ok s | OtherSpan _ _ _ => Err (Storage "deserialize span") end.
Definition event_from_row (d : EventData) : result SpanEvent TraceError :=
  match d with EventJson e => Ok e | OtherEvent => Err (Storage "deserialize span_event") end.

Record Tables := mk_tables {
  steps : gmap StepId StepData;
  spans : gmap SpanId SpanData;
  span_events : gmap (SpanId * N) EventData;
  tool_sets : gmap string (list LlmToolDefinition);
}.

(** The order SQLite answers in, the clock, the ids, the failures of the
    store ([true]: after the write took effect) and the digest of a set. *)
Class Outside := {
  order_by : forall {A}, (A -> Z) -> list A -> list A;
  clock : nat -> Time;
  fresh_step : nat -> StepId;
  fresh_span : nat -> SpanId;
  fault : nat -> option (bool * StorageError);
  tool_set_hash : list LlmToolDefinition -> result string string;
}.
Class OrderLaws (O : Outside) := order_by_perm : forall A (k : A -> Z) l, order_by k l ≡ₚ l.

Section Store.
Context {O : Outside}.
Abbreviation Transaction A := (Tables -> Tables * result A StorageError).

Definition save_step (i : StepId) (d : StepData) : Transaction unit := fun t =>
  (mk_tables (<[i := d]> (steps t)) (spans t) (span_events t) (tool_sets t), Ok tt).
Definition load_step (i : StepId) : Transaction (option StepData) := fun t => (t, Ok (steps t !! i)).
Definition list_steps_by_turn (turn : TurnId) : Transaction (list (StepId * StepData)) := fun t =>
  (t, Ok (order_by (fun r => col_step_started r.2)
            (List.filter (fun r => N.eqb (col_turn_id r.2) turn) (map_to_list (steps t))))).
Definition has_open_span (t : Tables) (i : StepId) : bool :=
  existsb (fun r => N.eqb (col_step_id r.2) i && negb (is_some (col_span_ended r.2))) (map_to_list (spans t)).
(** The union of the two partial scans. *)
Definition list_unfinished_steps : Transaction (list (StepId * StepData)) := fun t =>
  (t, Ok (order_by (fun r => col_step_started r.2)
            (List.filter (fun r => negb (is_some (col_step_ended r.2)) || has_open_span t r.1)
               (map_to_list (steps t))))).
Definition save_span (i : SpanId) (d : SpanData) : Transaction unit := fun t =>
  (mk_tables (steps t) (<[i := d]> (spans t)) (span_events t) (tool_sets t), Ok tt).
Definition load_span (i : SpanId) : Transaction (option SpanData) := fun t => (t, Ok (spans t !! i)).
Definition list_spans_by_step (step : StepId) : Transaction (list (SpanId * SpanData)) := fun t =>
  (t, Ok (order_by (fun r => col_span_started r.2)
            (List.filter (fun r => N.eqb (col_step_id r.2) step) (map_to_list (spans t))))).
Definition turn_steps (turn : TurnId) (t : Tables) : list StepId :=
  map fst (List.filter (fun r => N.eqb (col_turn_id r.2) turn) (map_to_list (steps t))).
Definition under_turn (turn : TurnId) (t : Tables) : list (SpanId * SpanData) :=
  List.filter (fun r => existsb (N.eqb (col_step_id r.2)) (turn_steps turn t)) (map_to_list (spans t)).
Definition list_spans_by_turn (turn : TurnId) : Transaction (list (SpanId * SpanData)) := fun t =>
  (t, Ok (order_by (fun r => col_span_started r.2) (under_turn turn t))).
Definition trace_counts_by_turn (turn : TurnId) : Transaction (nat * nat) := fun t =>
  (t, Ok (length (turn_steps turn t), length (under_turn turn t))).
(** [INSERT OR IGNORE]: the key is the digest of the body. *)
Definition save_tool_set (hash : string) (set : list LlmToolDefinition) : Transaction unit := fun t =>
  (match tool_sets t !! hash with
   | Some _ => t
   | None => mk_tables (steps t) (spans t) (span_events t) (<[hash := set]> (tool_sets t))
   end, Ok tt).
Definition load_tool_set (hash : string) : Transaction (option (list LlmToolDefinition)) := fun t =>
  (t, Ok (tool_sets t !! hash)).
Definition append_span_event (i : SpanId) (n : N) (d : EventData) : Transaction unit := fun t =>
  (mk_tables (steps t) (spans t) (<[(i, n) := d]> (span_events t)) (tool_sets t), Ok tt).
Definition list_span_events (i : SpanId) : Transaction (list EventData) := fun t =>
  (t, Ok (map snd (order_by (fun r => Z.of_N r.1.2)
            (List.filter (fun r => N.eqb r.1.1 i) (map_to_list (span_events t)))))).
End Store.

(** ** The recorder ([recorder.rs]) *)

Inductive TraceEvent :=
| StepStarted (i : StepId) (turn : TurnId) (k : StepKind)
| StepEnded (i : StepId) (turn : TurnId) (o : LifecycleOutcome)
| SpanStarted (i : SpanId) (step : StepId) (turn : TurnId) (tag : string)
| SpanEnded (i : SpanId) (step : StepId) (turn : TurnId) (o : LifecycleOutcome)
| SpanEventEmitted (e : SpanEvent)
| LlmSpanEnded (i : SpanId) (turn : TurnId) (session user model provider_ : string)
    (input output cached_input cache_creation : N).

Record World := mk_world {
  tables : Tables;
  published : list TraceEvent;
  saved_tool_sets : gset string;
  used : nat;
}.
(** The session and the user a recorder is built for. *)
Record SpanRecorder := mk_recorder { session_id : string; user_id : string }.

Section Recorder.
Context {O : Outside}.
Abbreviation Run A := (M World TraceError A).

Definition spend (w : World) : World := mk_world (tables w) (published w) (saved_tool_sets w) (S (used w)).
Definition now_ : Run Time := draw (fun w => (spend w, clock (used w))).
Definition new_step_id : Run StepId := draw (fun w => (spend w, fresh_step (used w))).
Definition new_span_id : Run SpanId := draw (fun w => (spend w, fresh_span (used w))).
Definition set_tables (t : Tables) (w : World) : World :=
  mk_world t (published w) (saved_tool_sets w) (S (used w)).
Definition stored {A} (f : Tables -> Tables * result A StorageError) : Run A := fun w =>
  match fault (used w) with
  | None =>
      let (t, r) := f (tables w) in
      (set_tables t w, match r with Ok a => Ok a | Err e => Err (from_storage e) end)
  | Some (took, e) => (set_tables (if took then (f (tables w)).1 else tables w) w, Err (from_storage e))
  end.
Definition publish (e : TraceEvent) : Run unit :=
  modify (fun w => mk_world (tables w) (published w ++ [e]) (saved_tool_sets w) (used w)).

Definition record_tool_set (defs : list LlmToolDefinition) : Run LlmToolSetRef :=
  match tool_set_hash defs with
  | Err e => throw (Storage ("serialize tool set: " +:+ e)%string)
  | Ok hash =>
      let* known := gets (fun w => bool_decide (hash ∈ saved_tool_sets w)) in
      let* _ := when (negb known)
        (let* _ := stored (save_tool_set hash defs) in
         modify (fun w => mk_world (tables w) (published w) ({[hash]} ∪ saved_tool_sets w) (used w))) in
      ret (mk_tool_set_ref hash (length defs))
  end.

Definition begin_step (turn : TurnId) (k : StepKind) : Run StepHandle :=
  let* started := now_ in
  let* i := new_step_id in
  let* _ := stored (save_step i (StepJson (mk_step i turn k started None Pending))) in
  let* _ := publish (StepStarted i turn k) in
  ret (mk_step_handle i turn k started).

Definition end_step (h : StepHandle) (o : LifecycleOutcome) : Run unit :=
  let* now := now_ in
  let* _ := stored (save_step (handle_step_id h)
    (StepJson (mk_step (handle_step_id h) (handle_turn_id h) (handle_step_kind h)
                 (handle_step_started_at h) (Some now) (Done o)))) in
  publish (StepEnded (handle_step_id h) (handle_turn_id h) o).

Definition begin_span (step : StepHandle) (k : SpanKind) (group : option N) : Run SpanHandle :=
  let* started := now_ in
  let* i := new_span_id in
  let* _ := stored (save_span i (SpanJson (mk_span i (handle_step_id step) k group started None Pending []))) in
  let* _ := publish (SpanStarted i (handle_step_id step) (handle_turn_id step) (span_kind_tag k)) in
  ret (mk_span_handle i (handle_step_id step) k started group).

Definition finalize_span_kind (k : SpanKind) (f : SpanFinalize) : result SpanKind TraceError :=
  match k, f with
  | LlmCall b _, FinalizeLlm r => Ok (LlmCall b (Some r))
  | ToolCall b _, FinalizeTool r => Ok (ToolCall b (Some r))
  | k, FinalizeEmpty => Ok k
  | _, _ => Err (Internal "end_span finalize variant does not match begin-time kind")
  end.

Definition llm_span_ended (r : SpanRecorder) (i : SpanId) (turn : TurnId) (k : SpanKind) : Run unit :=
  match k with
  | LlmCall b (Some res) =>
      publish (LlmSpanEnded i turn (session_id r) (user_id r) (model_id b) (provider b)
        (input_tokens res) (output_tokens res) (cached_input_tokens res) (cache_creation_input_tokens res))
  | _ => ret tt
  end.
Definition end_span (r : SpanRecorder) (h : SpanHandle) (turn : TurnId) (f : SpanFinalize) (o : LifecycleOutcome)
    : Run unit :=
  let* k := of_result (finalize_span_kind (handle_span_kind h) f) in
  let* _ := llm_span_ended r (handle_span_id h) turn k in
  let* now := now_ in
  let* _ := stored (save_span (handle_span_id h)
    (SpanJson (mk_span (handle_span_id h) (handle_span_step_id h) k (handle_parallel_group h)
                 (handle_span_started_at h) (Some now) (Done o) []))) in
  publish (SpanEnded (handle_span_id h) (handle_span_step_id h) turn o).
Definition cancel_span (r : SpanRecorder) (h : SpanHandle) (turn : TurnId) (o : LifecycleOutcome) : Run unit :=
  end_span r h turn FinalizeEmpty o.

Definition emit_event (i : SpanId) (n : N) (k : SpanEventKind) : Run unit :=
  let* now := now_ in
  let e := mk_span_event i n now k in
  let* _ := stored (append_span_event i n (EventJson e)) in
  publish (SpanEventEmitted e).
End Recorder.

(** ** The invariant of a row: over exactly when it has an end *)

Definition step_paired (s : Step) : bool := Bool.eqb (is_terminal (step_outcome s)) (is_some (step_ended_at s)).
Definition span_paired (s : Span) : bool := Bool.eqb (is_terminal (span_outcome s)) (is_some (span_ended_at s)).
Definition step_row_ok (i : StepId) (d : StepData) : Prop :=
  match d with StepJson s => step_id s = i /\ step_paired s = true | OtherStep _ _ _ => True end.
Definition span_row_ok (i : SpanId) (d : SpanData) : Prop :=
  match d with SpanJson s => span_id s = i /\ span_paired s = true | OtherSpan _ _ _ => True end.
Definition tables_ok (t : Tables) : Prop := map_Forall step_row_ok (steps t) /\ map_Forall span_row_ok (spans t).

(** The digest keys its body, and the memo only knows stored ones. *)
Definition sets_ok `{O : Outside} (w : World) : Prop :=
  map_Forall (fun h set => tool_set_hash set = Ok h) (tool_sets (tables w)) /\
  forall h, h ∈ saved_tool_sets w -> is_some (tool_sets (tables w) !! h) = true.
Definition world_ok `{O : Outside} (w : World) : Prop := tables_ok (tables w) /\ sets_ok w.

(** A history: calls of the recorder, with whatever handles. *)
Inductive RecorderCall :=
| CallRecordToolSet (defs : list LlmToolDefinition)
| CallBeginStep (turn : TurnId) (k : StepKind)
| CallEndStep (h : StepHandle) (o : LifecycleOutcome)
| CallBeginSpan (step : StepHandle) (k : SpanKind) (group : option N)
| CallEndSpan (h : SpanHandle) (turn : TurnId) (f : SpanFinalize) (o : LifecycleOutcome)
| CallCancelSpan (h : SpanHandle) (turn : TurnId) (o : LifecycleOutcome)
| CallEmitEvent (i : SpanId) (n : N) (k : SpanEventKind).

Section Invariant.
Context {O : Outside}.

Definition run_call (r : SpanRecorder) (c : RecorderCall) (w : World) : World :=
  match c with
  | CallRecordToolSet defs => (record_tool_set defs w).1
  | CallBeginStep turn k => (begin_step turn k w).1
  | CallEndStep h o => (end_step h o w).1
  | CallBeginSpan step k group => (begin_span step k group w).1
  | CallEndSpan h turn f o => (end_span r h turn f o w).1
  | CallCancelSpan h turn o => (cancel_span r h turn o w).1
  | CallEmitEvent i n k => (emit_event i n k w).1
  end.
Definition run_calls (r : SpanRecorder) (l : list RecorderCall) (w : World) : World :=
  foldl (fun w c => run_call r c w) w l.

(** *** What every call keeps: the pairing, and the sets already stored *)

Context (h0 : string) (set0 : list LlmToolDefinition).
Definition has_set (t : Tables) : Prop := tool_sets t !! h0 = Some set0.
Definition still (w : World) : Prop := world_ok w /\ has_set (tables w).

Section One.
Context (P : World -> Prop) (HP : P = world_ok \/ P = still).

Lemma keeps_either {A} (m : M World TraceError A) :
  keeps world_ok m -> keeps (fun w => has_set (tables w)) m -> keeps P m.
Proof using HP.
  intros H1 H2 w Hw. destruct HP as [->| ->]; [by apply H1|]. destruct Hw. by split; [apply H1 | apply H2].
Qed.
Lemma write_keeps {A} (f : Tables -> Tables * result A StorageError) :
  (forall t, tables_ok t -> tables_ok (f t).1) -> (forall t, tool_sets (f t).1 = tool_sets t) -> keeps P (stored f).
Proof using HP.
  intros Hf Hs. assert (Hset : forall w, tables (stored f w).1 = tables w \/ tables (stored f w).1 = (f (tables w)).1).
  { intros w. unfold stored. destruct (fault _) as [[[] e]|]; [by right | by left |]. destruct (f (tables w)); by right. }
  assert (Hmemo : forall w, saved_tool_sets (stored f w).1 = saved_tool_sets w).
  { intros w. unfold stored. destruct (fault _) as [[[] e]|]; try done. by destruct (f (tables w)). }
  apply keeps_either; intros w.
  - intros (Hw & Hb & Hm). unfold world_ok, sets_ok. rewrite Hmemo.
    destruct (Hset w) as [->| ->]; [done|]. rewrite Hs. split; [by apply Hf | done].
  - unfold has_set. destruct (Hset w) as [->| ->]; [done|]. by rewrite Hs.
Qed.
Lemma keeps_quiet f : (forall w, tables (f w) = tables w) -> (forall w, saved_tool_sets (f w) = saved_tool_sets w) ->
  keeps (E := TraceError) P (modify f).
Proof using HP.
  intros Ht Hs. apply keeps_either; apply keeps_modify; intros w; unfold world_ok, sets_ok, has_set; by rewrite Ht, ?Hs.
Qed.
Lemma keeps_drawn {A} (f : World -> A) : keeps (E := TraceError) P (draw (fun w => (spend w, f w))).
Proof using HP. apply keeps_either; by apply keeps_draw. Qed.
Lemma save_step_ok i d t : step_row_ok i d -> tables_ok t -> tables_ok (save_step i d t).1.
Proof using Type. intros Hd [Hs Hp]. split; [by apply map_Forall_insert_2 | done]. Qed.
Lemma save_span_ok i d t : span_row_ok i d -> tables_ok t -> tables_ok (save_span i d t).1.
Proof using Type. intros Hd [Hs Hp]. split; [done | by apply map_Forall_insert_2]. Qed.
(** Storing a set: its row stays as it is when it is there. *)
Lemma save_set_keeps hash set :
  tool_set_hash set = Ok hash ->
  keeps P (let* _ := stored (save_tool_set hash set) in
           modify (fun w => mk_world (tables w) (published w) ({[hash]} ∪ saved_tool_sets w) (used w))).
Proof using HP.
  intros Hd. apply keeps_either; intros w; unfold bind, stored, save_tool_set.
  - intros (Hw & Hb & Hm). set (t1 := match tool_sets (tables w) !! hash with Some _ => _ | None => _ end).
    assert (Ht : tables_ok t1 /\ map_Forall (fun h set => tool_set_hash set = Ok h) (tool_sets t1)
      /\ is_some (tool_sets t1 !! hash) = true
      /\ forall h, is_some (tool_sets (tables w) !! h) = true -> is_some (tool_sets t1 !! h) = true).
    { unfold t1. destruct (tool_sets (tables w) !! hash) as [set'|] eqn:E; [by rewrite E|]. cbn.
      split_and!; [done | by apply map_Forall_insert_2 | by rewrite lookup_insert_eq |]. intros h Hh.
      destruct (decide (hash = h)) as [<-|Hne]; [by rewrite lookup_insert_eq | by rewrite lookup_insert_ne]. }
    destruct Ht as (Ht & Hb1 & Hin & Hgrow). destruct (fault _) as [[[] e]|]; cbn.
    + split; [done|]. split; [done|]. intros h Hh. by apply Hgrow, Hm.
    + done.
    + split; [done|]. split; [done|]. cbn. intros h [->%elem_of_singleton|Hh]%elem_of_union; [done | by apply Hgrow, Hm].
  - unfold has_set. intros Hw. assert (H1 : tool_sets (match tool_sets (tables w) !! hash with
      Some _ => tables w | None => mk_tables (steps (tables w)) (spans (tables w)) (span_events (tables w))
        (<[hash := set]> (tool_sets (tables w))) end) !! h0 = Some set0).
    { destruct (tool_sets (tables w) !! hash) eqn:E; [done|]. cbn. rewrite lookup_insert_ne; [done | congruence]. }
    by destruct (fault _) as [[[] e]|].
Qed.
End One.

(** Peels a recorder program into its writes. *)
Ltac traced HP :=
  repeat first
    [ apply (save_set_keeps _ HP); done | keeps_step | apply (keeps_quiet _ HP); done | apply (keeps_drawn _ HP)
    | apply (write_keeps _ HP); [intros ? ?; first [apply save_step_ok | apply save_span_ok | idtac]; done | done]
    | match goal with
      | |- keeps _ (when _ _) => apply keeps_when
      | |- keeps _ (match ?x with _ => _ end) => destruct x eqn:? end ].
Lemma run_call_keeps P (HP : P = world_ok \/ P = still) r c w : P w -> P (run_call r c w).
Proof using Type.
  revert w. destruct c; cbn [run_call];
    match goal with |- forall w, P w -> P (?m w).1 => change (keeps P m) end;
    unfold record_tool_set, begin_step, end_step, begin_span, cancel_span, end_span, llm_span_ended, emit_event,
      now_, new_step_id, new_span_id, publish; traced HP.
Qed.
Lemma run_calls_keep P (HP : P = world_ok \/ P = still) r l w : P w -> P (run_calls r l w).
Proof using Type. revert w. induction l as [|c l IH]; intros w Hw; [done|]. by apply IH, run_call_keeps. Qed.
End Invariant.

Section Claims.
Context {O : Outside}.

(** C40: a row is over exactly when it has an end.  Whatever calls of the
    recorder are made, with whatever handles and store failures in between:
    every readable step and span row is stored under its own id with an end
    time if and only if its outcome is a terminal one, every stored tool set is
    keyed by its own digest, and the memo holds only digests of stored sets. *)
Theorem recorder_pairs_rows r calls w (Hw : world_ok w) : world_ok (run_calls r calls w).
Proof using Type. eapply (run_calls_keep "" []); [by left | done]. Qed.

(** The tool set a call refers to can be read back.  Once recording a set
    has answered with a reference, then after any further calls and failures
    the table of sets holds, under the digest of the reference, a set with
    that digest, and the reference counts the definitions that were offered. *)
Theorem offered_set_resolves r calls w w1 defs ref (Hw : world_ok w)
    (H : record_tool_set defs w = (w1, Ok ref)) :
  exists set, (load_tool_set (set_hash ref) (tables (run_calls r calls w1))).2 = Ok (Some set)
    /\ tool_set_hash set = tool_set_hash defs /\ set_count ref = length defs.
Proof using Type.
  assert (Hw1 : world_ok w1).
  { pose proof (run_call_keeps "" [] _ (or_introl eq_refl) r (CallRecordToolSet defs) w Hw) as Hc.
    cbn in Hc. by rewrite H in Hc. }
  revert H. unfold record_tool_set. destruct (tool_set_hash defs) as [hash|] eqn:E; [|done].
  unfold bind at 1, gets. cbn [fst snd]. intros Hrec.
  assert (Hin : hash ∈ saved_tool_sets w1 /\ ref = mk_tool_set_ref hash (length defs)).
  { revert Hrec. case_bool_decide as Hk; cbn [negb when].
    - unfold bind, ret. intros [= <- <-]. done.
    - unfold bind, stored. destruct (fault _) as [[took e]|]; [done|]. unfold save_tool_set, modify, ret. cbn.
      intros [= <- <-]. cbn. split; [set_solver | done]. }
  destruct Hin as [Hin ->]. pose proof Hw1 as (_ & Hb & Hm). specialize (Hm hash Hin).
  destruct (tool_sets (tables w1) !! hash) as [set|] eqn:Es; [|done].
  destruct (run_calls_keep hash set _ (or_intror eq_refl) r calls w1 (conj Hw1 Es)) as [_ Hs].
  exists set. unfold load_tool_set. cbn. rewrite Hs. split_and!; [done | by apply Hb | done].
Qed.
End Claims.

(** ** A concrete world *)

Module Sample.

(** A store that fails at the ticks of [bad]. *)
Definition outside (bad : nat -> option (bool * StorageError)) : Outside := {|
  order_by := fun A k l => l;
  clock := fun n => (100 + Z.of_nat n)%Z;
  fresh_step := N.of_nat;
  fresh_span := N.of_nat;
  fault := bad;
  tool_set_hash := fun defs => Ok (String.concat "," (map tool_definition_name defs));
|}.
Definition empty : World := mk_world (mk_tables ∅ ∅ ∅ ∅) [] ∅ 0.
Lemma empty_ok bad : world_ok (O := outside bad) empty.
Proof. split; [split; apply map_Forall_empty | split; [apply map_Forall_empty | set_solver]]. Qed.

Definition recorder : SpanRecorder := mk_recorder "cli" "user".
Definition bash_tool : LlmToolDefinition := mk_tool_definition "bash" "runs a command" Message.JNull.
Definition read_tool : LlmToolDefinition := mk_tool_definition "read" "reads a file" Message.JNull.
Definition tool_kind : SpanKind := ToolCall (mk_tool_begin "bash" None Message.JNull) None.
(** The write that would close the step is lost. *)
Definition flaky : Outside := outside (fun n => if Nat.eqb n 7 then Some (false, Conflict "busy") else None).
Definition step1 : StepHandle := mk_step_handle 1 7 LlmIteration 100.
Definition span4 : SpanHandle := mk_span_handle 4 1 tool_kind 103 None.
Definition calls : list RecorderCall :=
  [CallBeginStep 7 LlmIteration; CallBeginSpan step1 tool_kind None; CallEndStep step1 OutcomeOk;
   CallEndSpan span4 7 FinalizeEmpty OutcomeOk].

Lemma recorder_pairs_rows_witness :
  let w := run_calls (O := flaky) recorder calls empty in
  (step_ended_at <$> (steps (tables w) !! 1%N ≫= fun d => match step_from_row d with Ok s => Some s | Err _ => None end))
    = Some None /\
  (span_ended_at <$> (spans (tables w) !! 4%N ≫= fun d => match span_from_row d with Ok s => Some s | Err _ => None end))
    = Some (Some 108%Z) /\
  world_ok (O := flaky) w.
Proof.
  split_and!; [vm_compute; reflexivity.. |].
  apply (recorder_pairs_rows (O := flaky) recorder calls empty), empty_ok.
Defined.

Lemma offered_set_resolves_witness :
  let O := outside (fun _ => None) in
  let w1 := (record_tool_set [bash_tool; read_tool] empty).1 in
  exists set, (load_tool_set "bash,read" (tables (run_calls recorder (CallRecordToolSet [bash_tool] :: calls) w1))).2
                = Ok (Some set)
    /\ tool_set_hash set = Ok "bash,read"%string /\ 2 = length [bash_tool; read_tool].
Proof.
  cbv zeta.
  apply (offered_set_resolves (O := outside (fun _ => None)) recorder (CallRecordToolSet [bash_tool] :: calls) empty _
    [bash_tool; read_tool] (mk_tool_set_ref "bash,read" 2)); [apply empty_ok | reflexivity].
Defined.
End Sample.

End Trace.
