(* ===== verification/Recovery.v ===== *)
(** * Recovery of orphaned turns and trace rows ([crates/agent/src/recovery.rs],
      the listings of [crates/turn/src/lifecycle.rs])

    A turn dropped mid-flight leaves its row unfinished and its steps and spans
    open.  At boot the sweep closes them bottom-up at the last activity on
    record; when one actor panics, its session is closed at the crash.  The
    sweep drives the turn orchestrator of [Lifecycle] and the tables of
    [Trace]. *)

From S2P Require Import Prelude Message Turn Lifecycle Effect ToolTrace Trace.
Import Lifecycle Effect Trace.

Module Recovery.

Abbreviation Turn := Turn.Turn.
Abbreviation TurnRow := Turn.TurnRow.
Abbreviation TurnError := Turn.TurnError.

(** ** Listings of the turn store *)

Definition NON_TERMINAL_STATUS : list string := ["pending"; "in_progress"; "stuck"].
Definition is_non_terminal (r : TurnRow) : bool := existsb (String.eqb (Turn.row_status_kind r)) NON_TERMINAL_STATUS.

Class TurnListing (S : Type) `{TurnStore S} := {
  store_list_recoverable : S -> S * result (list TurnRow) StorageError;
  store_list_active_by_session : Turn.SessionId -> S -> S * result (list TurnRow) StorageError;
}.
(** A listing changes nothing, and lists exactly the rows it names. *)
Class TurnListingLaws (S : Type) `{TurnListing S} := {
  list_recoverable_view s :
    view (store_list_recoverable s).1 = view s /\
    forall l, (store_list_recoverable s).2 = Ok l ->
      forall r, r ∈ l <-> exists i, view s !! i = Some r /\ is_non_terminal r = true;
  list_active_view session s :
    view (store_list_active_by_session session s).1 = view s /\
    forall l, (store_list_active_by_session session s).2 = Ok l ->
      forall r, r ∈ l <-> exists i, view s !! i = Some r /\ is_non_terminal r = true
                                    /\ Turn.row_session_id r = session;
}.
(** [MemoryTurnStore] ([crates/turn/src/test_support.rs]). *)
Definition memory_rows (p : TurnRow -> bool) (s : gmap Turn.TurnId TurnRow) : list TurnRow :=
  List.filter p (map snd (map_to_list s)).
Definition memory_list_recoverable (s : gmap Turn.TurnId TurnRow)
    : gmap Turn.TurnId TurnRow * result (list TurnRow) StorageError := (s, Ok (memory_rows is_non_terminal s)).
Definition memory_list_active_by_session (session : Turn.SessionId) (s : gmap Turn.TurnId TurnRow)
    : gmap Turn.TurnId TurnRow * result (list TurnRow) StorageError :=
  (s, Ok (memory_rows (fun r => String.eqb (Turn.row_session_id r) session && is_non_terminal r) s)).
#[export] Instance MemoryTurnListing : TurnListing (gmap Turn.TurnId TurnRow) := {
  store_list_recoverable := memory_list_recoverable;
  store_list_active_by_session := memory_list_active_by_session;
}.

(** ** The sweep *)

Inductive RecoveryClock := ObservedActivity | CrashAt (at_ : Time).
Definition close_time (c : RecoveryClock) (observed_floor : Time) : Time :=
  match c with
  | ObservedActivity => observed_floor
  | CrashAt crash_at => Z.max crash_at observed_floor
  end.
Definition RECOVERY_CANCEL_REASON : Turn.CancelReason := Turn.SystemCrash.
Definition recovery_outcome : LifecycleOutcome := OutcomeCancelled RECOVERY_CANCEL_REASON.

Record RecoverySummary := mk_summary {
  turns_inspected : nat;
  turns_cancelled : nat;
  steps_closed : nat;
  spans_closed : nat;
}.
Definition no_recovery : RecoverySummary := mk_summary 0 0 0 0.

Record World (S : Type) := mk_world {
  trace : Trace.World;
  life : TurnLifecycle S;
}.
Arguments mk_world {S} _ _.
Arguments trace {S} _.
Arguments life {S} _.

Section Sweep.
Context {S : Type} `{TurnListing S} `{Turn.TurnCodec} {O : Trace.Outside}.

Abbreviation Run A := (M (World S) TraceError A).

Definition on_trace {A} (f : Tables -> Tables * result A StorageError) : Run A :=
  zoom trace (fun t w => mk_world t (life w)) (stored f).
(** A call of the orchestrator, its error as a value. *)
Definition on_life {A} (m : LM S A) : Run (result A TurnError) := fun w =>
  let (l, r) := m (life w) in (mk_world (trace w) l, Ok r).

Fixpoint decode_turns (rows : list TurnRow) : result (list Turn) TurnError :=
  match rows with
  | [] => Ok []
  | r :: rows => let? t := Turn.from_row r in let? ts := decode_turns rows in Ok (t :: ts)
  end.
Definition lc_list_recoverable : LM S (list Turn) :=
  Lifecycle.bind (on_store store_list_recoverable) (fun rows => lift (decode_turns rows)).
Definition lc_list_active_by_session (session : Turn.SessionId) : LM S (list Turn) :=
  Lifecycle.bind (on_store (store_list_active_by_session session)) (fun rows => lift (decode_turns rows)).

Fixpoint decode_all {A B} (f : A -> result B TraceError) (l : list A) : result (list B) TraceError :=
  match l with
  | [] => Ok []
  | a :: l => let? b := f a in let? bs := decode_all f l in Ok (b :: bs)
  end.

Definition pick_span_close_time (sp : Span) : Run Time :=
  let* rows := on_trace (list_span_events (span_id sp)) in
  let* events := of_result (decode_all event_from_row rows) in
  ret (foldl (fun at_ ev => if (at_ <? Trace.at_ ev)%Z then Trace.at_ ev else at_) (span_started_at sp) events).

Definition raise (ended floor : Time) : Time := if (floor <? ended)%Z then ended else floor.

(** The body of the loop of [close_step_spans]: whether a row was closed, and
    when it ended. *)
Definition settle_span (clock : RecoveryClock) (sp : Span) : Run (nat * Time) :=
  match span_outcome sp, span_ended_at sp with
  | Done _, Some at_ => ret (0, at_)
  | Done _, None =>
      let* _ := on_trace (save_span (span_id sp) (SpanJson (span_ended (span_started_at sp) sp))) in
      ret (0, span_started_at sp)
  | Pending, _ =>
      let* picked := pick_span_close_time sp in
      let close_at := close_time clock picked in
      let* _ := on_trace (save_span (span_id sp) (SpanJson (span_close recovery_outcome close_at sp))) in
      ret (1, close_at)
  end.
Fixpoint close_spans (clock : RecoveryClock) (l : list Span) (closed : nat) (floor : Time) : Run (nat * Time) :=
  match l with
  | [] => ret (closed, floor)
  | sp :: l =>
      let* ended := settle_span clock sp in
      close_spans clock l (closed + ended.1) (raise ended.2 floor)
  end.
Definition close_step_spans (step : Step) (step_started : Time) (clock : RecoveryClock) : Run (nat * Time) :=
  let* rows := on_trace (list_spans_by_step (step_id step)) in
  let* l := of_result (decode_all (fun r => span_from_row r.2) rows) in
  close_spans clock l 0 (close_time clock step_started).

(** The body of the loop of [close_turn_subtree], behind the spans. *)
Definition settle_step (clock : RecoveryClock) (st : Step) (step_floor : Time) : Run (nat * Time) :=
  match step_outcome st, step_ended_at st with
  | Done _, Some at_ => ret (0, at_)
  | Done _, None =>
      let* _ := on_trace (save_step (step_id st) (StepJson (step_ended step_floor st))) in
      ret (0, step_floor)
  | Pending, _ =>
      let close_at := close_time clock step_floor in
      let* _ := on_trace (save_step (step_id st) (StepJson (step_close recovery_outcome close_at st))) in
      ret (1, close_at)
  end.
Fixpoint close_steps (clock : RecoveryClock) (l : list Step) (nsteps nspans : nat) (floor : Time)
    : Run (nat * nat * Time) :=
  match l with
  | [] => ret (nsteps, nspans, floor)
  | st :: l =>
      let* spans := close_step_spans st (step_started_at st) clock in
      let* ended := settle_step clock st spans.2 in
      close_steps clock l (nsteps + ended.1) (nspans + spans.1) (raise ended.2 floor)
  end.
(** A row that does not decode is skipped. *)
Definition decodable_steps (rows : list (StepId * StepData)) : list Step :=
  omap (fun r => match step_from_row r.2 with Ok s => Some s | Err _ => None end) rows.
Definition close_turn_subtree (turn : Turn.TurnId) (turn_started : Time) (clock : RecoveryClock)
    : Run (nat * nat * Time) :=
  let* rows := on_trace (list_steps_by_turn turn) in
  close_steps clock (decodable_steps rows) 0 0 (close_time clock turn_started).

Definition started_or_created (t : Turn) : Time := default (Turn.created_at t) (Turn.started_at t).
Definition cancelled_one (b : bool) (s : RecoverySummary) : RecoverySummary :=
  mk_summary (turns_inspected s) (turns_cancelled s + if b then 1 else 0) (steps_closed s) (spans_closed s).
Definition closed_rows (n m : nat) (s : RecoverySummary) : RecoverySummary :=
  mk_summary (turns_inspected s) (turns_cancelled s) (steps_closed s + n) (spans_closed s + m).
Definition inspected_one (s : RecoverySummary) : RecoverySummary :=
  mk_summary (turns_inspected s + 1) (turns_cancelled s) (steps_closed s) (spans_closed s).

(** One turn of a listing.  At boot a terminal turn is left alone; the sweep of
    a session cancels whatever it listed. *)
Definition recover_turn (clock : RecoveryClock) (only_live : bool) (turn : Turn) (s : RecoverySummary)
    : Run RecoverySummary :=
  let s := inspected_one s in
  let* r := attempt (close_turn_subtree (Turn.id turn) (started_or_created turn) clock) in
  match r with
  | Err _ => ret s
  | Ok (n, m, end_floor) =>
      let s := closed_rows n m s in
      if only_live && Turn.is_terminal turn then ret s
      else
        let* c := on_life (lc_cancel_at (Turn.id turn) RECOVERY_CANCEL_REASON [] end_floor) in
        ret (cancelled_one (is_Ok c) s)
  end.
Fixpoint recover_turns (clock : RecoveryClock) (only_live : bool) (l : list Turn) (s : RecoverySummary)
    : Run RecoverySummary :=
  match l with
  | [] => ret s
  | t :: l => let* s := recover_turn clock only_live t s in recover_turns clock only_live l s
  end.

(** Turns of the unfinished steps the listing of turns did not name. *)
Definition detached_turns (known : gset Turn.TurnId) (rows : list (StepId * StepData)) : gset Turn.TurnId :=
  list_to_set (map turn_id (List.filter (fun s => negb (bool_decide (turn_id s ∈ known))) (decodable_steps rows))).
Definition recover_detached_turn (turn : Turn.TurnId) (s : RecoverySummary) : Run RecoverySummary :=
  let* got := on_life (lc_get turn) in
  match got with
  | Err _ | Ok None => ret s
  | Ok (Some t) =>
      if negb (Turn.is_terminal t) then ret s
      else
        let* r := attempt (close_turn_subtree (Turn.id t) (started_or_created t) ObservedActivity) in
        match r with
        | Err _ => ret s
        | Ok (n, m, _) =>
            ret (if Nat.ltb 0 n || Nat.ltb 0 m then closed_rows n m (inspected_one s) else s)
        end
  end.
Fixpoint recover_detached_turns (l : list Turn.TurnId) (s : RecoverySummary) : Run RecoverySummary :=
  match l with
  | [] => ret s
  | t :: l => let* s := recover_detached_turn t s in recover_detached_turns l s
  end.
Definition recover_detached_trace_rows (known : gset Turn.TurnId) (s : RecoverySummary) : Run RecoverySummary :=
  let* rows := attempt (on_trace list_unfinished_steps) in
  match rows with
  | Err _ => ret s
  | Ok rows => recover_detached_turns (elements (detached_turns known rows)) s
  end.

Definition recover_orphaned_traces_and_turns : Run RecoverySummary :=
  let* turns := on_life lc_list_recoverable in
  match turns with
  | Err _ => ret no_recovery
  | Ok turns =>
      let* s := recover_turns ObservedActivity true turns no_recovery in
      recover_detached_trace_rows (list_to_set (map Turn.id turns)) s
  end.

Definition recover_panicked_actor_session (session : Turn.SessionId) (crash_at : Time) : Run RecoverySummary :=
  let* turns := on_life (lc_list_active_by_session session) in
  match turns with
  | Err _ => ret no_recovery
  | Ok turns => recover_turns (CrashAt crash_at) false turns no_recovery
  end.
End Sweep.
(** ** What a sweep may do to the tables *)

Definition step_closed (st : Step) : Prop := is_terminal (step_outcome st) = true /\ is_some (step_ended_at st) = true.
Definition span_closed (sp : Span) : Prop := is_terminal (span_outcome sp) = true /\ is_some (span_ended_at sp) = true.
(** The outcome an unfinished row gets: its own, or the crash. *)
Definition outcome_of (s : LifecycleState) : LifecycleState :=
  match s with Done o => Done o | Pending => Done recovery_outcome end.
Definition step_advance (d d' : StepData) : Prop :=
  d' = d \/ exists st e, d = StepJson st /\ ~ step_closed st /\ (step_started_at st <= e)%Z /\
    d' = StepJson (mk_step (step_id st) (turn_id st) (step_kind st) (step_started_at st) (Some e)
                     (outcome_of (step_outcome st))).
Definition span_advance (d d' : SpanData) : Prop :=
  d' = d \/ exists sp e, d = SpanJson sp /\ ~ span_closed sp /\ (span_started_at sp <= e)%Z /\
    d' = SpanJson (mk_span (span_id sp) (span_step_id sp) (span_kind sp) (parallel_group sp) (span_started_at sp)
                     (Some e) (outcome_of (span_outcome sp)) (span_events_inline sp)).

(** Row by row: the same rows, each as it was or closed. *)
Record later (t t' : Tables) : Prop := {
  later_steps : forall i, option_relation step_advance (fun _ => False) (fun _ => False) (steps t !! i) (steps t' !! i);
  later_spans : forall i, option_relation span_advance (fun _ => False) (fun _ => False) (spans t !! i) (spans t' !! i);
  later_events : span_events t' = span_events t;
}.

Lemma outcome_of_done s : is_terminal (outcome_of s) = true.
Proof. by destruct s. Qed.
Lemma step_advance_trans a b c : step_advance a b -> step_advance b c -> step_advance a c.
Proof.
  intros [->|(st & e & -> & Ho & He & ->)]; [done|].
  intros [->|(st' & e' & [= <-] & Ho' & _)]; [right; eauto 6 | destruct Ho'; by split; [apply outcome_of_done|]].
Qed.
Lemma span_advance_trans a b c : span_advance a b -> span_advance b c -> span_advance a c.
Proof.
  intros [->|(st & e & -> & Ho & He & ->)]; [done|].
  intros [->|(st' & e' & [= <-] & Ho' & _)]; [right; eauto 6 | destruct Ho'; by split; [apply outcome_of_done|]].
Qed.
#[export] Instance later_preorder : PreOrder later.
Proof.
  split.
  - intros t. split; [| |done]; intros i; [destruct (steps t !! i) | destruct (spans t !! i)]; cbn; try done; by left.
  - intros a b c [Hs Hp He] [Hs' Hp' He']. split; [| |congruence]; intros i.
    + specialize (Hs i). specialize (Hs' i). destruct (steps a !! i), (steps b !! i), (steps c !! i); cbn in *; try done.
      by eapply step_advance_trans.
    + specialize (Hp i). specialize (Hp' i). destruct (spans a !! i), (spans b !! i), (spans c !! i); cbn in *; try done.
      by eapply span_advance_trans.
Qed.

Lemma later_step_json t t' i st :
  later t t' -> steps t !! i = Some (StepJson st) -> step_closed st -> steps t' !! i = Some (StepJson st).
Proof.
  intros [Hs _ _] Hi Hc. specialize (Hs i). rewrite Hi in Hs. destruct (steps t' !! i) as [d'|]; [|done]. cbn in Hs.
  destruct Hs as [->|(st' & e & [= <-] & Hn & _)]; [done | by destruct Hn].
Qed.
Lemma later_span_json t t' i sp :
  later t t' -> spans t !! i = Some (SpanJson sp) -> span_closed sp -> spans t' !! i = Some (SpanJson sp).
Proof.
  intros [_ Hs _] Hi Hc. specialize (Hs i). rewrite Hi in Hs. destruct (spans t' !! i) as [d'|]; [|done]. cbn in Hs.
  destruct Hs as [->|(st' & e & [= <-] & Hn & _)]; [done | by destruct Hn].
Qed.
(** Nothing appears, and parents stay. *)
Lemma later_step_inv t t' i st' :
  later t t' -> steps t' !! i = Some (StepJson st') ->
  exists st, steps t !! i = Some (StepJson st) /\ turn_id st = turn_id st' /\ step_id st = step_id st'.
Proof.
  intros [Hs _ _] Hi. specialize (Hs i). rewrite Hi in Hs. destruct (steps t !! i) as [d|]; [|done]. cbn in Hs.
  destruct Hs as [<-|(st & e & -> & _ & _ & [= ->])]; eauto.
Qed.
Lemma later_span_inv t t' i sp' :
  later t t' -> spans t' !! i = Some (SpanJson sp') ->
  exists sp, spans t !! i = Some (SpanJson sp) /\ span_step_id sp = span_step_id sp' /\ span_id sp = span_id sp'.
Proof.
  intros [_ Hs _] Hi. specialize (Hs i). rewrite Hi in Hs. destruct (spans t !! i) as [d|]; [|done]. cbn in Hs.
  destruct Hs as [<-|(st & e & -> & _ & _ & [= ->])]; eauto.
Qed.

(** The write of one step or span that was read open. *)
Definition closing_step (st : Step) (e : Time) : Step :=
  mk_step (step_id st) (turn_id st) (step_kind st) (step_started_at st) (Some e) (outcome_of (step_outcome st)).
Definition closing_span (sp : Span) (e : Time) : Span :=
  mk_span (span_id sp) (span_step_id sp) (span_kind sp) (parallel_group sp) (span_started_at sp)
    (Some e) (outcome_of (span_outcome sp)) (span_events_inline sp).
Lemma save_step_later i st e t :
  steps t !! i = Some (StepJson st) -> ~ step_closed st -> (step_started_at st <= e)%Z ->
  later t (save_step i (StepJson (closing_step st e)) t).1.
Proof.
  intros Hi Ho He. split; [| |done]; intros j; cbn.
  - destruct (decide (i = j)) as [<-|Hne].
    + rewrite lookup_insert_eq, Hi. cbn. right. eauto 6.
    + rewrite lookup_insert_ne by done. destruct (steps t !! j); [by left | done].
  - destruct (spans t !! j); [by left | done].
Qed.
Lemma save_span_later i sp e t :
  spans t !! i = Some (SpanJson sp) -> ~ span_closed sp -> (span_started_at sp <= e)%Z ->
  later t (save_span i (SpanJson (closing_span sp e)) t).1.
Proof.
  intros Hi Ho He. split; [| |done]; intros j; cbn.
  - destruct (steps t !! j); [by left | done].
  - destruct (decide (i = j)) as [<-|Hne].
    + rewrite lookup_insert_eq, Hi. cbn. right. eauto 6.
    + rewrite lookup_insert_ne by done. destruct (spans t !! j); [by left | done].
Qed.

Section Subtree.
Context {S : Type} {O : Trace.Outside}.
Implicit Types (w : World S).

Definition tb (w : World S) : Tables := tables (trace w).

Lemma read_spec {A} (f : Tables -> Tables * result A StorageError) w :
  (forall t, (f t).1 = t) ->
  wp (on_trace f) (fun r w' => tb w' = tb w /\ life w' = life w /\ forall a, r = Ok a -> (f (tb w)).2 = Ok a) w.
Proof.
  intros Hf. unfold wp, on_trace, zoom, stored, tb. specialize (Hf (tables (trace w))).
  destruct (fault _) as [[[] e]|]; cbn; [by rewrite Hf | done |].
  destruct (f (tables (trace w))) as [t [a|e]]; cbn in *; split_and!; try done. by intros ? [= <-].
Qed.
Lemma write_spec (f : Tables -> Tables * result unit StorageError) w :
  wp (on_trace f) (fun r w' => life w' = life w /\ (tb w' = tb w \/ tb w' = (f (tb w)).1) /\
                               forall a, r = Ok a -> tb w' = (f (tb w)).1) w.
Proof.
  unfold wp, on_trace, zoom, stored, tb.
  destruct (fault _) as [[[] e]|]; cbn; [split_and!; try done; by right | split_and!; try done; by left |].
  destruct (f (tables (trace w))) as [t [a|e]]; cbn in *; split_and!; try done; by right.
Qed.

Lemma latest_event evs s0 :
  (s0 <= foldl (fun at_ ev => if (at_ <? Trace.at_ ev)%Z then Trace.at_ ev else at_) s0 evs)%Z.
Proof.
  revert s0; induction evs as [|ev evs IH]; intros s0; cbn; [lia|]. etrans; [|apply IH].
  destruct (Z.ltb_spec s0 (Trace.at_ ev)); lia.
Qed.
Lemma pick_spec sp w :
  wp (pick_span_close_time sp)
     (fun r w' => tb w' = tb w /\ life w' = life w /\ forall a, r = Ok a -> (span_started_at sp <= a)%Z) w.
Proof.
  unfold pick_span_close_time. apply wp_bind. eapply wp_mono; [by apply read_spec|].
  intros [rows|e] w1 (Ht & Hl & _); [|done]. unfold wp, bind, of_result.
  destruct (decode_all event_from_row rows) as [evs|]; cbn; [|done]. split_and!; [done..|].
  intros a [= <-]. apply latest_event.
Qed.
Lemma close_time_le clock a b : (a <= b)%Z -> (a <= close_time clock b)%Z.
Proof. destruct clock; cbn; lia. Qed.
Lemma raise_le ended floor : (floor <= raise ended floor)%Z /\ (ended <= raise ended floor)%Z.
Proof. unfold raise. destruct (Z.ltb_spec floor ended); lia. Qed.

(** What handling one open span leaves: the others as they were, and it closed
    unless something failed. *)
Definition span_settled (sp : Span) w (r : result (nat * Time) TraceError) w' : Prop :=
  later (tb w) (tb w') /\ steps (tb w') = steps (tb w) /\ life w' = life w
  /\ (forall k, k <> span_id sp -> spans (tb w') !! k = spans (tb w) !! k)
  /\ forall x, r = Ok x -> exists sp', spans (tb w') !! span_id sp = Some (SpanJson sp') /\ span_closed sp'.
Lemma write_span_settled sp e n w :
  spans (tb w) !! span_id sp = Some (SpanJson sp) -> ~ span_closed sp -> (span_started_at sp <= e)%Z ->
  wp (let* _ := on_trace (save_span (span_id sp) (SpanJson (closing_span sp e))) in
      ret (n, e)) (span_settled sp w) w.
Proof.
  intros Hi Ho He. apply wp_bind. eapply wp_mono; [apply write_spec|].
  assert (Hl : later (tb w) (save_span (span_id sp) (SpanJson (closing_span sp e)) (tb w)).1) by by apply save_span_later.
  intros r w1 (Hlife & Hcase & Hok). assert (Hst : span_settled sp w (match r with Ok _ => Ok (n, e) | Err er => Err er end) w1).
  { unfold span_settled. destruct Hcase as [Ht|Ht]; rewrite Ht.
    - split_and!; try done. destruct r as [u|]; [|done]. intros x _. rewrite <- Ht, (Hok u eq_refl). cbn.
      rewrite lookup_insert_eq. eexists. split; [done|]. split; [apply outcome_of_done | done].
    - split_and!; try done; cbn; [intros k Hk; by rewrite lookup_insert_ne|].
      intros x _. rewrite lookup_insert_eq. eexists. split; [done|]. split; [apply outcome_of_done | done]. }
  by destruct r as [[]|].
Qed.
Lemma settle_span_spec clock sp w :
  spans (tb w) !! span_id sp = Some (SpanJson sp) -> wp (settle_span clock sp) (span_settled sp w) w.
Proof.
  intros Hi. unfold settle_span.
  destruct (span_outcome sp) as [|o] eqn:Eo; [|destruct (span_ended_at sp) as [e|] eqn:Ee].
  - apply wp_bind. eapply wp_mono; [apply pick_spec|]. intros [a|er] w1 (Ht & Hl & Ha); cbn -[on_trace].
    + assert (Hc : span_close recovery_outcome (close_time clock a) sp = closing_span sp (close_time clock a)).
      { unfold closing_span. by rewrite Eo. }
      rewrite Hc. eapply wp_mono; [apply write_span_settled|].
      * by rewrite Ht.
      * intros [Hd _]. by rewrite Eo in Hd.
      * by apply close_time_le, Ha.
      * unfold span_settled. rewrite Ht, Hl. by intros.
    + unfold span_settled. rewrite Ht, Hl. by split_and!.
  - apply wp_ret. unfold span_settled. split_and!; try done. intros x _. exists sp. split; [done|].
    unfold span_closed. by rewrite Eo, Ee.
  - assert (Hc : span_ended (span_started_at sp) sp = closing_span sp (span_started_at sp)).
    { unfold closing_span, span_ended. by rewrite Eo. }
    rewrite Hc. apply write_span_settled; [done | | lia]. intros [_ Hd]. by rewrite Ee in Hd.
Qed.

Definition spans_in_place (t : Tables) (l : list Span) : Prop :=
  forall sp, sp ∈ l -> spans t !! span_id sp = Some (SpanJson sp).
Lemma close_spans_spec clock l c f w :
  NoDup (map span_id l) -> spans_in_place (tb w) l ->
  wp (close_spans clock l c f) (fun r w' =>
    later (tb w) (tb w') /\ steps (tb w') = steps (tb w) /\ life w' = life w /\
    (forall k, k ∉ map span_id l -> spans (tb w') !! k = spans (tb w) !! k) /\
    forall n fl, r = Ok (n, fl) -> (f <= fl)%Z /\
      forall sp, sp ∈ l -> exists sp', spans (tb w') !! span_id sp = Some (SpanJson sp') /\ span_closed sp') w.
Proof.
  revert c f w; induction l as [|sp l IH]; intros c f w Hn Hin; cbn [close_spans].
  { apply wp_ret. split_and!; try done. intros n fl [= <- <-]. split; [lia|]. intros sp []%elem_of_nil. }
  apply NoDup_cons in Hn as [Hni Hn]. apply wp_bind.
  eapply wp_mono; [apply settle_span_spec, Hin; constructor|].
  intros [x|e] w1 (Hl & Hs & Hlf & Hk & Hx);
    [|split_and!; try done; intros k [Hne _]%not_elem_of_cons; by apply Hk]. eapply wp_mono; [apply IH; [done|]|].
  - intros sp2 Hsp2. rewrite Hk; [apply Hin; by constructor 2|].
    intros E. apply Hni. rewrite <- E. by apply list_elem_of_fmap_2.
  - intros r w2 (Hl2 & Hs2 & Hlf2 & Hk2 & Hr). split_and!; [by etrans | congruence | congruence | |].
    { intros k [Hne Hnk]%not_elem_of_cons. rewrite Hk2 by done. by apply Hk. }
    intros n fl Hok. destruct (Hr n fl Hok) as [Hfl Hall]. split; [pose proof (raise_le x.2 f); lia|].
    intros sp2 [->|Hsp2]%elem_of_cons; [|by apply Hall].
    destruct (Hx x eq_refl) as (sp' & Hsp' & Hc). exists sp'. split; [by eapply later_span_json | done].
Qed.

(** *** A step and its spans *)

Lemma closing_step_ok st e : step_row_ok (step_id st) (StepJson (closing_step st e)).
Proof. split; [done|]. unfold step_paired. cbn. by rewrite outcome_of_done. Qed.
Lemma later_ok t t' : tables_ok t -> later t t' -> tables_ok t'.
Proof.
  intros [Hs Hp] Hl. split; intros i d' Hi.
  - pose proof (later_steps _ _ Hl i) as Ha. rewrite Hi in Ha. destruct (steps t !! i) as [d|] eqn:E; [|done].
    cbn in Ha. specialize (Hs i d E). destruct Ha as [->|(st & e & -> & _ & _ & ->)]; [done|].
    destruct Hs as [<- _]. apply (closing_step_ok st).
  - pose proof (later_spans _ _ Hl i) as Ha. rewrite Hi in Ha. destruct (spans t !! i) as [d|] eqn:E; [|done].
    cbn in Ha. specialize (Hp i d E). destruct Ha as [->|(st & e & -> & _ & _ & ->)]; [done|].
    destruct Hp as [<- _]. split; [done|]. unfold span_paired. cbn. by rewrite outcome_of_done.
Qed.

Lemma decode_all_spec {A B} (f : A -> result B TraceError) l bs :
  decode_all f l = Ok bs -> Forall2 (fun a b => f a = Ok b) l bs.
Proof.
  revert bs; induction l as [|a l IH]; intros bs; cbn; [by intros [= <-]|].
  destruct (f a) eqn:E; [|done]. cbn. destruct (decode_all f l); [|done]. cbn. intros [= <-].
  constructor; auto.
Qed.

Section Listed.
Context (HO : OrderLaws O).

(** The rows of a table a query picks. *)
Definition rows_where {D} (key : N * D -> Z) (p : N * D -> bool) (m : gmap N D) : list (N * D) :=
  order_by key (List.filter p (map_to_list m)).
Lemma elem_of_rows {D} key p (m : gmap N D) k d :
  (k, d) ∈ rows_where key p m <-> m !! k = Some d /\ p (k, d) = true.
Proof using HO.
  unfold rows_where. rewrite (order_by_perm _ _ _), list_elem_of_In, List.filter_In, <- list_elem_of_In,
    elem_of_map_to_list. done.
Qed.
Lemma rows_keys {D} key p (m : gmap N D) : NoDup (map fst (rows_where key p m)).
Proof using HO.
  unfold rows_where. rewrite (order_by_perm _ _ _). change (NoDup (List.filter p (map_to_list m)).*1).
  eapply sublist_NoDup; [apply (NoDup_fst_map_to_list m)|].
  apply fmap_sublist. generalize (map_to_list m). intros l.
  induction l as [|r l IH]; [constructor|]. cbn. destruct (p r); by constructor.
Qed.
Definition span_rows (t : Tables) (step : StepId) : list (SpanId * SpanData) :=
  rows_where (fun r => col_span_started r.2) (fun r => N.eqb (col_step_id r.2) step) (spans t).
Lemma elem_of_span_rows t step k d :
  (k, d) ∈ span_rows t step <-> spans t !! k = Some d /\ col_step_id d = step.
Proof using HO. unfold span_rows. by rewrite elem_of_rows, N.eqb_eq. Qed.
Lemma span_rows_keys t step : NoDup (map fst (span_rows t step)).
Proof using HO. apply rows_keys. Qed.
Lemma listed_spans t step l :
  tables_ok t -> decode_all (fun r => span_from_row r.2) (span_rows t step) = Ok l ->
  map span_id l = map fst (span_rows t step) /\ spans_in_place t l /\
  (forall k sp, spans t !! k = Some (SpanJson sp) -> span_step_id sp = step -> span_id sp = k /\ sp ∈ l).
Proof using HO.
  intros [_ Hok] Hd%decode_all_spec.
  assert (Hids : map span_id l = map fst (span_rows t step) /\
    forall sp, sp ∈ l -> spans t !! span_id sp = Some (SpanJson sp)).
  { assert (Hrows : forall k d, (k, d) ∈ span_rows t step -> spans t !! k = Some d) by (by intros k d [? _]%elem_of_span_rows).
    revert Hd Hrows. generalize (span_rows t step). intros rows Hd. induction Hd as [|[k d] sp rows l Hsp Hd IH]; intros Hrows.
    - split; [done | by intros sp []%elem_of_nil].
    - destruct d as [sp0|]; [|done]. injection Hsp as ->.
      assert (Hk : spans t !! k = Some (SpanJson sp)) by (apply Hrows; constructor).
      destruct (Hok k _ Hk) as [Hid _]. destruct IH as [IH1 IH2]; [intros; apply Hrows; by constructor 2|].
      split; [cbn; by rewrite IH1, Hid|]. intros sp2 [->|H2]%elem_of_cons; [by rewrite Hid | by apply IH2]. }
  destruct Hids as [Hids Hin]. split_and!; [done | done |].
  intros k sp Hk Hstep. split; [by destruct (Hok k _ Hk)|].
  assert (Hr : (k, SpanJson sp) ∈ span_rows t step) by by apply elem_of_span_rows.
  apply list_elem_of_lookup in Hr as [i Hi]. destruct (Forall2_lookup_l _ _ _ _ _ Hd Hi) as (sp2 & Hsp2 & [= ->]).
  by eapply list_elem_of_lookup_2.
Qed.

(** The rows of the turns [P] does not pick are as they were. *)
Definition spared (P : Turn.TurnId -> Prop) (t t' : Tables) : Prop :=
  (forall k d, steps t !! k = Some d -> ~ P (col_turn_id d) -> steps t' !! k = Some d) /\
  (forall k d, spans t !! k = Some d ->
     (forall st, steps t !! col_step_id d = Some st -> ~ P (col_turn_id st)) -> spans t' !! k = Some d).
Lemma spared_refl P t : spared P t t.
Proof. done. Qed.
Lemma spared_mono (P Q : Turn.TurnId -> Prop) t t' : (forall i, P i -> Q i) -> spared P t t' -> spared Q t t'.
Proof.
  intros HPQ [Hs Hp]. split; intros k d Hk Hn; [apply Hs | apply Hp]; try done; [by intros ?%HPQ|].
  intros st Hst ?%HPQ. by eapply Hn.
Qed.
Lemma later_col_turn t t' k d' : later t t' -> steps t' !! k = Some d' ->
  exists d, steps t !! k = Some d /\ col_turn_id d = col_turn_id d'.
Proof.
  intros [Hs _ _] Hk. specialize (Hs k). rewrite Hk in Hs. destruct (steps t !! k) as [d|]; [|done]. cbn in Hs.
  exists d. split; [done|]. by destruct Hs as [->|(st & e & -> & _ & _ & ->)].
Qed.
Lemma spared_trans P t t' t'' : later t t' -> spared P t t' -> spared P t' t'' -> spared P t t''.
Proof.
  intros Hl [Hs Hp] [Hs' Hp']. split; intros k d Hk Hn; [apply Hs'; [by apply Hs | done] |].
  apply Hp'; [by apply Hp|]. intros st' Hst'. destruct (later_col_turn _ _ _ _ Hl Hst') as (st & Hst & <-).
  by apply Hn.
Qed.

(** Every readable span under step [k] is closed. *)
Definition spans_closed_under (t : Tables) (k : StepId) : Prop :=
  forall p sp, spans t !! p = Some (SpanJson sp) -> span_step_id sp = k -> span_closed sp.
Lemma spans_closed_later t t' k : later t t' -> spans_closed_under t k -> spans_closed_under t' k.
Proof.
  intros Hl Hc p sp' Hp Hk. destruct (later_span_inv _ _ _ _ Hl Hp) as (sp & Hsp & Hst & _).
  assert (Hcl : span_closed sp) by (apply (Hc p); [done | congruence]).
  pose proof (later_span_json _ _ _ _ Hl Hsp Hcl) as E. rewrite Hp in E. by injection E as ->.
Qed.

Lemma close_step_spans_spec clock st w :
  tables_ok (tb w) ->
  wp (close_step_spans st (step_started_at st) clock) (fun r w' =>
    later (tb w) (tb w') /\ steps (tb w') = steps (tb w) /\ life w' = life w /\
    (forall k d, spans (tb w) !! k = Some d -> col_step_id d <> step_id st -> spans (tb w') !! k = Some d) /\
    forall n fl, r = Ok (n, fl) -> (step_started_at st <= fl)%Z /\ spans_closed_under (tb w') (step_id st)) w.
Proof using HO.
  intros Hok. unfold close_step_spans. apply wp_bind. eapply wp_mono; [by apply read_spec|].
  intros [rows|e] w1 (Ht & Hl & Hrows); cbn beta iota; [|rewrite Ht; by split_and!].
  specialize (Hrows rows eq_refl). injection Hrows as <-. unfold wp, bind at 1, of_result.
  destruct (decode_all _ _) as [l|e] eqn:E; [|cbn; rewrite Ht; by split_and!].
  destruct (listed_spans (tb w) (step_id st) l Hok E) as (Hids & Hin & Hall). cbn -[close_spans].
  assert (Hn : NoDup (map span_id l)) by (rewrite Hids; apply span_rows_keys).
  pose proof (close_spans_spec clock l 0 (close_time clock (step_started_at st)) w1 Hn) as H.
  unfold wp in H. rewrite Ht, Hl in H. destruct (H Hin) as (Hlat & Hst & Hlf & Hkeep & Hr). clear H.
  split_and!; [done..| |].
  { intros k d Hd Hne. rewrite Hkeep; [done|]. rewrite Hids. intros (r & -> & Hin2)%list_elem_of_fmap.
    destruct r as [k d']. apply elem_of_span_rows in Hin2 as [? ?]. cbn in *. congruence. }
  intros n fl Hres. destruct (Hr n fl Hres) as [Hfl Hc]. split.
  - etrans; [|exact Hfl]. by apply close_time_le.
  - intros p sp' Hp Hk. destruct (later_span_inv _ _ _ _ Hlat Hp) as (sp & Hsp & Hs2 & _).
    destruct (Hall p sp Hsp ltac:(congruence)) as [Hid Hinl]. destruct (Hc sp Hinl) as (sp2 & Hsp2 & Hc2).
    rewrite Hid in Hsp2. rewrite Hp in Hsp2. by injection Hsp2 as ->.
Qed.

Definition step_settled (st : Step) w (r : result (nat * Time) TraceError) w' : Prop :=
  later (tb w) (tb w') /\ spans (tb w') = spans (tb w) /\ life w' = life w
  /\ (forall k, k <> step_id st -> steps (tb w') !! k = steps (tb w) !! k)
  /\ forall x, r = Ok x -> exists st', steps (tb w') !! step_id st = Some (StepJson st')
                                    /\ is_terminal (step_outcome st') = true /\ step_ended_at st' = Some x.2.
Lemma write_step_settled st e n w :
  steps (tb w) !! step_id st = Some (StepJson st) -> ~ step_closed st -> (step_started_at st <= e)%Z ->
  wp (let* _ := on_trace (save_step (step_id st) (StepJson (closing_step st e))) in
      ret (n, e)) (step_settled st w) w.
Proof.
  intros Hi Ho He. apply wp_bind. eapply wp_mono; [apply write_spec|].
  assert (Hl : later (tb w) (save_step (step_id st) (StepJson (closing_step st e)) (tb w)).1) by by apply save_step_later.
  intros r w1 (Hlife & Hcase & Hok). assert (Hst : step_settled st w (match r with Ok _ => Ok (n, e) | Err er => Err er end) w1).
  { unfold step_settled. destruct Hcase as [Ht|Ht]; rewrite Ht.
    - split_and!; try done. destruct r as [u|]; [|done]. intros x [= <-]. rewrite <- Ht, (Hok u eq_refl). cbn.
      rewrite lookup_insert_eq. eexists. split; [done|]. split; [apply outcome_of_done | done].
    - split_and!; try done; cbn; [intros k Hk; by rewrite lookup_insert_ne|].
      intros x Hx. destruct r; [|done]. injection Hx as <-. rewrite lookup_insert_eq. eexists. split; [done|].
      split; [apply outcome_of_done | done]. }
  by destruct r as [[]|].
Qed.
Lemma settle_step_spec clock st fl w :
  steps (tb w) !! step_id st = Some (StepJson st) -> (step_started_at st <= fl)%Z ->
  wp (settle_step clock st fl) (step_settled st w) w.
Proof.
  intros Hi Hfl. unfold settle_step.
  destruct (step_outcome st) as [|o] eqn:Eo; [|destruct (step_ended_at st) as [e|] eqn:Ee].
  - assert (Hc : step_close recovery_outcome (close_time clock fl) st = closing_step st (close_time clock fl)).
    { unfold closing_step. by rewrite Eo. }
    rewrite Hc. apply write_step_settled; [done | | by apply close_time_le]. intros [Hd _]. by rewrite Eo in Hd.
  - apply wp_ret. unfold step_settled. split_and!; try done. intros x [= <-]. exists st. by rewrite Eo, Ee.
  - assert (Hc : step_ended fl st = closing_step st fl) by (unfold closing_step, step_ended; by rewrite Eo).
    rewrite Hc. apply write_step_settled; [done | | done]. intros [_ Hd]. by rewrite Ee in Hd.
Qed.

(** *** A turn and its steps *)

Definition steps_in_place (t : Tables) (l : list Step) : Prop :=
  forall st, st ∈ l -> steps t !! step_id st = Some (StepJson st).
Definition step_rows (t : Tables) (turn : Turn.TurnId) : list (StepId * StepData) :=
  rows_where (fun r => col_step_started r.2) (fun r => N.eqb (col_turn_id r.2) turn) (steps t).
Lemma decodable_steps_ids t rows :
  tables_ok t -> (forall k d, (k, d) ∈ rows -> steps t !! k = Some d) -> NoDup (map fst rows) ->
  NoDup (map step_id (decodable_steps rows)) /\ steps_in_place t (decodable_steps rows) /\
  (forall k st, (k, StepJson st) ∈ rows -> step_id st = k /\ st ∈ decodable_steps rows) /\
  (forall i, i ∈ map step_id (decodable_steps rows) -> i ∈ map fst rows).
Proof.
  intros [Hok _] Hrows Hn.
  assert (Hsub : forall i, i ∈ map step_id (decodable_steps rows) -> i ∈ map fst rows).
  { intros i (st & -> & Hst)%list_elem_of_fmap. apply list_elem_of_omap in Hst as ([k d] & Hin & Hd).
    destruct d as [st0|]; [|done]. injection Hd as ->. destruct (Hok k _ (Hrows _ _ Hin)) as [-> _].
    apply list_elem_of_fmap. by exists (k, StepJson st). }
  split_and!.
  - clear Hsub. revert Hrows Hn. induction rows as [|[k d] rows IH]; intros Hrows Hn; [constructor|]. apply NoDup_cons in Hn as [Hni Hn].
    assert (IH' := IH ltac:(intros; apply Hrows; by constructor 2) Hn).
    destruct d as [st|]; cbn; [|exact IH']. constructor; [|exact IH'].
    destruct (Hok k _ (Hrows k (StepJson st) ltac:(constructor))) as [-> _]. intros Hin. apply Hni.
    apply list_elem_of_fmap in Hin as (st2 & Hid & Hst2). apply list_elem_of_omap in Hst2 as ([k2 d2] & Hin & Hd).
    destruct d2 as [st0|]; [|done]. injection Hd as ->.
    destruct (Hok k2 (StepJson st2)) as [Hid2 _]; [apply Hrows; by constructor 2|].
    apply list_elem_of_fmap. exists (k2, StepJson st2). split; [cbn; congruence | done].
  - intros st Hst. apply list_elem_of_omap in Hst as ([k d] & Hin & Hd). destruct d as [st0|]; [|done].
    injection Hd as ->. pose proof (Hrows _ _ Hin) as Hk. by destruct (Hok k _ Hk) as [-> _].
  - intros k st Hin. split; [by destruct (Hok k _ (Hrows _ _ Hin))|].
    apply list_elem_of_omap. by exists (k, StepJson st).
  - exact Hsub.
Qed.

(** The readable steps of a turn are over by [at_], and their spans closed. *)
Definition step_done_by (t : Tables) (k : StepId) (st : Step) (by_ : Time) : Prop :=
  is_terminal (step_outcome st) = true /\ (exists e, step_ended_at st = Some e /\ (e <= by_)%Z) /\ spans_closed_under t k.
Definition tree_closed (t : Tables) (turn : Turn.TurnId) (by_ : Time) : Prop :=
  forall k st, steps t !! k = Some (StepJson st) -> turn_id st = turn -> step_done_by t k st by_.

Lemma close_steps_spec clock l a b f w :
  tables_ok (tb w) -> NoDup (map step_id l) -> steps_in_place (tb w) l ->
  wp (close_steps clock l a b f) (fun r w' =>
    later (tb w) (tb w') /\ life w' = life w /\
    (forall k, k ∉ map step_id l -> steps (tb w') !! k = steps (tb w) !! k) /\
    (forall k d, spans (tb w) !! k = Some d -> col_step_id d ∉ map step_id l -> spans (tb w') !! k = Some d) /\
    forall n m fl, r = Ok (n, m, fl) -> (f <= fl)%Z /\
      forall st, st ∈ l -> exists st', steps (tb w') !! step_id st = Some (StepJson st')
                                    /\ step_done_by (tb w') (step_id st) st' fl) w.
Proof using HO.
  revert a b f w; induction l as [|st l IH]; intros a b f w Hok Hn Hin; cbn [close_steps].
  { apply wp_ret. split_and!; try done. intros n m fl [= <- <- <-]. split; [lia|]. intros st []%elem_of_nil. }
  apply NoDup_cons in Hn as [Hni Hn]. apply wp_bind. eapply wp_mono; [by apply close_step_spans_spec|].
  intros [[ns sf]|e] w1 (Hl1 & Hs1 & Hf1 & Hp1 & Hr1);
    [|split_and!; try done; [by rewrite Hs1 | intros k d Hd [Hne _]%not_elem_of_cons; by apply Hp1]]. destruct (Hr1 ns sf eq_refl) as [Hsf Hspans]. cbn [fst snd].
  assert (Hst : steps (tb w1) !! step_id st = Some (StepJson st)) by (rewrite Hs1; apply Hin; constructor).
  apply wp_bind. eapply wp_mono; [by apply settle_step_spec|].
  intros [x|e] w2 (Hl2 & Hp2 & Hf2 & Hk2 & Hx); 
    [|split_and!; [by etrans | congruence | | | done];
      [intros k [Hne _]%not_elem_of_cons; by rewrite Hk2, Hs1
      | intros k d Hd [Hne _]%not_elem_of_cons; rewrite Hp2; by apply Hp1]].
  assert (Hl : later (tb w) (tb w2)) by by etrans.
  eapply wp_mono; [apply IH; [by eapply later_ok | done |]|].
  { intros st2 Hst2. rewrite Hk2, Hs1; [apply Hin; by constructor 2|].
    intros E. apply Hni. rewrite <- E. by apply list_elem_of_fmap_2. }
  intros r w3 (Hl3 & Hf3 & Hk3 & Hp3 & Hr3). split_and!; [by etrans | congruence | | |].
  { intros k [Hne Hnk]%not_elem_of_cons. by rewrite Hk3, Hk2, Hs1. }
  { intros k d Hd [Hne Hnk]%not_elem_of_cons. apply Hp3; [|done]. rewrite Hp2. by apply Hp1. }
  intros n m fl Hres. destruct (Hr3 n m fl Hres) as [Hfl Hall]. pose proof (raise_le x.2 f) as [Hra Hrb].
  split; [lia|]. intros st2 [->|Hst2]%elem_of_cons; [|by apply Hall].
  destruct (Hx x eq_refl) as (st' & Hst' & Ht' & He'). exists st'. split.
  - eapply later_step_json; [done.. |]. split; [done | by rewrite He'].
  - split_and!; [done | exists x.2; split; [done | lia] |].
    eapply spans_closed_later; [exact Hl3|]. eapply spans_closed_later; [exact Hl2 | exact Hspans].
Qed.

Lemma close_turn_subtree_spec turn started clock w :
  tables_ok (tb w) ->
  wp (close_turn_subtree turn started clock) (fun r w' =>
    later (tb w) (tb w') /\ life w' = life w /\ spared (fun i => i = turn) (tb w) (tb w') /\
    forall n m fl, r = Ok (n, m, fl) -> (close_time clock started <= fl)%Z /\ tree_closed (tb w') turn fl) w.
Proof using HO.
  intros Hok. unfold close_turn_subtree. apply wp_bind. eapply wp_mono; [by apply read_spec|].
  intros [rows|e] w1 (Ht & Hl & Hrows); cbn beta iota; [|rewrite Ht; by split_and!].
  specialize (Hrows rows eq_refl). injection Hrows as <-. fold (step_rows (tb w) turn).
  change (order_by _ _) with (step_rows (tb w) turn).
  destruct (decodable_steps_ids (tb w) (step_rows (tb w) turn) Hok) as (Hn & Hin & Hall & Hsub).
  { by intros k d [? _]%elem_of_rows. }
  { apply rows_keys. }
  pose proof (close_steps_spec clock (decodable_steps (step_rows (tb w) turn)) 0 0 (close_time clock started) w1) as H.
  rewrite Ht, Hl in H. eapply wp_mono; [by apply H|]. intros r w2 (Hlat & Hlf & Hks & Hkp & Hr). split_and!; [done..| |].
  { assert (Hown : forall i, i ∈ map step_id (decodable_steps (step_rows (tb w) turn)) ->
      exists d, steps (tb w) !! i = Some d /\ col_turn_id d = turn).
    { intros i ([i' d] & -> & [Hd Ht2%N.eqb_eq]%elem_of_rows)%Hsub%list_elem_of_fmap. by exists d. }
    split; [intros k d Hd Hne; rewrite Hks; [done|] | intros k d Hd Hne; apply Hkp; [done|]].
    - intros (d' & Hd' & E)%Hown. congruence.
    - intros (d' & Hd' & E)%Hown. by apply (Hne d'). }
  intros n m fl Hres. destruct (Hr n m fl Hres) as [Hfl Hc]. split; [exact Hfl|].
  intros k st' Hk Hturn. destruct (later_step_inv _ _ _ _ Hlat Hk) as (st & Hst & Ht2 & Hid2).
  destruct (Hall k st) as [Hid Hinl].
  { apply elem_of_rows. split; [done|]. apply N.eqb_eq. cbn. congruence. }
  destruct (Hc st Hinl) as (st2 & Hst2 & Hd2). rewrite Hid in Hst2, Hd2. rewrite Hk in Hst2. by injection Hst2 as ->.
Qed.
End Listed.

Lemma tree_closed_later t t' turn by_ : later t t' -> tree_closed t turn by_ -> tree_closed t' turn by_.
Proof.
  intros Hl Hc k st' Hk Hturn. destruct (later_step_inv _ _ _ _ Hl Hk) as (st & Hst & Ht2 & _).
  destruct (Hc k st Hst ltac:(congruence)) as (Hd & (e & He & Hle) & Hsp).
  assert (Hcl : step_closed st) by (split; [done | by rewrite He]).
  pose proof (later_step_json _ _ _ _ Hl Hst Hcl) as E. rewrite Hk in E. injection E as ->.
  split_and!; [done | by exists e | by eapply spans_closed_later].
Qed.
End Subtree.

(** ** What a sweep may do to the turns *)

(** The turn a sweep leaves of an unfinished one. *)
Definition crashed (fl : Time) (t : Turn) : Turn :=
  Turn.set_status (Turn.Cancelled RECOVERY_CANCEL_REASON []) (Turn.set_ended_at (Some fl) t).

Section Turns.
Context {S : Type} `{HL : TurnListing S} `{HC : Turn.TurnCodec} {O : Trace.Outside}.
Context `{HLaws : !TurnStoreLaws S} `{HList : !TurnListingLaws S}.
Implicit Types (w : World S).

Definition turn_rows w : gmap Turn.TurnId TurnRow := view (store (life w)).
Definition sane w : Prop := tables_ok (tb w) /\ rows_ok (turn_rows w).

(** A row stays, or is cancelled once the tree under it is closed: it ends when
    the last of them did, and [Q] bounds which rows and when. *)
Definition turn_advance (Q : TurnRow -> Time -> Prop) (after : Tables) (r r' : TurnRow) : Prop :=
  r' = r \/ exists t fl, Turn.from_row r = Ok t /\ Turn.is_terminal t = false /\ Q r fl
    /\ (started_or_created t <= fl)%Z /\ Turn.to_row (crashed fl t) = Ok r' /\ tree_closed after (Turn.id t) fl.
Record swept (P : Turn.TurnId -> Prop) (Q : TurnRow -> Time -> Prop) w w' : Prop := {
  swept_tables : later (tb w) (tb w');
  swept_spares : spared P (tb w) (tb w');
  swept_turns : forall i, option_relation (turn_advance Q (tb w')) (fun _ => False) (fun _ => False)
                            (turn_rows w !! i) (turn_rows w' !! i);
}.

Lemma to_row_reads t r : Turn.to_row t = Ok r ->
  Turn.from_row r = Ok t /\ Turn.row_id r = Turn.id t /\ is_non_terminal r = negb (Turn.is_terminal t).
Proof using Type.
  unfold Turn.to_row, Turn.from_row. destruct (Turn.serialize_turn t) as [d|] eqn:E; [|done]. intros [= <-].
  cbn. rewrite (Turn.deserialize_serialize _ _ E). split_and!; [done..|].
  unfold is_non_terminal, Turn.is_terminal. cbn. by destruct (Turn.status t).
Qed.
Lemma swept_refl P Q w : swept P Q w w.
Proof using Type. split; [done..|]. intros i. destruct (turn_rows w !! i); cbn; [by left | done]. Qed.
Lemma turn_advance_later Q t t' r r' : later t t' -> turn_advance Q t r r' -> turn_advance Q t' r r'.
Proof using Type.
  intros Hl [->|(u & fl & ? & ? & ? & ? & ? & Ht)]; [by left|]. right. exists u, fl. split_and!; [done..|].
  by eapply tree_closed_later.
Qed.
Lemma swept_later P Q w0 w w' :
  swept P Q w0 w -> later (tb w) (tb w') -> spared P (tb w) (tb w') -> turn_rows w' = turn_rows w ->
  swept P Q w0 w'.
Proof using Type.
  intros [Hl Hk Ht] Hl' Hk' Hr. split; [by etrans | by eapply spared_trans|]. intros i. rewrite Hr. specialize (Ht i).
  destruct (turn_rows w0 !! i), (turn_rows w !! i); cbn in *; try done. by eapply turn_advance_later.
Qed.
Lemma swept_sane P Q w w' : sane w -> swept P Q w w' -> sane w'.
Proof using Type.
  intros [Ht Hr] [Hl _ Hs]. split; [by eapply later_ok|]. intros i r' Hi. specialize (Hs i). rewrite Hi in Hs.
  destruct (turn_rows w !! i) as [r|] eqn:E; [|done]. cbn in Hs. destruct (Hr i r E) as (t & Hrow & Hid).
  destruct Hs as [->|(t' & fl & Hf & _ & _ & _ & Hrow' & _)]; [by exists t|].
  destruct (to_row_reads _ _ Hrow) as (Hf' & _). exists (crashed fl t'). split; [done|]. cbn. congruence.
Qed.

(** *** Cancelling one turn *)

Lemma cancel_at_open t fl : Turn.is_terminal t = false ->
  (Turn.cancel_at RECOVERY_CANCEL_REASON [] fl t).1 = crashed fl t
  /\ is_Ok (Turn.cancel_at RECOVERY_CANCEL_REASON [] fl t).2 = true.
Proof using Type.
  unfold Turn.is_terminal, Turn.cancel_at, Turn.transition_at. by destruct t as [? ? ? ? ? [] ? ? ? ? ?].
Qed.
Lemma cancel_at_spec i fl (l l' : TurnLifecycle S) r :
  rows_ok (view (store l)) -> lc_cancel_at i RECOVERY_CANCEL_REASON [] fl l = (l', r) ->
  view (store l') = view (store l) \/
  exists row t row', view (store l) !! i = Some row /\ Turn.from_row row = Ok t /\ Turn.id t = i
    /\ Turn.is_terminal t = false /\ Turn.to_row (crashed fl t) = Ok row'
    /\ view (store l') = <[i := row']> (view (store l)).
Proof using HLaws.
  intros Hok. unfold lc_cancel_at, Lifecycle.bind at 1. destruct (load_turn i l) as [l1 [t|e]] eqn:E1;
    (apply load_turn_spec in E1 as [[Hv1 _] Ht]; [|done]); [|intros [= <- <-]; by left].
  destruct (Turn.is_terminal t) eqn:Hterm; [intros [= <- <-]; by left|].
  unfold Lifecycle.bind. destruct (apply i _ l1) as [l2 [t2|e]] eqn:E2;
    (apply apply_spec in E2 as [[Hv2 _] Ht2]; [|by rewrite Hv1]); [|intros [= <- <-]; left; congruence].
  destruct (Ht2 t2 eq_refl) as (row & u & tr & Hrow & Hf & Hid & Happ). rewrite Hv1 in Hrow.
  destruct (persist_and_publish t2 _ l2) as [l3 r3] eqn:E3. intros [= <- <-]. apply publish_spec in E3.
  destruct r3; [|left; destruct E3; congruence]. destruct E3 as (row' & Hrow' & Hv3 & _).
  destruct (Ht t eq_refl) as (row2 & Hrow2 & Hf2 & _). assert (u = t) as -> by congruence.
  destruct (cancel_at_open t fl Hterm) as [Hc _]. rewrite Happ in Hc. cbn in Hc. subst t2.
  right. exists row, t, row'. split_and!; [done..|]. rewrite Hv3, Hv2, Hv1. cbn. by rewrite Hid.
Qed.

(** *** One turn of the listing *)

Definition listed w (t : Turn) : Prop := exists r, turn_rows w !! Turn.id t = Some r /\ Turn.from_row r = Ok t.
Lemma recover_turn_spec (HO : OrderLaws O) P Q clock live t s w0 w :
  sane w0 -> listed w0 t -> P (Turn.id t) ->
  (forall r fl, turn_rows w0 !! Turn.id t = Some r -> (close_time clock (started_or_created t) <= fl)%Z -> Q r fl) ->
  swept P Q w0 w -> wp (recover_turn clock live t s) (fun _ w' => swept P Q w0 w') w.
Proof using HLaws.
  intros H0 (r & Hr & Hf) HP HQ Hw. pose proof (swept_sane _ _ _ _ H0 Hw) as [Htab Hrows]. unfold recover_turn.
  apply wp_bind, wp_attempt. eapply wp_mono; [by apply close_turn_subtree_spec|].
  intros res w1 (Hl1 & Hlf1 & Hk1 & Hres). cbn beta.
  assert (Hw1 : swept P Q w0 w1) by (eapply swept_later; [done.. | |]; [by eapply spared_mono; [|done]; intros ? -> | unfold turn_rows; by rewrite Hlf1]).
  destruct res as [[[n m] fl]|e]; [|done]. destruct (live && _); [done|].
  destruct (Hres n m fl eq_refl) as [Hfl Htree]. unfold wp, bind, on_life.
  destruct (lc_cancel_at _ _ _ _ (life w1)) as [l' c] eqn:Ec. cbn.
  apply cancel_at_spec in Ec; [|by rewrite Hlf1].
  destruct Ec as [Hv|(row & u & row' & Hrow & Hu & _ & Hterm & Hto & Hv)]; [by eapply swept_later|].
  destruct Hw1 as [Hlat Hsp Hts]. split; [exact Hlat | exact Hsp|]. intros i. unfold turn_rows at 2. cbn. rewrite Hv.
  destruct (decide (Turn.id t = i)) as [<-|Hne]; [|rewrite lookup_insert_ne by done; apply Hts].
  rewrite lookup_insert_eq, Hr. cbn. specialize (Hts (Turn.id t)). unfold turn_rows in Hts at 2.
  rewrite Hrow, Hr in Hts. cbn in Hts. destruct Hts as [->|(u' & fl' & _ & _ & _ & _ & Hto' & _)].
  - assert (u = t) as -> by congruence. right. exists t, fl. split_and!; try done; [by apply HQ|].
    etrans; [|exact Hfl]. by apply close_time_le.
  - apply to_row_reads in Hto' as (Hf' & _). assert (u = crashed fl' u') as -> by congruence. done.
Qed.
Lemma recover_turns_spec (HO : OrderLaws O) P Q clock live l s w0 w :
  sane w0 -> (forall t, t ∈ l -> listed w0 t /\ P (Turn.id t) /\
    forall r fl, turn_rows w0 !! Turn.id t = Some r -> (close_time clock (started_or_created t) <= fl)%Z -> Q r fl) ->
  swept P Q w0 w -> wp (recover_turns clock live l s) (fun _ w' => swept P Q w0 w') w.
Proof using HLaws.
  intros H0. revert s w. induction l as [|t l IH]; intros s w Hl Hw; cbn [recover_turns]; [done|].
  apply wp_bind. destruct (Hl t ltac:(constructor)) as (Ht & HP & HQ). eapply wp_mono; [by eapply recover_turn_spec|].
  intros [s'|e] w1 Hw1; [|done]. apply IH; [|done]. intros; apply Hl; by constructor 2.
Qed.

(** *** The listings *)

Lemma decode_turns_spec rows ts : decode_turns rows = Ok ts ->
  forall t, t ∈ ts <-> exists r, r ∈ rows /\ Turn.from_row r = Ok t.
Proof using Type.
  revert ts; induction rows as [|r rows IH]; intros ts; cbn.
  - intros [= <-] t. split; [by intros []%elem_of_nil | intros (? & []%elem_of_nil & _)].
  - destruct (Turn.from_row r) as [t0|] eqn:E; [|done]. cbn. destruct (decode_turns rows) as [ts0|]; [|done].
    cbn. intros [= <-] t. rewrite elem_of_cons, (IH ts0 eq_refl). split.
    + intros [->|(r' & ? & ?)]; [exists r; split; [constructor | done] | exists r'; split; [by constructor 2 | done]].
    + intros (r' & [->|?]%elem_of_cons & Hf); [left; congruence | right; eauto].
Qed.
(** What a listing answers: the turns of the rows [p] picks. *)
Definition lists (p : TurnRow -> Prop) (l : TurnLifecycle S) (res : TurnLifecycle S * result (list Turn) TurnError) : Prop :=
  view (store res.1) = view (store l) /\
  forall ts, res.2 = Ok ts -> forall t, t ∈ ts <->
    exists i r, view (store l) !! i = Some r /\ p r /\ Turn.from_row r = Ok t.
Lemma listing_spec (p : TurnRow -> Prop) (f : S -> S * result (list TurnRow) StorageError) l :
  (forall s, view (f s).1 = view s /\
     forall rows, (f s).2 = Ok rows -> forall r, r ∈ rows <-> exists i, view s !! i = Some r /\ p r) ->
  lists p l (Lifecycle.bind (on_store f) (fun rows => lift (decode_turns rows)) l).
Proof using Type.
  intros Hf. unfold lists, Lifecycle.bind, on_store. specialize (Hf (store l)) as [Hv Hin].
  destruct (f (store l)) as [s' [rows|e]]; cbn in *; (split; [done|]); [|done].
  intros ts Hts t. rewrite (decode_turns_spec _ _ Hts). split.
  - intros (r & (i & Hi & Hp)%(Hin rows eq_refl) & Hf). eauto.
  - intros (i & r & Hi & Hp & Hf). exists r. split; [apply (Hin rows eq_refl) |]; eauto.
Qed.
Lemma list_recoverable_spec l : lists (fun r => is_non_terminal r = true) l (lc_list_recoverable l).
Proof using HList. apply listing_spec, list_recoverable_view. Qed.
Lemma list_active_spec session l :
  lists (fun r => is_non_terminal r = true /\ Turn.row_session_id r = session) l (lc_list_active_by_session session l).
Proof using HList. apply listing_spec, list_active_view. Qed.

Lemma listed_row w i r t : sane w -> turn_rows w !! i = Some r -> Turn.from_row r = Ok t ->
  listed w t /\ Turn.id t = i /\ is_non_terminal r = negb (Turn.is_terminal t).
Proof using Type.
  intros [_ Hok] Hi Hf. destruct (Hok i r Hi) as (u & Hu & Hid). destruct (to_row_reads _ _ Hu) as (Hf' & _ & Hn).
  assert (u = t) as -> by congruence. split_and!; [exists r; by rewrite Hid | done..].
Qed.

(** *** The whole sweeps *)

Lemma lc_get_view i l : view (store (lc_get i l).1) = view (store l).
Proof using HLaws.
  unfold lc_get, Lifecycle.bind. destruct (on_store _ l) as [l1 [o|e]] eqn:E; apply on_store_get_spec in E as [[Hv _] _];
    [|done]. destruct o as [r|]; [|done]. unfold lift. by destruct (Turn.from_row r).
Qed.
Lemma recover_detached_turn_spec (HO : OrderLaws O) P Q turn s w0 w :
  (forall i, P i) -> sane w0 -> swept P Q w0 w -> wp (recover_detached_turn turn s) (fun _ w' => swept P Q w0 w') w.
Proof using HLaws.
  intros HP H0 Hw. pose proof (swept_sane _ _ _ _ H0 Hw) as [Htab _]. unfold recover_detached_turn.
  apply wp_bind. unfold wp at 1, on_life. pose proof (lc_get_view turn (life w)) as Hv.
  destruct (lc_get turn (life w)) as [l' got]. cbn in Hv |- *.
  assert (Hw1 : swept P Q w0 (mk_world (trace w) l')) by by eapply swept_later.
  destruct got as [[t|]|e]; [|done..]. destruct (negb _); [done|].
  apply wp_bind, wp_attempt. eapply wp_mono; [by apply close_turn_subtree_spec|].
  intros r w2 (Hl & Hlf & Hk & _). cbn beta.
  assert (Hw2 : swept P Q w0 w2) by (eapply swept_later; [exact Hw1 | done | by eapply spared_mono; [|done] | unfold turn_rows; by rewrite Hlf]).
  by destruct r as [[[n m] fl]|e].
Qed.
Lemma recover_detached_turns_spec (HO : OrderLaws O) P Q l s w0 w :
  (forall i, P i) -> sane w0 -> swept P Q w0 w -> wp (recover_detached_turns l s) (fun _ w' => swept P Q w0 w') w.
Proof using HLaws.
  intros HP H0. revert s w. induction l as [|t l IH]; intros s w Hw; cbn [recover_detached_turns]; [done|].
  apply wp_bind. eapply wp_mono; [by eapply recover_detached_turn_spec|]. intros [s'|e] w1 Hw1; [by apply IH | done].
Qed.
Lemma recover_detached_spec (HO : OrderLaws O) P Q known s w0 w :
  (forall i, P i) -> sane w0 -> swept P Q w0 w -> wp (recover_detached_trace_rows known s) (fun _ w' => swept P Q w0 w') w.
Proof using HLaws.
  intros HP H0 Hw. unfold recover_detached_trace_rows. apply wp_bind, wp_attempt.
  eapply wp_mono; [by apply read_spec|]. intros r w1 (Ht & Hlf & _). cbn beta.
  assert (Hw1 : swept P Q w0 w1) by (eapply swept_later; [done | by rewrite Ht | by rewrite Ht | unfold turn_rows; by rewrite Hlf]).
  destruct r; [by apply recover_detached_turns_spec | done].
Qed.

(** C28: the boot sweep only closes.  Whatever the trace store and the turn store
    refuse, at any call, and in whatever order rows are listed: afterwards the
    tables hold the same rows, each as it was or - if it was unfinished - with
    an end no earlier than its start and its own outcome or the crash as its
    outcome; and a turn row is as it was, or it was unfinished and is cancelled
    as a crash, with no partial spans, at a time no earlier than its start and
    than the end of every readable step under it, when every readable span of
    those steps has been closed too.  The ends of spans do not bound it: an open
    span of a step that was already over is closed at its own last event
    ([Sample.span_outlives_turn]). *)
Theorem sweep_only_closes (HO : OrderLaws O) w (Hw : sane w) :
  swept (fun _ => True) (fun _ _ => True) w (recover_orphaned_traces_and_turns w).1.
Proof using HLaws HList.
  change (wp recover_orphaned_traces_and_turns (fun _ w' => swept (fun _ => True) (fun _ _ => True) w w') w).
  unfold recover_orphaned_traces_and_turns. apply wp_bind. unfold wp at 1, on_life.
  destruct (list_recoverable_spec (life w)) as [Hv Hts]. destruct (lc_list_recoverable (life w)) as [l' ts].
  cbn in Hv, Hts |- *. assert (Hw1 : swept (fun _ => True) (fun _ _ => True) w (mk_world (trace w) l')).
  { by eapply swept_later; [apply swept_refl|..]. }
  destruct ts as [ts|e]; [|done]. apply wp_bind. eapply wp_mono; [eapply recover_turns_spec; [done | exact Hw | | exact Hw1]|].
  - intros t (i & r & Hi & _ & Hf)%(Hts ts eq_refl). by destruct (listed_row w i r t Hw Hi Hf).
  - intros [s|e] w2 Hw2; [by apply recover_detached_spec | done].
Qed.

(** C30: when one actor panics, its session pays and no other.  Whatever fails: a
    turn row that changes belongs to the panicked session and was unfinished,
    and is cancelled no earlier than the crash, once every readable row under it
    is closed; the steps and spans of every other turn are as they were, and
    those of the session's turns only close. *)
Theorem panic_spares_other_sessions (HO : OrderLaws O) session crash_at w (Hw : sane w) :
  swept (fun i => exists r, turn_rows w !! i = Some r /\ Turn.row_session_id r = session)
    (fun r at_ => Turn.row_session_id r = session /\ (crash_at <= at_)%Z) w
    (recover_panicked_actor_session session crash_at w).1.
Proof using HLaws HList.
  set (P := fun i : Turn.TurnId => exists r, _). set (Q := fun r at_ => _). change (wp (recover_panicked_actor_session session crash_at) (fun _ w' => swept P Q w w') w).
  unfold recover_panicked_actor_session. apply wp_bind. unfold wp at 1, on_life.
  destruct (list_active_spec session (life w)) as [Hv Hts].
  destruct (lc_list_active_by_session session (life w)) as [l' ts]. cbn in Hv, Hts |- *.
  assert (Hw1 : swept P Q w (mk_world (trace w) l')) by by eapply swept_later; [apply swept_refl|..].
  destruct ts as [ts|e]; [|done]. eapply recover_turns_spec; [done | exact Hw | | exact Hw1].
  intros t (i & r & Hi & [_ Hses] & Hf)%(Hts ts eq_refl). destruct (listed_row w i r t Hw Hi Hf) as (Hlist & Hid & _).
  rewrite Hid. split_and!; [done | by exists r|]. intros r' fl Hr' Hfl. assert (r' = r) as -> by (unfold turn_rows in *; congruence).
  split; [done|]. cbn in Hfl. lia.
Qed.
End Turns.

(** ** Convergence when nothing fails *)

(** Every span and event row reads back. *)
Definition readable (t : Tables) : Prop :=
  (forall k d, spans t !! k = Some d -> exists sp, d = SpanJson sp) /\
  (forall k d, span_events t !! k = Some d -> exists e, d = EventJson e).

Section Calm.
Context {S : Type} {O : Trace.Outside} (HO : OrderLaws O) (Hcalm : forall n, fault n = None).
Implicit Types (w : World S).

Definition smooth {A} (m : M (World S) TraceError A) : Prop :=
  forall w, readable (tb w) -> readable (tb (m w).1) /\ is_Ok (m w).2 = true.
Lemma smooth_ret {A} (a : A) : smooth (ret a).
Proof using Type. by intros w Hw. Qed.
Lemma smooth_bind {A B} (m : M (World S) TraceError A) (k : A -> M (World S) TraceError B) :
  smooth m -> (forall a, smooth (k a)) -> smooth (bind m k).
Proof using Type.
  intros Hm Hk w Hw. unfold bind. destruct (Hm w Hw) as [Hw1 Hok]. destruct (m w) as [w1 [a|]]; [by apply Hk | done].
Qed.
Lemma smooth_write (f : Tables -> Tables * result unit StorageError) :
  (forall t, readable t -> readable (f t).1) -> (forall t, is_Ok (f t).2 = true) -> smooth (on_trace f).
Proof using Hcalm.
  intros Hf Ho w Hw. unfold on_trace, zoom, stored. rewrite Hcalm. specialize (Hf _ Hw). specialize (Ho (tb w)).
  unfold tb in *. by destruct (f (tables (trace w))) as [t [a|e]].
Qed.
Lemma smooth_read {A B} (P : A -> Prop) f (k : A -> M (World S) TraceError B) :
  (forall t, (f t).1 = t) -> (forall t, readable t -> exists a, (f t).2 = Ok a /\ P a) ->
  (forall a, P a -> smooth (k a)) -> smooth (bind (on_trace f) k).
Proof using Hcalm.
  intros Hf Ha Hk w Hw. unfold bind, on_trace, zoom, stored. rewrite Hcalm. destruct (Ha _ Hw) as (a & Hr & HP).
  specialize (Hf (tables (trace w))). unfold tb in Hr. destruct (f (tables (trace w))) as [t r]. cbn in *. subst.
  by apply Hk.
Qed.
Lemma smooth_decoded {A B} (r : result A TraceError) (k : A -> M (World S) TraceError B) :
  is_Ok r = true -> (forall a, smooth (k a)) -> smooth (bind (of_result r) k).
Proof using Type. intros Hr Hk w Hw. unfold bind, of_result. destruct r; [by apply Hk | done]. Qed.
Lemma smooth_save_span i sp : smooth (on_trace (save_span i (SpanJson sp))).
Proof using Hcalm.
  apply smooth_write; [|done]. intros t [Hs He]. split; [|done]. cbn. intros k d.
  destruct (decide (i = k)) as [<-|Hne]; [rewrite lookup_insert_eq | rewrite lookup_insert_ne by done; apply Hs].
  intros [= <-]. eauto.
Qed.
Lemma smooth_save_step i d : smooth (on_trace (save_step i d)).
Proof using Hcalm. by apply smooth_write. Qed.
Lemma decode_all_ok {A B} (f : A -> result B TraceError) l :
  (forall a, a ∈ l -> is_Ok (f a) = true) -> is_Ok (decode_all f l) = true.
Proof using Type.
  induction l as [|a l IH]; intros Hf; [done|]. cbn. pose proof (Hf a ltac:(constructor)) as Ha.
  destruct (f a); [|done]. cbn. assert (Hl : is_Ok (decode_all f l) = true) by (apply IH; intros; apply Hf; by constructor 2).
  by destruct (decode_all f l).
Qed.

Lemma smooth_settle_span clock sp : smooth (settle_span clock sp).
Proof using HO Hcalm.
  assert (Hw : forall n at_ sp', smooth (let* _ := on_trace (save_span (span_id sp) (SpanJson sp')) in ret (n, at_) : M (World S) TraceError (nat * Time))).
  { intros. apply smooth_bind; [apply smooth_save_span | intros _; apply smooth_ret]. }
  unfold settle_span. destruct (span_outcome sp), (span_ended_at sp); try apply smooth_ret; try apply Hw;
    apply smooth_bind; try (intros; apply Hw); unfold pick_span_close_time;
    apply (smooth_read (fun rows => is_Ok (decode_all event_from_row rows) = true)); try done;
    try (intros; apply smooth_decoded; [done | intros; apply smooth_ret]);
    intros t [_ He]; eexists; (split; [done|]); apply decode_all_ok; intros d Hd;
    apply list_elem_of_fmap in Hd as ([i d'] & -> & Hd); rewrite (HO _ _ _) in Hd;
    rewrite list_elem_of_In, List.filter_In, <- list_elem_of_In, elem_of_map_to_list in Hd;
    destruct Hd as [Hd _]; by destruct (He _ _ Hd) as [e ->].
Qed.
Lemma smooth_close_spans clock l c f : smooth (close_spans clock l c f).
Proof using HO Hcalm.
  revert c f; induction l as [|sp l IH]; intros c f; cbn [close_spans]; [apply smooth_ret|].
  apply smooth_bind; [apply smooth_settle_span | intros x; apply IH].
Qed.
Lemma smooth_close_step_spans st started clock : smooth (close_step_spans st started clock).
Proof using HO Hcalm.
  unfold close_step_spans.
  apply (smooth_read (fun rows => is_Ok (decode_all (fun r : SpanId * SpanData => span_from_row r.2) rows) = true)); [done| |].
  - intros t [Hs _]. exists (span_rows t (step_id st)). split; [done|]. apply decode_all_ok.
    intros [k d] [Hd _]%elem_of_span_rows; [|done]. by destruct (Hs _ _ Hd) as [sp ->].
  - intros rows Hrows. apply smooth_decoded; [done | intros l; apply smooth_close_spans].
Qed.
Lemma smooth_settle_step clock st fl : smooth (settle_step clock st fl).
Proof using Hcalm.
  unfold settle_step. destruct (step_outcome st), (step_ended_at st); try apply smooth_ret;
    apply smooth_bind; try apply smooth_save_step; intros; apply smooth_ret.
Qed.
Lemma smooth_close_steps clock l a b f : smooth (close_steps clock l a b f).
Proof using HO Hcalm.
  revert a b f; induction l as [|st l IH]; intros a b f; cbn [close_steps]; [apply smooth_ret|].
  apply smooth_bind; [apply smooth_close_step_spans | intros x].
  apply smooth_bind; [apply smooth_settle_step | intros y; apply IH].
Qed.
Lemma smooth_close_turn_subtree turn started clock : smooth (close_turn_subtree turn started clock).
Proof using HO Hcalm.
  unfold close_turn_subtree. apply (smooth_read (fun _ => True)); [done | by intros t _; eexists|].
  intros rows _. apply smooth_close_steps.
Qed.
(** So closing a tree answers, and leaves it closed. *)
Lemma subtree_closes turn started clock w :
  tables_ok (tb w) -> readable (tb w) ->
  wp (close_turn_subtree turn started clock) (fun r w' =>
    readable (tb w') /\ later (tb w) (tb w') /\ life w' = life w
    /\ exists n m fl, r = Ok (n, m, fl) /\ tree_closed (tb w') turn fl) w.
Proof using HO Hcalm.
  intros Hok Hw. destruct (smooth_close_turn_subtree turn started clock w Hw) as [Hw' Hr].
  pose proof (close_turn_subtree_spec HO turn started clock w Hok) as Hs. unfold wp in *.
  destruct (close_turn_subtree _ _ _ w) as [w' [[[n m] fl]|e]]; [|done]. cbn in *. split; [done|].
  destruct Hs as (Hl & Hlf & _ & Hs). split_and!; [done..|]. exists n, m, fl. split; [done|]. by destruct (Hs n m fl eq_refl).
Qed.
End Calm.

(** A turn store that answers. *)
Class ReliableTurns (S : Type) `{TurnListing S} := {
  get_answers i (s : S) : is_Ok (store_get i s).2 = true;
  save_answers r (s : S) : is_Ok (store_save r s).2 = true;
  recoverable_answers (s : S) : is_Ok (store_list_recoverable s).2 = true;
}.
#[export] Instance MemoryTurnListing_laws : TurnListingLaws (gmap Turn.TurnId TurnRow).
Proof.
  assert (Hrows : forall p s r, r ∈ memory_rows p s <-> exists i, s !! i = Some r /\ p r = true).
  { intros p s r. unfold memory_rows. rewrite list_elem_of_In, List.filter_In, <- list_elem_of_In. split.
    - intros [([i r'] & -> & Hin%elem_of_map_to_list)%list_elem_of_fmap Hp]. by exists i.
    - intros (i & Hi & Hp). split; [|done]. apply list_elem_of_fmap. exists (i, r). by rewrite elem_of_map_to_list. }
  split; cbn; intros; (split; [done|]); intros l [= <-] r; rewrite Hrows; [done|].
  setoid_rewrite andb_true_iff. setoid_rewrite String.eqb_eq. split; intros (i & ? & ? & ?); eauto.
Qed.
#[export] Instance MemoryTurns_reliable : ReliableTurns (gmap Turn.TurnId TurnRow).
Proof. by split. Qed.

Section Settles.
Context {S : Type} `{HL : TurnListing S} `{HC : Turn.TurnCodec} {O : Trace.Outside}.
Context `{HLaws : !TurnStoreLaws S} `{HList : !TurnListingLaws S} `{HR : !ReliableTurns S}.
Context (HO : OrderLaws O) (Hcalm : forall n, fault n = None).
Implicit Types (w : World S).

Definition over (v : gmap Turn.TurnId TurnRow) (i : Turn.TurnId) : Prop :=
  exists r, v !! i = Some r /\ is_non_terminal r = false.
(** A crashed turn can be written. *)
Definition writable (v : gmap Turn.TurnId TurnRow) : Prop :=
  forall i r t fl, v !! i = Some r -> Turn.from_row r = Ok t -> is_Ok (Turn.to_row (crashed fl t)) = true.
(** The readable rows under a turn are closed. *)
Definition tree_done (t : Tables) (i : Turn.TurnId) : Prop :=
  forall k st, steps t !! k = Some (StepJson st) -> turn_id st = i -> step_closed st /\ spans_closed_under t k.
Lemma tree_closed_done t i fl : tree_closed t i fl -> tree_done t i.
Proof using Type. intros Ht k st Hk Hi. destruct (Ht k st Hk Hi) as (Hd & (e & He & _) & Hs). unfold step_closed. by rewrite He. Qed.
Lemma tree_done_later t t' i : later t t' -> tree_done t i -> tree_done t' i.
Proof using Type.
  intros Hl Hd k st' Hk Hi. destruct (later_step_inv _ _ _ _ Hl Hk) as (st & Hst & Ht & _).
  destruct (Hd k st Hst ltac:(congruence)) as [Hc Hs]. pose proof (later_step_json _ _ _ _ Hl Hst Hc) as E.
  rewrite Hk in E. injection E as ->. split; [done | by eapply spans_closed_later].
Qed.

(** *** The store of turns *)

Lemma get_reads i r (l : TurnLifecycle S) : view (store l) !! i = Some r ->
  exists l', on_store (store_get i) l = (l', Ok (Some r)) /\ view (store l') = view (store l).
Proof using HLaws HR.
  intros Hi. destruct (on_store (store_get i) l) as [l' [o|e]] eqn:E.
  - apply on_store_get_spec in E as [[Hv _] Ho]. rewrite Hi in Ho. rewrite (Ho o eq_refl). by exists l'.
  - unfold on_store in E. pose proof (get_answers i (store l)) as Ha. by destruct (store_get i (store l)) as [? [?|?]].
Qed.
Lemma cancel_at_settles i fl r (l : TurnLifecycle S) :
  rows_ok (view (store l)) -> view (store l) !! i = Some r ->
  (forall t, Turn.from_row r = Ok t -> is_non_terminal r = true -> is_Ok (Turn.to_row (crashed fl t)) = true) ->
  over (view (store (lc_cancel_at i RECOVERY_CANCEL_REASON [] fl l).1)) i.
Proof using HLaws HR.
  intros Hok Hi Hto. destruct (from_row_stored _ _ _ Hok Hi) as (t & Hf & Hrow & Hid).
  destruct (to_row_reads _ _ Hrow) as (_ & _ & Hn). unfold lc_cancel_at, Turn.is_terminal in *.
  unfold Lifecycle.bind at 1, load_turn at 1, Lifecycle.bind at 1.
  destruct (get_reads i r l Hi) as (l1 & -> & Hv1). unfold lift. rewrite Hf.
  destruct (Turn.is_terminal_kind _) eqn:Hterm; [exists r; split; [cbn; by rewrite Hv1 | exact Hn]|].
  unfold Lifecycle.bind at 1, apply, load_turn, Lifecycle.bind at 1 2.
  destruct (get_reads i r l1 ltac:(by rewrite Hv1)) as (l2 & -> & Hv2). unfold lift. rewrite Hf.
  destruct (cancel_at_open t fl Hterm) as [Hc Hcok]. destruct (Turn.cancel_at _ _ _ t) as [t' [tr|]]; [|done].
  cbn in Hc. subst t'. cbn -[persist_and_publish crashed].
  destruct (persist_and_publish (crashed fl t) PhaseCancelled l2) as [l3 res] eqn:E3.
  assert (Hres : is_Ok res = true).
  { revert E3. unfold persist_and_publish, persist, Lifecycle.bind, lift, on_store.
    specialize (Hto t Hf Hn). destruct (Turn.to_row _) as [row|]; [|done].
    pose proof (save_answers row (store l2)) as Hs. destruct (store_save row (store l2)) as [s' [[]|]]; [|done].
    by intros [= <- <-]. }
  apply publish_spec in E3. destruct res; [|done]. destruct E3 as (row & Hto' & Hv3 & _).
  exists row. split; [cbn; rewrite Hv3; cbn; by rewrite Hid, lookup_insert_eq | by destruct (to_row_reads _ _ Hto') as (_ & _ & ->)].
Qed.
Lemma cancel_at_over i j fl (l : TurnLifecycle S) :
  rows_ok (view (store l)) -> over (view (store l)) j ->
  over (view (store (lc_cancel_at i RECOVERY_CANCEL_REASON [] fl l).1)) j.
Proof using HLaws.
  intros Hok Hj. destruct (lc_cancel_at _ _ _ _ l) as [l' r] eqn:E. apply cancel_at_spec in E; [|done]. cbn.
  destruct E as [->|(row & t & row' & _ & _ & _ & _ & Hto & ->)]; [done|].
  unfold over. destruct (decide (i = j)) as [<-|Hne]; [|by rewrite lookup_insert_ne].
  rewrite lookup_insert_eq. exists row'. split; [done|]. by destruct (to_row_reads _ _ Hto) as (_ & _ & ->).
Qed.

(** *** The turns of the listing *)

Abbreviation anyhow := (swept (fun _ => True) (fun _ _ => True)).
Definition mid w0 w : Prop := anyhow w0 w /\ readable (tb w).
Lemma recover_turn_settles t s w0 w :
  sane w0 -> writable (turn_rows w0) -> listed w0 t -> Turn.is_terminal t = false -> mid w0 w ->
  wp (recover_turn ObservedActivity true t s) (fun r w' =>
    is_Ok r = true /\ mid w0 w' /\ over (turn_rows w') (Turn.id t) /\
    forall j, over (turn_rows w) j -> over (turn_rows w') j) w.
Proof using HO Hcalm HLaws HR.
  intros H0 Hwr Ht Hterm [Hw Hread]. pose proof (swept_sane _ _ _ _ H0 Hw) as Hsane.
  assert (Hsw : wp (recover_turn ObservedActivity true t s) (fun _ w' => anyhow w0 w') w)
    by by apply recover_turn_spec.
  enough (Hr : wp (recover_turn ObservedActivity true t s) (fun r w' => is_Ok r = true /\ readable (tb w') /\
    over (turn_rows w') (Turn.id t) /\ forall j, over (turn_rows w) j -> over (turn_rows w') j) w).
  { unfold wp, mid in *. destruct Hr as (? & ? & ? & ?). by split_and!. }
  clear Hsw. unfold recover_turn. apply wp_bind, wp_attempt.
  eapply wp_mono; [by apply subtree_closes; [.. | apply Hsane |]|].
  intros r w1 (Hread1 & Hl1 & Hlf1 & n & m & fl & -> & _). cbn beta iota. rewrite Hterm. cbn [andb].
  unfold wp, bind, on_life. destruct (lc_cancel_at _ _ _ _ (life w1)) as [l' c] eqn:Ec. cbn.
  assert (Hl' : l' = (lc_cancel_at (Turn.id t) RECOVERY_CANCEL_REASON [] fl (life w1)).1) by by rewrite Ec.
  split_and!; [done.. | |]; unfold turn_rows; cbn; rewrite Hl', Hlf1; [|intros j; apply cancel_at_over, Hsane].
  destruct Ht as (r0 & Hr0 & Hf0). destruct Hw as [_ _ Hts]. specialize (Hts (Turn.id t)). rewrite Hr0 in Hts.
  destruct (turn_rows w !! Turn.id t) as [r1|] eqn:E1; [|done]. cbn in Hts.
  eapply cancel_at_settles; [apply Hsane | exact E1 |]. intros u Hu Hnon.
  destruct Hts as [->|(v & fl' & _ & _ & _ & _ & Hto & _)]; [by eapply Hwr|].
  destruct (to_row_reads _ _ Hto) as (_ & _ & Hn). by rewrite Hn in Hnon.
Qed.
Lemma recover_turns_settles l s w0 w :
  sane w0 -> writable (turn_rows w0) -> (forall t, t ∈ l -> listed w0 t /\ Turn.is_terminal t = false) -> mid w0 w ->
  wp (recover_turns ObservedActivity true l s) (fun r w' =>
    is_Ok r = true /\ mid w0 w' /\ (forall t, t ∈ l -> over (turn_rows w') (Turn.id t)) /\
    forall j, over (turn_rows w) j -> over (turn_rows w') j) w.
Proof using HO Hcalm HLaws HR.
  intros H0 Hwr. revert s w. induction l as [|t l IH]; intros s w Hl Hw; cbn [recover_turns].
  { apply wp_ret. split_and!; try done. intros t []%elem_of_nil. }
  apply wp_bind. destruct (Hl t ltac:(constructor)) as [Ht Hn]. eapply wp_mono; [by apply recover_turn_settles|].
  intros [s'|e] w1 (Hok & Hw1 & Ht1 & Hk1); [|done].
  eapply wp_mono; [apply IH; [|done]; intros; apply Hl; by constructor 2|].
  intros r w2 (Hok2 & Hw2 & Hall & Hk2). split_and!; [done..| |auto].
  intros u [->|Hu]%elem_of_cons; auto.
Qed.

(** *** The detached rows *)

Lemma lc_get_reads i r l : rows_ok (view (store l)) -> view (store l) !! i = Some r ->
  exists l' t, lc_get i l = (l', Ok (Some t)) /\ view (store l') = view (store l) /\ Turn.from_row r = Ok t
             /\ Turn.id t = i /\ is_non_terminal r = negb (Turn.is_terminal t).
Proof using HLaws HR.
  intros Hok Hi. destruct (from_row_stored _ _ _ Hok Hi) as (t & Hf & Hrow & Hid).
  destruct (to_row_reads _ _ Hrow) as (_ & _ & Hn). unfold lc_get, Lifecycle.bind at 1.
  destruct (get_reads i r l Hi) as (l1 & -> & Hv1). unfold Lifecycle.bind, lift. rewrite Hf. by exists l1, t.
Qed.
Definition all_over w : Prop := forall i r, turn_rows w !! i = Some r -> is_non_terminal r = false.
Lemma recover_detached_turn_settles i s w0 w :
  sane w0 -> mid w0 w -> all_over w ->
  wp (recover_detached_turn i s) (fun r w' =>
    is_Ok r = true /\ mid w0 w' /\ turn_rows w' = turn_rows w /\ later (tb w) (tb w') /\
    (is_some (turn_rows w !! i) = true -> tree_done (tb w') i)) w.
Proof using HO Hcalm HLaws HR.
  intros H0 [Hw Hread] Hover. pose proof (swept_sane _ _ _ _ H0 Hw) as Hsane.
  assert (Hsw : wp (recover_detached_turn i s) (fun _ w' => anyhow w0 w') w) by by apply recover_detached_turn_spec.
  enough (Hr : wp (recover_detached_turn i s) (fun r w' => is_Ok r = true /\ readable (tb w') /\
    turn_rows w' = turn_rows w /\ later (tb w) (tb w') /\ (is_some (turn_rows w !! i) = true -> tree_done (tb w') i)) w).
  { unfold wp, mid in *. destruct Hr as (? & ? & ? & ? & ?). by split_and!. }
  clear Hsw. unfold recover_detached_turn. apply wp_bind. unfold wp at 1, on_life. pose proof (lc_get_view i (life w)) as Hv.
  destruct (turn_rows w !! i) as [r|] eqn:Ei.
  2:{ destruct (lc_get i (life w)) as [l' got] eqn:Eg. cbn in Hv |- *.
      assert (Hg : got = Ok None \/ exists e, got = Err e).
      { revert Eg. unfold lc_get, Lifecycle.bind. destruct (on_store _ _) as [l1 [o|e]] eqn:E.
        - apply on_store_get_spec in E as [_ Ho]. unfold turn_rows in Ei. rewrite Ei in Ho. rewrite (Ho o eq_refl).
          intros [= _ <-]. by left.
        - intros [= _ <-]. right. by exists e. }
      destruct Hg as [->|[e ->]]; split_and!; try done; by unfold turn_rows; cbn. }
  destruct (lc_get_reads i r (life w)) as (l' & t & Hg & Hv' & Hf & Hid & Hn); [apply Hsane | exact Ei|].
  rewrite Hg. cbn [fst snd]. rewrite (Hover i r Ei) in Hn. destruct (Turn.is_terminal t); [|done]. cbn [negb].
  apply wp_bind, wp_attempt. eapply wp_mono; [by apply subtree_closes; [.. | apply Hsane |]|].
  intros res w2 (Hread2 & Hl2 & Hlf2 & n & m & fl & -> & Hc). cbn -[turn_rows]. apply wp_ret.
  assert (Hrows : turn_rows w2 = turn_rows w) by (unfold turn_rows; rewrite Hlf2; exact Hv').
  split_and!; [done..|]. intros _. rewrite Hid in Hc. by eapply tree_closed_done.
Qed.
Lemma recover_detached_turns_settles l s w0 w :
  sane w0 -> mid w0 w -> all_over w ->
  wp (recover_detached_turns l s) (fun r w' =>
    is_Ok r = true /\ mid w0 w' /\ turn_rows w' = turn_rows w /\ later (tb w) (tb w') /\
    forall i, i ∈ l -> is_some (turn_rows w !! i) = true -> tree_done (tb w') i) w.
Proof using HO Hcalm HLaws HR.
  intros H0. revert s w. induction l as [|i l IH]; intros s w Hw Hover; cbn [recover_detached_turns].
  { apply wp_ret. split_and!; try done. intros i []%elem_of_nil. }
  apply wp_bind. eapply wp_mono; [by apply recover_detached_turn_settles|].
  intros [s'|e] w1 (Hr1 & Hw1 & Hrows & Hl1 & Hi); [|done]. eapply wp_mono; [apply IH; [done|]|].
  { unfold all_over. by rewrite Hrows. }
  intros r w2 (Hok & Hw2 & Hrows2 & Hl2 & Hall). rewrite Hrows in Hrows2, Hall.
  split_and!; [done.. | by etrans |]. intros j [->|Hj]%elem_of_cons Hs; [|by apply Hall].
  by eapply tree_done_later; [|apply Hi].
Qed.

(** A turn none of whose steps is unfinished is done. *)
Lemma finished_turn_done t i rows :
  tables_ok t -> readable t -> (list_unfinished_steps t).2 = Ok rows ->
  (forall st, st ∈ decodable_steps rows -> turn_id st <> i) -> tree_done t i.
Proof using HO.
  intros [Hs Hp] [Hrs _] [= <-] Hnone k st Hk Hi. destruct (Hs k _ Hk) as [Hid Hpair].
  assert (Hfin : negb (is_some (step_ended_at st)) || has_open_span t k = false).
  { apply not_true_iff_false. intros Hu. apply (Hnone st); [|done]. apply list_elem_of_omap.
    exists (k, StepJson st). split; [|done]. rewrite (HO _ _ _), list_elem_of_In, List.filter_In, <- list_elem_of_In.
    by rewrite elem_of_map_to_list. }
  apply orb_false_iff in Hfin as [He%negb_false_iff Hopen]. unfold step_paired in Hpair. apply Bool.eqb_prop in Hpair.
  split; [split; congruence|]. intros p sp Hsp Hst. destruct (Hp p _ Hsp) as [_ Hpair2]. unfold span_paired in Hpair2.
  apply Bool.eqb_prop in Hpair2. assert (Hend : is_some (span_ended_at sp) = true); [|split; congruence].
  apply negb_false_iff, not_true_iff_false. intros Ho. apply not_true_iff_false in Hopen. apply Hopen.
  unfold has_open_span. apply existsb_exists. exists (p, SpanJson sp). cbn. rewrite Ho, Hst, N.eqb_refl. split; [|done].
  by rewrite <- list_elem_of_In, elem_of_map_to_list.
Qed.
Lemma recover_detached_settles known s w0 w :
  sane w0 -> mid w0 w -> all_over w ->
  wp (recover_detached_trace_rows known s) (fun r w' =>
    mid w0 w' /\ turn_rows w' = turn_rows w /\
    forall i, i ∉ known -> is_some (turn_rows w !! i) = true -> tree_done (tb w') i) w.
Proof using HO Hcalm HLaws HR.
  intros H0 Hw Hover. unfold recover_detached_trace_rows. apply wp_bind, wp_attempt.
  unfold wp at 1, Recovery.on_trace, zoom, stored. rewrite Hcalm.
  destruct (list_unfinished_steps (tables (trace w))) as [t1 r1] eqn:Er.
  assert (Hrows : (list_unfinished_steps (tb w)).2 = r1) by (unfold tb; by rewrite Er).
  unfold list_unfinished_steps in Er. injection Er as <- Hr1. rewrite <- Hr1. cbn -[recover_detached_turns].
  destruct Hw as [Hsw Hread]. pose proof (swept_sane _ _ _ _ H0 Hsw) as [Htab _].
  set (rows := order_by _ _) in *. eapply wp_mono; [apply recover_detached_turns_settles; [done | | exact Hover]|].
  { split; [by eapply swept_later | done]. }
  intros r w2 (_ & Hw2 & Hrows2 & Hl2 & Hall). split_and!; [done..|]. intros i Hni Hst.
  destruct (decide (i ∈ detached_turns known rows)) as [Hin|Hnin].
  - apply Hall; [by apply elem_of_elements | done].
  - eapply tree_done_later; [exact Hl2|]. eapply (finished_turn_done _ i rows); [done.. | reflexivity |].
    intros st Hst2 Hturn. apply Hnin. unfold detached_turns. rewrite elem_of_list_to_set, list_elem_of_fmap.
    exists st. split; [done|]. rewrite list_elem_of_In, List.filter_In, <- list_elem_of_In. split; [done|].
    rewrite Hturn. by rewrite bool_decide_eq_false_2.
Qed.

(** *** The listing at boot *)

Lemma decode_turns_ok rows : (forall r, r ∈ rows -> is_Ok (Turn.from_row r) = true) -> is_Ok (decode_turns rows) = true.
Proof using Type.
  induction rows as [|r rows IH]; intros Hf; [done|]. cbn. pose proof (Hf r ltac:(constructor)) as Hr.
  destruct (Turn.from_row r); [|done]. cbn.
  assert (Hl : is_Ok (decode_turns rows) = true) by (apply IH; intros; apply Hf; by constructor 2).
  by destruct (decode_turns rows).
Qed.
Lemma listing_answers (l : TurnLifecycle S) : rows_ok (view (store l)) -> is_Ok (lc_list_recoverable l).2 = true.
Proof using HList HR.
  intros Hok. unfold lc_list_recoverable, Lifecycle.bind, on_store.
  pose proof (recoverable_answers (store l)) as Ha. destruct (list_recoverable_view (store l)) as [_ Hin].
  destruct (store_list_recoverable (store l)) as [s' [rows|]]; [|done]. cbn. apply decode_turns_ok.
  intros r (i & Hi & _)%(Hin rows eq_refl). destruct (from_row_stored _ _ _ Hok Hi) as (t & -> & _). done.
Qed.

Lemma listed_all_over w w2 (ts : list Turn) :
  sane w -> anyhow w w2 ->
  (forall t, t ∈ ts <-> exists i r, turn_rows w !! i = Some r /\ is_non_terminal r = true /\ Turn.from_row r = Ok t) ->
  (forall t, t ∈ ts -> over (turn_rows w2) (Turn.id t)) -> all_over w2.
Proof using Type.
  intros Hw [_ _ Hs] Hts Hall i r2 Hi. specialize (Hs i). rewrite Hi in Hs.
  destruct (turn_rows w !! i) as [r|] eqn:E; [|done]. cbn in Hs.
  destruct Hs as [->|(t & fl & _ & _ & _ & _ & Hto & _)]; [|by destruct (to_row_reads _ _ Hto) as (_ & _ & ->)].
  destruct (is_non_terminal r) eqn:Hn; [|done]. destruct Hw as [_ Hok].
  destruct (from_row_stored _ _ _ Hok E) as (t & Hf & _ & Hid).
  destruct (Hall t) as (r' & Hr' & Hn'); [apply Hts; by exists i, r|]. rewrite Hid, Hi in Hr'. injection Hr' as <-. congruence.
Qed.

(** C29: the boot sweep converges.  When the stores answer, every span and event
    row reads back and a crashed turn can be written: after one sweep no turn
    row is unfinished, and every readable step of a stored turn is over with
    an end time, and so is every span under it - the turns the listing named
    and those whose rows only the scan of unfinished steps finds alike. *)
Theorem sweep_settles w (Hw : sane w) (Hread : readable (tb w)) (Hwr : writable (turn_rows w)) :
  let w' := (recover_orphaned_traces_and_turns w).1 in
  (forall i r, turn_rows w' !! i = Some r -> is_non_terminal r = false) /\
  (forall k st, steps (tb w') !! k = Some (StepJson st) -> is_some (turn_rows w' !! turn_id st) = true ->
     step_closed st /\ spans_closed_under (tb w') k).
Proof using HO Hcalm HLaws HList HR.
  cbv zeta. enough (Hq : wp recover_orphaned_traces_and_turns (fun _ w' => all_over w' /\
    forall i, is_some (turn_rows w' !! i) = true -> tree_done (tb w') i) w).
  { destruct Hq as [Ho Hd]. split; [exact Ho|]. intros k st Hk Hs. by eapply Hd. }
  unfold recover_orphaned_traces_and_turns. apply wp_bind. unfold wp at 1, on_life.
  destruct (list_recoverable_spec (life w)) as [Hv Hts]. pose proof (listing_answers (life w) ltac:(apply Hw)) as Hok.
  destruct (lc_list_recoverable (life w)) as [l' [ts|e]]; [|done]. cbn in Hv, Hts |- *. specialize (Hts ts eq_refl).
  assert (Hw1 : mid w (mk_world (trace w) l')).
  { split; [|done]. by eapply swept_later; [apply swept_refl|..]. }
  assert (Hl : forall t, t ∈ ts -> listed w t /\ Turn.is_terminal t = false).
  { intros t (i & r & Hi & Hn & Hf)%Hts. destruct (listed_row w i r t Hw Hi Hf) as (Hlist & _ & Hn2).
    split; [done|]. change (is_non_terminal r = true) in Hn. rewrite Hn in Hn2. by destruct (Turn.is_terminal t). }
  apply wp_bind. eapply wp_mono; [by apply (recover_turns_settles ts no_recovery w)|].
  intros [s|e] w2 (Hr2 & Hw2 & Hall & _); [clear Hr2|done].
  assert (Hover : all_over w2) by exact (listed_all_over w w2 ts Hw (proj1 Hw2) Hts Hall).
  eapply wp_mono; [by apply (recover_detached_settles _ s w)|]. intros r3 w3 (Hw3 & Hrows3 & Hd). rewrite <- Hrows3 in Hd.
  split; [unfold all_over; by rewrite Hrows3|]. intros i Hi. destruct (decide (i ∈ map Turn.id ts)) as [Hin|Hni].
  - apply list_elem_of_fmap in Hin as (t & -> & Ht). destruct (Hl t Ht) as [(r & Hr & Hf) Hterm].
    destruct Hw3 as [[_ _ Hts3] _]. specialize (Hts3 (Turn.id t)). rewrite Hr in Hts3.
    destruct (turn_rows w3 !! Turn.id t) as [r'|] eqn:E3; [|done]. cbn in Hts3.
    destruct Hts3 as [->|(u & fl & Hu & _ & _ & _ & _ & Hc)].
    + rewrite Hrows3 in E3. pose proof (Hover _ _ E3) as Hn. destruct (listed_row w _ r t Hw Hr Hf) as (_ & _ & Hn2).
      rewrite Hn, Hterm in Hn2. done.
    + assert (u = t) as -> by congruence. by eapply tree_closed_done.
  - apply Hd; [by rewrite elem_of_list_to_set | done].
Qed.
End Settles.

(** ** A crashed process *)

Module Sample.
Import Lifecycle.Sample.

Abbreviation Store := (gmap Turn.TurnId TurnRow).
(** Turn 7 runs, turn 8 is over, turn 9 of another session runs. *)
Definition turns : TurnLifecycle Store :=
  Lifecycle.run_call (CallStart 110 9)
    (Lifecycle.run_call (CallStartTurn 9 100 "other" Turn.TriggerUser Turn.Compact None)
      (Lifecycle.run_call (CallComplete 120 8 (Turn.Structured Message.JNull))
        (Lifecycle.run_call (CallStart 110 8)
          (Lifecycle.run_call (CallStartTurn 8 100 "cli" Turn.TriggerUser Turn.Compact None) running)))).
Definition tool_kind : SpanKind := ToolCall (mk_tool_begin "bash" None Message.JNull) None.
Definition open_step (i : StepId) (turn : Turn.TurnId) (at_ : Time) : StepData :=
  StepJson (mk_step i turn LlmIteration at_ None Pending).
(** Under turn 7 one span is open and its last event is at 118, one closed at
    125; turn 8 left a step behind. *)
Definition crashed_tables : Tables :=
  mk_tables
    (<[1 := open_step 1 7 111]> (<[2 := open_step 2 8 115]> (<[3 := open_step 3 9 113]> ∅)))%N
    (<[4 := SpanJson (mk_span 4 1 tool_kind None 112 None Pending [])]>
      (<[5 := SpanJson (mk_span 5 1 tool_kind None 112 (Some 125%Z) (Done OutcomeOk) [])]> ∅))%N
    {[(4, 0)%N := EventJson (mk_span_event 4 0 118 (ToolEvent "run" (ToolTrace.Phase 6)))]} ∅.
Definition world : World Store := mk_world (Trace.mk_world crashed_tables [] ∅ 0) turns.

Lemma one_call (l0 l : TurnLifecycle Store) c :
  rtc Lifecycle.step l0 l -> fresh_ok l c -> rtc Lifecycle.step l0 (Lifecycle.run_call c l).
Proof. intros Hl Hf. eapply rtc_r; [exact Hl | by apply step_call]. Qed.
Lemma turns_steps : rtc Lifecycle.step empty turns.
Proof.
  unfold turns. repeat (apply one_call; [|first [exact I | vm_compute; reflexivity]]). done.
Qed.
Ltac row_by_row :=
  unfold tb; cbn;
  repeat match goal with
    | |- map_Forall _ ∅ => apply map_Forall_empty
    | |- map_Forall _ (<[_ := _]> _) => apply map_Forall_insert_2
    end.
Lemma world_sane : sane world.
Proof.
  split; [split; row_by_row; split; reflexivity|].
  apply (proj1 (run_inv empty turns (map_Forall_empty _) eq_refl turns_steps)).
Qed.
Lemma world_readable : readable (tb world).
Proof.
  assert (Hs : map_Forall (fun _ d => exists sp, d = SpanJson sp) (spans (tb world))).
  { row_by_row; eauto. }
  assert (He : map_Forall (fun _ d => exists e, d = EventJson e) (span_events (tb world))).
  { apply map_Forall_singleton. eauto. }
  by split; [intros k d; apply Hs | intros k d; apply He].
Qed.
Lemma writable_spec (v : Store) :
  forallb (fun '(_, r) => match Turn.from_row r with
                          | Ok (Turn.mk_turn _ _ None Turn.TriggerUser Turn.Compact _ fr [] _ _ _) =>
                              match fr with None | Some (Turn.Structured Message.JNull) => true | _ => false end
                          | _ => false end) (map_to_list v) = true -> writable v.
Proof.
  intros Hall i r t fl Hi Hf. rewrite forallb_forall in Hall.
  specialize (Hall (i, r)). rewrite <- list_elem_of_In, elem_of_map_to_list in Hall. specialize (Hall Hi). cbn in Hall.
  rewrite Hf in Hall. destruct t as [? ? pt o inp st fr em ? ? ?]. destruct pt, o, inp, em; try done.
  by destruct fr as [[|[]]|].
Qed.
Lemma world_writable : writable (turn_rows world).
Proof. apply writable_spec. vm_compute. reflexivity. Qed.

Definition calm : Outside := Trace.Sample.outside (fun _ => None).
Lemma calm_order : OrderLaws calm.
Proof. by intros A k l. Qed.
(** The write of the step under turn 7 is refused. *)
Definition refused : Outside := Trace.Sample.outside (fun n => if Nat.eqb n 4 then Some (false, Conflict "busy") else None).
Lemma refused_order : OrderLaws refused.
Proof. by intros A k l. Qed.

Definition status_of (i : Turn.TurnId) (w : World Store) : option (string * option Time) :=
  (fun r => (Turn.row_status_kind r, Turn.row_ended_at r)) <$> turn_rows w !! i.
Definition step_end (i : StepId) (w : World Store) : option (option Time) := col_step_ended <$> steps (tb w) !! i.

(** A step that ended at 120 has a span still open, whose event is at 150: the
    turn is cancelled as of 120 and the span closed as of 150. *)
Definition straggling_tables : Tables :=
  mk_tables
    {[1%N := StepJson (mk_step 1 7 LlmIteration 111 (Some 120%Z) (Done OutcomeOk))]}
    {[4%N := SpanJson (mk_span 4 1 tool_kind None 112 None Pending [])]}
    {[(4, 0)%N := EventJson (mk_span_event 4 0 150 (ToolEvent "run" (ToolTrace.Phase 6)))]} ∅.
Example span_outlives_turn :
  let w' := (recover_orphaned_traces_and_turns (O := calm) (mk_world (Trace.mk_world straggling_tables [] ∅ 0) turns)).1 in
  status_of 7 w' = Some ("cancelled"%string, Some 120%Z) /\
  (col_span_ended <$> spans (tb w') !! 4%N) = Some (Some 150%Z).
Proof. vm_compute. split; reflexivity. Qed.

(** The turn whose step could not be written stays as it was; the others go on. *)
Lemma sweep_only_closes_witness :
  let w' := (recover_orphaned_traces_and_turns (O := refused) world).1 in
  status_of 7 w' = Some ("in_progress"%string, None) /\ status_of 9 w' = Some ("cancelled"%string, Some 113%Z) /\
  swept (fun _ => True) (fun _ _ => True) world w'.
Proof.
  split_and!; [vm_compute; reflexivity.. |].
  exact (sweep_only_closes (O := refused) refused_order world world_sane).
Defined.
Lemma panic_spares_other_sessions_witness :
  let w' := (recover_panicked_actor_session (O := calm) "cli" 200 world).1 in
  status_of 7 w' = Some ("cancelled"%string, Some 200%Z) /\ step_end 1 w' = Some (Some 200%Z) /\
  status_of 9 w' = Some ("in_progress"%string, None) /\ step_end 3 w' = Some None /\
  swept (fun i => exists r, turn_rows world !! i = Some r /\ Turn.row_session_id r = "cli"%string)
    (fun r at_ => Turn.row_session_id r = "cli"%string /\ (200 <= at_)%Z) world w'.
Proof.
  split_and!; [vm_compute; reflexivity.. |].
  exact (panic_spares_other_sessions (O := calm) calm_order "cli" 200 world world_sane).
Defined.
Lemma sweep_settles_witness :
  let w' := (recover_orphaned_traces_and_turns (O := calm) world).1 in
  status_of 7 w' = Some ("cancelled"%string, Some 125%Z) /\ status_of 8 w' = Some ("completed"%string, Some 120%Z) /\
  step_end 1 w' = Some (Some 125%Z) /\ step_end 2 w' = Some (Some 115%Z) /\
  (forall i r, turn_rows w' !! i = Some r -> is_non_terminal r = false).
Proof.
  split_and!; [vm_compute; reflexivity.. |].
  exact (proj1 (sweep_settles (O := calm) calm_order (fun _ => eq_refl) world world_sane world_readable world_writable)).
Defined.

(** One span row that does not read back keeps its turn unfinished, at every
    boot. *)
Definition spoiled : World Store :=
  mk_world (Trace.mk_world (save_span 4 (OtherSpan 1 112 None) crashed_tables).1 [] ∅ 0) turns.
Definition boots (n : nat) : World Store := Nat.iter n (fun w => (recover_orphaned_traces_and_turns (O := calm) w).1) spoiled.
Example unreadable_span_blocks_its_turn :
  map (fun n => status_of 7 (boots n)) [1; 2; 3] = repeat (Some ("in_progress"%string, None)) 3.
Proof. vm_compute. reflexivity. Qed.
End Sample.

End Recovery.
