(* ===== verification/InvokeParams.v ===== *)
(** * Parameters of a deferred call
      ([crates/agent/src/runtime/tool_executor.rs])

    A call that arrives through [ToolInvoke] was written from a listing, not
    from a schema the provider enforces: the executor checks its parameters
    first, through a bounded cache of compiled validators, and words the
    rejection so that no revealed secret is quoted. *)

From S2P Require Import Prelude Message Turn Lifecycle Wire ToolTrace ToolRegistry.
Import Message.

Module InvokeParams.

(** The [jsonschema] crate: a schema compiles to a validator or fails, and a
    validator lists its errors as an instance path and a message. *)
Class JsonSchema (V : Type) := {
  validator_for : json -> result V string;
  iter_errors : V -> json -> list (string * string);
}.

Definition MAX_ENTRIES : nat := 256.
Definition MAX_REPORTED_ERRORS : nat := 3.
Definition MAX_SCHEMA_COMPILE_BYTES : N := 65536.
Definition MAX_QUOTED_SCHEMA_BYTES : N := 4096.

Record InvokeParamsRejection := mk_rejection {
  errors : list (string * string);
  quoted_schema : string;
}.

Section Validate.
Context (json_text : json -> string) {V : Type} `{JsonSchema V}.

Abbreviation Cache := (gmap string V).

Definition rendered (e : string * string) : string * string :=
  let (at_, text) := e in (at_, if String.eqb at_ "" then text else (at_ +:+ ": " +:+ text)%string).
(** [char_indices().take_while(|(i, _)| *i < MAX).last()] and past that character. *)
Definition quoted (tool : string) (serialized : string) : string :=
  if (ToolTrace.bytes serialized <=? MAX_QUOTED_SCHEMA_BYTES)%N then serialized
  else
    let whole_chars := Str.char_count (Str.take (N.to_nat MAX_QUOTED_SCHEMA_BYTES) serialized) in
    (Str.take_chars whole_chars serialized
     +:+ "… (truncated; fetch the full schema via ToolSearch kind=" +:+ dquote +:+ "exact" +:+ dquote
     +:+ " query=" +:+ dquote +:+ tool +:+ dquote +:+ ")")%string.
Definition judged (tool serialized : string) (v : V) (params : json) : result unit InvokeParamsRejection :=
  match List.map rendered (take MAX_REPORTED_ERRORS (iter_errors v params)) with
  | [] => Ok tt
  | es => Err (mk_rejection es (quoted tool serialized))
  end.
(** The cache is keyed by the schema's text; at the bound it is cleared. *)
Definition insert_validator (k : string) (v : V) (cache : Cache) : Cache * V :=
  let cache := if Nat.leb MAX_ENTRIES (size cache) then ∅ else cache in
  match cache !! k with
  | Some old => (cache, old)
  | None => (<[k := v]> cache, v)
  end.
Definition validate (tool : ToolRegistry.Tool) (params : json) (cache : Cache)
    : Cache * result unit InvokeParamsRejection :=
  let serialized := json_text (ToolRegistry.schema tool) in
  if (MAX_SCHEMA_COMPILE_BYTES <? ToolTrace.bytes serialized)%N then (cache, Ok tt)
  else
    match cache !! serialized with
    | Some v => (cache, judged (ToolRegistry.tool_name tool) serialized v params)
    | None =>
        match validator_for (ToolRegistry.schema tool) with
        | Err _ => (cache, Ok tt)
        | Ok compiled =>
            let (cache, v) := insert_validator serialized compiled cache in
            (cache, judged (ToolRegistry.tool_name tool) serialized v params)
        end
    end.

(** Reference: compile every time. *)
Definition validate_uncached (tool : ToolRegistry.Tool) (params : json) : result unit InvokeParamsRejection :=
  let serialized := json_text (ToolRegistry.schema tool) in
  if (MAX_SCHEMA_COMPILE_BYTES <? ToolTrace.bytes serialized)%N then Ok tt
  else
    match validator_for (ToolRegistry.schema tool) with
    | Err _ => Ok tt
    | Ok v => judged (ToolRegistry.tool_name tool) serialized v params
    end.

(** *** The rejection the model reads *)

Definition pointer_escape (k : string) : string := Str.replace "/" "~1" (Str.replace "~" "~0" k).
(** The string leaves that revealing changed: their path, as masked, revealed. *)
Fixpoint revealed_secret_values (original revealed : json) (path : string) : list (string * string * string) :=
  match original, revealed with
  | JString o, JString r => if String.eqb o r then [] else [(path, o, r)]
  | JObject o, JObject r =>
      flat_map (fun kv : string * json =>
        match Json.assoc kv.1 r with
        | Some rv => revealed_secret_values kv.2 rv (path +:+ "/" +:+ pointer_escape kv.1)%string
        | None => []
        end) o
  | JArray o, JArray r =>
      (fix go (i : nat) (o r : list json) : list (string * string * string) :=
         match o, r with
         | ov :: o, rv :: r =>
             revealed_secret_values ov rv (path +:+ "/" +:+ pretty i)%string ++ go (S i) o r
         | _, _ => []
         end) 0 o r
  | _, _ => []
  end.

Definition secret_here (secrets : list (string * string * string)) (path : string) : bool :=
  existsb (fun s => let '(sp, _, _) := s in String.eqb path sp || Str.starts_with (sp +:+ "/") path) secrets.
Definition secret_error (path : string) : string :=
  (path +:+ ": the value is a stored secret and fails this field's schema constraint; fix the stored secret — the model cannot see or edit it")%string.
(** [sort_by_key(Reverse(revealed.len()))]: stable, longest first. *)
Definition longer (a b : string * string * string) : Prop := String.length b.2 <= String.length a.2.
#[global] Instance longer_dec : RelDecision longer.
Proof. intros a b. unfold longer. apply _. Defined.
#[global] Instance longer_total : Total longer.
Proof. intros a b. unfold longer. lia. Qed.
Definition remask (msg : string) (s : string * string * string) : string :=
  let '(_, original, revealed) := s in
  if String.eqb revealed "" then msg else Str.replace revealed original msg.
Definition compose_invoke_rejection (tool : string) (r : InvokeParamsRejection)
    (secrets : list (string * string * string)) : string :=
  let parts := List.map (fun e : string * string => if secret_here secrets e.1 then secret_error e.1 else e.2)
                 (errors r) in
  let msg := ("ToolInvoke params for '" +:+ tool +:+ "' failed schema validation: "
              +:+ Wire.joined "; " parts +:+ ". Expected parameters_schema: " +:+ quoted_schema r)%string in
  foldl remask msg (merge_sort longer secrets).

(** ** The cache is transparent *)

Definition cache_ok (cache : Cache) : Prop :=
  size cache <= MAX_ENTRIES /\
  map_Forall (fun k v => exists schema, json_text schema = k /\ validator_for schema = Ok v) cache.

Context (Htext : forall a b, json_text a = json_text b -> a = b).

Lemma cached_compiled cache schema v : cache_ok cache -> cache !! json_text schema = Some v ->
  validator_for schema = Ok v.
Proof. intros [_ Hall] Hv. destruct (Hall _ _ Hv) as (s & E & Hc). by rewrite <- (Htext _ _ E). Qed.
Lemma insert_ok cache schema v : cache_ok cache -> validator_for schema = Ok v ->
  cache_ok (insert_validator (json_text schema) v cache).1 /\
  (insert_validator (json_text schema) v cache).2 = v.
Proof.
  intros Hok Hv. unfold insert_validator.
  set (cache' := if Nat.leb MAX_ENTRIES (size cache) then ∅ else cache).
  assert (Hok' : cache_ok cache' /\ size cache' < MAX_ENTRIES).
  { subst cache'. destruct (Nat.leb_spec MAX_ENTRIES (size cache)); [|by split].
    unfold cache_ok. rewrite map_size_empty. unfold MAX_ENTRIES. split; [split; [lia | apply map_Forall_empty] | lia]. }
  clearbody cache'. clear Hok cache. destruct Hok' as [Hok Hsize]. destruct (cache' !! json_text schema) as [old|] eqn:E; cbn.
  - split; [done|]. pose proof (cached_compiled _ _ _ Hok E). congruence.
  - split; [|done]. destruct Hok as [_ Hall]. split.
    + rewrite map_size_insert_None by done. unfold MAX_ENTRIES in *. lia.
    + apply map_Forall_insert_2; [by exists schema | done].
Qed.
Lemma validate_uncached_eq tool params cache : cache_ok cache ->
  cache_ok (validate tool params cache).1 /\ (validate tool params cache).2 = validate_uncached tool params.
Proof.
  intros Hok. unfold validate, validate_uncached.
  destruct (N.ltb MAX_SCHEMA_COMPILE_BYTES _); [by split|].
  destruct (cache !! json_text (ToolRegistry.schema tool)) as [v|] eqn:E.
  - by rewrite (cached_compiled _ _ _ Hok E).
  - destruct (validator_for (ToolRegistry.schema tool)) as [v|e] eqn:Hv; [|by split].
    destruct (insert_ok cache _ v Hok Hv) as [H1 H2].
    destruct (insert_validator _ v cache) as [c w]. cbn in *. by subst w.
Qed.

Fixpoint validate_all (calls : list (ToolRegistry.Tool * json)) (cache : Cache)
    : Cache * list (result unit InvokeParamsRejection) :=
  match calls with
  | [] => (cache, [])
  | (t, p) :: calls =>
      let (cache, v) := validate t p cache in
      let (cache, vs) := validate_all calls cache in
      (cache, v :: vs)
  end.

(** Caching compiled validators changes no verdict.  For a serializer that
    writes different schemas differently, whatever sequence of calls the
    executor has checked, with tools registered again under another schema in
    between and the cache overflowing and being cleared, each call is judged
    exactly as if its own tool's schema had just been compiled, and the cache
    never holds more than its bound. *)
Theorem validator_cache_transparent (calls : list (ToolRegistry.Tool * json)) :
  let (cache, verdicts) := validate_all calls ∅ in
  verdicts = List.map (fun c => validate_uncached c.1 c.2) calls /\ size cache <= MAX_ENTRIES.
Proof.
  assert (H0 : cache_ok ∅) by (split; [rewrite map_size_empty; unfold MAX_ENTRIES; lia | apply map_Forall_empty]).
  revert H0. generalize (∅ : Cache) as cache.
  induction calls as [|[t p] calls IH]; intros cache Hok; cbn; [by destruct Hok|].
  destruct (validate_uncached_eq t p cache Hok) as [Hok' Hv].
  destruct (validate t p cache) as [cache1 v]. cbn in *. specialize (IH cache1 Hok').
  destruct (validate_all calls cache1) as [cache2 vs]. destruct IH as [-> ?]. by subst v.
Qed.
End Validate.

(** ** An injective serializer and a schema that wants a string *)

Module Sample.

Fixpoint json_tree (j : json) : gen_tree string :=
  match j with
  | JNull => GenNode 0 []
  | JBool b => GenNode (if b then 1 else 2) []
  | JNumber s => GenNode 3 [GenLeaf s]
  | JString s => GenNode 4 [GenLeaf s]
  | JArray l => GenNode 5 (List.map json_tree l)
  | JObject l => GenNode 6 (List.map (fun kv => GenNode 7 [GenLeaf kv.1; json_tree kv.2]) l)
  end.
Fixpoint tree_json (t : gen_tree string) : json :=
  match t with
  | GenNode 1 _ => JBool true
  | GenNode 2 _ => JBool false
  | GenNode 3 [GenLeaf s] => JNumber s
  | GenNode 4 [GenLeaf s] => JString s
  | GenNode 5 l => JArray (List.map tree_json l)
  | GenNode 6 l =>
      JObject (List.map (fun t => match t with
                                  | GenNode _ [GenLeaf k; v] => (k, tree_json v)
                                  | _ => (EmptyString, JNull)
                                  end) l)
  | _ => JNull
  end.
Lemma tree_json_tree : forall j, tree_json (json_tree j) = j.
Proof.
  fix go 1. intros [|[]| | |l|l]; cbn; try done; f_equal; rewrite List.map_map.
  - induction l as [|x l IH]; cbn; [done|]. f_equal; [apply go | exact IH].
  - induction l as [|[k v] l IH]; cbn; [done|]. f_equal; [by rewrite go | exact IH].
Qed.
#[export] Instance json_countable : Countable json := inj_countable' json_tree tree_json tree_json_tree.

Definition text (j : json) : string := Lifecycle.Sample.pos_text (encode j).
Lemma text_inj a b : text a = text b -> a = b.
Proof.
  intros E. apply (f_equal Lifecycle.Sample.text_pos) in E. unfold text in E.
  rewrite !Lifecycle.Sample.text_pos_text in E. by apply (inj encode), (inj Some).
Qed.

(** A validator is the schema: [true] accepts anything, a string only itself. *)
#[export] Instance constant_schema : JsonSchema json := {
  validator_for s := match s with JBool _ | JString _ => Ok s | _ => Err EmptyString end;
  iter_errors s v := match s with
                     | JString _ => if decide (s = v) then [] else [(EmptyString, "not the constant"%string)]
                     | _ => []
                     end;
}.
Definition tool (schema : json) : ToolRegistry.Tool :=
  ToolRegistry.mk_tool "Deploy" "" schema (fun _ => schema) ToolRegistry.Any ToolRegistry.Exclusive
    (fun _ => None) (fun _ => []) (fun _ => None).
Definition calls : list (ToolRegistry.Tool * json) :=
  [(tool (JString "yes"), JString "yes"); (tool (JBool true), JString "no");
   (tool (JString "yes"), JString "no"); (tool JNull, JNull)]%string.
End Sample.
#[local] Existing Instance Sample.constant_schema.

Lemma validator_cache_transparent_witness :
  List.map is_Ok (validate_all Sample.text Sample.calls ∅).2 = [true; true; false; true] /\
  size (validate_all Sample.text Sample.calls ∅).1 <= MAX_ENTRIES.
Proof.
  pose proof (validator_cache_transparent Sample.text Sample.text_inj Sample.calls) as H.
  destruct (validate_all Sample.text Sample.calls ∅) as [cache verdicts].
  destruct H as [-> Hsize]. split; [vm_compute; reflexivity | exact Hsize].
Defined.

End InvokeParams.
