(* ===== verification/Scope.v ===== *)
(** * Scope guards of a turn ([crates/agent/src/runtime/scope.rs])

    Steps, spans and the turn itself are opened and closed around a body that
    may fail anywhere.  The trace store and the clock answer from the world; the
    turn's rows are [Lifecycle]'s. *)

From S2P Require Import Prelude Effect Message Turn Lifecycle ContextManager Approval Streaming ToolTrace.
Import Message Effect.

Module Scope.

(** ** Errors

    [anyhow::Error], as far as the callers look into it by downcast. *)
Inductive Error :=
| Anyhow (msg : string)
| Llm (e : Streaming.LlmError)
| Io (msg : string)
| CancelledTurn (partial : list ContentBlock)
| FromContext (e : ContextManager.ContextError)
| FromTurn (e : Turn.TurnError)
| Denied (tool reason : string)
| InvalidParams (msg : string)
| NotFound (msg : string)
| WithContext (msg : string) (e : Error).

Definition llm_error_text (e : Streaming.LlmError) : string :=
  match e with
  | Streaming.Transient s => "LLM transient error: " +:+ s
  | Streaming.RateLimited _ m => "LLM rate limited: " +:+ m
  | Streaming.QuotaExhausted _ m => "LLM quota exhausted: " +:+ m
  | Streaming.BadRequest s => "LLM bad request: " +:+ s
  | Streaming.Auth s => "LLM auth error: " +:+ s
  | Streaming.Decode s => "LLM decode error: " +:+ s
  | Streaming.Config s => "LLM configuration error: " +:+ s
  | Streaming.ModelNotFound s => "model not found: " +:+ s
  | Streaming.GuardRejected s => "LLM call rejected by local guard: " +:+ s
  | Streaming.LlmInternal s => s
  end%string.
(** [Display]; the text of a turn error is the turn crate's. *)
Definition error_text (turn_error_text : Turn.TurnError -> string) (e : Error) : string :=
  match e with
  | Anyhow m | Io m => m
  | Llm e => llm_error_text e
  | CancelledTurn _ => "LLM call cancelled mid-flight"
  | FromContext e => ContextManager.error_text e
  | FromTurn e => turn_error_text e
  | Denied tool reason => "tool '" +:+ tool +:+ "' permission denied: " +:+ reason
  | InvalidParams m => "invalid parameters: " +:+ m
  | NotFound m => "tool not found: " +:+ m
  | WithContext m _ => m
  end%string.

(** ** The trace ([crates/trace]) *)

Inductive CompressionTrigger := Threshold | Forced.
Inductive StepKind :=
| LlmIteration | Compression (trigger : CompressionTrigger) | MemoryRecall | MemoryWrite
| ProgressObserver | TitleGeneration.
Inductive LifecycleOutcome :=
| OutcomeOk
| OutcomeFailed (reason : string)
| OutcomeCancelled (reason : Turn.CancelReason).

Record LlmToolCallRecord := mk_call_record {
  record_id : string;
  record_name : string;
  record_arguments : json;
}.
(** What a provider call left: its text, its reasoning, the calls it asked for,
    the usage it is billed. *)
Record LlmCallResult := mk_call_result {
  output_content : string;
  output_thinking : option string;
  output_calls : list LlmToolCallRecord;
  call_usage : Streaming.TokenUsage;
}.
Definition no_result : LlmCallResult := mk_call_result "" None [] Streaming.no_usage.

Inductive SpanFinalize :=
| FinalEmpty
| FinalLlmCall (r : LlmCallResult)
| FinalToolCall (r : ToolTrace.ToolCallResult).

Section Runtime.
(** [W] the world, [S] the turn store, [B] what an [LlmCall] span is opened with,
    [X] the state of the code that runs inside. *)
Context {W S B X : Type}.

Inductive Opening :=
| Step (kind : StepKind)
| LlmCall (begin : B)
| ToolCall (name tool_use_id : string) (params : json).
Inductive TraceEvent :=
| Begun (o : Opening)
| Ended (o : Opening) (outcome : LifecycleOutcome) (finalize : SpanFinalize)
| Decided (d : ApprovalDecision) (resource : Approval.ResourceAccess)
| ToolEvent (action : string) (payload : ToolTrace.ToolEventPayload)
| Requested (messages : list ChatMessage).

Record Runtime := mk_runtime {
  outside : W;
  turns : Lifecycle.TurnLifecycle S;
  trace : list TraceEvent;
  inside : X;
}.
Definition set_outside (w : W) (r : Runtime) : Runtime := mk_runtime w (turns r) (trace r) (inside r).
Definition set_turns (t : Lifecycle.TurnLifecycle S) (r : Runtime) : Runtime :=
  mk_runtime (outside r) t (trace r) (inside r).
Definition set_trace (t : list TraceEvent) (r : Runtime) : Runtime :=
  mk_runtime (outside r) (turns r) t (inside r).
Definition set_inside (x : X) (r : Runtime) : Runtime := mk_runtime (outside r) (turns r) (trace r) x.

(** What the scopes ask of the process: whether a token that is not in the
    turn registry (a parent's) has tripped, the time, and whether the trace
    store opens a row. *)
Class Ambient := {
  parent_tripped : W -> bool;
  clock : W -> W * Time;
  fresh_turn : W -> W * TurnId;
  recorder : W -> W * result unit string;
}.
Context {A : Ambient} {St : Lifecycle.TurnStore S} {Cd : Turn.TurnCodec}.
Context (turn_error_text : Turn.TurnError -> string).

Definition RM (T : Type) : Type := M Runtime Error T.

Definition ask {T} (f : W -> W * T) : RM T :=
  draw (fun r => let (w, a) := f (outside r) in (set_outside w r, a)).
Definition is_cancelled (token : N) (r : Runtime) : bool :=
  parent_tripped (outside r) || bool_decide (token ∈ Lifecycle.tripped (turns r)).
Definition note (e : TraceEvent) : RM unit := modify (fun r => set_trace (trace r ++ [e]) r).
Definition on_turns {T} (m : Lifecycle.LM S T) : RM T := fun r =>
  let (t, a) := m (turns r) in
  (set_turns t r, match a with Ok a => Ok a | Err e => Err (FromTurn e) end).

(** [CancelContext]: [None] for a scope that no token stops. *)
Definition outcome_on_err (e : Error) (cancel : option N) (r : Runtime) : LifecycleOutcome :=
  match cancel with
  | Some token => if is_cancelled token r then OutcomeCancelled Turn.ParentCancelled
                  else OutcomeFailed (error_text turn_error_text e)
  | None => OutcomeFailed (error_text turn_error_text e)
  end.
Definition begin (o : Opening) : RM unit :=
  let* opened := ask recorder in
  match opened with
  | Err e => throw (Anyhow e)
  | Ok _ => note (Begun o)
  end.

(** The close is attempted on both arms; its own failure is only logged. *)
Definition with_step {T} (kind : StepKind) (cancel : option N) (body : RM (LifecycleOutcome * T)) : RM T :=
  let* _ := begin (Step kind) in
  let* r := attempt body in
  match r with
  | Ok (o, v) => let* _ := note (Ended (Step kind) o FinalEmpty) in ret v
  | Err e =>
      let* o := gets (outcome_on_err e cancel) in
      let* _ := note (Ended (Step kind) o FinalEmpty) in
      throw e
  end.
Definition with_span {T} (o : Opening) (cancel : option N)
    (body : RM (SpanFinalize * LifecycleOutcome * T)) : RM T :=
  let* _ := begin o in
  let* r := attempt body in
  match r with
  | Ok (f, out, v) => let* _ := note (Ended o out f) in ret v
  | Err e =>
      let* out := gets (outcome_on_err e cancel) in
      let* _ := note (Ended o out FinalEmpty) in
      throw e
  end.
(** The body of an LLM span always has something to close it with. *)
Definition with_llm_span {T} (b : B) (cancel : option N)
    (body : Runtime -> Runtime * (LlmCallResult * result T Error)) : RM T :=
  let* _ := begin (LlmCall b) in
  let* r := draw body in
  let (finalize, value) := r in
  let* o := match value with
            | Ok _ => ret OutcomeOk
            | Err e => gets (outcome_on_err e cancel)
            end in
  let* _ := note (Ended (LlmCall b) o (FinalLlmCall finalize)) in
  of_result value.

(** ** The turn *)

Record TurnSpec := mk_spec {
  spec_session : SessionId;
  spec_origin : Turn.TriggerKind;
  spec_input : Turn.TurnInput;
  spec_parent : option TurnId;
}.
Inductive TurnSettlement (T : Type) :=
| Complete (output : Turn.TurnOutput) (value : T)
| Cancel (e : Error)
| Fail (e : Error).
Arguments Complete {T} _ _.
Arguments Cancel {T} _.
Arguments Fail {T} _.

Definition cancel_row (i : TurnId) : RM unit :=
  let* now := ask clock in
  let* _ := attempt (on_turns (Lifecycle.lc_cancel now i Turn.ParentCancelled [])) in
  ret tt.
Definition settle_turn {T} (i : TurnId) (s : TurnSettlement T) : RM T :=
  match s with
  | Complete output value =>
      let* now := ask clock in
      let* done := attempt (on_turns (Lifecycle.lc_complete now i output)) in
      match done with
      | Ok _ => ret value
      | Err e =>
          let* _ := cancel_row i in
          throw (Anyhow ("turn already terminal: " +:+ error_text turn_error_text e))%string
      end
  | Cancel e => let* _ := cancel_row i in throw e
  | Fail e =>
      let* now := ask clock in
      let* _ := attempt (on_turns (Lifecycle.lc_fail now i (error_text turn_error_text e))) in
      throw e
  end.
Definition settlement {T} (r : result (Turn.TurnOutput * T) Error) (cancelled : bool) : TurnSettlement T :=
  match r, cancelled with
  | Ok (output, value), false => Complete output value
  | Ok _, true => Cancel (Anyhow "turn cancelled mid-flight")
  | Err e, true => Cancel e
  | Err e, false => Fail e
  end.
Definition run_turn {T} (token : N) (i : TurnId) (body : TurnId -> RM (Turn.TurnOutput * T)) : RM T :=
  let* now := ask clock in
  let* started := attempt (on_turns (Lifecycle.lc_start now i)) in
  match started with
  | Err e =>
      let* now := ask clock in
      let* _ := attempt (on_turns (Lifecycle.lc_fail now i
                  ("start failed: " +:+ error_text turn_error_text e)%string)) in
      throw e
  | Ok _ =>
      let* r := attempt (body i) in
      let* cancelled := gets (is_cancelled token) in
      settle_turn i (settlement r cancelled)
  end.
(** The registration is dropped with the guard, on every exit. *)
Definition with_turn {T} (token : N) (spec : TurnSpec) (body : TurnId -> RM (Turn.TurnOutput * T)) : RM T :=
  let* fresh := ask fresh_turn in
  let* now := ask clock in
  let* turn := on_turns (Lifecycle.lc_start_turn fresh now (spec_session spec) (spec_origin spec)
                 (spec_input spec) (spec_parent spec)) in
  let i := Turn.id turn in
  let* _ := on_turns (Lifecycle.register_running i token) in
  let* r := attempt (run_turn token i body) in
  let* _ := on_turns (Lifecycle.registry_unregister i) in
  of_result r.

(** ** A well-nested trace *)

Inductive balanced : list TraceEvent -> Prop :=
| balanced_nil : balanced []
| balanced_app es fs : balanced es -> balanced fs -> balanced (es ++ fs)
| balanced_mark e : (forall o, e <> Begun o) -> (forall o r u, e <> Ended o r u) -> balanced [e]
| balanced_scope o es r u : balanced es -> balanced (Begun o :: es ++ [Ended o r u]).

(** What code inside a turn may do: the turn's rows are the orchestrator's, what
    it adds to the trace is well nested and holds at most [n] requests to the
    model. *)
Definition is_request (e : TraceEvent) : bool := match e with Requested _ => true | _ => false end.
Definition requests (es : list TraceEvent) : nat := length (List.filter is_request es).
Definition adds_trace (n : nat) (r r' : Runtime) : Prop :=
  exists es, trace r' = trace r ++ es /\ balanced es /\ requests es <= n.
Definition spends {T} (n : nat) (m : RM T) : Prop :=
  forall r, turns (m r).1 = turns r /\ adds_trace n r (m r).1.

Lemma requests_app es fs : requests (es ++ fs) = requests es + requests fs.
Proof. unfold requests. by rewrite List.filter_app, length_app. Qed.
Lemma spends_still {T} (m : RM T) :
  (forall r, turns (m r).1 = turns r /\ trace (m r).1 = trace r) -> spends 0 m.
Proof.
  intros H r. destruct (H r) as [E F]. split; [done|]. exists []. rewrite app_nil_r.
  split_and!; [done | constructor | done].
Qed.
Lemma spends_le {T} n k (m : RM T) : n <= k -> spends n m -> spends k m.
Proof. intros Hle Hm r. destruct (Hm r) as (E & es & F & Hb & Hn). split; [done|]. exists es. split_and!; [done.. | lia]. Qed.
Lemma spends_ret {T} (a : T) : spends 0 (ret a).
Proof. by apply spends_still. Qed.
Lemma spends_throw {T} e : spends 0 (throw (A := T) e).
Proof. by apply spends_still. Qed.
Lemma spends_gets {T} (f : Runtime -> T) : spends 0 (gets f).
Proof. by apply spends_still. Qed.
Lemma spends_modify f : (forall r, turns (f r) = turns r /\ trace (f r) = trace r) -> spends 0 (modify f).
Proof. intros H. by apply spends_still. Qed.
Lemma spends_of_result {T} (a : result T Error) : spends 0 (of_result a).
Proof. by apply spends_still. Qed.
Lemma spends_ask {T} (f : W -> W * T) : spends 0 (ask f).
Proof. apply spends_still. intros r. unfold ask, draw. by destruct (f (outside r)). Qed.
Lemma spends_bind_le {T U} n k t (m : RM T) (f : T -> RM U) :
  spends n m -> (forall a, spends k (f a)) -> n + k <= t -> spends t (bind m f).
Proof.
  intros Hm Hk Hle r. destruct (Hm r) as (E & es & F & Hes & Hn). unfold bind.
  destruct (m r) as [r' [a|e]]; cbn in *.
  - destruct (Hk a r') as (E' & fs & F' & Hfs & Hn'). split; [by rewrite E'|]. exists (es ++ fs).
    rewrite F', F, (assoc_L (++)), requests_app. split_and!; [done | by apply balanced_app | lia].
  - split; [done|]. exists es. split_and!; [done.. | lia].
Qed.
Lemma spends_bind {T U} n (m : RM T) (f : T -> RM U) : spends 0 m -> (forall a, spends n (f a)) -> spends n (bind m f).
Proof. intros Hm Hk. by apply (spends_bind_le 0 n). Qed.
Lemma spends_attempt {T} n (m : RM T) : spends n m -> spends n (attempt m).
Proof. intros Hm r. specialize (Hm r). unfold attempt. by destruct (m r). Qed.
Lemma spends_when n b (m : RM unit) : spends n m -> spends n (when b m).
Proof. intros H. destruct b; [exact H|]. apply (spends_le 0); [lia | apply spends_ret]. Qed.
Lemma spends_each {Y} (f : Y -> RM unit) l : (forall x, spends 0 (f x)) -> spends 0 (each f l).
Proof. intros H. induction l as [|x l IH]; [apply spends_ret | by apply spends_bind]. Qed.
Lemma spends_note e : (forall o, e <> Begun o) -> (forall o r u, e <> Ended o r u) ->
  spends (if is_request e then 1 else 0) (note e).
Proof.
  intros H1 H2 r. split; [done|]. exists [e]. split_and!; [done | by apply balanced_mark |].
  unfold requests. cbn. by destruct (is_request e).
Qed.
Lemma spends_mark e : (forall o, e <> Begun o) -> (forall o r u, e <> Ended o r u) -> is_request e = false ->
  spends 0 (note e).
Proof. intros H1 H2 H. pose proof (spends_note e H1 H2) as Hs. by rewrite H in Hs. Qed.

(** A scope closes what it opened, however its body ends. *)
Lemma spends_scope {T} n o (inner : RM T) :
  (forall r, turns (inner r).1 = turns r /\
     exists es out u, trace (inner r).1 = trace r ++ es ++ [Ended o out u] /\ balanced es /\ requests es <= n) ->
  spends n (let* _ := begin o in inner).
Proof.
  intros Hi r. unfold begin, bind, ask, draw, throw, note, modify. destruct (recorder (outside r)) as [w [[]|e]];
    [|split; [done|]; exists []; cbn; rewrite app_nil_r; split_and!; [done | constructor | lia]].
  cbn. set (r1 := set_trace _ _). destruct (Hi r1) as (Ht & es & out & u & E & Hes & Hn). split; [exact Ht|].
  exists (Begun o :: es ++ [Ended o out u]). split_and!; [|by apply balanced_scope|].
  - rewrite E. cbn. by rewrite <- (assoc_L (++)).
  - change (Begun o :: es ++ [Ended o out u]) with ([Begun o] ++ es ++ [Ended o out u]).
    rewrite !requests_app. change (requests [Begun o]) with 0. change (requests [Ended o out u]) with 0. lia.
Qed.
Lemma spends_step {T} n k cancel (body : RM (LifecycleOutcome * T)) : spends n body -> spends n (with_step k cancel body).
Proof.
  intros Hb. apply spends_scope. intros r. destruct (Hb r) as (Ht & es & E & Hes & Hn).
  unfold bind, attempt, note, modify, gets, ret, throw.
  destruct (body r) as [r1 [[o' v]|e]]; cbn in *; rewrite E; (split; [done|]); do 3 eexists;
    (split_and!; [by rewrite <- (assoc_L (++)) | exact Hes | exact Hn]).
Qed.
Lemma spends_span {T} n o cancel (body : RM (SpanFinalize * LifecycleOutcome * T)) :
  spends n body -> spends n (with_span o cancel body).
Proof.
  intros Hb. apply spends_scope. intros r. destruct (Hb r) as (Ht & es & E & Hes & Hn).
  unfold bind, attempt, note, modify, gets, ret, throw.
  destruct (body r) as [r1 [[[f out] v]|e]]; cbn in *; rewrite E; (split; [done|]); do 3 eexists;
    (split_and!; [by rewrite <- (assoc_L (++)) | exact Hes | exact Hn]).
Qed.
Lemma spends_llm_span {T} n b cancel (body : Runtime -> Runtime * (LlmCallResult * result T Error)) :
  spends n (draw body) -> spends n (with_llm_span b cancel body).
Proof.
  intros Hb. apply spends_scope. intros r. destruct (Hb r) as (Ht & es & E & Hes & Hn). unfold draw in Ht, E.
  unfold bind, draw, note, modify, gets, ret, of_result.
  destruct (body r) as [r1 [u [v|e]]]; cbn in *; rewrite E; (split; [done|]); do 3 eexists;
    (split_and!; [by rewrite <- (assoc_L (++)) | exact Hes | exact Hn]).
Qed.
(** A turn around such code: the orchestrator writes no trace of its own. *)
Definition writes {T} (n : nat) (m : RM T) : Prop := forall r, adds_trace n r (m r).1.
Lemma spends_writes {T} n (m : RM T) : spends n m -> writes n m.
Proof. intros H r. apply H. Qed.
Lemma writes_still {T} (m : RM T) : (forall r, trace (m r).1 = trace r) -> writes 0 m.
Proof. intros H r. exists []. rewrite app_nil_r. split_and!; [apply H | constructor | done]. Qed.
Lemma writes_on_turns {T} (m : Lifecycle.LM S T) : writes 0 (on_turns m).
Proof. apply writes_still. intros r. unfold on_turns. by destruct (m (turns r)). Qed.
Lemma writes_attempt {T} n (m : RM T) : writes n m -> writes n (attempt m).
Proof. intros Hm r. specialize (Hm r). unfold attempt. by destruct (m r). Qed.
Lemma writes_bind_le {T U} n k t (m : RM T) (f : T -> RM U) :
  writes n m -> (forall a, writes k (f a)) -> n + k <= t -> writes t (bind m f).
Proof.
  intros Hm Hk Hle r. destruct (Hm r) as (es & F & Hes & Hn). unfold bind.
  destruct (m r) as [r' [a|e]]; cbn in *; [|exists es; split_and!; [done.. | lia]].
  destruct (Hk a r') as (fs & F' & Hfs & Hn'). exists (es ++ fs).
  rewrite F', F, (assoc_L (++)), requests_app. split_and!; [done | by apply balanced_app | lia].
Qed.
Lemma writes_bind {T U} n (m : RM T) (f : T -> RM U) : writes 0 m -> (forall a, writes n (f a)) -> writes n (bind m f).
Proof. intros Hm Hk. by apply (writes_bind_le 0 n). Qed.
Lemma writes_cancel_row i : writes 0 (cancel_row i).
Proof.
  apply writes_bind; [apply spends_writes, spends_ask | intros now].
  apply writes_bind; [apply writes_attempt, writes_on_turns | intros _; by apply writes_still].
Qed.
Lemma writes_settle {T} i (s : TurnSettlement T) : writes 0 (settle_turn i s).
Proof.
  destruct s as [output v|e|e]; cbn [settle_turn].
  - apply writes_bind; [apply spends_writes, spends_ask | intros now].
    apply writes_bind; [apply writes_attempt, writes_on_turns | intros [|]; [by apply writes_still|]].
    apply writes_bind; [apply writes_cancel_row | intros _; by apply writes_still].
  - apply writes_bind; [apply writes_cancel_row | intros _; by apply writes_still].
  - apply writes_bind; [apply spends_writes, spends_ask | intros now].
    apply writes_bind; [apply writes_attempt, writes_on_turns | intros _; by apply writes_still].
Qed.
Lemma writes_turn {T} n token spec (body : TurnId -> RM (Turn.TurnOutput * T)) :
  (forall i, spends n (body i)) -> writes n (with_turn token spec body).
Proof.
  intros Hb. unfold with_turn, run_turn.
  apply writes_bind; [apply spends_writes, spends_ask | intros fresh].
  apply writes_bind; [apply spends_writes, spends_ask | intros now].
  apply writes_bind; [apply writes_on_turns | intros t]. cbv zeta.
  apply writes_bind; [apply writes_on_turns | intros _].
  assert (Hend : forall res : result T Error, writes 0 (let* _ := on_turns (Lifecycle.registry_unregister (Turn.id t)) in of_result res)).
  { intros res. apply writes_bind; [apply writes_on_turns | intros _; by apply writes_still]. }
  apply (writes_bind_le n 0); [apply writes_attempt | exact Hend | lia].
  apply writes_bind; [apply spends_writes, spends_ask | intros now'].
  apply writes_bind; [apply writes_attempt, writes_on_turns | intros [_|e]].
  - apply (writes_bind_le n 0); [by apply writes_attempt, spends_writes | intros res | lia].
    apply writes_bind; [by apply writes_still | intros c; apply writes_settle].
  - apply (writes_bind_le 0 0); [apply spends_writes, spends_ask | intros now'' | lia].
    apply writes_bind; [apply writes_attempt, writes_on_turns | intros _; by apply writes_still].
Qed.

(** *** What is said of the state inside

    The scopes work around it: only their body can change it. *)
Section Inside.
Context (Q : X -> Prop).
Definition keeps_in {T} (m : RM T) : Prop := keeps (fun r => Q (inside r)) m.

Lemma keeps_in_ask {T} (f : W -> W * T) : keeps_in (ask f).
Proof. apply keeps_draw. intros r. by destruct (f (outside r)). Qed.
Lemma keeps_in_note e : keeps_in (note e).
Proof. by apply keeps_modify. Qed.
Lemma keeps_in_on_turns {T} (m : Lifecycle.LM S T) : keeps_in (on_turns m).
Proof. intros r H. unfold on_turns. destruct (m (turns r)). exact H. Qed.
Lemma keeps_in_begin o : keeps_in (begin o).
Proof.
  apply keeps_bind; [apply keeps_in_ask | intros [|]]; [apply keeps_in_note | apply keeps_throw].
Qed.
Lemma keeps_in_step {T} k cancel (body : RM (LifecycleOutcome * T)) : keeps_in body -> keeps_in (with_step k cancel body).
Proof.
  intros Hb. apply keeps_bind; [apply keeps_in_begin | intros _].
  apply keeps_bind; [by apply keeps_attempt | intros [[o v]|e]].
  - apply keeps_bind; [apply keeps_in_note | intros _; apply keeps_ret].
  - apply keeps_bind; [apply keeps_gets | intros o]. apply keeps_bind; [apply keeps_in_note | intros _; apply keeps_throw].
Qed.
Lemma keeps_in_llm_span {T} b cancel (body : Runtime -> Runtime * (LlmCallResult * result T Error)) :
  keeps_in (draw body) -> keeps_in (with_llm_span b cancel body).
Proof.
  intros Hb. apply keeps_bind; [apply keeps_in_begin | intros _].
  apply keeps_bind; [exact Hb | intros [f v]].
  apply keeps_bind; [destruct v; [apply keeps_ret | apply keeps_gets] | intros o].
  apply keeps_bind; [apply keeps_in_note | intros _; apply keeps_of_result].
Qed.
Lemma keeps_in_cancel_row i : keeps_in (cancel_row i).
Proof.
  apply keeps_bind; [apply keeps_in_ask | intros now].
  apply keeps_bind; [apply keeps_attempt, keeps_in_on_turns | intros _; apply keeps_ret].
Qed.
Lemma keeps_in_settle {T} i (s : TurnSettlement T) : keeps_in (settle_turn i s).
Proof.
  destruct s as [output v|e|e]; cbn [settle_turn].
  - apply keeps_bind; [apply keeps_in_ask | intros now].
    apply keeps_bind; [apply keeps_attempt, keeps_in_on_turns | intros [|]; [apply keeps_ret|]].
    apply keeps_bind; [apply keeps_in_cancel_row | intros _; apply keeps_throw].
  - apply keeps_bind; [apply keeps_in_cancel_row | intros _; apply keeps_throw].
  - apply keeps_bind; [apply keeps_in_ask | intros now].
    apply keeps_bind; [apply keeps_attempt, keeps_in_on_turns | intros _; apply keeps_throw].
Qed.
Lemma keeps_in_turn {T} token spec (body : TurnId -> RM (Turn.TurnOutput * T)) :
  (forall i, keeps_in (body i)) -> keeps_in (with_turn token spec body).
Proof.
  intros Hb. unfold with_turn, run_turn.
  apply keeps_bind; [apply keeps_in_ask | intros fresh]. apply keeps_bind; [apply keeps_in_ask | intros now].
  apply keeps_bind; [apply keeps_in_on_turns | intros t]. cbv zeta.
  apply keeps_bind; [apply keeps_in_on_turns | intros _].
  apply keeps_bind; [apply keeps_attempt | intros res; apply keeps_bind; [apply keeps_in_on_turns | intros _; apply keeps_of_result]].
  apply keeps_bind; [apply keeps_in_ask | intros now'].
  apply keeps_bind; [apply keeps_attempt, keeps_in_on_turns | intros [_|e]].
  - apply keeps_bind; [apply keeps_attempt, Hb | intros res]. apply keeps_bind; [apply keeps_gets | intros c; apply keeps_in_settle].
  - apply keeps_bind; [apply keeps_in_ask | intros now'']. apply keeps_bind; [apply keeps_attempt, keeps_in_on_turns | intros _; apply keeps_throw].
Qed.
End Inside.
End Runtime.
Arguments Runtime : clear implicits.
Arguments Ambient : clear implicits.
Arguments TraceEvent : clear implicits.
Arguments Opening : clear implicits.

(** ** The turn's row is settled *)

Section Settling.
Context {S : Type} `{HS : Lifecycle.TurnStore S} `{HL : !Lifecycle.TurnStoreLaws S} `{HC : Turn.TurnCodec}.
Implicit Types l : Lifecycle.TurnLifecycle S.

Definition rows l : gmap TurnId Turn.TurnRow := Lifecycle.view (Lifecycle.store l).

(** No lifecycle call removes a row. *)
Definition grows {T} (m : Lifecycle.LM S T) : Prop := forall l, dom (rows l) ⊆ dom (rows (m l).1).

Lemma grows_bind {T U} (m : Lifecycle.LM S T) (k : T -> Lifecycle.LM S U) :
  grows m -> (forall a, grows (k a)) -> grows (Lifecycle.bind m k).
Proof.
  intros Hm Hk l. unfold Lifecycle.bind. specialize (Hm l). destruct (m l) as [l' [a|e]]; [|exact Hm].
  etrans; [exact Hm | apply Hk].
Qed.
Lemma grows_still {T} (m : Lifecycle.LM S T) :
  (forall l, Lifecycle.store (m l).1 = Lifecycle.store l) -> grows m.
Proof. intros H l. unfold rows. by rewrite H. Qed.
Lemma grows_get i : grows (Lifecycle.on_store (Lifecycle.store_get i)).
Proof.
  intros l. unfold rows, Lifecycle.on_store. destruct (Lifecycle.store_get_view i (Lifecycle.store l)) as [H _].
  destruct (Lifecycle.store_get i (Lifecycle.store l)). cbn in *. by rewrite H.
Qed.
Lemma grows_save row : grows (Lifecycle.on_store (Lifecycle.store_save row)).
Proof.
  intros l. unfold rows, Lifecycle.on_store. pose proof (Lifecycle.store_save_view row (Lifecycle.store l)) as H.
  destruct (Lifecycle.store_save row (Lifecycle.store l)) as [s' [[]|e]]; cbn in *; rewrite H; set_solver.
Qed.
Lemma grows_create row : grows (Lifecycle.on_store (Lifecycle.store_create row)).
Proof.
  intros l. unfold rows, Lifecycle.on_store.
  pose proof (Lifecycle.store_create_view row (Lifecycle.store l)) as H.
  destruct (Lifecycle.store_create row (Lifecycle.store l)) as [s' [[]|e]]; cbn in *; rewrite H; set_solver.
Qed.
Lemma grows_registry_cancel i : grows (Lifecycle.registry_cancel i).
Proof. apply grows_still. intros l. unfold Lifecycle.registry_cancel. by destruct (Lifecycle.tokens l !! i). Qed.

Ltac grow := repeat first
  [ apply grows_get | apply grows_save | apply grows_create | apply grows_registry_cancel
  | apply grows_bind; [|intros ?] | progress case_match | by apply grows_still ].

Lemma grows_publish t p : grows (Lifecycle.persist_and_publish t p).
Proof. unfold Lifecycle.persist_and_publish, Lifecycle.persist. grow. Qed.
Lemma grows_apply i f : grows (Lifecycle.apply i f).
Proof. unfold Lifecycle.apply, Lifecycle.load_turn. grow. Qed.

Lemma step_grows l l' : Lifecycle.step l l' -> dom (rows l) ⊆ dom (rows l').
Proof.
  intros [? c _]. destruct c; unfold Lifecycle.run_call.
  all: try done; match goal with |- _ ⊆ dom (rows (fst (?f ?x))) => enough (H : grows f) by apply H end.
  - unfold Lifecycle.lc_start_turn. grow.
  - apply grows_bind; [apply grows_apply | intros ?; apply grows_publish].
  - apply grows_bind; [apply grows_apply | intros ?; apply grows_publish].
  - apply grows_bind; [apply grows_apply | intros ?; apply grows_publish].
  - unfold Lifecycle.lc_cancel, Lifecycle.load_turn, Lifecycle.apply, Lifecycle.persist_and_publish,
      Lifecycle.persist, Lifecycle.load_turn. grow.
  - unfold Lifecycle.lc_cancel_at, Lifecycle.load_turn, Lifecycle.apply, Lifecycle.persist_and_publish,
      Lifecycle.persist, Lifecycle.load_turn. grow.
  - unfold Lifecycle.lc_stuck, Lifecycle.persist. apply grows_bind; [apply grows_apply | intros ?]. grow.
  - unfold Lifecycle.lc_recover, Lifecycle.persist. apply grows_bind; [apply grows_apply | intros ?]. grow.
  - unfold Lifecycle.lc_get. grow.
Qed.
(** A store that answers and a codec that can write what ended. *)
Section Accepting.
Context (Hreads : forall i s, is_Ok (Lifecycle.store_get i s).2 = true).
Context (Hwrites : forall row s, is_Ok (Lifecycle.store_save row s).2 = true).
Context (Hcodec : forall t st e, is_Ok (Turn.serialize_turn t) = true ->
  is_Ok (Turn.serialize_turn (Turn.set_status st (Turn.set_ended_at e t))) = true).

Definition over l (i : TurnId) : Prop := Lifecycle.stored_stage (rows l) i = Lifecycle.Over.

Lemma load_accepted s0 l i : Lifecycle.log_inv s0 l -> i ∈ dom (rows l) -> exists l1 t row,
  Lifecycle.load_turn i l = (l1, Ok t) /\ rows l1 = rows l /\ rows l !! i = Some row /\
  Turn.from_row row = Ok t /\ Turn.to_row t = Ok row /\ Turn.id t = i.
Proof.
  intros [Hok _] [row Hrow]%elem_of_dom.
  destruct (Lifecycle.from_row_stored _ _ _ Hok Hrow) as (t & Hf & Ht & Hid).
  destruct (Lifecycle.store_get_view i (Lifecycle.store l)) as [Hv Ho]. specialize (Hreads i (Lifecycle.store l)).
  unfold Lifecycle.load_turn, Lifecycle.bind, Lifecycle.on_store.
  destruct (Lifecycle.store_get i (Lifecycle.store l)) as [s' [o|e]]; [|discriminate].
  cbn in Hv, Ho. specialize (Ho o eq_refl). unfold rows in *. rewrite Hrow in Ho. subst o.
  eexists _, t, row. unfold Lifecycle.lift. rewrite Hf. by split_and!.
Qed.
Lemma stage_read l i row t : rows l !! i = Some row -> Turn.from_row row = Ok t ->
  Lifecycle.stored_stage (rows l) i = Lifecycle.stage_of (Turn.kind (Turn.status t)).
Proof. intros Hr Hf. unfold Lifecycle.stored_stage. by rewrite Hr, Hf. Qed.
Lemma terminal_over l i row t : rows l !! i = Some row -> Turn.from_row row = Ok t ->
  Turn.is_terminal t = true -> over l i.
Proof.
  intros Hr Hf Ht. unfold over. rewrite (stage_read l i row t Hr Hf). unfold Turn.is_terminal in Ht.
  by destruct (Turn.kind (Turn.status t)).
Qed.

Lemma publish_accepted t phase l : is_Ok (Turn.serialize_turn t) = true ->
  Lifecycle.stored_stage (rows (Lifecycle.persist_and_publish t phase l).1) (Turn.id t) =
  Lifecycle.stage_of (Turn.kind (Turn.status t)).
Proof.
  intros Hs. destruct (Lifecycle.persist_and_publish t phase l) as [l' [[]|e]] eqn:Hp.
  - apply Lifecycle.publish_spec in Hp as (row & Hrow & Hv & _). cbn. unfold rows. rewrite Hv.
    rewrite (Lifecycle.stored_stage_insert _ _ _ _ Hrow). by rewrite decide_True.
  - exfalso. revert Hp. unfold Lifecycle.persist_and_publish, Lifecycle.persist, Lifecycle.bind, Lifecycle.lift,
      Lifecycle.on_store, Turn.to_row.
    destruct (Turn.serialize_turn t) as [d|]; [|discriminate].
    match goal with |- context [Lifecycle.store_save ?row ?s] => specialize (Hwrites row s);
      destruct (Lifecycle.store_save row s) as [s' [[]|e']] end; discriminate.
Qed.

(** A turn that can be failed or cancelled is; one that cannot is over. *)
Lemma edge_ends target reason at_ phase s0 l i :
  (target = Turn.Cancelled Turn.ParentCancelled [] \/ exists m, target = Turn.Failed m) ->
  Lifecycle.log_inv s0 l -> i ∈ dom (rows l) ->
  over (Lifecycle.bind (Lifecycle.apply i (Turn.transition_at target None reason at_))
          (fun t => Lifecycle.persist_and_publish t phase) l).1 i.
Proof.
  intros Htarget Hinv Hi. destruct (load_accepted s0 l i Hinv Hi) as (l1 & t & row & Hl & Hv & Hr & Hf & Ht & Hid).
  unfold Lifecycle.bind at 1, Lifecycle.apply. unfold Lifecycle.bind at 1. rewrite Hl.
  destruct (Turn.transition_at target None reason at_ t) as [t' [tr|e]] eqn:Htr.
  - cbn. assert (Turn.id t' = i) as <- by (apply Turn.transition_ok in Htr; naive_solver).
    unfold over. rewrite publish_accepted.
    + apply Turn.transition_ok in Htr as (_ & -> & _). destruct Htarget as [->|[m ->]]; done.
    + assert (Hs : is_Ok (Turn.serialize_turn t) = true)
        by (unfold Turn.to_row in Ht; by destruct (Turn.serialize_turn t)).
      revert Htr. unfold Turn.transition_at. destruct (negb _); [discriminate|].
      destruct Htarget as [->|[m ->]]; intros [= <- _]; by apply Hcodec.
  - cbn. assert (Turn.is_terminal t = true).
    { revert Htr. unfold Turn.transition_at, Turn.is_terminal.
      destruct Htarget as [->|[m ->]]; by destruct (Turn.status t). }
    apply (terminal_over _ _ row t); by rewrite ?Hv.
Qed.
Lemma fail_ends now i m s0 l : Lifecycle.log_inv s0 l -> i ∈ dom (rows l) ->
  over (Lifecycle.lc_fail now i m l).1 i.
Proof. apply edge_ends. eauto. Qed.
Lemma cancel_ends now i s0 l : Lifecycle.log_inv s0 l -> i ∈ dom (rows l) ->
  over (Lifecycle.lc_cancel now i Turn.ParentCancelled [] l).1 i.
Proof.
  intros Hinv Hi. unfold Lifecycle.lc_cancel. unfold Lifecycle.bind at 1.
  assert (exists b l0, Lifecycle.registry_cancel i l = (l0, Ok b) /\ rows l0 = rows l /\
            Lifecycle.events l0 = Lifecycle.events l) as (b & l0 & -> & Hv0 & He0).
  { unfold Lifecycle.registry_cancel. destruct (Lifecycle.tokens l !! i); eauto. }
  assert (Hinv0 : Lifecycle.log_inv s0 l0) by (by apply (Lifecycle.log_inv_same s0 l)).
  rewrite <- Hv0 in Hi. destruct (load_accepted s0 l0 i Hinv0 Hi) as (l1 & t & row & Hl & Hv & Hr & Hf & _ & _).
  destruct (Lifecycle.load_turn_spec i l0 l1 _ (proj1 Hinv0) Hl) as [Hsame _].
  unfold Lifecycle.bind at 1. rewrite Hl. destruct (Turn.is_terminal t) eqn:Ht.
  - apply (terminal_over _ _ row t); cbn; by rewrite ?Hv.
  - apply (edge_ends _ _ _ _ s0); [by left | by apply (Lifecycle.log_inv_same s0 l0) | by rewrite Hv].
Qed.
End Accepting.

(** *** [with_turn] *)

Section WithTurn.
Context {W B X T : Type} {A : Ambient W}.
Context (turn_error_text : Turn.TurnError -> string).
Implicit Types r : Runtime W S B X.

(** The code only works on turns through the calls of the orchestrator. *)
Definition calls {U} (m : RM (W := W) (S := S) (B := B) (X := X) U) : Prop :=
  forall r, rtc Lifecycle.step (turns r) (turns (m r).1).

Definition settled (token : N) (i : TurnId) (body : TurnId -> RM (W := W) (S := S) (B := B) (X := X) (Turn.TurnOutput * T))
    (res : result T Error) (r : Runtime W S B X) : Prop :=
  match res with
  | Ok v => exists row t output r1 r2,
      rows (turns r) !! i = Some row /\ Turn.from_row row = Ok t /\
      Turn.status t = Turn.Completed /\ Turn.final_result t = Some output /\
      body i r1 = (r2, Ok (output, v)) /\ is_cancelled token r2 = false /\ inside r = inside r2
  | Err _ => over (turns r) i
  end.

Lemma rtc_log_inv s0 l l' : Lifecycle.log_inv s0 l -> rtc Lifecycle.step l l' -> Lifecycle.log_inv s0 l'.
Proof. intros H Hr. induction Hr; eauto using Lifecycle.step_log_inv. Qed.
Lemma rtc_grows l l' : rtc Lifecycle.step l l' -> dom (rows l) ⊆ dom (rows l').
Proof. induction 1 as [|l l1 l2 H _ IH]; [done|]. etrans; [by apply step_grows | exact IH]. Qed.
Lemma step_call s0 l c i : Lifecycle.log_inv s0 l -> i ∈ dom (rows l) -> Lifecycle.fresh_ok l c ->
  Lifecycle.log_inv s0 (Lifecycle.run_call c l) /\ i ∈ dom (rows (Lifecycle.run_call c l)).
Proof.
  intros Hinv Hi Hc. assert (Hs : Lifecycle.step l (Lifecycle.run_call c l)) by done.
  split; [by apply (Lifecycle.step_log_inv s0 l) | by apply (step_grows l)].
Qed.
Lemma complete_row now i output s0 l l' : Lifecycle.log_inv s0 l ->
  Lifecycle.lc_complete now i output l = (l', Ok tt) -> exists row t,
  rows l' !! i = Some row /\ Turn.from_row row = Ok t /\ Turn.status t = Turn.Completed /\
  Turn.final_result t = Some output.
Proof.
  intros [Hok _]. unfold Lifecycle.lc_complete, Lifecycle.bind.
  destruct (Lifecycle.apply i _ l) as [l1 [t|e]] eqn:Ha; [|discriminate]. intros Hp.
  destruct (Lifecycle.apply_spec _ _ _ _ _ Hok Ha) as [_ H].
  destruct (H t eq_refl) as (_ & t0 & tr & _ & _ & Hid & Htr). clear H.
  apply Lifecycle.publish_spec in Hp as (row & Hrow & Hv & _). exists row, t. unfold rows. rewrite Hv.
  assert (Turn.id t = i) as -> by (apply Turn.transition_ok in Htr as (_ & _ & Hid' & _); congruence).
  rewrite lookup_insert_eq. split_and!; [done | | by apply Turn.transition_ok in Htr as (_ & -> & _) |].
  - unfold Turn.to_row in Hrow. destruct (Turn.serialize_turn t) eqn:Hd; [|discriminate].
    injection Hrow as <-. unfold Turn.from_row. cbn. by rewrite (Turn.deserialize_serialize _ _ Hd).
  - revert Htr. unfold Turn.complete, Turn.transition_at. by destruct (negb _); [|intros [= <- _]].
Qed.

Context (Hreads : forall i s, is_Ok (Lifecycle.store_get i s).2 = true).
Context (Hwrites : forall row s, is_Ok (Lifecycle.store_save row s).2 = true).
Context (Hcodec : forall t st e, is_Ok (Turn.serialize_turn t) = true ->
  is_Ok (Turn.serialize_turn (Turn.set_status st (Turn.set_ended_at e t))) = true).

(** Reads a result off a run of an orchestrator call. *)
Lemma cancel_row_ends s0 i r : Lifecycle.log_inv s0 (turns r) -> i ∈ dom (rows (turns r)) ->
  over (turns (cancel_row i r).1) i.
Proof.
  intros Hinv Hi. unfold cancel_row, bind, ask, draw, attempt, on_turns, ret.
  destruct (clock (outside r)) as [w now]. cbn.
  pose proof (cancel_ends Hreads Hwrites Hcodec now i s0 (turns r) Hinv Hi) as H.
  by destruct (Lifecycle.lc_cancel now i Turn.ParentCancelled [] (turns r)).
Qed.
Lemma settle_turn_settles token i body s0 r0 r (res : result (Turn.TurnOutput * T) Error) :
  Lifecycle.log_inv s0 (turns r) -> i ∈ dom (rows (turns r)) -> body i r0 = (r, res) ->
  let '(r', res') := settle_turn turn_error_text i (settlement res (is_cancelled token r)) r in
  settled token i body res' r'.
Proof.
  intros Hinv Hi Hbody.
  assert (Hcancel : forall e, let '(r', res') := (let* _ := cancel_row i in throw (A := T) e) r in
                              settled token i body res' r').
  { intros e. pose proof (cancel_row_ends s0 i r Hinv Hi) as H. unfold bind, throw.
    assert (exists r', cancel_row i r = (r', Ok tt)) as [r' E].
    { unfold cancel_row, bind, ask, draw, attempt, ret. destruct (clock _). cbn.
      destruct (on_turns _ _). eauto. }
    by rewrite E in *. }
  destruct (is_cancelled token r) eqn:Hc; [by destruct res as [[]|]; apply Hcancel|].
  destruct res as [[output v]|e]; cbn; unfold bind, ask, draw, attempt, on_turns, ret, throw;
    destruct (clock (outside r)) as [w now]; cbn.
  - pose proof (step_call s0 (turns r) (Lifecycle.CallComplete now i output) i Hinv Hi I) as [Hinv' Hi'].
    cbn in Hinv', Hi'.
    destruct (Lifecycle.lc_complete now i output (turns r)) as [l' [[]|e]] eqn:Hl; cbn in *.
    + destruct (complete_row _ _ _ _ _ _ Hinv Hl) as (row & t & ? & ? & ? & ?). by exists row, t, output, r0, r.
    + set (r1 := set_turns l' _). pose proof (cancel_row_ends s0 i r1 Hinv' Hi') as H.
      by destruct (cancel_row i r1) as [r2 [[]|]].
  - pose proof (fail_ends Hreads Hwrites Hcodec now i (error_text turn_error_text e) s0 (turns r) Hinv Hi) as H.
    by destruct (Lifecycle.lc_fail now i (error_text turn_error_text e) (turns r)).
Qed.

Lemma run_turn_settles token i body s0 r : (forall i, calls (body i)) ->
  Lifecycle.log_inv s0 (turns r) -> i ∈ dom (rows (turns r)) ->
  let '(r', res) := run_turn turn_error_text token i body r in
  settled token i body res r'.
Proof.
  intros Hbody Hinv Hi. unfold run_turn, bind, ask, draw, attempt, on_turns, throw, gets.
  destruct (clock (outside r)) as [w now]. cbn.
  pose proof (step_call s0 (turns r) (Lifecycle.CallStart now i) i Hinv Hi I) as [Hinv1 Hi1]. cbn in Hinv1, Hi1.
  destruct (Lifecycle.lc_start now i (turns r)) as [l1 [[]|e]]; cbn in *.
  - set (r1 := set_turns l1 _). specialize (Hbody i r1). destruct (body i r1) as [r2 res] eqn:Hb. cbn in Hbody.
    apply (settle_turn_settles token i body s0 r1 r2 res); [by apply (rtc_log_inv s0 l1) | | done].
    by apply (rtc_grows l1).
  - destruct (clock w) as [w' now']. cbn.
    match goal with |- context [Lifecycle.lc_fail now' i ?m l1] =>
      pose proof (fail_ends Hreads Hwrites Hcodec now' i m s0 l1 Hinv1 Hi1) as H;
      by destruct (Lifecycle.lc_fail now' i m l1) end.
Qed.

Lemma start_turn_row fresh now ses o inp p l l' (res : result Turn.Turn Turn.TurnError) :
  Lifecycle.lc_start_turn fresh now ses o inp p l = (l', res) ->
  match res with
  | Ok t => Turn.id t = fresh /\ fresh ∈ dom (rows l')
  | Err _ => rows l' = rows l
  end.
Proof.
  unfold Lifecycle.lc_start_turn, Lifecycle.bind, Lifecycle.lift, Lifecycle.on_store, Turn.to_row.
  destruct (Turn.serialize_turn _) as [d|]; [|by intros [= <- <-]].
  match goal with |- context [Lifecycle.store_create ?row _] =>
    pose proof (Lifecycle.store_create_view row (Lifecycle.store l)) as Hv;
    destruct (Lifecycle.store_create row (Lifecycle.store l)) as [s' [[]|e]] end;
    intros [= <- <-]; unfold rows; cbn in *; rewrite Hv; [split; [done | set_solver] | done].
Qed.

Lemma calls_still {U} (m : RM (W := W) (S := S) (B := B) (X := X) U) :
  (forall r, turns (m r).1 = turns r) -> calls m.
Proof. intros H r. rewrite H. reflexivity. Qed.
Lemma calls_ask {U} (f : W -> W * U) : calls (ask f).
Proof. apply calls_still. intros r. unfold ask, draw. by destruct (f (outside r)). Qed.
Lemma calls_bind {U V} (m : RM U) (k : U -> RM V) : calls m -> (forall a, calls (k a)) -> calls (bind m k).
Proof.
  intros Hm Hk r. unfold bind. specialize (Hm r). destruct (m r) as [r1 [a|e]]; [|exact Hm].
  etrans; [exact Hm | apply Hk].
Qed.
Lemma calls_attempt {U} (m : RM U) : calls m -> calls (attempt m).
Proof. intros Hm r. specialize (Hm r). unfold attempt. by destruct (m r). Qed.
Lemma calls_on_turns {U} (m : Lifecycle.LM S U) (c : Lifecycle.call) :
  (forall l, (m l).1 = Lifecycle.run_call c l /\ Lifecycle.fresh_ok l c) -> calls (on_turns m).
Proof.
  intros Hm r. unfold on_turns. destruct (Hm (turns r)) as [E Hf].
  destruct (m (turns r)) as [l a]. cbn in *. subst l. by apply rtc_once.
Qed.
Lemma calls_cancel_row i : calls (cancel_row i).
Proof.
  apply calls_bind; [apply calls_ask | intros now].
  apply calls_bind; [|by intros; apply calls_still].
  by apply calls_attempt, (calls_on_turns _ (Lifecycle.CallCancel now i Turn.ParentCancelled [])).
Qed.
Lemma calls_settle_turn {U} i (s : TurnSettlement U) : calls (settle_turn turn_error_text i s).
Proof.
  destruct s as [output v|e|e]; cbn.
  - apply calls_bind; [apply calls_ask | intros now].
    apply calls_bind; [by apply calls_attempt, (calls_on_turns _ (Lifecycle.CallComplete now i output)) |].
    intros [|]; [by apply calls_still|]. apply calls_bind; [apply calls_cancel_row|]. by intros; apply calls_still.
  - apply calls_bind; [apply calls_cancel_row|]. by intros; apply calls_still.
  - apply calls_bind; [apply calls_ask | intros now].
    apply calls_bind; [|by intros; apply calls_still].
    by eapply calls_attempt, (calls_on_turns _ (Lifecycle.CallFail now i _)).
Qed.
Lemma calls_run_turn token i (body : TurnId -> RM (Turn.TurnOutput * T)) :
  (forall i, calls (body i)) -> calls (run_turn turn_error_text token i body).
Proof.
  intros Hbody. apply calls_bind; [apply calls_ask | intros now].
  apply calls_bind; [by apply calls_attempt, (calls_on_turns _ (Lifecycle.CallStart now i)) |].
  intros [_|e].
  - apply calls_bind; [apply calls_attempt, Hbody | intros res].
    apply calls_bind; [by apply calls_still | intros c]. apply calls_settle_turn.
  - apply calls_bind; [apply calls_ask | intros now'].
    apply calls_bind; [|by intros; apply calls_still].
    by eapply calls_attempt, (calls_on_turns _ (Lifecycle.CallFail now' i _)).
Qed.
Lemma settled_over token i body (res : result T Error) r : settled token i body res r -> over (turns r) i.
Proof.
  destruct res as [v|e]; [|done]. intros (row & t & _ & _ & _ & Hr & Hf & Ht & _).
  unfold over. by rewrite (stage_read (turns r) i row t Hr Hf), Ht.
Qed.

(** [with_turn] creates a turn under a fresh id, registers its token, runs an
    arbitrary body that works on turns only through the orchestrator, and settles
    the row: completed with the body's output when it returns the body's value,
    terminal (or never created) when it returns an error.  The store is taken to
    answer and the codec to write a turn it has written before with another
    status. *)
Lemma turn_row_settled token spec body s0 r r' (res : result T Error)
    (Hinv : Lifecycle.log_inv s0 (turns r))
    (Hfresh : rows (turns r) !! (fresh_turn (outside r)).2 = None)
    (Hbody : forall i, calls (body i))
    (Hrun : with_turn turn_error_text token spec body r = (r', res)) :
  let i := (fresh_turn (outside r)).2 in
  (is_Ok res = false /\ rows (turns r') !! i = None) \/
  (settled token i body res r' /\ Lifecycle.tokens (turns r') !! i = None /\
   Lifecycle.replay (s0 i) (Lifecycle.phases i (Lifecycle.events (turns r'))) = Some Lifecycle.Over).
Proof.
  cbv zeta. revert Hrun. unfold with_turn, bind, ask, draw. destruct (fresh_turn (outside r)) as [w i].
  cbn [snd fst] in *.
  destruct (clock _) as [w' now]. unfold on_turns at 1.
  cbn [turns set_outside set_turns outside trace inside].
  match goal with |- context [Lifecycle.lc_start_turn i now ?a ?b ?c ?d ?l] =>
    destruct (Lifecycle.lc_start_turn i now a b c d l) as [l1 [t|e]] eqn:Hs end;
    pose proof (start_turn_row _ _ _ _ _ _ _ _ _ Hs) as Hrow; [|intros [= <- <-]; left].
  2:{ split; [done|]. cbn. by rewrite Hrow. }
  destruct Hrow as [Hid Hi1]. rewrite Hid. clear Hid.
  assert (Hinv1 : Lifecycle.log_inv s0 l1).
  { apply (f_equal fst) in Hs. cbn in Hs. rewrite <- Hs.
    by apply (Lifecycle.step_log_inv s0 (turns r) _ Hinv (Lifecycle.step_call _ (Lifecycle.CallStartTurn i now _ _ _ _) Hfresh)). }
  cbn. set (r1 := set_turns _ _).
  assert (Lifecycle.log_inv s0 (turns r1) /\ i ∈ dom (rows (turns r1))) as [Hinv2 Hi2]
    by apply (step_call s0 l1 (Lifecycle.CallRegister i token) i Hinv1 Hi1 I).
  pose proof (run_turn_settles token i body s0 r1 Hbody Hinv2 Hi2) as Hset.
  pose proof (rtc_log_inv s0 _ _ Hinv2 (calls_run_turn token i body Hbody r1)) as Hinv3.
  unfold attempt. destruct (run_turn turn_error_text token i body r1) as [r2 res']. cbn in Hinv3 |- *.
  intros [= <- <-]. right. cbn. split_and!; [exact Hset | apply lookup_delete_eq |].
  destruct Hinv3 as [_ Hlog]. rewrite Hlog. f_equal. exact (settled_over _ _ _ _ _ Hset).
Qed.
End WithTurn.
End Settling.

(** ** A concrete codec and clock *)

Module Sample.
Import Lifecycle.Sample.

(** A codec for content-free turns in any status. *)
Definition reason_code (r : Turn.CancelReason) : N :=
  match r with
  | Turn.UserPreempt => 0 | Turn.SystemCrash => 1 | Turn.SubagentTimeout => 2 | Turn.ParentCancelled => 3
  | Turn.ParentDeleted => 4 | Turn.OperatorCancel => 5 | Turn.BudgetExhausted => 6 | Turn.UserStopped => 7
  end%N.
Definition reason_of (n : N) : Turn.CancelReason :=
  match n with
  | 0 => Turn.UserPreempt | 1 => Turn.SystemCrash | 2 => Turn.SubagentTimeout | 3 => Turn.ParentCancelled
  | 4 => Turn.ParentDeleted | 5 => Turn.OperatorCancel | 6 => Turn.BudgetExhausted | _ => Turn.UserStopped
  end%N.
Definition status_code (s : Turn.TurnStatus) : N * N * string * list N :=
  match s with
  | Turn.Pending => (0, 0, "", [])
  | Turn.InProgress => (1, 0, "", [])
  | Turn.Stuck m => (2, 0, m, [])
  | Turn.Cancelled r l => (3, reason_code r, "", l)
  | Turn.Failed m => (4, 0, m, [])
  | Turn.Completed => (5, 0, "", [])
  end%N%string.
Definition status_of (x : N * N * string * list N) : Turn.TurnStatus :=
  let '(k, r, m, l) := x in
  match k with
  | 0 => Turn.Pending | 1 => Turn.InProgress | 2 => Turn.Stuck m | 3 => Turn.Cancelled (reason_of r) l
  | 4 => Turn.Failed m | _ => Turn.Completed
  end%N.
Lemma status_of_code s : status_of (status_code s) = s.
Proof. by destruct s as [| | |[] | |]. Qed.

(** What of a turn it writes: a typed input or none, a text reply, nothing to
    say, or no result yet. *)
Definition plain : Type :=
  N * string * option string * (N * N * string * list N) * option (option (string * option Z)) * Z * option Z * option Z.
Definition input_of (i : Turn.TurnInput) : option (option string) :=
  match i with Turn.Compact => Some None | Turn.UserChat [Text s] => Some (Some s) | _ => None end.
Definition of_input (i : option string) : Turn.TurnInput :=
  match i with None => Turn.Compact | Some s => Turn.UserChat [Text s] end.
Definition output_of (o : option Turn.TurnOutput) : option (option (option (string * option Z))) :=
  match o with
  | None => Some None
  | Some (Turn.Structured JNull) => Some (Some None)
  | Some (Turn.OutMessage [Text s] n) => Some (Some (Some (s, n)))
  | _ => None
  end.
Definition of_output (o : option (option (string * option Z))) : option Turn.TurnOutput :=
  match o with
  | None => None
  | Some None => Some (Turn.Structured JNull)
  | Some (Some (s, n)) => Some (Turn.OutMessage [Text s] n)
  end.
Lemma of_input_of i x : input_of i = Some x -> of_input x = i.
Proof. destruct i as [[|[] [|]]| | | | | |]; cbn; intros [= <-]; done. Qed.
Lemma of_output_of o x : output_of o = Some x -> of_output x = o.
Proof. destruct o as [[[|[] [|]]|[]]|]; cbn; intros [= <-]; done. Qed.
Definition plain_of (t : Turn.Turn) : option plain :=
  match t with
  | Turn.mk_turn i s None Turn.TriggerUser inp st fr [] ca sa ea =>
      match input_of inp, output_of fr with
      | Some inp, Some fr => Some (i, s, inp, status_code st, fr, ca, sa, ea)
      | _, _ => None
      end
  | _ => None
  end.
Definition of_plain (x : plain) : Turn.Turn :=
  let '(i, s, inp, st, fr, ca, sa, ea) := x in
  Turn.mk_turn i s None Turn.TriggerUser (of_input inp) (status_of st) (of_output fr) [] ca sa ea.
Lemma of_plain_any t x : plain_of t = Some x -> of_plain x = t.
Proof.
  destruct t as [? ? [] [] inp st fr [] ? ? ?]; cbn; try discriminate.
  destruct (input_of inp) eqn:Hi, (output_of fr) eqn:Ho; intros [= <-]; cbn.
  by rewrite status_of_code, (of_input_of _ _ Hi), (of_output_of _ _ Ho).
Qed.
Definition serialize (t : Turn.Turn) : result string string :=
  match plain_of t with Some x => Ok (pos_text (encode x)) | None => Err "unsupported"%string end.
Definition deserialize (s : string) : result Turn.Turn string :=
  match text_pos s ≫= decode with Some x => Ok (of_plain x) | None => Err "bad text"%string end.
#[export] Instance any_status : Turn.TurnCodec.
Proof.
  refine {| Turn.serialize_turn := serialize; Turn.deserialize_turn := deserialize |}.
  intros t s. unfold serialize, deserialize. destruct (plain_of t) as [x|] eqn:Hx; intros [= <-].
  rewrite text_pos_text. cbn. rewrite decode_encode. by rewrite (of_plain_any t x).
Defined.
Lemma any_status_writes t st e : is_Ok (Turn.serialize_turn t) = true ->
  is_Ok (Turn.serialize_turn (Turn.set_status st (Turn.set_ended_at e t))) = true.
Proof.
  destruct t as [? ? [] [] inp s0 fr [] ? ? ?]; try discriminate. cbn. unfold serialize. cbn.
  by destruct (input_of inp), (output_of fr).
Qed.

(** The world is a counter: it dates and names. *)
#[export] Instance counter : Ambient N := {
  parent_tripped _ := false;
  clock n := (n + 1, Z.of_N n)%N;
  fresh_turn n := (n + 1, n)%N;
  recorder n := (n, Ok tt);
}.
End Sample.
End Scope.
