(* ===== verification/ToolExecutor.v ===== *)
(** * The tool executor ([crates/agent/src/runtime/tool_executor.rs],
      [crates/tools/src/lib.rs], [approval.rs])

    One tool call: the doors it passes before it runs (trust, channel, trigger
    scope, parameter validation, approval), the run itself with the prompts it
    may raise, and what is reported of it.  The tool is arbitrary code that works
    on the world and may ask for approval; calls of the same response run
    concurrently and share the session's grants. *)

From S2P Require Import Prelude Effect Message Turn Lifecycle Approval ApprovalQueue.
From S2P Require Import ProgressLedger Streaming Skill ToolRegistry ToolTrace InvokeParams Scope.
Import Message Effect.

Module ToolExecutor.

Import ProgressLedger(ToolOutput, OutText, OutJson, OutError).

(** ** Reasons *)

Definition refusal_reason (r : Approval.ApprovalResolution) : string :=
  match r with
  | Approval.Answered => "a human saw this prompt and said no"
  | Approval.TimedOut => "nobody answered this prompt before its window expired, so it denied itself — no human has seen it, and re-sending the same request will park for the same window and expire the same way"
  | Approval.Abandoned => "this prompt was torn down before anyone decided it — the turn was cancelled, or the process is shutting down"
  | Approval.Policy => "a standing policy denied this without asking anyone, because this session has no approval surface — every prompt here will be denied the same way"
  end.
Definition UNATTENDED_REASON : string :=
  "this execution runs unattended and cannot raise an approval prompt for the resources this call requires; run this operation from an interactive user session".
Definition trust_error_text (e : ToolRegistry.ToolManifestTrustError) : string :=
  match e with
  | ToolRegistry.Untrusted => "has Untrusted trust level and cannot be auto-executed"
  | ToolRegistry.InstalledWriteFile => "is Installed but declares WriteFile capability; requires Trusted level"
  | ToolRegistry.InstalledExecCommand => "is Installed but declares ExecCommand capability; requires Trusted level"
  end.

(** ** The caller, the tool's run, the world *)

Record Caller := mk_caller {
  c_session : SessionId;
  c_user : string;
  c_channel : string;
  c_trigger : ToolRegistry.TriggerSource;
  c_agent : string;
  inherited_context : bool;
  background_eligible : bool;
}.

Section Executor.
Context {W S B V : Type}.

(** What a tool does between its start and its answer.  A request goes through
    the approval handle of its context, consulting the session's grants or not. *)
Inductive ToolRun :=
| Done (r : result ToolOutput string)
| Request (cached : bool) (tool : string) (accesses : list Approval.ResourceAccess) (preview : string)
    (k : ApprovalQueue.ApprovalOutcome -> ToolRun)
| Report (action : string) (payload : ToolTrace.ToolEventPayload) (k : ToolRun)
| Work (act : W -> W) (k : W -> ToolRun).

Class Host := {
  (** a gate's answer to a prompt; [None] when the turn is cancelled first *)
  open_gate : N -> ApprovalQueue.ApprovalRequest -> W -> W * option ApprovalQueue.ApprovalOutcome;
  (** what calls running alongside were granted while this one waited *)
  siblings_granted : W -> W * list Approval.ApprovedResource;
  fresh_call_id : W -> W * string;
  (** whether the outer deadline passes before the run's next step, or before
      the answer to a prompt it is parked on *)
  deadline : W -> W * bool;
  reveal_in_value : json -> W -> W * result json string;
  sanitize_tool_output : ToolOutput -> W -> W * result ToolOutput string;
  sanitize_error : string -> W -> W * result string string;
  scrub_fragment : string -> W -> W * result string string;
  start_tool : ToolRegistry.Tool -> json -> Caller -> ToolRun;
  timeout_text : ToolRegistry.Tool -> string;
}.

(** A prompt that reached a gate: the gate, what it asked for, what it decided;
    [None] when the deadline dropped the tool while the prompt was parked. *)
Record Prompt := mk_prompt {
  p_gate : ApprovalQueue.Gate;
  p_accesses : list Approval.ResourceAccess;
  p_decision : option ApprovalDecision;
}.
(** [grants] is shared by the session's calls, [validators] by the process; the
    slot, the handle's last decision and the event sink are the call's own.
    [asked] and [ran] are history: every prompt raised, every tool started. *)
Record Exec := mk_exec {
  grants : list Approval.ApprovedResource;
  validators : gmap string V;
  slot : option ApprovalDecision;
  last_decision : option ApprovalDecision;
  sink : ToolTrace.SpanEventRecorder;
  asked : list Prompt;
  ran : list (string * json);
}.
Definition set_grants g e := mk_exec g (validators e) (slot e) (last_decision e) (sink e) (asked e) (ran e).
Definition set_validators v e := mk_exec (grants e) v (slot e) (last_decision e) (sink e) (asked e) (ran e).
Definition set_slot d e := mk_exec (grants e) (validators e) d (last_decision e) (sink e) (asked e) (ran e).
Definition set_last d e := mk_exec (grants e) (validators e) (slot e) d (sink e) (asked e) (ran e).
Definition set_sink s e := mk_exec (grants e) (validators e) (slot e) (last_decision e) s (asked e) (ran e).
Definition push_asked p e :=
  mk_exec (grants e) (validators e) (slot e) (last_decision e) (sink e) (asked e ++ [p]) (ran e).
Definition push_ran x e :=
  mk_exec (grants e) (validators e) (slot e) (last_decision e) (sink e) (asked e) (ran e ++ [x]).

Context {A : Scope.Ambient W} {St : Lifecycle.TurnStore S} {Cd : Turn.TurnCodec} {Ho : Host}.
Context {Sc : InvokeParams.JsonSchema V}.
Context (turn_error_text : Turn.TurnError -> string) (json_text : json -> string)
  (media_json : ContentBlock -> json).

Definition EM (T : Type) : Type := Scope.RM (W := W) (S := S) (B := B) (X := Exec) T.

Definition on_exec (f : Exec -> Exec) : EM unit := modify (fun r => Scope.set_inside (f (Scope.inside r)) r).
Definition exec {T} (f : Exec -> T) : EM T := gets (fun r => f (Scope.inside r)).

(** ** Grants and prompts *)

Definition is_read (a : Approval.ResourceAccess) : bool :=
  match a with Approval.ReadFile _ => true | _ => false end.
Definition covered_by (gs : list Approval.ApprovedResource) (a : Approval.ResourceAccess) : bool :=
  is_read a || existsb (fun g => Approval.covers g a) gs.
Definition uncovered (gs : list Approval.ApprovedResource) (l : list Approval.ResourceAccess)
    : list Approval.ResourceAccess := List.filter (fun a => negb (covered_by gs a)) l.

#[global] Instance HostPattern_eq_dec : EqDecision Approval.HostPattern.
Proof. solve_decision. Defined.
#[global] Instance ApprovedResource_eq_dec : EqDecision Approval.ApprovedResource.
Proof. solve_decision. Defined.
Definition push_grant (gs : list Approval.ApprovedResource) (a : Approval.ResourceAccess)
    : list Approval.ApprovedResource :=
  let entry := Approval.to_approved a in
  if bool_decide (entry ∈ gs) then gs else gs ++ [entry].
Definition approve_always (l : list Approval.ResourceAccess) (e : Exec) : Exec :=
  set_grants (foldl push_grant (grants e) l) e.

(** A prompt on its gate, to its end: the gate's answer, or the prompt abandoned;
    grants of sibling calls land while the call is parked.  [late] asks whether
    whoever waits is dropped first: the entry leaves the queue and no answer is
    read.  The gate that denies everything does not wait. *)
Definition park (late : EM bool) (g : ApprovalQueue.Gate) (req : ApprovalQueue.ApprovalRequest)
    : EM (option ApprovalQueue.ApprovalOutcome) :=
  let* outcome := match g with
                  | ApprovalQueue.AutoDenyGate => ret (Some (ApprovalQueue.policy Deny))
                  | ApprovalQueue.RegisteredGate n =>
                      let* answer := Scope.ask (open_gate n req) in
                      let* more := Scope.ask siblings_granted in
                      let* _ := on_exec (fun e => set_grants (grants e ++ more) e) in
                      let* dropped := late in
                      ret (if dropped then None else Some (default ApprovalQueue.abandoned answer))
                  end in
  let* _ := on_exec (push_asked (mk_prompt g (ApprovalQueue.accesses req)
                                   (ApprovalQueue.decision <$> outcome))) in
  ret outcome.
(** The prompt before the run, which no deadline is over. *)
Definition ask_gate (g : ApprovalQueue.Gate) (req : ApprovalQueue.ApprovalRequest)
    : EM ApprovalQueue.ApprovalOutcome :=
  let* outcome := park (ret false) g req in
  ret (default ApprovalQueue.abandoned outcome).

(** [ApprovalHandle::request] and [request_uncached], of a tool under its
    deadline: a request dropped while it is parked records no decision. *)
Definition handle_request (g : ApprovalQueue.Gate) (c : Caller) (id : string) (cached : bool) (tool : string)
    (accesses : list Approval.ResourceAccess) (preview : string) : EM (option ApprovalQueue.ApprovalOutcome) :=
  let* gs := exec grants in
  let wanted := if cached then uncovered gs accesses else accesses in
  match wanted, cached with
  | [], true => ret (Some (ApprovalQueue.policy Approve))
  | _, _ =>
      let* call := Scope.ask fresh_call_id in
      let* answer := park (Scope.ask deadline) g (ApprovalQueue.mk_request call (Some id) (c_session c) (c_user c) tool
                                                    wanted preview None) in
      match answer with
      | None => ret None
      | Some outcome =>
          let* _ := on_exec (set_last (Some (ApprovalQueue.decision outcome))) in
          let* _ := when (cached && bool_decide (ApprovalQueue.decision outcome = ApproveAlways))
                      (on_exec (approve_always wanted)) in
          ret (Some outcome)
      end
  end.

(** ** The doors before the span *)

Definition door (registration : option (ToolRegistry.Tool * option ToolRegistry.ToolManifest))
    (c : Caller) (tool_name : string) : result unit string :=
  match registration with
  | None => Ok tt
  | Some (t, m) =>
      result_bind
        (match m with
         | None => Ok tt
         | Some m =>
             match ToolRegistry.validate_auto_execution m with
             | Err e => Err ("security: tool '" +:+ tool_name +:+ "' " +:+ trust_error_text e)
             | Ok _ =>
                 if ToolRegistry.allows_channel (c_channel c) m then Ok tt
                 else Err ("security: tool '" +:+ tool_name +:+ "' is not available on channel '"
                           +:+ c_channel c +:+ "'")
             end
         end)
        (fun _ => if ToolRegistry.allows_trigger (ToolRegistry.trigger_scope t) (c_trigger c) then Ok tt
                  else Err ("security: tool '" +:+ tool_name +:+ "' is not available to this session"))
  end%string.

(** ** The span's body *)

Definition withheld_rejection (tool : string) : string :=
  ("ToolInvoke params for '" +:+ tool +:+ "' failed schema validation (details withheld: error sanitization failed). Fetch the schema via ToolSearch and retry.")%string.
Definition validate_invoke_params (t : ToolRegistry.Tool) (params : json) : EM (option string) :=
  let* revealed := Scope.ask (reveal_in_value params) in
  match revealed with
  | Err _ => ret None
  | Ok revealed =>
      let* cache := exec validators in
      let (cache, verdict) := InvokeParams.validate json_text t revealed cache in
      let* _ := on_exec (set_validators cache) in
      match verdict with
      | Ok _ => ret None
      | Err rejection =>
          let secrets := InvokeParams.revealed_secret_values params revealed "" in
          let msg := InvokeParams.compose_invoke_rejection (ToolRegistry.tool_name t) rejection secrets in
          let* safe := Scope.ask (sanitize_error msg) in
          ret (Some match safe with Ok m => m | Err _ => withheld_rejection (ToolRegistry.tool_name t) end)
      end
  end.

Definition note_decision (d : ApprovalDecision) (l : list Approval.ResourceAccess) : EM unit :=
  each (fun a => Scope.note (Scope.Decided d a)) l.
Definition cancelled_while_parked (tool_name : string) : string :=
  ("tool '" +:+ tool_name +:+ "' cancelled while awaiting approval")%string.
Definition authorize (gates : ApprovalQueue.ApprovalGateMap) (c : Caller) (tool_name : string)
    (accesses : list Approval.ResourceAccess) (label : option string) (params : json) (id : string)
    (token : N) : EM unit :=
  let* gs := exec grants in
  match uncovered gs accesses with
  | [] => ret tt
  | wanted =>
      if inherited_context c then
        let* _ := on_exec (set_slot (Some Deny)) in
        let* _ := note_decision Deny wanted in
        throw (Scope.Denied tool_name UNATTENDED_REASON)
      else
        let gate := ApprovalQueue.get_gate (c_channel c) (c_session c) gates in
        let* call := Scope.ask fresh_call_id in
        let* outcome := ask_gate gate
            (ApprovalQueue.mk_request call (Some id) (c_session c) (c_user c) tool_name wanted
               (ToolTrace.preview_params json_text params ToolTrace.APPROVAL_PARAMS_PREVIEW_LEN) label) in
        let d := ApprovalQueue.decision outcome in
        let* _ := on_exec (set_slot (Some d)) in
        let* _ := note_decision d wanted in
        let* _ := match d with
                  | Approve => ret tt
                  | ApproveAlways => on_exec (approve_always wanted)
                  | Deny => throw (Scope.Denied tool_name (refusal_reason (ApprovalQueue.resolution outcome)))
                  end in
        let* stopped := gets (Scope.is_cancelled token) in
        if stopped then throw (Scope.Anyhow (cancelled_while_parked tool_name)) else ret tt
  end.

(** The run, under its deadline; [None] when it passes, between two steps or
    while a prompt of the tool is parked. *)
Fixpoint run_tool (g : ApprovalQueue.Gate) (c : Caller) (id : string) (p : ToolRun)
    : EM (option (result ToolOutput string)) :=
  match p with
  | Done a => ret (Some a)
  | Report action payload k =>
      let* _ := on_exec (fun e => set_sink (ToolTrace.emit (sink e) (action, payload)) e) in
      run_tool g c id k
  | Request cached tool accesses preview k =>
      let* late := Scope.ask deadline in
      if late : bool then ret None
      else
        let* answer := handle_request g c id cached tool accesses preview in
        match answer with Some outcome => run_tool g c id (k outcome) | None => ret None end
  | Work act k =>
      let* late := Scope.ask deadline in
      if late : bool then ret None
      else
        let* more := Scope.ask siblings_granted in
        let* _ := on_exec (fun e => set_grants (grants e ++ more) e) in
        let* w := Scope.ask (fun w => (act w, act w)) in
        run_tool g c id (k w)
  end.

Definition scrub (s : string) : EM string :=
  let* r := Scope.ask (scrub_fragment s) in
  ret match r with Ok s' => s' | Err _ => s end.
Definition sanitize_tool_event_payload (p : ToolTrace.ToolEventPayload) : EM ToolTrace.ToolEventPayload :=
  match p with
  | ToolTrace.Phase d => ret (ToolTrace.Phase d)
  | ToolTrace.HttpFetch s n ct None => ret (ToolTrace.HttpFetch s n ct None)
  | ToolTrace.HttpFetch s n ct (Some body) => let* b := scrub body in ret (ToolTrace.HttpFetch s n ct (Some b))
  | ToolTrace.LlmCall model input output =>
      let* i := scrub input in
      let* o := scrub output in
      ret (ToolTrace.LlmCall model i o)
  | ToolTrace.ParseFailure command => let* x := scrub command in ret (ToolTrace.ParseFailure x)
  end.
Definition flush_events : EM unit :=
  let* events := exec (fun e => (ToolTrace.drain (sink e)).2) in
  let* _ := on_exec (fun e => set_sink (ToolTrace.drain (sink e)).1 e) in
  each (fun e : string * ToolTrace.ToolEventPayload =>
    let* p := sanitize_tool_event_payload e.2 in
    Scope.note (Scope.ToolEvent e.1 p)) events.

Definition outcome_of (output : ToolOutput) : Scope.LifecycleOutcome :=
  match output with
  | OutError s =>
      let trimmed := Str.trim s in
      Scope.OutcomeFailed (if String.eqb trimmed "" then "tool returned empty error output"
                           else ToolTrace.truncate_for_reason trimmed ToolTrace.FAILURE_REASON_MAX_BYTES)
  | _ => Scope.OutcomeOk
  end%string.
Definition settle_call (tool_name : string) (t : option ToolRegistry.Tool) (id : string)
    (answer : option (result ToolOutput string)) : EM (Scope.SpanFinalize * Scope.LifecycleOutcome * ToolOutput) :=
  match answer with
  | Some (Ok output) =>
      let* safe := Scope.ask (sanitize_tool_output output) in
      match safe with
      | Err e => throw (Scope.Anyhow ("sanitize_tool_output: " +:+ e))
      | Ok output =>
          ret (match ToolTrace.call_result json_text media_json id output with
               | Some r => Scope.FinalToolCall r
               | None => Scope.FinalEmpty
               end, outcome_of output, output)
      end
  | Some (Err raw) =>
      let* safe := Scope.ask (sanitize_error raw) in
      throw (Scope.Anyhow match safe with Ok m => m | Err _ => raw end)
  | None =>
      throw (Scope.Anyhow ("tool '" +:+ tool_name +:+ "' exceeded timeout ("
        +:+ match t with Some t => timeout_text t | None => "30s" end +:+ ")"))
  end%string.

Definition tool_run (t : option ToolRegistry.Tool) (tool_name : string) (params : json) (c : Caller) : ToolRun :=
  match t with
  | Some t => start_tool t params c
  | None => Done (Err ("tool not found: tool not found: " +:+ tool_name)%string)
  end.
Definition call_body (gates : ApprovalQueue.ApprovalGateMap) (t : option ToolRegistry.Tool) (c : Caller)
    (tool_name : string) (params : json) (id : string) (token : N) (via_invoke : bool)
    : EM (Scope.SpanFinalize * Scope.LifecycleOutcome * ToolOutput) :=
  let* rejected := match t with
                   | Some t => if via_invoke then validate_invoke_params t params else ret None
                   | None => ret None
                   end in
  match rejected with
  | Some msg => throw (Scope.InvalidParams msg)
  | None =>
      let* _ := authorize gates c tool_name (from_option (fun t => ToolRegistry.accessed_resources t params) [] t)
                  (t ≫= fun t => ToolRegistry.call_label t params) params id token in
      let gate := if inherited_context c then ApprovalQueue.AutoDenyGate
                  else ApprovalQueue.get_gate (c_channel c) (c_session c) gates in
      let* _ := on_exec (fun e => set_last None (set_sink ToolTrace.new_recorder e)) in
      let* revealed := Scope.ask (reveal_in_value params) in
      match revealed with
      | Err e => throw (Scope.Anyhow ("reveal_in_value: " +:+ e)%string)
      | Ok revealed =>
          let* _ := when (is_some t) (on_exec (push_ran (tool_name, params))) in
          let* answer := run_tool gate c id (tool_run t tool_name revealed c) in
          let* last := exec last_decision in
          let* _ := when (is_some last) (on_exec (set_slot last)) in
          let* _ := flush_events in
          settle_call tool_name t id answer
      end
  end.

Record ExecutedTool := mk_executed {
  executed_output : result ToolOutput Scope.Error;
  executed_approval : option ApprovalDecision;
}.
Definition execute (registry : ToolRegistry.ToolRegistry) (gates : ApprovalQueue.ApprovalGateMap) (c : Caller)
    (tool_name : string) (params : json) (id : string) (token : N) (via_invoke : bool) : EM ExecutedTool :=
  let registration := ToolRegistry.get_with_manifest tool_name registry in
  match door registration c tool_name with
  | Err e => ret (mk_executed (Err (Scope.Anyhow e)) None)
  | Ok _ =>
      let* _ := on_exec (set_slot None) in
      let* output := attempt (Scope.with_span turn_error_text (Scope.ToolCall tool_name id params) (Some token)
          (call_body gates (fst <$> registration) c tool_name params id token via_invoke)) in
      let* approval := exec slot in
      ret (mk_executed output approval)
  end.

(** ** What a run leaves in the history *)

Abbreviation RT := (Scope.Runtime W S B Exec).
Implicit Types r : RT.

Definition history (e : Exec) : list Prompt * list (string * json) * option ApprovalDecision * option ApprovalDecision :=
  (asked e, ran e, slot e, last_decision e).
Definition at_history h r : Prop := history (Scope.inside r) = h.
Definition with_grants gs h r : Prop :=
  grants (Scope.inside r) = gs /\ at_history h r.

(** Only a change of the call's own state can break what is said of it. *)
Lemma keeps_ask_inside {T} (Q : Exec -> Prop) (f : W -> W * T) :
  keeps (fun r => Q (Scope.inside r)) (Scope.ask f : EM T).
Proof. apply keeps_draw. intros r. by destruct (f (Scope.outside r)). Qed.
Lemma keeps_on_exec_inside (Q : Exec -> Prop) f : (forall e, Q e -> Q (f e)) ->
  keeps (fun r => Q (Scope.inside r)) (on_exec f).
Proof. intros Hf. apply keeps_modify. intros r. apply Hf. Qed.
Lemma keeps_ask {T} h (f : W -> W * T) : keeps (at_history h) (Scope.ask f : EM T).
Proof. apply (keeps_ask_inside (fun e => history e = h)). Qed.
Lemma keeps_note h e : keeps (at_history h) (Scope.note e : EM unit).
Proof. by apply keeps_modify. Qed.
Lemma keeps_on_exec h f : (forall e, history (f e) = history e) -> keeps (at_history h) (on_exec f).
Proof. intros Hf. apply (keeps_on_exec_inside (fun e => history e = h)). intros e. by rewrite Hf. Qed.
Lemma keeps_exec {T} h (f : Exec -> T) : keeps (at_history h) (exec f).
Proof. apply keeps_gets. Qed.
Ltac quiet := repeat first
  [ apply keeps_ask | apply keeps_note | apply keeps_exec | by apply keeps_on_exec | keeps_step
  | progress case_match | progress cbn beta ].

(** Checking the parameters only touches the validator cache. *)
Lemma keeps_validate gs h t params : keeps (with_grants gs h) (validate_invoke_params t params).
Proof.
  unfold validate_invoke_params. repeat first [keeps_step | progress case_match | apply keeps_gets].
  all: first [ apply (keeps_ask_inside (fun e => grants e = gs /\ history e = h))
             | by apply (keeps_on_exec_inside (fun e => grants e = gs /\ history e = h)) ].
Qed.
Lemma keeps_note_decision h d l : keeps (at_history h) (note_decision d l).
Proof. unfold note_decision. quiet. Qed.
Lemma keeps_flush h : keeps (at_history h) flush_events.
Proof. unfold flush_events, sanitize_tool_event_payload, scrub. quiet. Qed.
Lemma keeps_settle h tool_name t id answer : keeps (at_history h) (settle_call tool_name t id answer).
Proof. unfold settle_call. quiet. Qed.
Lemma span_inside {T} o cancel (body : EM (Scope.SpanFinalize * Scope.LifecycleOutcome * T)) r :
  (Scope.inside (Scope.with_span turn_error_text o cancel body r).1 = Scope.inside r) \/
  exists r0 r1 res, Scope.inside r0 = Scope.inside r /\ body r0 = (r1, res) /\
    Scope.inside (Scope.with_span turn_error_text o cancel body r).1 = Scope.inside r1 /\
    is_Ok (Scope.with_span turn_error_text o cancel body r).2 = is_Ok res.
Proof.
  unfold Scope.with_span, Scope.begin, Scope.ask, Scope.note, bind, draw, modify, throw, attempt, gets, ret.
  destruct (Scope.recorder (Scope.outside r)) as [w [[]|e]]; cbn; [right | by left].
  set (r0 := Scope.set_trace _ _). exists r0.
  destruct (body r0) as [r1 [[[f out] v]|e]]; eexists r1, _; by split_and!.
Qed.

(** [ps] are the prompts a stretch of the call raised through the gate [g]. *)
(** The last decision among the prompts, and whether each got one. *)
Definition last_verdict (ps : list Prompt) : option ApprovalDecision := last (omap p_decision ps).
Definition decided (p : Prompt) : Prop := p_decision p <> None.
Lemma last_verdict_app ps qs :
  last_verdict (ps ++ qs) = match last_verdict qs with Some d => Some d | None => last_verdict ps end.
Proof. unfold last_verdict. rewrite omap_app, last_app. by destruct (last (omap _ qs)). Qed.
Definition asks (g : ApprovalQueue.Gate) r r' (ps : list Prompt) : Prop :=
  Forall (fun p => p_gate p = g) ps /\
  history (Scope.inside r') =
    (asked (Scope.inside r) ++ ps, ran (Scope.inside r), slot (Scope.inside r),
     match last_verdict ps with Some d => Some d | None => last_decision (Scope.inside r) end).

Lemma asks_none g r r' : history (Scope.inside r') = history (Scope.inside r) -> asks g r r' [].
Proof. intros E. split; [constructor|]. by rewrite E, app_nil_r. Qed.
Lemma asks_trans g r1 r2 r3 ps qs : asks g r1 r2 ps -> asks g r2 r3 qs -> asks g r1 r3 (ps ++ qs).
Proof.
  intros [F1 E1] [F2 E2]. split; [by apply Forall_app|]. rewrite E2.
  unfold history in E1. injection E1 as -> -> -> ->. rewrite <- (assoc_L (++)), last_verdict_app.
  by destruct (last_verdict qs).
Qed.
Lemma park_spec late g req r :
  (forall r, exists r' b, late r = (r', Ok b) /\ history (Scope.inside r') = history (Scope.inside r)) ->
  exists outcome r', park late g req r = (r', Ok outcome) /\
  history (Scope.inside r') =
    (asked (Scope.inside r) ++ [mk_prompt g (ApprovalQueue.accesses req) (ApprovalQueue.decision <$> outcome)],
     ran (Scope.inside r), slot (Scope.inside r), last_decision (Scope.inside r)).
Proof.
  intros Hlate. unfold park, bind, on_exec, modify, ret. destruct g as [|n]; [by do 2 eexists|].
  unfold Scope.ask, draw. destruct (open_gate n req (Scope.outside r)) as [w answer].
  cbn [Scope.outside Scope.set_outside]. destruct (siblings_granted w) as [w' more].
  match goal with |- context [late ?x] => destruct (Hlate x) as (r' & b & -> & H) end.
  do 2 eexists. split; [reflexivity|]. unfold history in *. cbn in *. by injection H as -> -> -> ->.
Qed.
Lemma deadline_asked r :
  exists r' b, (Scope.ask deadline : EM bool) r = (r', Ok b) /\ history (Scope.inside r') = history (Scope.inside r).
Proof. unfold Scope.ask, draw. destruct (deadline (Scope.outside r)) as [w b]. by do 2 eexists. Qed.
Lemma ask_gate_spec g req r : exists outcome r', ask_gate g req r = (r', Ok outcome) /\
  history (Scope.inside r') =
    (asked (Scope.inside r) ++ [mk_prompt g (ApprovalQueue.accesses req) (Some (ApprovalQueue.decision outcome))],
     ran (Scope.inside r), slot (Scope.inside r), last_decision (Scope.inside r)).
Proof.
  unfold ask_gate, park, bind, on_exec, modify, ret. destruct g as [|n]; [by do 2 eexists|].
  unfold Scope.ask, draw. destruct (open_gate n req (Scope.outside r)) as [w answer].
  cbn [Scope.outside Scope.set_outside]. destruct (siblings_granted w) as [w' more]. by do 2 eexists.
Qed.
Lemma handle_request_spec g c id cached tool l preview r : exists outcome r' ps,
  handle_request g c id cached tool l preview r = (r', Ok outcome) /\ asks g r r' ps /\
  (outcome <> None -> Forall decided ps).
Proof.
  unfold handle_request, exec, gets. unfold bind at 1. set (wanted := if cached then _ else l).
  assert (Hask : exists outcome r' ps,
    (let* call := Scope.ask fresh_call_id in
     let* answer := park (Scope.ask deadline) g (ApprovalQueue.mk_request call (Some id) (c_session c) (c_user c) tool
                                                   wanted preview None) in
     match answer with
     | None => ret None
     | Some outcome =>
         let* _ := on_exec (set_last (Some (ApprovalQueue.decision outcome))) in
         let* _ := when (cached && bool_decide (ApprovalQueue.decision outcome = ApproveAlways))
                     (on_exec (approve_always wanted)) in
         ret (Some outcome)
     end) r = (r', Ok outcome) /\ asks g r r' ps /\ (outcome <> None -> Forall decided ps)).
  { unfold bind at 1, Scope.ask at 1, draw. destruct (fresh_call_id (Scope.outside r)) as [w call].
    set (req := ApprovalQueue.mk_request _ _ _ _ _ _ _ _).
    destruct (park_spec _ g req (Scope.set_outside w r) deadline_asked) as (outcome & r' & E & H).
    unfold bind at 1. rewrite E. destruct outcome as [outcome|].
    - unfold bind at 1, on_exec at 1, modify.
      unfold bind, when. destruct (cached && _); exists (Some outcome);
        eexists _, [mk_prompt g wanted (Some (ApprovalQueue.decision outcome))]; (split; [reflexivity|]);
        (split; [|by repeat constructor]); (split; [by repeat constructor|]);
        unfold history in *; cbn in *; injection H as -> -> -> ?; done.
    - exists None, r', [mk_prompt g wanted None]. split; [done|]. split; [|done]. split; [by repeat constructor|]. exact H. }
  destruct wanted, cached; try exact Hask. do 2 eexists. exists []. split; [reflexivity|]. split; [by apply asks_none | by constructor].
Qed.
Lemma run_tool_spec g c id p r : exists answer r' ps,
  run_tool g c id p r = (r', Ok answer) /\ asks g r r' ps /\ (answer <> None -> Forall decided ps).
Proof.
  revert r. induction p as [a|cached tool l preview k IH|action payload k IH|act k IH]; intros r; cbn [run_tool].
  - exists (Some a), r, []. split_and!; [done | by apply asks_none | by constructor].
  - unfold bind at 1, Scope.ask, draw. destruct (deadline (Scope.outside r)) as [w []].
    { exists None. do 2 eexists. split_and!; [reflexivity | by apply asks_none | by constructor]. }
    unfold bind. destruct (handle_request_spec g c id cached tool l preview (Scope.set_outside w r))
      as ([o|] & r1 & ps & -> & H1 & D1).
    + destruct (IH o r1) as (a & r2 & qs & -> & H2 & D2). do 3 eexists. split; [reflexivity|].
      split; [exact (asks_trans _ _ _ _ _ _ H1 H2) | intros Ha; apply Forall_app; auto].
    + exists None. do 2 eexists. split_and!; [reflexivity | exact H1 | done].
  - unfold bind at 1, on_exec, modify. set (r1 := Scope.set_inside _ r).
    destruct (IH r1) as (a & r2 & qs & -> & H2). do 3 eexists. by split.
  - unfold bind at 1, Scope.ask at 1, draw. destruct (deadline (Scope.outside r)) as [w []].
    { exists None. do 2 eexists. split_and!; [reflexivity | by apply asks_none | by constructor]. }
    unfold bind, Scope.ask, draw, on_exec, modify. cbn [Scope.outside Scope.set_outside].
    destruct (siblings_granted w) as [w' more].
    match goal with |- context [run_tool g c id (k ?x) ?y] => destruct (IH x y) as (a & r2 & qs & -> & H2) end.
    do 3 eexists. by split.
Qed.

Definition call_gate (gates : ApprovalQueue.ApprovalGateMap) (c : Caller) : ApprovalQueue.Gate :=
  if inherited_context c then ApprovalQueue.AutoDenyGate
  else ApprovalQueue.get_gate (c_channel c) (c_session c) gates.

(** What the slot says after the gate before the run. *)
Definition verdict (c : Caller) (wanted : list Approval.ResourceAccess) (ps : list Prompt)
    (before : option ApprovalDecision) : option ApprovalDecision :=
  match last_verdict ps with
  | Some d => Some d
  | None => match wanted with
            | _ :: _ => if inherited_context c then Some Deny else before
            | [] => before
            end
  end.
Definition approved_now (c : Caller) (wanted : list Approval.ResourceAccess) (ps : list Prompt) : Prop :=
  wanted = [] \/
  (inherited_context c = false /\ exists p d, ps = [p] /\ p_accesses p = wanted /\ p_decision p = Some d /\ d <> Deny).

Lemma note_decision_ok d l r : exists r', note_decision d l r = (r', Ok tt) /\
  Scope.inside r' = Scope.inside r.
Proof.
  unfold note_decision. revert r. induction l as [|a l IH]; intros r; [by exists r|].
  destruct (IH (Scope.set_trace (Scope.trace r ++ [Scope.Decided d a]) r)) as (r' & E & H). by exists r'.
Qed.
Lemma authorize_spec gates c tool_name l label params id token r :
  let wanted := uncovered (grants (Scope.inside r)) l in
  exists r' res ps, authorize gates c tool_name l label params id token r = (r', res) /\
    Forall (fun p => p_gate p = call_gate gates c) ps /\ Forall decided ps /\
    history (Scope.inside r') = (asked (Scope.inside r) ++ ps, ran (Scope.inside r),
      verdict c wanted ps (slot (Scope.inside r)), last_decision (Scope.inside r)) /\
    (is_Ok res = true -> approved_now c wanted ps).
Proof.
  cbv zeta. unfold authorize, exec, gets. unfold bind at 1.
  destruct (uncovered (grants (Scope.inside r)) l) as [|a wanted] eqn:Ew.
  { exists r, (Ok tt), []. rewrite app_nil_r. split_and!; [done | constructor | constructor | done | by left]. }
  rewrite <- Ew. unfold call_gate, verdict, approved_now. rewrite Ew. destruct (inherited_context c).
  { unfold bind at 1, on_exec, modify. unfold bind. set (r1 := Scope.set_inside _ r).
    destruct (note_decision_ok Deny (a :: wanted) r1) as (r2 & -> & E2). exists r2. eexists. exists [].
    rewrite app_nil_r, E2. split_and!; [reflexivity | constructor | constructor | done | discriminate]. }
  unfold bind at 1, Scope.ask, draw. destruct (fresh_call_id (Scope.outside r)) as [w call].
  set (req := ApprovalQueue.mk_request _ _ _ _ _ _ _ _). set (g := ApprovalQueue.get_gate _ _ _).
  destruct (ask_gate_spec g req (Scope.set_outside w r)) as (outcome & r1 & E & H).
  unfold bind at 1. rewrite E. unfold bind at 1, on_exec at 1, modify at 1.
  set (r2 := Scope.set_inside _ r1).
  destruct (note_decision_ok (ApprovalQueue.decision outcome) (a :: wanted) r2) as (r3 & E3 & H3).
  unfold bind at 1. rewrite E3.
  assert (Hh : forall gs, history (set_grants gs (Scope.inside r3)) =
    (asked (Scope.inside r) ++ [mk_prompt g (a :: wanted) (Some (ApprovalQueue.decision outcome))], ran (Scope.inside r),
     Some (ApprovalQueue.decision outcome), last_decision (Scope.inside r))).
  { intros gs. rewrite H3. unfold history in *. cbn in *. by injection H as -> -> _ ->. }
  assert (Hkeep : history (Scope.inside r3) = history (set_grants [] (Scope.inside r3))) by done.
  destruct (ApprovalQueue.decision outcome) eqn:Ed; unfold bind, ret, throw, gets, on_exec, modify;
    try (destruct (Scope.is_cancelled token _)); do 2 eexists;
    eexists [mk_prompt g (a :: wanted) (Some _)];
    (split_and!; [reflexivity | by repeat constructor | by repeat constructor
                 | first [exact (eq_trans Hkeep (Hh _)) | exact (Hh _)]
                 | first [discriminate | intros _; right; split; [done|]; do 2 eexists; split_and!; done]]).
Qed.

Definition started (t : option ToolRegistry.Tool) (tool_name : string) (params : json) : list (string * json) :=
  if is_some t then [(tool_name, params)] else [].
Definition errs {T} (p : EM T) r : Prop := is_Ok (p r).2 = false.
(** From the tool's start on. *)
Lemma tail_spec g c t tool_name params revealed id r : exists r' res qs,
  (let* _ := when (is_some t) (on_exec (push_ran (tool_name, params))) in
   let* answer := run_tool g c id (tool_run t tool_name revealed c) in
   let* last := exec last_decision in
   let* _ := when (is_some last) (on_exec (set_slot last)) in
   let* _ := flush_events in
   settle_call tool_name t id answer) r = (r', res) /\
  Forall (fun p => p_gate p = g) qs /\ (is_Ok res = true -> Forall decided qs) /\
  asked (Scope.inside r') = asked (Scope.inside r) ++ qs /\
  ran (Scope.inside r') = ran (Scope.inside r) ++ started t tool_name params /\
  slot (Scope.inside r') = match last_verdict qs with
                           | Some d => Some d
                           | None => match last_decision (Scope.inside r) with
                                     | Some d => Some d
                                     | None => slot (Scope.inside r)
                                     end
                           end.
Proof.
  assert (exists r0, when (is_some t) (on_exec (push_ran (tool_name, params))) r = (r0, Ok tt) /\
    history (Scope.inside r0) = (asked (Scope.inside r), ran (Scope.inside r) ++ started t tool_name params,
      slot (Scope.inside r), last_decision (Scope.inside r))) as (r0 & E0 & H0).
  { unfold started. destruct t; cbn; eexists; (split; [reflexivity|]); unfold history; [done|]. by rewrite app_nil_r. }
  unfold bind at 1. rewrite E0.
  destruct (run_tool_spec g c id (tool_run t tool_name revealed c) r0) as (answer & r1 & qs & E1 & [Hg H1] & Hd1).
  unfold bind at 1. rewrite E1. unfold exec, gets. unfold bind at 1.
  set (lst := last_decision (Scope.inside r1)).
  assert (exists r2, when (is_some lst) (on_exec (set_slot lst)) r1 = (r2, Ok tt) /\
    history (Scope.inside r2) = (asked (Scope.inside r1), ran (Scope.inside r1),
      match lst with Some d => Some d | None => slot (Scope.inside r1) end, lst)) as (r2 & E2 & H2).
  { destruct lst eqn:El; cbn; eexists; (split; [reflexivity|]); unfold history; cbn; unfold lst in El; by rewrite ?El. }
  unfold bind at 1. rewrite E2.
  assert (Hk : keeps (at_history (history (Scope.inside r2)))
                 (let* _ := flush_events in settle_call tool_name t id answer)).
  { apply keeps_bind; [apply keeps_flush | intros _; apply keeps_settle]. }
  assert (Hnone : answer = None -> errs (let* _ := flush_events in settle_call tool_name t id answer) r2).
  { intros ->. unfold errs, bind. by destruct (flush_events r2) as [? []]. }
  unfold errs in Hnone.
  specialize (Hk r2 eq_refl). destruct (bind flush_events _ r2) as [r3 res].
  exists r3, res, qs. split; [done|]. assert (Hres : is_Ok res = true -> Forall decided qs).
  { intros Hres. apply Hd1. intros Hn. specialize (Hnone Hn). cbn in Hnone. congruence. }
  unfold at_history, history in *. cbn in Hk.
  injection H0 as Ha0 Hr0 Hs0 Hl0. injection H1 as Ha1 Hr1 Hs1 Hl1. injection H2 as Ha2 Hr2 Hs2 Hl2.
  injection Hk as Ha Hr Hs Hl. split_and!; [done | done | congruence | congruence |].
  rewrite Hs, Hs2. unfold lst. rewrite Hl1, Hs1, Hs0, Hl0. by destruct (last_verdict qs).
Qed.

(** What one call leaves behind, from the gate on. *)
Definition left_by gates c t tool_name params r r' (res : result (Scope.SpanFinalize * Scope.LifecycleOutcome * ToolOutput) Scope.Error)
    (ps : list Prompt) : Prop :=
  let accesses := from_option (fun t => ToolRegistry.accessed_resources t params) [] t in
  let wanted := uncovered (grants (Scope.inside r)) accesses in
  Forall (fun p => p_gate p = call_gate gates c) ps /\
  asked (Scope.inside r') = asked (Scope.inside r) ++ ps /\
  (ran (Scope.inside r') = ran (Scope.inside r) \/
   ran (Scope.inside r') = ran (Scope.inside r) ++ started t tool_name params /\
   exists first rest, ps = first ++ rest /\ approved_now c wanted first) /\
  (is_Ok res = true -> Forall decided ps) /\
  match last_verdict ps with
  | Some d => slot (Scope.inside r') = Some d
  | None => slot (Scope.inside r') = slot (Scope.inside r) \/
            (inherited_context c = true /\ slot (Scope.inside r') = Some Deny /\ is_Ok res = false)
  end.
Lemma call_body_spec gates t c tool_name params id token via r :
  exists r' res ps, call_body gates t c tool_name params id token via r = (r', res) /\
    left_by gates c t tool_name params r r' res ps.
Proof.
  unfold call_body.
  set (check := match t with Some t => if via then _ else _ | None => _ end).
  assert (Hcheck : keeps (with_grants (grants (Scope.inside r)) (history (Scope.inside r))) check).
  { subst check. destruct t; [destruct via|]; [apply keeps_validate | apply keeps_ret | apply keeps_ret]. }
  specialize (Hcheck r (conj eq_refl eq_refl)). unfold bind at 1.
  destruct (check r) as [r1 rejected]. cbn in Hcheck. destruct Hcheck as [Hgs Hh]. clear check.
  unfold at_history, history in Hh. injection Hh as Ha Hr Hs Hl.
  assert (Hstop : forall e, left_by gates c t tool_name params r r1 (Err e) []).
  { intros e. unfold left_by. rewrite app_nil_r. cbn. split_and!; [constructor | done | by left | done | by left]. }
  destruct rejected as [[msg|]|e]; [unfold throw; eauto 6 | | eauto 6].
  set (l := from_option (fun t => ToolRegistry.accessed_resources t params) [] t).
  destruct (authorize_spec gates c tool_name l (t ≫= fun t => ToolRegistry.call_label t params) params id token r1)
    as (r2 & res2 & ps & E2 & Hg2 & Hd2 & H2 & Hok).
  unfold bind at 1. rewrite E2. unfold history in H2. injection H2 as Ha2 Hr2 Hs2 Hl2.
  rewrite Hgs in Hok, Hs2. set (wanted := uncovered (grants (Scope.inside r)) l) in *.
  assert (Hslot2 : match last_verdict ps with
                   | Some d => slot (Scope.inside r2) = Some d
                   | None => slot (Scope.inside r2) = slot (Scope.inside r) \/
                             (inherited_context c = true /\ slot (Scope.inside r2) = Some Deny /\ wanted <> [])
                   end).
  { rewrite Hs2, Hs. unfold verdict. destruct (last_verdict ps); [done|]. destruct wanted; [by left|].
    destruct (inherited_context c); [by right | by left]. }
  destruct res2 as [[]|e].
  2:{ exists r2, (Err e), ps. split; [done|]. unfold left_by. fold l wanted.
      split_and!; [done | congruence | left; congruence | done |].
      destruct (last_verdict ps); [done|]. destruct Hslot2 as [|(? & ? & _)]; [by left | by right]. }
  specialize (Hok eq_refl).
  unfold bind at 1, on_exec at 1, modify. unfold bind at 1, Scope.ask at 1, draw.
  cbn [Scope.outside Scope.set_inside]. destruct (reveal_in_value params (Scope.outside r2)) as [w revealed].
  set (r3 := Scope.set_outside w _).
  assert (Hnone : last_verdict ps = None -> slot (Scope.inside r2) = slot (Scope.inside r)).
  { intros En. rewrite En in Hslot2. destruct Hslot2 as [|(Hi & _ & Hw)]; [done|]. exfalso.
    destruct Hok as [|(Hi' & _)]; congruence. }
  destruct revealed as [revealed|e].
  2:{ unfold throw. do 2 eexists. exists ps. split; [reflexivity|]. unfold left_by. fold l wanted. unfold r3. cbn.
      split_and!; [done | congruence | left; congruence | done |]. destruct (last_verdict ps); [done|]. left. by apply Hnone. }
  fold (call_gate gates c).
  destruct (tail_spec (call_gate gates c) c t tool_name params revealed id r3)
    as (r4 & res & qs & E4 & Hg4 & Hd4 & Ha4 & Hr4 & Hs4).
  exists r4, res, (ps ++ qs). split; [exact E4|]. unfold left_by. fold l wanted.
  cbn in Ha4, Hr4, Hs4. split_and!.
  - by apply Forall_app.
  - rewrite Ha4, Ha2, Ha. by rewrite (assoc_L (++)).
  - right. split; [congruence|]. by exists ps, qs.
  - intros Hres. apply Forall_app. auto.
  - rewrite last_verdict_app. destruct (last_verdict qs); [done|]. rewrite Hs4. destruct (last_verdict ps); [done|]. left. by apply Hnone.
Qed.

Lemma execute_spec registry gates c tool_name params id token via r :
  exists r' x ps, execute registry gates c tool_name params id token via r = (r', Ok x) /\
    Forall (fun p => p_gate p = call_gate gates c) ps /\
    asked (Scope.inside r') = asked (Scope.inside r) ++ ps /\
    (ran (Scope.inside r') = ran (Scope.inside r) \/
     exists t m first rest, ToolRegistry.get_with_manifest tool_name registry = Some (t, m) /\
       door (Some (t, m)) c tool_name = Ok tt /\
       ran (Scope.inside r') = ran (Scope.inside r) ++ [(tool_name, params)] /\ ps = first ++ rest /\
       approved_now c (uncovered (grants (Scope.inside r)) (ToolRegistry.accessed_resources t params)) first) /\
    (is_Ok (executed_output x) = true -> Forall decided ps) /\
    match last_verdict ps with
    | Some d => executed_approval x = Some d
    | None => executed_approval x = None \/
              (inherited_context c = true /\ executed_approval x = Some Deny /\ is_Ok (executed_output x) = false)
    end.
Proof.
  unfold execute. set (reg := ToolRegistry.get_with_manifest tool_name registry).
  destruct (door reg c tool_name) as [[]|e] eqn:Ed.
  2:{ exists r. eexists. exists []. rewrite app_nil_r. split_and!; [reflexivity | constructor | done | by left | done | by left]. }
  unfold bind at 1, on_exec, modify. set (r0 := Scope.set_inside _ r). unfold bind at 1, attempt.
  pose proof (span_inside (Scope.ToolCall tool_name id params) (Some token)
    (call_body gates (fst <$> reg) c tool_name params id token via) r0) as Hsp.
  destruct (Scope.with_span turn_error_text _ _ _ r0) as [r1 output]. cbn in Hsp.
  unfold exec, gets, bind, ret. exists r1, (mk_executed output (slot (Scope.inside r1))).
  destruct Hsp as [Hsp|(r2 & r3 & res & H2 & Hbody & H3 & Hok)].
  { exists []. rewrite Hsp, app_nil_r. split_and!; [reflexivity | constructor | done | by left | by constructor | by left]. }
  destruct (call_body_spec gates (fst <$> reg) c tool_name params id token via r2)
    as (r3' & res' & ps & E & Hg & Ha & Hr & Hd & Hs).
  rewrite Hbody in E. injection E as <- <-. exists ps. rewrite H2 in Ha, Hr, Hs. rewrite H3.
  split_and!; [reflexivity | done | exact Ha | | by cbn; rewrite Hok |].
  - destruct Hr as [Hr|(Hr & first & rest & -> & Hap)]; [by left|].
    destruct reg as [[t m]|] eqn:Er; [|left; by rewrite app_nil_r in Hr].
    right. exists t, m, first, rest. by split_and!.
  - destruct (last_verdict ps); [exact Hs|]. destruct Hs as [Hs|(? & ? & ?)]; [by left|]. right. cbn. by rewrite Hok.
Qed.

(** C9: nothing runs unadmitted.  A call of the executor starts at most one tool,
    the one the registry holds under the called name, and only if the tool's
    manifest, where it has one, may execute automatically and serves the
    caller's channel, its trigger scope admits the session, and every access it
    declares is a read, is covered by the session's grants, or was put, with
    every other uncovered access of the call, before the gate of the caller's
    channel and not denied.  An unattended call reaches no gate but the one that
    denies everything, and starts a tool only if nothing needed approval. *)
Theorem tool_runs_only_if_admitted registry gates c tool_name params id token via r :
  exists new, asked (Scope.inside (execute registry gates c tool_name params id token via r).1)
                = asked (Scope.inside r) ++ new /\
  Forall (fun p => p_gate p = if inherited_context c then ApprovalQueue.AutoDenyGate
                              else ApprovalQueue.get_gate (c_channel c) (c_session c) gates) new /\
  (ran (Scope.inside (execute registry gates c tool_name params id token via r).1) = ran (Scope.inside r) \/
   exists t m, ran (Scope.inside (execute registry gates c tool_name params id token via r).1)
                 = ran (Scope.inside r) ++ [(tool_name, params)] /\
     ToolRegistry.get_with_manifest tool_name registry = Some (t, m) /\
     (forall mf, m = Some mf -> ToolRegistry.validate_auto_execution mf = Ok tt /\
                                ToolRegistry.allows_channel (c_channel c) mf = true) /\
     ToolRegistry.allows_trigger (ToolRegistry.trigger_scope t) (c_trigger c) = true /\
     (forall a, a ∈ ToolRegistry.accessed_resources t params ->
        covered_by (grants (Scope.inside r)) a = true \/
        (inherited_context c = false /\ exists p d, head new = Some p /\ a ∈ p_accesses p /\ p_decision p = Some d /\ d <> Deny))).
Proof.
  destruct (execute_spec registry gates c tool_name params id token via r) as (r' & x & ps & -> & Hg & Ha & Hr & _).
  exists ps. cbn [fst]. split_and!; [done | exact Hg |]. destruct Hr as [Hr|Hr]; [by left|right].
  destruct Hr as (t & m & first & rest & Hreg & Hdoor & Hran & -> & Hap). exists t, m.
  unfold door in Hdoor. split_and!; [done | done | | |].
  - intros mf ->. destruct (ToolRegistry.validate_auto_execution mf) as [[]|]; [|discriminate].
    by destruct (ToolRegistry.allows_channel (c_channel c) mf).
  - destruct (ToolRegistry.allows_trigger _ _); [done|].
    destruct m as [mf|]; [|discriminate]. destruct (ToolRegistry.validate_auto_execution mf); [|discriminate].
    by destruct (ToolRegistry.allows_channel (c_channel c) mf).
  - intros a Hin. destruct (covered_by (grants (Scope.inside r)) a) eqn:Hc; [by left | right].
    assert (Hw : a ∈ uncovered (grants (Scope.inside r)) (ToolRegistry.accessed_resources t params)).
    { unfold uncovered. apply list_elem_of_In, List.filter_In. rewrite Hc. split; [by apply list_elem_of_In | done]. }
    destruct Hap as [Hnil|(Hi & p & d & -> & Hp & Hd)]; [rewrite Hnil in Hw; by apply elem_of_nil in Hw|].
    split; [done|]. exists p, d. by rewrite Hp.
Qed.

(** C39: the verdict survives every exit.  Whatever way a call ends (refused at a
    door, denied, cancelled, failed, answered, timed out between two steps of the
    tool or while a prompt of the tool was parked), the approval it reports is
    the last decision made on a prompt it raised, before or during the run; a
    prompt the deadline dropped undecided takes nothing back, and the call
    fails.  A call without a decision reports none, except an unattended call
    turned away for needing one, which fails and reports the denial. *)
Theorem verdict_survives_every_exit registry gates c tool_name params id token via r :
  exists r' x new, execute registry gates c tool_name params id token via r = (r', Ok x) /\
    asked (Scope.inside r') = asked (Scope.inside r) ++ new /\
    (is_Ok (executed_output x) = true -> forall p, p ∈ new -> p_decision p <> None) /\
    match last (omap p_decision new) with
    | Some d => executed_approval x = Some d
    | None => executed_approval x = None \/
              (inherited_context c = true /\ executed_approval x = Some Deny /\ is_Ok (executed_output x) = false)
    end.
Proof.
  destruct (execute_spec registry gates c tool_name params id token via r) as (r' & x & ps & E & _ & Ha & _ & Hd & Hs).
  exists r', x, ps. split_and!; [done | done | | exact Hs]. intros Hok. apply Forall_forall, Hd, Hok.
Qed.

(** *** What "always" buys *)

Lemma push_grants gs l a : a ∈ l \/ Approval.to_approved a ∈ gs -> Approval.to_approved a ∈ foldl push_grant gs l.
Proof.
  revert gs. induction l as [|b l IH]; intros gs H; cbn; [destruct H as [H|]; [by apply elem_of_nil in H | done]|].
  apply IH. unfold push_grant. destruct H as [[->|]%elem_of_cons|]; [right | by left | right];
    case_bool_decide; try done; apply elem_of_app; [right; by apply list_elem_of_singleton | by left].
Qed.
Lemma push_grants_keep gs l g : g ∈ gs -> g ∈ foldl push_grant gs l.
Proof.
  revert gs. induction l as [|b l IH]; intros gs H; cbn; [done|]. apply IH. unfold push_grant.
  case_bool_decide; [done|]. apply elem_of_app. by left.
Qed.
Lemma ask_gate_grants g req r r' o : ask_gate g req r = (r', Ok o) ->
  exists more, grants (Scope.inside r') = grants (Scope.inside r) ++ more.
Proof.
  unfold ask_gate, park, bind, on_exec, modify, ret. destruct g as [|n].
  { intros [= <- _]. exists []. by rewrite app_nil_r. }
  unfold Scope.ask, draw. destruct (open_gate n req (Scope.outside r)) as [w answer].
  cbn [Scope.outside Scope.set_outside]. destruct (siblings_granted w) as [w' more]. intros [= <- _]. by exists more.
Qed.
Lemma authorize_always gates c tool_name l label params id token r r1 res p :
  authorize gates c tool_name l label params id token r = (r1, res) ->
  asked (Scope.inside r1) = asked (Scope.inside r) ++ [p] -> p_decision p = Some ApproveAlways ->
  forall a, a ∈ l -> covered_by (grants (Scope.inside r1)) a = true.
Proof.
  unfold authorize, exec, gets. unfold bind at 1.
  destruct (uncovered (grants (Scope.inside r)) l) as [|a0 wanted] eqn:Ew.
  { intros [= <- _] Ha%(f_equal length). rewrite length_app in Ha. cbn in Ha. lia. }
  destruct (inherited_context c).
  { unfold bind at 1, on_exec, modify. unfold bind. set (r2 := Scope.set_inside _ r).
    destruct (note_decision_ok Deny (a0 :: wanted) r2) as (r3 & -> & E3). intros [= <- _]. rewrite E3. cbn.
    intros Ha%(f_equal length). rewrite length_app in Ha. cbn in Ha. lia. }
  unfold bind at 1, Scope.ask, draw. destruct (fresh_call_id (Scope.outside r)) as [w call].
  set (req := ApprovalQueue.mk_request _ _ _ _ _ _ _ _). set (g := ApprovalQueue.get_gate _ _ _).
  destruct (ask_gate_spec g req (Scope.set_outside w r)) as (outcome & r2 & E & H).
  destruct (ask_gate_grants _ _ _ _ _ E) as (more & Hmore).
  unfold bind at 1. rewrite E. unfold bind at 1, on_exec at 1, modify at 1. set (r3 := Scope.set_inside _ r2).
  destruct (note_decision_ok (ApprovalQueue.decision outcome) (a0 :: wanted) r3) as (r4 & E4 & H4).
  unfold bind at 1. rewrite E4. intros Hrun Hasked Hp.
  assert (Hd : ApprovalQueue.decision outcome = ApproveAlways /\
               grants (Scope.inside r1) = foldl push_grant (grants (Scope.inside r3)) (a0 :: wanted)).
  { assert (Hasked4 : asked (Scope.inside r4) = asked (Scope.inside r) ++
                        [mk_prompt g (a0 :: wanted) (Some (ApprovalQueue.decision outcome))]).
    { rewrite H4. unfold history in H. by injection H. }
    revert Hrun. destruct (ApprovalQueue.decision outcome) eqn:Ed; unfold bind, ret, throw, gets, on_exec, modify;
      [destruct (Scope.is_cancelled _ _) | destruct (Scope.is_cancelled _ _) |]; intros [= <- _];
      cbn in Hasked; rewrite Hasked4 in Hasked; apply app_inv_head in Hasked;
      injection Hasked as <-; try discriminate Hp; (split; [done | cbn; by rewrite H4]). }
  destruct Hd as [_ Hg]. intros a Hin. unfold covered_by. rewrite Hg. destruct (is_read a) eqn:Hread; [done|]. cbn.
  apply existsb_exists. destruct (covered_by (grants (Scope.inside r)) a) eqn:Hc.
  - unfold covered_by in Hc. rewrite Hread in Hc. apply existsb_exists in Hc as (x & Hx & Hcov). exists x. split; [|done].
    apply list_elem_of_In, (push_grants_keep _ (a0 :: wanted)). unfold r3. cbn. rewrite Hmore. cbn.
    apply elem_of_app. left. by apply list_elem_of_In.
  - exists (Approval.to_approved a). split.
    + apply list_elem_of_In, (push_grants _ (a0 :: wanted)). left. rewrite <- Ew. unfold uncovered.
      apply list_elem_of_In, List.filter_In. rewrite Hc. split; [by apply list_elem_of_In | done].
    + apply Approval.covers_within. destruct a; cbn; try done; exists []; by rewrite app_nil_r.
Qed.

(** C32: "approve always" asks once.  When the gate's answer to a call was
    "approve always", any later call that declares the same accesses, of any
    tool, attended or not, with the session's grants since then only grown,
    passes the approval door without a prompt, without a refusal and without
    changing anything. *)
Theorem approve_always_asks_once gates c tool_name l label params id token r r1 res p
    gates' c' tool_name' label' params' id' token' r2
    (Hrun : authorize gates c tool_name l label params id token r = (r1, res))
    (Hasked : asked (Scope.inside r1) = asked (Scope.inside r) ++ [p])
    (Halways : p_decision p = Some ApproveAlways)
    (Hgrown : forall g, g ∈ grants (Scope.inside r1) -> g ∈ grants (Scope.inside r2)) :
  authorize gates' c' tool_name' l label' params' id' token' r2 = (r2, Ok tt).
Proof.
  pose proof (authorize_always _ _ _ _ _ _ _ _ _ _ _ _ Hrun Hasked Halways) as Hcov.
  unfold authorize, exec, gets, bind, uncovered.
  assert (Hnil : List.filter (fun a => negb (covered_by (grants (Scope.inside r2)) a)) l = []).
  { clear Hrun. induction l as [|a l IH]; [done|]. cbn.
    assert (covered_by (grants (Scope.inside r2)) a = true) as ->.
    { specialize (Hcov a ltac:(by left)). unfold covered_by in *. destruct (is_read a); [done|]. cbn in *.
      apply existsb_exists in Hcov as (x & Hx & Hx'). apply existsb_exists. exists x. split; [|done].
      apply list_elem_of_In, Hgrown. by apply list_elem_of_In. }
    apply IH. intros b Hb. apply Hcov. by right. }
  by rewrite Hnil.
Qed.
End Executor.

(** ** A concrete session *)

Module Sample.

(** The user answers every prompt with "always"; a deployment tool writes a
    file and reaches a host. *)
#[export] Instance willing : Host (W := N) := {
  open_gate _ _ w := (w, Some (ApprovalQueue.answered ApproveAlways));
  siblings_granted w := (w, []);
  fresh_call_id w := ((w + 1)%N, pretty w);
  deadline w := (w, false);
  reveal_in_value v w := (w, Ok v);
  sanitize_tool_output o w := (w, Ok o);
  sanitize_error e w := (w, Ok e);
  scrub_fragment s w := (w, Ok s);
  start_tool t p c :=
    Request true "Deploy" [Approval.Http "example.org"] ""
      (fun o => Done (match ApprovalQueue.decision o with
                      | Deny => Err "denied"%string
                      | _ => Ok (ProgressLedger.OutText "deployed")
                      end));
  timeout_text _ := "30s"%string;
}.
Definition deploy : ToolRegistry.Tool :=
  ToolRegistry.mk_tool "Deploy" "" (JBool true) (fun _ => JBool true) ToolRegistry.Any ToolRegistry.Exclusive
    (fun _ => None) (fun _ => [Approval.WriteFile "/srv/app"; Approval.ReadFile "/etc/hosts"]) (fun _ => None).
Definition trusted : ToolRegistry.ToolManifest :=
  ToolRegistry.mk_manifest "Deploy" Skill.Trusted [ToolRegistry.WriteFile; ToolRegistry.Http] [].
Definition registry : ToolRegistry.ToolRegistry := ToolRegistry.register deploy trusted ToolRegistry.new.
Definition gates : ApprovalQueue.ApprovalGateMap :=
  ApprovalQueue.insert_gate "cli" (ApprovalQueue.RegisteredGate 0) ApprovalQueue.no_gates.
Definition user : Caller := mk_caller "s" "u" "cli" ToolRegistry.User "default" false true.
Definition unattended : Caller := mk_caller "s" "u" "cli" ToolRegistry.User "default" true true.
Definition idle : Scope.Runtime N (gmap TurnId Turn.TurnRow) unit (Exec (V := json)) :=
  Scope.mk_runtime 100%N (Lifecycle.mk_lifecycle ∅ ∅ ∅ []) []
    (mk_exec [] ∅ None None ToolTrace.new_recorder [] []).
#[local] Existing Instances Scope.Sample.counter InvokeParams.Sample.constant_schema.
Definition call (c : Caller) : EM (W := N) (S := gmap TurnId Turn.TurnRow) (B := unit) (V := json) ExecutedTool :=
  execute (fun _ => EmptyString) InvokeParams.Sample.text (fun _ => JNull)
    registry gates c "Deploy" (JBool true) "toolu_1" 9%N true.
End Sample.
#[local] Existing Instances Sample.willing Scope.Sample.counter InvokeParams.Sample.constant_schema.

(** The user is asked for the file and, by the tool, for the host, and the
    second call asks for nothing; the same call unattended runs nothing. *)
Example deploys_once :
  let r1 := (Sample.call Sample.user Sample.idle).1 in
  let r2 := (Sample.call Sample.user r1).1 in
  let r3 := (Sample.call Sample.unattended Sample.idle).1 in
  length (asked (Scope.inside r1)) = 2 /\ length (ran (Scope.inside r1)) = 1 /\
  length (asked (Scope.inside r2)) = 2 /\ length (ran (Scope.inside r2)) = 2 /\
  asked (Scope.inside r3) = [] /\ ran (Scope.inside r3) = [].
Proof. vm_compute. done. Qed.

(** The deadline passes while the tool's own prompt is parked: the call fails,
    and reports the decision the user made before the run. *)
Definition impatient : Host (W := N) := {|
  open_gate _ _ w := (w, Some (ApprovalQueue.answered Approve));
  siblings_granted w := (w, []);
  fresh_call_id w := ((w + 1)%N, pretty w);
  deadline w := (w, N.even w);
  reveal_in_value v w := (w, Ok v);
  sanitize_tool_output o w := (w, Ok o);
  sanitize_error e w := (w, Ok e);
  scrub_fragment s w := (w, Ok s);
  start_tool := start_tool (Host := Sample.willing);
  timeout_text _ := "30s"%string;
|}.
Definition parked : Scope.Runtime N (gmap TurnId Turn.TurnRow) unit (Exec (V := json)) * result ExecutedTool Scope.Error :=
  execute (Ho := impatient) (fun _ => EmptyString) InvokeParams.Sample.text (fun _ => JNull)
    Sample.registry Sample.gates Sample.user "Deploy" (JBool true) "toolu_1" 9%N true
    Sample.idle.
Example parked_prompt_times_out :
  map p_decision (asked (Scope.inside parked.1)) = [Some Approve; None] /\
  match parked.2 with
  | Ok x => executed_approval x = Some Approve /\
            executed_output x = Err (Scope.Anyhow "tool 'Deploy' exceeded timeout (30s)")
  | Err _ => False
  end.
Proof. vm_compute. done. Qed.

Lemma approve_always_asks_once_witness :
  let door := authorize InvokeParams.Sample.text Sample.gates Sample.user "Deploy"
                [Approval.WriteFile "/srv/app"] None JNull "toolu_1" 9%N in
  (door (door Sample.idle).1).2 = Ok tt.
Proof.
  cbv zeta.
  rewrite (approve_always_asks_once InvokeParams.Sample.text Sample.gates Sample.user "Deploy"
    [Approval.WriteFile "/srv/app"] None JNull "toolu_1" 9%N Sample.idle _ _
    (mk_prompt (ApprovalQueue.RegisteredGate 0) [Approval.WriteFile "/srv/app"] (Some ApproveAlways))
    Sample.gates Sample.user "Deploy" None JNull "toolu_1" 9%N
    (authorize InvokeParams.Sample.text Sample.gates Sample.user "Deploy"
       [Approval.WriteFile "/srv/app"] None JNull "toolu_1" 9%N Sample.idle).1
    (surjective_pairing _)); [done | vm_compute; reflexivity | done | done].
Defined.

End ToolExecutor.
