(* ===== verification/ToolBatch.v ===== *)
(** * A response's tool calls, run together
      ([crates/agent/src/runtime/agent_loop.rs])

    The calls of one response are futures polled together over a semaphore: a
    read-only call takes one permit, a call with effects takes them all, a
    subagent takes none.  The semaphore is fair: permits go out in the order they
    were asked for.  Cancellation drops what has not answered.  The second half
    holds what the loop makes of the answers: captions, attachments, images. *)

From S2P Require Import Prelude Message Wire Approval ToolRegistry ProgressLedger Streaming Scope ToolExecutor.
Import Message.

Module ToolBatch.

Import ToolRegistry(ToolConcurrency, Concurrent, Exclusive, Independent).

(** ** The pool *)

Definition MAX_CONCURRENT_TOOL_CALLS : nat := 10.
Definition permits (c : ToolConcurrency) : nat :=
  match c with Concurrent => 1 | Exclusive => MAX_CONCURRENT_TOOL_CALLS | Independent => 0 end.

Section Pool.
Context {E : Type} (cs : list ToolConcurrency).

Inductive Phase := Unpolled | Queued | Running | Answered (e : E).
(** [queue]: the calls waiting on the semaphore, in the order they asked. *)
Record Batch := mk_batch { phases : list Phase; queue : list nat }.
Definition start : Batch := mk_batch (map (fun _ => Unpolled) cs) [].
Definition is_running (p : Phase) : bool := match p with Running => true | _ => false end.
Definition held (c : ToolConcurrency) (p : Phase) : nat := if is_running p then permits c else 0.
#[local] Arguments held : simpl never.
Definition used (b : Batch) : nat := sum_list (zip_with held cs (phases b)).
Definition set_phase (i : nat) (p : Phase) (b : Batch) : list Phase := <[i := p]> (phases b).

Inductive step : Batch -> Batch -> Prop :=
| poll_pooled b i c : phases b !! i = Some Unpolled -> cs !! i = Some c -> c <> Independent ->
    step b (mk_batch (set_phase i Queued b) (queue b ++ [i]))
| poll_independent b i : phases b !! i = Some Unpolled -> cs !! i = Some Independent ->
    step b (mk_batch (set_phase i Running b) (queue b))
| grant b i c q : queue b = i :: q -> cs !! i = Some c ->
    used b + permits c <= MAX_CONCURRENT_TOOL_CALLS ->
    step b (mk_batch (set_phase i Running b) q)
| answer b i e : phases b !! i = Some Running ->
    step b (mk_batch (set_phase i (Answered e) b) (queue b)).

(** What the loop takes from the batch, in the order of the calls: an answer, or
    nothing for a call the cancellation dropped. *)
Definition result_of (p : Phase) : option E := match p with Answered e => Some e | _ => None end.
Definition tool_results (b : Batch) : list (option E) := map result_of (phases b).

(** ** Well-formed batches *)

Record wf (b : Batch) : Prop := mk_wf {
  wf_length : length (phases b) = length cs;
  wf_queue i : i ∈ queue b <-> phases b !! i = Some Queued;
  wf_nodup : NoDup (queue b);
  wf_used : used b <= MAX_CONCURRENT_TOOL_CALLS;
}.

Lemma sum_set l k i c p p' : l !! i = Some p -> k !! i = Some c ->
  sum_list (zip_with held k (<[i := p']> l)) + held c p = sum_list (zip_with held k l) + held c p'.
Proof.
  revert k i. induction l as [|q l IH]; intros [|d k] [|i] Hp Hc; try discriminate; cbn in *.
  - injection Hp as ->. injection Hc as ->. lia.
  - specialize (IH k i Hp Hc). unfold insert in *. lia.
Qed.
Lemma used_set b i c p p' q : phases b !! i = Some p -> cs !! i = Some c ->
  used (mk_batch (set_phase i p' b) q) + held c p = used b + held c p'.
Proof. apply sum_set. Qed.
Lemma sum_two l k i j c d p q : i <> j -> l !! i = Some p -> k !! i = Some c -> l !! j = Some q ->
  k !! j = Some d -> held c p + held d q <= sum_list (zip_with held k l).
Proof.
  revert k i j. induction l as [|r l IH]; intros [|e k] [|i] [|j] Hij H1 H2 H3 H4; try discriminate;
    cbn in *; simplify_eq.
  - assert (held d q <= sum_list (zip_with held k l)); [|lia]. clear -H3 H4. revert k j H3 H4.
    induction l as [|r l IH]; intros [|e k] [|j] H3 H4; try discriminate; cbn in *; simplify_eq; [lia|].
    specialize (IH k j H3 H4). lia.
  - assert (held c p <= sum_list (zip_with held k l)); [|lia]. clear -H1 H2. revert k i H1 H2.
    induction l as [|r l IH]; intros [|e k] [|i] H1 H2; try discriminate; cbn in *; simplify_eq; [lia|].
    specialize (IH k i H1 H2). lia.
  - specialize (IH k i j ltac:(congruence) H1 H2 H3 H4). lia.
Qed.

Lemma start_wf : wf start.
Proof.
  split; cbn; [by rewrite length_map | | constructor |].
  - intros i. split; [by intros ?%elem_of_nil|]. rewrite list_lookup_fmap. by destruct (cs !! i).
  - unfold used. cbn. induction cs as [|c l IH]; cbn; [unfold MAX_CONCURRENT_TOOL_CALLS; lia | exact IH].
Qed.
Lemma phase_call b i p : wf b -> phases b !! i = Some p -> exists c, cs !! i = Some c.
Proof. intros Hw Hp. apply lookup_lt_is_Some. rewrite <- (wf_length _ Hw). by eapply lookup_lt_Some. Qed.
Lemma step_wf b b' : wf b -> step b b' -> wf b'.
Proof.
  intros Hw Hs. pose proof (wf_queue _ Hw) as Hq. pose proof (wf_nodup _ Hw) as Hn.
  pose proof (wf_used _ Hw) as Hu. pose proof (wf_length _ Hw) as Hl.
  destruct Hs as [b i c Hp Hc Hne|b i Hp Hc|b i c q Eq Hc Hfit|b i e Hp].
  - assert (i < length (phases b)) by (by eapply lookup_lt_Some).
    split; cbn; unfold set_phase; rewrite ?length_insert; [done | | |].
    + intros j. rewrite elem_of_app, list_elem_of_singleton, Hq. destruct (decide (i = j)) as [->|Hij].
      * rewrite list_lookup_insert_eq by done. by split; [|right].
      * rewrite list_lookup_insert_ne by done. split; [intros [|]; [done | congruence] | by left].
    + apply NoDup_app. split_and!; [done | | apply NoDup_singleton].
      intros j Hj ->%list_elem_of_singleton. apply Hq in Hj. congruence.
    + pose proof (used_set b i c _ Queued (queue b ++ [i]) Hp Hc) as Hsum. unfold held in Hsum. cbn in Hsum.
      unfold set_phase in Hsum. lia.
  - assert (i < length (phases b)) by (by eapply lookup_lt_Some).
    split; cbn; unfold set_phase; rewrite ?length_insert; [done | | done |].
    + intros j. rewrite Hq. destruct (decide (i = j)) as [->|Hij].
      * rewrite list_lookup_insert_eq by done. split; congruence.
      * by rewrite list_lookup_insert_ne.
    + pose proof (used_set b i _ _ Running (queue b) Hp Hc) as Hsum. unfold held in Hsum. cbn in Hsum.
      unfold set_phase in Hsum. lia.
  - assert (Hp : phases b !! i = Some Queued) by (apply Hq; rewrite Eq; by left).
    assert (i < length (phases b)) by (by eapply lookup_lt_Some).
    rewrite Eq in Hn. apply NoDup_cons in Hn as [Hi Hn].
    split; cbn; unfold set_phase; rewrite ?length_insert; [done | | done |].
    + intros j. destruct (decide (i = j)) as [->|Hij].
      * rewrite list_lookup_insert_eq by done. by split.
      * rewrite list_lookup_insert_ne by done. rewrite <- Hq, Eq, elem_of_cons. naive_solver.
    + pose proof (used_set b i c _ Running q Hp Hc) as Hsum. unfold held in Hsum. cbn in Hsum.
      unfold set_phase in Hsum. lia.
  - assert (i < length (phases b)) by (by eapply lookup_lt_Some).
    destruct (phase_call _ _ _ Hw Hp) as [c Hc].
    split; cbn; unfold set_phase; rewrite ?length_insert; [done | | done |].
    + intros j. rewrite Hq. destruct (decide (i = j)) as [->|Hij].
      * rewrite list_lookup_insert_eq by done. split; congruence.
      * by rewrite list_lookup_insert_ne.
    + pose proof (used_set b i c _ (Answered e) (queue b) Hp Hc) as Hsum. unfold held in Hsum. cbn in Hsum.
      unfold set_phase in Hsum. lia.
Qed.
Lemma reach_wf b : rtc step start b -> wf b.
Proof. intros H. pose proof start_wf as Hw. revert Hw. induction H; eauto using step_wf. Qed.

(** C36: a call with effects runs alone.  However the calls of a response are
    polled, granted and answered, at no point do the running ones hold more than
    the pool's ten permits; so while a call that declares effects runs, every
    other running call is one that takes no permit (a subagent). *)
Theorem exclusive_runs_alone (b : Batch) (Hreach : rtc step start b) :
  used b <= MAX_CONCURRENT_TOOL_CALLS /\
  forall i j d, i <> j -> phases b !! i = Some Running -> cs !! i = Some Exclusive ->
    phases b !! j = Some Running -> cs !! j = Some d -> d = Independent.
Proof.
  pose proof (wf_used _ (reach_wf b Hreach)) as Hu. split; [exact Hu|].
  intros i j d Hij Hi Hci Hj Hcj. pose proof (sum_two _ _ _ _ _ _ _ _ Hij Hi Hci Hj Hcj) as H.
  unfold used in Hu. destruct d; [| |done]; exfalso; unfold held at 1 2 in H; cbn [is_running permits] in H;
    unfold MAX_CONCURRENT_TOOL_CALLS in *; lia.
Qed.

(** ** Every batch ends *)

Definition rank (p : Phase) : nat :=
  match p with Unpolled => 3 | Queued => 2 | Running => 1 | Answered _ => 0 end.
Definition work (b : Batch) : nat := sum_list (map rank (phases b)).

Lemma work_set l i p p' : l !! i = Some p ->
  sum_list (map rank (<[i := p']> l)) + rank p = sum_list (map rank l) + rank p'.
Proof.
  revert i. induction l as [|q l IH]; intros [|i] H; try discriminate; cbn in *; [injection H as ->; lia|].
  specialize (IH i H). unfold insert in *. lia.
Qed.
Lemma step_work b b' : wf b -> step b b' -> work b' < work b.
Proof.
  intros Hw Hs. unfold work. destruct Hs as [b i c Hp|b i Hp|b i c q Eq|b i e Hp]; cbn; unfold set_phase.
  - pose proof (work_set _ _ _ Queued Hp) as Hsum. cbn in Hsum. lia.
  - pose proof (work_set _ _ _ Running Hp) as Hsum. cbn in Hsum. lia.
  - assert (Hp : phases b !! i = Some Queued) by (apply (wf_queue _ Hw); rewrite Eq; by left).
    pose proof (work_set _ _ _ Running Hp) as Hsum. cbn in Hsum. lia.
  - pose proof (work_set _ _ _ (Answered e) Hp) as Hsum. cbn in Hsum. lia.
Qed.
Lemma steps_work n b b' : wf b -> nsteps step n b b' -> n + work b' <= work b /\ wf b'.
Proof.
  intros Hw H. revert Hw. induction H as [|n b b1 b2 Hs _ IH]; intros Hw; [by split; [lia|]|].
  pose proof (step_work _ _ Hw Hs). destruct (IH (step_wf _ _ Hw Hs)). by split; [lia|].
Qed.
Lemma start_work : work start = 3 * length cs.
Proof. unfold work, start. cbn [phases]. induction cs as [|c l IH]; [done|]. cbn [map sum_list_with rank id length]. lia. Qed.

Lemma idle_pool b : wf b -> (forall i, phases b !! i <> Some Running) -> used b = 0.
Proof.
  intros _ H. unfold used. assert (Hall : forall p, p ∈ phases b -> is_running p = false).
  { intros p [i Hi]%list_elem_of_lookup. destruct p; try done. by apply H in Hi. }
  clear H. revert cs. induction (phases b) as [|p l IH]; intros [|c k]; cbn; try done.
  unfold held at 1. rewrite (Hall p) by (by left). apply IH. intros q Hq. apply Hall. by right.
Qed.
(** While something is unanswered and nothing runs, the pool moves by itself. *)
Lemma pool_moves b : wf b -> (forall i, phases b !! i <> Some Running) ->
  (exists i p, phases b !! i = Some p /\ result_of p = None) -> exists b', step b b'.
Proof.
  intros Hw Hidle (i & p & Hp & Hr). destruct (phase_call _ _ _ Hw Hp) as [c Hc].
  destruct p as [| | |e]; [| |by destruct (Hidle i)|done].
  - destruct c; eexists; [by eapply poll_pooled | by eapply poll_pooled | by eapply poll_independent].
  - assert (Hi : i ∈ queue b) by (by apply (wf_queue _ Hw)). destruct (queue b) as [|j q] eqn:Eq; [by apply elem_of_nil in Hi|].
    assert (Hj : phases b !! j = Some Queued) by (apply (wf_queue _ Hw); rewrite Eq; by left).
    destruct (phase_call _ _ _ Hw Hj) as [d Hd]. eexists. eapply grant; [done | done |].
    rewrite (idle_pool b Hw Hidle). destruct d; cbn; unfold MAX_CONCURRENT_TOOL_CALLS; lia.
Qed.

(** A batch always drains.  No order of polls, grants and answers is longer
    than three steps per call, and wherever one stands, either every call has its
    answer, in the order the model declared them, or some call is running (and
    ends by its own deadline), or the pool can move on by itself: calls never
    wait on each other for permits. *)
Theorem batch_drains (n : nat) (b : Batch) (Hrun : nsteps step n start b) :
  n <= 3 * length cs /\
  ((exists es, length es = length cs /\ tool_results b = map Some es) \/
   (exists i, phases b !! i = Some Running) \/ (exists b', step b b')).
Proof.
  destruct (steps_work _ _ _ start_wf Hrun) as [Hn Hw]. rewrite start_work in Hn. split; [lia|].
  destruct (decide (Exists (fun p => is_running p = true) (phases b))) as [[p [Hin Hp]]%Exists_exists|Hidle].
  { right. left. apply list_elem_of_lookup in Hin as [i Hi]. exists i. by destruct p. }
  assert (Hidle' : forall i, phases b !! i <> Some Running).
  { intros i Hi. apply Hidle, Exists_exists. exists Running. split; [by eapply list_elem_of_lookup_2 | done]. }
  destruct (decide (Exists (fun p => result_of p = None) (phases b))) as [[p [Hin Hp]]%Exists_exists|Hall].
  { right. right. apply list_elem_of_lookup in Hin as [i Hi]. apply pool_moves; eauto. }
  left. assert (Hsome : Forall (fun p => exists e, result_of p = Some e) (phases b)).
  { apply Forall_forall. intros p Hp. destruct (result_of p) eqn:Er; [eauto|]. exfalso. apply Hall, Exists_exists. eauto. }
  rewrite <- (wf_length _ Hw). unfold tool_results. clear -Hsome.
  induction Hsome as [|p l [e He] _ (es & Hlen & IH)]; [by exists []|].
  exists (e :: es). cbn. by rewrite He, IH, Hlen.
Qed.
End Pool.
Arguments Batch : clear implicits.


(** ** What the loop makes of the answers *)

Definition TOOL_SUMMARY_MAX : nat := 80.
Definition MAX_LLM_IMAGES_PER_ITERATION : nat := 8.

Definition truncate_summary (s : string) : string :=
  let s := Str.trim s in
  (Str.take_chars TOOL_SUMMARY_MAX s
   +:+ if Nat.ltb TOOL_SUMMARY_MAX (Str.char_count s) then "…" else "")%string.
Definition summarize_text (s : string) : string :=
  let trimmed := Str.trim s in
  if String.eqb trimmed "" then "no output"%string
  else
    let lines := Str.line_count trimmed in
    if Nat.leb lines 1 then truncate_summary trimmed else (pretty lines +:+ " lines")%string.

Definition media_digest (b : ContentBlock) : option string :=
  match b with
  | Image blob _ _ _ _ | Audio blob _ _ _ | File blob _ _ _ _ _ => blob_content_digest (blob_id blob)
  | _ => None
  end.
Definition stage_attachment (acc : list ContentBlock) (b : ContentBlock) : list ContentBlock :=
  match media_digest b with
  | Some digest => if bool_decide (digest ∈ omap media_digest acc) then acc else acc ++ [b]
  | None => acc ++ [b]
  end.
Definition extend_unique_attachments (acc incoming : list ContentBlock) : list ContentBlock :=
  foldl stage_attachment acc incoming.
Definition push_image (dst : list ContentBlock) (b : ContentBlock) : list ContentBlock :=
  (if Nat.leb MAX_LLM_IMAGES_PER_ITERATION (length dst) then tail dst else dst) ++ [b].
Definition push_bounded_images (dst items : list ContentBlock) : list ContentBlock := foldl push_image dst items.

Definition attachment_name (b : ContentBlock) : option string :=
  match b with
  | File _ filename _ _ _ _ => Some filename
  | Image _ mime _ _ _ | Audio _ mime _ _ => Some mime
  | _ => None
  end.
Definition summarize_attachments (blocks : list ContentBlock) : string :=
  match omap attachment_name blocks with
  | [] => (pretty (length blocks) +:+ " attachment(s)")%string
  | named => truncate_summary (Wire.joined ", " named)
  end.

Inductive ToolStatus := StatusOk | StatusError | StatusDenied.
Definition tool_completion_summary (error_text : Scope.Error -> string) (x : ToolExecutor.ExecutedTool)
    : ToolStatus * string :=
  if bool_decide (ToolExecutor.executed_approval x = Some Deny) then (StatusDenied, "denied"%string)
  else
    match ToolExecutor.executed_output x with
    | Ok (ProgressLedger.OutText s) => (StatusOk, summarize_text s)
    | Ok (ProgressLedger.OutJson _) => (StatusOk, "ok"%string)
    | Ok (ProgressLedger.WithAttachments _ attachments) => (StatusOk, summarize_attachments attachments)
    | Ok (ProgressLedger.MultiModalText _ llm_images) =>
        (StatusOk, (pretty (length llm_images) +:+ " image(s)")%string)
    | Ok (ProgressLedger.OutError msg) => (StatusError, truncate_summary msg)
    | Err e => (StatusError, truncate_summary (error_text e))
    end.

(** *** Facts *)

Lemma push_image_last dst b : length dst <= MAX_LLM_IMAGES_PER_ITERATION ->
  push_image dst b = drop (length dst + 1 - MAX_LLM_IMAGES_PER_ITERATION) (dst ++ [b]) /\
  length (push_image dst b) <= MAX_LLM_IMAGES_PER_ITERATION.
Proof.
  unfold push_image, MAX_LLM_IMAGES_PER_ITERATION. intros H.
  destruct (Nat.leb_spec 8 (length dst)) as [Hge|Hlt].
  - replace (length dst + 1 - 8) with 1 by lia. destruct dst as [|x dst]; [cbn in Hge; lia|].
    cbn [tail app drop skipn]. rewrite length_app. cbn in *. by split; [|lia].
  - replace (length dst + 1 - 8) with 0 by lia. rewrite length_app. cbn. by split; [|lia].
Qed.
(** The newest eight of everything pushed. *)
Lemma push_bounded_newest dst items : length dst <= MAX_LLM_IMAGES_PER_ITERATION ->
  push_bounded_images dst items =
  drop (length (dst ++ items) - MAX_LLM_IMAGES_PER_ITERATION) (dst ++ items).
Proof.
  unfold push_bounded_images. revert dst. induction items as [|b items IH]; intros dst H; cbn [foldl].
  - rewrite app_nil_r. replace (length dst - MAX_LLM_IMAGES_PER_ITERATION) with 0 by lia. done.
  - destruct (push_image_last dst b H) as [E Hl]. rewrite IH by done. rewrite E.
    rewrite !length_app, length_drop, length_app. cbn [length].
    set (k := length dst + 1 - MAX_LLM_IMAGES_PER_ITERATION).
    rewrite <- (drop_app_le (dst ++ [b]) items k) by (rewrite length_app; cbn; lia).
    rewrite drop_drop, <- (assoc_L (++)). cbn. f_equal. lia.
Qed.

Lemma stage_attachment_spec acc b : NoDup (omap media_digest acc) ->
  NoDup (omap media_digest (stage_attachment acc b)) /\
  (forall d, d ∈ omap media_digest (stage_attachment acc b) <->
             d ∈ omap media_digest acc \/ media_digest b = Some d) /\
  (exists kept, stage_attachment acc b = acc ++ kept /\ kept `sublist_of` [b] /\
                (media_digest b = None -> kept = [b])).
Proof.
  intros Hn. unfold stage_attachment. destruct (media_digest b) as [d|] eqn:Eb.
  - case_bool_decide as Hd.
    + split_and!; [done | intros x; split; [by left | by intros [|[= <-]]] |].
      exists []. rewrite app_nil_r. split_and!; [done | by constructor | done].
    + rewrite omap_app. cbn. rewrite Eb. split_and!.
      * apply NoDup_app. split_and!; [done | | apply NoDup_singleton]. by intros x Hx ->%list_elem_of_singleton.
      * intros x. rewrite elem_of_app, list_elem_of_singleton. naive_solver.
      * exists [b]. split_and!; [done | by repeat constructor | done].
  - rewrite omap_app. cbn. rewrite Eb, app_nil_r. split_and!; [done | intros x; naive_solver |].
    exists [b]. split_and!; [done | by repeat constructor | done].
Qed.

(** The reply shows each file once.  Folding a tool's attachments into the
    turn's keeps what was staged, in place, adds blocks of the incoming ones in
    their order, and never two with the same content: every digest staged or
    incoming is shown exactly once, and blocks without a digest all ride along. *)
Theorem reply_shows_file_once (acc incoming : list ContentBlock)
    (Hdistinct : NoDup (omap media_digest acc)) :
  let out := extend_unique_attachments acc incoming in
  NoDup (omap media_digest out) /\
  (forall d, d ∈ omap media_digest out <-> d ∈ omap media_digest (acc ++ incoming)) /\
  exists kept, out = acc ++ kept /\ kept `sublist_of` incoming /\
    List.filter (fun b => negb (is_some (media_digest b))) kept =
    List.filter (fun b => negb (is_some (media_digest b))) incoming.
Proof.
  cbv zeta. unfold extend_unique_attachments. revert acc Hdistinct.
  induction incoming as [|b incoming IH]; intros acc Hn; cbn [foldl].
  { rewrite app_nil_r. split_and!; [done | done |]. exists []. by rewrite app_nil_r. }
  destruct (stage_attachment_spec acc b Hn) as (Hn' & Hmem & k1 & E1 & Hs1 & Hnone).
  destruct (IH _ Hn') as (Hnd & Hd & k2 & E2 & Hs2 & Hf). split_and!; [done | |].
  - intros d. rewrite Hd, !omap_app, !elem_of_app, Hmem. cbn.
    destruct (media_digest b) as [x|]; rewrite ?elem_of_cons; naive_solver.
  - exists (k1 ++ k2). rewrite E2, E1, (assoc_L (++)). split_and!; [done | exact (sublist_app _ _ _ _ Hs1 Hs2) |].
    rewrite List.filter_app, Hf. cbn. destruct (media_digest b) eqn:Eb; cbn.
    + assert (List.filter (fun b => negb (is_some (media_digest b))) k1 = []) as ->; [|done].
      apply sublist_cons_r in Hs1 as [Hs1|(? & -> & Hs1)]; apply sublist_nil_r in Hs1; subst; cbn; [done|]. by rewrite Eb.
    + rewrite (Hnone eq_refl). cbn. by rewrite Eb.
Qed.

(** ** A concrete batch: an edit, a read and a subagent *)

Module Sample.
Definition calls : list ToolConcurrency := [Exclusive; Concurrent; Independent].
Definition polled : Batch string := mk_batch [Queued; Queued; Running] [0; 1].
Definition editing : Batch string := mk_batch [Running; Queued; Running] [1].
Lemma polled_steps : nsteps (step (E := string) calls) 3 (start calls) polled.
Proof.
  eapply nsteps_l; [apply (poll_pooled calls (start calls) 0 Exclusive); done |].
  eapply nsteps_l; [apply (poll_pooled calls _ 1 Concurrent); done |].
  eapply nsteps_l; [apply (poll_independent calls _ 2); done | apply nsteps_O].
Qed.
Lemma editing_steps : rtc (step (E := string) calls) (start calls) editing.
Proof.
  eapply rtc_r; [eapply rtc_nsteps_2, polled_steps |].
  eapply (grant calls polled 0 Exclusive [1]); [done | done |]. unfold used, held. cbn. lia.
Qed.
End Sample.

Lemma exclusive_runs_alone_witness :
  used Sample.calls Sample.editing = 10 /\
  forall j d, 0 <> j -> phases Sample.editing !! j = Some Running -> Sample.calls !! j = Some d -> d = Independent.
Proof.
  destruct (exclusive_runs_alone Sample.calls Sample.editing Sample.editing_steps) as [_ H].
  split; [reflexivity|]. intros j d Hj Hr Hd. exact (H 0 j d Hj eq_refl eq_refl Hr Hd).
Defined.

Lemma batch_drains_witness : 3 <= 3 * length Sample.calls /\ exists i, phases Sample.polled !! i = Some Running.
Proof.
  split; [exact (proj1 (batch_drains Sample.calls 3 Sample.polled Sample.polled_steps)) | by exists 2].
Defined.

Lemma reply_shows_file_once_witness :
  let pic := Image {| blob_id := "sha256:aa.t1" |} "image/png" None None None in
  let again := Image {| blob_id := "sha256:aa.t2" |} "image/png" None None None in
  extend_unique_attachments [pic] [again; Text "note"] = [pic; Text "note"] /\
  NoDup (omap media_digest (extend_unique_attachments [pic] [again; Text "note"])).
Proof.
  cbv zeta. split; [vm_compute; reflexivity|].
  apply (reply_shows_file_once [_] [_; Text "note"]). apply NoDup_singleton.
Defined.

End ToolBatch.
