(* ===== verification/Framing.v ===== *)
(** * What the runtime writes for the model
      ([crates/context/src/prompts/])

    The checklist, the observations of no progress, the frames around a cron
    fire, a board issue's brief and a notification's retry, the title pass; and
    how the surfaces that show a fire or a brief take the frame off again. *)

From S2P Require Import Prelude Message ProgressLedger.
Import Message.

Module Framing.

Definition nl : string := newline.
Definition blank_line : string := (newline +:+ newline)%string.

(** ** The checklist ([tasks.rs]) *)

Inductive TaskStatus := TaskPending | TaskInProgress | TaskCompleted.
Record Task := mk_task {
  task_id : string;
  subject : string;
  task_description : string;
  task_status : TaskStatus;
  depends_on : list string;
}.
Definition TASK_LIST_HEADER : string :=
  "Your task list for this session (the user sees this as a live checklist). Keep it accurate with TaskCreate / TaskUpdate: mark a task in_progress when you start it (at most one at a time) and completed the instant it's done. If a task turns out too complex mid-execution, split it into finer sub-tasks with TaskCreate (link prerequisites via depends_on).".
Definition status_marker (s : TaskStatus) : string :=
  match s with TaskPending => "[ ]" | TaskInProgress => "[~]" | TaskCompleted => "[x]" end.
Definition joined_deps (deps : list string) : string :=
  match deps with [] => "" | d :: ds => foldl (fun acc d => acc +:+ ", " +:+ d) d ds end%string.
Definition task_line (t : Task) : string :=
  (status_marker (task_status t) +:+ " " +:+ subject t +:+ " (id=" +:+ task_id t +:+ ")"
   +:+ match depends_on t with [] => "" | deps => " [after: " +:+ joined_deps deps +:+ "]" end +:+ nl)%string.
Definition render_task_list (tasks : list Task) : string :=
  ("<system-reminder>" +:+ nl +:+ TASK_LIST_HEADER +:+ blank_line
   +:+ foldr (fun t acc => task_line t +:+ acc) "" tasks +:+ "</system-reminder>")%string.

(** ** No progress ([no_progress.rs]) *)

Definition PATH_PLACEHOLDER : string := "{{path}}".
Definition COUNT_PLACEHOLDER : string := "{{count}}".
Definition TOOL_PLACEHOLDER : string := "{{tool}}".
Definition STATE_REVISITED : string :=
  "<system-reminder>
You have changed {{path}} {{count}} times in this turn, and the file has just returned to a state it already had earlier in this same turn. Those changes cancelled out: there is no net progress to show for them.

Before touching this file again, do one of these:
- State what NEW information you have that makes the next attempt different from the one you already undid. If you cannot name it, the next attempt will fail the same way.
- Re-check the assumption that started this. A tool error is evidence about one invocation, not proof about the world — re-read the exact error text and check it against how you invoked the tool, not against what you expect the tool to do.
- Stop editing and tell the user: what you were trying to achieve, what you tried, and the verbatim error. A blocked task reported early is worth more than another silent attempt.

If the oscillation is deliberate (a flag toggled on to test and off again), say so in one line and carry on.
</system-reminder>".
Definition ATTEMPT_REPEATED : string :=
  "<system-reminder>
You have just submitted the same change to {{path}} that you already submitted earlier in this turn ({{count}} attempts on this file so far). An identical retry gets an identical result.

If the first attempt was refused or failed, the reason still applies — read what it actually said. If you believe something has changed since, say what. Otherwise stop editing this file and report the blocker to the user.
</system-reminder>".
Definition FUTILE : string :=
  "<system-reminder>
Your last {{count}} attempts to modify {{path}} were all refused or failed, with nothing applied.

Stop and re-read the most recent error verbatim before trying again. If it is a refusal, the user has declined this action and repeating it in another form is not an alternative — find a different approach or tell them what you could not do. If it is an error, fix the cause you can name rather than varying the attempt.
</system-reminder>".
Definition REPEATED_TOOL_FAILURE : string :=
  "<system-reminder>
The {{tool}} tool has returned the same error {{count}} consecutive times in this turn. Changing unrelated arguments without addressing that error is not progress.

Before calling it again, re-read the most recent tool result and name the specific cause the next call changes. If you cannot name one, use a genuinely different approach or tell the user what is blocking the work instead of retrying.
</system-reminder>".

Definition render_file (template path : string) (count : nat) : string :=
  Str.replace COUNT_PLACEHOLDER (pretty count) (Str.replace PATH_PLACEHOLDER path template).
Definition render_repeated_tool_failure (tool : string) (count : nat) : string :=
  Str.replace COUNT_PLACEHOLDER (pretty count) (Str.replace TOOL_PLACEHOLDER tool REPEATED_TOOL_FAILURE).
Definition observation_of (v : ProgressLedger.ProgressVerdict) : string :=
  match v with
  | ProgressLedger.StateRevisited path edits => render_file STATE_REVISITED path edits
  | ProgressLedger.AttemptRepeated path attempts => render_file ATTEMPT_REPEATED path attempts
  | ProgressLedger.Futile path streak => render_file FUTILE path streak
  | ProgressLedger.RepeatedToolFailure tool attempts => render_repeated_tool_failure tool attempts
  end.

(** ** Cron fires ([cron.rs]) *)

(** [str::split_once] on a text. *)
Definition split_once (p s : string) : option (string * string) :=
  (fun i => (Str.take i s, Str.drop (i + String.length p) s)) <$> Str.find p s.

Definition FRAMING_BODY : string :=
  ("The text below was scheduled earlier and is firing automatically right now " +:+ Str.bytes [226; 128; 148]%N
   +:+ " it is NOT a new message the user just sent, so do not respond to it as if the user is speaking to you. Instead, carry out the instruction now and send the result to the user as a fresh, proactive message. The tag above is only for your own diagnostics if you need to look up or manage this job; never repeat that id in your reply to the user.")%string.
Definition INSTRUCTION_LABEL : string := "Scheduled instruction to perform now:".
Definition CRON_TAG_PREFIX : string := "[cron:".
Definition context_paragraph (context : option string) : string :=
  match context with
  | Some c => let c := Str.trim c in if String.eqb c "" then "" else blank_line +:+ c
  | None => ""
  end%string.
Definition frame_cron_prompt_with_context (job_id prompt : string) (context : option string) : string :=
  (CRON_TAG_PREFIX +:+ job_id +:+ "] " +:+ FRAMING_BODY +:+ context_paragraph context +:+ blank_line
   +:+ INSTRUCTION_LABEL +:+ nl +:+ prompt)%string.
Definition frame_cron_prompt (job_id prompt : string) : string :=
  frame_cron_prompt_with_context job_id prompt None.
Definition original_cron_prompt (content : string) : string :=
  match split_once INSTRUCTION_LABEL content with
  | Some (_, rest) => Str.trim_start rest
  | None =>
      match Str.strip_prefix "[" content ≫= Str.split_at_char "]" with
      | Some (_, rest) => Str.trim_start rest
      | None => content
      end
  end.

Definition clock_mark : string := Str.bytes [226; 143; 176]%N.
Definition NOTIFICATION_HEADER_SUCCESS : string :=
  (clock_mark +:+ " Scheduled task " +:+ dquote +:+ "{{title}}" +:+ dquote +:+ " ran:")%string.
Definition NOTIFICATION_HEADER_FAILED : string :=
  (clock_mark +:+ " Scheduled task " +:+ dquote +:+ "{{title}}" +:+ dquote +:+ " failed:")%string.
Definition NOTIFICATION_BLANK_BODY : string := "It ran, but produced no output.".
Definition NOTIFICATION_FAILURE_UNKNOWN : string := "No error detail was recorded.".
Definition frame_cron_notification (title : string) (failed : bool) (body : string) : string :=
  let header := Str.replace "{{title}}" title
                  (if failed then NOTIFICATION_HEADER_FAILED else NOTIFICATION_HEADER_SUCCESS) in
  let body := Str.trim body in
  let body := if negb (String.eqb body "") then body
              else if failed then NOTIFICATION_FAILURE_UNKNOWN else NOTIFICATION_BLANK_BODY in
  (header +:+ blank_line +:+ body)%string.

(** ** Board issues ([issue.rs]) *)

Definition ISSUE_TAG_PREFIX : string := "[issue #".
Definition ISSUE_FRAMING : string :=
  "You are this issue's assignee. This is a project-board task, not a message
from a person; nobody is waiting at a keyboard. Do the work and record what
you changed, found, and anything the operator must decide.

Start from the brief below. It contains the card's description, current
properties, and the new comments included for this run. Call `IssueGet` for
this card only if the brief says history was omitted, you need system events,
or the brief has left context.".
Definition ISSUE_LABEL : string := "The issue:".
Definition CHECKOUT_BODY : string :=
  ("Your checkout for this issue is:

  {{checkout}}

Its branch is already checked out; do not clone the repository again.
Other issues have their own checkouts of the same repository " +:+ Str.bytes [226; 128; 148]%N +:+ " treat
anything outside this one as somebody else's.")%string.
Definition frame_issue_brief (number : Z) (checkout brief : string) : string :=
  (ISSUE_TAG_PREFIX +:+ pretty number +:+ "] " +:+ ISSUE_FRAMING +:+ blank_line
   +:+ Str.replace "{{checkout}}" checkout CHECKOUT_BODY +:+ blank_line +:+ ISSUE_LABEL +:+ nl +:+ brief)%string.
Definition unframe_issue_brief (framed : string) : string :=
  match split_once (nl +:+ ISSUE_LABEL +:+ nl)%string framed with
  | Some (_, ask) => ask
  | None => framed
  end.

(** ** A notification's retry ([background_notification.rs]) *)

Definition RETRY_CUE : string :=
  ("[the user has received only the completion acknowledgement; no complete report for the background results above has reached them yet " +:+ Str.bytes [226; 128; 148]%N
   +:+ " produce the complete report now.]")%string.
Definition build_retry_cue : list ContentBlock := [Text RETRY_CUE].

(** ** The narrator of a long turn ([agent/src/runtime/progress_observer.rs]) *)

Definition PROGRESS_OBSERVER_PROMPT : string :=
  ("You are observing an assistant that is still working on the user's request. In ONE short sentence, in the user's own language, tell the user what has been done so far and what is happening right now " +:+ Str.bytes [226; 128; 148]%N
   +:+ " a brief progress update, not the final answer. Output only that one line: no preamble, no markdown, no quotes.")%string.
Definition PROGRESS_OBSERVER_PRIOR_CONTEXT : string :=
  "You have already sent the user these progress updates earlier in THIS SAME turn (oldest first):
{{prior_notices}}

Do not repeat any of them. Report only what has changed or advanced since the last line. If nothing meaningful has changed yet, say that briefly instead of restating an earlier update.

".
Definition dashed (lines : list string) : string :=
  match lines with [] => "" | l :: ls => foldl (fun acc l => acc +:+ nl +:+ "- " +:+ l) ("- " +:+ l) ls end%string.
Definition build_observer_prompt (prior_notices : list string) : string :=
  match prior_notices with
  | [] => PROGRESS_OBSERVER_PROMPT
  | _ => (Str.replace "{{prior_notices}}" (dashed prior_notices) PROGRESS_OBSERVER_PRIOR_CONTEXT
          +:+ PROGRESS_OBSERVER_PROMPT)%string
  end.
End Framing.
