(* ===== verification/Iteration.v ===== *)
(** * One iteration of the agent loop
      ([crates/agent/src/runtime/agent_loop.rs])

    The model is asked; its reply is the final answer, or a round of tool calls
    whose results go back to it.  This file composes the parts that carry it: the
    scopes that record it, the stream, the executor, the context manager with its
    store, the progress monitor.  The provider, the other tasks of the process
    and the order in which concurrent calls answer belong to the world. *)

From S2P Require Import Prelude Effect Message Wire Turn Lifecycle Approval ApprovalQueue Tokens Compaction.
From S2P Require Import ContextManager SessionLog Hydration PromptUpdate Upkeep ReadTracker ProgressLedger.
From S2P Require Import Framing Streaming Skill ToolRegistry ToolTrace InvokeParams Scope ToolExecutor ToolBatch.
Import Message Effect.

Module Iteration.

(** ** What the user's channel is told ([crates/channels/src/types.rs]) *)

Inductive StatusPhase := Compacting | Compacted.
Inductive NoticeLevel := NoticeInfo | NoticeWarn | NoticeError.
Inductive AgentEvent :=
| AnswerDelta (s : string)
| Reasoning (s : string)
| ToolStarted (call_id tool : string) (label : option string)
| ToolCompleted (call_id : string) (status : ToolBatch.ToolStatus) (summary : string)
    (approval : option ApprovalDecision)
| Status (phase : StatusPhase)
| Notice (level : NoticeLevel) (text : string) (mid_turn : bool)
| Progress (text : string)
| TaskList (tasks : list Framing.Task).
Definition of_delta (d : Streaming.Delta) : AgentEvent :=
  match d with Streaming.AnswerDelta s => AnswerDelta s | Streaming.ReasoningDelta s => Reasoning s end.

(** ** Texts *)

Definition TOOL_RESULT_ERROR_PREFIX : string := "Error:".
Definition TOOL_DENIED_PREFIX : string := "Permission for tool '".
Definition TOOL_DENIED_INFIX : string := "' was denied: ".
Definition TOOL_RESULT_BODY : string :=
  "[the turn was cancelled while this tool call was still running; it may or may not have completed its side effects]".
Definition TASK_MUTATING_TOOL_NAMES : list string := ["TaskCreate"; "TaskUpdate"].
Definition SPAWN_SUBAGENT_TOOL_NAME : string := "spawn_subagent".
Definition BACKGROUND_DISPATCH_ACK_PREFIX : string := "[background subagent dispatched]".
Definition IMAGE_ROW_TEXT : string := "[image attachment(s) returned by the tool call(s) above]".

(** ** The provider *)

(** The client a turn runs on, by the pool's pointer. *)
Record Client := mk_client {
  client_ptr : N;
  model_id : string;
  provider : string;
  context_window : N;
  audio : Tokens.AudioDelivery;
}.
Record Request := mk_request {
  req_messages : list ChatMessage;
  req_tools : list ToolRegistry.ToolDefinition;
  req_effort : option string;
  (** [ToolChoice::None] keeps the tools in the cached prefix and forbids them *)
  req_may_call : bool;
}.
(** What an LLM span is opened with ([crates/trace/src/span.rs]). *)
Record LlmCallBegin := mk_begin {
  begin_model : string;
  begin_provider : string;
  begin_effort : option string;
  begin_input : Hydration.LlmCallInputs;
  begin_tools : option string;
}.

(** What the loop asks of the rest of the process.  A call to the provider is
    raced against the turn's token: [None] when the token wins. *)
Class Provider (W : Type) := {
  chat : Request -> W -> W * option (result Streaming.LlmResponse Streaming.LlmError);
  chat_stream : Request -> W -> W * option (result Streaming.Received Streaming.LlmError);
  record_tool_set : list ToolRegistry.ToolDefinition -> W -> W * result string string;
  marker_reads : W -> W * Hydration.MarkerReads;
  count_taken : W -> W * bool;
  (** the backoff slept out, or the token first *)
  sleep_cut : N -> W -> W * bool;
  (** which of the calls still out answers next; [None] when none is ready *)
  next_answer : list nat -> W -> W * option nat;
  (** what the calls dropped mid-flight had done, and been granted *)
  drop_calls : list nat -> W -> W * list Approval.ApprovedResource;
  tool_registry : W -> ToolRegistry.ToolRegistry;
  approval_gates : W -> ApprovalQueue.ApprovalGateMap;
  (** the session's read tracker, which the tools share *)
  read_tracker : W -> ReadTracker.Inner;
  put_read_tracker : ReadTracker.Inner -> W -> W;
  canonicalize : W -> string -> option string;
}.

(** What the narrator of a long turn has said ([progress_observer.rs]). *)
Record ObserverState := mk_observer {
  last_fired_at : option Z;
  sent_notices : list string;
  in_flight : bool;
}.
(** The tasks the loop lets loose: the title of the conversation, the narration
    of a long turn, the memory of a turn that has ended. *)
Inductive Detached :=
| TitlePass (turn : TurnId) (text : string) (images : list ContentBlock)
| ObserverPass (turn : TurnId) (request : Request) (input : Hydration.LlmCallInputs)
| MemoryWrite (turn : TurnId) (user_input final_output : list ContentBlock).

(** ** The state of the loop *)

Section Loop.
Context {W S V : Type}.

Record Loop := mk_loop {
  session : Hydration.Session;
  anchors : list (string * FileFingerprint);
  exec : ToolExecutor.Exec (V := V);
  monitor : ProgressLedger.TurnProgressMonitor;
  (** [session.state] *)
  approved_resources : list Approval.ApprovedResource;
  cohorts : gmap string N;
  client : Client;
  cue : option ChatMessage;
  turn_counter : N;
  last_task_management_turn : N;
  last_reminder_turn : N;
  title_generation : bool;
  (** locals of the turn *)
  turn_attachments : list ContentBlock;
  failure_reported : bool;
  retriable : bool;
  observer : ObserverState;
  (** everything sent to the channel, every task let loose *)
  sent : list AgentEvent;
  spawned : list Detached;
}.
Definition set_keep (s : Hydration.Session) (a : list (string * FileFingerprint)) (x : Loop) : Loop :=
  mk_loop s a (exec x) (monitor x) (approved_resources x) (cohorts x) (client x) (cue x) (turn_counter x)
    (last_task_management_turn x) (last_reminder_turn x) (title_generation x) (turn_attachments x)
    (failure_reported x) (retriable x) (observer x) (sent x) (spawned x).
Definition set_exec (e : ToolExecutor.Exec (V := V)) (x : Loop) : Loop :=
  mk_loop (session x) (anchors x) e (monitor x) (approved_resources x) (cohorts x) (client x) (cue x)
    (turn_counter x) (last_task_management_turn x) (last_reminder_turn x) (title_generation x)
    (turn_attachments x) (failure_reported x) (retriable x) (observer x) (sent x) (spawned x).
Definition set_monitor (m : ProgressLedger.TurnProgressMonitor) (x : Loop) : Loop :=
  mk_loop (session x) (anchors x) (exec x) m (approved_resources x) (cohorts x) (client x) (cue x)
    (turn_counter x) (last_task_management_turn x) (last_reminder_turn x) (title_generation x)
    (turn_attachments x) (failure_reported x) (retriable x) (observer x) (sent x) (spawned x).
Definition set_approved (l : list Approval.ApprovedResource) (x : Loop) : Loop :=
  mk_loop (session x) (anchors x) (exec x) (monitor x) l (cohorts x) (client x) (cue x) (turn_counter x)
    (last_task_management_turn x) (last_reminder_turn x) (title_generation x) (turn_attachments x)
    (failure_reported x) (retriable x) (observer x) (sent x) (spawned x).
Definition set_cohorts (m : gmap string N) (x : Loop) : Loop :=
  mk_loop (session x) (anchors x) (exec x) (monitor x) (approved_resources x) m (client x) (cue x)
    (turn_counter x) (last_task_management_turn x) (last_reminder_turn x) (title_generation x)
    (turn_attachments x) (failure_reported x) (retriable x) (observer x) (sent x) (spawned x).
Definition set_client (c : Client) (x : Loop) : Loop :=
  mk_loop (session x) (anchors x) (exec x) (monitor x) (approved_resources x) (cohorts x) c (cue x)
    (turn_counter x) (last_task_management_turn x) (last_reminder_turn x) (title_generation x)
    (turn_attachments x) (failure_reported x) (retriable x) (observer x) (sent x) (spawned x).
Definition set_cue (c : option ChatMessage) (x : Loop) : Loop :=
  mk_loop (session x) (anchors x) (exec x) (monitor x) (approved_resources x) (cohorts x) (client x) c
    (turn_counter x) (last_task_management_turn x) (last_reminder_turn x) (title_generation x)
    (turn_attachments x) (failure_reported x) (retriable x) (observer x) (sent x) (spawned x).
Definition set_counters (turn managed reminded : N) (x : Loop) : Loop :=
  mk_loop (session x) (anchors x) (exec x) (monitor x) (approved_resources x) (cohorts x) (client x) (cue x)
    turn managed reminded (title_generation x) (turn_attachments x) (failure_reported x) (retriable x)
    (observer x) (sent x) (spawned x).
Definition set_title_generation (b : bool) (x : Loop) : Loop :=
  mk_loop (session x) (anchors x) (exec x) (monitor x) (approved_resources x) (cohorts x) (client x) (cue x)
    (turn_counter x) (last_task_management_turn x) (last_reminder_turn x) b (turn_attachments x)
    (failure_reported x) (retriable x) (observer x) (sent x) (spawned x).
Definition set_attachments (l : list ContentBlock) (x : Loop) : Loop :=
  mk_loop (session x) (anchors x) (exec x) (monitor x) (approved_resources x) (cohorts x) (client x) (cue x)
    (turn_counter x) (last_task_management_turn x) (last_reminder_turn x) (title_generation x) l
    (failure_reported x) (retriable x) (observer x) (sent x) (spawned x).
Definition set_failure_reported (b : bool) (x : Loop) : Loop :=
  mk_loop (session x) (anchors x) (exec x) (monitor x) (approved_resources x) (cohorts x) (client x) (cue x)
    (turn_counter x) (last_task_management_turn x) (last_reminder_turn x) (title_generation x)
    (turn_attachments x) b (retriable x) (observer x) (sent x) (spawned x).
Definition set_retriable (b : bool) (x : Loop) : Loop :=
  mk_loop (session x) (anchors x) (exec x) (monitor x) (approved_resources x) (cohorts x) (client x) (cue x)
    (turn_counter x) (last_task_management_turn x) (last_reminder_turn x) (title_generation x)
    (turn_attachments x) (failure_reported x) b (observer x) (sent x) (spawned x).
Definition set_observer (o : ObserverState) (x : Loop) : Loop :=
  mk_loop (session x) (anchors x) (exec x) (monitor x) (approved_resources x) (cohorts x) (client x) (cue x)
    (turn_counter x) (last_task_management_turn x) (last_reminder_turn x) (title_generation x)
    (turn_attachments x) (failure_reported x) (retriable x) o (sent x) (spawned x).
Definition push_sent (l : list AgentEvent) (x : Loop) : Loop :=
  mk_loop (session x) (anchors x) (exec x) (monitor x) (approved_resources x) (cohorts x) (client x) (cue x)
    (turn_counter x) (last_task_management_turn x) (last_reminder_turn x) (title_generation x)
    (turn_attachments x) (failure_reported x) (retriable x) (observer x) (sent x ++ l) (spawned x).
Definition push_spawned (d : Detached) (x : Loop) : Loop :=
  mk_loop (session x) (anchors x) (exec x) (monitor x) (approved_resources x) (cohorts x) (client x) (cue x)
    (turn_counter x) (last_task_management_turn x) (last_reminder_turn x) (title_generation x)
    (turn_attachments x) (failure_reported x) (retriable x) (observer x) (sent x) (spawned x ++ [d]).

Context {T : Tokens.Tokenizer} {C : SessionLog.Chrono} {O : Upkeep.World W} {A : Scope.Ambient W}.
Context {St : Lifecycle.TurnStore S} {Cd : Turn.TurnCodec} {Ho : ToolExecutor.Host (W := W)}.
Context {Sc : InvokeParams.JsonSchema V} {G : Streaming.Gateway W} {P : Provider W}.
Context (turn_error_text : Turn.TurnError -> string) (json_text : json -> string)
  (media_json : ContentBlock -> json) (hash_of : string -> Z)
  (effective_effort : option string -> option string).

(** The session the loop serves: who calls, the tools it is allowed, its pinned
    effort; whether the turn streams, and the token that stops it. *)
Context (caller : ToolExecutor.Caller) (allowlist : option (list string)) (initial_effort : option string).
Context (streaming : bool) (token : N).

Abbreviation RT := (Scope.Runtime W S LlmCallBegin Loop).
Definition LM (U : Type) : Type := Scope.RM (W := W) (S := S) (B := LlmCallBegin) (X := Loop) U.

Definition on_loop (f : Loop -> Loop) : LM unit := modify (fun r => Scope.set_inside (f (Scope.inside r)) r).
Definition of_loop {U} (f : Loop -> U) : LM U := gets (fun r => f (Scope.inside r)).
Definition of_world {U} (f : W -> U) : LM U := gets (fun r => f (Scope.outside r)).
Definition of_manager {U} (f : ContextManager.ContextManager -> U) : LM U :=
  of_loop (fun x => f (Hydration.manager (session x))).
Definition stopped : LM bool := gets (Scope.is_cancelled token).

(** The context manager and its store, as [Upkeep] has them. *)
Definition on_keep {U} (m : Upkeep.KM (W := W) U) : LM U := fun r =>
  let x := Scope.inside r in
  let (k, a) := m (Upkeep.mk_keep (Scope.outside r) (session x) (anchors x)) in
  (Scope.set_outside (Upkeep.world k)
     (Scope.set_inside (set_keep (Upkeep.session k) (Upkeep.pending_prompt_anchors k) x) r),
   match a with Ok a => Ok a | Err e => Err (Scope.FromContext e) end).
Definition on_manager (f : ContextManager.ContextManager -> ContextManager.ContextManager) : LM unit :=
  on_keep (Upkeep.on_manager f).
Definition append (m : ChatMessage) : LM Z := on_keep (Upkeep.append m).
(** The executor's part of the state. *)
Definition on_executor {U} (m : ToolExecutor.EM (W := W) (S := S) (B := LlmCallBegin) (V := V) U) : LM U := fun r =>
  let x := Scope.inside r in
  let (r', a) := m (Scope.mk_runtime (Scope.outside r) (Scope.turns r) (Scope.trace r) (exec x)) in
  (Scope.mk_runtime (Scope.outside r') (Scope.turns r') (Scope.trace r') (set_exec (Scope.inside r') x), a).

(** *** The channel *)

Definition emit_event (e : AgentEvent) : LM unit := when streaming (on_loop (push_sent [e])).
Definition emit_tool_started (call_id tool : string) (raw_label : option string) : LM unit :=
  when streaming
    (let* label := match raw_label with
                   | Some l => Scope.ask (Streaming.sanitize_stream_fragment l)
                   | None => ret None
                   end in
     emit_event (ToolStarted call_id tool label)).
Definition emit_tool_completed (call_id : string) (status : ToolBatch.ToolStatus) (raw_summary : string)
    (approval : option ApprovalDecision) : LM unit :=
  when streaming
    (let* summary := Scope.ask (Streaming.sanitize_stream_fragment raw_summary) in
     emit_event (ToolCompleted call_id status (default "" summary) approval))%string.

(** ** Calling the model *)

Definition session_tool_defs : LM (list ToolRegistry.ToolDefinition) :=
  of_world (fun w => ToolRegistry.tool_definitions_for_session (ToolExecutor.c_channel caller)
                       (ToolExecutor.c_trigger caller) allowlist (tool_registry w)).
Definition request_messages : LM (list ChatMessage) :=
  of_loop (fun x =>
    let c := Hydration.manager (session x) in
    Wire.messages_for_llm (ContextManager.messages c) (ContextManager.transient_tail c (cue x))).
Definition build_call_input_marker : LM Hydration.LlmCallInputs :=
  let* reads := Scope.ask marker_reads in
  of_loop (fun x => Hydration.build_call_input_marker reads (cue x)
                      (SessionLog.log (Hydration.store (session x))) (Hydration.manager (session x))).
Definition record_call_actual (n : N) : LM unit :=
  let* taken := Scope.ask count_taken in
  on_loop (fun x =>
    let (s, c) := Hydration.record_call_actual_durably taken n (Hydration.store (session x))
                    (Hydration.manager (session x)) in
    set_keep (Hydration.mk_session s c) (anchors x) x).

(** The provider's answer with what is billed for it.  A token that has tripped
    before the call keeps the request from going out. *)
Definition provider_call (request : Request)
    : LM (Streaming.TokenUsage * result Streaming.LlmResponse Streaming.LlmError) :=
  let nothing := (Streaming.no_usage, Ok Streaming.empty_llm_response) in
  let* late := stopped in
  if late then ret nothing
  else
    let* _ := Scope.note (Scope.Requested (req_messages request)) in
    if streaming then
      let* opened := Scope.ask (chat_stream request) in
      match opened with
      | None => ret nothing
      | Some (Err e) => ret (Streaming.no_usage, Err e)
      | Some (Ok received) =>
          let* answer := Scope.ask (fun w =>
            let '(s, answer) := Streaming.chat_streaming received w in
            (Streaming.outside s, (Streaming.sent s, answer))) in
          let* _ := on_loop (push_sent (map of_delta answer.1)) in
          ret answer.2
      end
    else
      let* answered := Scope.ask (chat request) in
      ret match answered with
          | None => nothing
          | Some (Ok response) => (Streaming.usage response, Ok response)
          | Some (Err e) => (Streaming.no_usage, Err e)
          end.

Definition call_records (r : Streaming.LlmResponse) : list Scope.LlmToolCallRecord :=
  map (fun c => Scope.mk_call_record (Streaming.call_id c) (Streaming.call_name c) (Streaming.call_arguments c))
    (Streaming.tool_calls r).
Definition call_result (r : Streaming.LlmResponse) (u : Streaming.TokenUsage) : Scope.LlmCallResult :=
  Scope.mk_call_result (Streaming.resp_content r) (Streaming.thinking r) (call_records r) u.
Definition failed_result (u : Streaming.TokenUsage) : Scope.LlmCallResult := Scope.mk_call_result "" None [] u.

(** What the span closes with and what the caller gets. *)
Definition call_body (request : Request) : LM (Scope.LlmCallResult * result Streaming.LlmResponse Scope.Error) :=
  let* answer := provider_call request in
  let (partial_usage, llm_result) := answer in
  let* cancelled := stopped in
  if cancelled then
    match llm_result with
    | Ok response =>
        let* response := Scope.ask (Streaming.sanitize_llm_response response) in
        ret (call_result response partial_usage,
             Err (Scope.CancelledTurn (Streaming.salvage_partial_blocks response)))
    | Err _ => ret (failed_result partial_usage, Err (Scope.CancelledTurn []))
    end
  else
    let* settled := match llm_result with
                    | Ok response =>
                        let* response := Scope.ask (Streaming.sanitize_llm_response response) in
                        let response := Streaming.trim_response_text_edges response in
                        ret (call_result response (Streaming.usage response), Ok response)
                    | Err e => ret (failed_result partial_usage, Err (Scope.Llm e))
                    end in
    let* _ := record_call_actual (Streaming.input_tokens (Scope.call_usage (settled.1))) in
    ret settled.

Definition call_llm : LM Streaming.LlmResponse :=
  let* c := of_loop client in
  let* tool_defs := session_tool_defs in
  let* ms := request_messages in
  let request := mk_request ms tool_defs initial_effort true in
  let* input_messages := build_call_input_marker in
  let* recorded := Scope.ask (record_tool_set tool_defs) in
  let tools := match recorded with Ok reference => Some reference | Err _ => None end in
  Scope.with_llm_span turn_error_text
    (mk_begin (model_id c) (provider c) (effective_effort initial_effort) input_messages tools) (Some token)
    (fun r => match call_body request r with
              | (r, Ok settled) => (r, settled)
              | (r, Err e) => (r, (Scope.no_result, Err e))
              end).

(** *** Again after a transient error ([error_recovery.rs]) *)

Definition should_retry (h : Streaming.ErrorHandler) (attempt : N) (e : Scope.Error) : bool :=
  if (Streaming.max_retries h <=? attempt)%N then false
  else match e with
       | Scope.Llm e => Streaming.is_retriable e
       | Scope.Io _ => true
       | _ => false
       end.
Fixpoint retry_loop (fuel : nat) (n : N) : LM Streaming.LlmResponse :=
  let h := Streaming.default_handler in
  match fuel with
  | 0 => throw (Scope.Anyhow "out of fuel")
  | Datatypes.S fuel =>
      let* answer := attempt call_llm in
      match answer with
      | Ok response => ret response
      | Err e =>
          let* cancelled := stopped in
          if cancelled then throw e
          else if negb (should_retry h n e) then throw e
          else
            let* cut := Scope.ask (sleep_cut (Streaming.backoff_duration h n)) in
            if cut : bool then throw e else retry_loop fuel (n + 1)%N
      end
  end.
(** The handler gives up at its own count, before the fuel runs out. *)
Definition call_llm_with_retry : LM Streaming.LlmResponse :=
  retry_loop (Datatypes.S (N.to_nat (Streaming.max_retries Streaming.default_handler))) 0.
Definition persist_cancelled_partial (e : Scope.Error) : LM Scope.Error :=
  match e with
  | Scope.CancelledTurn (b :: partial) =>
      let* stored := attempt (append (assistant (b :: partial))) in
      ret match stored with
          | Ok _ => e
          | Err err => Scope.WithContext ("failed to persist cancellation-safe partial response: "
                                          +:+ Scope.error_text turn_error_text err)%string e
          end
  | _ => ret e
  end.
(** ** A round of tool calls *)

Definition resolve_call (r : ToolRegistry.ToolRegistry) (c : Streaming.ToolCallInfo)
    : string * ToolRegistry.DispatchedToolCall :=
  (Streaming.call_id c, ToolRegistry.resolve (Streaming.call_name c) (Streaming.call_arguments c) r).
Definition on_tracker (f : ReadTracker.Inner -> ReadTracker.Inner) : LM unit :=
  Scope.ask (fun w => (put_read_tracker (f (read_tracker w)) w, tt)).
(** Reads of the response before are promoted, and so are the files the prompt
    carried verbatim, before this response's calls run. *)
Definition promote_reads : LM unit :=
  let* _ := on_tracker ReadTracker.begin_response in
  let* delivered := on_keep Upkeep.take_prompt_anchors in
  each (fun x : string * FileFingerprint =>
    let* canon := of_world canonicalize in
    on_tracker (ReadTracker.record_prompt_delivered canon x.1 x.2)) delivered.

Definition execute_call (id : string) (d : ToolRegistry.DispatchedToolCall) : LM ToolExecutor.ExecutedTool :=
  let* registry := of_world tool_registry in
  let* gates := of_world approval_gates in
  on_executor (ToolExecutor.execute turn_error_text json_text media_json registry gates caller
                 (ToolRegistry.dc_name d) (ToolRegistry.dc_arguments d) id token (ToolRegistry.via_invoke d)).

Abbreviation Results := (gmap nat ToolExecutor.ExecutedTool).
(** Calls answer one after the other, in the order the world picks; those still
    out when the token trips and none is ready are dropped. *)
Fixpoint drain (fuel : nat) (calls : list (string * ToolRegistry.DispatchedToolCall)) (rest : list nat)
    (results : Results) : LM (Results * bool) :=
  match fuel, rest with
  | Datatypes.S fuel, first :: _ =>
      let* next := Scope.ask (next_answer rest) in
      let* cancelled := stopped in
      match next, cancelled with
      | None, true =>
          let* more := Scope.ask (drop_calls rest) in
          let* _ := on_loop (fun x =>
            set_exec (ToolExecutor.set_grants (ToolExecutor.grants (exec x) ++ more) (exec x)) x) in
          ret (results, true)
      | _, _ =>
          let i := match next with Some i => if bool_decide (i ∈ rest) then i else first | None => first end in
          match calls !! i with
          | Some (id, d) =>
              let* executed := execute_call id d in
              drain fuel calls (List.filter (fun j => negb (Nat.eqb i j)) rest) (<[i := executed]> results)
          | None => ret (results, false)
          end
      end
  | _, _ => ret (results, false)
  end.
Definition run_batch (calls : list (string * ToolRegistry.DispatchedToolCall)) : LM (Results * bool) :=
  let* _ := on_loop (fun x => set_exec (ToolExecutor.set_grants (approved_resources x) (exec x)) x) in
  drain (length calls) calls (seq 0 (length calls)) ∅.

(** *** What a call leaves *)

Definition cohort_key (turn_id : TurnId) (group : string) : string :=
  (pretty turn_id +:+ "::" +:+ group)%string.
Definition register_group_member (turn_id : TurnId) (group : string) (m : gmap string N) : gmap string N :=
  let key := cohort_key turn_id group in <[key := (default 0 (m !! key) + 1)%N]> m.
(** Only a spawn that was dispatched counts into its cohort. *)
Definition spawned_group (d : ToolRegistry.DispatchedToolCall) (output : result ProgressLedger.ToolOutput Scope.Error)
    : option string :=
  if String.eqb (ToolRegistry.dc_name d) SPAWN_SUBAGENT_TOOL_NAME then
    match output with
    | Ok (ProgressLedger.OutText t) =>
        if Str.starts_with BACKGROUND_DISPATCH_ACK_PREFIX t then
          match Str.trim <$> Json.get_str (ToolRegistry.dc_arguments d) "group" with
          | Some g => if String.eqb g "" then None else Some g
          | None => None
          end
        else None
    | _ => None
    end
  else None.

Definition error_text : Scope.Error -> string := Scope.error_text turn_error_text.
Definition raw_result_text (d : ToolRegistry.DispatchedToolCall)
    (output : result ProgressLedger.ToolOutput Scope.Error) : string :=
  match output with
  | Ok (ProgressLedger.OutText s) => s
  | Ok (ProgressLedger.OutJson v) => json_text v
  | Ok (ProgressLedger.WithAttachments text _) | Ok (ProgressLedger.MultiModalText text _) => text
  | Ok (ProgressLedger.OutError msg) => TOOL_RESULT_ERROR_PREFIX +:+ " " +:+ msg
  | Err (Scope.Denied _ reason) =>
      TOOL_DENIED_PREFIX +:+ ToolRegistry.dc_name d +:+ TOOL_DENIED_INFIX +:+ reason
      +:+ ". Do NOT retry this tool call. Either use an alternative approach or inform the user that the operation was skipped."
  | Err e => TOOL_RESULT_ERROR_PREFIX +:+ " " +:+ error_text e
  end%string.
Definition staged_media (output : result ProgressLedger.ToolOutput Scope.Error) : list ContentBlock :=
  match output with Ok (ProgressLedger.WithAttachments _ attachments) => attachments | _ => [] end.
Definition model_images (output : result ProgressLedger.ToolOutput Scope.Error) : list ContentBlock :=
  match output with Ok (ProgressLedger.MultiModalText _ images) => images | _ => [] end.
Definition monitored (output : result ProgressLedger.ToolOutput Scope.Error) : ProgressLedger.CallOutput :=
  match output with Ok o => Ok o | Err e => Err (error_text e) end.

Definition fingerprint_of (names : list string) (d : ToolRegistry.DispatchedToolCall) (w : W)
    : option FileFingerprint :=
  if bool_decide (ToolRegistry.dc_name d ∈ names) then
    Json.get_str (ToolRegistry.dc_arguments d) Upkeep.TOOL_FILE_PATH_ARG
      ≫= fun p => ReadTracker.get (canonicalize w) p (read_tracker w)
  else None.
Definition result_meta (d : ToolRegistry.DispatchedToolCall) (x : ToolExecutor.ExecutedTool) (w : W)
    : option ToolResultMeta :=
  let read := fingerprint_of ReadTracker.READ_TRACKER_ANCHORING_TOOLS d w in
  let wrote := if ProgressLedger.tool_call_succeeded (monitored (ToolExecutor.executed_output x))
               then fingerprint_of ReadTracker.FILE_WRITING_TOOLS d w else None in
  if is_some read || is_some wrote || is_some (ToolExecutor.executed_approval x)
  then Some {| read_fingerprint := read; write_fingerprint := wrote; approval := ToolExecutor.executed_approval x |}
  else None.

Definition note_no_progress (v : ProgressLedger.ProgressVerdict) : LM unit :=
  on_manager (ContextManager.set_progress_observation (Some (Framing.observation_of v))).
Definition watch_progress (d : ToolRegistry.DispatchedToolCall) (x : ToolExecutor.ExecutedTool) : LM unit :=
  let* m := of_loop monitor in
  let (m, verdict) := ProgressLedger.record hash_of (ToolRegistry.dc_name d) (ToolRegistry.dc_arguments d)
                        (monitored (ToolExecutor.executed_output x)) m in
  let* _ := on_loop (set_monitor m) in
  match verdict with Some v => note_no_progress v | None => ret tt end.

(** The result row of a call, in the order the calls were declared. *)
Definition settle_result (turn_id : TurnId) (images : list ContentBlock)
    (id : string) (d : ToolRegistry.DispatchedToolCall) (executed : option ToolExecutor.ExecutedTool)
    : LM (list ContentBlock) :=
  match executed with
  | None =>
      let* _ := emit_tool_completed id ToolBatch.StatusError "cancelled" None in
      let* _ := append (tool_result_with_meta id
                          (wrap_tool_output (ToolRegistry.dc_name d) TOOL_RESULT_BODY []) None) in
      ret images
  | Some x =>
      let (status, summary) := ToolBatch.tool_completion_summary error_text x in
      let* _ := emit_tool_completed id status summary (ToolExecutor.executed_approval x) in
      let output := ToolExecutor.executed_output x in
      let* _ := match spawned_group d output with
                | Some g => on_loop (fun x => set_cohorts (register_group_member turn_id g (cohorts x)) x)
                | None => ret tt
                end in
      let* _ := on_loop (fun x =>
        set_attachments (ToolBatch.extend_unique_attachments (turn_attachments x) (staged_media output)) x) in
      let images := ToolBatch.push_bounded_images images (model_images output) in
      let* capped := on_keep (Upkeep.cap_tool_output (raw_result_text d output)) in
      let wrapped := wrap_tool_output (ToolRegistry.dc_name d) capped (Streaming.detect_injection capped) in
      let* meta := of_world (result_meta d x) in
      let* _ := watch_progress d x in
      let* _ := append (tool_result_with_meta id wrapped meta) in
      ret images
  end.
Fixpoint settle_results (turn_id : TurnId) (images : list ContentBlock) (results : Results) (i : nat)
    (calls : list (string * ToolRegistry.DispatchedToolCall)) : LM (list ContentBlock) :=
  match calls with
  | [] => ret images
  | (id, d) :: calls =>
      let* images := settle_result turn_id images id d (results !! i) in
      settle_results turn_id images results (Datatypes.S i) calls
  end.

Record OutgoingMessage := mk_outgoing { out_content : list ContentBlock; out_ordinal : option Z }.
Inductive IterationOutcome :=
| Final (outgoing : OutgoingMessage)
| Continue (task_mutated : bool).

Definition tool_use_block (c : Streaming.ToolCallInfo) : ContentBlock :=
  ToolUse (Streaming.call_id c) (Streaming.call_name c) (Streaming.call_arguments c) (Streaming.call_signature c).
(** The row of a response that asks for tools. *)
Definition calling_blocks (r : Streaming.LlmResponse) : list ContentBlock :=
  match Streaming.content_blocks r with
  | [] => if String.eqb (Streaming.resp_content r) "" then [] else [Text (Streaming.resp_content r)]
  | bs => bs
  end ++ map tool_use_block (Streaming.tool_calls r).
Definition final_blocks (r : Streaming.LlmResponse) : list ContentBlock :=
  match Streaming.content_blocks r with [] => [Text (Streaming.resp_content r)] | bs => bs end.
Definition mutates_tasks (calls : list (string * ToolRegistry.DispatchedToolCall)) : bool :=
  existsb (fun c => bool_decide (ToolRegistry.dc_name c.2 ∈ TASK_MUTATING_TOOL_NAMES)) calls.

Definition final_answer (response : Streaming.LlmResponse) : LM IterationOutcome :=
  let* media := of_loop turn_attachments in
  let* _ := on_loop (set_attachments []) in
  let blocks := final_blocks response ++ media in
  let* ordinal := append (assistant blocks) in
  ret (Final (mk_outgoing blocks (Some ordinal))).
Definition tool_round (turn_id : TurnId) (response : Streaming.LlmResponse) : LM IterationOutcome :=
  let* _ := append (assistant (calling_blocks response)) in
  let* registry := of_world tool_registry in
  let calls := map (resolve_call registry) (Streaming.tool_calls response) in
  let* _ := each (fun c : string * ToolRegistry.DispatchedToolCall =>
              emit_tool_started c.1 (ToolRegistry.dc_name c.2)
                (ToolRegistry.progress_label (ToolRegistry.dc_name c.2) (ToolRegistry.dc_arguments c.2) registry))
              calls in
  let* _ := promote_reads in
  let* batch := run_batch calls in
  let (results, cancelled_mid_batch) := batch in
  let* images := settle_results turn_id [] results 0 calls in
  let* _ := match images with
            | [] => ret tt
            | _ => let* _ := append (agent_context (Text IMAGE_ROW_TEXT :: images)) in ret tt
            end in
  let* _ := on_loop (fun x => set_approved (ToolExecutor.grants (exec x)) x) in
  if cancelled_mid_batch : bool then throw (Scope.Anyhow "turn cancelled during tool execution")
  else ret (Continue (mutates_tasks calls)).

Definition run_iteration (turn_id : TurnId) : LM IterationOutcome :=
  let* answer := attempt call_llm_with_retry in
  match answer with
  | Err e => let* e := persist_cancelled_partial e in throw e
  | Ok response =>
      let* _ := on_manager (ContextManager.set_progress_observation None) in
      match Streaming.tool_calls response with
      | [] => final_answer response
      | _ =>
          let* cancelled := stopped in
          if cancelled then
            let* e := persist_cancelled_partial
                        (Scope.CancelledTurn (Streaming.salvage_partial_blocks response)) in
            throw e
          else tool_round turn_id response
      end
  end.

(** ** What an iteration leaves in the conversation

    The window the model is shown and the active rows of the log, which the
    other steps of an iteration leave alone. *)

Definition window (r : RT) : list ChatMessage := ContextManager.messages (Hydration.manager (session (Scope.inside r))).
Definition active (r : RT) : list SessionLog.ActiveMessageRow :=
  SessionLog.load_active_session_message_rows (SessionLog.log (Hydration.store (session (Scope.inside r)))).
Definition seen (r : RT) : list ChatMessage * list SessionLog.ActiveMessageRow := (window r, active r).

(** [m] appends rows, to the window and to the log alike, which with its result
    satisfy [Q]. *)
Definition adds {U} (m : LM U) (Q : result U Scope.Error -> list SessionLog.ActiveMessageRow -> Prop) : Prop :=
  forall r, exists rows,
    seen (m r).1 = (window r ++ map SessionLog.row_message rows, active r ++ rows) /\ Q (m r).2 rows.
Definition quiet {U} (m : LM U) : Prop := forall p, keeps (fun r => seen r = p) m.

Lemma adds_mono {U} (m : LM U) (Q R : result U Scope.Error -> list SessionLog.ActiveMessageRow -> Prop) :
  adds m Q -> (forall a rows, Q a rows -> R a rows) -> adds m R.
Proof. intros H HQ r. destruct (H r) as (rows & E & Hr). exists rows. auto. Qed.
Lemma adds_bind {U U'} (m : LM U) (k : U -> LM U') (Q : result U Scope.Error -> list SessionLog.ActiveMessageRow -> Prop)
    (R : result U' Scope.Error -> list SessionLog.ActiveMessageRow -> Prop) :
  adds m Q -> (forall e rows, Q (Err e) rows -> R (Err e) rows) ->
  (forall a rows, Q (Ok a) rows -> adds (k a) (fun b more => R b (rows ++ more))) ->
  adds (bind m k) R.
Proof.
  intros Hm He Hk r. unfold bind. destruct (Hm r) as (rows & E & Hr). destruct (m r) as [r1 [a|e]]; cbn in *;
    [|exists rows; auto].
  destruct (Hk a rows Hr r1) as (more & E' & Hr'). exists (rows ++ more). split; [|done].
  rewrite E'. injection E as -> ->. by rewrite map_app, !(assoc_L (++)).
Qed.
Lemma adds_quiet {U} (m : LM U) : quiet m -> adds m (fun _ rows => rows = []).
Proof.
  intros H r. exists []. rewrite !app_nil_r. split; [|done]. exact (H (seen r) r eq_refl).
Qed.
Lemma adds_after {U U'} (m : LM U) (k : U -> LM U') (R : result U' Scope.Error -> list SessionLog.ActiveMessageRow -> Prop) :
  quiet m -> (forall e, R (Err e) []) -> (forall a, adds (k a) R) -> adds (bind m k) R.
Proof.
  intros Hm He Hk. eapply adds_bind; [by apply adds_quiet | by intros e _ -> |].
  intros a _ ->. exact (Hk a).
Qed.
Lemma adds_ret {U} (a : U) R : R (Ok a) [] -> adds (ret a) R.
Proof. intros H r. exists []. by rewrite !app_nil_r. Qed.
Lemma adds_throw {U} e R : R (Err e) [] -> adds (throw (A := U) e) R.
Proof. intros H r. exists []. by rewrite !app_nil_r. Qed.

(** *** Steps that append nothing *)

Lemma quiet_gets {U} (f : RT -> U) : quiet (gets f).
Proof. intros p. apply keeps_gets. Qed.
Lemma quiet_ask {U} (f : W -> W * U) : quiet (Scope.ask f).
Proof. intros p. apply keeps_draw. intros r <-. by destruct (f (Scope.outside r)). Qed.
Lemma quiet_note e : quiet (Scope.note e).
Proof. intros p. by apply keeps_modify. Qed.
Lemma quiet_on_loop f : (forall x, session (f x) = session x) -> quiet (on_loop f).
Proof. intros H p. apply keeps_modify. intros r <-. unfold seen, window, active. cbn. by rewrite H. Qed.
Lemma quiet_on_executor {U} (m : ToolExecutor.EM (W := W) (S := S) (B := LlmCallBegin) (V := V) U) :
  quiet (on_executor m).
Proof. intros p r <-. unfold on_executor. by destruct (m _). Qed.
Lemma quiet_on_keep {U} (m : Upkeep.KM (W := W) U) : (forall k, Upkeep.session (m k).1 = Upkeep.session k) ->
  quiet (on_keep m).
Proof.
  intros H p r <-. unfold on_keep. set (k := Upkeep.mk_keep _ _ _). specialize (H k).
  destruct (m k) as [k' a]. unfold seen, window, active. cbn in *. by rewrite H.
Qed.
Lemma quiet_on_manager f : (forall c, ContextManager.messages (f c) = ContextManager.messages c) ->
  quiet (on_manager f).
Proof.
  intros H p r <-. unfold on_manager, on_keep, Upkeep.on_manager, modify, seen, window, active. cbn. by rewrite H.
Qed.

Lemma quiet_record_call_actual n : quiet (record_call_actual n).
Proof.
  intros p. apply keeps_bind; [apply quiet_ask | intros taken]. apply keeps_modify. intros r <-.
  unfold seen, window, active, Hydration.record_call_actual_durably, ContextManager.record_call_actual. cbn.
  destruct (n =? 0)%N; [done|]. destruct (ContextManager.current_model _); [|done].
  destruct (_ && taken); [|done]. unfold SessionLog.record_token_anchor.
  by destruct (SessionLog.latest_session_ordinal _).
Qed.
Lemma quiet_llm_span {U} b cancel (body : RT -> RT * (Scope.LlmCallResult * result U Scope.Error)) :
  quiet (draw body) -> quiet (Scope.with_llm_span turn_error_text b cancel body).
Proof.
  intros Hb p. unfold Scope.with_llm_span, Scope.begin.
  apply keeps_bind; [apply keeps_bind; [apply quiet_ask|] | intros _].
  { intros [|]; [apply quiet_note | apply keeps_throw]. }
  apply keeps_bind; [apply Hb | intros [f v]].
  apply keeps_bind; [destruct v; [apply keeps_ret | apply keeps_gets] | intros o].
  apply keeps_bind; [apply quiet_note | intros _; apply keeps_of_result].
Qed.
(** A body that returns no error is the draw of its value. *)
Lemma quiet_drawn {U} (m : LM U) (d : Scope.Error -> U) : quiet m ->
  quiet (draw (fun r => match m r with (r, Ok a) => (r, a) | (r, Err e) => (r, d e) end)).
Proof. intros Hm p r Hr. specialize (Hm p r Hr). unfold draw. by destruct (m r) as [r' [|]]. Qed.

Ltac quiet := repeat first
  [ apply quiet_ask | apply quiet_note | by apply quiet_on_loop | apply quiet_on_executor
  | apply quiet_record_call_actual | apply quiet_gets | keeps_step | progress case_match | progress cbn beta ].

Lemma quiet_call_body request : quiet (call_body request).
Proof. unfold call_body, provider_call, stopped, on_loop. intros p. quiet. Qed.
Lemma quiet_call_llm : quiet call_llm.
Proof.
  intros p. unfold call_llm, session_tool_defs, request_messages, build_call_input_marker, of_loop, of_world.
  do 3 (apply keeps_bind; [apply keeps_gets | intros ?]). apply keeps_bind; [quiet | intros ?].
  apply keeps_bind; [apply quiet_ask | intros ?].
  apply quiet_llm_span. intros q. apply (quiet_drawn (call_body _)), quiet_call_body.
Qed.
Lemma quiet_retry fuel n : quiet (retry_loop fuel n).
Proof.
  revert n. induction fuel as [|fuel IH]; intros n p; cbn [retry_loop]; [apply keeps_throw|].
  apply keeps_bind; [apply keeps_attempt, quiet_call_llm | intros [|e]]; unfold stopped; quiet. apply IH.
Qed.

Lemma quiet_emit_event e : quiet (emit_event e).
Proof. intros p. apply keeps_when. by apply quiet_on_loop. Qed.
Lemma quiet_emit_started call_id tool label : quiet (emit_tool_started call_id tool label).
Proof. intros p. unfold emit_tool_started. quiet; apply quiet_emit_event. Qed.
Lemma quiet_emit_completed call_id status summary a : quiet (emit_tool_completed call_id status summary a).
Proof. intros p. unfold emit_tool_completed. quiet; apply quiet_emit_event. Qed.
Lemma quiet_promote_reads : quiet promote_reads.
Proof.
  intros p. unfold promote_reads, on_tracker, of_world. quiet. by apply quiet_on_keep.
Qed.
Lemma quiet_drain fuel calls rest results : quiet (drain fuel calls rest results).
Proof.
  revert rest results. induction fuel as [|fuel IH]; intros [|first rest] results p; cbn [drain]; try apply keeps_ret.
  unfold stopped, execute_call, of_world. quiet; apply IH.
Qed.
Lemma quiet_run_batch calls : quiet (run_batch calls).
Proof. intros p. apply keeps_bind; [by apply quiet_on_loop | intros _; apply quiet_drain]. Qed.
Lemma quiet_cap s : quiet (on_keep (Upkeep.cap_tool_output s)).
Proof.
  apply quiet_on_keep. intros k. unfold Upkeep.cap_tool_output, Upkeep.ask, bind, draw, ret.
  destruct (_ <=? _)%N; [done|]. by destruct (Upkeep.spill s _).
Qed.
Lemma quiet_observation v : quiet (on_manager (ContextManager.set_progress_observation v)).
Proof.
  apply quiet_on_manager. intros c. unfold ContextManager.set_progress_observation.
  by destruct v, (ContextManager.progress_observation c).
Qed.
Lemma quiet_watch d x : quiet (watch_progress d x).
Proof.
  intros p. unfold watch_progress, of_loop. quiet. apply quiet_observation.
Qed.

(** *** Steps that append *)

Definition refused (e : Scope.Error) : Prop := exists s, e = Scope.FromContext (ContextManager.Transcript s).

Lemma adds_append m : adds (append m) (fun a rows =>
  match a with
  | Ok n => rows = [SessionLog.mk_active n m]
  | Err e => rows = [] /\ refused e
  end).
Proof.
  intros r. unfold append, on_keep. set (k := Upkeep.mk_keep _ _ _).
  destruct (Upkeep.append_cases m k) as [w [[now ->]|[e ->]]].
  - exists [SessionLog.mk_active (SessionLog.next_ordinal (SessionLog.log (Hydration.store (session (Scope.inside r))))) m].
    split; [|done]. unfold seen, window, active. cbn. f_equal.
    unfold SessionLog.load_active_session_message_rows. by rewrite List.filter_app, map_app.
  - exists []. rewrite !app_nil_r. split; [done | split; [done | by exists e]].
Qed.

(** Steps of a round that cannot fail. *)
Lemma sure_on_keep {U} (m : Upkeep.KM (W := W) U) : (forall k, is_Ok (m k).2 = true) -> sure (on_keep m).
Proof. intros H r. unfold on_keep. set (k := Upkeep.mk_keep _ _ _). specialize (H k). by destruct (m k) as [? []]. Qed.
Lemma sure_execute id d : sure (execute_call id d).
Proof.
  intros r. unfold execute_call, of_world, on_executor, ToolExecutor.execute, gets, bind. cbn.
  destruct (ToolExecutor.door _ _ _); [|done]. unfold ToolExecutor.on_exec, modify, attempt, ToolExecutor.exec, gets, ret.
  by destruct (Scope.with_span _ _ _ _).
Qed.
Ltac surely := repeat first
  [ apply sure_draw | apply sure_attempt | apply sure_execute | apply sure_when | apply sure_each; intros ?
  | by intros ? | apply sure_bind; [|intros ?] | progress case_match | progress cbn beta ].

Lemma sure_emit_started call_id tool label : sure (emit_tool_started call_id tool label).
Proof. unfold emit_tool_started, emit_event. surely. Qed.
Lemma sure_emit_completed call_id status summary a : sure (emit_tool_completed call_id status summary a).
Proof. unfold emit_tool_completed, emit_event. surely. Qed.
Lemma sure_promote_reads : sure promote_reads.
Proof. unfold promote_reads, on_tracker, of_world. surely. Qed.
Lemma sure_run_batch calls : sure (run_batch calls).
Proof.
  apply sure_bind; [by intros r | intros _]. generalize (length calls) at 1. intros fuel.
  generalize (seq 0 (length calls)) as rest, (∅ : Results) as results.
  induction fuel as [|fuel IH]; intros [|first rest] results; cbn [drain]; try by intros r.
  unfold stopped. surely; apply IH.
Qed.
Lemma sure_cap s : sure (on_keep (Upkeep.cap_tool_output s)).
Proof.
  apply sure_on_keep. intros k. unfold Upkeep.cap_tool_output, Upkeep.ask, bind, draw, ret.
  destruct (_ <=? _)%N; [done|]. by destruct (Upkeep.spill s _).
Qed.
Lemma sure_watch d x : sure (watch_progress d x).
Proof. unfold watch_progress, of_loop, note_no_progress, on_manager. surely. Qed.

Lemma adds_sure {U U'} (m : LM U) (k : U -> LM U') (R : result U' Scope.Error -> list SessionLog.ActiveMessageRow -> Prop) :
  quiet m -> sure m -> (forall a, adds (k a) R) -> adds (bind m k) R.
Proof.
  intros Hq Hs Hk r. unfold bind. pose proof (Hq (seen r) r eq_refl) as E. specialize (Hs r).
  destruct (m r) as [r1 [a|e]]; [|done]. destruct (Hk a r1) as (rows & E' & HR). exists rows.
  split; [|done]. rewrite E'. cbn in E. by injection E as -> ->.
Qed.

(** The row that answers the call [id]. *)
Definition answers (id : string) (row : SessionLog.ActiveMessageRow) : Prop :=
  exists name body warnings meta,
    SessionLog.row_message row = tool_result_with_meta id (wrap_tool_output name body warnings) meta.

Lemma adds_settle turn_id images id d executed : adds (settle_result turn_id images id d executed) (fun a rows =>
  match a with
  | Ok images' => (exists row, rows = [row] /\ answers id row) /\
      (length images <= ToolBatch.MAX_LLM_IMAGES_PER_ITERATION -> length images' <= ToolBatch.MAX_LLM_IMAGES_PER_ITERATION)
  | Err e => rows = [] /\ refused e
  end).
Proof.
  destruct executed as [x|]; cbn [settle_result].
  - destruct (ToolBatch.tool_completion_summary _ x) as [status summary]. cbv zeta.
    apply adds_sure; [apply quiet_emit_completed | apply sure_emit_completed | intros _].
    apply adds_sure; [intros p; quiet | surely | intros _].
    apply adds_sure; [by apply quiet_on_loop | surely | intros _].
    apply adds_sure; [apply quiet_cap | apply sure_cap | intros capped].
    apply adds_sure; [apply quiet_gets | surely | intros meta].
    apply adds_sure; [apply quiet_watch | apply sure_watch | intros _].
    eapply adds_bind; [apply adds_append | done | intros n rows ->]. apply adds_ret. rewrite app_nil_r.
    split; [by repeat eexists|]. intros Hlen. rewrite ToolBatch.push_bounded_newest by done. rewrite length_drop. lia.
  - apply adds_sure; [apply quiet_emit_completed | apply sure_emit_completed | intros _].
    eapply adds_bind; [apply adds_append | done | intros n rows ->]. apply adds_ret. rewrite app_nil_r.
    split; [by repeat eexists | done].
Qed.
(** The calls of the response are answered one by one, in its order. *)
Lemma adds_settle_all turn_id images results i calls :
  adds (settle_results turn_id images results i calls) (fun a rows =>
    match a with
    | Ok images' => Forall2 answers calls.*1 rows /\
        (length images <= ToolBatch.MAX_LLM_IMAGES_PER_ITERATION -> length images' <= ToolBatch.MAX_LLM_IMAGES_PER_ITERATION)
    | Err e => (exists k, k < length calls /\ Forall2 answers (take k calls.*1) rows) /\ refused e
    end).
Proof.
  revert images i. induction calls as [|[id d] calls IH]; intros images i; cbn [settle_results].
  { apply adds_ret. split; [constructor | done]. }
  eapply adds_bind; [apply adds_settle | |].
  - intros e rows [-> He]. split; [exists 0; cbn; split; [lia | constructor] | done].
  - intros images1 rows [(row & -> & Hrow) Hlen]. eapply adds_mono; [apply IH|].
    intros [images2|e] more; [|]; cbn.
    + intros [Hmore Hlen']. split; [by constructor | auto].
    + intros [(k & Hk & Hmore) He]. split; [|done]. exists (Datatypes.S k). split; [lia | by constructor].
Qed.

(** The rows of a round: the calling row, an answer per call, at most one row of
    the images the tools returned. *)
Definition calling_row (response : Streaming.LlmResponse) (row : SessionLog.ActiveMessageRow) : Prop :=
  SessionLog.row_message row = assistant (calling_blocks response).
Definition image_row (row : SessionLog.ActiveMessageRow) : Prop :=
  exists images, images <> [] /\ length images <= ToolBatch.MAX_LLM_IMAGES_PER_ITERATION /\
    SessionLog.row_message row = agent_context (Text IMAGE_ROW_TEXT :: images).
Definition ids (response : Streaming.LlmResponse) : list string := map Streaming.call_id (Streaming.tool_calls response).
Definition round (response : Streaming.LlmResponse) (rows : list SessionLog.ActiveMessageRow) : Prop :=
  exists call results images, rows = call :: results ++ images /\ calling_row response call /\
    Forall2 answers (ids response) results /\ length images <= 1 /\ Forall image_row images.
(** What is left of a round when the store refuses one of its rows. *)
Definition cut_round (response : Streaming.LlmResponse) (rows : list SessionLog.ActiveMessageRow) : Prop :=
  rows = [] \/ exists call results k, rows = call :: results /\ calling_row response call /\
    Forall2 answers (take k (ids response)) results.

Definition CANCELLED_IN_TOOLS : Scope.Error := Scope.Anyhow "turn cancelled during tool execution".
Lemma adds_round turn_id response : adds (tool_round turn_id response) (fun a rows =>
  match a with
  | Ok (Continue _) => round response rows
  | Ok (Final _) => False
  | Err e => (e = CANCELLED_IN_TOOLS /\ round response rows) \/ (refused e /\ cut_round response rows)
  end).
Proof.
  unfold tool_round. eapply adds_bind; [apply adds_append | intros e rows [-> He]; right; by split; [|left] |].
  intros n rows ->. set (call := SessionLog.mk_active n _).
  apply adds_sure; [apply quiet_gets | surely | intros registry].
  set (calls := map (resolve_call registry) (Streaming.tool_calls response)). cbv zeta.
  assert (Hids : calls.*1 = ids response).
  { unfold calls, ids. clear call calls. induction (Streaming.tool_calls response) as [|c l IH]; cbn; [done | by rewrite IH]. }
  apply adds_sure; [intros p; apply keeps_each; intros c; apply quiet_emit_started | apply sure_each; intros c; apply sure_emit_started | intros _].
  apply adds_sure; [apply quiet_promote_reads | apply sure_promote_reads | intros _].
  apply adds_sure; [apply quiet_run_batch | apply sure_run_batch | intros [results cancelled]].
  eapply adds_bind; [apply adds_settle_all | |].
  - intros e rows [(k & _ & Hk) He]. right. split; [done|]. right. rewrite Hids in Hk. by exists call, rows, k.
  - intros images rows [Hrows Hlen]. rewrite Hids in Hrows.
    specialize (Hlen ltac:(cbn; unfold ToolBatch.MAX_LLM_IMAGES_PER_ITERATION; lia)).
    eapply (adds_bind _ _ (fun a more => match a with
      | Ok _ => length more <= 1 /\ Forall image_row more | Err e => refused e /\ more = [] end)).
    + destruct images as [|b images]; [by apply adds_ret; split; [cbn; lia | constructor]|].
      eapply adds_bind; [apply adds_append | by intros e more [-> ?] |]. intros n' more ->. apply adds_ret.
      split; [done|]. apply Forall_singleton. by exists (b :: images).
    + intros e more [He ->]. right. split; [done|]. right. exists call, rows, (length (ids response)).
      rewrite firstn_all. by rewrite app_nil_r.
    + intros _ more [Hmore Himg]. apply adds_sure; [by apply quiet_on_loop | surely | intros _].
      assert (Hround : round response ([call] ++ rows ++ more)) by (exists call, rows, more; by split_and!).
      destruct cancelled; [apply adds_throw; left | apply adds_ret]; rewrite app_nil_r; by try split.
Qed.

(** What a call to the model returns: a response the gateway has passed, or what
    is kept of one when the token trips. *)
Definition passed (response : Streaming.LlmResponse) : Prop :=
  exists raw w, response = (Streaming.sanitize_llm_response raw w).2.
Definition trimmed (response : Streaming.LlmResponse) : Prop :=
  exists safe, passed safe /\ response = Streaming.trim_response_text_edges safe.
Definition answered (a : result Streaming.LlmResponse Scope.Error) : Prop :=
  match a with
  | Ok response => trimmed response
  | Err (Scope.CancelledTurn partial) =>
      partial = [] \/ exists safe, (passed safe \/ trimmed safe) /\ partial = Streaming.salvage_partial_blocks safe
  | Err _ => True
  end.
Definition ends {U} (m : LM U) (Q : result U Scope.Error -> Prop) : Prop := forall r, Q (m r).2.
Lemma ends_bind {U U'} (m : LM U) (k : U -> LM U') Q R :
  ends m Q -> (forall e, Q (Err e) -> R (Err e)) -> (forall a, Q (Ok a) -> ends (k a) R) -> ends (bind m k) R.
Proof. intros Hm He Hk r. specialize (Hm r). unfold bind. destruct (m r) as [r1 [a|e]]; [by apply Hk | by apply He]. Qed.
(** After a step that raises nothing of its own that matters. *)
Lemma ends_then {U U'} (m : LM U) (k : U -> LM U') R :
  sure m -> (forall a, ends (k a) R) -> ends (bind m k) R.
Proof. intros Hm Hk r. specialize (Hm r). unfold bind. destruct (m r) as [r1 [a|e]]; [apply Hk | done]. Qed.

Lemma call_body_answered request : ends (call_body request) (fun a =>
  match a with Ok (_, value) => answered value | Err _ => False end).
Proof.
  unfold call_body, provider_call, stopped, on_loop, record_call_actual.
  apply ends_then; [surely|]. intros [partial_usage [response|e]].
  all: apply ends_then; [surely | intros [|]]; try (by intros r; left).
  - apply (ends_bind _ _ (fun a => match a with Ok safe => passed safe | Err _ => False end)); [|done|].
    { intros r. unfold Scope.ask, draw. destruct (Streaming.sanitize_llm_response _ _) as [w safe] eqn:E. cbn.
      exists response, (Scope.outside r). by rewrite E. }
    intros safe Hsafe r. right. exists safe. by split; [left|].
  - eapply (ends_bind _ _ (fun a => match a with Ok (_, value) => answered value | Err _ => False end)); [|done|].
    { apply (ends_bind _ _ (fun a => match a with Ok safe => passed safe | Err _ => False end)); [|done|].
      { intros r. unfold Scope.ask, draw. destruct (Streaming.sanitize_llm_response _ _) as [w safe] eqn:E. cbn.
        exists response, (Scope.outside r). by rewrite E. }
      intros safe Hsafe r. by exists safe. }
    intros [f v] Hv. apply ends_then; [unfold of_loop; surely | by intros ? r].
  - eapply (ends_bind _ _ (fun a => match a with Ok (_, value) => answered value | Err _ => False end)); [by intros r | done |].
    intros [f v] Hv. apply ends_then; [unfold of_loop; surely | by intros ? r].
Qed.
Lemma call_llm_answered : ends call_llm answered.
Proof.
  unfold call_llm, session_tool_defs, request_messages, build_call_input_marker, of_loop, of_world.
  do 5 (apply ends_then; [surely | intros ?]). unfold Scope.with_llm_span.
  apply (ends_bind _ _ (fun a => match a with Err (Scope.CancelledTurn _) => False | _ => True end)).
  { unfold Scope.begin. apply ends_then; [surely | by intros [|] r]. }
  { by intros []. }
  intros _ _. apply (ends_bind _ _ (fun a => match a with Ok (_, value) => answered value | Err _ => False end)); [|done|].
  { intros r. unfold draw. pose proof (call_body_answered (mk_request a1 a0 initial_effort true) r) as H.
    by destruct (call_body _ r) as [r1 [[f v]|e]]. }
  intros [f v] Hv. apply ends_then; [surely | intros o]. apply ends_then; [surely | by intros _ r].
Qed.
Lemma retry_answered fuel n : ends (retry_loop fuel n) answered.
Proof.
  revert n. induction fuel as [|fuel IH]; intros n; [done|]. cbn [retry_loop].
  apply (ends_bind _ _ (fun a => match a with Ok a => answered a | Err _ => False end)); [|done|].
  { intros r. unfold attempt. pose proof (call_llm_answered r). by destruct (call_llm r). }
  intros [response|e] Ha; [by intros r|]. apply ends_then; [unfold stopped; surely | intros [|]]; [by intros r|].
  destruct (should_retry _ _ e); [|by intros r]. apply ends_then; [surely | intros [|]]; [by intros r | apply IH].
Qed.

(** What is kept of a response cut short: what the user had been shown of it. *)
Definition kept (partial : list ContentBlock) (rows : list SessionLog.ActiveMessageRow) : Prop :=
  rows = [] \/ exists n, partial <> [] /\ rows = [SessionLog.mk_active n (assistant partial)].
Lemma adds_partial e : adds (persist_cancelled_partial e) (fun a rows =>
  is_Ok a = true /\ (rows = [] \/ exists partial, e = Scope.CancelledTurn partial /\ kept partial rows)).
Proof.
  destruct e; try by apply adds_ret; split; [|left].
  destruct partial as [|b partial]; [by apply adds_ret; split; [|left]|]. cbn [persist_cancelled_partial].
  set (l := b :: partial). eapply (adds_bind _ _ (fun a rows => is_Ok a = true /\ kept l rows)).
  - intros r. destruct (adds_append (assistant l) r) as (rows & E & H). exists rows. unfold attempt.
    destruct (append _ r) as [r1 [n|e]]; cbn in *; (split; [exact E | split; [done|]]).
    + right. by exists n.
    + by left; destruct H.
  - by intros e rows [].
  - intros a rows [_ H]. apply adds_ret. rewrite app_nil_r. split; [done|]. right. by exists l.
Qed.

(** How an iteration ends, with the rows it has added. *)
Inductive iterated : result IterationOutcome Scope.Error -> list SessionLog.ActiveMessageRow -> Prop :=
| iterated_final n response media :
    answered (Ok response) -> Streaming.tool_calls response = [] ->
    iterated (Ok (Final (mk_outgoing (final_blocks response ++ media) (Some n))))
      [SessionLog.mk_active n (assistant (final_blocks response ++ media))]
| iterated_round response b rows :
    answered (Ok response) -> Streaming.tool_calls response <> [] -> round response rows ->
    iterated (Ok (Continue b)) rows
| iterated_cancelled_round response rows :
    answered (Ok response) -> round response rows -> iterated (Err CANCELLED_IN_TOOLS) rows
| iterated_nothing e : iterated (Err e) []
| iterated_partial e safe rows : passed safe \/ trimmed safe ->
    kept (Streaming.salvage_partial_blocks safe) rows -> iterated (Err e) rows
| iterated_refused e response rows :
    answered (Ok response) -> refused e -> cut_round response rows -> iterated (Err e) rows.

Lemma kept_iterated e partial rows : answered (Err (Scope.CancelledTurn partial)) -> kept partial rows ->
  iterated (Err e) rows.
Proof.
  intros [->|(safe & Hsafe & ->)] H; [|by eapply iterated_partial].
  destruct H as [->|(n & [] & _)]; [apply iterated_nothing | done].
Qed.
Lemma adds_final response : answered (Ok response) -> Streaming.tool_calls response = [] ->
  adds (final_answer response) iterated.
Proof.
  intros Ha Hc. unfold final_answer. apply adds_sure; [apply quiet_gets | by intros r | intros media].
  apply adds_sure; [by apply quiet_on_loop | by intros r | intros _]. cbv zeta.
  eapply adds_bind; [apply adds_append | intros e rows [-> _]; apply iterated_nothing |].
  intros n rows ->. apply adds_ret. by apply iterated_final.
Qed.
Lemma adds_give_up e : answered (Err e) ->
  adds (let* e := persist_cancelled_partial e in throw (A := IterationOutcome) e) iterated.
Proof.
  intros Ha. eapply adds_bind; [apply adds_partial | by intros e' rows [] |].
  intros e' rows [_ H]. apply adds_throw. rewrite app_nil_r. destruct H as [->|(partial & -> & Hk)];
    [apply iterated_nothing | by eapply kept_iterated].
Qed.
Lemma adds_attempt {U U'} (m : LM U) (k : result U Scope.Error -> LM U') Q R : quiet m -> ends m Q ->
  (forall a, Q a -> adds (k a) R) -> adds (bind (attempt m) k) R.
Proof.
  intros Hq He Hk r. unfold bind, attempt. specialize (Hq (seen r) r eq_refl). specialize (He r).
  destruct (m r) as [r1 a]. destruct (Hk a He r1) as (rows & E & HR). exists rows. split; [|done].
  rewrite E. cbn in Hq. by injection Hq as -> ->.
Qed.
Lemma adds_iteration turn_id : adds (run_iteration turn_id) iterated.
Proof.
  unfold run_iteration. apply (adds_attempt _ _ answered); [apply quiet_retry | apply retry_answered |].
  intros [response|e] Ha; [|by apply adds_give_up].
  apply adds_sure; [apply quiet_observation | surely | intros _].
  destruct (Streaming.tool_calls response) as [|c calls] eqn:Hc; [by apply adds_final|].
  apply adds_sure; [apply quiet_gets | surely | intros [|]].
  - apply adds_give_up. right. exists response. by split; [right|].
  - eapply adds_mono; [apply adds_round|]. intros [[o|b]|e] rows; [done | |].
    + intros H. eapply iterated_round; [exact Ha | by rewrite Hc | exact H].
    + intros [[-> H]|[He H]]; [by eapply iterated_cancelled_round | by eapply iterated_refused].
Qed.
(** C8: an iteration adds whole exchanges.  Whatever the model, the tools, the
    store and the cancellation do, the rows an iteration adds to the window the
    model is shown are the rows it adds to the durable log, in the same order,
    and they are one of: the final answer, under the ordinal it is delivered
    with; a calling row followed by exactly one result for each call, in the
    order of the calls, and at most one row of at most eight images; what was
    shown of a response the cancellation cut short; nothing.  A round is left
    incomplete only by a store that refuses one of its rows. *)
Theorem iteration_adds_exchanges turn_id r :
  exists rows,
    window (run_iteration turn_id r).1 = window r ++ map SessionLog.row_message rows /\
    active (run_iteration turn_id r).1 = active r ++ rows /\
    iterated (run_iteration turn_id r).2 rows.
Proof.
  destruct (adds_iteration turn_id r) as (rows & E & Hr). exists rows. injection E as -> ->. by split_and!.
Qed.

(** ** What an iteration costs

    Requests to the model are counted; everything else only leaves a well-nested
    trace. *)

Lemma spends_on_loop f : Scope.spends 0 (on_loop f).
Proof. by apply Scope.spends_modify. Qed.
Lemma spends_on_keep {U} (m : Upkeep.KM (W := W) U) : Scope.spends 0 (on_keep m).
Proof. apply Scope.spends_still. intros r. unfold on_keep. by destruct (m _). Qed.
Lemma spends_on_executor {U} n (m : ToolExecutor.EM (W := W) (S := S) (B := LlmCallBegin) (V := V) U) :
  Scope.spends n m -> Scope.spends n (on_executor m).
Proof.
  intros Hm r. unfold on_executor. set (r0 := Scope.mk_runtime _ _ _ _). destruct (Hm r0) as (E & es & F & H).
  destruct (m r0) as [r1 a]. cbn in *. split; [done|]. by exists es.
Qed.
Ltac spend := repeat first
  [ apply Scope.spends_ret | apply Scope.spends_throw | apply Scope.spends_gets | apply Scope.spends_ask
  | apply Scope.spends_of_result | apply spends_on_loop | apply spends_on_keep
  | by apply Scope.spends_modify | by apply Scope.spends_mark
  | apply Scope.spends_when | apply Scope.spends_attempt | apply Scope.spends_span | apply Scope.spends_each; intros ?
  | apply Scope.spends_bind; [|intros ?] | progress case_match | progress cbn beta ].

Section Executor.
Abbreviation EM := (ToolExecutor.EM (W := W) (S := S) (B := LlmCallBegin) (V := V)).

Lemma spends_ask_gate g req : Scope.spends 0 (ToolExecutor.ask_gate g req : EM _).
Proof. unfold ToolExecutor.ask_gate, ToolExecutor.park, ToolExecutor.on_exec. spend. Qed.
Lemma spends_run_tool g c id p : Scope.spends 0 (ToolExecutor.run_tool g c id p : EM _).
Proof.
  induction p as [a|cached tool l preview k IH|action payload k IH|act k IH]; cbn [ToolExecutor.run_tool];
    unfold ToolExecutor.handle_request, ToolExecutor.park, ToolExecutor.on_exec, ToolExecutor.exec; spend;
    first [apply IH | done].
Qed.
Lemma spends_execute registry gates c tool_name params id via :
  Scope.spends 0 (ToolExecutor.execute turn_error_text json_text media_json registry gates c tool_name params id token via : EM _).
Proof.
  unfold ToolExecutor.execute, ToolExecutor.on_exec, ToolExecutor.exec.
  unfold ToolExecutor.call_body, ToolExecutor.validate_invoke_params, ToolExecutor.authorize, ToolExecutor.on_exec,
    ToolExecutor.exec, ToolExecutor.note_decision, ToolExecutor.flush_events, ToolExecutor.settle_call,
    ToolExecutor.sanitize_tool_event_payload, ToolExecutor.scrub.
  spend; first [apply spends_ask_gate | apply spends_run_tool | done].
Qed.
End Executor.

Lemma spends_call_body request : Scope.spends 1 (call_body request).
Proof.
  unfold call_body. apply (Scope.spends_bind_le 1 0); [| intros [u a] | done].
  - unfold provider_call. apply Scope.spends_bind; [apply Scope.spends_gets | intros [|]].
    { by apply (Scope.spends_le 0), Scope.spends_ret; lia. }
    apply (Scope.spends_bind_le 1 0); [by apply (Scope.spends_note (Scope.Requested _)) | intros _ | done].
    spend.
  - unfold record_call_actual. spend.
Qed.
Lemma spends_call_llm : Scope.spends 1 call_llm.
Proof.
  unfold call_llm, session_tool_defs, request_messages, build_call_input_marker, of_loop, of_world.
  do 3 (apply Scope.spends_bind; [apply Scope.spends_gets | intros ?]). apply Scope.spends_bind; [spend | intros ?].
  apply Scope.spends_bind; [apply Scope.spends_ask | intros ?]. apply Scope.spends_llm_span. intros r.
  pose proof (spends_call_body (mk_request a1 a0 initial_effort true) r) as H. unfold draw.
  by destruct (call_body _ r) as [r1 [[f v]|e]].
Qed.
Lemma spends_retry fuel n : Scope.spends fuel (retry_loop fuel n).
Proof.
  revert n. induction fuel as [|fuel IH]; intros n; cbn [retry_loop]; [apply Scope.spends_throw|].
  apply (Scope.spends_bind_le 1 fuel); [apply Scope.spends_attempt, spends_call_llm | intros a | lia].
  destruct a as [response|e]; [by apply (Scope.spends_le 0), Scope.spends_ret; lia|]. unfold stopped.
  apply Scope.spends_bind; [apply Scope.spends_gets | intros [|]]; [by apply (Scope.spends_le 0), Scope.spends_throw; lia|].
  destruct (negb _); [by apply (Scope.spends_le 0), Scope.spends_throw; lia|].
  apply Scope.spends_bind; [apply Scope.spends_ask | intros [|]]; [by apply (Scope.spends_le 0), Scope.spends_throw; lia|]. apply IH.
Qed.
Lemma spends_partial e : Scope.spends 0 (persist_cancelled_partial e).
Proof. unfold persist_cancelled_partial, append. spend. Qed.
Lemma spends_drain fuel calls rest results : Scope.spends 0 (drain fuel calls rest results).
Proof.
  revert rest results. induction fuel as [|fuel IH]; intros [|first rest] results; cbn [drain]; try apply Scope.spends_ret.
  unfold stopped, execute_call, of_world. spend; first [apply IH | apply spends_on_executor, spends_execute].
Qed.
Lemma spends_settle turn_id images results i calls : Scope.spends 0 (settle_results turn_id images results i calls).
Proof.
  revert images i. induction calls as [|[id d] calls IH]; intros images i; cbn [settle_results]; [apply Scope.spends_ret|].
  apply Scope.spends_bind; [|intros a; apply IH].
  unfold settle_result, emit_tool_completed, emit_event, append, watch_progress, note_no_progress, on_manager, of_loop, of_world.
  spend.
Qed.
(** The handler's count bounds the requests of an iteration. *)
Definition CALLS_PER_ITERATION : nat := Datatypes.S (N.to_nat (Streaming.max_retries Streaming.default_handler)).
Lemma spends_iteration turn_id : Scope.spends CALLS_PER_ITERATION (run_iteration turn_id).
Proof.
  unfold run_iteration. apply (Scope.spends_bind_le CALLS_PER_ITERATION 0); [apply Scope.spends_attempt, spends_retry | intros a | lia].
  unfold final_answer, append, of_loop, stopped, on_manager.
  spend; first [apply spends_partial | apply spends_drain | apply spends_settle].
Qed.

(** The handler gives up by its own count: more fuel changes nothing. *)
Lemma retry_fuel fuel extra n r :
  (n <= Streaming.max_retries Streaming.default_handler < N.of_nat fuel + n)%N ->
  retry_loop (fuel + extra) n r = retry_loop fuel n r.
Proof.
  revert n r. induction fuel as [|fuel IH]; intros n r Hlt; [lia|].
  cbn [retry_loop Nat.add]. unfold bind at 1 4, attempt. destruct (call_llm r) as [r1 [response|e]]; [done|].
  unfold bind, stopped, gets. destruct (Scope.is_cancelled token r1); [done|].
  destruct (should_retry _ n e) eqn:Hn; cbn [negb]; [|done].
  assert (n < Streaming.max_retries Streaming.default_handler)%N.
  { revert Hn. unfold should_retry. destruct (N.leb_spec (Streaming.max_retries Streaming.default_handler) n); [done|].
    intros _. lia. }
  destruct (Scope.ask _ r1) as [r2 [[|]|]]; [done | apply IH; lia | done].
Qed.

(** What an iteration does not touch stays as it is. *)
Section Untouched.
Context (Q : Loop -> Prop).
Context (Hkeep : forall s a x, Q x -> Q (set_keep s a x)) (Hexec : forall e x, Q x -> Q (set_exec e x))
  (Hmonitor : forall m x, Q x -> Q (set_monitor m x)) (Happroved : forall l x, Q x -> Q (set_approved l x))
  (Hcohorts : forall m x, Q x -> Q (set_cohorts m x)) (Hattached : forall l x, Q x -> Q (set_attachments l x))
  (Hsent : forall l x, Q x -> Q (push_sent l x)).

Lemma keeps_in_on_loop f : (forall x, Q x -> Q (f x)) -> Scope.keeps_in Q (on_loop f).
Proof. intros H. apply keeps_modify. intros r. apply H. Qed.
Lemma keeps_in_on_keep {U} (m : Upkeep.KM (W := W) U) : Scope.keeps_in Q (on_keep m).
Proof. intros r Hr. unfold on_keep. destruct (m _) as [k a]. by apply Hkeep. Qed.
Lemma keeps_in_on_executor {U} (m : ToolExecutor.EM (W := W) (S := S) (B := LlmCallBegin) (V := V) U) :
  Scope.keeps_in Q (on_executor m).
Proof. intros r Hr. unfold on_executor. destruct (m _) as [k a]. by apply Hexec. Qed.
Lemma keeps_in_drawn {U} (m : LM U) (d : Scope.Error -> U) : Scope.keeps_in Q m ->
  Scope.keeps_in Q (draw (fun r => match m r with (r, Ok a) => (r, a) | (r, Err e) => (r, d e) end)).
Proof. intros Hm r Hr. specialize (Hm r Hr). unfold draw. by destruct (m r) as [r' [|]]. Qed.
Ltac untouched := repeat first
  [ apply Scope.keeps_in_ask | apply Scope.keeps_in_note | apply keeps_in_on_executor | apply keeps_in_on_keep
  | apply keeps_in_on_loop; intros ?; solve [auto] | apply keeps_gets | keeps_step | progress case_match | progress cbn beta ].

Lemma keeps_in_call_body request : Scope.keeps_in Q (call_body request).
Proof using Hkeep Hsent.
  unfold call_body, provider_call, stopped, record_call_actual. untouched; apply keeps_in_on_loop; intros x Hx;
    first [by apply Hsent | destruct (Hydration.record_call_actual_durably _ _ _ _); by apply Hkeep].
Qed.
Lemma keeps_in_call_llm : Scope.keeps_in Q call_llm.
Proof using Hkeep Hsent.
  unfold call_llm, session_tool_defs, request_messages, build_call_input_marker, of_loop, of_world.
  do 3 (apply keeps_bind; [apply keeps_gets | intros ?]). apply keeps_bind; [untouched | intros ?].
  apply keeps_bind; [apply Scope.keeps_in_ask | intros ?].
  apply Scope.keeps_in_llm_span. apply (keeps_in_drawn (call_body _)), keeps_in_call_body.
Qed.
Lemma keeps_in_retry fuel n : Scope.keeps_in Q (retry_loop fuel n).
Proof using Hkeep Hsent.
  revert n. induction fuel as [|fuel IH]; intros n; cbn [retry_loop]; [apply keeps_throw|].
  apply keeps_bind; [apply keeps_attempt, keeps_in_call_llm | intros [|e]]; unfold stopped; untouched. apply IH.
Qed.
Lemma keeps_in_drain fuel calls rest results : Scope.keeps_in Q (drain fuel calls rest results).
Proof using Hexec.
  revert rest results. induction fuel as [|fuel IH]; intros [|first rest] results; cbn [drain]; try apply keeps_ret.
  unfold stopped, execute_call, of_world. untouched; apply IH.
Qed.
Lemma keeps_in_settle_results turn_id images results i calls :
  Scope.keeps_in Q (settle_results turn_id images results i calls).
Proof using Hkeep Hmonitor Hcohorts Hattached Hsent.
  revert images i. induction calls as [|[id d] calls IH]; intros images i; cbn [settle_results]; [apply keeps_ret|].
  apply keeps_bind; [|intros a; apply IH].
  unfold settle_result, emit_tool_completed, emit_event, append, watch_progress, note_no_progress, on_manager, of_loop, of_world.
  untouched.
Qed.
Lemma keeps_in_tool_round turn_id response : Scope.keeps_in Q (tool_round turn_id response).
Proof using Hkeep Hexec Hmonitor Happroved Hcohorts Hattached Hsent.
  unfold tool_round, append, of_world, emit_tool_started, emit_event, promote_reads, on_tracker, run_batch.
  untouched; first [apply keeps_in_drain | apply keeps_in_settle_results].
Qed.
Lemma keeps_in_partial e : Scope.keeps_in Q (persist_cancelled_partial e).
Proof using Hkeep. unfold persist_cancelled_partial, append. untouched. Qed.
Lemma keeps_in_iteration turn_id : Scope.keeps_in Q (run_iteration turn_id).
Proof using Hkeep Hexec Hmonitor Happroved Hcohorts Hattached Hsent.
  unfold run_iteration. apply keeps_bind; [apply keeps_attempt, keeps_in_retry | intros [response|e]].
  2:{ apply keeps_bind; [apply keeps_in_partial | intros ?; apply keeps_throw]. }
  apply keeps_bind; [apply keeps_in_on_keep | intros _]. destruct (Streaming.tool_calls response).
  - unfold final_answer, append, of_loop. untouched.
  - apply keeps_bind; [apply keeps_gets | intros [|]]; [|apply keeps_in_tool_round].
    apply keeps_bind; [apply keeps_in_partial | intros ?; apply keeps_throw].
Qed.
End Untouched.
End Loop.
End Iteration.
