(* ===== verification/AgentLoop.v ===== *)
(** * A turn of the agent ([crates/agent/src/runtime/agent_loop.rs],
      [compression.rs], [title.rs], [progress_observer.rs])

    A turn seeds and reconciles the conversation, recalls what it may, and
    iterates until the model answers or the count runs out; the orchestrator's
    row is settled around it and the memory of the turn is written after.  Each
    piece is a component of its own; this file is their composition. *)

From S2P Require Import Prelude Effect Message Wire Turn Lifecycle Approval ApprovalQueue Tokens Compaction.
From S2P Require Import ContextManager SessionLog Hydration PromptUpdate Upkeep ReadTracker ProgressLedger Framing.
From S2P Require Import Streaming Skill ToolRegistry ToolTrace InvokeParams Scope ToolExecutor ToolBatch Iteration.
Import Message Effect Iteration.

Module AgentLoop.

(** ** Constants and texts *)

Definition TURNS_SINCE_WRITE : N := 10.
Definition TURNS_BETWEEN_REMINDERS : N := 10.
Definition MAX_COMPACTION_ATTEMPTS : nat := 2.
Definition MAX_ITERATIONS_TEXT : string :=
  "I've reached the maximum number of processing steps. Please try again with a simpler request.".
Definition compaction_failed_text (reason : string) : string :=
  ("Context compaction failed; the conversation is unchanged. Reason: " +:+ reason)%string.
Definition OBSERVER_APPEAR_AFTER : Z := 10 * 1000.
Definition OBSERVER_MIN_INTERVAL : Z := 40 * 1000.
Definition OUT_OF_BAND_EFFORT : string := "low".
Definition TITLE_QUESTION_MAX_CHARS : nat := 2000.
Definition TITLE_MAX_IMAGES : nat := 2.

(** ** What a turn is about *)

Definition trigger_kind (t : ToolRegistry.TriggerSource) : Turn.TriggerKind :=
  match t with
  | ToolRegistry.User => Turn.TriggerUser
  | ToolRegistry.Cron _ _ _ _ _ => Turn.TriggerCron
  | ToolRegistry.Issue _ _ _ => Turn.TriggerIssue
  end.
Definition is_user (t : ToolRegistry.TriggerSource) : bool := match t with ToolRegistry.User => true | _ => false end.
Definition cron_prompt_blocks (action_payload : json) : list ContentBlock :=
  match Json.get_str action_payload "prompt" with
  | Some p => if String.eqb p "" then [] else [Text p]
  | None => []
  end.
Definition memory_recall_query (i : Turn.TurnInput) : option (list ContentBlock) :=
  match i with
  | Turn.UserChat content => Some content
  | Turn.CronInput action_payload => Some (cron_prompt_blocks action_payload)
  | Turn.IssueRun _ brief => Some brief
  | Turn.Compact | Turn.Spawned _ | Turn.SubagentNotification _ | Turn.CronNotificationInput _ => None
  end.
Definition should_inject_task_reminder (turn_counter last_task_management_turn last_reminder_turn : N) : bool :=
  ((TURNS_SINCE_WRITE <=? turn_counter - last_task_management_turn)
   && (TURNS_BETWEEN_REMINDERS <=? turn_counter - last_reminder_turn))%N.

(** *** The title's seed *)

Fixpoint title_seed (delivers : ContentBlock -> bool) (images : list ContentBlock) (ms : list ChatMessage)
    : option (string * list ContentBlock) :=
  match ms with
  | [] => None
  | m :: ms =>
      if bool_decide (source m = SrcUser) then
        let room := TITLE_MAX_IMAGES - length images in
        let images := images ++ take room (List.filter delivers (content m)) in
        let text := Str.trim (Upkeep.block_text (content m)) in
        if String.eqb text "" then title_seed delivers images ms
        else Some (Str.take_chars TITLE_QUESTION_MAX_CHARS text, images)
      else title_seed delivers images ms
  end.

(** *** The narrator's gate *)

Definition OWNER : string := "owner".
Definition TUI : string := "tui".
Definition SUBAGENT_CHANNEL_TAG : string := "subagent".
Definition channel_wants_progress (channel : string) : bool :=
  negb (String.eqb channel OWNER) && negb (String.eqb channel TUI) && negb (String.eqb channel SUBAGENT_CHANNEL_TAG).
Definition should_fire_observer (is_streaming trigger_is_user wants : bool) (iterations : nat)
    (turn_started : Z) (last_observer_at : option Z) (now : Z) : bool :=
  is_streaming && trigger_is_user && wants && Nat.ltb 1 iterations
  && (OBSERVER_APPEAR_AFTER <=? now - turn_started)%Z
  && match last_observer_at with Some last => (OBSERVER_MIN_INTERVAL <=? now - last)%Z | None => true end.

(** ** What a turn asks of the rest of the process *)

Class Surroundings (W : Type) := {
  (** the pool's client for the session's pin *)
  resolve_llm : W -> Client;
  (** whether the lite client would hand the model this image *)
  delivers_image_block : W -> ContentBlock -> bool;
  list_tasks : W -> W * result (list Framing.Task) string;
  recall : list ContentBlock -> W -> W * result (list string) string;
  (** the messages a user sent while the loop ran *)
  drain_injectable : W -> W * list (list ContentBlock * string);
  (** [report_nothing] was called *)
  silence_requested : W -> bool;
  (** the narrator's call of before: [None] while it runs *)
  observer_finished : W -> W * option (result string string);
  latest_ordinal_read : W -> W * bool;
  append_progress_event : Z -> string -> W -> W;
  instant : W -> W * Z;
  transcript_file : W -> string;
  compaction_answer : W -> W * result Z string;
  skills_answer : W -> ContextManager.Skills;
}.

Record CompactionNotice := mk_notice { notice_level : NoticeLevel; notice_text : string }.
Record PendingMemoryWrite := mk_pending { user_input : list ContentBlock; final_output : list ContentBlock }.

Section Turns.
Context {W S V : Type}.
Context {T : Tokens.Tokenizer} {C : SessionLog.Chrono} {D : PromptUpdate.Differ} {O : Upkeep.World W}.
Context {A : Scope.Ambient W} {St : Lifecycle.TurnStore S} {Cd : Turn.TurnCodec}.
Context {Ho : ToolExecutor.Host (W := W)} {Sc : InvokeParams.JsonSchema V}.
Context {G : Streaming.Gateway W} {P : Provider W} {Su : Surroundings W}.
Context (turn_error_text : Turn.TurnError -> string) (json_text : json -> string)
  (media_json : ContentBlock -> json) (hash_of : string -> Z)
  (effective_effort : option string -> option string)
  (escape_listing escape_skill_content : string -> string).
Context (caller : ToolExecutor.Caller) (allowlist : option (list string)) (initial_effort : option string).
Context (streaming : bool) (token : N).
(** The session, as the actor holds it: its binding, whether it descends from
    another, whether it had a title; the loop's limits and what is wired. *)
Context (bound : Upkeep.Binding) (lineage titled : bool) (max_iterations : nat)
  (has_memory has_title_sink has_sessions has_interjections notify_silence : bool).

Abbreviation RT := (Scope.Runtime W S LlmCallBegin (Loop (V := V))).
Abbreviation LM := (LM (W := W) (S := S) (V := V)).

Definition ensure_seeded : LM unit := on_keep (Upkeep.ensure_seeded escape_listing bound).
Definition emit (e : AgentEvent) : LM unit := emit_event streaming e.
Definition tool_defs : LM (list ToolRegistry.ToolDefinition) := session_tool_defs caller allowlist.
Definition priced (d : ToolRegistry.ToolDefinition) : Tokens.ToolDefinition :=
  Tokens.mk_tool (ToolRegistry.def_name d) (ToolRegistry.def_description d)
    (json_text (ToolRegistry.parameters_schema d)).

(** ** The client of the turn *)

Definition set_window (c : Client) (m : ContextManager.ContextManager) : ContextManager.ContextManager :=
  ContextManager.set_active_model_audio_delivery (audio c)
    (ContextManager.set_active_model_context_window (context_window c) m).
Definition refresh_active_llm : LM unit :=
  let* client' := of_world resolve_llm in
  let* known := of_loop client in
  if (client_ptr client' =? client_ptr known)%N then ret tt
  else
    let* _ := on_loop (set_client client') in
    on_manager (set_window client').

(** ** The checklist *)

Definition refresh_task_reminder (inject : bool) : LM unit :=
  let* listed := Scope.ask list_tasks in
  match listed with
  | Err _ => ret tt
  | Ok tasks =>
      let shown := inject && match tasks with [] => false | _ => true end in
      let* _ := on_manager (ContextManager.refresh_task_reminder
                              (if shown then Some (Framing.render_task_list tasks) else None)) in
      let* _ := when shown (on_loop (fun x => set_counters (turn_counter x) (last_task_management_turn x)
                                                (turn_counter x) x)) in
      emit (TaskList tasks)
  end.

(** ** Interjections and memory *)

Definition drain_user_interjections : LM (list (list ContentBlock)) :=
  if has_interjections then
    let* drained := Scope.ask drain_injectable in
    let* _ := each (fun i : list ContentBlock * string =>
                let* _ := on_keep (Upkeep.append_user_interjection_with_platform_msg_id i.1 i.2) in ret tt) drained in
    ret (map fst drained)
  else ret [].

Definition text_of_memory (b : ContentBlock) : option string := match b with Text t => Some t | _ => None end.
Definition recalled_texts (ms : list ChatMessage) : list string :=
  concat (map (fun m => omap text_of_memory (content m))
            (List.filter (fun m => bool_decide (source m = RecalledMemory)) ms)).
Fixpoint unseen (seen : list string) (recalled : list string) : list string :=
  match recalled with
  | [] => []
  | m :: ms => if bool_decide (m ∈ seen) then unseen seen ms else m :: unseen (m :: seen) ms
  end.
Definition recall_and_inject (query : list ContentBlock) : LM unit :=
  match query with
  | [] => ret tt
  | _ =>
      let* cancelled := stopped token in
      if (cancelled : bool) || negb has_memory then ret tt
      else
        let* recalled := attempt (Scope.with_step turn_error_text Scope.MemoryRecall (Some token)
          (let* answer := Scope.ask (recall query) in
           match answer with
           | Ok mems => ret (Scope.OutcomeOk, mems)
           | Err e => throw (Scope.Anyhow e)
           end)) in
        match recalled with
        | Err _ => ret tt
        | Ok mems =>
            let* cancelled := stopped token in
            if cancelled : bool then ret tt
            else
              let* ms := of_manager ContextManager.messages in
              each (fun m => let* _ := on_keep (Upkeep.append_recalled_memory [Text m]) in ret tt)
                (unseen (recalled_texts ms) mems)
        end
  end.

(** ** Compaction ([compression.rs]) *)

Definition sanitized_error (raw : string) : LM string :=
  let* safe := Scope.ask (ToolExecutor.sanitize_error raw) in
  ret match safe with Ok m => m | Err _ => raw end.
Definition summarizer_call (request : Request) : LM (Scope.LlmCallResult * result string Scope.Error) :=
  let cancelled := ret (Scope.no_result, Err (Scope.Anyhow "cancelled during compaction")) in
  let* late := stopped token in
  if late : bool then cancelled
  else
    let* _ := Scope.note (Scope.Requested (req_messages request)) in
    let* call := Scope.ask (chat request) in
    match call with
    | None => cancelled
    | Some (Ok response) =>
        let* response := Scope.ask (Streaming.sanitize_llm_response response) in
        ret (Scope.mk_call_result (Streaming.resp_content response) (Streaming.thinking response) []
               (Streaming.usage response), Ok (Streaming.resp_content response))
    | Some (Err e) =>
        let* _ := on_loop (set_retriable (Streaming.is_retriable e)) in
        let* msg := sanitized_error (Scope.llm_error_text e) in
        ret (Scope.no_result, Err (Scope.Anyhow msg))
    end.
Definition summarizer_span (begin : LlmCallBegin) (request : Request) : LM string :=
  Scope.with_llm_span turn_error_text begin (Some token)
    (fun r => match summarizer_call request r with
              | (r, Ok settled) => (r, settled)
              | (r, Err e) => (r, (Scope.no_result, Err e))
              end).
Fixpoint summarizer_attempts (fuel attempts : nat) (begin : LlmCallBegin) (request : Request)
    : LM (Scope.LifecycleOutcome * result string ContextManager.ContextError) :=
  match fuel with
  | 0 => throw (Scope.Anyhow "out of fuel")
  | Datatypes.S fuel =>
      let* _ := on_loop (set_retriable false) in
      let* answer := attempt (summarizer_span begin request) in
      match answer with
      | Ok summary => ret (Scope.OutcomeOk, Ok summary)
      | Err e =>
          let error := error_text turn_error_text e in
          let* cancelled := stopped token in
          if cancelled : bool then ret (Scope.OutcomeOk, Err (ContextManager.CancelledErr error))
          else
            let* again := of_loop retriable in
            if negb again || Nat.eqb (Datatypes.S attempts) MAX_COMPACTION_ATTEMPTS then
              ret (Scope.OutcomeFailed error, Err (ContextManager.Compression error))
            else summarizer_attempts fuel (Datatypes.S attempts) begin request
      end
  end.
(** [CompressionRunner::run]: the last attempt answers for good. *)
Definition run_summarizer (trigger : Scope.CompressionTrigger) (request : Request)
    (input : Hydration.LlmCallInputs) : LM (result string ContextManager.ContextError) :=
  let* c := of_loop client in
  let* settled := attempt (Scope.with_step turn_error_text (Scope.Compression trigger) (Some token)
    (let* recorded := Scope.ask (record_tool_set (req_tools request)) in
     let tools := match recorded with Ok reference => Some reference | Err _ => None end in
     summarizer_attempts MAX_COMPACTION_ATTEMPTS 0
       (mk_begin (model_id c) (provider c) (effective_effort (req_effort request)) input tools) request)) in
  ret match settled with
      | Ok answer => answer
      | Err e => Err (ContextManager.Compression (error_text turn_error_text e))
      end.

(** The summary is asked for when the pass gets that far; the prompt is
    assembled afresh and the store asked only when the candidate is applied. *)
Definition runs_pass (forced : bool) (m : ContextManager.ContextManager) : bool :=
  (forced || (Tokens.needs_compression (ContextManager.budget m)
              && negb (ContextManager.compaction_declined m)))
  && negb (ContextManager.too_short m).
Definition of_answers (answer : result string ContextManager.ContextError) (path : string)
    (prompt : option string) (version : ContextManager.SystemPromptVersion) (persisted : bool)
    : ContextManager.Answers :=
  ContextManager.mk_answers (fun _ => answer) path prompt version persisted.
Definition outcome_with (skills : ContextManager.Skills) (model : string) (tools : list Tokens.ToolDefinition)
    (a : ContextManager.Answers) (forced : bool) (m : ContextManager.ContextManager)
    : ContextManager.CompressionOutcome :=
  (if forced then ContextManager.force_compress skills model tools a m
   else ContextManager.maybe_compress skills model tools a m).2.
Definition compact (forced : bool) : LM ContextManager.CompressionOutcome :=
  let* c := of_loop client in
  let* defs := tool_defs in
  let tools := map priced defs in
  let* ready := of_manager (ContextManager.ready (model_id c) tools) in
  let* answer :=
    if runs_pass forced ready then
      let* reads := Scope.ask marker_reads in
      let* input := of_loop (fun x => Hydration.input_marker_with_suffix reads
                       [agent_context [Text ContextManager.SUMMARIZE_INSTRUCTION]]
                       (SessionLog.log (Hydration.store (session x))) ready) in
      run_summarizer (if forced then Scope.Forced else Scope.Threshold)
        (mk_request (ContextManager.summary_request ready) defs (Some OUT_OF_BAND_EFFORT) false) input
    else ret (Err (ContextManager.Internal "")) in
  let* path := of_world transcript_file in
  let* skills := of_world skills_answer in
  let blank := of_answers answer path None (ContextManager.Persona []) false in
  let* outcome := of_manager (outcome_with skills (model_id c) tools blank forced) in
  let* now_answers :=
    match outcome with
    | ContextManager.Compressed =>
        let* prompt := on_keep (Upkeep.try_resolve_system_prompt bound) in
        let* version := on_keep (Upkeep.current_system_prompt_version bound) in
        let* stored := Scope.ask compaction_answer in
        ret (match stored with Ok now => now | Err _ => 0%Z end,
             of_answers answer path (PromptUpdate.prompt_text <$> prompt) version (is_Ok stored))
    | _ => ret (0%Z, blank)
    end in
  let* _ := on_loop (fun x => set_keep
    (Hydration.compact_session skills now_answers.1 (model_id c) tools now_answers.2 forced (session x))
    (anchors x) x) in
  ret outcome.

Definition compress_if_needed : LM unit :=
  let* c := of_loop client in
  let* defs := tool_defs in
  let* needed := of_manager (fun m => ContextManager.would_compress (model_id c) (map priced defs) m) in
  let* _ := on_manager (fun _ => needed.1) in
  let compacting := needed.2 in
  let* _ := when compacting (emit (Status Compacting)) in
  let* outcome := compact false in
  let* cancelled := stopped token in
  let* _ := when (compacting && negb cancelled) (emit (Status Compacted)) in
  match outcome with
  | ContextManager.OutcomeFailed reason =>
      let* reported := of_loop failure_reported in
      if reported : bool then ret tt
      else
        let* _ := on_loop (set_failure_reported true) in
        emit (Notice NoticeWarn (compaction_failed_text reason) true)
  | _ => ret tt
  end.

(** ** Tasks let loose *)

Definition maybe_generate_title (turn : TurnId) (is_user_turn : bool) : LM unit :=
  let* tried := of_loop title_generation in
  if negb is_user_turn || (tried : bool)
     || negb (is_user (ToolExecutor.c_trigger caller)) || lineage || titled
     || negb has_title_sink || negb has_sessions
  then ret tt
  else
    let* delivers := of_world delivers_image_block in
    let* seed := of_manager (fun m => title_seed delivers [] (ContextManager.messages m)) in
    match seed with
    | None => ret tt
    | Some (text, images) =>
        on_loop (fun x => push_spawned (TitlePass turn text images) (set_title_generation true x))
    end.

Definition persist_progress_narration (text : string) : LM unit :=
  if has_sessions then
    let* readable := Scope.ask latest_ordinal_read in
    when readable
      (let* after := of_loop (fun x =>
         default (-1)%Z (SessionLog.latest_session_ordinal (SessionLog.log (Hydration.store (session x))))) in
       Scope.ask (fun w => (append_progress_event after text w, tt)))
  else ret tt.
(** The line of the call before; [false] while that call still runs. *)
Definition drain_observer : LM bool :=
  let* o := of_loop observer in
  if in_flight o then
    let* finished := Scope.ask observer_finished in
    match finished with
    | None => ret false
    | Some answer =>
        let* _ := on_loop (fun x => set_observer (mk_observer (last_fired_at o) (sent_notices o) false) x) in
        match answer with
        | Ok text =>
            let* cancelled := stopped token in
            if String.eqb (Str.trim text) "" || (cancelled : bool) then ret true
            else
              let* _ := on_loop (fun x => set_observer (mk_observer (last_fired_at o) (sent_notices o ++ [text]) false) x) in
              let* _ := persist_progress_narration text in
              let* _ := emit (Progress text) in
              ret true
        | Err _ => ret true
        end
    end
  else ret true.
Definition maybe_run_progress_observer (turn : TurnId) (iterations : nat) (turn_started : Z) : LM unit :=
  let* clear := drain_observer in
  if negb clear then ret tt
  else
    let* now := Scope.ask instant in
    let* cancelled := stopped token in
    let* o := of_loop observer in
    if (cancelled : bool)
       || negb (should_fire_observer streaming (is_user (ToolExecutor.c_trigger caller))
                  (channel_wants_progress (ToolExecutor.c_channel caller)) iterations turn_started
                  (last_fired_at o) now)
    then ret tt
    else
      let* ms := request_messages in
      let* defs := tool_defs in
      let prompt := user [Text (Framing.build_observer_prompt (sent_notices o))] in
      let* reads := Scope.ask marker_reads in
      let* input := of_loop (fun x => Hydration.input_marker_with_suffix reads [prompt]
                       (SessionLog.log (Hydration.store (session x))) (Hydration.manager (session x))) in
      on_loop (fun x => push_spawned (ObserverPass turn (mk_request (ms ++ [prompt]) defs (Some OUT_OF_BAND_EFFORT) false) input)
                          (set_observer (mk_observer (Some now) (sent_notices o) true) x)).

(** ** The turn *)

(** Messages sent while the loop ran, and what they bring to mind. *)
Definition interject (memory_query : option (list ContentBlock)) (turn_user_input : list ContentBlock)
    : LM (list ContentBlock) :=
  let* drained := drain_user_interjections in
  if is_some memory_query then
    let* _ := each recall_and_inject drained in
    ret (turn_user_input ++ concat drained)
  else ret turn_user_input.
Definition llm_iteration (turn : TurnId) : LM IterationOutcome :=
  Scope.with_step turn_error_text Scope.LlmIteration (Some token)
    (let* outcome := run_iteration turn_error_text json_text media_json hash_of effective_effort caller allowlist
                       initial_effort streaming token turn in
     ret (Scope.OutcomeOk, outcome)).
(** What precedes the call of an iteration. *)
Definition prepare (iterations : nat) (dirty inject : bool) (memory_query : option (list ContentBlock))
    (turn_user_input : list ContentBlock) : LM (list ContentBlock) :=
  let* input := if Nat.ltb 1 iterations then interject memory_query turn_user_input else ret turn_user_input in
  let* _ := when dirty (refresh_task_reminder inject) in
  let* _ := on_keep (Upkeep.reconcile_system_prompt bound) in
  let* _ := on_keep (Upkeep.reconcile_skills escape_listing bound) in
  let* _ := compress_if_needed in
  ret input.
Definition after_round (turn : TurnId) (iterations : nat) (turn_started : Z) (task_mutated : bool) : LM unit :=
  let* _ := when task_mutated (on_loop (fun x =>
    set_counters (turn_counter x) (turn_counter x) (last_reminder_turn x) x)) in
  maybe_run_progress_observer turn iterations turn_started.

Fixpoint iterate (fuel : nat) (turn : TurnId) (inject : bool) (turn_started : Z)
    (memory_query : option (list ContentBlock)) (iterations : nat) (dirty : bool)
    (turn_user_input : list ContentBlock) : LM (OutgoingMessage * option PendingMemoryWrite) :=
  match fuel with
  | 0 => throw (Scope.Anyhow "out of fuel")
  | Datatypes.S fuel =>
      let* cancelled := stopped token in
      if cancelled : bool then throw (Scope.Anyhow "agent loop cancelled")
      else if Nat.leb max_iterations iterations then
        ret (mk_outgoing [Text MAX_ITERATIONS_TEXT] None, None)
      else
        let iterations := Datatypes.S iterations in
        let* input := prepare iterations dirty inject memory_query turn_user_input in
        let* outcome := llm_iteration turn in
        match outcome with
        | Final outgoing =>
            ret (outgoing, (fun _ => mk_pending input (out_content outgoing)) <$> memory_query)
        | Continue task_mutated =>
            let* _ := after_round turn iterations turn_started task_mutated in
            iterate fuel turn inject turn_started memory_query iterations task_mutated input
        end
  end.

(** A turn starts with its own monitor, narrator and latches. *)
Definition fresh_locals (x : Loop (V := V)) : Loop :=
  set_attachments [] (set_failure_reported false (set_observer (mk_observer None [] false)
    (set_monitor ProgressLedger.clear x))).
Definition next_turn (x : Loop (V := V)) : Loop :=
  set_counters (turn_counter x + 1)%N (last_task_management_turn x) (last_reminder_turn x) x.
Definition run_inner (memory_query : option (list ContentBlock)) (turn_kind : Turn.TurnInputKind) (turn : TurnId)
    : LM (OutgoingMessage * option PendingMemoryWrite) :=
  let* _ := ensure_seeded in
  let* _ := on_loop fresh_locals in
  let* _ := on_manager (ContextManager.set_progress_observation None) in
  let* _ := maybe_generate_title turn (match turn_kind with Turn.KUserChat => true | _ => false end) in
  let* _ := on_keep (Upkeep.expand_slash_command bound) in
  let* _ := match memory_query with Some q => recall_and_inject q | None => ret tt end in
  let* turn_started := Scope.ask instant in
  let* _ := on_loop next_turn in
  let* inject := of_loop (fun x => should_inject_task_reminder (turn_counter x) (last_task_management_turn x)
                                     (last_reminder_turn x)) in
  iterate (Datatypes.S max_iterations) turn inject turn_started memory_query 0 true (default [] memory_query).

Definition SUPPRESSED : json := JObject [("notify", JString "suppressed")]%string.
Definition turn_body (memory_query : option (list ContentBlock)) (turn_kind : Turn.TurnInputKind) (turn : TurnId)
    : LM (Turn.TurnOutput * (OutgoingMessage * option (TurnId * PendingMemoryWrite))) :=
  let* answer := run_inner memory_query turn_kind turn in
  let (outgoing, pending) := answer in
  let* silent := of_world silence_requested in
  let output := if notify_silence && silent then Turn.Structured SUPPRESSED
                else Turn.OutMessage (out_content outgoing) (out_ordinal outgoing) in
  ret (output, (outgoing, pair turn <$> pending)).
Definition spawn_turn_complete_write (w : TurnId * PendingMemoryWrite) : LM unit :=
  when has_memory (on_loop (push_spawned (MemoryWrite w.1 (user_input w.2) (final_output w.2)))).
Definition run (turn_input : Turn.TurnInput) (parent : option TurnId) : LM OutgoingMessage :=
  let* _ := refresh_active_llm in
  let* answer := Scope.with_turn turn_error_text token
    (Scope.mk_spec (ToolExecutor.c_session caller) (trigger_kind (ToolExecutor.c_trigger caller)) turn_input parent)
    (turn_body (memory_recall_query turn_input) (Turn.input_kind turn_input)) in
  let (outgoing, pending) := answer in
  let* _ := match pending with Some w => spawn_turn_complete_write w | None => ret tt end in
  ret outgoing.

(** ** [/compact] *)

Definition compaction_notice (o : ContextManager.CompressionOutcome) : CompactionNotice :=
  match o with
  | ContextManager.Compressed => mk_notice NoticeInfo "Context compressed."
  | ContextManager.BelowThreshold => mk_notice NoticeInfo "Context already under the compression threshold; skipped."
  | ContextManager.StrategyDeclined =>
      mk_notice NoticeInfo "Compression strategy declined: nothing to summarize (conversation too short)."
  | ContextManager.NoSavings => mk_notice NoticeInfo "Compression ran but produced no savings; kept the original."
  | ContextManager.OutcomeCancelled => mk_notice NoticeInfo "Compaction cancelled; the conversation is unchanged."
  | ContextManager.OutcomeFailed reason => mk_notice NoticeWarn (compaction_failed_text reason)
  end.
Definition compact_now (parent : option TurnId) : LM CompactionNotice :=
  Scope.with_turn turn_error_text token
    (Scope.mk_spec (ToolExecutor.c_session caller) (trigger_kind (ToolExecutor.c_trigger caller)) Turn.Compact parent)
    (fun _ =>
       let* outcome := compact true in
       let notice := compaction_notice outcome in
       ret (Turn.OutMessage [Text (notice_text notice)] None, notice)).

(** ** Rows the actor appends ahead of a turn *)

Definition append_user_message_with_platform_msg_id (c : list ContentBlock) (pid : string) : LM unit :=
  let* _ := ensure_seeded in
  let* _ := append (with_platform_msg_id (user c) pid) in ret tt.
Definition append_user_message (c : list ContentBlock) : LM unit := append_user_message_with_platform_msg_id c "".
Definition append_issue_brief (number : Z) (checkout brief : string) (files : list MediaBlock) : LM unit :=
  let* _ := ensure_seeded in
  let framed := Framing.frame_issue_brief number checkout brief in
  let* _ := append (issue_brief (prose_with_media framed files)) in ret tt.
Definition append_cron_fire (turn_id prompt : string) (context : option string) : LM unit :=
  let* _ := ensure_seeded in
  let framed := Framing.frame_cron_prompt_with_context turn_id prompt context in
  let* _ := append (cron_fire [Text framed]) in ret tt.
Definition append_once (source_event_id : string) (m : ChatMessage) : LM SessionLog.SessionMessageAppendOutcome :=
  on_keep (Upkeep.append_idempotent source_event_id m).
Definition append_cron_notification (c : list ContentBlock) (source_event_id : option string)
    : LM SessionLog.SessionMessageAppendOutcome :=
  let* _ := ensure_seeded in
  let message := cron_notification c in
  match source_event_id with
  | Some key => append_once key message
  | None => let* ordinal := append message in ret (SessionLog.Inserted ordinal)
  end.
Definition append_spawned_prompt (c : list ContentBlock) : LM unit :=
  let* _ := ensure_seeded in
  let* _ := append (subagent_seed c) in ret tt.
Definition append_background_notification_prompt_once (c : list ContentBlock) (source_event_id : string)
    : LM SessionLog.SessionMessageAppendOutcome :=
  let* _ := ensure_seeded in
  append_once source_event_id (agent_context c).
Definition set_notification_cue (armed : bool) : LM unit :=
  on_loop (set_cue (if armed then Some (agent_context Framing.build_retry_cue) else None)).

(** ** What a turn costs *)

Ltac spend := repeat first
  [ apply Scope.spends_ret | apply Scope.spends_throw | apply Scope.spends_gets | apply Scope.spends_ask
  | apply spends_on_loop | apply spends_on_keep
  | by apply Scope.spends_modify | by apply Scope.spends_mark
  | apply Scope.spends_when | apply Scope.spends_attempt | apply Scope.spends_step | apply Scope.spends_each; intros ?
  | apply Scope.spends_bind; [|intros ?] | progress case_match | progress cbn beta ].
(** An upper bound is enough. *)
Ltac free := apply (Scope.spends_le 0); [apply Nat.le_0_l|].

Lemma spends_recall q : Scope.spends 0 (recall_and_inject q).
Proof. unfold recall_and_inject, stopped, of_manager, of_loop. spend. Qed.
Lemma spends_interject query input : Scope.spends 0 (interject query input).
Proof.
  unfold interject, drain_user_interjections. spend; apply spends_recall.
Qed.
Lemma spends_summarizer_call request : Scope.spends 1 (summarizer_call request).
Proof.
  unfold summarizer_call. apply Scope.spends_bind; [apply Scope.spends_gets | intros [|]]; [free; apply Scope.spends_ret|].
  apply (Scope.spends_bind_le 1 0); [by apply (Scope.spends_note (Scope.Requested _)) | intros _ | done].
  unfold sanitized_error. spend.
Qed.
Lemma spends_attempts fuel n b request : Scope.spends fuel (summarizer_attempts fuel n b request).
Proof.
  revert n. induction fuel as [|fuel IH]; intros n; cbn [summarizer_attempts]; [apply Scope.spends_throw|].
  apply Scope.spends_bind; [apply spends_on_loop | intros _].
  apply (Scope.spends_bind_le 1 fuel); [apply Scope.spends_attempt, Scope.spends_llm_span | intros a | lia].
  { intros r. pose proof (spends_summarizer_call request r) as H. unfold draw.
    by destruct (summarizer_call _ r) as [r1 [[f v]|e]]. }
  destruct a as [summary|e]; [free; apply Scope.spends_ret|].
  apply Scope.spends_bind; [apply Scope.spends_gets | intros [|]]; [free; apply Scope.spends_ret|].
  apply Scope.spends_bind; [apply Scope.spends_gets | intros again].
  destruct (_ || _); [free; apply Scope.spends_ret | apply IH].
Qed.
Lemma spends_run_summarizer trigger request input :
  Scope.spends MAX_COMPACTION_ATTEMPTS (run_summarizer trigger request input).
Proof.
  unfold run_summarizer. apply Scope.spends_bind; [apply Scope.spends_gets | intros c].
  apply (Scope.spends_bind_le MAX_COMPACTION_ATTEMPTS 0); [|intros settled; apply Scope.spends_ret | lia].
  apply Scope.spends_attempt, Scope.spends_step, Scope.spends_bind; [apply Scope.spends_ask | intros recorded].
  apply spends_attempts.
Qed.
Lemma spends_compact forced : Scope.spends MAX_COMPACTION_ATTEMPTS (compact forced).
Proof.
  unfold compact, tool_defs, session_tool_defs, of_world, of_manager, of_loop.
  do 3 (apply Scope.spends_bind; [apply Scope.spends_gets | intros ?]). cbv zeta.
  apply (Scope.spends_bind_le MAX_COMPACTION_ATTEMPTS 0); [| intros answer; spend | lia].
  destruct (runs_pass _ _); [|free; apply Scope.spends_ret].
  apply Scope.spends_bind; [apply Scope.spends_ask | intros reads].
  apply Scope.spends_bind; [apply Scope.spends_gets | intros input]. apply spends_run_summarizer.
Qed.
Lemma spends_compress : Scope.spends MAX_COMPACTION_ATTEMPTS compress_if_needed.
Proof.
  unfold compress_if_needed, tool_defs, session_tool_defs, of_world, of_manager, of_loop, stopped, emit, emit_event, on_manager.
  do 3 (apply Scope.spends_bind; [apply Scope.spends_gets | intros ?]).
  apply Scope.spends_bind; [apply spends_on_keep | intros _]. cbv zeta.
  apply Scope.spends_bind; [spend | intros _].
  apply (Scope.spends_bind_le MAX_COMPACTION_ATTEMPTS 0); [apply spends_compact | intros outcome; spend | lia].
Qed.
Lemma spends_prepare i dirty inject query input : Scope.spends MAX_COMPACTION_ATTEMPTS (prepare i dirty inject query input).
Proof.
  unfold prepare. apply Scope.spends_bind; [destruct (Nat.ltb 1 i); [apply spends_interject | apply Scope.spends_ret] | intros input'].
  apply Scope.spends_bind; [unfold refresh_task_reminder, on_manager, emit, emit_event; spend | intros _].
  do 2 (apply Scope.spends_bind; [apply spends_on_keep | intros _]).
  apply (Scope.spends_bind_le MAX_COMPACTION_ATTEMPTS 0); [apply spends_compress | intros _; apply Scope.spends_ret | lia].
Qed.
Lemma spends_after_round turn i started mutated : Scope.spends 0 (after_round turn i started mutated).
Proof.
  unfold after_round, maybe_run_progress_observer, drain_observer, persist_progress_narration, request_messages, tool_defs,
    session_tool_defs, of_loop, of_world, stopped, emit, emit_event. spend.
Qed.

(** The requests of one iteration: the model's, with its retries, and those of
    the compaction before it. *)
Definition REQUESTS_PER_ITERATION : nat := MAX_COMPACTION_ATTEMPTS + CALLS_PER_ITERATION.
Lemma spends_iterate fuel turn inject started query i dirty input :
  Scope.spends ((max_iterations - i) * REQUESTS_PER_ITERATION) (iterate fuel turn inject started query i dirty input).
Proof.
  revert i dirty input. induction fuel as [|fuel IH]; intros i dirty input; cbn [iterate]; [free; apply Scope.spends_throw|].
  apply Scope.spends_bind; [apply Scope.spends_gets | intros [|]]; [free; apply Scope.spends_throw|].
  destruct (Nat.leb_spec max_iterations i); [free; apply Scope.spends_ret|]. cbv zeta.
  assert (E : (max_iterations - i) * REQUESTS_PER_ITERATION =
          MAX_COMPACTION_ATTEMPTS + (CALLS_PER_ITERATION + (max_iterations - Datatypes.S i) * REQUESTS_PER_ITERATION)).
  { replace (max_iterations - i) with (Datatypes.S (max_iterations - Datatypes.S i)) by lia. cbn [Nat.mul].
    unfold REQUESTS_PER_ITERATION at 1. lia. }
  rewrite E. eapply Scope.spends_bind_le; [apply spends_prepare | intros input' | reflexivity].
  eapply Scope.spends_bind_le; [unfold llm_iteration; apply Scope.spends_step | intros outcome | reflexivity].
  { apply (Scope.spends_bind_le CALLS_PER_ITERATION 0); [apply spends_iteration | intros o; apply Scope.spends_ret | lia]. }
  destruct outcome; [free; apply Scope.spends_ret|].
  apply Scope.spends_bind; [apply spends_after_round | intros _; apply IH].
Qed.
Definition TURN_BUDGET : nat := max_iterations * REQUESTS_PER_ITERATION.
Lemma spends_inner query kind turn : Scope.spends TURN_BUDGET (run_inner query kind turn).
Proof.
  unfold run_inner, ensure_seeded, on_manager, maybe_generate_title, of_loop, of_world, of_manager.
  apply Scope.spends_bind; [apply spends_on_keep | intros _]. apply Scope.spends_bind; [apply spends_on_loop | intros _].
  apply Scope.spends_bind; [apply spends_on_keep | intros _]. apply Scope.spends_bind; [spend | intros _].
  apply Scope.spends_bind; [apply spends_on_keep | intros _].
  apply Scope.spends_bind; [destruct query; [apply spends_recall | apply Scope.spends_ret] | intros _].
  apply Scope.spends_bind; [apply Scope.spends_ask | intros started]. apply Scope.spends_bind; [apply spends_on_loop | intros _].
  apply Scope.spends_bind; [apply Scope.spends_gets | intros inject].
  pose proof (spends_iterate (Datatypes.S max_iterations) turn inject started query 0 true (default [] query)) as H.
  by rewrite Nat.sub_0_r in H.
Qed.
Lemma spends_body query kind turn : Scope.spends TURN_BUDGET (turn_body query kind turn).
Proof.
  unfold turn_body, of_world. apply (Scope.spends_bind_le TURN_BUDGET 0); [apply spends_inner | intros [o p] | lia]. spend.
Qed.
Lemma iterate_fuel fuel extra turn inject started query i dirty input r : i <= max_iterations < fuel + i ->
  iterate (fuel + extra) turn inject started query i dirty input r =
  iterate fuel turn inject started query i dirty input r.
Proof.
  revert i dirty input r. induction fuel as [|fuel IH]; intros i dirty input r Hlt; [lia|].
  cbn [iterate Nat.add]. unfold bind, stopped, gets. destruct (Scope.is_cancelled token r); [done|].
  destruct (Nat.leb_spec max_iterations i); [done|]. cbv zeta.
  destruct (prepare _ _ _ _ _ r) as [r1 [input'|e]]; [|done].
  destruct (llm_iteration turn r1) as [r2 [[o|m]|e]]; [done | | done].
  destruct (after_round _ _ _ _ r2) as [r3 [|]]; [|done]. apply IH. lia.
Qed.
(** C7: a turn asks the model a bounded number of times and leaves a well-nested
    trace.  Whatever the model, the tools and the user send, the loops of a turn
    end by their own counts, so that more fuel changes no run of them; every step
    and span the turn opens is closed, inside the one it was opened in; and the
    requests that go out, retries and compactions included, are at most thirteen
    for each of the iterations the loop is allowed. *)
Theorem turn_is_bounded turn_input parent r :
  (forall extra (r' : RT), retry_loop turn_error_text effective_effort caller allowlist initial_effort streaming token
                      (CALLS_PER_ITERATION + extra) 0 r' =
                    call_llm_with_retry turn_error_text effective_effort caller allowlist initial_effort streaming token r') /\
  (forall extra turn inject started query dirty input (r' : RT),
     iterate (Datatypes.S max_iterations + extra) turn inject started query 0 dirty input r' =
     iterate (Datatypes.S max_iterations) turn inject started query 0 dirty input r') /\
  exists es, Scope.trace (run turn_input parent r).1 = Scope.trace r ++ es /\ Scope.balanced es /\
    Scope.requests es <= max_iterations * 13.
Proof.
  split_and!.
  - intros extra r'. apply retry_fuel. unfold CALLS_PER_ITERATION. lia.
  - intros. apply iterate_fuel. lia.
  - assert (H : Scope.writes TURN_BUDGET (run turn_input parent)); [|exact (H r)].
    unfold run, refresh_active_llm, of_world, of_loop, on_manager.
    apply Scope.writes_bind; [apply Scope.spends_writes; spend | intros _].
    apply (Scope.writes_bind_le TURN_BUDGET 0); [apply Scope.writes_turn, spends_body | intros [o p] | lia].
    apply Scope.spends_writes. unfold spawn_turn_complete_write. spend.
Qed.

(** ** How a turn ends *)


Section Unwritten.
Context (l : list (TurnId * list ContentBlock * list ContentBlock)).


End Unwritten.



Section Settled.
Context {HS : Lifecycle.TurnStoreLaws S}.
Context (Hreads : forall i s, is_Ok (Lifecycle.store_get i s).2 = true).
Context (Hwrites : forall row s, is_Ok (Lifecycle.store_save row s).2 = true).
Context (Hcodec : forall t st e, is_Ok (Turn.serialize_turn t) = true ->
  is_Ok (Turn.serialize_turn (Turn.set_status st (Turn.set_ended_at e t))) = true).




End Settled.
End Turns.

(** ** A concrete turn *)

Module Sample.
(** The world counts; the model calls the deployment tool, then reports. *)
#[export] Instance tokenizer : Tokens.Tokenizer := {
  Tokens.text_tokens s := N.of_nat (String.length s);
  Tokens.count_message _ := 10%N;
  Tokens.count_message_media _ _ := 0%N;
}.
#[export] Instance chrono : SessionLog.Chrono := { SessionLog.to_us t := t; SessionLog.from_us u := Some u }.
#[export] Instance differ : PromptUpdate.Differ := {
  PromptUpdate.lines_diff a b := (if String.eqb a b then "" else "+" +:+ b)%string;
  PromptUpdate.patch a d := match d with String _ b => Some b | EmptyString => Some a end;
}.
#[export] Instance upkeep : Upkeep.World N := {
  Upkeep.append_answer w := ((w + 1)%N, Ok (Z.of_N w));
  Upkeep.assemble w := (w, Some (PromptUpdate.opaque "be brief"));
  Upkeep.profile_prompt _ _ := None;
  Upkeep.stat _ w := (w, None);
  Upkeep.read_to_string _ w := (w, None);
  Upkeep.registry _ := Skill.new;
  Upkeep.spill _ w := (w, None);
}.
#[export] Instance gateway : Streaming.Gateway N := {
  Streaming.sanitize_stream_fragment s w := (w, Some s);
  Streaming.sanitize_llm_response a w := (w, a);
  Streaming.detect_injection _ := [];
}.
Definition is_result_row (m : ChatMessage) : bool := bool_decide (role m = Tool).
Definition reply (req : Request) : Streaming.LlmResponse :=
  if existsb is_result_row (req_messages req) then
    Streaming.mk_response "deployed" [] [] Streaming.no_usage None
  else
    Streaming.mk_response "" []
      [Streaming.mk_call "toolu_1" "Deploy" (JBool true) None] Streaming.no_usage None.
#[export] Instance provider : Provider N := {
  chat req w := (w, Some (Ok (reply req)));
  chat_stream _ w := (w, None);
  record_tool_set _ w := (w, Ok "tools"%string);
  marker_reads w := (w, Hydration.mk_reads true true true true);
  count_taken w := (w, true);
  sleep_cut _ w := (w, false);
  next_answer rest w := (w, head rest);
  drop_calls _ w := (w, []);
  tool_registry _ := ToolExecutor.Sample.registry;
  approval_gates _ := ToolExecutor.Sample.gates;
  read_tracker _ := ReadTracker.empty_tracker;
  put_read_tracker _ w := w;
  canonicalize _ p := Some p;
}.
Definition model : Client := mk_client 1 "m" "p" 100000 Tokens.Native.
#[export] Instance surroundings : Surroundings N := {
  resolve_llm _ := model;
  delivers_image_block _ _ := false;
  list_tasks w := (w, Ok []);
  recall _ w := (w, Ok ["the user deploys on Fridays"%string]);
  drain_injectable w := (w, []);
  silence_requested _ := false;
  observer_finished w := (w, None);
  latest_ordinal_read w := (w, true);
  append_progress_event _ _ w := w;
  instant w := (w, Z.of_N w);
  transcript_file _ := "/t"%string;
  compaction_answer w := (w, Ok 0%Z);
  skills_answer _ := ContextManager.mk_skills None (fun _ => None) (fun _ => None);
}.
#[export] Existing Instances ToolExecutor.Sample.willing Scope.Sample.counter
  Scope.Sample.any_status InvokeParams.Sample.constant_schema Lifecycle.MemoryTurnStore Lifecycle.MemoryTurnStore_laws.

Definition blank : Loop (V := json) :=
  mk_loop (Hydration.mk_session (SessionLog.mk_store [] None)
             (ContextManager.set_active_model_context_window 100000
                (ContextManager.from_config 4 Tokens.DEFAULT_THRESHOLD 0 None)))
    [] (ToolExecutor.mk_exec [] ∅ None None ToolTrace.new_recorder [] []) ProgressLedger.clear [] ∅ model None 0 0 0 false
    [] false false (mk_observer None [] false) [] [].
Definition idle : Scope.Runtime N (gmap TurnId Turn.TurnRow) LlmCallBegin Loop :=
  Scope.mk_runtime 100%N (Lifecycle.mk_lifecycle ∅ ∅ ∅ []) [] blank.
Definition bound : Upkeep.Binding := Upkeep.mk_binding "s" "cli" None None [].
Definition turn : Scope.Runtime N (gmap TurnId Turn.TurnRow) LlmCallBegin Loop * result OutgoingMessage Scope.Error :=
  run (fun _ => EmptyString) InvokeParams.Sample.text (fun _ => JNull) (fun _ => 0%Z) (fun e => e) (fun s => s)
    ToolExecutor.Sample.user None None false 9%N bound false false 5 true false false false false
    (Turn.UserChat [Text "ship it"]) None idle.
End Sample.
#[local] Existing Instances Sample.chrono Sample.differ Sample.upkeep Sample.gateway Sample.provider Sample.surroundings
  Sample.tokenizer ToolExecutor.Sample.willing Scope.Sample.counter Scope.Sample.any_status
  InvokeParams.Sample.constant_schema Lifecycle.MemoryTurnStore Lifecycle.MemoryTurnStore_laws.

End AgentLoop.
