(* ===== verification/Cost.v ===== *)
(** * The cost manager ([crates/cost/src/manager.rs], [crates/storage/src/sqlite/cost.rs])

    One manager prices every model call, adds it to the spend of the day and of
    the month in memory, and writes a row per call in a detached task.  A gate
    refuses calls once a cap is reached.  At boot the two sums are read back from
    the rows. *)

From S2P Require Import Prelude Money Message Turn Streaming Mailbox.
Import Money.

Module Cost.

Abbreviation Time := Turn.Time.
Abbreviation TokenUsage := Streaming.TokenUsage.

(** ** Data *)

Record ModelPricing := mk_pricing {
  input_per_1m_tokens : MicroUsd;
  output_per_1m_tokens : MicroUsd;
  cached_input_per_1m_tokens : option MicroUsd;
  cache_write_per_1m_tokens : option MicroUsd;
}.
Record Attribution := mk_attribution {
  user_id : string;
  session_id : string;
  turn_id : Turn.TurnId;
  span_id : Turn.SpanId;
  reason : Message.CallReason;
}.
Record CostRecord := mk_record {
  attribution : Attribution;
  model : string;
  reasoning_effort : option string;
  usage : TokenUsage;
  cost_usd : MicroUsd;
  timestamp : Time;
}.
Record TimeRange := mk_range { from : Time; to : Time }.

Inductive CostGuardError :=
| DailyLimitExceeded (current limit : MicroUsd)
| MonthlyLimitExceeded (current limit : MicroUsd).
Record SpendingLimits := mk_limits { daily_usd : option MicroUsd; monthly_usd : option MicroUsd }.

Record CostMetrics := mk_metrics { recorded_events : N; persist_failures : N }.

(** A day is a number and a month a pair, as the calendar answers them. *)
Record BudgetState := mk_budget {
  daily : MicroUsd;
  daily_date : option Z;
  monthly : MicroUsd;
  monthly_year_month : option (Z * Z);
}.
Definition default_budget : BudgetState := mk_budget ZERO None ZERO None.

(** [inflight] are the rows of the detached tasks that have not finished. *)
Record CostManager := mk_manager {
  store : list CostRecord;
  pricing : gmap string ModelPricing;
  limits : SpendingLimits;
  state : BudgetState;
  metrics : CostMetrics;
  inflight : list CostRecord;
}.

(** chrono's calendar, and the order in which rows are answered. *)
Class Calendar := {
  day_of : Time -> Z;
  month_of : Time -> Z * Z;
  utc_day_start : Time -> option Time;
  utc_month_start : Time -> option Time;
  order_rows : list CostRecord -> list CostRecord;
}.
(** Windows are intervals of time, each with a first instant. *)
Definition windows {K} (f : Time -> K) : Prop := forall a b c, (a <= b <= c)%Z -> f a = f c -> f b = f a.
Definition starts {K} (f : Time -> K) (start : Time -> option Time) : Prop :=
  forall t, exists s, start t = Some s /\ forall a, (a <= t)%Z -> (s <= a)%Z <-> f a = f t.
Class CalendarLaws (C : Calendar) := {
  day_windows : windows day_of;
  month_windows : windows month_of;
  day_starts : starts day_of utc_day_start;
  month_starts : starts month_of utc_month_start;
  order_rows_perm l : order_rows l ≡ₚ l;
}.

(** ** Operations *)

Section Ops.
Context {C : Calendar}.

(** [usize] saturates; the token counts are cast to [u64]. *)
Definition usize_max : N := 18446744073709551615.
Definition compute_cost_usd (prices : gmap string ModelPricing) (model_id : string) (u : TokenUsage) : MicroUsd :=
  match prices !! model_id with
  | None => ZERO
  | Some p =>
      let cached_subset := N.min usize_max (Streaming.cached_input_tokens u + Streaming.cache_creation_input_tokens u) in
      let full_rate_input := (Streaming.input_tokens u - cached_subset)%N in
      let cached_rate := default (input_per_1m_tokens p) (cached_input_per_1m_tokens p) in
      let cache_write_rate := default (input_per_1m_tokens p) (cache_write_per_1m_tokens p) in
      let c rate n := cost_for_tokens rate (Z.of_N n) in
      add (add (add (c (input_per_1m_tokens p) full_rate_input)
                    (c cached_rate (Streaming.cached_input_tokens u)))
               (c cache_write_rate (Streaming.cache_creation_input_tokens u)))
          (c (output_per_1m_tokens p) (Streaming.output_tokens u))
  end.

Definition roll_to (today : Z) (year_month : Z * Z) (s : BudgetState) : BudgetState :=
  let s := if decide (daily_date s = Some today) then s
           else mk_budget ZERO (Some today) (monthly s) (monthly_year_month s) in
  if decide (monthly_year_month s = Some year_month) then s
  else mk_budget (daily s) (daily_date s) ZERO (Some year_month).
Definition daily_for (today : Z) (s : BudgetState) : MicroUsd :=
  if decide (daily_date s = Some today) then daily s else ZERO.
Definition monthly_for (year_month : Z * Z) (s : BudgetState) : MicroUsd :=
  if decide (monthly_year_month s = Some year_month) then monthly s else ZERO.

Definition new (rows : list CostRecord) (prices : gmap string ModelPricing) (l : SpendingLimits) : CostManager :=
  mk_manager rows prices l default_budget (mk_metrics 0 0) [].
Definition set_limits (l : SpendingLimits) (c : CostManager) : CostManager :=
  mk_manager (store c) (pricing c) l (state c) (metrics c) (inflight c).
Definition set_state (s : BudgetState) (c : CostManager) : CostManager :=
  mk_manager (store c) (pricing c) (limits c) s (metrics c) (inflight c).
(** A drift only warns. *)
Definition merge_pricings (overlay : gmap string ModelPricing) (c : CostManager) : CostManager :=
  mk_manager (store c) (overlay ∪ pricing c) (limits c) (state c) (metrics c) (inflight c).
Definition cost_usd_for (c : CostManager) (model_id : string) (u : TokenUsage) : MicroUsd :=
  compute_cost_usd (pricing c) model_id u.

Definition query_records_in_range (r : TimeRange) (rows : list CostRecord) : list CostRecord :=
  order_rows (List.filter (fun x => (from r <=? timestamp x)%Z && (timestamp x <? to r)%Z) rows).
Definition total (rows : list CostRecord) : MicroUsd := Money.sum (map cost_usd rows).

(** [day_fails] and [month_fails]: the query errs. *)
Definition hydrate (now : Time) (day_fails month_fails : bool) (c : CostManager) : CostManager :=
  match utc_day_start now, utc_month_start now with
  | Some day_start, Some month_start =>
      let s := state c in
      let s := if day_fails then s
               else mk_budget (total (query_records_in_range (mk_range day_start now) (store c))) (Some (day_of now))
                      (monthly s) (monthly_year_month s) in
      let s := if month_fails then s
               else mk_budget (daily s) (daily_date s)
                      (total (query_records_in_range (mk_range month_start now) (store c))) (Some (month_of now)) in
      set_state s c
  | _, _ => c
  end.

Definition spawn_persist (r : CostRecord) (c : CostManager) : CostManager :=
  mk_manager (store c) (pricing c) (limits c) (state c) (metrics c) (inflight c ++ [r]).
(** The end of the [k]-th task in flight: its row is in, or the write erred. *)
Definition persist (k : nat) (ok : bool) (c : CostManager) : CostManager :=
  match inflight c !! k with
  | None => c
  | Some r =>
      let m := metrics c in
      mk_manager (if ok then store c ++ [r] else store c) (pricing c) (limits c) (state c)
        (if ok then mk_metrics (recorded_events m + 1) (persist_failures m)
         else mk_metrics (recorded_events m) (persist_failures m + 1))
        (delete k (inflight c))
  end.

Definition bill (now : Time) (cost : MicroUsd) (s : BudgetState) : BudgetState :=
  if (micros ZERO <? micros cost)%Z then
    let s := roll_to (day_of now) (month_of now) s in
    mk_budget (add (daily s) cost) (daily_date s) (add (monthly s) cost) (monthly_year_month s)
  else s.
Definition record_call (now : Time) (a : Attribution) (model_id : string) (effort : option string) (u : TokenUsage)
    (c : CostManager) : CostManager * MicroUsd :=
  let cost := compute_cost_usd (pricing c) model_id u in
  (spawn_persist (mk_record a model_id effort u cost now) (set_state (bill now cost (state c)) c), cost).
Definition record_external_tokens (now : Time) (a : Attribution) (model_id : string) (u : TokenUsage)
    (c : CostManager) : CostManager :=
  spawn_persist (mk_record a model_id None u ZERO now) c.

Definition check (now : Time) (c : CostManager) : result unit CostGuardError :=
  let over cap spent (err : MicroUsd -> MicroUsd -> CostGuardError) : result unit CostGuardError :=
    match cap with
    | Some limit => if (micros limit <=? micros spent)%Z then Err (err spent limit) else Ok tt
    | None => Ok tt
    end in
  let? _ := over (daily_usd (limits c)) (daily_for (day_of now) (state c)) DailyLimitExceeded in
  over (monthly_usd (limits c)) (monthly_for (month_of now) (state c)) MonthlyLimitExceeded.

(** ** Histories *)

Inductive event :=
| RecordCall (now : Time) (a : Attribution) (model_id : string) (effort : option string) (u : TokenUsage)
| RecordExternal (now : Time) (a : Attribution) (model_id : string) (u : TokenUsage)
| Persisted (k : nat) (ok : bool)
| SetLimits (l : SpendingLimits)
| MergePricings (overlay : gmap string ModelPricing).
Definition run_event (e : event) (c : CostManager) : CostManager :=
  match e with
  | RecordCall now a m effort u => (record_call now a m effort u c).1
  | RecordExternal now a m u => record_external_tokens now a m u c
  | Persisted k ok => persist k ok c
  | SetLimits l => set_limits l c
  | MergePricings overlay => merge_pricings overlay c
  end.
Fixpoint run (es : list event) (c : CostManager) : CostManager :=
  match es with [] => c | e :: es => run es (run_event e c) end.
(** The rows a history issues, whether or not they are ever written. *)
Definition issues (e : event) (c : CostManager) : list CostRecord :=
  match e with
  | RecordCall now a m effort u => [mk_record a m effort u (compute_cost_usd (pricing c) m u) now]
  | RecordExternal now a m u => [mk_record a m None u ZERO now]
  | _ => []
  end.
Fixpoint ledger (es : list event) (c : CostManager) : list CostRecord :=
  match es with [] => [] | e :: es => issues e c ++ ledger es (run_event e c) end.

(** Prices are not negative, and the clock does not step back. *)
Definition pricing_ok (p : ModelPricing) : Prop :=
  (0 <= micros (input_per_1m_tokens p))%Z /\ (0 <= micros (output_per_1m_tokens p))%Z /\
  (forall r, cached_input_per_1m_tokens p = Some r -> (0 <= micros r)%Z) /\
  (forall r, cache_write_per_1m_tokens p = Some r -> (0 <= micros r)%Z).
Definition prices_ok (prices : gmap string ModelPricing) : Prop := map_Forall (fun _ p => pricing_ok p) prices.
Definition event_time (e : event) : option Time :=
  match e with RecordCall now _ _ _ _ | RecordExternal now _ _ _ => Some now | _ => None end.
Fixpoint history_ok (t : Time) (es : list event) : Prop :=
  match es with
  | [] => True
  | e :: es =>
      (forall overlay, e = MergePricings overlay -> prices_ok overlay) /\
      match event_time e with
      | Some now => (t <= now)%Z /\ history_ok now es
      | None => history_ok t es
      end
  end.
Fixpoint last_time (t : Time) (es : list event) : Time :=
  match es with [] => t | e :: es => last_time (default t (event_time e)) es end.

(** ** What the gate should answer

    From the rows alone: what was spent in the window of [now]. *)
Definition spent {K} `{EqDecision K} (f : Time -> K) (k : K) (rows : list CostRecord) : Z :=
  Z.min i64_max (exact_total (map cost_usd (List.filter (fun r => bool_decide (f (timestamp r) = k)) rows))).
Definition verdict (l : SpendingLimits) (day month : Z) : result unit CostGuardError :=
  match daily_usd l with
  | Some cap =>
      if (micros cap <=? day)%Z then Err (DailyLimitExceeded (from_micros day) cap)
      else match monthly_usd l with
           | Some cap => if (micros cap <=? month)%Z then Err (MonthlyLimitExceeded (from_micros month) cap) else Ok tt
           | None => Ok tt
           end
  | None =>
      match monthly_usd l with
      | Some cap => if (micros cap <=? month)%Z then Err (MonthlyLimitExceeded (from_micros month) cap) else Ok tt
      | None => Ok tt
      end
  end.
Definition answer (l : SpendingLimits) (now : Time) (rows : list CostRecord) : result unit CostGuardError :=
  verdict l (spent day_of (day_of now) rows) (spent month_of (month_of now) rows).
End Ops.

(** ** Sums *)

Definition nonneg (rows : list CostRecord) : Prop := Forall (fun r => (0 <= micros (cost_usd r))%Z) rows.

Lemma exact_total_app l l' : exact_total (l ++ l') = (exact_total l + exact_total l')%Z.
Proof. induction l; cbn; lia. Qed.
Lemma exact_total_perm l l' : l ≡ₚ l' -> exact_total l = exact_total l'.
Proof. induction 1; cbn; lia. Qed.
Lemma amounts_nonneg rows : nonneg rows -> Forall (fun m => 0 <= micros m)%Z (map cost_usd rows).
Proof. intros H. by apply Forall_fmap. Qed.
Lemma kept_nonneg p rows : nonneg rows -> nonneg (List.filter p rows).
Proof. induction 1 as [|r rows H Hr IH]; [constructor|]. cbn. destruct (p r); [by constructor | done]. Qed.
Lemma total_spec rows : nonneg rows -> micros (total rows) = Z.min i64_max (exact_total (map cost_usd rows)).
Proof.
  intros Hn. unfold total, Money.sum. rewrite sum_from_nonneg; [cbn; lia | cbn; unfold_ints; lia | by apply amounts_nonneg].
Qed.
Lemma kept_none {A} (p : A -> bool) l : (forall a, a ∈ l -> p a = false) -> List.filter p l = [].
Proof.
  induction l as [|a l IH]; intros H; [done|]. cbn. rewrite H by constructor. apply IH. intros; apply H; by constructor 2.
Qed.
Lemma kept_ext {A} (p q : A -> bool) l : (forall a, a ∈ l -> p a = q a) -> List.filter p l = List.filter q l.
Proof.
  induction l as [|a l IH]; intros H; [done|]. cbn. rewrite H by constructor.
  rewrite IH; [done|]. intros; apply H; by constructor 2.
Qed.

Section Window.
Context {K : Type} `{EqDecision K} (f : Time -> K) (Hf : windows f).

(** The accumulator of a window shows the rows, from [t] on. *)
Definition shows (date : option K) (acc : MicroUsd) (t : Time) (rows : list CostRecord) : Prop :=
  forall now, (t <= now)%Z -> (if decide (date = Some (f now)) then micros acc else 0%Z) = spent f (f now) rows.

Lemma spent_range k rows : nonneg rows -> (0 <= spent f k rows <= i64_max)%Z.
Proof using Type.
  intros Hn. unfold spent. pose proof (exact_total_nonneg _ (amounts_nonneg _ (kept_nonneg (fun r => bool_decide (f (timestamp r) = k)) _ Hn))).
  unfold_ints; lia.
Qed.
Lemma spent_snoc k rows r : nonneg rows -> (0 <= micros (cost_usd r))%Z ->
  spent f k (rows ++ [r]) =
  if decide (f (timestamp r) = k) then Z.min i64_max (spent f k rows + micros (cost_usd r)) else spent f k rows.
Proof using Type.
  intros Hn Hr. unfold spent. rewrite List.filter_app. cbn.
  pose proof (exact_total_nonneg _ (amounts_nonneg _ (kept_nonneg (fun r => bool_decide (f (timestamp r) = k)) _ Hn))).
  destruct (decide (f (timestamp r) = k)) as [E|E].
  - rewrite bool_decide_eq_true_2, map_app, exact_total_app by done. cbn. lia.
  - rewrite bool_decide_eq_false_2 by done. by rewrite app_nil_r.
Qed.
Lemma spent_perm k rows rows' : rows ≡ₚ rows' -> spent f k rows = spent f k rows'.
Proof using Type.
  intros H. unfold spent. f_equal. apply exact_total_perm. apply (fmap_Permutation cost_usd).
  induction H as [|x l l' _ IH|x y l|l1 l2 l3 _ IH1 _ IH2]; cbn; try done.
  - destruct (bool_decide _); [by constructor | done].
  - destruct (bool_decide _), (bool_decide _); try done. constructor.
  - by etrans.
Qed.
(** A window that starts after the last row is empty. *)
Lemma spent_none t now rows :
  (t <= now)%Z -> f t <> f now -> Forall (fun r => (timestamp r <= t)%Z) rows -> spent f (f now) rows = 0%Z.
Proof using Hf.
  intros Ht Hne Hrows. unfold spent. rewrite kept_none; [cbn; unfold_ints; lia|].
  intros r Hr. apply bool_decide_eq_false_2. intros E. apply Hne. rewrite Forall_forall in Hrows.
  specialize (Hrows r Hr). rewrite <- E. apply (Hf (timestamp r) t now); [lia | done].
Qed.

Lemma shows_later date acc t t' rows : (t <= t')%Z -> shows date acc t rows -> shows date acc t' rows.
Proof using Type. intros Ht H now Hn. apply H. lia. Qed.
Lemma shows_free date acc t rows r :
  shows date acc t rows -> nonneg rows -> micros (cost_usd r) = 0%Z -> shows date acc t (rows ++ [r]).
Proof using Type.
  intros H Hn Hr now Hnow. rewrite spent_snoc, (H now Hnow), Hr by (done || lia). pose proof (spent_range (f now) rows Hn).
  destruct (decide (f (timestamp r) = f now)); lia.
Qed.
Lemma shows_billed date acc t now rows r :
  shows date acc t rows -> nonneg rows -> Forall (fun r => (timestamp r <= t)%Z) rows -> (t <= now)%Z ->
  timestamp r = now -> (0 <= micros (cost_usd r))%Z ->
  shows (Some (f now)) (add (if decide (date = Some (f now)) then acc else ZERO) (cost_usd r)) now (rows ++ [r]).
Proof using Hf.
  intros H Hn Hrows Ht Hr Hc now' Hnow. rewrite spent_snoc, Hr by done.
  destruct (decide (Some (f now) = Some (f now'))) as [[= E]|E].
  - rewrite E. destruct (decide (f now' = f now')); [|done]. pose proof (H now' ltac:(lia)) as Hs.
    pose proof (spent_range (f now') rows Hn) as Hrange. revert Hs Hrange. generalize (spent f (f now') rows).
    destruct (decide (date = Some (f now'))); intros z Hs Hrange; cbn; int_cases.
  - destruct (decide (f now = f now')); [congruence|]. symmetry. apply (spent_none now); [lia | congruence |].
    eapply Forall_impl; [exact Hrows | cbn; lia].
Qed.
Lemma shows_hydrated `{Calendar} start t now rows :
  starts f start -> start now = Some t -> (forall l, order_rows l ≡ₚ l) -> nonneg rows ->
  Forall (fun r => (timestamp r < now)%Z) rows ->
  shows (Some (f now)) (total (query_records_in_range (mk_range t now) rows)) now rows.
Proof using Hf.
  intros Hs Hst Hp Hn Hrows now' Hnow. destruct (decide _) as [[= E]|E].
  - unfold query_records_in_range. rewrite total_spec; cbn.
    + unfold spent. f_equal. apply exact_total_perm. rewrite <- E. apply (fmap_Permutation cost_usd). rewrite Hp.
      erewrite kept_ext; [reflexivity|]. intros r Hr. destruct (Hs now) as (s & Hs' & Hin). rewrite Hst in Hs'.
      injection Hs' as <-. rewrite Forall_forall in Hrows. specialize (Hrows r Hr). specialize (Hin (timestamp r) ltac:(lia)).
      apply eq_true_iff_eq. rewrite andb_true_iff, bool_decide_eq_true. rewrite <- Hin. lia.
    + unfold nonneg. rewrite Hp. by apply kept_nonneg.
  - symmetry. apply (spent_none now); [done | congruence |]. eapply Forall_impl; [exact Hrows | cbn; lia].
Qed.
End Window.

(** ** The gate *)

Section Gate.
Context {C : Calendar} {L : CalendarLaws C}.

Lemma cost_nonneg rate n : (0 <= micros rate)%Z -> (0 <= micros (cost_for_tokens rate (Z.of_N n)))%Z.
Proof using Type.
  intros H. cbn. assert (0 <= Z.quot (Z.of_N n * micros rate) 1000000)%Z by (apply Z.quot_pos; [nia | lia]). int_cases.
Qed.
Lemma add_nonneg a b : (0 <= micros a)%Z -> (0 <= micros b)%Z -> (0 <= micros (add a b))%Z.
Proof using Type. intros. cbn. int_cases. Qed.
Lemma compute_cost_nonneg prices m u : prices_ok prices -> (0 <= micros (compute_cost_usd prices m u))%Z.
Proof using Type.
  intros Hp. unfold compute_cost_usd. destruct (prices !! m) as [p|] eqn:E; [|done].
  destruct (Hp m p E) as (Hi & Ho & Hc & Hw).
  assert (0 <= micros (default (input_per_1m_tokens p) (cached_input_per_1m_tokens p)))%Z.
  { destruct (cached_input_per_1m_tokens p) as [r|]; [by apply (Hc r) | done]. }
  assert (0 <= micros (default (input_per_1m_tokens p) (cache_write_per_1m_tokens p)))%Z.
  { destruct (cache_write_per_1m_tokens p) as [r|]; [by apply (Hw r) | done]. }
  repeat apply add_nonneg; by apply cost_nonneg.
Qed.

(** From [t] on the two accumulators show [rows]. *)
Record inv (t : Time) (rows : list CostRecord) (c : CostManager) : Prop := {
  inv_prices : prices_ok (pricing c);
  inv_nonneg : nonneg rows;
  inv_times : Forall (fun r => (timestamp r <= t)%Z) rows;
  inv_day : shows day_of (daily_date (state c)) (daily (state c)) t rows;
  inv_month : shows month_of (monthly_year_month (state c)) (monthly (state c)) t rows;
}.

Lemma bill_accounts now cost s : (micros ZERO <? micros cost)%Z = true ->
  bill now cost s =
  mk_budget (add (if decide (daily_date s = Some (day_of now)) then daily s else ZERO) cost) (Some (day_of now))
    (add (if decide (monthly_year_month s = Some (month_of now)) then monthly s else ZERO) cost) (Some (month_of now)).
Proof using Type.
  intros Hc. unfold bill. rewrite Hc. unfold roll_to.
  destruct (decide (daily_date s = _)) as [Ed|Ed]; cbn; destruct (decide (monthly_year_month s = _)) as [Em|Em]; cbn; congruence.
Qed.
Lemma record_call_inv t rows c now a m effort u :
  inv t rows c -> (t <= now)%Z ->
  inv now (rows ++ issues (RecordCall now a m effort u) c) (record_call now a m effort u c).1.
Proof using L.
  intros [Hp Hn Ht Hd Hm] Hnow. set (r := mk_record a m effort u (compute_cost_usd (pricing c) m u) now).
  assert (Hr : (0 <= micros (cost_usd r))%Z) by by apply compute_cost_nonneg.
  cbn [issues]. fold r. split; cbn; [done | by apply Forall_app_2; [|repeat constructor] | | |].
  - apply Forall_app_2; [eapply Forall_impl; [exact Ht | cbn; lia] | repeat constructor; cbn; lia].
  - destruct (micros ZERO <? micros (cost_usd r))%Z eqn:E.
    + rewrite bill_accounts by done. cbn. by apply (shows_billed day_of day_windows _ _ t now rows r).
    + unfold bill. cbn in E, Hr |- *. rewrite E. apply shows_free; [by eapply shows_later | done | apply Z.ltb_ge in E; cbn; lia].
  - destruct (micros ZERO <? micros (cost_usd r))%Z eqn:E.
    + rewrite bill_accounts by done. cbn. by apply (shows_billed month_of month_windows _ _ t now rows r).
    + unfold bill. cbn in E, Hr |- *. rewrite E. apply shows_free; [by eapply shows_later | done | apply Z.ltb_ge in E; cbn; lia].
Qed.
Lemma run_event_inv t rows c e :
  inv t rows c -> (forall overlay, e = MergePricings overlay -> prices_ok overlay) ->
  (forall now, event_time e = Some now -> (t <= now)%Z) ->
  inv (default t (event_time e)) (rows ++ issues e c) (run_event e c).
Proof using L.
  intros Hi Ho Ht. destruct e as [now a m effort u|now a m u|k ok|l|overlay]; cbn [event_time default issues run_event].
  - by apply (record_call_inv t); [|apply Ht].
  - specialize (Ht now eq_refl). destruct Hi as [Hp Hn Hts Hd Hm]. split; cbn.
    + done.
    + apply Forall_app_2; [done | repeat constructor; cbn; lia].
    + apply Forall_app_2; [eapply Forall_impl; [exact Hts | cbn; lia] | repeat constructor; cbn; lia].
    + apply shows_free; [by eapply shows_later | done | done].
    + apply shows_free; [by eapply shows_later | done | done].
  - rewrite app_nil_r. unfold persist. destruct (inflight c !! k); [|done]. destruct Hi. by split.
  - rewrite app_nil_r. destruct Hi. by split.
  - rewrite app_nil_r. destruct Hi as [Hp Hn Hts Hd Hm]. split; try done. cbn. by apply map_Forall_union_2; [apply Ho|].
Qed.
Lemma history_inv es : forall t rows c, inv t rows c -> history_ok t es -> inv (last_time t es) (rows ++ ledger es c) (run es c).
Proof using L.
  induction es as [|e es IH]; intros t rows c Hi Hh; cbn; [by rewrite app_nil_r|].
  destruct Hh as [Ho Hh]. rewrite app_assoc. apply IH.
  - apply run_event_inv; [done..|]. intros now E. rewrite E in Hh. by destruct Hh.
  - destruct (event_time e); cbn; [by destruct Hh | done].
Qed.
Lemma hydrate_inv now c : prices_ok (pricing c) -> nonneg (store c) ->
  Forall (fun r => (timestamp r < now)%Z) (store c) -> inv now (store c) (hydrate now false false c).
Proof using L.
  intros Hp Hn Ht. unfold hydrate.
  destruct (day_starts now) as (d & Hd & _), (month_starts now) as (m & Hm & _). rewrite Hd, Hm.
  split; cbn; [done.. | eapply Forall_impl; [exact Ht | cbn; lia] | |].
  - by apply (shows_hydrated day_of day_windows utc_day_start d now); [apply day_starts | | apply order_rows_perm | |].
  - by apply (shows_hydrated month_of month_windows utc_month_start m now); [apply month_starts | | apply order_rows_perm | |].
Qed.

Lemma check_answers t rows c now : inv t rows c -> (t <= now)%Z -> check now c = answer (limits c) now rows.
Proof using Type.
  intros [_ _ _ Hd Hm] Ht. unfold check, answer, verdict, daily_for, monthly_for.
  rewrite <- (Hd now Ht), <- (Hm now Ht).
  assert (Heta : forall x, from_micros (micros x) = x) by by intros [].
  destruct (daily_usd (limits c)) as [cap|]; cbn; [|clear Hd];
    repeat destruct (decide _); cbn; rewrite ?Heta;
    repeat match goal with
    | |- context [if (?a <=? ?b)%Z then _ else _] => destruct (a <=? b)%Z; cbn
    | |- context [match ?x with Some _ => _ | None => _ end] => destruct x; cbn end; try done;
    by rewrite ?Heta.
Qed.

(** C26: the gate answers from every call ever billed.  Read the sums back at
    boot, then let calls be recorded, rows be written or lost, caps and prices
    change, in any order: at any later instant the gate refuses exactly when
    the calls of this day reached the daily cap, or those of this month the
    monthly one, where what counts is every row that was stored before the boot
    and every call recorded since, written yet or not, each at the price of its
    moment, the sum capped at what an [i64] holds. *)
Theorem budget_gate_exact boot es now rows prices l
    (Hp : prices_ok prices) (Hn : nonneg rows) (Hrows : Forall (fun r => (timestamp r < boot)%Z) rows)
    (Hes : history_ok boot es) (Hnow : (last_time boot es <= now)%Z) :
  let c := hydrate boot false false (new rows prices l) in
  check now (run es c) = answer (limits (run es c)) now (rows ++ ledger es c).
Proof using L.
  cbv zeta. eapply check_answers; [apply history_inv; [by apply (hydrate_inv boot (new rows prices l)) | done] | done].
Qed.

(** *** Rows *)

Definition conserved (issued : list CostRecord) (c : CostManager) : Prop :=
  persist_failures (metrics c) = 0%N -> store c ++ inflight c ≡ₚ issued.
Lemma run_event_conserves issued c e : conserved issued c -> conserved (issued ++ issues e c) (run_event e c).
Proof using Type.
  intros Hc. destruct e as [now a m effort u|now a m u|k ok|l|overlay]; cbn [issues run_event].
  - intros Hf. cbn. rewrite (assoc_L (++)). by rewrite (Hc Hf).
  - intros Hf. cbn. rewrite (assoc_L (++)). by rewrite (Hc Hf).
  - rewrite app_nil_r. unfold persist. destruct (inflight c !! k) as [r|] eqn:E; [|done].
    intros Hf. cbn in Hf |- *. destruct ok; cbn in Hf; [|lia]. rewrite <- (Hc Hf). cbn.
    rewrite <- (assoc_L (++)). f_equiv. cbn. symmetry. by apply delete_Permutation.
  - by rewrite app_nil_r.
  - by rewrite app_nil_r.
Qed.
Lemma run_conserves es : forall issued c, conserved issued c -> conserved (issued ++ ledger es c) (run es c).
Proof using Type.
  induction es as [|e es IH]; intros issued c Hc; cbn; [by rewrite app_nil_r|].
  rewrite app_assoc. by apply IH, run_event_conserves.
Qed.
Lemma answer_perm l now rows rows' : rows ≡ₚ rows' -> answer l now rows = answer l now rows'.
Proof using Type. intros H. unfold answer. by rewrite (spent_perm _ _ rows rows' H), (spent_perm _ _ rows rows' H). Qed.

(** C27: a restart does not widen the budget.  If no write was lost and none is in
    flight, the process that boots on the rows left behind gives the same
    answer as the one that wrote them, at any instant from its boot on. *)
Theorem restart_keeps_budget boot es boot' now rows prices prices' l
    (Hp : prices_ok prices) (Hp' : prices_ok prices') (Hn : nonneg rows)
    (Hrows : Forall (fun r => (timestamp r < boot)%Z) rows) (Hes : history_ok boot es)
    (Hboot : (last_time boot es < boot')%Z) (Hnow : (boot' <= now)%Z) :
  let c := run es (hydrate boot false false (new rows prices l)) in
  persist_failures (metrics c) = 0%N -> inflight c = [] ->
  check now (hydrate boot' false false (new (store c) prices' (limits c))) = check now c.
Proof using L.
  cbv zeta. set (c0 := hydrate boot false false (new rows prices l)). intros Hf Hin.
  pose proof (history_inv es boot rows c0 (hydrate_inv boot (new rows prices l) Hp Hn Hrows) Hes) as Hinv.
  assert (Hperm : store (run es c0) ≡ₚ rows ++ ledger es c0).
  { rewrite <- (run_conserves es rows c0); [by rewrite Hin, app_nil_r | | done].
    intros _. unfold c0, hydrate. destruct (utc_day_start boot), (utc_month_start boot); cbn; by rewrite app_nil_r. }
  rewrite (check_answers _ _ _ now Hinv) by lia. erewrite (check_answers boot'); [|apply hydrate_inv; [done|..] | done].
  - assert (Hl : limits (hydrate boot' false false (new (store (run es c0)) prices' (limits (run es c0)))) = limits (run es c0)).
    { unfold hydrate. by destruct (utc_day_start boot'), (utc_month_start boot'). }
    rewrite Hl. apply answer_perm. exact Hperm.
  - cbn. unfold nonneg. rewrite Hperm. apply (inv_nonneg _ _ _ Hinv).
  - cbn. rewrite Hperm. eapply Forall_impl; [apply (inv_times _ _ _ Hinv) | cbn; lia].
Qed.
End Gate.

(** ** Draining

    Before a one-shot process ends it waits for the tasks in flight: a counter
    and a notification cell, and a task counts down before it notifies. *)

Inductive Drainer := Idle | Checking | Awaiting | Drained.
Section Drain.
Context `{Mailbox.Notify}.

Record DrainState := mk_drain {
  counter : nat;
  finishing : nat;
  done_cell : Mailbox.notify;
  drainers : list Drainer;
}.
Definition at_start (ds : list Drainer) : DrainState := mk_drain 0 0 Mailbox.notify_new ds.

Inductive settle : DrainState -> DrainState -> Prop :=
| fetch_sub n f c ds : settle (mk_drain (S n) f c ds) (mk_drain n (S f) c ds)
| notify n f c ds : settle (mk_drain n (S f) c ds) (mk_drain n f (Mailbox.notify_one c) ds)
| drain_call n f c ds i : ds !! i = Some Idle -> settle (mk_drain n f c ds) (mk_drain n f c (<[i := Checking]> ds))
| drain_check n f c ds i : ds !! i = Some Checking ->
    settle (mk_drain n f c ds) (mk_drain n f c (<[i := if Nat.eqb n 0 then Drained else Awaiting]> ds))
| drain_resume n f c c' ds i : ds !! i = Some Awaiting -> Mailbox.notified c = (c', true) ->
    settle (mk_drain n f c ds) (mk_drain n f c' (<[i := Checking]> ds)).
Inductive drain_step : DrainState -> DrainState -> Prop :=
| drain_spawn n f c ds : drain_step (mk_drain n f c ds) (mk_drain (S n) f c ds)
| drain_settle s s' : settle s s' -> drain_step s s'.

Definition phase_weight (d : Drainer) : nat :=
  match d with Idle => 2 | Checking => 1 | Awaiting | Drained => 0 end.
Definition weight (s : DrainState) : nat :=
  4 * counter s + 3 * finishing s + (if Mailbox.pending (done_cell s) then 2 else 0)
  + sum_list (map phase_weight (drainers s)).

Lemma sum_insert ds i d d' : ds !! i = Some d ->
  sum_list (map phase_weight (<[i := d']> ds)) + phase_weight d = sum_list (map phase_weight ds) + phase_weight d'.
Proof using Type.
  revert i; induction ds as [|x ds IH]; intros [|i] Hi; [done..| |].
  - injection Hi as ->. cbn. lia.
  - change (<[S i := d']> (x :: ds)) with (x :: <[i := d']> ds). specialize (IH i Hi). cbn [map sum_list]. lia.
Qed.
Lemma settle_weight s s' : settle s s' -> weight s' < weight s.
Proof using Type.
  intros Hs. destruct Hs as [n f c ds|n f c ds|n f c ds i Hi|n f c ds i Hi|n f c c' ds i Hi Hn]; unfold weight; cbn -[Nat.mul].
  - lia.
  - rewrite Mailbox.notify_one_spec. destruct (Mailbox.pending c); lia.
  - pose proof (sum_insert ds i Idle Checking Hi) as E. cbn in E. lia.
  - pose proof (sum_insert ds i Checking (if Nat.eqb n 0 then Drained else Awaiting) Hi) as E.
    destruct (Nat.eqb n 0); cbn in E |- *; lia.
  - pose proof (sum_insert ds i Awaiting Checking Hi) as E. pose proof (Mailbox.notified_spec c) as Hc.
    rewrite Hn in Hc. destruct Hc as [Hp Hp']. rewrite <- Hp, Hp'. cbn in E. lia.
Qed.

(** With one drainer a wait is always answered. *)
Definition one_drainer (s : DrainState) : Prop := exists d, drainers s = [d] /\
  (d = Awaiting -> 0 < counter s \/ 0 < finishing s \/ Mailbox.pending (done_cell s) = true).
Lemma step_one_drainer s s' : one_drainer s -> drain_step s s' -> one_drainer s'.
Proof using Type.
  intros (d & Hd & Ha) Hs. destruct Hs as [n f c ds|s s' Hs].
  { exists d. cbn in *. split; [done|]. lia. }
  destruct Hs as [n f c ds|n f c ds|n f c ds i Hi|n f c ds i Hi|n f c c' ds i Hi Hn]; cbn in Hd, Ha; subst ds.
  - exists d. cbn. split; [done|]. lia.
  - exists d. cbn. split; [done|]. intros _. right; right. apply Mailbox.notify_one_spec.
  - destruct i as [|[|]]; [|done..]. cbn. exists Checking. by split.
  - destruct i as [|[|]]; [|done..]. cbn. destruct n as [|n]; cbn; eexists; (split; [done|]); [done|]. cbn. lia.
  - destruct i as [|[|]]; [|done..]. cbn. exists Checking. by split.
Qed.
Lemma stuck_drained s : one_drainer s -> (forall s', ~ settle s s') -> drainers s = [Drained].
Proof using Type.
  intros (d & Hd & Ha) Hno. destruct s as [n f c ds]. cbn in *. subst ds.
  destruct n as [|n]; [|exfalso; by eapply Hno, fetch_sub]. destruct f as [|f]; [|exfalso; by eapply Hno, notify].
  destruct d; [| | |done]; exfalso.
  - by eapply Hno, (drain_call _ _ _ _ 0).
  - by eapply Hno, (drain_check _ _ _ _ 0).
  - destruct (Ha eq_refl) as [?|[?|Hp]]; [lia..|]. pose proof (Mailbox.notified_spec c) as Hc.
    destruct (Mailbox.notified c) as [c' b] eqn:E. destruct Hc as [-> _]. rewrite Hp in E.
    by eapply Hno, (drain_resume _ _ _ _ _ 0).
Qed.

(** The wait for the ledger ends.  From any point of any interleaving of
    tasks and the one owner that drains them, once no new task is spawned:
    every run is bounded by what is left to do, and where it can go no further
    the drain has returned - no notification is lost between the owner's look
    at the counter and its wait. *)
Theorem drain_returns s s' n (Hs : rtc drain_step (at_start [Idle]) s) (Hrun : nsteps settle n s s') :
  n <= weight s /\ ((forall s'', ~ settle s' s'') -> drainers s' = [Drained]).
Proof using Type.
  assert (H0 : one_drainer (at_start [Idle])) by by exists Idle.
  assert (Hone : forall a b, rtc drain_step a b -> one_drainer a -> one_drainer b).
  { intros a b Hab. induction Hab; eauto using step_one_drainer. }
  split.
  - clear Hs. induction Hrun as [|n s s1 s' Hst Hrun IH]; [lia|]. apply settle_weight in Hst. lia.
  - intros Hno. apply stuck_drained; [|done]. eapply Hone; [|by eapply Hone].
    clear -Hrun. induction Hrun as [|n s s1 s' Hst Hrun IH]; [done|]. eapply rtc_l; [by apply drain_settle | done].
Qed.
End Drain.

(** ** A month of a small deployment *)

Module Sample.
(** Days of a thousand instants, months of thirty days. *)
#[export] Instance calendar : Calendar := {
  day_of t := (t / 1000)%Z;
  month_of t := (t / 360000, t / 30000)%Z;
  utc_day_start t := Some (t / 1000 * 1000)%Z;
  utc_month_start t := Some (t / 30000 * 30000)%Z;
  order_rows l := l;
}.
Lemma window_of n : (0 < n)%Z -> windows (fun t => t / n)%Z.
Proof. intros Hn a b c Hab Hac. pose proof (Z.div_le_mono a b n). pose proof (Z.div_le_mono b c n). lia. Qed.
Lemma start_of n : (0 < n)%Z -> starts (fun t => t / n)%Z (fun t => Some (t / n * n)%Z).
Proof.
  intros Hn t. eexists. split; [done|]. intros a Ha. pose proof (Z.mul_div_le t n Hn). split; intros Hw.
  - apply Z.le_antisymm; [by apply Z.div_le_mono|]. apply Z.div_le_lower_bound; lia.
  - pose proof (Z.mul_div_le a n Hn). rewrite Hw in *. lia.
Qed.
#[export] Instance calendar_laws : CalendarLaws calendar.
Proof.
  split; cbn; [by apply window_of | | by apply start_of | | done].
  - intros a b c Hab [= H1 H2]. f_equal; [by apply (window_of 360000 ltac:(lia) a b c) | by apply (window_of 30000 ltac:(lia) a b c)].
  - intros t. destruct (start_of 30000 ltac:(lia) t) as (s & [= <-] & Hs). eexists. split; [done|].
    intros a Ha. rewrite (Hs a Ha). split; [|by intros [= _ ?]].
    intros E. f_equal; [|exact E]. change 360000%Z with (30000 * 12)%Z. by rewrite <- !Z.div_div, E by lia.
Qed.

Definition prices : gmap string ModelPricing :=
  {["m1" := mk_pricing (mk_usd 3000000) (mk_usd 15000000) (Some (mk_usd 300000)) None]}.
Definition who : Attribution := mk_attribution "user" "cli" 7 4 Message.Chat.
Definition usage1 : TokenUsage := Streaming.mk_usage 1000 200 400 0.
Definition call (now : Time) : event := RecordCall now who "m1" None usage1.
Definition limits1 : SpendingLimits := mk_limits (Some (mk_usd 10000)) (Some (mk_usd 12000)).
Definition yesterday : CostRecord := mk_record who "m1" None usage1 (mk_usd 4920) 30500.
Definition history : list event := [call 31100; Persisted 0 true; call 31200; Persisted 0 true].

Lemma prices_fine : prices_ok prices.
Proof. apply map_Forall_singleton. split_and!; cbn; try lia; by intros ? [= <-]. Qed.
Lemma rows_fine : nonneg [yesterday] /\ Forall (fun r => (timestamp r < 31000)%Z) [yesterday].
Proof. split; repeat constructor; cbn; lia. Qed.
Lemma history_fine : history_ok 31000 history.
Proof. repeat split; cbn; try lia; done. Qed.

(** 4920 a call: the third one of the month passes the monthly cap, not the
    daily one. *)
Lemma budget_gate_exact_witness :
  let c := hydrate 31000 false false (new [yesterday] prices limits1) in
  check 31300 (run history c) = Err (MonthlyLimitExceeded (mk_usd 14760) (mk_usd 12000)) /\
  check 31300 (run history c) = answer (limits (run history c)) 31300 ([yesterday] ++ ledger history c).
Proof.
  split; [vm_compute; reflexivity|].
  apply (budget_gate_exact 31000 history 31300 [yesterday] prices limits1);
    [apply prices_fine | apply rows_fine | apply rows_fine | apply history_fine | cbn; lia].
Defined.
Lemma restart_keeps_budget_witness :
  let c := run history (hydrate 31000 false false (new [yesterday] prices limits1)) in
  check 31400 (hydrate 31300 false false (new (store c) ∅ (limits c))) = check 31400 c /\
  check 31400 c = Err (MonthlyLimitExceeded (mk_usd 14760) (mk_usd 12000)).
Proof.
  split; [|vm_compute; reflexivity].
  apply (restart_keeps_budget 31000 history 31300 31400 [yesterday] prices ∅ limits1);
    [apply prices_fine | apply map_Forall_empty | apply rows_fine | apply rows_fine | apply history_fine
    | cbn; lia | lia | vm_compute; reflexivity | vm_compute; reflexivity].
Defined.

(** A clock that steps back over midnight and forth again forgets the day. *)
Example clock_steps_back :
  let c := hydrate 31000 false false (new [] prices limits1) in
  micros (daily_for 31 (state (run [call 31100] c))) = 4920%Z /\
  micros (daily_for 31 (state (run [call 31100; call 30999] c))) = 0%Z.
Proof. vm_compute. done. Qed.

#[local] Existing Instance Mailbox.Sample.cell.
Definition flying : DrainState := mk_drain 1 0 Mailbox.notify_new [Idle].
Lemma drain_returns_witness :
  exists s', nsteps settle 6 flying s' /\ 6 <= weight flying /\ drainers s' = [Drained].
Proof.
  set (s' := @mk_drain Mailbox.Sample.cell 0 0 false [Drained]).
  assert (Hrun : nsteps settle 6 flying s').
  { eapply nsteps_l; [apply (drain_call 1 0 _ [Idle] 0); reflexivity|]; cbn.
    eapply nsteps_l; [apply (drain_check 1 0 _ [Checking] 0); reflexivity|]; cbn.
    eapply nsteps_l; [apply fetch_sub|]. eapply nsteps_l; [apply notify|].
    eapply nsteps_l; [eapply (drain_resume 0 0 _ _ [Awaiting] 0); reflexivity|]; cbn.
    eapply nsteps_l; [apply (drain_check 0 0 _ [Checking] 0); reflexivity|]; cbn. constructor. }
  exists s'. split; [exact Hrun|].
  destruct (drain_returns flying s' 6) as [Hw Hd]; [apply rtc_once, (drain_spawn 0) | exact Hrun|].
  split; [exact Hw | done].
Defined.

(** With two owners one of them may wait for ever. *)
Example two_drainers_hang :
  exists s, rtc drain_step (at_start [Idle; Idle]) s /\ drainers s = [Drained; Awaiting] /\ counter s = 0 /\
    finishing s = 0 /\ Mailbox.pending (done_cell s) = false.
Proof.
  exists (@mk_drain Mailbox.Sample.cell 0 0 false [Drained; Awaiting]). split; [|done].
  eapply rtc_l; [apply drain_spawn|]; cbn.
  eapply rtc_l; [apply drain_settle, (drain_call 1 0 _ [Idle; Idle] 0); reflexivity|]; cbn.
  eapply rtc_l; [apply drain_settle, (drain_call 1 0 _ [Checking; Idle] 1); reflexivity|]; cbn.
  eapply rtc_l; [apply drain_settle, (drain_check 1 0 _ [Checking; Checking] 0); reflexivity|]; cbn.
  eapply rtc_l; [apply drain_settle, (drain_check 1 0 _ [Awaiting; Checking] 1); reflexivity|]; cbn.
  eapply rtc_l; [apply drain_settle, fetch_sub|]. eapply rtc_l; [apply drain_settle, notify|].
  eapply rtc_l; [eapply drain_settle, (drain_resume 0 0 _ _ [Awaiting; Awaiting] 0); reflexivity|]; cbn.
  apply rtc_once, drain_settle, (drain_check 0 0 _ [Checking; Awaiting] 0); reflexivity.
Qed.
End Sample.

End Cost.
