(* ===== verification/Billing.v ===== *)
(** * Billed model calls ([crates/llm/src/guard.rs], [crates/llm/src/billed.rs])

    The only handle to a provider runs gate, call, record: the cost manager of
    [Cost] is asked before a request is sent, and told the usage when the answer
    is in, or when the stream of an answer ends or is dropped.  Calls of many
    tasks run at once. *)

From S2P Require Import Prelude Money Turn Streaming Cost.
Import Cost.

Module Billing.

Abbreviation CallId := N.
Abbreviation StreamEvent := Streaming.StreamEvent.
Abbreviation LlmError := Streaming.LlmError.
Abbreviation LlmResponse := Streaming.LlmResponse.

(** ** Data *)

(** The provider, its model, and the standard library's float formatting. *)
Class Client := {
  Body : Type;
  ping : Body;
  model_id : string;
  effective_effort : option string -> option string;
  usd_text : Money.MicroUsd -> string;
}.
Section Data.
Context `{Client}.
Record ChatRequest := mk_request {
  body : Body;
  request_effort : option string;
  prompt_cache_key : option string;
}.
Record RecordingStream := mk_stream {
  stream_attribution : Attribution;
  stream_effort : option string;
  last_usage : TokenUsage;
  recorded : bool;
}.
Inductive Call :=
| Asking (a : Attribution) (req : ChatRequest)
| Opening (a : Attribution) (req : ChatRequest)
| Open (s : RecordingStream)
| Over.

(** [sent] are the requests that reached the provider, [told] what the recorder
    was told, oldest first. *)
Record World := mk_world {
  manager : CostManager;
  calls : gmap CallId Call;
  sent : list (option CallId * ChatRequest);
  told : list (CallId * TokenUsage);
}.
End Data.

Section Ops.
Context {C : Calendar} `{Client}.

Definition error_text (e : CostGuardError) : string :=
  match e with
  | DailyLimitExceeded current limit =>
      ("daily spending limit exceeded: current " +:+ usd_text current +:+ " >= limit " +:+ usd_text limit)%string
  | MonthlyLimitExceeded current limit =>
      ("monthly spending limit exceeded: current " +:+ usd_text current +:+ " >= limit " +:+ usd_text limit)%string
  end.
Definition cost_call_guard (now : Time) (c : CostManager) : result unit LlmError :=
  match check now c with
  | Ok _ => Ok tt
  | Err e => Err (Streaming.GuardRejected (error_text e))
  end.
Definition cache_keyed (a : Attribution) (req : ChatRequest) : ChatRequest :=
  match prompt_cache_key req with
  | Some _ => req
  | None => mk_request (body req) (request_effort req) (Some (session_id a))
  end.

(** Recording a call of [i]. *)
Definition record (now : Time) (i : CallId) (a : Attribution) (effort : option string) (u : TokenUsage)
    (w : World) : World :=
  mk_world (record_call now a model_id effort u (manager w)).1 (calls w) (sent w) (told w ++ [(i, u)]).
Definition set_call (i : CallId) (c : Call) (w : World) : World :=
  mk_world (manager w) (<[i := c]> (calls w)) (sent w) (told w).
Definition send (i : option CallId) (req : ChatRequest) (w : World) : World :=
  mk_world (manager w) (calls w) (sent w ++ [(i, req)]) (told w).

Definition record_once (now : Time) (i : CallId) (s : RecordingStream) (w : World) : World :=
  if recorded s then set_call i (Open s) w
  else
    record now i (stream_attribution s) (stream_effort s) (last_usage s)
      (set_call i (Open (mk_stream (stream_attribution s) (stream_effort s) (last_usage s) true)) w).
Definition poll_next (now : Time) (i : CallId) (s : RecordingStream) (item : option (result StreamEvent LlmError))
    (w : World) : World :=
  match item with
  | Some (Ok (Streaming.EvUsage u)) =>
      set_call i (Open (mk_stream (stream_attribution s) (stream_effort s) u (recorded s))) w
  | None => record_once now i s w
  | _ => w
  end.

(** ** Histories

    [BoundBilledLlm::chat] and [chat_stream] up to the provider, the provider's
    answer, the polls of a stream, and the ends of the futures; a probe; and
    whatever else happens to the manager. *)
Inductive event :=
| Chat (now : Time) (i : CallId) (a : Attribution) (req : ChatRequest)
| Answered (now : Time) (i : CallId) (r : result LlmResponse LlmError)
| ChatStream (now : Time) (i : CallId) (a : Attribution) (req : ChatRequest)
| Opened (i : CallId) (r : result unit LlmError)
| Polled (now : Time) (i : CallId) (item : option (result StreamEvent LlmError))
| Dropped (now : Time) (i : CallId)
| Probe (now : Time)
| Manage (e : Cost.event).

(** The gate, then the request; a fresh name each. *)
Definition pass_gate (now : Time) (i : CallId) (a : Attribution) (req : ChatRequest)
    (started : Attribution -> ChatRequest -> Call) (w : World) : World :=
  match calls w !! i with
  | Some _ => w
  | None =>
      let req := cache_keyed a req in
      match cost_call_guard now (manager w) with
      | Err _ => w
      | Ok _ => set_call i (started a req) (send (Some i) req w)
      end
  end.
Definition answered (now : Time) (i : CallId) (r : result LlmResponse LlmError) (w : World) : World :=
  match calls w !! i with
  | Some (Asking a req) =>
      match r with
      | Ok response => record now i a (effective_effort (request_effort req)) (Streaming.usage response) (set_call i Over w)
      | Err _ => set_call i Over w
      end
  | _ => w
  end.
Definition opened (i : CallId) (r : result unit LlmError) (w : World) : World :=
  match calls w !! i with
  | Some (Opening a req) =>
      match r with
      | Ok _ => set_call i (Open (mk_stream a (effective_effort (request_effort req)) Streaming.no_usage false)) w
      | Err _ => set_call i Over w
      end
  | _ => w
  end.
Definition drop (now : Time) (i : CallId) (w : World) : World :=
  match calls w !! i with
  | Some (Open s) => set_call i Over (record_once now i s w)
  | Some (Asking _ _ | Opening _ _) => set_call i Over w
  | _ => w
  end.
Definition PROBE_PROMPT_CACHE_KEY : string := "baybo-llm-probe".
Definition probe (now : Time) (w : World) : World :=
  match cost_call_guard now (manager w) with
  | Err _ => w
  | Ok _ => send None (mk_request ping None (Some PROBE_PROMPT_CACHE_KEY)) w
  end.

Definition run_event (e : event) (w : World) : World :=
  match e with
  | Chat now i a req => pass_gate now i a req Asking w
  | Answered now i r => answered now i r w
  | ChatStream now i a req => pass_gate now i a req Opening w
  | Opened i r => opened i r w
  | Polled now i item =>
      match calls w !! i with Some (Open s) => poll_next now i s item w | _ => w end
  | Dropped now i => drop now i w
  | Probe now => probe now w
  | Manage e => mk_world (Cost.run_event e (manager w)) (calls w) (sent w) (told w)
  end.
Fixpoint run (es : list event) (w : World) : World :=
  match es with [] => w | e :: es => run es (run_event e w) end.
Definition start (c : CostManager) : World := mk_world c ∅ [] [].

(** What an event does to the manager. *)
Definition records_once (now : Time) (s : RecordingStream) : list Cost.event :=
  if recorded s then [] else [RecordCall now (stream_attribution s) model_id (stream_effort s) (last_usage s)].
Definition managed (e : event) (w : World) : list Cost.event :=
  match e with
  | Answered now i (Ok response) =>
      match calls w !! i with
      | Some (Asking a req) => [RecordCall now a model_id (effective_effort (request_effort req)) (Streaming.usage response)]
      | _ => []
      end
  | Polled now i None => match calls w !! i with Some (Open s) => records_once now s | _ => [] end
  | Dropped now i => match calls w !! i with Some (Open s) => records_once now s | _ => [] end
  | Manage e => [e]
  | _ => []
  end.
Fixpoint managed_all (es : list event) (w : World) : list Cost.event :=
  match es with [] => [] | e :: es => managed e w ++ managed_all es (run_event e w) end.
Definition when (e : event) : option Time :=
  match e with
  | Chat now _ _ _ | Answered now _ _ | ChatStream now _ _ _ | Polled now _ _ | Dropped now _ | Probe now => Some now
  | Manage e => event_time e
  | Opened _ _ => None
  end.
(** The clock of a history does not step back, and prices stay sane. *)
Fixpoint clock_ok (t : Time) (es : list event) : Prop :=
  match es with
  | [] => True
  | e :: es =>
      (forall overlay, e = Manage (MergePricings overlay) -> prices_ok overlay) /\
      match when e with Some now => (t <= now)%Z /\ clock_ok now es | None => clock_ok t es end
  end.
End Ops.

(** ** The manager under the calls *)

Section Manager.
Context {C : Calendar} `{Client}.

Lemma run_event_manager e w : manager (run_event e w) = Cost.run (managed e w) (manager w).
Proof using Type.
  destruct e as [now i a req|now i r|now i a req|i r|now i item|now i|now|e]; cbn.
  - unfold pass_gate. destruct (calls w !! i); [done|]. by destruct (cost_call_guard now (manager w)).
  - unfold answered. destruct r as [response|e]; destruct (calls w !! i) as [[a req| | |]|]; done.
  - unfold pass_gate. destruct (calls w !! i); [done|]. by destruct (cost_call_guard now (manager w)).
  - unfold opened. destruct (calls w !! i) as [[|a req| |]|]; try done. by destruct r.
  - destruct (calls w !! i) as [[| |s|]|], item as [[[]|]|]; try done.
    cbn. unfold record_once, records_once. by destruct (recorded s).
  - unfold drop. destruct (calls w !! i) as [[| |s|]|]; try done.
    unfold record_once, records_once. by destruct (recorded s).
  - unfold probe. by destruct (cost_call_guard now (manager w)).
  - done.
Qed.
Lemma run_app es es' c : Cost.run (es ++ es') c = Cost.run es' (Cost.run es c).
Proof using Type. revert c; induction es as [|e es IH]; intros c; [done | apply IH]. Qed.
Lemma run_manager es w : manager (run es w) = Cost.run (managed_all es w) (manager w).
Proof using Type.
  revert w; induction es as [|e es IH]; intros w; cbn; [done|]. by rewrite run_app, IH, run_event_manager.
Qed.

Lemma managed_times e w t es : (match when e with Some now => (t <= now)%Z | None => True end) ->
  (forall overlay, e = Manage (MergePricings overlay) -> prices_ok overlay) ->
  history_ok (default t (when e)) es -> history_ok t (managed e w ++ es).
Proof using Type.
  intros Ht Ho He.
  assert (Hmono : forall t t' es, (t <= t')%Z -> history_ok t' es -> history_ok t es).
  { intros t1 t2 l Hle. revert t1 t2 Hle. induction l as [|x l IH]; intros t1 t2 Hle; [done|]. cbn. intros [Hp Hx].
    split; [done|]. destruct (event_time x); [split; [lia | by apply Hx] | by eapply IH]. }
  assert (Hskip : history_ok t es) by (destruct (when e); [by eapply Hmono | done]).
  assert (Hone : forall now a m ef u, when e = Some now -> history_ok t (RecordCall now a m ef u :: es)).
  { intros now a m ef u E. rewrite E in Ht, He. cbn. split; [done|]. by split. }
  destruct e as [now i a req|now i r|now i a req|i r|now i item|now i|now|e]; cbn; try done.
  - destruct r as [response|]; [|done]. destruct (calls w !! i) as [[a req| | |]|]; first [done | by apply Hone].
  - destruct item; [done|]. destruct (calls w !! i) as [[| |s|]|]; try done.
    unfold records_once. destruct (recorded s); first [done | by apply Hone].
  - destruct (calls w !! i) as [[| |s|]|]; try done.
    unfold records_once. destruct (recorded s); first [done | by apply Hone].
  - cbn in Ht, He. split; [intros overlay ->; by apply Ho|]. by destruct (event_time e).
Qed.
Lemma managed_history es : forall t w, clock_ok t es -> history_ok t (managed_all es w).
Proof using Type.
  induction es as [|e es IH]; intros t w; cbn; [done|]. intros [Ho He]. apply managed_times; [|done|].
  - by destruct (when e); [destruct He|].
  - apply IH. by destruct (when e); [destruct He|].
Qed.
Fixpoint clock_end (t : Time) (es : list event) : Time :=
  match es with [] => t | e :: es => clock_end (default t (when e)) es end.
Lemma last_app l l' t : last_time t (l ++ l') = last_time (last_time t l) l'.
Proof using Type. revert t; induction l as [|e l IH]; intros t; [done | apply IH]. Qed.
Lemma last_mono l t t' : (t <= t')%Z -> (last_time t l <= last_time t' l)%Z.
Proof using Type. revert t t'; induction l as [|e l IH]; intros t t' Hle; [done|]. cbn. destruct (event_time e); by apply IH. Qed.
Lemma managed_last e w t : (match when e with Some now => (t <= now)%Z | None => True end) ->
  (last_time t (managed e w) <= default t (when e))%Z.
Proof using Type.
  intros Ht. destruct e as [now i a req|now i r|now i a req|i r|now i item|now i|now|e]; cbn in Ht |- *; try done.
  - destruct r as [response|]; [|done]. destruct (calls w !! i) as [[a req| | |]|]; done.
  - destruct item; [done|]. destruct (calls w !! i) as [[| |s|]|]; try done. unfold records_once. by destruct (recorded s).
  - destruct (calls w !! i) as [[| |s|]|]; try done. unfold records_once. by destruct (recorded s).
Qed.
Lemma managed_end es : forall t w, clock_ok t es -> (last_time t (managed_all es w) <= clock_end t es)%Z.
Proof using Type.
  induction es as [|e es IH]; intros t w; cbn; [done|]. intros [_ He]. rewrite last_app.
  etrans; [apply last_mono, managed_last; by destruct (when e); [destruct He|]|]. apply IH.
  by destruct (when e); [destruct He|].
Qed.
End Manager.

(** ** One call among the others

    What a call in flight is billed, read off the events that name it. *)

Inductive Phase := PAsking | POpening | POpen (u : TokenUsage).
Definition phase_of `{Client} (c : Call) : option Phase :=
  match c with
  | Asking _ _ => Some PAsking
  | Opening _ _ => Some POpening
  | Open s => if recorded s then None else Some (POpen (last_usage s))
  | Over => None
  end.
Definition names `{Client} (e : event) (i : CallId) : bool :=
  match e with
  | Chat _ j _ _ | Answered _ j _ | ChatStream _ j _ _ | Opened j _ | Polled _ j _ | Dropped _ j => N.eqb j i
  | Probe _ | Manage _ => false
  end.
Fixpoint bill_of `{Client} (i : CallId) (p : Phase) (es : list event) : option TokenUsage :=
  match es with
  | [] => None
  | e :: es =>
      if negb (names e i) then bill_of i p es
      else match p, e with
           | PAsking, Answered _ _ (Ok response) => Some (Streaming.usage response)
           | PAsking, (Answered _ _ (Err _) | Dropped _ _) => None
           | POpening, Opened _ (Ok _) => bill_of i (POpen Streaming.no_usage) es
           | POpening, (Opened _ (Err _) | Dropped _ _) => None
           | POpen _, Polled _ _ (Some (Ok (Streaming.EvUsage u))) => bill_of i (POpen u) es
           | POpen u, (Polled _ _ None | Dropped _ _) => Some u
           | _, _ => bill_of i p es
           end
  end.

Section Calls.
Context {C : Calendar} `{Client}.

Definition bills (i : CallId) (w : World) : list TokenUsage :=
  map snd (List.filter (fun x => N.eqb x.1 i) (told w)).
Definition view (i : CallId) (w : World) : option Call * list TokenUsage := (calls w !! i, bills i w).

Lemma bills_record now i j a ef u w : bills i (record now j a ef u w) = bills i w ++ if N.eqb j i then [u] else [].
Proof using Type.
  unfold bills, record. cbn. rewrite List.filter_app, map_app. cbn. by destruct (N.eqb j i).
Qed.
Lemma view_set_call i j c w : view i (set_call j c w) = (if N.eqb j i then Some c else calls w !! i, bills i w).
Proof using Type.
  unfold view. cbn. destruct (N.eqb_spec j i) as [->|Hne]; [by rewrite lookup_insert_eq | by rewrite lookup_insert_ne].
Qed.
Lemma view_record now i j a ef u w :
  view i (record now j a ef u w) = ((view i w).1, (view i w).2 ++ if N.eqb j i then [u] else []).
Proof using Type. unfold view. by rewrite bills_record. Qed.
Lemma view_record_once now i j s w :
  view i (record_once now j s w) =
  (if N.eqb j i then Some (Open (mk_stream (stream_attribution s) (stream_effort s) (last_usage s) true)) else calls w !! i,
   bills i w ++ if N.eqb j i && negb (recorded s) then [last_usage s] else []).
Proof using Type.
  unfold record_once. destruct s as [a ef u []]; cbn [recorded stream_attribution stream_effort last_usage].
  - rewrite view_set_call, andb_false_r, app_nil_r. done.
  - rewrite view_record, view_set_call, andb_true_r. done.
Qed.

Lemma view_other i e w : names e i = false -> view i (run_event e w) = view i w.
Proof using Type.
  destruct e as [now j a req|now j r|now j a req|j r|now j item|now j|now|e]; cbn; intros Hn; try done.
  - unfold pass_gate. destruct (calls w !! j); [done|]. destruct (cost_call_guard now (manager w)); [|done].
    by rewrite view_set_call, Hn.
  - unfold answered. destruct (calls w !! j) as [[a req| | |]|]; try done. destruct r.
    + rewrite view_record, view_set_call, Hn, app_nil_r. done.
    + by rewrite view_set_call, Hn.
  - unfold pass_gate. destruct (calls w !! j); [done|]. destruct (cost_call_guard now (manager w)); [|done].
    by rewrite view_set_call, Hn.
  - unfold opened. destruct (calls w !! j) as [[|a req| |]|]; try done. destruct r; by rewrite view_set_call, Hn.
  - destruct (calls w !! j) as [[| |s|]|]; try done. unfold poll_next. destruct item as [[[]|]|]; try done.
    + by rewrite view_set_call, Hn.
    + rewrite view_record_once, Hn, app_nil_r. done.
  - unfold drop. destruct (calls w !! j) as [[| |s|]|]; try done; rewrite view_set_call, Hn; try done.
    pose proof (view_record_once now i j s w) as E. rewrite Hn, app_nil_r in E. exact E.
  - unfold probe. by destruct (cost_call_guard now (manager w)).
Qed.

(** A call that is settled stays so. *)
Definition settled (c : Call) : Prop := phase_of c = None.
Lemma event_settled i e w c : calls w !! i = Some c -> settled c ->
  exists c', calls (run_event e w) !! i = Some c' /\ settled c' /\ bills i (run_event e w) = bills i w.
Proof using Type.
  intros Hi Hc. destruct (names e i) eqn:Hn.
  2:{ exists c. pose proof (view_other i e w Hn) as [= E1 E2]. split_and!; [congruence | done | done]. }
  assert (Hsame : forall w', view i w' = view i w -> exists c', calls w' !! i = Some c' /\ settled c' /\ bills i w' = bills i w).
  { intros w' [= E1 E2]. exists c. split_and!; [congruence | done | done]. }
  destruct c as [| |s|]; unfold settled in Hc; cbn in Hc; try done.
  - destruct s as [a ef u rec]; destruct rec; [|done].
    destruct e as [now j a' req|now j r|now j a' req|j r|now j item|now j|now|e]; cbn in Hn |- *; try done;
      apply N.eqb_eq in Hn as ->; unfold pass_gate, answered, opened, drop; rewrite Hi; try (by apply Hsame).
    + destruct item as [[[]|]|]; cbn [poll_next]; try (by apply Hsame); unfold record_once; cbn [recorded];
        eexists; unfold bills; cbn; rewrite lookup_insert_eq; by split_and!.
    + unfold record_once. cbn [recorded]. eexists. unfold bills. cbn. rewrite lookup_insert_eq. by split_and!.
  - destruct e as [now j a' req|now j r|now j a' req|j r|now j item|now j|now|e]; cbn in Hn |- *; try done;
      apply N.eqb_eq in Hn as ->; unfold pass_gate, answered, opened, drop; rewrite Hi; by apply Hsame.
Qed.
Lemma run_settled i es : forall w c, calls w !! i = Some c -> settled c -> bills i (run es w) = bills i w.
Proof using Type.
  induction es as [|e es IH]; intros w c Hi Hc; [done|]. cbn.
  destruct (event_settled i e w c Hi Hc) as (c' & Hi' & Hc' & <-). by eapply IH.
Qed.

(** One event of a call in flight: it is billed and settled, settled without a
    bill, or goes on in a phase of its own. *)
Inductive outcome := Bill (u : TokenUsage) | NoBill | Go (p : Phase).
Definition react (p : Phase) (e : event) : outcome :=
  match p, e with
  | PAsking, Answered _ _ (Ok response) => Bill (Streaming.usage response)
  | PAsking, (Answered _ _ (Err _) | Dropped _ _) => NoBill
  | POpening, Opened _ (Ok _) => Go (POpen Streaming.no_usage)
  | POpening, (Opened _ (Err _) | Dropped _ _) => NoBill
  | POpen _, Polled _ _ (Some (Ok (Streaming.EvUsage u))) => Go (POpen u)
  | POpen u, (Polled _ _ None | Dropped _ _) => Bill u
  | _, _ => Go p
  end.
Lemma bill_of_react i p e es : names e i = true ->
  bill_of i p (e :: es) = match react p e with Bill u => Some u | NoBill => None | Go p => bill_of i p es end.
Proof using Type.
  intros Hn. cbn. rewrite Hn. cbn. destruct p, e as [| ? ? []| | ? []| ? ? [[[]|]|]| | |]; done.
Qed.
Definition reacted (i : CallId) (before : list TokenUsage) (o : outcome) (w : World) : Prop :=
  match o with
  | Bill u => exists c, calls w !! i = Some c /\ settled c /\ bills i w = before ++ [u]
  | NoBill => exists c, calls w !! i = Some c /\ settled c /\ bills i w = before
  | Go p => exists c, calls w !! i = Some c /\ phase_of c = Some p /\ bills i w = before
  end.
#[local] Arguments record : simpl never.
Lemma event_reacts i e w c p : calls w !! i = Some c -> phase_of c = Some p -> names e i = true ->
  reacted i (bills i w) (react p e) (run_event e w).
Proof using Type.
  intros Hi Hp Hn.
  assert (Hset : forall c' w', view i w' = view i w ->
    calls (set_call i c' w') !! i = Some c' /\ bills i (set_call i c' w') = bills i w).
  { intros c' w' [= _ E]. split; [cbn; by rewrite lookup_insert_eq | exact E]. }
  assert (Hgo : react p e = Go p -> run_event e w = w -> reacted i (bills i w) (react p e) (run_event e w)).
  { intros -> ->. by exists c. }
  assert (Hon : forall c' p', phase_of c' = Some p' -> reacted i (bills i w) (Go p') (set_call i c' w)).
  { intros c' p' Hp'. destruct (Hset c' w eq_refl). by exists c'. }
  assert (Hend : reacted i (bills i w) NoBill (set_call i Over w)) by (destruct (Hset Over w eq_refl); by exists Over).
  destruct c as [a req|a req|s|]; cbn in Hp; [| |destruct s as [a ef u []]; [done|]|done]; injection Hp as <-;
    (destruct e as [now j a' req'|now j r|now j a' req'|j r|now j item|now j|now|e]; cbn in Hn; try done;
     apply N.eqb_eq in Hn as ->; try (apply Hgo; [done | cbn; unfold pass_gate, answered, opened; by rewrite Hi]));
    cbn [run_event]; unfold answered, opened, drop; rewrite Hi.
  - destruct r as [response|]; [|exact Hend]. exists Over. destruct (Hset Over w eq_refl) as [E1 E2].
    split_and!; [done..|]. by rewrite bills_record, N.eqb_refl, E2.
  - exact Hend.
  - destruct r; [by apply Hon | exact Hend].
  - exact Hend.
  - destruct item as [[[]|]|]; try (by eexists); [by apply Hon|]. cbn [poll_next react]. unfold record_once.
    cbn [recorded stream_attribution stream_effort last_usage]. eexists.
    split; [unfold record; cbn; by rewrite lookup_insert_eq|]. split; [done|]. by rewrite bills_record, N.eqb_refl.
  - cbn [react]. unfold record_once. cbn [recorded stream_attribution stream_effort last_usage].
    exists Over. split; [cbn; by rewrite lookup_insert_eq|]. split; [done|].
    unfold bills, record. cbn. rewrite List.filter_app, map_app. cbn. by rewrite N.eqb_refl.
Qed.

(** C25: each call is billed once, for what it used.  Take any call that has
    passed the gate, among any calls of other tasks and any changes of caps and
    prices: what the recorder is told about it in the rest of the history is
    one usage or none, and which one can be read off the events of the call
    alone - the usage of the answer, nothing if the provider failed or the
    request was given up before it answered, and for a stream the last usage it
    showed before its end or its drop, whichever comes first, and no second
    time after it. *)
Theorem call_billed_once i w c p es (Hi : calls w !! i = Some c) (Hp : phase_of c = Some p) :
  bills i (run es w) = bills i w ++ match bill_of i p es with Some u => [u] | None => [] end.
Proof using Type.
  revert w c p Hi Hp. induction es as [|e es IH]; intros w c p Hi Hp; cbn [run]; [by rewrite app_nil_r|].
  destruct (names e i) eqn:Hn.
  - rewrite bill_of_react by done. pose proof (event_reacts i e w c p Hi Hp Hn) as Hr.
    destruct (react p e) as [u| |p']; cbn in Hr; destruct Hr as (c' & Hi' & Hc' & Hb).
    + by rewrite (run_settled i es _ c').
    + by rewrite (run_settled i es _ c'), app_nil_r.
    + by rewrite (IH _ c' p'), Hb.
  - pose proof (view_other i e w Hn) as [= E1 E2]. cbn [bill_of]. rewrite Hn. cbn [negb].
    rewrite (IH _ c p); [by rewrite E2 | by rewrite E1 | done].
Qed.
End Calls.

(** ** The gate and the budget *)

Section Gate.
Context {C : Calendar} {L : CalendarLaws C} `{Client}.

Definition contacts (e : event) (w : World) : Prop := sent (run_event e w) <> sent w.
Lemma contact_admitted e w : contacts e w ->
  exists now i req, when e = Some now /\ sent (run_event e w) = sent w ++ [(i, req)] /\
    is_some (prompt_cache_key req) = true /\ check now (manager w) = Ok tt.
Proof using Type.
  unfold contacts. intros Hs.
  assert (Hg : forall now, is_Ok (cost_call_guard now (manager w)) = true -> check now (manager w) = Ok tt).
  { intros now. unfold cost_call_guard. by destruct (check now (manager w)) as [[]|]. }
  destruct e as [now i a req|now i r|now i a req|i r|now i item|now i|now|e]; cbn in Hs |- *; try done.
  - unfold pass_gate in *. destruct (calls w !! i); [done|]. specialize (Hg now).
    destruct (cost_call_guard now (manager w)); [|done]. exists now, (Some i), (cache_keyed a req).
    split_and!; [done | done | unfold cache_keyed; by destruct (prompt_cache_key req) eqn:E; rewrite ?E | by apply Hg].
  - unfold answered in Hs. destruct (calls w !! i) as [[| | |]|]; try done. by destruct r.
  - unfold pass_gate in *. destruct (calls w !! i); [done|]. specialize (Hg now).
    destruct (cost_call_guard now (manager w)); [|done]. exists now, (Some i), (cache_keyed a req).
    split_and!; [done | done | unfold cache_keyed; by destruct (prompt_cache_key req) eqn:E; rewrite ?E | by apply Hg].
  - unfold opened in Hs. destruct (calls w !! i) as [[| | |]|]; try done. by destruct r.
  - destruct (calls w !! i) as [[| |s|]|]; try done. unfold poll_next, record_once in Hs.
    destruct item as [[[]|]|]; try done. by destruct (recorded s).
  - unfold drop in Hs. destruct (calls w !! i) as [[| |s|]|]; try done. unfold record_once in Hs.
    by destruct (recorded s).
  - unfold probe in *. specialize (Hg now). destruct (cost_call_guard now (manager w)); [|done].
    eexists now, None, _. split_and!; [done | done | done | by apply Hg].
Qed.

(** C24: no request leaves over budget.  Boot on any rows and run any history of
    calls, streams, probes, writes and changes of caps, interleaved: whenever a
    request reaches the provider, the rows of before the boot and of every call
    recorded so far leave both caps of that moment unreached, and the request
    carries a cache bucket. *)
Theorem contact_within_budget boot rows prices l es e
    (Hp : prices_ok prices) (Hn : nonneg rows) (Hrows : Forall (fun r => (timestamp r < boot)%Z) rows)
    (Hes : clock_ok boot es) (Hend : forall now, when e = Some now -> (clock_end boot es <= now)%Z) :
  let w0 := start (hydrate boot false false (Cost.new rows prices l)) in
  let w := run es w0 in
  contacts e w ->
  exists now i req, when e = Some now /\ sent (run_event e w) = sent w ++ [(i, req)] /\
    is_some (prompt_cache_key req) = true /\
    answer (limits (manager w)) now (rows ++ ledger (managed_all es w0) (manager w0)) = Ok tt.
Proof using L.
  cbv zeta. set (w0 := start _). intros Hc. destruct (contact_admitted e _ Hc) as (now & i & req & Hwhen & Hs & Hk & Hok).
  exists now, i, req. split_and!; [done..|]. rewrite <- Hok. symmetry. rewrite run_manager.
  eapply check_answers.
  - apply history_inv; [by apply (hydrate_inv boot (Cost.new rows prices l)) | by apply managed_history].
  - etrans; [by apply managed_end | by apply Hend].
Qed.
End Gate.

(** ** Two streams and a chat *)

Module Sample.
Import Cost.Sample.

#[export] Instance client : Client := {
  Body := string;
  ping := "ping"%string;
  model_id := "m1"%string;
  effective_effort := id;
  usd_text m := pretty (Money.micros m);
}.
Definition hello : ChatRequest := mk_request "hello"%string None None.
Definition booted : World := start (hydrate 31000 false false (Cost.new [yesterday] prices limits1)).
Definition usage_early : TokenUsage := Streaming.mk_usage 10 1 0 0.
(** Call 1 streams and is drained, call 2 asks and is given up. *)
Definition busy : list event :=
  [ChatStream 31100 1 who hello; Chat 31110 2 who hello; Opened 1 (Ok tt);
   Polled 31120 1 (Some (Ok (Streaming.EvUsage usage_early))); Dropped 31130 2;
   Polled 31140 1 (Some (Ok (Streaming.EvUsage usage1))); Polled 31150 1 (Some (Ok (Streaming.EvText "hi")));
   Polled 31160 1 None; Polled 31170 1 None; Dropped 31180 1].

Lemma call_billed_once_witness :
  let w := run_event (Chat 31110 2 who hello) (run_event (ChatStream 31100 1 who hello) booted) in
  bills 1 (run (skipn 2 busy) w) = bills 1 w ++ [usage1] /\ bills 2 (run (skipn 2 busy) w) = bills 2 w ++ [].
Proof.
  cbv zeta. split.
  - apply (call_billed_once 1 _ (Opening who (cache_keyed who hello)) POpening (skipn 2 busy)); vm_compute; reflexivity.
  - apply (call_billed_once 2 _ (Asking who (cache_keyed who hello)) PAsking (skipn 2 busy)); vm_compute; reflexivity.
Defined.

(** A second call may still leave; a third one would pass the monthly cap. *)
Definition again : list event := busy ++ [Chat 31200 3 who hello; Answered 31210 3 (Ok (Streaming.mk_response "hi" [] [] usage1 None))].
Lemma contact_within_budget_witness :
  sent (run_event (Chat 31300 4 who hello) (run again booted)) = sent (run again booted) /\
  exists now i req, when (Chat 31200 3 who hello) = Some now /\
    sent (run_event (Chat 31200 3 who hello) (run busy booted)) = sent (run busy booted) ++ [(i, req)] /\
    is_some (prompt_cache_key req) = true /\
    answer (limits (manager (run busy booted))) now ([yesterday] ++ ledger (managed_all busy booted) (manager booted)) = Ok tt.
Proof.
  split; [vm_compute; reflexivity|].
  apply (contact_within_budget 31000 [yesterday] prices limits1 busy (Chat 31200 3 who hello));
    [apply prices_fine | apply rows_fine | apply rows_fine | | |].
  - repeat split; cbn; try lia; done.
  - intros now [= <-]. cbn. lia.
  - intros E. apply (f_equal length) in E. vm_compute in E. discriminate.
Defined.

(** A probe reaches the provider and no row says so. *)
Example probe_unbilled :
  length (sent (run [Probe 31100] booted)) = 1 /\ managed_all [Probe 31100] booted = [] /\
  inflight (manager (run [Probe 31100] booted)) = [].
Proof. vm_compute. done. Qed.
End Sample.

End Billing.
