(* ===== verification/Background.v ===== *)
(** * Results of background work and their delivery ([crates/model/src/session.rs],
      [spawn_protocol.rs], [crates/context/src/prompts/background_notification.rs],
      the state of [crates/agent/src/actor/background_notification.rs])

    A detached subagent or command that ends reports once into the session it
    left.  Its result waits in a buffer, or in the cohort it was spawned with
    until the whole cohort is in; a batch is then put to the model as one prompt
    and stays on a ledger until a reply settles it.  This file has the data, the
    moves between the stages, the prompt and the check of the reply; the actor
    that drives them is in its own file. *)

From S2P Require Import Prelude Message Turn Upkeep Framing Iteration.
Import Message.

Module Background.

Abbreviation TurnId := Turn.TurnId.

(** ** Data *)

Inductive SubagentExitStatus :=
| Completed | Cancelled | Failed (reason : string) | Timeout | ForegroundWaitElapsed.
Inductive BackgroundJobKind :=
| Subagent (child_session_id subagent_type : string)
| Command (command : string) (exit_code : Z) (output_path : string).
Record PendingBackgroundResult := mk_pending {
  handle_id : string;
  label : string;
  summary_text : string;
  status : SubagentExitStatus;
  kind : BackgroundJobKind;
  group : option string;
}.

(** A cohort of subagents that report together. *)
Record BackgroundNotificationGroup := mk_group {
  expected : N;
  sealed : bool;
  sealed_at : option Z;
  results : list PendingBackgroundResult;
}.
Definition empty_group : BackgroundNotificationGroup := mk_group 0 false None [].
(** The batch whose prompt is in the transcript and whose reply is not. *)
Record BackgroundNotificationDelivery := mk_delivery {
  handle_ids : list string;
  result_labels : list string;
  content : list ContentBlock;
  prompt_ordinal : Z;
  failed_attempts : N;
}.
Record BackgroundNotificationState := mk_state {
  buffered_results : list PendingBackgroundResult;
  groups : gmap string BackgroundNotificationGroup;
  active_delivery : option BackgroundNotificationDelivery;
}.
Definition no_work : BackgroundNotificationState := mk_state [] ∅ None.
Definition set_buffer (l : list PendingBackgroundResult) (s : BackgroundNotificationState) : BackgroundNotificationState :=
  mk_state l (groups s) (active_delivery s).
Definition set_groups (m : gmap string BackgroundNotificationGroup) (s : BackgroundNotificationState)
    : BackgroundNotificationState := mk_state (buffered_results s) m (active_delivery s).
Definition set_active (d : option BackgroundNotificationDelivery) (s : BackgroundNotificationState)
    : BackgroundNotificationState := mk_state (buffered_results s) (groups s) d.

Definition has_work (s : BackgroundNotificationState) : bool :=
  negb (bool_decide (buffered_results s = [])) || negb (bool_decide (groups s = ∅)) || is_some (active_delivery s).
Definition handles (l : list PendingBackgroundResult) : list string := map handle_id l.
Definition group_results (m : gmap string BackgroundNotificationGroup) : list PendingBackgroundResult :=
  concat (map (fun kv => results kv.2) (map_to_list m)).
Definition active_handles (s : BackgroundNotificationState) : list string :=
  match active_delivery s with Some d => handle_ids d | None => [] end.
Definition knows_handle (h : string) (s : BackgroundNotificationState) : bool :=
  bool_decide (h ∈ handles (buffered_results s)) || bool_decide (h ∈ handles (group_results (groups s)))
  || bool_decide (h ∈ active_handles s).

(** ** Cohorts *)

Definition set_results (l : list PendingBackgroundResult) (g : BackgroundNotificationGroup) : BackgroundNotificationGroup :=
  mk_group (expected g) (sealed g) (sealed_at g) l.
Definition register_group_member (turn_id : TurnId) (name : string) (s : BackgroundNotificationState)
    : BackgroundNotificationState :=
  let key := Iteration.cohort_key turn_id name in
  let g := default empty_group (groups s !! key) in
  set_groups (<[key := mk_group (expected g + 1) (sealed g) (sealed_at g) (results g)]> (groups s)) s.
Definition is_ready (now timeout : Z) (g : BackgroundNotificationGroup) : bool :=
  sealed g && ((expected g <=? N.of_nat (length (results g)))%N
               || match sealed_at g with Some t => (timeout <=? now - t)%Z | None => false end).
Definition is_partial (g : BackgroundNotificationGroup) : bool :=
  (N.of_nat (length (results g)) <? expected g)%N.

(** ** The collecting stage *)

Definition MAX_BUFFERED_RESULTS : nat := 64.
(** Milliseconds. *)
Definition GROUP_TIMEOUT : Z := 30 * 60 * 1000.

(** The oldest result makes room; it is only logged. *)
Definition buffer_background_result (p : PendingBackgroundResult) (s : BackgroundNotificationState)
    : BackgroundNotificationState :=
  let buffer := buffered_results s in
  let buffer := if Nat.leb MAX_BUFFERED_RESULTS (length buffer) then drop 1 buffer else buffer in
  set_buffer (buffer ++ [p]) s.

(** The order in which a hash map gives its keys is the world's: the keys of
    [order] first. *)
Definition keys_in_order (order : list string) (m : gmap string BackgroundNotificationGroup) : list string :=
  let first := List.filter (fun k => is_some (m !! k)) (remove_dups order) in
  first ++ List.filter (fun k => negb (bool_decide (k ∈ first))) (map fst (map_to_list m)).
Definition release_group (name : string) (s : BackgroundNotificationState) : BackgroundNotificationState :=
  match groups s !! name with
  | None => s
  | Some g => foldl (fun s p => buffer_background_result p s) (set_groups (delete name (groups s)) s) (results g)
  end.
Definition ready_groups (order : list string) (now : Z) (m : gmap string BackgroundNotificationGroup) : list string :=
  List.filter (fun k => match m !! k with Some g => is_ready now GROUP_TIMEOUT g | None => false end)
    (keys_in_order order m).
Definition release_ready_background_groups (order : list string) (now : Z) (s : BackgroundNotificationState)
    : BackgroundNotificationState * bool :=
  let ready := ready_groups order now (groups s) in
  (foldl (fun s name => release_group name s) s ready, negb (bool_decide (ready = []))).

(** A result goes to its cohort while the cohort stands, else to the buffer. *)
Definition place_result (p : PendingBackgroundResult) (s : BackgroundNotificationState) : BackgroundNotificationState :=
  match group p ≫= fun key => pair key <$> groups s !! key with
  | Some (key, g) => set_groups (<[key := set_results (results g ++ [p]) g]> (groups s)) s
  | None => buffer_background_result p s
  end.
Definition seal (now : Z) (g : BackgroundNotificationGroup) : BackgroundNotificationGroup :=
  if sealed g then g else mk_group (expected g) true (Some now) (results g).
Definition any_open (s : BackgroundNotificationState) : bool :=
  negb (forallb (fun kv : string * BackgroundNotificationGroup => sealed kv.2) (map_to_list (groups s))).
Definition seal_all (now : Z) (s : BackgroundNotificationState) : BackgroundNotificationState :=
  set_groups (seal now <$> groups s) s.

(** ** The prompt ([background_notification.rs] of the context crate) *)

Definition nl : string := newline.
Definition BACKGROUND_COMPLETION_REPLY_LEAD : string :=
  "Background work has finished. I'm reviewing the {{count_noun}} now.".
Definition SINGLE_RESULT_FRAMING : string :=
  "[background task(s) finished since your last turn. A brief completion acknowledgement has already been sent to the user. Analyze the results now and report the useful outcome as the next fresh, proactive message; do not repeat the acknowledgement.]".
Definition BATCH_FRAMING : string :=
  "[{{count}} background tasks finished since your last turn. A brief completion acknowledgement has already told the user that {{count}} results arrived. Analyze them now and report the useful outcome as the next fresh, proactive message; do not repeat the acknowledgement. Return exactly {{count}} Markdown sections in the order below. Each section must start with the heading `## <index>. <task>`, copying that result's index and <task> text verbatim. If a <task> is long or spans several lines, shorten it in the heading — the index is what identifies the section. A result with nothing worth reporting still gets its heading and one line saying so. Do not omit or merge results, and do not defer one to a later turn.]".
Definition MAX_RESULT_BYTES : nat := 32 * 1024.
Definition MAX_BATCH_BYTES : nat := 4 * MAX_RESULT_BYTES.
Definition BACKGROUND_RESULTS_OPEN : string :=
  ("<background_results count=" +:+ dquote +:+ "{{count}}" +:+ dquote +:+ ">" +:+ nl)%string.
Definition attr (name value : string) : string := (name +:+ "=" +:+ dquote +:+ value +:+ dquote)%string.
Definition BACKGROUND_RESULT_TEMPLATE : string :=
  ("  <result " +:+ attr "index" "{{index}}" +:+ " " +:+ attr "handle" "{{handle}}" +:+ " "
   +:+ attr "type" "{{type}}" +:+ " " +:+ attr "status" "{{status}}" +:+ ">" +:+ nl
   +:+ "    <task>{{task}}</task>" +:+ nl +:+ "    <output>{{output}}</output>" +:+ nl
   +:+ "{{detail}}  </result>" +:+ nl)%string.

Definition build_completion_reply (pending : list PendingBackgroundResult) : string :=
  let count_noun := if Nat.ltb 1 (length pending) then (pretty (length pending) +:+ " results")%string else "result" in
  Str.replace "{{count_noun}}" count_noun BACKGROUND_COMPLETION_REPLY_LEAD.

Definition xml_escape (s : string) : string :=
  Str.replace dquote "&quot;" (Str.replace ">" "&gt;" (Str.replace "<" "&lt;" (Str.replace "&" "&amp;" s))).
Definition pending_status_label (s : SubagentExitStatus) : string :=
  match s with
  | Completed => "completed"
  | Cancelled => "cancelled"
  | Failed _ => "failed"
  | Timeout => "timeout"
  | ForegroundWaitElapsed => "killed"
  end.
Definition result_budget (count : nat) : nat := Nat.min MAX_RESULT_BYTES (MAX_BATCH_BYTES / Nat.max count 1).
Definition truncate_for_notice (text : string) (budget : nat) (full_text : string) : string :=
  if Nat.leb (String.length text) budget then text
  else
    let cut := Str.char_cut text budget in
    (Str.take cut text +:+ "… [truncated: " +:+ pretty cut +:+ " of " +:+ pretty (String.length text)
     +:+ " bytes shown. The FULL text is at " +:+ full_text
     +:+ " — `Read` that absolute path (with `offset`/`limit` to page) instead of re-running or resuming the job.]")%string.

(** [WorkspacePaths::session_log_file]; a character of several bytes becomes
    one underscore. *)
Fixpoint safe_id (s : string) : string :=
  match s with
  | EmptyString => EmptyString
  | String c s =>
      if negb (Str.is_char_start c) then safe_id s
      else String (if Str.is_ascii_alphanumeric c || bool_decide (c ∈ ["_"; "-"; "."]%char) then c else "_"%char) (safe_id s)
  end.
Definition sanitize_session_id (id : string) : string :=
  let out := safe_id id in
  if String.eqb out "" || Str.starts_with "." out then ("_" +:+ out)%string else out.
Definition session_log_file (root id : string) : string :=
  (root +:+ "/logs/sessions/" +:+ sanitize_session_id id +:+ ".jsonl")%string.

(** What a kind of job shows: its type, where its whole text is, its details. *)
Definition kind_texts (root : string) (k : BackgroundJobKind) : string * string * string :=
  match k with
  | Subagent child subagent_type =>
      let transcript := session_log_file root child in
      (subagent_type, transcript,
       ("    <child_session>" +:+ xml_escape child +:+ "</child_session>" +:+ nl
        +:+ "    <transcript_file>" +:+ xml_escape transcript +:+ "</transcript_file>" +:+ nl)%string)
  | Command _ exit_code output_path =>
      ("command", output_path,
       ("    <exit_code>" +:+ pretty exit_code +:+ "</exit_code>" +:+ nl
        +:+ "    <output_file>" +:+ xml_escape output_path +:+ "</output_file>" +:+ nl)%string)
  end.
Definition render_result (root : string) (budget index : nat) (p : PendingBackgroundResult) : string :=
  let '(type_attr, full_text, detail) := kind_texts root (kind p) in
  Str.replace "{{detail}}" detail
   (Str.replace "{{output}}" (xml_escape (truncate_for_notice (summary_text p) budget full_text))
     (Str.replace "{{task}}" (xml_escape (label p))
       (Str.replace "{{status}}" (pending_status_label (status p))
         (Str.replace "{{type}}" (xml_escape type_attr)
           (Str.replace "{{handle}}" (xml_escape (handle_id p))
             (Str.replace "{{index}}" (pretty index) BACKGROUND_RESULT_TEMPLATE)))))).
Fixpoint render_results (root : string) (budget index : nat) (pending : list PendingBackgroundResult) : string :=
  match pending with
  | [] => ""
  | p :: pending => render_result root budget index p +:+ render_results root budget (S index) pending
  end%string.
Definition build_notification_content (root : string) (pending : list PendingBackgroundResult) : list ContentBlock :=
  let count := pretty (length pending) in
  [Text ((if Nat.ltb 1 (length pending) then Str.replace "{{count}}" count BATCH_FRAMING else SINGLE_RESULT_FRAMING)
         +:+ nl +:+ nl +:+ Str.replace "{{count}}" count BACKGROUND_RESULTS_OPEN
         +:+ render_results root (result_budget (length pending)) 1 pending +:+ "</background_results>")%string].

(** *** The check of a reply: a heading for each result *)

Definition MAX_QUOTABLE_TASK_CHARS : nat := 120.
Definition quotable_task (label : string) : option string :=
  let task := Str.trim label in
  if negb (String.eqb task "") && negb (Str.contains_char (ascii_of_nat 10) task)
     && Nat.leb (Str.char_count task) MAX_QUOTABLE_TASK_CHARS
  then Some task else None.
Definition starts_with_digit (s : string) : bool :=
  match s with String c _ => Str.is_ascii_digit c | EmptyString => false end.
Definition heading_opens_result (line : string) (index : nat) (task escaped : option string) : bool :=
  let after_hashes := Str.trim_start_chars ["#"%char] line in
  if Nat.eqb (String.length after_hashes) (String.length line) then false
  else
    let head := Str.trim_start_chars ["*"; "_"]%char (Str.trim_start after_hashes) in
    match Str.strip_prefix (pretty index) head with
    | None => false
    | Some rest =>
        if starts_with_digit rest then false
        else match task, escaped with
             | Some task, Some escaped => Str.contains task rest || Str.contains escaped rest
             | _, _ => true
             end
    end.
(** [str::lines], each trimmed: what follows the last line feed is a line only
    when it is not empty. *)
Definition trimmed_lines (s : string) : list string :=
  let parts := Str.split_char (ascii_of_nat 10) s in
  map Str.trim (match rev parts with EmptyString :: ps => rev ps | _ => parts end).
Definition reported (lines : list string) (index : nat) (label : string) : bool :=
  let quotable := quotable_task label in
  existsb (fun line => heading_opens_result line index quotable (xml_escape <$> quotable)) lines.
Fixpoint missing_from (lines : list string) (index : nat) (labels : list string) : list nat :=
  match labels with
  | [] => []
  | l :: labels => (if reported lines index l then [] else [index]) ++ missing_from lines (S index) labels
  end.
Definition unreported_result_indices (labels : list string) (reply : string) : list nat :=
  if Nat.ltb (length labels) 2 then [] else missing_from (trimmed_lines reply) 1 labels.

(** ** The keys of a batch *)

Section Keys.
(** SHA-256, in hexadecimal. *)
Context (sha256_hex : string -> string).

Definition BACKGROUND_NOTIFICATION_SOURCE_EVENT_PREFIX : string := "background-notification:".
(** Length-prefixed, so that handles cannot run into one another. *)
Fixpoint framed_handles (hs : list string) : string :=
  match hs with [] => "" | h :: hs => pretty (String.length h) +:+ ":" +:+ h +:+ framed_handles hs end%string.
Definition background_batch_source_event_id (handle_ids : list string) : string :=
  (BACKGROUND_NOTIFICATION_SOURCE_EVENT_PREFIX +:+ sha256_hex (framed_handles (sort_strings handle_ids)))%string.
Definition background_prompt_source_event_id (handle_ids : list string) : string :=
  (background_batch_source_event_id handle_ids +:+ ":prompt")%string.
Definition background_reanchor_source_event_id_for (handle_ids : list string) (prompt_ordinal : Z) : string :=
  (match handle_ids with
   | [] => BACKGROUND_NOTIFICATION_SOURCE_EVENT_PREFIX +:+ "legacy-prompt:" +:+ pretty prompt_ordinal +:+ ":reanchor"
   | _ => background_batch_source_event_id handle_ids +:+ ":reanchor-after:" +:+ pretty prompt_ordinal
   end)%string.
Definition background_reanchor_source_event_id (d : BackgroundNotificationDelivery) : string :=
  background_reanchor_source_event_id_for (handle_ids d) (prompt_ordinal d).
End Keys.

(** ** The cadence of retries (seconds) *)

Definition RETRY_INITIAL_BACKOFF : N := 60.
Definition RETRY_MAX_BACKOFF : N := 300.
Definition after_timer_attempt (work_remains : bool) (delay : N) : N :=
  if work_remains then N.min (delay * 2) RETRY_MAX_BACKOFF else RETRY_INITIAL_BACKOFF.
(** ** What moves between the stages *)

Definition collected (s : BackgroundNotificationState) : list string :=
  handles (buffered_results s) ++ handles (group_results (groups s)).
Definition pipeline (s : BackgroundNotificationState) : list string := collected s ++ active_handles s.
Definition held (s : BackgroundNotificationState) : nat := length (collected s).

(** [s'] has what [s] had and [extra], less what the cap pushed out. *)
Definition moves (extra : list string) (s s' : BackgroundNotificationState) : Prop :=
  active_delivery s' = active_delivery s /\
  exists dropped, extra ++ collected s ≡ₚ dropped ++ collected s' /\
  (length extra + held s <= MAX_BUFFERED_RESULTS -> dropped = []).

Lemma moves_refl s : moves [] s s.
Proof. split; [done|]. by exists []. Qed.
Lemma moves_same s s' : active_delivery s' = active_delivery s -> collected s ≡ₚ collected s' -> moves [] s s'.
Proof. intros Ha Hc. split; [exact Ha|]. by exists []. Qed.
Lemma moves_trans extra s1 s2 s3 : moves extra s1 s2 -> moves [] s2 s3 -> moves extra s1 s3.
Proof.
  intros [A1 (d1 & P1 & C1)] [A2 (d2 & P2 & C2)]. split; [congruence|]. exists (d1 ++ d2). cbn [app] in P2. split.
  - by rewrite P1, P2, (assoc_L (++)).
  - intros Hle. rewrite (C1 Hle) in *. apply Permutation_length in P1. rewrite !length_app in P1. cbn [length app] in *.
    rewrite C2; [done|]. unfold held in *. lia.
Qed.
Lemma group_results_insert k g m :
  handles (group_results (<[k := g]> m)) ≡ₚ handles (results g) ++ handles (group_results (delete k m)).
Proof.
  rewrite <- insert_delete_eq. unfold group_results, handles. rewrite map_to_list_insert by apply lookup_delete_eq.
  cbn. by rewrite List.map_app.
Qed.
Lemma group_results_lookup k g m : m !! k = Some g ->
  handles (group_results m) ≡ₚ handles (results g) ++ handles (group_results (delete k m)).
Proof. intros H. rewrite <- group_results_insert. by rewrite insert_id. Qed.
Lemma handles_app a b : handles (a ++ b) = handles a ++ handles b.
Proof. apply List.map_app. Qed.

Lemma moves_buffer p s : moves [handle_id p] s (buffer_background_result p s).
Proof.
  split; [done|]. unfold collected, buffer_background_result. cbn [buffered_results groups set_buffer].
  destruct (Nat.leb_spec MAX_BUFFERED_RESULTS (length (buffered_results s))) as [Hf|Hf].
  - destruct (buffered_results s) as [|q l] eqn:E; [cbn in Hf; unfold MAX_BUFFERED_RESULTS in Hf; lia|].
    exists [handle_id q]. cbn [drop]. rewrite handles_app. cbn [handles map app]. split.
    + rewrite Permutation_swap. constructor. unfold handles. cbn. rewrite <- (assoc_L (++)). cbn.
      by rewrite Permutation_middle.
    + intros Hle. exfalso. unfold held, collected in Hle. rewrite E, length_app in Hle. unfold handles in Hle.
      rewrite !length_map in Hle. cbn [length] in *. unfold MAX_BUFFERED_RESULTS in *. lia.
  - exists []. split; [|done]. rewrite handles_app. cbn [handles map app]. rewrite <- (assoc_L (++)). cbn.
    by rewrite Permutation_middle.
Qed.
Lemma moves_buffer_all ps s : moves (handles ps) s (foldl (fun s p => buffer_background_result p s) s ps).
Proof.
  revert s. induction ps as [|p ps IH]; intros s; [apply moves_refl|].
  destruct (moves_buffer p s) as [A1 (d1 & P1 & C1)], (IH (buffer_background_result p s)) as [A2 (d2 & P2 & C2)].
  split; [cbn; congruence|]. exists (d1 ++ d2). cbn [foldl handles map app] in *. split.
  - rewrite <- (assoc_L (++)), <- P2, (assoc_L (++)), (comm (++) d1 (map handle_id ps)), <- (assoc_L (++)), <- P1.
    by rewrite Permutation_middle.
  - intros Hle. unfold handles in C2. rewrite length_map in C2. rewrite length_cons, length_map in Hle. cbn [length] in C1.
    rewrite C1 in * by lia. apply Permutation_length in P1. cbn [length app] in P1 |- *. apply C2. unfold held in *. lia.
Qed.
Lemma moves_release name s : moves [] s (release_group name s).
Proof.
  unfold release_group. destruct (groups s !! name) as [g|] eqn:E; [|apply moves_refl].
  destruct (moves_buffer_all (results g) (set_groups (delete name (groups s)) s)) as [A (d & P & C)].
  assert (Hp : collected s ≡ₚ handles (results g) ++ collected (set_groups (delete name (groups s)) s)).
  { unfold collected. cbn [set_groups buffered_results groups]. rewrite (group_results_lookup _ _ _ E).
    by rewrite !(assoc_L (++)), (comm (++) (handles (results g))). }
  split; [exact A|]. exists d. cbn [app length]. split; [by rewrite Hp|]. intros Hle. apply C.
  apply Permutation_length in Hp. rewrite length_app in Hp. unfold held in *. lia.
Qed.
Lemma moves_release_all names s : moves [] s (foldl (fun s name => release_group name s) s names).
Proof.
  revert s. induction names as [|n names IH]; intros s; [apply moves_refl|]. cbn [foldl].
  eapply moves_trans; [apply moves_release | apply IH].
Qed.
Lemma moves_ready order now s : moves [] s (release_ready_background_groups order now s).1.
Proof. apply moves_release_all. Qed.
Lemma moves_place p s : moves [handle_id p] s (place_result p s).
Proof.
  unfold place_result. destruct (group p ≫= _) as [[key g]|] eqn:E; [|apply moves_buffer].
  apply bind_Some in E as (k & _ & E). apply fmap_Some in E as (g' & E & [= -> ->]).
  split; [done|]. exists []. split; [|done]. unfold collected. cbn [set_groups buffered_results groups].
  rewrite group_results_insert, (group_results_lookup _ _ _ E). cbn [set_results results]. rewrite handles_app.
  cbn [app handles map]. rewrite <- !(assoc_L (++)). cbn. by rewrite !(assoc_L (++)), Permutation_middle.
Qed.
Lemma knows_pipeline h s : knows_handle h s = bool_decide (h ∈ pipeline s).
Proof.
  unfold knows_handle, pipeline, collected. apply eq_true_iff_eq.
  rewrite !orb_true_iff, !bool_decide_eq_true. set_solver.
Qed.
Lemma group_results_seal now m : group_results (seal now <$> m) ≡ₚ group_results m.
Proof.
  unfold group_results. rewrite map_to_list_fmap. apply reflexive_eq. f_equal. induction (map_to_list m) as [|[k g] l IH]; [done|].
  cbn. rewrite IH. unfold seal. by destruct (sealed g).
Qed.
Lemma seal_moves now s : moves [] s (seal_all now s).
Proof.
  apply moves_same; [done|]. unfold collected. cbn [seal_all set_groups buffered_results groups].
  unfold handles. by rewrite group_results_seal.
Qed.
Lemma register_moves turn_id name s : moves [] s (register_group_member turn_id name s).
Proof.
  apply moves_same; [done|]. unfold register_group_member, collected. cbn [set_groups buffered_results groups].
  rewrite group_results_insert. cbn [results]. destruct (groups s !! _) as [g|] eqn:E; cbn [default].
  - by rewrite (group_results_lookup _ _ _ E).
  - cbn. by rewrite delete_id.
Qed.
Lemma register_all_moves ms s :
  moves [] s (foldl (fun b (m : TurnId * string) => register_group_member m.1 m.2 b) s ms).
Proof.
  revert s. induction ms as [|m ms IH]; intros s; [apply moves_refl|]. cbn [foldl].
  eapply moves_trans; [apply register_moves | apply IH].
Qed.

(** ** Keys *)

Lemma go_digits c n s : Str.contains_char c s = false -> Str.is_ascii_digit c = false ->
  Str.contains_char c (pretty_N_go n s) = false.
Proof.
  intros Hs Hc. revert s Hs. induction (N.lt_wf_0 n) as [n _ IH]; intros s Hs.
  destruct (N.eq_dec n 0%N) as [->|Hn]; [by rewrite pretty_N_go_0|]. rewrite pretty_N_go_step by lia.
  apply IH; [apply N.div_lt; lia|]. cbn [Str.contains_char]. rewrite Hs, orb_false_r. apply Ascii.eqb_neq.
  intros E. revert Hc. rewrite E. unfold pretty_N_char. by repeat case_match.
Qed.
Lemma pretty_digits c n : Str.is_ascii_digit c = false -> Str.contains_char c (pretty (n : nat)) = false.
Proof.
  intros Hc. unfold pretty, pretty_nat, pretty, pretty_N. case_decide; [|by apply go_digits].
  cbn [Str.contains_char]. rewrite orb_false_r. apply Ascii.eqb_neq. intros ->. discriminate Hc.
Qed.
Lemma framed_handles_inj a b : framed_handles a = framed_handles b -> a = b.
Proof.
  assert (Hne : forall h hs, framed_handles (h :: hs) <> "").
  { intros h hs E. apply (f_equal String.length) in E. cbn [framed_handles] in E.
    rewrite !Str.length_app_str in E. cbn in E. lia. }
  revert b. induction a as [|h a IH]; intros [|k b] E; [done | by destruct (Hne k b) | by destruct (Hne h a)|].
  cbn [framed_handles] in E.
  assert (Hs : forall h (hs : list string), Str.split_at_char ":" (pretty (String.length h) +:+ ":" +:+ h +:+ framed_handles hs)
                  = Some (pretty (String.length h), h +:+ framed_handles hs)%string).
  { intros x xs. apply Str.split_at_char_app. by apply pretty_digits. }
  pose proof (Hs h a) as Ha. rewrite E, Hs in Ha. injection Ha as Hl Ht. apply (inj pretty) in Hl.
  assert (Eh : h = k). { rewrite <- (Str.take_app h (framed_handles a)), <- Ht, <- Hl. apply Str.take_app. }
  subst k. f_equal. apply IH. rewrite <- (Str.drop_app h (framed_handles a)), <- Ht. apply Str.drop_app.
Qed.
Lemma sort_strings_perm a b : sort_strings a = sort_strings b <-> a ≡ₚ b.
Proof.
  unfold sort_strings. split.
  - intros E. by rewrite <- (merge_sort_Permutation String.le a), E, merge_sort_Permutation.
  - intros P. apply (Sorted_unique String.le); [apply Sorted_merge_sort, _ | apply Sorted_merge_sort, _|].
    by rewrite !merge_sort_Permutation.
Qed.

(** *** Which rows are prompts *)

(** The last byte, which tells a prompt's key from a re-anchor's. *)
Fixpoint last_char (s : string) : option ascii :=
  match s with
  | EmptyString => None
  | String c EmptyString => Some c
  | String _ s => last_char s
  end.
Definition is_prompt_key (k : string) : bool :=
  Str.starts_with BACKGROUND_NOTIFICATION_SOURCE_EVENT_PREFIX k && Str.ends_with ":prompt" k.

Lemma last_char_app x y : y <> "" -> last_char (x +:+ y) = last_char y.
Proof.
  intros Hy. induction x as [|c x IH]; [done|]. rewrite Str.app_cons_str. cbn [last_char]. rewrite IH.
  destruct (x +:+ y)%string eqn:E; [|done]. destruct x, y; done.
Qed.
Lemma last_char_go n s : s <> "" -> last_char (pretty_N_go n s) = last_char s.
Proof.
  revert s. induction (N.lt_wf_0 n) as [n _ IH]; intros s Hs.
  destruct (N.eq_dec n 0%N) as [->|Hn]; [by rewrite pretty_N_go_0|]. rewrite pretty_N_go_step by lia.
  rewrite IH by (apply N.div_lt || done; lia). cbn [last_char]. by destruct s.
Qed.
Lemma pretty_N_digit n : exists c, last_char (pretty (n : N)) = Some c /\ Str.is_ascii_digit c = true.
Proof.
  unfold pretty, pretty_N. case_decide as Hn; [by exists "0"%char|].
  rewrite pretty_N_go_step by lia. rewrite last_char_go by done. eexists. split; [reflexivity|].
  unfold pretty_N_char. by repeat case_match.
Qed.
Lemma pretty_Z_digit z : exists c, last_char (pretty (z : Z)) = Some c /\ Str.is_ascii_digit c = true.
Proof.
  destruct z as [|p|p]; [by exists "0"%char | apply (pretty_N_digit (Npos p))|].
  destruct (pretty_N_digit (Npos p)) as (c & E & Hc). exists c. split; [|done].
  change (pretty (Zneg p)) with ("-" +:+ pretty (Npos p))%string.
  rewrite last_char_app; [done|]. intros H. by rewrite H in E.
Qed.
Lemma prompt_key_last k : is_prompt_key k = true -> last_char k = Some "t"%char.
Proof.
  intros [_ H]%andb_true_iff. unfold Str.ends_with, Str.strip_suffix in H.
  destruct (String.eqb_spec (Str.drop (String.length k - String.length ":prompt") k) ":prompt") as [E|]; [|done].
  rewrite <- (Str.take_drop_str (String.length k - String.length ":prompt") k), E. by rewrite last_char_app.
Qed.
Lemma prompt_key_is sha hs : is_prompt_key (background_prompt_source_event_id sha hs) = true.
Proof.
  unfold is_prompt_key. apply andb_true_iff. split.
  - apply Str.starts_with_spec. unfold background_prompt_source_event_id, background_batch_source_event_id.
    rewrite <- Str.app_assoc_str. eauto.
  - unfold Str.ends_with, background_prompt_source_event_id. by rewrite Str.strip_suffix_app.
Qed.
Lemma prompt_key_nonempty k : is_prompt_key k = true -> k <> "".
Proof. by intros H%prompt_key_last ->. Qed.
Lemma reanchor_key_is_not sha hs n : is_prompt_key (background_reanchor_source_event_id_for sha hs n) = false.
Proof.
  apply not_true_iff_false. intros H%prompt_key_last. destruct (pretty_Z_digit n) as (c & E & Hc).
  unfold background_reanchor_source_event_id_for in H. destruct hs as [|h hs].
  - rewrite !last_char_app in H by (try done; by destruct (pretty n)). done.
  - rewrite !last_char_app in H by (intros Hn; rewrite ?Hn in E; destruct (pretty n); done).
    rewrite E in H. injection H as ->. done.
Qed.

(** A batch's key is the batch's.  As long as the digest tells its inputs
    apart, the source-event key under which a batch's prompt is stored is the
    same for two batches exactly when they have the same handles, whatever the
    order and however the handles could be split elsewhere when run together. *)
Theorem prompt_key_identifies_batch (sha256_hex : string -> string) (a b : list string)
    (Hsha : forall x y, sha256_hex x = sha256_hex y -> x = y) :
  background_prompt_source_event_id sha256_hex a = background_prompt_source_event_id sha256_hex b <-> a ≡ₚ b.
Proof.
  unfold background_prompt_source_event_id, background_batch_source_event_id. rewrite <- sort_strings_perm. split.
  - intros E. apply (f_equal (Str.strip_suffix ":prompt")) in E. rewrite !Str.strip_suffix_app in E.
    apply (inj Some) in E. apply (f_equal (Str.strip_prefix BACKGROUND_NOTIFICATION_SOURCE_EVENT_PREFIX)) in E.
    rewrite !Str.strip_prefix_app in E. apply (inj Some) in E. by apply framed_handles_inj, Hsha.
  - intros ->. done.
Qed.
Lemma prompt_key_identifies_batch_witness :
  background_prompt_source_event_id id ["bg-a"; "bg-b"] = background_prompt_source_event_id id ["bg-b"; "bg-a"] /\
  background_prompt_source_event_id id ["bg-1"; "2"] <> background_prompt_source_event_id id ["bg-12"].
Proof.
  split.
  - apply (prompt_key_identifies_batch id); [done | apply Permutation_swap].
  - intros E. apply (prompt_key_identifies_batch id) in E; [|done]. by apply Permutation_length in E.
Defined.

End Background.
