(* ===== verification/Actor.v ===== *)
(** * The session's actor ([crates/agent/src/actor/mod.rs],
      [background_notification.rs])

    One actor per session takes messages from its mailbox, runs a turn for each
    burst of user input, a board run, a cron fire or a subagent's prompt, and
    delivers what finished in the background when nothing more urgent waits.
    The agent loop is an interface here: what the actor relies on is that its
    transcript only moves by the log's own operations. *)

From S2P Require Import Prelude Effect Message Wire Turn Tokens Approval SessionLog ReadTracker ProgressLedger.
From S2P Require Import Mailbox Framing Scope ToolRegistry Iteration AgentLoop Background.
Import Message Effect.

Module Actor.

(** ** Messages *)

Record IncomingMessage := mk_incoming {
  inc_content : list ContentBlock;
  inc_platform_msg_id : string;
  inc_timestamp : Z;
}.
Inductive CronDelivery := ToChannel | ToOriginSession.
Inductive ExecutionOutcome := ExecSuccess | ExecBlank | ExecFailed.
Record PendingCronResult := mk_cron_result {
  execution_id : string;
  cron_job_id : string;
  job_title : string;
  fire_session_id : string;
  reply_ordinal : option Z;
  outcome : ExecutionOutcome;
  failure_reason : option string;
}.
Inductive AgentMessage :=
| UserInput (m : IncomingMessage)
| UserInputBatch (ms : list IncomingMessage)
| CronTrigger (job_id title prompt : string) (delivery : CronDelivery) (builtin : option string)
| IssueRun (run_id : string) (number : Z) (brief : string) (files : list MediaBlock) (checkout : string)
| CronResultReady (pending : PendingCronResult)
| SubagentSpawned (initial : IncomingMessage) (parent : Turn.TurnId) (inherited : bool)
| BackgroundJobFinished (pending : Background.PendingBackgroundResult)
| SetModel (llm model effort : option string)
| ActorStop.
#[export] Instance prioritized : Mailbox.Prioritized AgentMessage := fun m =>
  match m with
  | UserInput _ | UserInputBatch _ | CronTrigger _ _ _ _ _ | IssueRun _ _ _ _ _ | SubagentSpawned _ _ _
  | SetModel _ _ _ => Mailbox.Trigger
  | BackgroundJobFinished _ | CronResultReady _ => Mailbox.BackgroundJobFinished
  | ActorStop => Mailbox.Stop
  end.

Definition is_blank_reply (content : list ContentBlock) : bool :=
  forallb (fun b => match b with Text t => String.eqb (Str.trim t) "" | _ => false end) content.
Definition CRON_NOTIFICATION_SOURCE_EVENT_PREFIX : string := "cron-execution:".
Definition cron_notification_source_event_id (execution_id : string) : string :=
  (CRON_NOTIFICATION_SOURCE_EVENT_PREFIX +:+ execution_id)%string.
Definition FIRE_REPLY_READ_LIMIT : nat := 4.
Definition EMPTY_USER_REPLY_NOTICE : string :=
  "The assistant did not produce a response to your message. Please try again or rephrase.".
Definition COMPACT_COMMAND_NAME : string := "compact".

Definition is_compact_command (content : list ContentBlock) : bool :=
  match content with
  | Text text :: _ =>
      match Str.strip_prefix "/" (Str.trim text) with
      | Some rest => Str.eq_ignore_ascii_case (default "" (head (Str.words rest))) COMPACT_COMMAND_NAME
      | None => false
      end
  | _ => false
  end.
Definition is_slash_command (content : list ContentBlock) : bool :=
  match content with
  | Text text :: _ =>
      match Str.strip_prefix "/" (Str.trim_start text) with
      | Some rest => negb (String.eqb rest "") && negb (is_some (Str.leading_of Str.white_space rest))
      | None => false
      end
  | _ => false
  end.
Definition is_coalescable_user_input (m : AgentMessage) : bool :=
  match m with UserInput inc => negb (is_slash_command (inc_content inc)) | _ => false end.
Definition slash_command_text (content : list ContentBlock) : string :=
  Wire.joined " " (List.filter (fun t => negb (String.eqb t ""))
    (omap (fun b => match b with Text t => Some (Str.trim t) | _ => None end) content)).

(** ** Taking messages

    The mailbox is the list it refines to: [Mailbox.take_next] is what [recv]
    and [try_recv_if] look at. *)

(** [while let Some(m) = mailbox.try_recv_if(pred)]: every pop shortens the
    queue, so its length is fuel enough. *)
Fixpoint take_while_loop (pred : AgentMessage -> bool) (fuel : nat) (q : list AgentMessage)
    : list AgentMessage * list AgentMessage :=
  match fuel with
  | 0 => ([], q)
  | S fuel =>
      match Mailbox.take_next q with
      | Some (m, rest) =>
          if pred m then let (ms, q) := take_while_loop pred fuel rest in (m :: ms, q) else ([], q)
      | None => ([], q)
      end
  end.
Definition take_while_next (pred : AgentMessage -> bool) (q : list AgentMessage)
    : list AgentMessage * list AgentMessage := take_while_loop pred (length q) q.
Definition incoming_of (m : AgentMessage) : list IncomingMessage :=
  match m with UserInput inc => [inc] | UserInputBatch incs => incs | _ => [] end.
Definition drain_injectable (q : list AgentMessage) : list AgentMessage * list (list ContentBlock * string) :=
  let (ms, q) := take_while_next is_coalescable_user_input q in
  (q, map (fun inc => (inc_content inc, inc_platform_msg_id inc)) (concat (map incoming_of ms))).
Definition is_batch (m : AgentMessage) : bool := match m with UserInputBatch _ => true | _ => false end.
Definition discard_pending (q : list AgentMessage) : list AgentMessage :=
  (take_while_next (fun m => is_coalescable_user_input m || is_batch m) q).2.
(** What [recv] hands out, with the burst that is run together with it. *)
Definition take_burst (q : list AgentMessage) : option (list AgentMessage * list AgentMessage) :=
  match Mailbox.take_next q with
  | None => None
  | Some (m, rest) =>
      if is_coalescable_user_input m || is_batch m then
        let (ms, rest) := take_while_next is_coalescable_user_input rest in Some (m :: ms, rest)
      else Some ([m], rest)
  end.

(** What happens to the mailbox while a turn runs. *)
Inductive Traffic := Arrive (ms : list AgentMessage) | Drain.
Definition replay (t : Traffic) (q : list AgentMessage) : list AgentMessage :=
  match t with Arrive ms => q ++ ms | Drain => (drain_injectable q).1 end.

(** ** What the actor stands on *)

Record RunSpec := mk_run {
  run_input : Turn.TurnInput;
  run_parent : option Turn.TurnId;
  run_streams : bool;
  run_interjects : bool;
  run_silence : bool;
  run_inherited : bool;
}.
(** How a run ends: the cohort members its spawns registered with the session,
    the traffic of the mailbox meanwhile, whether its token had tripped, whether
    [report_nothing] was called. *)
Record TurnEnd := mk_end {
  end_members : list (Turn.TurnId * string);
  end_traffic : list Traffic;
  end_cancelled : bool;
  end_silenced : bool;
  end_result : result Iteration.OutgoingMessage Scope.Error;
}.

(** The agent loop, with the session's transcript and the turn store under it. *)
Class LoopApi (L : Type) := {
  transcript : L -> SessionLog.Log;
  append_user_message : list ContentBlock -> string -> L -> L * result unit Scope.Error;
  append_issue_brief : Z -> string -> string -> list MediaBlock -> L -> L * result unit Scope.Error;
  append_cron_fire : string -> string -> option string -> L -> L * result unit Scope.Error;
  append_spawned_prompt : list ContentBlock -> L -> L * result unit Scope.Error;
  append_cron_notification : list ContentBlock -> option string -> L ->
    L * result SessionLog.SessionMessageAppendOutcome Scope.Error;
  append_prompt_once : list ContentBlock -> string -> L ->
    L * result SessionLog.SessionMessageAppendOutcome Scope.Error;
  set_notification_cue : bool -> L -> L;
  set_initial_llm : option string -> option string -> option string -> L -> L;
  restore_transcript : L -> L;
  run_turn : RunSpec -> list AgentMessage -> L -> L * TurnEnd;
  compact_now : L -> L * result AgentLoop.CompactionNotice Scope.Error;
  (** the two halves of [with_turn] around a body that no token stops *)
  open_turn : Turn.TurnInput -> L -> L * result Turn.TurnId Scope.Error;
  close_turn : Turn.TurnId -> result Turn.TurnOutput Scope.Error -> L -> L * result unit Scope.Error;
}.

(** Out-of-band rows of the chat view ([crates/model/src/control_event.rs]). *)
Inductive ControlEventKind := CommandEcho | NoticeInfoEvent | NoticeWarnEvent | NoticeErrorEvent | ProgressEvent.
Definition control_event_row_id (seq : Z) : string := ("n" +:+ pretty seq)%string.

(** The part of the session the actor owns. *)
Record Session := mk_session {
  background : Background.BackgroundNotificationState;
  hidden : bool;
  last_active : Z;
  last_llm : option string;
  last_model : option string;
  last_effort : option string;
}.
Definition set_background (b : Background.BackgroundNotificationState) (s : Session) : Session :=
  mk_session b (hidden s) (last_active s) (last_llm s) (last_model s) (last_effort s).
Definition set_hidden (b : bool) (s : Session) : Session :=
  mk_session (background s) b (last_active s) (last_llm s) (last_model s) (last_effort s).
Definition set_last_active (t : Z) (s : Session) : Session :=
  mk_session (background s) (hidden s) t (last_llm s) (last_model s) (last_effort s).
Definition set_pins (llm model effort : option string) (s : Session) : Session :=
  mk_session (background s) (hidden s) (last_active s) llm model effort.

Inductive Waited := Came (ms : list AgentMessage) | Elapsed | Hung.

(** The stores' answers, the clock, the order of a hash map, and what comes in
    while the actor waits.  A read of the transcript that succeeds answers with
    the transcript. *)
Class Peers (W : Type) := {
  save_taken : W -> W * bool;
  stored_last_active : W -> W * result (option Z) string;
  read_taken : W -> W * result unit string;
  write_hidden : bool -> W -> W * result unit string;
  append_control_event : Z -> ControlEventKind -> string -> Z -> string -> W -> W * result Z string;
  fire_history : string -> Z -> nat -> W -> W * result (list (Z * ChatMessage)) string;
  mark_execution_notified : string -> Z -> W -> W * result unit string;
  clock : W -> W * Z;
  hash_order : W -> W * list string;
  (** whether the channel is still there to take an output *)
  output_taken : W -> W * bool;
  (** until something comes in, the timer if there is one elapses, or the last
      sender is gone *)
  wait : option N -> W -> W * Waited;
}.

Inductive Output :=
| OutNotice (level : Iteration.NoticeLevel) (text : string) (durable_id : option string) (source : string)
| OutReply (m : Iteration.OutgoingMessage) (source : string).

Section Run.
Context {L W : Type} {Lp : LoopApi L} {Pe : Peers W}.
Context (turn_error_text : Turn.TurnError -> string) (sha256_hex : string -> string) (root : string).

Record Actor := mk_actor {
  agent_loop : L;
  peers : W;
  session : Session;
  mailbox : list AgentMessage;
  (** the session's row in the store *)
  saved : Session;
  outbox : list Output;
  retry_delay : N;
}.
Definition set_loop (l : L) (a : Actor) : Actor :=
  mk_actor l (peers a) (session a) (mailbox a) (saved a) (outbox a) (retry_delay a).
Definition set_peers (w : W) (a : Actor) : Actor :=
  mk_actor (agent_loop a) w (session a) (mailbox a) (saved a) (outbox a) (retry_delay a).
Definition set_session (s : Session) (a : Actor) : Actor :=
  mk_actor (agent_loop a) (peers a) s (mailbox a) (saved a) (outbox a) (retry_delay a).
Definition set_mailbox (q : list AgentMessage) (a : Actor) : Actor :=
  mk_actor (agent_loop a) (peers a) (session a) q (saved a) (outbox a) (retry_delay a).
Definition set_saved (s : Session) (a : Actor) : Actor :=
  mk_actor (agent_loop a) (peers a) (session a) (mailbox a) s (outbox a) (retry_delay a).
Definition push_out (o : Output) (a : Actor) : Actor :=
  mk_actor (agent_loop a) (peers a) (session a) (mailbox a) (saved a) (outbox a ++ [o]) (retry_delay a).
Definition set_retry (n : N) (a : Actor) : Actor :=
  mk_actor (agent_loop a) (peers a) (session a) (mailbox a) (saved a) (outbox a) n.

Definition AM (A : Type) : Type := M Actor Scope.Error A.
Definition ask {A} (f : W -> W * A) : AM A := draw (fun a => let (w, x) := f (peers a) in (set_peers w a, x)).
Definition on_loop (f : L -> L) : AM unit := modify (fun a => set_loop (f (agent_loop a)) a).
Definition ask_loop {A} (f : L -> L * A) : AM A :=
  draw (fun a => let (l, x) := f (agent_loop a) in (set_loop l a, x)).
Definition try_loop {A} (f : L -> L * result A Scope.Error) : AM A :=
  let* r := ask_loop f in of_result r.
Definition on_session (f : Session -> Session) : AM unit := modify (fun a => set_session (f (session a)) a).
Definition of_session {A} (f : Session -> A) : AM A := gets (fun a => f (session a)).
Definition of_background {A} (f : Background.BackgroundNotificationState -> A) : AM A :=
  of_session (fun s => f (background s)).
Definition on_background (f : Background.BackgroundNotificationState -> Background.BackgroundNotificationState) : AM unit :=
  on_session (fun s => set_background (f (background s)) s).
Definition of_log {A} (f : SessionLog.Log -> A) : AM A := gets (fun a => f (transcript (agent_loop a))).
(** A read of the transcript through the session manager. *)
Definition read_log {A} (f : SessionLog.Log -> A) : AM (result A string) :=
  let* taken := ask read_taken in
  match taken with
  | Ok _ => let* x := of_log f in ret (Ok x)
  | Err e => ret (Err e)
  end.
Definition send_response (o : Output) : AM unit :=
  let* taken := ask output_taken in when taken (modify (push_out o)).

(** ** The session's row *)

Definition save_session_row : AM bool :=
  let* taken := ask save_taken in
  let* _ := when taken (modify (fun a => set_saved (session a) a)) in
  ret taken.
Definition persist_session_state_with_activity : AM bool :=
  let* now := ask clock in
  let* _ := on_session (set_last_active now) in
  save_session_row.
Definition persist_session_state_preserving_activity : AM bool :=
  let* stored := ask stored_last_active in
  let* mine := of_session last_active in
  let* _ := match stored with
            | Ok (Some t) => when (mine <? t)%Z (on_session (set_last_active t))
            | _ => ret tt
            end in
  save_session_row.

(** ** Control events *)

Definition persist_control_event (after_ordinal : Z) (kind : ControlEventKind) (text : string) (at_time : Z)
    (platform_msg_id : string) : AM (option string) :=
  let* stored := ask (append_control_event after_ordinal kind text at_time platform_msg_id) in
  ret match stored with Ok seq => Some (control_event_row_id seq) | Err _ => None end.
Definition current_after_ordinal : AM (option Z) :=
  let* latest := read_log SessionLog.latest_session_ordinal in
  ret match latest with Ok m => Some (default (-1)%Z m) | Err _ => None end.

(** ** Running the loop *)

Definition TURN_CANCELLED : string := "turn cancelled".
Definition is_turn_cancelled (e : Scope.Error) : bool :=
  match e with Scope.WithContext m _ => String.eqb m TURN_CANCELLED | _ => false end.
Definition turn_failed_notice (e : Scope.Error) : string :=
  ("The turn failed before producing a reply: " +:+ Scope.error_text turn_error_text e)%string.
Definition is_user_chat (i : Turn.TurnInput) : bool := match i with Turn.UserChat _ => true | _ => false end.

(** The answer, and whether the turn was stopped; a spawn that joined a cohort
    is counted in the session, which the loop works on. *)
Definition run_agent_loop (spec : RunSpec) : AM (bool * bool * result Iteration.OutgoingMessage Scope.Error) :=
  let* q := gets mailbox in
  let* done := ask_loop (run_turn spec q) in
  let* _ := modify (fun a => set_mailbox (foldl (fun q t => replay t q) (mailbox a) (end_traffic done)) a) in
  let* _ := on_background (fun b =>
    foldl (fun b m => Background.register_group_member m.1 m.2 b) b (end_members done)) in
  let cancelled := end_cancelled done in
  let* _ := match end_result done with
            | Err e => when (is_user_chat (run_input spec) && negb cancelled)
                         (send_response (OutNotice Iteration.NoticeError (turn_failed_notice e) None "user_turn_failed"))
            | Ok _ => ret tt
            end in
  ret (cancelled, end_silenced done,
       match end_result done with
       | Err e => Err (if cancelled then Scope.WithContext TURN_CANCELLED e else e)
       | r => r
       end).

(** ** Background results ([background_notification.rs]) *)

Definition MAX_DELIVERY_ATTEMPTS : N := 5.
Definition u32_max : N := 2 ^ 32 - 1.

(** Whether a cohort was let go. *)
Definition release_ready_background_groups : AM bool :=
  let* order := ask hash_order in
  let* now := ask clock in
  let* released := of_background (fun b => (Background.release_ready_background_groups order now b).2) in
  let* _ := on_background (fun b => (Background.release_ready_background_groups order now b).1) in
  ret released.
Definition handle_background_finished (p : Background.PendingBackgroundResult) : AM unit :=
  let* known := of_background (Background.knows_handle (Background.handle_id p)) in
  if known : bool then ret tt
  else
    let* _ := on_background (Background.place_result p) in
    let* _ := release_ready_background_groups in
    let* _ := persist_session_state_with_activity in ret tt.
Definition seal_background_notification_groups : AM unit :=
  let* now := ask clock in
  let* changed := of_background Background.any_open in
  let* _ := on_background (Background.seal_all now) in
  when changed
    (let* _ := release_ready_background_groups in
     let* _ := persist_session_state_with_activity in ret tt).

(** Which results of the open batch a reply says nothing of; it is only
    logged. *)
Definition unreported_background_results (reply : list ContentBlock) (b : Background.BackgroundNotificationState)
    : option (nat * list nat) :=
  match Background.active_delivery b with
  | None => None
  | Some d =>
      let reply_text := Wire.joined newline (omap (fun b => match b with Text t => Some t | _ => None end) reply) in
      match Background.unreported_result_indices (Background.result_labels d) reply_text with
      | [] => None
      | indices => Some (length (Background.result_labels d), indices)
      end
  end.
Definition bump (d : Background.BackgroundNotificationDelivery) : Background.BackgroundNotificationDelivery :=
  Background.mk_delivery (Background.handle_ids d) (Background.result_labels d) (Background.content d)
    (Background.prompt_ordinal d) (N.min (Background.failed_attempts d + 1) u32_max).
Definition record_background_notification_failure : AM unit :=
  let* active := of_background Background.active_delivery in
  match active with
  | None => ret tt
  | Some d =>
      let d := bump d in
      let* _ := on_background (Background.set_active
        (if (MAX_DELIVERY_ATTEMPTS <=? Background.failed_attempts d)%N then None else Some d)) in
      let* _ := persist_session_state_with_activity in ret tt
  end.

Definition announce_background_completion (pending : list Background.PendingBackgroundResult) (prompt_ordinal : Z) : AM unit :=
  let text := Background.build_completion_reply pending in
  let* now := ask clock in
  let* durable_id := persist_control_event prompt_ordinal NoticeInfoEvent text now "" in
  send_response (OutNotice Iteration.NoticeInfo text durable_id "background_completion").

Definition drive_background_notification_turn (content : list ContentBlock) : AM unit :=
  let* _ := on_loop (set_notification_cue true) in
  let* ended := run_agent_loop (mk_run (Turn.SubagentNotification content) None true false false false) in
  let* _ := on_loop (set_notification_cue false) in
  match ended.2 with
  | Ok response =>
      let* _ := on_background (Background.set_active None) in
      let* _ := persist_session_state_with_activity in
      when (negb (is_blank_reply (Iteration.out_content response)))
        (send_response (OutReply response "background_notification"))
  | Err e => when (negb (is_turn_cancelled e)) record_background_notification_failure
  end.

Definition retry_background_notification_delivery : AM unit :=
  let* saved := persist_session_state_with_activity in
  if negb saved then ret tt
  else
    let* active := of_background Background.active_delivery in
    match active with
    | None => ret tt
    | Some d =>
        let* index := read_log (SessionLog.active_index_of_ordinal (Background.prompt_ordinal d)) in
        match index with
        | Err _ => record_background_notification_failure
        | Ok (Some _) => drive_background_notification_turn (Background.content d)
        | Ok None =>
            let* again := ask_loop (append_prompt_once (Background.content d)
                            (Background.background_reanchor_source_event_id sha256_hex d)) in
            match again with
            | Err _ => record_background_notification_failure
            | Ok o =>
                let* _ := on_background (fun b => Background.set_active
                  ((fun d => Background.mk_delivery (Background.handle_ids d) (Background.result_labels d)
                              (Background.content d) (SessionLog.outcome_ordinal o) (Background.failed_attempts d))
                     <$> Background.active_delivery b) b) in
                let* _ := persist_session_state_with_activity in
                drive_background_notification_turn (Background.content d)
            end
        end
    end.

(** Where the prompt of a batch stands: newly put, found again, or put back
    after a compaction took it; an error leaves the batch in the buffer. *)
Definition place_prompt (content : list ContentBlock) (hs : list string) : AM (bool * Z) :=
  let* first := try_loop (append_prompt_once content (Background.background_prompt_source_event_id sha256_hex hs)) in
  let n := SessionLog.outcome_ordinal first in
  if SessionLog.was_inserted first then ret (true, n)
  else
    let* index := read_log (SessionLog.active_index_of_ordinal n) in
    match index with
    | Err e => throw (Scope.Anyhow e)
    | Ok (Some _) => ret (false, n)
    | Ok None =>
        let* again := try_loop (append_prompt_once content
                        (Background.background_reanchor_source_event_id_for sha256_hex hs n)) in
        ret (false, SessionLog.outcome_ordinal again)
    end.
Definition start_background_notification (pending : list Background.PendingBackgroundResult) : AM unit :=
  let hs := map Background.handle_id pending in
  let content := Background.build_notification_content root pending in
  let* placed := attempt (place_prompt content hs) in
  match placed with
  | Err _ => on_background (Background.set_buffer pending)
  | Ok (inserted, n) =>
      let* _ := when inserted (announce_background_completion pending n) in
      let* _ := on_background (Background.set_active
        (Some (Background.mk_delivery hs (map Background.label pending) content n 0))) in
      let* saved := persist_session_state_with_activity in
      if saved : bool then drive_background_notification_turn content else ret tt
  end.
Definition run_background_notification_delivery : AM unit :=
  let* active := of_background Background.active_delivery in
  match active with
  | Some _ => retry_background_notification_delivery
  | None =>
      let* pending := of_background Background.buffered_results in
      let* _ := on_background (Background.set_buffer []) in
      match pending with
      | [] => ret tt
      | _ => start_background_notification pending
      end
  end.

Definition handle_background_notification_timer : AM unit :=
  let* released := release_ready_background_groups in
  let* _ := when released (let* _ := persist_session_state_with_activity in ret tt) in
  run_background_notification_delivery.
Definition outranks_notification (q : list AgentMessage) : bool :=
  match Mailbox.take_next q with
  | Some (m, _) => Nat.leb (Mailbox.rank Mailbox.BackgroundJobFinished) (Mailbox.rank (Mailbox.priority m))
  | None => false
  end.
Definition maybe_start_background_notification : AM unit :=
  let* b := of_background (fun b => b) in
  if bool_decide (Background.buffered_results b = []) || is_some (Background.active_delivery b) then ret tt
  else
    let* urgent := gets (fun a => outranks_notification (mailbox a)) in
    if urgent : bool then ret tt else run_background_notification_delivery.
Definition settle_background_notification_after_user_turn (stopped : bool) (content : list ContentBlock) : AM unit :=
  let* active := of_background Background.active_delivery in
  if stopped || is_blank_reply content || negb (is_some active) then ret tt
  else
    let* _ := on_background (Background.set_active None) in
    let* _ := persist_session_state_with_activity in ret tt.

(** ** User input *)

Definition send_user_reply (response : Iteration.OutgoingMessage) : AM unit :=
  if is_blank_reply (Iteration.out_content response) then
    let* after := current_after_ordinal in
    let* durable_id := match after with
                       | Some n =>
                           let* now := ask clock in
                           persist_control_event n NoticeWarnEvent EMPTY_USER_REPLY_NOTICE now ""
                       | None => ret None
                       end in
    send_response (OutNotice Iteration.NoticeWarn EMPTY_USER_REPLY_NOTICE durable_id "user_empty_fallback")
  else send_response (OutReply response "user").

Definition event_kind (l : Iteration.NoticeLevel) : ControlEventKind :=
  match l with
  | Iteration.NoticeWarn => NoticeWarnEvent
  | Iteration.NoticeError => NoticeErrorEvent
  | Iteration.NoticeInfo => NoticeInfoEvent
  end.
Definition handle_compact (command_text : string) (sent_at : Z) (platform_msg_id : string) : AM unit :=
  let* notice := try_loop compact_now in
  let level := AgentLoop.notice_level notice in
  let text := AgentLoop.notice_text notice in
  let* after := current_after_ordinal in
  let* durable_id := match after with
                     | Some n =>
                         let* _ := persist_control_event n CommandEcho command_text sent_at platform_msg_id in
                         let* now := ask clock in
                         persist_control_event n (event_kind level) text now ""
                     | None => ret None
                     end in
  send_response (OutNotice level text durable_id "compact").

(** A slash command: nothing is merged into its turn. *)
Definition handle_user_input (inc : IncomingMessage) : AM unit :=
  let content := inc_content inc in
  if is_compact_command content then
    handle_compact (slash_command_text content) (inc_timestamp inc) (inc_platform_msg_id inc)
  else
    let* _ := try_loop (append_user_message content (inc_platform_msg_id inc)) in
    let* ended := run_agent_loop (mk_run (Turn.UserChat content) None true false false false) in
    let* response := of_result ended.2 in
    send_user_reply response.

(** Each message of the burst keeps its own row; one reply answers them all. *)
Definition handle_merged_user_turn (batch : list IncomingMessage) : AM unit :=
  match batch with
  | [] => ret tt
  | _ =>
      let combined := concat (map inc_content batch) in
      let* _ := each (fun inc => try_loop (append_user_message (inc_content inc) (inc_platform_msg_id inc))) batch in
      let* ended := run_agent_loop (mk_run (Turn.UserChat combined) None true true false false) in
      let stopped := ended.1.1 in
      let* _ := when stopped (modify (fun a => set_mailbox (discard_pending (mailbox a)) a)) in
      let* response := of_result ended.2 in
      let* _ := settle_background_notification_after_user_turn stopped (Iteration.out_content response) in
      send_user_reply response
  end.

(** ** Other turns *)

Definition handle_subagent_spawned (inc : IncomingMessage) (parent : Turn.TurnId) (inherited : bool) : AM unit :=
  let content := inc_content inc in
  let* _ := try_loop (append_spawned_prompt content) in
  let* ended := run_agent_loop (mk_run (Turn.Spawned content) (Some parent) true false false inherited) in
  let* response := of_result ended.2 in
  send_response (OutReply response "subagent").
Definition dispatch_issue_run (run_id : string) (number : Z) (brief : string) (files : list MediaBlock) (checkout : string)
    : AM unit :=
  let* _ := try_loop (append_issue_brief number checkout brief files) in
  let* ended := run_agent_loop (mk_run (Turn.IssueRun run_id (prose_with_media brief files)) None false false false false) in
  let* _ := of_result ended.2 in
  ret tt.
Definition handle_set_model (llm model effort : option string) : AM unit :=
  let* _ := on_session (set_pins llm model effort) in
  on_loop (set_initial_llm llm model effort).

(** *** Cron *)

Definition hide_silenced_cron_fire : AM unit :=
  let* done := ask (write_hidden true) in
  match done with Ok _ => on_session (set_hidden true) | Err _ => ret tt end.
Definition unhide_for_cron_notification : AM unit :=
  let* done := ask (write_hidden false) in
  match done with Ok _ => on_session (set_hidden false) | Err _ => ret tt end.
Definition resolve_cron_delivery (execution_id : string) : AM unit :=
  let* now := ask clock in
  let* _ := ask (mark_execution_notified execution_id now) in
  ret tt.

(** The row and the turn that carries its ordinal to the push. *)
Definition notification_body (content : list ContentBlock) (source_event_id : option string)
    : AM SessionLog.SessionMessageAppendOutcome :=
  let* o := try_loop (append_cron_notification content source_event_id) in
  match o with
  | SessionLog.Inserted _ => ret o
  | SessionLog.Existing _ => throw (Scope.Anyhow "cron notification source event was inserted concurrently")
  end.
Definition notification_turn (content : list ContentBlock) (source_event_id : option string)
    : AM SessionLog.SessionMessageAppendOutcome :=
  let* i := try_loop (open_turn (Turn.CronNotificationInput content)) in
  let* r := attempt (notification_body content source_event_id) in
  match r with
  | Ok o =>
      let* _ := try_loop (close_turn i (Ok (Turn.OutMessage content (Some (SessionLog.outcome_ordinal o))))) in
      ret o
  | Err e => let* _ := ask_loop (close_turn i (Err e)) in throw e
  end.
Definition publish_cron_notification (content : list ContentBlock) (source_event_id : option string)
    : AM SessionLog.SessionMessageAppendOutcome :=
  let* known := match source_event_id with
                | Some key =>
                    let* found := read_log (SessionLog.find_message_ordinal_by_source_event_id key) in
                    match found with
                    | Ok n => ret n
                    | Err e => throw (Scope.Anyhow e)
                    end
                | None => ret None
                end in
  match known with
  | Some n => ret (SessionLog.Existing n)
  | None =>
      let* o := notification_turn content source_event_id in
      let* _ := send_response (OutReply (Iteration.mk_outgoing content (Some (SessionLog.outcome_ordinal o)))
                                 "cron_notification") in
      ret o
  end.
Definition report_cron_outcome (title : string) (failed : bool) (detail : string) : AM unit :=
  let* _ := attempt (publish_cron_notification [Text (Framing.frame_cron_notification title failed detail)] None) in
  ret tt.

Definition cron_payload (job_id prompt : string) : json :=
  JObject [("cron_job_id", JString job_id); ("prompt", JString prompt)]%string.
Definition dispatch_cron_prompt (prompt job_id title : string) (delivery : CronDelivery) (builtin : option string) : AM unit :=
  let* _ := try_loop (append_cron_fire job_id prompt builtin) in
  let silenceable := match delivery with ToChannel => true | ToOriginSession => false end in
  let* ended := run_agent_loop (mk_run (Turn.CronInput (cron_payload job_id prompt)) None false false silenceable true) in
  let* response := of_result ended.2 in
  match delivery with
  | ToOriginSession => ret tt
  | ToChannel =>
      if silenceable && ended.1.2 then hide_silenced_cron_fire
      else if is_blank_reply (Iteration.out_content response) then report_cron_outcome title false ""
      else send_response (OutReply response "cron")
  end.

(** The fire's reply: its text, one block per line, and its media. *)
Definition reply_text (content : list ContentBlock) : string :=
  foldl (fun acc b => match b with
                      | Text t => (if String.eqb acc "" then t else acc +:+ newline +:+ t)%string
                      | _ => acc
                      end) EmptyString content.
Definition is_reply_media (b : ContentBlock) : bool :=
  match b with Text _ | ToolUse _ _ _ _ | ToolResult _ _ _ | Thinking _ _ => false | _ => true end.
Definition read_fire_reply (pending : PendingCronResult) : AM (string * list ContentBlock) :=
  match reply_ordinal pending with
  | None => ret (EmptyString, [])
  | Some n =>
      let* rows := ask (fire_history (fire_session_id pending) (n - 1) FIRE_REPLY_READ_LIMIT) in
      ret match rows with
          | Err _ => (EmptyString, [])
          | Ok rows =>
              match find_first (fun r : Z * ChatMessage => (r.1 =? n)%Z) rows with
              | None => (EmptyString, [])
              | Some (_, reply) =>
                  (reply_text (Message.content reply), List.filter is_reply_media (Message.content reply))
              end
          end
  end.
Definition build_cron_notification (pending : PendingCronResult) : AM (list ContentBlock) :=
  let failed := match outcome pending with ExecFailed => true | _ => false end in
  let* body := match outcome pending with
               | ExecFailed => ret (default "" (failure_reason pending), [])
               | ExecBlank => ret (EmptyString, [])
               | ExecSuccess => read_fire_reply pending
               end in
  ret (Text (Framing.frame_cron_notification (job_title pending) failed body.1) :: body.2).
Definition handle_cron_result_ready (pending : PendingCronResult) : AM unit :=
  let key := cron_notification_source_event_id (execution_id pending) in
  let* found := read_log (SessionLog.find_message_ordinal_by_source_event_id key) in
  match found with
  | Ok (Some _) => resolve_cron_delivery (execution_id pending)
  | _ =>
      let* content := build_cron_notification pending in
      let* _ := unhide_for_cron_notification in
      let* published := attempt (publish_cron_notification content (Some key)) in
      match published with
      | Err _ => ret tt
      | Ok _ => resolve_cron_delivery (execution_id pending)
      end
  end.

(** ** The loop of the actor *)

(** An error of a handler is logged; only a recurring fire's is told. *)
Definition dispatch_one (m : AgentMessage) : AM unit :=
  match m with
  | UserInput inc => let* _ := attempt (handle_user_input inc) in ret tt
  | IssueRun run_id number brief files checkout =>
      let* _ := attempt (dispatch_issue_run run_id number brief files checkout) in ret tt
  | CronTrigger job_id title prompt delivery builtin =>
      let* r := attempt (dispatch_cron_prompt prompt job_id title delivery builtin) in
      match r, delivery with
      | Err e, ToChannel =>
          when (negb (is_turn_cancelled e)) (report_cron_outcome title true (Scope.error_text turn_error_text e))
      | _, _ => ret tt
      end
  | CronResultReady pending => handle_cron_result_ready pending
  | SubagentSpawned inc parent inherited =>
      let* _ := attempt (handle_subagent_spawned inc parent inherited) in ret tt
  | BackgroundJobFinished p => handle_background_finished p
  | SetModel llm model effort => handle_set_model llm model effort
  | UserInputBatch _ | ActorStop => ret tt
  end.
(** One burst; [false] when the actor stops. *)
Definition handle_burst (ms : list AgentMessage) : AM bool :=
  match ms with
  | [] => ret true
  | ActorStop :: _ => let* _ := persist_session_state_preserving_activity in ret false
  | m :: _ =>
      let* _ := if is_coalescable_user_input m || is_batch m
                then let* _ := attempt (handle_merged_user_turn (concat (map incoming_of ms))) in ret tt
                else dispatch_one m in
      let* _ := seal_background_notification_groups in
      let* _ := maybe_start_background_notification in
      ret true
  end.
Definition timer_fires : AM bool :=
  let* _ := handle_background_notification_timer in
  let* more := of_background Background.has_work in
  let* _ := modify (fun a => set_retry (Background.after_timer_attempt more (retry_delay a)) a) in
  ret true.
(** An iteration of [run]: the mailbox first, else the timer while there is
    work, else until a message or the last sender's end. *)
Definition actor_step : AM bool :=
  let* q := gets mailbox in
  match take_burst q with
  | Some (ms, rest) =>
      let* _ := modify (fun a => set_retry Background.RETRY_INITIAL_BACKOFF (set_mailbox rest a)) in
      handle_burst ms
  | None =>
      let* working := of_background Background.has_work in
      let* delay := gets retry_delay in
      let* came := ask (wait (if working : bool then Some delay else None)) in
      match came with
      | Came ms => let* _ := modify (fun a => set_mailbox (mailbox a ++ ms) a) in ret true
      | Elapsed => if working : bool then timer_fires else ret true
      | Hung => ret false
      end
  end.

(** A session's row brought back to life: what was not saved is gone, and so is
    what was queued. *)
Definition rehydrate (a : Actor) : Actor :=
  mk_actor (restore_transcript (agent_loop a)) (peers a) (saved a) [] (saved a) (outbox a)
    Background.RETRY_INITIAL_BACKOFF.

End Run.

(** ** Steps of a program *)

Section Steps.
Context {L W : Type} {Lp : LoopApi L} {Pe : Peers W}.
Lemma run_ask {A B} (f : W -> W * A) (k : A -> AM (L := L) (W := W) B) (a : @Actor L W) :
  bind (ask f) k a = k (f (peers a)).2 (set_peers (f (peers a)).1 a).
Proof using. unfold bind, ask, draw. by destruct (f (peers a)). Qed.
Lemma run_try {A B} (f : L -> L * result A Scope.Error) (k : A -> AM (L := L) (W := W) B) (a : @Actor L W) :
  bind (try_loop f) k a = match (f (agent_loop a)).2 with
                          | Ok x => k x (set_loop (f (agent_loop a)).1 a)
                          | Err e => (set_loop (f (agent_loop a)).1 a, Err e)
                          end.
Proof using. unfold bind, try_loop, ask_loop, draw, of_result, bind. destruct (f (agent_loop a)) as [l [x|e]]; done. Qed.
Lemma run_read {A B} (f : SessionLog.Log -> A) (k : result A string -> AM (L := L) (W := W) B) (a : @Actor L W) :
  bind (read_log f) k a = k (match (read_taken (peers a)).2 with Ok _ => Ok (f (transcript (agent_loop a))) | Err e => Err e end)
                            (set_peers (read_taken (peers a)).1 a).
Proof using. unfold bind at 1, read_log. rewrite run_ask. by destruct (read_taken (peers a)) as [w [u|e]]. Qed.
Lemma run_of_background {A B} (f : Background.BackgroundNotificationState -> A) (k : A -> AM (L := L) (W := W) B) (a : @Actor L W) :
  bind (of_background f) k a = k (f (background (session a))) a.
Proof using. done. Qed.

End Steps.

(** ** Errors end in the handlers *)

Section Survive.
Context {L W : Type} {Lp : LoopApi L} {Pe : Peers W}.
Context (turn_error_text : Turn.TurnError -> string) (sha256_hex : string -> string) (root : string).
Abbreviation runs m := (sure (S := @Actor L W) (E := Scope.Error) m).

Lemma sure_ask {A} (f : W -> W * A) : runs (ask f).
Proof using. apply sure_draw. Qed.
Lemma sure_read {A} (f : SessionLog.Log -> A) : runs (read_log f).
Proof using. unfold read_log, of_log. pose proof @sure_ask. sure_auto. Qed.
Lemma sure_save : runs save_session_row.
Proof using. unfold save_session_row. pose proof @sure_ask. sure_auto. Qed.
Lemma sure_send o : runs (send_response o).
Proof using. unfold send_response. pose proof @sure_ask. sure_auto. Qed.
Hint Resolve sure_ask sure_read sure_save sure_send : sure.
Lemma sure_persist : runs persist_session_state_with_activity.
Proof using. unfold persist_session_state_with_activity, on_session. sure_auto. Qed.
Lemma sure_preserving : runs persist_session_state_preserving_activity.
Proof using. unfold persist_session_state_preserving_activity, on_session, of_session. sure_auto. Qed.
Lemma sure_control n k t z p : runs (persist_control_event n k t z p).
Proof using. unfold persist_control_event. sure_auto. Qed.
Lemma sure_on_background f : runs (on_background f).
Proof using. apply sure_modify. Qed.
Lemma sure_of_background {A} (f : Background.BackgroundNotificationState -> A) : runs (of_background f).
Proof using. apply sure_gets. Qed.
Hint Resolve sure_persist sure_preserving sure_control sure_on_background sure_of_background : sure.
Lemma sure_run spec : runs (run_agent_loop turn_error_text spec).
Proof using. unfold run_agent_loop, ask_loop. sure_auto. Qed.
Lemma sure_failure : runs record_background_notification_failure.
Proof using. unfold record_background_notification_failure. sure_auto. Qed.
Hint Resolve sure_run sure_failure : sure.
Lemma sure_drive content : runs (drive_background_notification_turn turn_error_text content).
Proof using. unfold drive_background_notification_turn, on_loop. sure_auto. Qed.
Hint Resolve sure_drive : sure.
Lemma sure_retry : runs (retry_background_notification_delivery turn_error_text sha256_hex).
Proof using. unfold retry_background_notification_delivery, ask_loop. sure_auto. Qed.
Lemma sure_start pending : runs (start_background_notification turn_error_text sha256_hex root pending).
Proof using. unfold start_background_notification, announce_background_completion. sure_auto. Qed.
Hint Resolve sure_retry sure_start : sure.
Lemma sure_deliver : runs (run_background_notification_delivery turn_error_text sha256_hex root).
Proof using. unfold run_background_notification_delivery. sure_auto. Qed.
Hint Resolve sure_deliver : sure.
Lemma sure_maybe : runs (maybe_start_background_notification turn_error_text sha256_hex root).
Proof using. unfold maybe_start_background_notification. sure_auto. Qed.
Lemma sure_release : runs release_ready_background_groups.
Proof using. unfold release_ready_background_groups. sure_auto. Qed.
Hint Resolve sure_release : sure.
Lemma sure_seal : runs seal_background_notification_groups.
Proof using. unfold seal_background_notification_groups. sure_auto. Qed.
Lemma sure_timer : runs (handle_background_notification_timer turn_error_text sha256_hex root).
Proof using. unfold handle_background_notification_timer. sure_auto. Qed.
Lemma sure_finished p : runs (handle_background_finished p).
Proof using. unfold handle_background_finished. sure_auto. Qed.
Lemma sure_report t f d : runs (report_cron_outcome t f d).
Proof using. unfold report_cron_outcome. sure_auto. Qed.
Hint Resolve sure_maybe sure_timer sure_seal sure_finished sure_report : sure.
Lemma sure_cron_ready p : runs (handle_cron_result_ready p).
Proof using.
  unfold handle_cron_result_ready, resolve_cron_delivery, build_cron_notification, read_fire_reply,
    unhide_for_cron_notification, on_session. sure_auto.
Qed.
Hint Resolve sure_cron_ready : sure.
Lemma sure_dispatch m : runs (dispatch_one turn_error_text m).
Proof using. destruct m; cbn [dispatch_one]; unfold handle_set_model, on_session, on_loop; sure_auto. Qed.
Hint Resolve sure_dispatch : sure.
Lemma burst_returns ms : returns (fun go => go = false -> head ms = Some ActorStop)
  (handle_burst (L := L) (W := W) turn_error_text sha256_hex root ms).
Proof using.
  destruct ms as [|m ms]; [by apply returns_ret|].
  assert (forall d : AM unit, runs d -> returns (fun go => go = false -> Some m = Some ActorStop)
    (let* _ := d in let* _ := seal_background_notification_groups in
     let* _ := maybe_start_background_notification turn_error_text sha256_hex root in ret true)) as Hgo.
  { intros d Hd. repeat (apply returns_bind; [eauto with sure|intros ?]). by apply returns_ret. }
  destruct m; try (apply Hgo; first [apply sure_dispatch | destruct (_ || _); [sure_auto | apply sure_dispatch]]).
  apply returns_bind; [apply sure_preserving | intros ?]. by apply returns_ret.
Qed.

(** C32: an error of a handler does not end the actor.  Whatever the agent loop
    and the stores answer, an iteration returns; and it says stop only when it
    took a stop from the mailbox or when nothing was there and the last sender
    is gone. *)
Theorem actor_survives (a : Actor) :
  exists go, (actor_step (L := L) (W := W) turn_error_text sha256_hex root a).2 = Ok go /\
    (go = false ->
     (exists ms rest, take_burst (mailbox a) = Some (ActorStop :: ms, rest)) \/
     (take_burst (mailbox a) = None /\
      (wait (if Background.has_work (background (session a)) then Some (retry_delay a) else None) (peers a)).2 = Hung)).
Proof using.
  unfold actor_step. unfold bind at 1. cbn [gets]. destruct (take_burst (mailbox a)) as [[ms rest]|].
  - unfold bind at 1. cbn [modify]. destruct (burst_returns ms (set_retry Background.RETRY_INITIAL_BACKOFF (set_mailbox rest a)))
      as (go & -> & Hgo). exists go. split; [done|]. intros E. left. specialize (Hgo E). destruct ms as [|m ms]; [done|].
    injection Hgo as ->. by exists ms, rest.
  - rewrite run_of_background. unfold bind at 1. cbn [gets]. rewrite run_ask.
    destruct (wait _ (peers a)) as [w [ms| |]]; cbn [fst snd]; [by exists true | | exists false; by auto].
    destruct (Background.has_work _); [|by exists true].
    assert (returns (fun go => go = true) (timer_fires turn_error_text sha256_hex root)) as Ht.
    { unfold timer_fires. repeat (apply returns_bind; [eauto with sure|intros ?]). by apply returns_ret. }
    destruct (Ht (set_peers w a)) as (go & -> & ->). by exists true.
Qed.
End Survive.

(** ** What is taken from the mailbox *)

Definition of_priority (p : Mailbox.MessagePriority) (q : list AgentMessage) : list AgentMessage :=
  List.filter (fun m => Nat.eqb (Mailbox.rank (Mailbox.priority m)) (Mailbox.rank p)) q.
Definition no_more_urgent (m : AgentMessage) (q : list AgentMessage) : Prop :=
  Forall (fun x => Mailbox.rank (Mailbox.priority x) <= Mailbox.rank (Mailbox.priority m)) q.

Lemma take_next_none (q : list AgentMessage) : Mailbox.take_next q = None -> q = [].
Proof. destruct q as [|x q]; [done|]. cbn. destruct (Mailbox.take_next q) as [[m r]|]; [by case_match | done]. Qed.
Lemma take_next_in_order (q rest : list AgentMessage) m : Mailbox.take_next q = Some (m, rest) ->
  no_more_urgent m q /\ forall p, of_priority p q = of_priority p [m] ++ of_priority p rest.
Proof.
  revert m rest. induction q as [|x q IH]; intros m rest; cbn; [done|].
  destruct (Mailbox.take_next q) as [[y r]|] eqn:E.
  2: { intros [= <- <-]. apply take_next_none in E as ->. split; [by apply Forall_singleton|]. intros p. by rewrite app_nil_r. }
  destruct (IH _ _ eq_refl) as [Hu Hf]. destruct (Nat.leb_spec (Mailbox.rank (Mailbox.priority y)) (Mailbox.rank (Mailbox.priority x)));
    intros [= <- <-]; (split; [constructor; [lia|]|]).
  - eapply Forall_impl; [exact Hu|]. cbn. intros; lia.
  - intros p. exact (List.filter_app _ [x] q).
  - exact Hu.
  - intros p. specialize (Hf p). unfold of_priority in *. cbn [List.filter] in *.
    destruct (Nat.eqb_spec (Mailbox.rank (Mailbox.priority x)) (Mailbox.rank p)); [|exact Hf].
    destruct (Nat.eqb_spec (Mailbox.rank (Mailbox.priority y)) (Mailbox.rank p)); [lia|]. cbn. by rewrite Hf.
Qed.
Lemma take_while_in_order pred q ms rest : take_while_next pred q = (ms, rest) ->
  Forall (fun m => pred m = true) ms /\ forall p, of_priority p q = of_priority p ms ++ of_priority p rest.
Proof.
  unfold take_while_next. generalize (length q) as n. intros n. revert q ms rest.
  induction n as [|n IH]; intros q ms rest; cbn [take_while_loop]; [by intros [= <- <-]|].
  destruct (Mailbox.take_next q) as [[m r]|] eqn:E; [|by intros [= <- <-]].
  destruct (pred m) eqn:Em; [|by intros [= <- <-]]. destruct (take_while_loop pred n r) as [k q'] eqn:El.
  intros [= <- <-]. destruct (IH _ _ _ El) as [H1 H2]. split; [by constructor|]. intros p.
  rewrite (proj2 (take_next_in_order _ _ _ E)), H2, (assoc_L (++)). unfold of_priority. by rewrite <- List.filter_app.
Qed.

(** The mailbox is served in order.  What the actor takes for an iteration
    begins with a message of the highest priority present; within each priority
    what it takes and what it leaves are, one after the other, what was there,
    in order of arrival; several messages are taken together only when they are
    user input without a slash command, so a slash command is run alone. *)
Theorem burst_in_order (q ms rest : list AgentMessage) (Htake : take_burst q = Some (ms, rest)) :
  (exists m k, ms = m :: k /\ no_more_urgent m q) /\
  (forall p, of_priority p q = of_priority p ms ++ of_priority p rest) /\
  (forall m, m ∈ ms -> length ms = 1 \/ is_coalescable_user_input m = true \/ is_batch m = true) /\
  (forall inc, UserInput inc ∈ ms -> is_slash_command (inc_content inc) = true -> ms = [UserInput inc]).
Proof.
  unfold take_burst in Htake. destruct (Mailbox.take_next q) as [[m r]|] eqn:E; [|done].
  destruct (take_next_in_order _ _ _ E) as [Hu Hf].
  destruct (is_coalescable_user_input m || is_batch m) eqn:Em.
  - destruct (take_while_next _ r) as [k r'] eqn:Ek. injection Htake as <- <-.
    destruct (take_while_in_order _ _ _ _ Ek) as [Hk Hp]. rewrite Forall_forall in Hk. apply orb_true_iff in Em.
    split_and!; [by exists m, k | | |].
    + intros p. rewrite Hf, Hp, (assoc_L (++)). unfold of_priority. by rewrite <- List.filter_app.
    + intros x [->|Hx]%elem_of_cons; right; [done | left; auto].
    + intros inc Hi Hs. exfalso. assert (is_coalescable_user_input (UserInput inc) = true) as Hc.
      { apply elem_of_cons in Hi as [<-|Hi]; [by destruct Em | by apply Hk]. }
      cbn in Hc. by rewrite Hs in Hc.
  - injection Htake as <- <-. split_and!; [by exists m, [] | exact Hf | by left |].
    intros inc ->%list_elem_of_singleton _. done.
Qed.

Lemma burst_in_order_witness :
  let hi := UserInput (mk_incoming [Text "hello"] "1" 0) in
  let there := UserInput (mk_incoming [Text "there"] "2" 0) in
  let slash := UserInput (mk_incoming [Text "/compact"] "3" 0) in
  take_burst [ActorStop; hi; there; slash; hi] = Some ([hi; there], [ActorStop; slash; hi]) /\
  of_priority Mailbox.Trigger [ActorStop; hi; there; slash; hi]
  = of_priority Mailbox.Trigger [hi; there] ++ of_priority Mailbox.Trigger [ActorStop; slash; hi].
Proof.
  intros hi there slash. split; [reflexivity|].
  apply (burst_in_order [ActorStop; hi; there; slash; hi] [hi; there] [ActorStop; slash; hi] eq_refl).
Defined.
End Actor.
