(* ===== verification/Delivery.v ===== *)
(** * What the session's actor guarantees of background results

    The actor of [Actor.v] against any agent loop whose transcript moves by the
    log's own operations ([LoopLaws]) and any answers of the stores: a result
    it has accepted is not lost before its prompt is in the transcript, a batch
    is acknowledged at most once, and the ledger and the buffers never own a
    result twice, over any run, any restart and a crash at any call. *)

From S2P Require Import Prelude Effect Message Wire Turn Tokens Approval SessionLog ReadTracker ProgressLedger.
From S2P Require Import Mailbox Framing Scope ToolRegistry Iteration AgentLoop Background Actor.
Import Message Effect Actor.

Module Delivery.

Create HintDb actor.

(** ** Prompts in a transcript *)

Definition events (l : SessionLog.Log) : list string := omap SessionLog.source_event_id l.
(** The rows put under a batch's own key. *)
Definition prompts (l : SessionLog.Log) : list string := List.filter Background.is_prompt_key (events l).

(** The log keeps its shape and its events, and has [k] prompts more. *)
Record log_moves (k : Z) (l l' : SessionLog.Log) : Prop := mk_moves {
  moves_wf : SessionLog.log_wf l -> SessionLog.log_wf l';
  moves_events : events l ⊆ events l';
  moves_prompts : Z.of_nat (length (prompts l')) = (Z.of_nat (length (prompts l)) + k)%Z;
}.

Section Moves.
Context {C : SessionLog.Chrono}.

(** An operation that puts no prompt. *)
Definition quiet (o : SessionLog.op) : Prop :=
  match o with SessionLog.OpOnce _ key _ => Background.is_prompt_key key = false | _ => True end.

Lemma log_moves_refl l : log_moves 0 l l.
Proof. split; [done | done | lia]. Qed.
Lemma log_moves_trans j k l1 l2 l3 : log_moves j l1 l2 -> log_moves k l2 l3 -> log_moves (j + k) l1 l3.
Proof. intros [W1 E1 P1] [W2 E2 P2]. split; [auto | set_solver | lia]. Qed.

Lemma events_append n t k m l :
  events (l ++ [SessionLog.mk_row n None t false k m]) = events l ++ match k with Some key => [key] | None => [] end.
Proof. unfold events. rewrite omap_app. cbn. by destruct k. Qed.
Lemma quiet_op l o : quiet o -> log_moves 0 l (SessionLog.run_op l o).
Proof.
  intros Hq. split; [apply SessionLog.wf_run_op|..]; destruct o as [now m|now key m|now m ms];
    cbn [SessionLog.run_op quiet] in *.
  - unfold SessionLog.append_session_message. cbn [fst]. rewrite (events_append _ _ None). set_solver.
  - unfold SessionLog.append_session_message_idempotent. repeat case_match; cbn [fst]; [done | done|].
    rewrite events_append. set_solver.
  - unfold SessionLog.apply_session_compaction, events. cbn [fst]. rewrite omap_app, SessionLog.supersede_events.
    set_solver.
  - unfold prompts, SessionLog.append_session_message. cbn [fst]. rewrite (events_append _ _ None), app_nil_r. lia.
  - unfold SessionLog.append_session_message_idempotent. repeat case_match; cbn [fst]; [lia | lia|].
    unfold prompts. rewrite events_append, List.filter_app. cbn [List.filter]. rewrite Hq, app_nil_r. lia.
  - unfold prompts, SessionLog.apply_session_compaction, events. cbn [fst].
    rewrite omap_app, SessionLog.supersede_events.
    destruct (SessionLog.insert_rows_spec (SessionLog.next_ordinal l) now (m :: ms)) as (_ & _ & _ & _ & -> & _).
    rewrite app_nil_r. lia.
Qed.
Lemma quiet_run l os : Forall quiet os -> log_moves 0 l (SessionLog.run l os).
Proof.
  intros H. revert l. induction H as [|o os Ho _ IH]; intros l; [apply log_moves_refl|].
  apply (log_moves_trans 0 0 _ (SessionLog.run_op l o)); [by apply quiet_op | apply IH].
Qed.
Lemma once_quiet now key m l l' r : Background.is_prompt_key key = false ->
  SessionLog.append_session_message_idempotent now key m l = (l', r) -> log_moves 0 l l'.
Proof. intros Hk E. pose proof (quiet_op l (SessionLog.OpOnce now key m) Hk) as H. cbn in H. by rewrite E in H. Qed.
(** A prompt's append puts one prompt exactly when it inserts a row, and the
    key is in the log after. *)
Lemma once_prompt now key m l l' o : Background.is_prompt_key key = true ->
  SessionLog.append_session_message_idempotent now key m l = (l', Ok o) ->
  log_moves (if SessionLog.was_inserted o then 1 else 0) l l' /\ key ∈ events l'.
Proof.
  intros Hk E. pose proof (SessionLog.wf_run_op l (SessionLog.OpOnce now key m)) as Hwf.
  cbn [SessionLog.run_op] in Hwf. rewrite E in Hwf. cbn [fst] in Hwf.
  unfold SessionLog.append_session_message_idempotent in E.
  destruct (String.eqb_spec key ""); [discriminate|].
  destruct (SessionLog.find_message_ordinal_by_source_event_id key l) as [n0|] eqn:F.
  - injection E as <- <-. split; [apply log_moves_refl|]. apply fmap_Some in F as (r & F & _).
    apply find_first_Some in F as [F Hr]. apply bool_decide_eq_true_1 in F. apply list_elem_of_omap. eauto.
  - injection E as <- <-. cbn [SessionLog.was_inserted]. split; [split; [exact Hwf| |]|]; unfold prompts;
      rewrite events_append; [set_solver | | set_solver].
    rewrite List.filter_app. cbn [List.filter]. rewrite Hk, length_app. cbn. lia.
Qed.
End Moves.

(** ** What the actor relies on *)

Section Laws.
Context {L : Type} {Lp : LoopApi L} {C : SessionLog.Chrono}.

Definition calm (f : L -> L) : Prop :=
  forall l, exists os, Forall quiet os /\ transcript (f l) = SessionLog.run (transcript l) os.

(** The transcript moves by the log's own operations; only [append_prompt_once]
    is given a prompt's key, and after what it seeds first it is the log's
    idempotent append. *)
Class LoopLaws := {
  calm_user c p : calm (fun l => (append_user_message c p l).1);
  calm_brief n k b f : calm (fun l => (append_issue_brief n k b f l).1);
  calm_fire j p b : calm (fun l => (append_cron_fire j p b l).1);
  calm_spawned c : calm (fun l => (append_spawned_prompt c l).1);
  calm_cron c key : from_option Background.is_prompt_key false key = false ->
    calm (fun l => (append_cron_notification c key l).1);
  calm_cue b : calm (set_notification_cue b);
  calm_llm a b c : calm (set_initial_llm a b c);
  calm_restore : calm restore_transcript;
  calm_turn spec q : calm (fun l => (run_turn spec q l).1);
  calm_compact : calm (fun l => (compact_now l).1);
  calm_open i : calm (fun l => (open_turn i l).1);
  calm_close i r : calm (fun l => (close_turn i r l).1);
  once_spec c key l : exists os, Forall quiet os /\
    match (append_prompt_once c key l).2 with
    | Err _ => transcript (append_prompt_once c key l).1 = SessionLog.run (transcript l) os
    | Ok o => exists now,
        SessionLog.append_session_message_idempotent now key (agent_context c) (SessionLog.run (transcript l) os)
        = (transcript (append_prompt_once c key l).1, Ok o)
    end;
}.
Context {La : LoopLaws}.

Lemma calm_moves f l : calm f -> log_moves 0 (transcript l) (transcript (f l)).
Proof. intros H. destruct (H l) as (os & Hq & ->). by apply quiet_run. Qed.
Lemma calm_once c key : Background.is_prompt_key key = false -> calm (fun l => (append_prompt_once c key l).1).
Proof using La.
  intros Hk l. destruct (once_spec c key l) as (os & Hq & H).
  destruct (append_prompt_once c key l) as [l' [o|e]]; cbn [fst snd] in *; [|by exists os].
  destruct H as [now H]. exists (os ++ [SessionLog.OpOnce now key (agent_context c)]). split.
  - apply Forall_app; split; [exact Hq | by apply Forall_singleton].
  - unfold SessionLog.run in *. rewrite foldl_app. cbn [foldl SessionLog.run_op]. by rewrite H.
Qed.
Lemma once_prompt_moves c key l : Background.is_prompt_key key = true ->
  match (append_prompt_once c key l).2 with
  | Err _ => log_moves 0 (transcript l) (transcript (append_prompt_once c key l).1)
  | Ok o => log_moves (if SessionLog.was_inserted o then 1 else 0) (transcript l) (transcript (append_prompt_once c key l).1)
            /\ key ∈ events (transcript (append_prompt_once c key l).1)
  end.
Proof using La.
  intros Hk. destruct (once_spec c key l) as (os & Hq & H).
  destruct (append_prompt_once c key l) as [l' [o|e]]; cbn [fst snd] in *.
  - destruct H as [now H]. apply once_prompt in H as [H Hin]; [|done]. split; [|exact Hin].
    eapply (log_moves_trans 0 _); [by apply (quiet_run _ os) | exact H].
  - rewrite H. by apply quiet_run.
Qed.
End Laws.
Arguments LoopLaws L {Lp C}.

(** ** The invariant *)

Section Run.
Context {L W : Type} {Lp : LoopApi L} {Pe : Peers W} {C : SessionLog.Chrono} {La : LoopLaws L}.
Context (turn_error_text : Turn.TurnError -> string) (sha256_hex : string -> string) (root : string).
Abbreviation Actor := (@Actor L W).

Definition log_of (a : Actor) : SessionLog.Log := transcript (agent_loop a).
Definition ledger (a : Actor) : Background.BackgroundNotificationState := background (session a).
Definition prompt_key (hs : list string) : string := Background.background_prompt_source_event_id sha256_hex hs.
(** The result went into a batch whose prompt is in the transcript. *)
Definition prompted (l : SessionLog.Log) (h : string) : Prop := exists hs, h ∈ hs /\ prompt_key hs ∈ events l.
Definition is_ack (o : Output) : bool :=
  match o with OutNotice _ _ _ source => String.eqb source "background_completion" | _ => false end.
Definition acks (os : list Output) : Z := Z.of_nat (length (List.filter is_ack os)).

(** No result is owned twice; an open ledger has attempts left and its prompt
    is in the transcript. *)
Record sound (l : SessionLog.Log) (b : Background.BackgroundNotificationState) : Prop := mk_sound {
  owned_once : NoDup (Background.pipeline b);
  open_ledger : forall d, Background.active_delivery b = Some d ->
    (Background.failed_attempts d < MAX_DELIVERY_ATTEMPTS)%N /\ prompt_key (Background.handle_ids d) ∈ events l;
}.

(** The acknowledgements are counted exactly when no output is lost. *)
Context (X : Prop) (HX : X -> forall w, (output_taken w).2 = true).

(** The results of [H] are owned in the session or prompted. *)
Definition reached (b : Background.BackgroundNotificationState) (l : SessionLog.Log) (h : string) : Prop :=
  h ∈ Background.collected b \/ prompted l h.
(** [c]: acknowledgements ahead of prompts; [H]: results being followed, while
    the buffer has room; [D]: those of them a restart finds too. *)
Record inv (c : Z) (H D : list string) (a : Actor) : Prop := mk_inv {
  inv_log : SessionLog.log_wf (log_of a);
  inv_session : sound (log_of a) (ledger a);
  inv_saved : sound (log_of a) (background (saved a));
  inv_acks : (acks (outbox a) <= Z.of_nat (length (prompts (log_of a))) + c)%Z /\
    (X -> acks (outbox a) = Z.of_nat (length (prompts (log_of a))) + c)%Z;
  inv_delay : (Background.RETRY_INITIAL_BACKOFF <= retry_delay a <= Background.RETRY_MAX_BACKOFF)%N;
  inv_held : H <> [] -> Background.held (ledger a) <= Background.MAX_BUFFERED_RESULTS /\
    Forall (reached (ledger a) (log_of a)) H;
  inv_durable : D ⊆ H /\ Forall (reached (background (saved a)) (log_of a)) D;
}.

Lemma prompted_mono l l' h : events l ⊆ events l' -> prompted l h -> prompted l' h.
Proof. intros He (hs & Hh & Hk). exists hs. split; [done | by apply He]. Qed.
Lemma reached_mono b l l' hs : events l ⊆ events l' -> Forall (reached b l) hs -> Forall (reached b l') hs.
Proof.
  intros He Hf. eapply Forall_impl; [exact Hf|]. intros h [|Hp]; [by left | right; by eapply prompted_mono].
Qed.
Lemma sound_mono l l' b : events l ⊆ events l' -> sound l b -> sound l' b.
Proof. intros He [H1 H2]. split; [done|]. intros d Hd. destruct (H2 d Hd). split; [done | by apply He]. Qed.
Lemma sound_moves l b b' : Background.moves [] b b' -> sound l b -> sound l b'.
Proof.
  intros [Ha (dr & Hp & _)] [H1 H2]. split; [|by rewrite Ha]. unfold Background.pipeline, Background.active_handles in *.
  rewrite Ha. cbn [app] in Hp. rewrite Hp in H1. rewrite <- (assoc_L (++)) in H1. by apply NoDup_app in H1 as (_ & _ & H1).
Qed.
Lemma sound_close l b : sound l b -> sound l (Background.set_active None b).
Proof. intros [H1 _]. split; [|done]. apply NoDup_app in H1 as (H1 & _). unfold Background.pipeline. cbn. by rewrite app_nil_r. Qed.

(** *** Primitive moves *)

Lemma inv_loop c k H D l a : log_moves k (log_of a) (transcript l) -> inv c H D a -> inv (c - k) H D (set_loop l a).
Proof.
  intros [Wf He Hp] [I1 I2 I3 I4 I5 I6 I7]. split; unfold log_of, ledger in *; cbn [agent_loop session saved outbox retry_delay set_loop].
  - auto.
  - by eapply sound_mono.
  - by eapply sound_mono.
  - rewrite Hp. destruct I4 as [I4 I4']. split; [lia|]. intros x. rewrite (I4' x). lia.
  - done.
  - intros Hn. destruct (I6 Hn) as [? ?]. split; [done | by eapply reached_mono].
  - destruct I7. split; [done | by eapply reached_mono].
Qed.
Lemma inv_background c H D b a : sound (log_of a) b ->
  (H <> [] -> Background.held b <= Background.MAX_BUFFERED_RESULTS /\
     Forall (reached b (log_of a)) H) ->
  inv c H D a -> inv c H D (set_session (set_background b (session a)) a).
Proof. intros Hs Hh [I1 I2 I3 I4 I5 I6 I7]. by split. Qed.
Lemma inv_background_moves c H D b a : Background.moves [] (ledger a) b -> inv c H D a ->
  inv c H D (set_session (set_background b (session a)) a).
Proof.
  intros Hm I. apply inv_background; [eapply sound_moves; [exact Hm | apply I]| |done].
  intros Hn. destruct (inv_held _ _ _ _ I Hn) as [I7 I8]. destruct Hm as [_ (dr & Hp & Hd)].
  rewrite (Hd I7) in Hp. cbn in Hp. split.
  - unfold Background.held in *. by rewrite <- (Permutation_length Hp).
  - eapply Forall_impl; [exact I8|]. unfold reached. intros h. by rewrite Hp.
Qed.
Lemma inv_background_close c H D a : inv c H D a ->
  inv c H D (set_session (set_background (Background.set_active None (ledger a)) (session a)) a).
Proof. intros I. apply inv_background; [apply sound_close, I | apply I | done]. Qed.

Abbreviation kept c H D := (keeps (E := Scope.Error) (inv c H D)).
Section Kept.
Context (c : Z) (H D : list string).

Lemma kept_ask {A} (f : W -> W * A) : kept c H D (ask f).
Proof using. apply keeps_draw. intros a I. destruct (f (peers a)). by destruct I. Qed.
Lemma kept_calm {A} (f : L -> L * A) : calm (fun l => (f l).1) -> kept c H D (ask_loop f).
Proof using.
  intros Hf. apply keeps_draw. intros a I. pose proof (calm_moves _ (agent_loop a) Hf) as Hm. cbn in Hm.
  destruct (f (agent_loop a)) as [l x]. cbn [fst] in *. replace c with (c - 0)%Z by lia. by apply inv_loop.
Qed.
Lemma kept_try {A} (f : L -> L * result A Scope.Error) : calm (fun l => (f l).1) -> kept c H D (try_loop f).
Proof using. intros Hf. apply keeps_bind; [by apply kept_calm | intros r; apply keeps_of_result]. Qed.
Lemma kept_on_loop (f : L -> L) : calm f -> kept c H D (on_loop f).
Proof using.
  intros Hf. apply keeps_modify. intros a I. replace c with (c - 0)%Z by lia. apply inv_loop; [|done].
  by apply calm_moves.
Qed.
Lemma kept_on_session f : (forall s, background (f s) = background s) -> kept c H D (on_session f).
Proof using.
  intros Hf. apply keeps_modify. intros a [I1 I2 I3 I4 I5 I6 I7]. unfold ledger in *.
  by split; unfold ledger; cbn [session set_session]; rewrite ?Hf.
Qed.
Lemma kept_on_background f : (forall b, Background.moves [] b (f b)) -> kept c H D (on_background f).
Proof using. intros Hf. apply keeps_modify. intros a I. by apply inv_background_moves. Qed.
Lemma kept_close : kept c H D (on_background (Background.set_active None)).
Proof using. apply keeps_modify. intros a I. by apply inv_background_close. Qed.
Lemma kept_send o : is_ack o = false -> kept c H D (send_response o).
Proof using.
  intros Ho. apply keeps_bind; [apply kept_ask | intros taken]. apply keeps_when, keeps_modify.
  intros a [I1 I2 I3 I4 I5 I6 I7]. split; try done. cbn [outbox push_out].
  unfold acks in *. rewrite List.filter_app. cbn [List.filter]. by rewrite Ho, app_nil_r.
Qed.
Lemma kept_mailbox f : kept c H D (modify (fun a => set_mailbox (f a) a)).
Proof using. apply keeps_modify. intros a I. by destruct I. Qed.
Lemma kept_save : kept c H D save_session_row.
Proof using.
  apply keeps_bind; [apply kept_ask | intros taken]. apply keeps_bind; [|intros; apply keeps_ret].
  apply keeps_when, keeps_modify. intros a [I1 I2 I3 I4 I5 I6 [I7 I8]]. split; try done. split; [done|].
  destruct D as [|h D']; [constructor|]. destruct I6 as [_ I6]; [by intros ->; apply list_nil_subseteq in I7|].
  apply Forall_forall. intros x Hx. rewrite Forall_forall in I6. by apply I6, I7.
Qed.
(** A save that is taken. *)
Lemma save_durable a : (save_taken (peers a)).2 = true -> inv c H D a -> inv c H H (save_session_row a).1.
Proof using.
  intros Ht I. unfold save_session_row. rewrite run_ask. destruct (save_taken (peers a)) as [w taken]. cbn in Ht. subst taken. cbn.
  destruct I as [I1 I2 I3 I4 I5 I6 I7]. split; try done. split; [done|].
  destruct H as [|h H']; [constructor|]. by destruct I6 as [_ I6].
Qed.
Lemma kept_read {A} (f : SessionLog.Log -> A) : kept c H D (read_log f).
Proof using.
  apply keeps_bind; [apply kept_ask | intros [u|e]]; [|apply keeps_ret].
  apply keeps_bind; [apply keeps_gets | intros; apply keeps_ret].
Qed.
End Kept.
Hint Resolve kept_ask kept_save kept_read kept_close kept_mailbox : actor.
Hint Resolve calm_user calm_brief calm_fire calm_spawned calm_cron calm_cue calm_llm calm_restore calm_turn
  calm_compact calm_open calm_close : actor.
Hint Extern 1 (keeps _ (of_session _)) => apply keeps_gets : actor.
Hint Extern 1 (keeps _ (of_background _)) => apply keeps_gets : actor.
Hint Extern 1 (keeps _ (try_loop _)) => apply kept_try : actor.
Hint Extern 1 (keeps _ (ask_loop _)) => apply kept_calm : actor.
Hint Extern 1 (keeps _ (on_loop _)) => apply kept_on_loop : actor.
Hint Extern 1 (keeps _ (on_session _)) => apply kept_on_session; intros; reflexivity : actor.
Hint Extern 1 (keeps _ (send_response _)) => apply kept_send; reflexivity : actor.
Ltac kept_auto :=
  repeat first
    [ solve [eauto 3 with actor] | keeps_step
    | match goal with |- keeps _ (match ?x with _ => _ end) => destruct x end ].

(** *** The small programs *)

Section Small.
Context (c : Z) (H D : list string).

Lemma kept_persist_with : kept c H D persist_session_state_with_activity.
Proof using. unfold persist_session_state_with_activity. kept_auto. Qed.
Lemma kept_persist_preserving : kept c H D persist_session_state_preserving_activity.
Proof using. unfold persist_session_state_preserving_activity. kept_auto. Qed.
Lemma kept_control n k t z p : kept c H D (persist_control_event n k t z p).
Proof using. unfold persist_control_event. kept_auto. Qed.
Lemma kept_after : kept c H D current_after_ordinal.
Proof using. unfold current_after_ordinal. kept_auto. Qed.
End Small.
Hint Resolve kept_persist_with kept_persist_preserving kept_control kept_after : actor.

Lemma run_ledger {A B} (f : Background.BackgroundNotificationState -> A) (k : A -> AM B) (a : Actor) :
  bind (of_background f) k a = k (f (ledger a)) a.
Proof using. apply run_of_background. Qed.

(** *** The pipeline *)

Section Pipeline.
Context (c : Z) (H D : list string).

Lemma kept_run spec : kept c H D (run_agent_loop turn_error_text spec).
Proof using La.
  unfold run_agent_loop. apply keeps_bind; [apply keeps_gets | intros q].
  apply keeps_bind; [apply kept_calm, calm_turn | intros done].
  apply keeps_bind; [apply (kept_mailbox c H D (fun a => foldl _ (mailbox a) (end_traffic done))) | intros _].
  apply keeps_bind; [apply kept_on_background; intros b; apply Background.register_all_moves | intros _].
  kept_auto.
Qed.

Lemma kept_release : kept c H D release_ready_background_groups.
Proof using.
  unfold release_ready_background_groups. apply keeps_bind; [apply kept_ask | intros order].
  apply keeps_bind; [apply kept_ask | intros now]. apply keeps_bind; [apply keeps_gets | intros released].
  apply keeps_bind; [apply kept_on_background; intros b; apply Background.moves_ready | intros; apply keeps_ret].
Qed.
Lemma place_inv H' p a : Background.handle_id p ∉ Background.pipeline (ledger a) -> inv c H D a ->
  (forall h, h ∈ H' -> h = Background.handle_id p \/ h ∈ H) -> D ⊆ H' ->
  (H' <> [] -> Background.held (ledger a) < Background.MAX_BUFFERED_RESULTS) ->
  inv c H' D (set_session (set_background (Background.place_result p (ledger a)) (session a)) a).
Proof using.
  intros Hnew I HH HD Hroom. destruct (Background.moves_place p (ledger a)) as [Ha (dr & Hperm & Hdr)].
  destruct I as [I1 [O1 O2] I3 I4 I5 I6 [I7 I8]]. split; try done; cbn [session set_session set_background background];
    unfold log_of, ledger in *; cbn [agent_loop session set_session set_background background].
  - split; [|by rewrite Ha]. unfold Background.pipeline, Background.active_handles. rewrite Ha.
    assert (NoDup (dr ++ Background.collected (Background.place_result p (background (session a)))
                      ++ Background.active_handles (background (session a)))) as Hn.
    { rewrite (assoc_L (++)), <- Hperm. cbn. by constructor. }
    by apply NoDup_app in Hn as (_ & _ & Hn).
  - intros Hn. specialize (Hroom Hn). rewrite Hdr in Hperm by (unfold Background.held in *; cbn; lia).
    cbn in Hperm. split.
    + unfold Background.held in *. rewrite <- (Permutation_length Hperm). cbn. lia.
    + apply Forall_forall. intros h Hh. unfold reached. rewrite <- Hperm. destruct (HH h Hh) as [->|Hin]; [left; left|].
      destruct I6 as [_ I6]; [by intros ->; apply not_elem_of_nil in Hin|]. rewrite Forall_forall in I6.
      destruct (I6 h Hin); [left; by right | by right].
Qed.
Lemma known_inv H' p a : Background.handle_id p ∈ Background.pipeline (ledger a) -> inv c H D a ->
  (forall h, h ∈ H' -> h = Background.handle_id p \/ h ∈ H) -> D ⊆ H' ->
  (H' <> [] -> Background.held (ledger a) < Background.MAX_BUFFERED_RESULTS) -> inv c H' D a.
Proof using.
  intros E I HH HD Hroom. destruct I as [I1 [O1 O2] I3 I4 I5 I6 [I7 I8]]. split; try done.
  intros Hn. specialize (Hroom Hn). split; [lia|]. apply Forall_forall. intros h Hh.
  destruct (HH h Hh) as [->|Hin].
  - unfold Background.pipeline, Background.active_handles in E. apply elem_of_app in E as [E|E]; [by left|].
    destruct (Background.active_delivery (ledger a)) as [d|] eqn:Ed; [|by apply not_elem_of_nil in E].
    right. exists (Background.handle_ids d). split; [done | by apply O2].
  - destruct I6 as [_ I6]; [by intros ->; apply not_elem_of_nil in Hin|]. rewrite Forall_forall in I6. auto.
Qed.
End Pipeline.

Lemma finished_inv c H D H' p a : inv c H D a -> (forall h, h ∈ H' -> h = Background.handle_id p \/ h ∈ H) ->
  D ⊆ H' -> (H' <> [] -> Background.held (ledger a) < Background.MAX_BUFFERED_RESULTS) ->
  inv c H' D (handle_background_finished p a).1.
Proof using.
  intros I HH HD Hroom. unfold handle_background_finished. rewrite run_ledger, Background.knows_pipeline.
  destruct (bool_decide_reflect (Background.handle_id p ∈ Background.pipeline (ledger a))) as [Hk|Hk].
  - by apply (known_inv c H D H' p).
  - unfold bind at 1. cbn [on_background on_session modify].
    apply (keeps_bind (inv c H' D)); [apply kept_release | intros _ | by apply (place_inv c H D)].
    apply keeps_bind; [apply kept_persist_with | intros; apply keeps_ret].
Qed.

(** What the store answers when the accepted result is saved. *)
Definition save_answer (a : Actor) : bool := (save_taken (clock (clock (hash_order (peers a)).1).1).1).2.
Lemma finished_durable c H D H' p a : inv c H D a -> (forall h, h ∈ H' -> h = Background.handle_id p \/ h ∈ H) ->
  D ⊆ H' -> (H' <> [] -> Background.held (ledger a) < Background.MAX_BUFFERED_RESULTS) ->
  Background.handle_id p ∉ Background.pipeline (ledger a) -> save_answer a = true ->
  inv c H' H' (handle_background_finished p a).1.
Proof using.
  intros I HH HD Hroom Hk Hs. set (a1 := set_session (set_background (Background.place_result p (ledger a)) (session a)) a).
  assert (inv c H' D a1) as I1 by by apply (place_inv c H D).
  set (before := bind (release_ready_background_groups (L := L) (W := W)) (fun _ =>
                 bind (ask clock) (fun now => on_session (set_last_active now)))).
  assert (inv c H' D (before a1).1) as I2.
  { revert I1. apply (keeps_bind (inv c H' D)); [apply kept_release | intros _].
    apply keeps_bind; [apply kept_ask | intros now]. by apply kept_on_session. }
  assert ((handle_background_finished p a).1 = (save_session_row (before a1).1).1 /\
    peers (before a1).1 = (clock (clock (hash_order (peers a)).1).1).1) as [-> Ep].
  { unfold handle_background_finished. rewrite run_ledger, Background.knows_pipeline, bool_decide_eq_false_2 by done.
    unfold before, persist_session_state_with_activity, save_session_row, release_ready_background_groups, ask, on_background,
      on_session, of_background, of_session, bind, draw, gets, modify, ret. cbn [session set_session peers].
    change (peers a1) with (peers a). destruct (hash_order (peers a)) as [w1 order]. cbn [fst snd peers set_peers].
    destruct (clock w1) as [w2 now]. cbn [fst snd peers set_peers set_session]. destruct (clock w2) as [w3 later].
    cbn [fst snd peers set_peers set_session]. destruct (save_taken w3) as [w4 []]; by cbn. }
  apply (save_durable c H' D); [by rewrite Ep | done].
Qed.
Section Ledger.
Context (c : Z) (H D : list string).

Lemma kept_seal : kept c H D seal_background_notification_groups.
Proof using.
  unfold seal_background_notification_groups. apply keeps_bind; [apply kept_ask | intros now].
  apply keeps_bind; [apply keeps_gets | intros changed].
  apply keeps_bind; [apply kept_on_background, Background.seal_moves | intros _]. pose proof kept_release. kept_auto.
Qed.

(** The open ledger under another ordinal or count. *)
Lemma inv_relabel d d' a : Background.active_delivery (ledger a) = Some d ->
  Background.handle_ids d' = Background.handle_ids d -> (Background.failed_attempts d' < MAX_DELIVERY_ATTEMPTS)%N ->
  inv c H D a -> inv c H D (set_session (set_background (Background.set_active (Some d') (ledger a)) (session a)) a).
Proof using.
  intros Ed Eh Hd I. apply inv_background; [|apply I | done]. destruct (inv_session _ _ _ _ I) as [O1 O2]. split.
  - unfold Background.pipeline, Background.active_handles in *. cbn [Background.set_active Background.active_delivery].
    rewrite Eh. by rewrite Ed in O1.
  - cbn. intros ? [= <-]. split; [done|]. rewrite Eh. by apply (O2 d).
Qed.
Lemma kept_failure : kept c H D record_background_notification_failure.
Proof using.
  intros a I. unfold record_background_notification_failure. rewrite run_ledger.
  destruct (Background.active_delivery (ledger a)) as [d|] eqn:Ed; [|exact I].
  unfold bind at 1. cbn [on_background on_session modify].
  apply (keeps_bind (inv c H D)); [apply kept_persist_with | intros; apply keeps_ret|].
  destruct (N.leb_spec MAX_DELIVERY_ATTEMPTS (Background.failed_attempts (bump d))) as [Hle|Hlt].
  - by apply inv_background_close.
  - by apply (inv_relabel d).
Qed.
Lemma kept_drive content : kept c H D (drive_background_notification_turn turn_error_text content).
Proof using La.
  unfold drive_background_notification_turn. apply keeps_bind; [apply kept_on_loop, calm_cue | intros _].
  apply keeps_bind; [apply kept_run | intros ended]. apply keeps_bind; [apply kept_on_loop, calm_cue | intros _].
  pose proof kept_failure. kept_auto.
Qed.
Lemma kept_reanchored o : kept c H D (on_background (fun b => Background.set_active
  ((fun d => Background.mk_delivery (Background.handle_ids d) (Background.result_labels d) (Background.content d)
     (SessionLog.outcome_ordinal o) (Background.failed_attempts d)) <$> Background.active_delivery b) b)).
Proof using.
  apply keeps_modify. intros a I. change (background (session a)) with (ledger a).
  destruct (Background.active_delivery (ledger a)) as [d|] eqn:Ed; cbn [fmap option_fmap option_map].
  - apply (inv_relabel d); [done | done | | done]. cbn. by destruct (open_ledger _ _ (inv_session _ _ _ _ I) d Ed).
  - by apply inv_background_close.
Qed.
Lemma kept_retry : kept c H D (retry_background_notification_delivery turn_error_text sha256_hex).
Proof using La.
  unfold retry_background_notification_delivery. pose proof kept_failure. pose proof kept_drive.
  apply keeps_bind; [apply kept_persist_with | intros saved]. destruct (negb saved); [apply keeps_ret|].
  apply keeps_bind; [apply keeps_gets | intros [d|]]; [|apply keeps_ret].
  apply keeps_bind; [apply kept_read | intros [[i|]|e]]; [auto | | auto].
  apply keeps_bind; [apply kept_calm | intros [o|e]]; [|apply keeps_bind; [apply kept_reanchored | intros _]|auto].
  - apply calm_once, Background.reanchor_key_is_not.
  - apply keeps_bind; [apply kept_persist_with | auto].
Qed.
End Ledger.
Hint Resolve kept_release kept_run kept_seal kept_failure kept_drive kept_retry : actor.

(** *** Opening a ledger *)

(** The acknowledgement goes out when the channel takes it. *)
Lemma announce_spec pending n (a : Actor) : exists w o taken, is_ack o = true /\ (X -> taken = true) /\
  announce_background_completion pending n a = ((if taken : bool then push_out o else id) (set_peers w a), Ok tt).
Proof using HX.
  unfold announce_background_completion, persist_control_event. rewrite run_ask.
  unfold bind at 1. rewrite run_ask. cbn [ret]. unfold send_response. rewrite run_ask.
  match goal with |- context [output_taken ?w] => exists (output_taken w).1; pose proof (fun x => HX x w) as Ht; destruct (output_taken w) as [w' taken] end.
  match goal with |- context [modify (push_out ?o)] => exists o, taken end.
  split; [done|]. split; [exact Ht | by destruct taken].
Qed.
Lemma place_spec content hs (a : Actor) : exists l w k, (place_prompt sha256_hex content hs a).1 = set_loop l (set_peers w a) /\
  log_moves k (log_of a) (transcript l) /\
  match (place_prompt sha256_hex content hs a).2 with
  | Ok (inserted, _) => k = (if inserted then 1%Z else 0%Z) /\ prompt_key hs ∈ events (transcript l)
  | Err _ => k = 0%Z
  end.
Proof using La.
  pose proof (once_prompt_moves content (prompt_key hs) (agent_loop a) (Background.prompt_key_is _ _)) as H1.
  unfold place_prompt. rewrite run_try. fold (prompt_key hs). set (f1 := append_prompt_once _ (prompt_key hs) _) in *.
  destruct f1 as [l1 [o|e]]; cbn [fst snd] in *; [|exists l1, (peers a), 0%Z; split_and!; [by destruct a | done..]].
  destruct H1 as [H1 Hin]. revert H1. destruct (SessionLog.was_inserted o); intros H1; [exists l1, (peers a), 1%Z; by destruct a|].
  rewrite run_read. cbn [peers set_loop]. destruct (read_taken (peers a)) as [w [u|e]]; cbn [fst snd];
    [|exists l1, w, 0%Z; by split_and!].
  destruct (SessionLog.active_index_of_ordinal _ _) as [i|]; [exists l1, w, 0%Z; by split_and!|].
  rewrite run_try. cbn [agent_loop set_loop set_peers].
  pose proof (calm_moves _ l1 (calm_once content _ (Background.reanchor_key_is_not sha256_hex hs (SessionLog.outcome_ordinal o)))) as H2.
  cbn beta in H2. destruct (append_prompt_once content _ l1) as [l2 [o2|e2]]; cbn [fst snd ret] in *; exists l2, w, 0%Z;
    (split; [done|]); (split; [apply (log_moves_trans 0 0 _ (transcript l1)); [exact H1|exact H2]|]); [|done].
  split; [done|]. by apply (moves_events _ _ _ H2).
Qed.

(** The batch put back. *)
Definition refill (pending : list Background.PendingBackgroundResult) (a : Actor) : Actor :=
  set_session (set_background (Background.set_buffer pending (ledger a)) (session a)) a.
Lemma inv_opened c H D pending d a : Background.buffered_results (ledger a) = [] -> Background.active_delivery (ledger a) = None ->
  Background.handle_ids d = Background.handles pending -> Background.failed_attempts d = 0%N ->
  prompt_key (Background.handle_ids d) ∈ events (log_of a) -> inv c H D (refill pending a) ->
  inv c H D (set_session (set_background (Background.set_active (Some d) (ledger a)) (session a)) a).
Proof using.
  intros Hb Ha Ed Hf Hk [I1 [O1 O2] I3 I4 I5 I6 I7].
  assert (Background.collected (ledger (refill pending a)) = Background.handle_ids d ++ Background.collected (ledger a)) as Ec.
  { unfold Background.collected, refill. cbn. by rewrite Hb, Ed. }
  split; try done; cbn [session set_session set_background background]; unfold ledger at 1; cbn [session set_session].
  - split; [|intros ? [= <-]; by rewrite Hf]. unfold Background.pipeline in *. rewrite Ec in O1.
    unfold Background.active_handles in *. cbn in *. rewrite Ha, app_nil_r in O1. by rewrite (comm (++)) in O1.
  - intros Hn. destruct (I6 Hn) as [J7 J8]. unfold Background.held in *. rewrite Ec, length_app in J7.
    enough (length (Background.collected (ledger a)) <= Background.MAX_BUFFERED_RESULTS /\
      Forall (reached (ledger a) (log_of a)) H) as G by exact G. split; [lia|].
    eapply Forall_impl; [exact J8|]. unfold reached. intros h. rewrite Ec, elem_of_app. intros [[Hh|Hh]|Hh].
    + right. exists (Background.handle_ids d). by split.
    + by left.
    + by right.
Qed.
Lemma acked_inv c H D pending w o (taken : bool) a : is_ack o = true -> (X -> taken = true) ->
  inv (c - 1) H D (refill pending a) ->
  inv c H D (refill pending ((if taken then push_out o else id) (set_peers w a))).
Proof using.
  intros Ho Ht [J1 J2 J3 [J4 J4'] J5 J6 J7]. destruct taken.
  - split; try done. cbn [outbox push_out refill set_session set_peers]. unfold acks in *.
    rewrite List.filter_app. cbn [List.filter]. rewrite Ho, length_app. cbn [length].
    change (outbox (refill pending a)) with (outbox a) in *. change (log_of (refill pending _)) with (log_of a) in *.
    split; [lia|]. intros x. specialize (J4' x). lia.
  - split; try done. cbn [id]. split; [|by intros x; specialize (Ht x)].
    change (acks (outbox (refill pending a)) <= Z.of_nat (length (prompts (log_of (refill pending a)))) + c)%Z. lia.
Qed.
Lemma start_inv c H D pending a : Background.buffered_results (ledger a) = [] -> Background.active_delivery (ledger a) = None ->
  inv c H D (refill pending a) -> inv c H D (start_background_notification turn_error_text sha256_hex root pending a).1.
Proof using HX La.
  intros Hb Ha I. unfold start_background_notification. unfold bind at 1. unfold attempt.
  destruct (place_spec (Background.build_notification_content root pending) (map Background.handle_id pending) a)
    as (l & w & k & E1 & Hm & E2).
  destruct (place_prompt _ _ _ a) as [a' r]. cbn [fst snd] in *. subst a'.
  assert (inv (c - k) H D (refill pending (set_loop l (set_peers w a)))) as I1.
  { apply (inv_loop c k H D l (refill pending (set_peers w a))); [done | by destruct I]. }
  destruct r as [[inserted n]|e]; [|subst k; rewrite Z.sub_0_r in I1; exact I1]. destruct E2 as [-> Hin].
  set (a1 := set_loop l (set_peers w a)) in *.
  assert (exists a2, when inserted (announce_background_completion pending n) a1 = (a2, Ok tt) /\ inv c H D (refill pending a2) /\
    ledger a2 = ledger a /\ log_of a2 = transcript l) as (a2 & E & I2 & El & Eg).
  { destruct inserted; cbn [when].
    - destruct (announce_spec pending n a1) as (w' & o & taken & Ho & Ht & ->). eexists. split; [reflexivity|].
      split_and!; [|by destruct taken..]. by apply acked_inv.
    - exists a1. rewrite Z.sub_0_r in I1. by split_and!. }
  unfold bind at 1. rewrite E. unfold bind at 1. cbn [on_background on_session modify].
  apply (keeps_bind (inv c H D)); [apply kept_persist_with | intros []; [apply kept_drive | apply keeps_ret]|].
  apply (inv_opened c H D pending); rewrite ?El, ?Eg; done.
Qed.

Lemma kept_deliver c H D : kept c H D (run_background_notification_delivery turn_error_text sha256_hex root).
Proof using HX La.
  intros a I. unfold run_background_notification_delivery. rewrite run_ledger.
  destruct (Background.active_delivery (ledger a)) as [d|] eqn:Ed; [by apply kept_retry|].
  rewrite run_ledger. unfold bind at 1. cbn [on_background on_session modify].
  assert (inv c H D (refill (Background.buffered_results (ledger a)) a)) as I1.
  { unfold refill. apply inv_background_moves; [|done]. by apply Background.moves_same. }
  destruct (Background.buffered_results (ledger a)) as [|p ps] eqn:Eb; [exact I1|]. apply start_inv; done.
Qed.
Hint Resolve kept_deliver : actor.

(** *** The handlers *)

Section Handlers.
Context (c : Z) (H D : list string).

Lemma kept_timer : kept c H D (handle_background_notification_timer turn_error_text sha256_hex root).
Proof using HX La. unfold handle_background_notification_timer. kept_auto. Qed.
Lemma kept_maybe_start : kept c H D (maybe_start_background_notification turn_error_text sha256_hex root).
Proof using HX La. unfold maybe_start_background_notification. kept_auto. Qed.
Lemma kept_settle stopped content : kept c H D (settle_background_notification_after_user_turn stopped content).
Proof using. unfold settle_background_notification_after_user_turn. kept_auto. Qed.
Lemma kept_reply r : kept c H D (send_user_reply r).
Proof using. unfold send_user_reply. kept_auto. Qed.
Hint Resolve kept_settle kept_reply : actor.
Lemma kept_compact t n p : kept c H D (handle_compact t n p).
Proof using HX La. unfold handle_compact. kept_auto. Qed.
Hint Resolve kept_compact : actor.
Lemma kept_user_input inc : kept c H D (handle_user_input turn_error_text inc).
Proof using HX La. unfold handle_user_input. kept_auto. Qed.
Lemma kept_merged batch : kept c H D (handle_merged_user_turn turn_error_text batch).
Proof using HX La. unfold handle_merged_user_turn. kept_auto. Qed.
Lemma kept_spawned inc p i : kept c H D (handle_subagent_spawned turn_error_text inc p i).
Proof using HX La. unfold handle_subagent_spawned. kept_auto. Qed.
Lemma kept_issue r n b f k : kept c H D (dispatch_issue_run turn_error_text r n b f k).
Proof using HX La. unfold dispatch_issue_run. kept_auto. Qed.
Lemma kept_set_model x y z : kept c H D (handle_set_model x y z).
Proof using HX La. unfold handle_set_model. kept_auto. Qed.
Lemma kept_hide : kept c H D hide_silenced_cron_fire.
Proof using. unfold hide_silenced_cron_fire. kept_auto. Qed.
Lemma kept_unhide : kept c H D unhide_for_cron_notification.
Proof using. unfold unhide_for_cron_notification. kept_auto. Qed.
Lemma kept_resolve e : kept c H D (resolve_cron_delivery e).
Proof using. unfold resolve_cron_delivery. kept_auto. Qed.
Lemma kept_publish content key : from_option Background.is_prompt_key false key = false ->
  kept c H D (publish_cron_notification content key).
Proof using HX La.
  intros Hk. unfold publish_cron_notification, notification_turn, notification_body. kept_auto.
Qed.
Lemma kept_report t f d : kept c H D (report_cron_outcome t f d).
Proof using HX La. unfold report_cron_outcome. pose proof kept_publish. kept_auto. Qed.
Hint Resolve kept_hide kept_unhide kept_resolve kept_report : actor.
Lemma kept_cron_prompt p j t d b : kept c H D (dispatch_cron_prompt turn_error_text p j t d b).
Proof using HX La. unfold dispatch_cron_prompt. kept_auto. Qed.
Lemma kept_fire_reply p : kept c H D (read_fire_reply p).
Proof using. unfold read_fire_reply. kept_auto. Qed.
Hint Resolve kept_fire_reply : actor.
Lemma kept_build_cron p : kept c H D (build_cron_notification p).
Proof using. unfold build_cron_notification. kept_auto. Qed.
Hint Resolve kept_build_cron : actor.
Lemma kept_cron_ready p : kept c H D (handle_cron_result_ready p).
Proof using HX La. unfold handle_cron_result_ready. pose proof kept_publish. kept_auto. Qed.
Hint Resolve kept_user_input kept_merged kept_spawned kept_issue kept_set_model kept_cron_prompt kept_cron_ready : actor.
Lemma kept_dispatch m : (forall p, m <> BackgroundJobFinished p) -> kept c H D (dispatch_one turn_error_text m).
Proof using HX La. intros Hm. destruct m; cbn [dispatch_one]; kept_auto. by edestruct Hm. Qed.

Definition arrived (ms : list AgentMessage) : list string :=
  match ms with BackgroundJobFinished p :: _ => [Background.handle_id p] | _ => [] end.
(** The result the next iteration takes from the mailbox, if that is what it
    takes. *)
Definition arriving (a : Actor) : list string :=
  match take_burst (mailbox a) with Some (ms, _) => arrived ms | None => [] end.

Lemma inv_weaken H' a : H' ⊆ H -> D ⊆ H' -> inv c H D a -> inv c H' D a.
Proof using.
  intros Hs HD [I1 I2 I3 I4 I5 I6 [I7 I8]]. split; try done. intros Hn. destruct I6 as [I6 I9].
  { intros E. rewrite E in Hs. destruct H' as [|h H']; [done|]. specialize (Hs h ltac:(left)). by apply not_elem_of_nil in Hs. }
  split; [done|]. rewrite Forall_forall in *. auto.
Qed.
Lemma kept_after_burst : kept c H D
  (let* _ := seal_background_notification_groups in
   let* _ := maybe_start_background_notification turn_error_text sha256_hex root in ret true).
Proof using HX La. pose proof kept_maybe_start. kept_auto. Qed.
End Handlers.
Hint Resolve kept_merged kept_dispatch kept_after_burst kept_timer : actor.

Lemma kept_burst c H D ms : arrived ms = [] -> kept c H D (handle_burst turn_error_text sha256_hex root ms).
Proof using HX La.
  intros Hn. destruct ms as [|m ms]; [apply keeps_ret|].
  assert (forall m, (forall p, m <> BackgroundJobFinished p) -> kept c H D
    (if is_coalescable_user_input m || is_batch m
     then let* _ := attempt (handle_merged_user_turn turn_error_text (concat (map incoming_of (m :: ms)))) in ret tt
     else dispatch_one turn_error_text m)) as Hm.
  { intros x Hx. destruct (_ || _); [|by apply kept_dispatch].
    apply keeps_bind; [apply keeps_attempt, kept_merged | intros; apply keeps_ret]. }
  destruct m; try discriminate Hn; try (apply keeps_bind; [by apply Hm | intros _; apply kept_after_burst]).
  apply keeps_bind; [apply kept_persist_preserving | intros _; apply keeps_ret].
Qed.
Lemma burst_inv c H D H' ms a : inv c H D a -> H' ⊆ arrived ms ++ H -> D ⊆ H' ->
  (H' <> [] -> Background.held (ledger a) < Background.MAX_BUFFERED_RESULTS) ->
  inv c H' D (handle_burst turn_error_text sha256_hex root ms a).1.
Proof using HX La.
  intros I Hs HD Hroom. destruct (arrived ms) as [|h hs] eqn:E.
  { apply kept_burst; [done|]. by apply (inv_weaken c H D H'). }
  destruct ms as [|m ms]; [done|]. destruct m as [| | | | | |p| |]; try discriminate E. injection E as <- <-.
  assert (inv c H' D (handle_background_finished p a).1) as I1.
  { apply (finished_inv c H D H'); [done | | done..]. intros h Hh. apply Hs in Hh. cbn in Hh. set_solver. }
  unfold handle_burst. cbn [is_coalescable_user_input is_batch orb dispatch_one]. unfold bind at 1.
  destruct (handle_background_finished p a) as [a1 [u|e]]; [|exact I1]. by apply kept_after_burst.
Qed.

(** ** An iteration, a restart *)

Abbreviation step := (actor_step turn_error_text sha256_hex root).

Lemma kept_timer_fires c H D : kept c H D (timer_fires turn_error_text sha256_hex root).
Proof using HX La.
  apply keeps_bind; [apply kept_timer | intros _]. apply keeps_bind; [apply keeps_gets | intros more].
  apply keeps_bind; [|intros _; apply keeps_ret]. apply keeps_modify. intros s [I1 I2 I3 I4 I5 I6 I7]. split; try done. cbn [retry_delay set_retry].
  unfold Background.after_timer_attempt. destruct more; [|done]. revert I5.
  unfold Background.RETRY_INITIAL_BACKOFF, Background.RETRY_MAX_BACKOFF. lia.
Qed.
Lemma step_inv c H D H' a : inv c H D a -> H' ⊆ arriving a ++ H -> D ⊆ H' ->
  (H' <> [] -> Background.held (ledger a) < Background.MAX_BUFFERED_RESULTS) -> inv c H' D (step a).1.
Proof using HX La.
  intros I Hs HD Hroom. unfold actor_step. unfold bind at 1. cbn [gets]. unfold arriving in Hs.
  destruct (take_burst (mailbox a)) as [[ms rest]|].
  - unfold bind at 1. cbn [modify]. apply (burst_inv c H D); [|done..]. by destruct I.
  - rewrite run_ledger. unfold bind at 1. cbn [gets]. rewrite run_ask. apply (inv_weaken c H D H') in I; [|done..].
    match goal with |- inv _ _ _ (_ ?x).1 => set (a1 := x) end. assert (inv c H' D a1) as I1 by (by destruct I).
    destruct (wait _ _) as [w [ms| |]]; cbn [snd]; [by destruct I1 | | exact I1].
    destruct (Background.has_work (ledger a)); [by apply kept_timer_fires | exact I1].
Qed.
Lemma rehydrate_inv c H D a : inv c H D a ->
  inv c [] [] (rehydrate a) /\ Forall (reached (background (saved a)) (log_of (rehydrate a))) D.
Proof using La.
  intros I. assert (inv c H D (set_loop (restore_transcript (agent_loop a)) a)) as [I1 I2 I3 I4 I5 I6 [I7 I8]].
  { replace c with (c - 0)%Z by lia. apply inv_loop; [apply calm_moves, calm_restore | done]. }
  by split; [split|].
Qed.
Lemma step_durable c p rest a : inv c [] [] a -> take_burst (mailbox a) = Some ([BackgroundJobFinished p], rest) ->
  Background.held (ledger a) < Background.MAX_BUFFERED_RESULTS ->
  Background.handle_id p ∉ Background.pipeline (ledger a) -> save_answer a = true ->
  inv c [Background.handle_id p] [Background.handle_id p] (step a).1.
Proof using HX La.
  intros I Ht Hroom Hk Hs. unfold actor_step. unfold bind at 1. cbn [gets]. rewrite Ht. unfold bind at 1. cbn [modify].
  set (a1 := set_retry _ _). assert (inv c [] [] a1) as I1 by by destruct I.
  assert (inv c [Background.handle_id p] [Background.handle_id p] (handle_background_finished p a1).1) as I2.
  { apply (finished_durable c [] []); try done; [set_solver | apply list_subseteq_nil]. }
  unfold handle_burst. cbn [is_coalescable_user_input is_batch orb dispatch_one]. unfold bind at 1.
  destruct (handle_background_finished p a1) as [a2 [u|e]]; [by apply kept_after_burst | exact I2].
Qed.
(** A result that is owned, and owned in the row, is followed. *)
Lemma inv_follow c h a : inv c [] [] a -> Background.held (ledger a) < Background.MAX_BUFFERED_RESULTS ->
  reached (ledger a) (log_of a) h -> reached (background (saved a)) (log_of a) h -> inv c [h] [h] a.
Proof using.
  intros [I1 I2 I3 I4 I5 _ _] Hroom Ho Hs. split; try done.
  - intros _. split; [lia | by apply Forall_singleton].
  - split; [done | by apply Forall_singleton].
Qed.
Lemma inv_here c h a : inv c [] [] a -> Background.held (ledger a) < Background.MAX_BUFFERED_RESULTS ->
  reached (ledger a) (log_of a) h -> inv c [h] [] a.
Proof using.
  intros [I1 I2 I3 I4 I5 _ _] Hroom Ho. split; try done.
  - intros _. split; [lia | by apply Forall_singleton].
  - split; [apply list_subseteq_nil | done].
Qed.
Lemma inv_reached c h H D a : h ∈ H -> inv c H D a -> reached (ledger a) (log_of a) h.
Proof using. intros Hh I. destruct (inv_held _ _ _ _ I) as [_ Hf]; [by intros ->; apply not_elem_of_nil in Hh|].
  rewrite Forall_forall in Hf. auto. Qed.
Lemma inv_stored c h H D a : h ∈ D -> inv c H D a -> reached (background (saved a)) (log_of a) h.
Proof using. intros Hh I. destruct (inv_durable _ _ _ _ I) as [_ Hf]. rewrite Forall_forall in Hf. auto. Qed.
Lemma inv_none c H D a : inv c H D a -> inv c [] [] a.
Proof using. by intros [I1 I2 I3 I4 I5 I6 I7]. Qed.
End Run.

(** ** A process that dies

    A crash comes at some call of the agent loop or of the stores: what was done
    before it is done, a call under way leaves the transcript with some of its
    own operations ([torn]), and after it nothing is done any more.  The loop
    and the stores are given their last call separately, which allows more than
    one crash can do. *)

Definition dying {S A} (torn : S -> S) (f : S -> S * A) (dead : A) (s : S * option nat) : (S * option nat) * A :=
  match s.2 with
  | Some (Datatypes.S n) => let (s', x) := f s.1 in ((s', Some n), x)
  | Some 0 => ((torn s.1, None), dead)
  | None => (s, dead)
  end.
Definition gone : Scope.Error := Scope.Anyhow "the process is gone".

Definition dying_loop {L} {Lp : LoopApi L} (torn : L -> L) : LoopApi (L * option nat) := {|
  transcript s := transcript s.1;
  append_user_message c p := dying torn (append_user_message c p) (Err gone);
  append_issue_brief n k b f := dying torn (append_issue_brief n k b f) (Err gone);
  append_cron_fire j p b := dying torn (append_cron_fire j p b) (Err gone);
  append_spawned_prompt c := dying torn (append_spawned_prompt c) (Err gone);
  append_cron_notification c key := dying torn (append_cron_notification c key) (Err gone);
  append_prompt_once c key := dying torn (append_prompt_once c key) (Err gone);
  set_notification_cue b s := (dying torn (fun l => (set_notification_cue b l, tt)) tt s).1;
  set_initial_llm a b c s := (dying torn (fun l => (set_initial_llm a b c l, tt)) tt s).1;
  restore_transcript s := (dying torn (fun l => (restore_transcript l, tt)) tt s).1;
  run_turn spec q := dying torn (run_turn spec q) (mk_end [] [] false false (Err gone));
  compact_now := dying torn compact_now (Err gone);
  open_turn i := dying torn (open_turn i) (Err gone);
  close_turn i r := dying torn (close_turn i r) (Err gone);
|}.
Definition dying_peers {W} {Pe : Peers W} : Peers (W * option nat) := {|
  save_taken := dying id save_taken false;
  stored_last_active := dying id stored_last_active (Err EmptyString);
  read_taken := dying id read_taken (Err EmptyString);
  write_hidden b := dying id (write_hidden b) (Err EmptyString);
  append_control_event n k t z p := dying id (append_control_event n k t z p) (Err EmptyString);
  fire_history s n k := dying id (fire_history s n k) (Err EmptyString);
  mark_execution_notified e t := dying id (mark_execution_notified e t) (Err EmptyString);
  clock := dying id clock 0%Z;
  hash_order := dying id hash_order [];
  output_taken := dying id output_taken false;
  wait d := dying id (wait d) Hung;
|}.
(** The actor with [n] calls of the loop and [m] of the stores left. *)
Definition doom {L W} (n m : nat) (a : @Actor L W) : @Actor (L * option nat) (W * option nat) :=
  mk_actor (agent_loop a, Some n) (peers a, Some m) (session a) (mailbox a) (saved a) (outbox a) (retry_delay a).
(** What it leaves behind. *)
Definition remains {L W} (a : @Actor (L * option nat) (W * option nat)) : @Actor L W :=
  mk_actor (agent_loop a).1 (peers a).1 (session a) (mailbox a) (saved a) (outbox a) (retry_delay a).

Lemma calm_dying {L A} {Lp : LoopApi L} {C : SessionLog.Chrono} (torn : L -> L) (f : L -> L * A) (dead : A) :
  calm torn -> calm (fun l => (f l).1) -> calm (Lp := dying_loop torn) (fun s => (dying torn f dead s).1).
Proof.
  intros Ht Hf [l [[|n]|]]; unfold dying; cbn.
  - apply Ht.
  - specialize (Hf l). cbn beta in Hf. destruct (f l). exact Hf.
  - by exists [].
Qed.
Lemma dying_laws {L} {Lp : LoopApi L} {C : SessionLog.Chrono} {La : LoopLaws L} (torn : L -> L) :
  calm torn -> LoopLaws (Lp := dying_loop torn) (L * option nat).
Proof.
  intros Ht. split; intros; try (apply calm_dying; [exact Ht|]).
  - apply calm_user.
  - apply calm_brief.
  - apply calm_fire.
  - apply calm_spawned.
  - by apply calm_cron.
  - apply (calm_cue b).
  - apply (calm_llm a b c).
  - apply calm_restore.
  - apply calm_turn.
  - apply calm_compact.
  - apply calm_open.
  - apply calm_close.
  - destruct l as [l [[|n]|]]; cbn; unfold dying; cbn.
    + apply Ht.
    + destruct (once_spec c key l) as (os & Hq & H). exists os. split; [done|].
      destruct (append_prompt_once c key l) as [l' [o|e]]; cbn in *; exact H.
    + by exists [].
Qed.

(** ** Histories *)

Section Histories.
Context {L W : Type} {Lp : LoopApi L} {Pe : Peers W} {C : SessionLog.Chrono} {La : LoopLaws L}.
Context (turn_error_text : Turn.TurnError -> string) (sha256_hex : string -> string) (root : string).
Abbreviation Actor := (@Actor L W).
Abbreviation step := (actor_step turn_error_text sha256_hex root).
Abbreviation prompted := (prompted sha256_hex).

(** An iteration, a restart from what was saved, a crash somewhere in an
    iteration and the restart after it. *)
Definition crash (torn : L -> L) (n m : nat) (a : Actor) : Actor :=
  remains (actor_step (Lp := dying_loop torn) (Pe := dying_peers) turn_error_text sha256_hex root (doom n m a)).1.
Inductive next (a : Actor) : Actor -> Prop :=
| iterates : next a (step a).1
| restarts : next a (rehydrate a)
| crashes torn n m (Htorn : calm torn) : next a (rehydrate (crash torn n m a)).
(** Without a crash inside an iteration. *)
Definition smooth (a a' : Actor) : Prop := a' = (step a).1 \/ a' = rehydrate a.
Definition fresh (a : Actor) : Prop :=
  SessionLog.log_wf (log_of a) /\ ledger a = Background.no_work /\ background (saved a) = Background.no_work /\
  retry_delay a = Background.RETRY_INITIAL_BACKOFF.
(** With room in the buffers. *)
Definition room (a : Actor) : Prop := Background.held (ledger a) < Background.MAX_BUFFERED_RESULTS.
Definition roomy (a a' : Actor) : Prop := room a /\ a' = (step a).1.
Definition roomy_next (a a' : Actor) : Prop := room a /\ next a a'.

(** A result is owned in the session, or in the row a restart reads, or its
    prompt is in the transcript. *)
Definition owned (h : string) (a : Actor) : Prop := reached sha256_hex (ledger a) (log_of a) h.
Definition stored (h : string) (a : Actor) : Prop := reached sha256_hex (background (saved a)) (log_of a) h.

Section Preserved.
Context (X : Prop) (HX : X -> forall w : W, (output_taken w).2 = true).
Abbreviation inv := (inv sha256_hex X).

Lemma sound_no_work l : sound sha256_hex l Background.no_work.
Proof using. split; [constructor | done]. Qed.
Lemma fresh_inv a : fresh a -> inv (acks (outbox a) - Z.of_nat (length (prompts (log_of a)))) [] [] a.
Proof using.
  intros (Hw & Hl & Hs & Hr). split; [done | rewrite Hl; apply sound_no_work | rewrite Hs; apply sound_no_work | lia | | done | done].
  rewrite Hr. done.
Qed.
Lemma smooth_inv c a a' : rtc smooth a a' -> inv c [] [] a -> inv c [] [] a'.
Proof using HX La.
  induction 1 as [|a b a' Hn _ IH]; intros I; [done|]. apply IH. destruct Hn as [-> | ->].
  - by apply (step_inv _ _ _ X HX c [] []); [.. | apply list_subseteq_nil | apply list_subseteq_nil |].
  - by apply (rehydrate_inv sha256_hex X c [] []).
Qed.
End Preserved.

(** *** Crashes: an acknowledgement may be missing, nothing else *)

Abbreviation inv := (inv sha256_hex False).
Lemma never : False -> forall w : W, (output_taken w).2 = true.
Proof using. done. Qed.

Lemma crash_inv c H D H' torn n m a : calm torn -> inv c H D a -> H' ⊆ arriving a ++ H -> D ⊆ H' ->
  (H' <> [] -> room a) -> inv c H' D (crash torn n m a).
Proof using La.
  intros Ht I Hs HD Hroom. unfold crash.
  assert (Delivery.inv (Lp := dying_loop torn) sha256_hex False c H D (doom n m a)) as J.
  { destruct I as [I1 I2 I3 I4 I5 I6 I7]. by split. }
  apply (step_inv (Lp := dying_loop torn) (Pe := dying_peers) (La := dying_laws torn Ht)
    turn_error_text sha256_hex root False (False_ind _) c H D H') in J; [|done..].
  destruct J as [I1 I2 I3 I4 I5 I6 I7]. by split.
Qed.
Lemma next_inv c a a' : next a a' -> inv c [] [] a -> inv c [] [] a'.
Proof using La.
  intros Hn I. destruct Hn as [| |torn n m Ht].
  - by apply (step_inv _ _ _ False never c [] []); [.. | apply list_subseteq_nil | apply list_subseteq_nil |].
  - by apply (rehydrate_inv sha256_hex False c [] []).
  - apply (rehydrate_inv sha256_hex False c [] []), (crash_inv c [] []); try done; apply list_subseteq_nil.
Qed.
Lemma life_inv c a a' : rtc next a a' -> inv c [] [] a -> inv c [] [] a'.
Proof using La. induction 1; eauto using next_inv. Qed.
Lemma roomy_owned c h a a' : rtc roomy a a' -> inv c [] [] a -> owned h a -> inv c [] [] a' /\ owned h a'.
Proof using La.
  induction 1 as [|a b a' [Hr ->] _ IH]; intros I Ho; [done|].
  assert (inv c [h] [] (step a).1) as I1.
  { apply (step_inv _ _ _ False never c [h] []); [by apply inv_here | by apply list_subseteq_app_r | apply list_subseteq_nil | done]. }
  apply IH; [by eapply inv_none|]. eapply inv_reached; [|exact I1]. by left.
Qed.
Lemma next_stored c h a a' : roomy_next a a' -> inv c [] [] a -> owned h a -> stored h a ->
  owned h a' /\ stored h a'.
Proof using La.
  intros [Hr Hn] I Ho Hs. assert (inv c [h] [h] a) as I1 by by apply inv_follow.
  assert (forall b : Actor, inv c [h] [h] b -> owned h b /\ stored h b) as Hboth.
  { intros b Ib. split; [eapply inv_reached | eapply inv_stored]; try exact Ib; by left. }
  assert (forall b : Actor, inv c [h] [h] b -> owned h (rehydrate b) /\ stored h (rehydrate b)) as Hre.
  { intros b Ib. apply rehydrate_inv in Ib as [_ Hf]. by apply Forall_inv in Hf. }
  destruct Hn as [| |torn n m Ht].
  - apply Hboth, (step_inv _ _ _ False never c [h] [h]); [done | by apply list_subseteq_app_r | done | done].
  - by apply Hre.
  - apply Hre, (crash_inv c [h]); [done | done | by apply list_subseteq_app_r | done | done].
Qed.
Lemma life_stored c h a a' : rtc roomy_next a a' -> inv c [] [] a -> owned h a -> stored h a -> owned h a' /\ stored h a'.
Proof using La.
  induction 1 as [|a b a' Hn _ IH]; intros I Ho Hs; [done|].
  destruct (next_stored c h a b Hn I Ho Hs) as [Ho' Hs']. apply IH; [|done..]. eapply next_inv; [apply Hn | exact I].
Qed.

(** C1: no result is lost before the model can see it.  Over any history of an
    actor that began with no background work — iterations, restarts, crashes at
    any call of an iteration, any answers of the stores, any runs of the agent
    loop — let the next message be the end of a background job, with fewer than
    sixty-four results held.  After the iteration the job's result is in the
    session's ledger or its prompt is in the transcript, and stays so as long as
    each iteration begins with fewer than sixty-four results held.  When the
    result is new and the store takes the save that follows it, the row of the
    session has it too; and from any moment the row has it, it stays owned, in
    the session and in the row, or prompted, through iterations, saves that
    fail, restarts and crashes alike. *)
Theorem results_reach_transcript (a0 a : Actor) (p : Background.PendingBackgroundResult) (rest : list AgentMessage)
    (Hfresh : fresh a0) (Hlife : rtc next a0 a) (Htaken : take_burst (mailbox a) = Some ([BackgroundJobFinished p], rest))
    (Hroom : room a) :
  let h := Background.handle_id p in
  (Background.knows_handle h (ledger a) = false -> save_answer a = true -> stored h (step a).1) /\
  forall b, rtc roomy (step a).1 b ->
    owned h b /\ (stored h b -> forall b', rtc roomy_next b b' -> owned h b' /\ stored h b').
Proof using La.
  intros h. apply (fresh_inv False) in Hfresh. apply (life_inv _ _ _ Hlife) in Hfresh.
  set (c := (_ - _)%Z) in Hfresh. split.
  - intros Hk Hs. rewrite Background.knows_pipeline in Hk. apply bool_decide_eq_false in Hk.
    eapply inv_stored; [|by apply (step_durable _ _ _ False never c p rest a)]. by left.
  - intros b Hrun. assert (inv c [h] [] (step a).1) as I1.
    { apply (step_inv _ _ _ False never c [] []); [done | | apply list_subseteq_nil | done].
      unfold arriving. by rewrite Htaken. }
    destruct (roomy_owned c h _ _ Hrun) as [I2 Ho]; [by eapply inv_none | eapply inv_reached, I1; by left|].
    split; [done|]. intros Hs b' Hb. by apply (life_stored c h b).
Qed.

(** C2: each batch is acknowledged once.  Over any history of an actor that began
    with no background work, no two prompts of batches have the same key, and
    the acknowledgements it has sent are never more than the prompts its
    transcript has gained, whatever crashes, restarts, retries and prompts put
    back after a compaction came between; and they are exactly as many when the
    channel takes every output and no crash fell inside an iteration. *)
Theorem batch_acknowledged_once (a0 a : Actor) (Hfresh : fresh a0) (Hlife : rtc next a0 a) :
  let sent := (acks (outbox a) - acks (outbox a0))%Z in
  let gained := (Z.of_nat (length (prompts (log_of a))) - Z.of_nat (length (prompts (log_of a0))))%Z in
  NoDup (prompts (log_of a)) /\ (sent <= gained)%Z /\
  ((forall w : W, (output_taken w).2 = true) -> rtc smooth a0 a -> sent = gained).
Proof using La.
  pose proof (fresh_inv False _ Hfresh) as I. apply (life_inv _ _ _ Hlife) in I. split_and!.
  - unfold prompts, events. apply NoDup_ListNoDup, List.NoDup_filter, NoDup_ListNoDup, (inv_log _ _ _ _ _ _ I).
  - destruct (inv_acks _ _ _ _ _ _ I). lia.
  - intros Hout Hsmooth. pose proof (fresh_inv (forall w : W, (output_taken w).2 = true) _ Hfresh) as J.
    apply (smooth_inv _ id _ _ _ Hsmooth) in J. destruct (inv_acks _ _ _ _ _ _ J) as [_ E]. specialize (E Hout). lia.
Qed.

(** A result has one owner.  Over any history of an actor that began with no
    background work, crashes included, the buffer, the cohorts and the open
    ledger never have a result twice, in the session and in its saved row; an
    open ledger has had fewer than five failed attempts, and the row of its
    prompt is in the transcript; and the delay of the retries stays between one
    minute and five. *)
Theorem pipeline_owned_once (a0 a : Actor) (Hfresh : fresh a0) (Hlife : rtc next a0 a) :
  (forall b, b = ledger a \/ b = background (saved a) -> NoDup (Background.pipeline b) /\
     forall d, Background.active_delivery b = Some d -> (Background.failed_attempts d < 5)%N /\
       exists r, r ∈ log_of a /\ SessionLog.source_event_id r = Some (prompt_key sha256_hex (Background.handle_ids d))) /\
  (60 <= retry_delay a <= 300)%N.
Proof using La.
  apply (fresh_inv False) in Hfresh. apply (life_inv _ _ _ Hlife) in Hfresh.
  split; [|exact (inv_delay _ _ _ _ _ _ Hfresh)].
  assert (sound sha256_hex (log_of a) (ledger a)) as H1 by apply Hfresh.
  assert (sound sha256_hex (log_of a) (background (saved a))) as H2 by apply Hfresh.
  intros b Hb. assert (sound sha256_hex (log_of a) b) as [O1 O2] by (by destruct Hb as [->| ->]). split; [done|].
  intros d Hd. destruct (O2 d Hd) as [Ho He]. split; [done|]. apply list_elem_of_omap in He as (r & Hr & E). eauto.
Qed.

End Histories.
Arguments next {L W Lp Pe C} _ _ _.

(** ** A concrete actor *)

Module Sample.
#[export] Instance log_loop : LoopApi SessionLog.Log.
Proof.
  refine (let put m (l : SessionLog.Log) := (SessionLog.append_session_message (C := SessionLog.Sample.chrono) 0 m l).1 in
    {| transcript l := l;
       append_user_message c p l := (put (user c) l, Ok tt);
       append_issue_brief n k b f l := (put (agent_context [Text b]) l, Ok tt);
       append_cron_fire j p b l := (put (agent_context [Text p]) l, Ok tt);
       append_spawned_prompt c l := (put (agent_context c) l, Ok tt);
       append_cron_notification c key l := (l, Err (Scope.Anyhow "not here"));
       append_prompt_once c key l :=
         match SessionLog.append_session_message_idempotent (C := SessionLog.Sample.chrono) 0 key (agent_context c) l with
         | (l, Ok o) => (l, Ok o)
         | (_, Err _) => (l, Err (Scope.Anyhow "no key"))
         end;
       set_notification_cue b l := l; set_initial_llm a b c l := l; restore_transcript l := l;
       run_turn spec q l := (put (assistant [Text "reported"]) l,
                             mk_end [] [] false false (Ok (Iteration.mk_outgoing [Text "reported"] None)));
       compact_now l := (l, Err (Scope.Anyhow "not here"));
       open_turn i l := (l, Err (Scope.Anyhow "not here"));
       close_turn i r l := (l, Ok tt) |}).
Defined.
#[local] Existing Instance SessionLog.Sample.chrono.
#[export] Instance log_laws : LoopLaws SessionLog.Log.
Proof.
  assert (forall m, calm (fun l => (SessionLog.append_session_message 0 m l).1)) as Hput.
  { intros m l. exists [SessionLog.OpAppend 0 m]. split; [by apply Forall_singleton | done]. }
  assert (calm (fun l => l)) as Hid by (intros l; by exists []).
  split; intros; try exact Hid; try apply Hput. exists []. split; [constructor|]. cbn.
  unfold SessionLog.append_session_message_idempotent. destruct (String.eqb key ""); [done|].
  destruct (SessionLog.find_message_ordinal_by_source_event_id key l); by exists 0%Z.
Qed.
(** Stores that answer, and nothing that comes in. *)
#[export] Instance silent : Peers unit := {|
  save_taken w := (w, true); stored_last_active w := (w, Ok None); read_taken w := (w, Ok tt);
  write_hidden b w := (w, Ok tt); append_control_event n k t z p w := (w, Ok 0%Z);
  fire_history s n k w := (w, Ok []); mark_execution_notified e t w := (w, Ok tt);
  clock w := (w, 0%Z); hash_order w := (w, []); output_taken w := (w, true); wait d w := (w, Elapsed) |}.

Definition job : Background.PendingBackgroundResult :=
  Background.mk_pending "bg-1" "count the files" "42 files" Background.Completed (Background.Command "ls" 0 "/out") None.
Definition idle : Session := mk_session Background.no_work false 0 None None None.
Definition start : @Actor SessionLog.Log unit :=
  mk_actor [] tt idle [BackgroundJobFinished job] idle [] Background.RETRY_INITIAL_BACKOFF.
Definition texts (e : Turn.TurnError) : string := "".
Definition one_step (a : @Actor SessionLog.Log unit) : @Actor SessionLog.Log unit := (actor_step texts id "/w" a).1.
End Sample.
Import Sample.
#[local] Existing Instance SessionLog.Sample.chrono.

Lemma fresh_start : fresh start.
Proof. split_and!; try done. apply SessionLog.wf_empty. Qed.

(** The process dies after [n] calls of the loop and [m] of the stores. *)
Definition dies (n m : nat) (a : @Actor SessionLog.Log unit) : @Actor SessionLog.Log unit :=
  rehydrate (crash texts id "/w" id n m a).
Lemma dies_next n m a : next texts id "/w" a (dies n m a).
Proof. apply crashes. intros l. by exists []. Qed.

Lemma results_reach_transcript_witness : owned id "bg-1" (dies 1 9 (one_step start)).
Proof.
  destruct (results_reach_transcript texts id "/w" start start job []) as [Hs Hb];
    [apply fresh_start | apply rtc_refl | reflexivity | vm_compute; lia |].
  refine (proj1 (proj2 (Hb (one_step start) (rtc_refl _ _)) (Hs eq_refl eq_refl) _ (rtc_once _ _ _))).
  split; [vm_compute; lia | apply dies_next].
Defined.
Lemma batch_acknowledged_once_witness :
  acks (outbox (one_step (one_step start))) = 1%Z /\ length (prompts (log_of (one_step (one_step start)))) = 1.
Proof.
  pose proof (batch_acknowledged_once texts id "/w" start (one_step (one_step start)) fresh_start
    ltac:(eapply rtc_l; [apply iterates | apply rtc_once, iterates])) as (_ & _ & H).
  split; [|vm_compute; reflexivity]. revert H. cbn zeta. intros H. rewrite Z.sub_0_r in H.
  specialize (H ltac:(by intros []) ltac:(eapply rtc_l; [left; reflexivity | apply rtc_once; left; reflexivity])).
  revert H. vm_compute. intros H. exact H.
Defined.
Lemma pipeline_owned_once_witness :
  NoDup (Background.pipeline (ledger (rehydrate (one_step start)))) /\ (60 <= retry_delay (one_step start) <= 300)%N.
Proof.
  destruct (pipeline_owned_once texts id "/w" start (rehydrate (one_step start)) fresh_start
    ltac:(eapply rtc_l; [apply iterates | apply rtc_once, restarts])) as [H1 _].
  destruct (pipeline_owned_once texts id "/w" start (one_step start) fresh_start
    ltac:(apply rtc_once, iterates)) as [_ H2].
  split; [apply H1; by left | exact H2].
Defined.
(** A crash between the prompt's row and its acknowledgement, at the store call
    that would write the notice: the batch comes back from the session's row,
    its prompt is found again, and no acknowledgement is ever sent. *)
Example ack_lost_in_crash : let a := dies 1 6 start in
  length (prompts (log_of a)) = 1 /\ Background.collected (ledger a) = ["bg-1"%string] /\
  length (prompts (log_of (one_step a))) = 1 /\ acks (outbox (one_step a)) = 0%Z /\
  Background.has_work (ledger (one_step a)) = false.
Proof. by vm_compute. Qed.
End Delivery.
