(* ===== verification/Supervisor.v ===== *)
(** * The actor registry ([crates/agent/src/actor/supervisor.rs])

    One supervisor holds the way into every session's actor and the background
    jobs each session has out.  A message goes to the actor that is there, or to
    one made on the spot; actors leave by a message, by a panic, or when nobody
    can write to them any more, and take their entry along.  The registry is
    shared: between its locks other tasks run, so the file is a relation of
    small steps over the registry, the mailboxes ([Mailbox]) and the senders
    cloned out of it. *)

From S2P Require Import Prelude Effect Message Mailbox Actor.

Module Supervisor.

Abbreviation AgentMessage := Actor.AgentMessage.
#[local] Existing Instance Actor.prioritized.
(** A cancellation token, and an actor's task with its mailbox, are named by a
    number. *)
Abbreviation Token := N.
Abbreviation TaskId := N.

(** ** Background jobs in flight *)

Record InFlightJob := mk_job {
  kind : string;
  task_summary : string;
  handle : string;
  cancel_token : Token;
}.
(** By parent session, then by child session or command handle. *)
Abbreviation InFlight := (gmap string (gmap string InFlightJob)).

Definition note_background_subagent_started (parent child : string) (j : InFlightJob) (m : InFlight) : InFlight :=
  <[parent := <[child := j]> (default ∅ (m !! parent))]> m.
(** [entry.remove()] when the last child goes. *)
Definition put_children (parent : string) (children : gmap string InFlightJob) (m : InFlight) : InFlight :=
  if bool_decide (children = ∅) then delete parent m else <[parent := children]> m.
Definition note_background_subagent_finished (parent child : string) (m : InFlight) : InFlight :=
  match m !! parent with
  | Some children => put_children parent (delete child children) m
  | None => m
  end.
Definition is_background_subagent_in_flight (parent child : string) (m : InFlight) : bool :=
  match m !! parent with Some children => is_some (children !! child) | None => false end.
Definition has_in_flight_background_subagents (parent : string) (m : InFlight) : bool :=
  match m !! parent with Some children => negb (bool_decide (children = ∅)) | None => false end.
Definition list_in_flight_background (parent : string) (m : InFlight) : list (string * InFlightJob) :=
  match m !! parent with Some children => map_to_list children | None => [] end.
Definition list_all_in_flight_background (m : InFlight) : list (string * InFlightJob) :=
  concat (map (fun pc : string * gmap string InFlightJob => map (fun kv => (pc.1, kv.2)) (map_to_list pc.2))
              (map_to_list m)).
Definition take_in_flight_background_subagents (parent : string) (m : InFlight)
    : InFlight * list (string * InFlightJob) :=
  (delete parent m, list_in_flight_background parent m).
(** The job whose token it cancels, too. *)
Definition cancel_in_flight_background (parent h : string) (m : InFlight) : InFlight * option InFlightJob :=
  match m !! parent with
  | None => (m, None)
  | Some children =>
      match List.find (fun kv : string * InFlightJob => String.eqb (handle kv.2) h) (map_to_list children) with
      | Some (key, info) => (put_children parent (delete key children) m, Some info)
      | None => (put_children parent children m, None)
      end
  end.

(** ** Actors

    A task holds its registry guard from its first poll until it leaves; the
    guard goes before the mailbox's receiver does. *)
Inductive Phase := Spawned | Running | Leaving | Unguarded | Gone.
Record Task := mk_task {
  session : string;
  phase : Phase;
  mailbox : Mailbox.Spec AgentMessage;
  served : list AgentMessage;
}.
Definition set_phase (p : Phase) (t : Task) : Task := mk_task (session t) p (mailbox t) (served t).
Definition set_mailbox (a : Mailbox.Spec AgentMessage) (t : Task) : Task := mk_task (session t) (phase t) a (served t).
Definition serve (m : AgentMessage) (t : Task) : Task := mk_task (session t) (phase t) (mailbox t) (served t ++ [m]).

(** A sender cloned out of the registry, about to be used. *)
Inductive How := Await | Try.
Record Sending := mk_sending { to : TaskId; msg : AgentMessage; how : How }.

Inductive Answer := Sent | Refused | NoActor.
Record World := mk_world {
  actors : gmap string TaskId;
  in_flight_background_subagents : InFlight;
  tasks : gmap TaskId Task;
  sends : gmap N Sending;
  (** What each call of [route] and its kin returned. *)
  answers : list (N * Answer);
  (** The candidates of an idle sweep that are still to be looked at. *)
  reaping : list string;
  (** The handles [shutdown_all] has taken out of the map. *)
  closing : list TaskId;
  (** The one-shot actors whose maker still holds their sender. *)
  held : gset TaskId;
}.
Definition set_actors (a : gmap string TaskId) (w : World) : World :=
  mk_world a (in_flight_background_subagents w) (tasks w) (sends w) (answers w) (reaping w) (closing w) (held w).
Definition set_in_flight (m : InFlight) (w : World) : World :=
  mk_world (actors w) m (tasks w) (sends w) (answers w) (reaping w) (closing w) (held w).
Definition set_tasks (ts : gmap TaskId Task) (w : World) : World :=
  mk_world (actors w) (in_flight_background_subagents w) ts (sends w) (answers w) (reaping w) (closing w) (held w).
Definition set_sends (ss : gmap N Sending) (w : World) : World :=
  mk_world (actors w) (in_flight_background_subagents w) (tasks w) ss (answers w) (reaping w) (closing w) (held w).
Definition answer (i : N) (a : Answer) (w : World) : World :=
  mk_world (actors w) (in_flight_background_subagents w) (tasks w) (sends w) (answers w ++ [(i, a)]) (reaping w)
    (closing w) (held w).
Definition set_reaping (l : list string) (w : World) : World :=
  mk_world (actors w) (in_flight_background_subagents w) (tasks w) (sends w) (answers w) l (closing w) (held w).
Definition set_closing (l : list TaskId) (w : World) : World :=
  mk_world (actors w) (in_flight_background_subagents w) (tasks w) (sends w) (answers w) (reaping w) l (held w).
Definition set_held (s : gset TaskId) (w : World) : World :=
  mk_world (actors w) (in_flight_background_subagents w) (tasks w) (sends w) (answers w) (reaping w) (closing w) s.
Definition on_task (b : TaskId) (f : Task -> Task) (w : World) : World := set_tasks (alter f b (tasks w)) w.
Definition box_op (o : Mailbox.op AgentMessage) (t : Task) : Task := set_mailbox (Mailbox.spec_op o (mailbox t)).1 t.
Definition clone_sender (b : TaskId) (w : World) : World := on_task b (box_op Mailbox.OpClone) w.
Definition drop_sender (b : TaskId) (w : World) : World := on_task b (box_op Mailbox.OpDropSender) w.

(** [mailbox::DEFAULT_CAPACITY]. *)
Definition DEFAULT_CAPACITY : nat := 4096.

Definition new_task (s : string) : Task := mk_task s Spawned (Mailbox.mk_spec [] DEFAULT_CAPACITY 1 false) [].
(** The spawner's closure: a task, and the one sender of its mailbox. *)
Definition spawn_actor (b : TaskId) (s : string) (w : World) : World := set_tasks (<[b := new_task s]> (tasks w)) w.

(** *** Sending *)

Definition begin_send (i : N) (b : TaskId) (m : AgentMessage) (how : How) (w : World) : World :=
  set_sends (<[i := mk_sending b m how]> (sends w)) w.
(** A used sender is dropped. *)
Definition sent (i : N) (b : TaskId) (a : Answer) (box : Mailbox.Spec AgentMessage) (w : World) : World :=
  answer i a (drop_sender b (on_task b (set_mailbox box) (set_sends (delete i (sends w)) w))).
Definition send (i : N) (w : World) : World :=
  match sends w !! i with
  | None => w
  | Some (mk_sending b m how) =>
      match tasks w !! b with
      | None => w
      | Some t =>
          match how with
          | Await =>
              match Mailbox.spec_op (Mailbox.OpSend m) (mailbox t) with
              | (a, Mailbox.OutSend (Mailbox.Ready r)) => sent i b (match r with Ok _ => Sent | Err _ => Refused end) a w
              | _ => w
              end
          | Try =>
              match Mailbox.spec_op (Mailbox.OpTrySend m) (mailbox t) with
              | (a, Mailbox.OutTrySend r) => sent i b (match r with Ok _ => Sent | Err _ => Refused end) a w
              | _ => w
              end
          end
      end
  end.

(** [route] answers no actor with [false], [route_existing] with [None]. *)
Definition route (i : N) (s : string) (m : AgentMessage) (w : World) : World :=
  match sends w !! i, actors w !! s with
  | Some _, _ => w
  | None, Some b => begin_send i b m Await (clone_sender b w)
  | None, None => answer i NoActor w
  end.
(** [b] is the name the spawned actor gets; a name is used once. *)
Definition route_or_spawn (i : N) (b : TaskId) (s : string) (m : AgentMessage) (w : World) : World :=
  match sends w !! i, actors w !! s with
  | Some _, _ => w
  | None, Some b => begin_send i b m Await (clone_sender b w)
  | None, None =>
      match tasks w !! b with
      | Some _ => w
      | None => begin_send i b m Await (clone_sender b (set_actors (<[s := b]> (actors w)) (spawn_actor b s w)))
      end
  end.
(** [build_oneshot_actor]: the actor's maker keeps its sender; the registry is
    not told. *)
Definition build_oneshot_actor (b : TaskId) (s : string) (w : World) : World :=
  match tasks w !! b with
  | Some _ => w
  | None => set_held ({[b]} ∪ held w) (spawn_actor b s w)
  end.
Definition send_held (i : N) (b : TaskId) (m : AgentMessage) (w : World) : World :=
  match sends w !! i with
  | Some _ => w
  | None => if bool_decide (b ∈ held w) then begin_send i b m Await (clone_sender b w) else w
  end.
Definition release_held (b : TaskId) (w : World) : World :=
  if bool_decide (b ∈ held w) then set_held (held w ∖ {[b]}) (drop_sender b w) else w.

(** *** The actor's task ([AgentActor::run], [ActorRegistryGuard]) *)

(** The first poll makes the guard. *)
Definition first_poll (t : Task) : Task := match phase t with Spawned => set_phase Running t | _ => t end.
(** The actor takes the message [recv] gives; [ActorStop], or a closed mailbox,
    ends its loop. *)
Definition take_next_message (t : Task) : Task :=
  match phase t with
  | Running =>
      match Mailbox.spec_op Mailbox.OpRecv (mailbox t) with
      | (a, Mailbox.OutRecv (Mailbox.Ready (Some m))) =>
          let t := serve m (set_mailbox a t) in
          match m with Actor.ActorStop => set_phase Leaving t | _ => t end
      | (_, Mailbox.OutRecv (Mailbox.Ready None)) => set_phase Leaving t
      | _ => t
      end
  | _ => t
  end.
Definition panic (t : Task) : Task := match phase t with Running => set_phase Leaving t | _ => t end.
(** [AgentSupervisor::remove]: the entry of that session, and with it the sender
    it holds. *)
Definition remove (s : string) (w : World) : World :=
  match actors w !! s with
  | Some b => drop_sender b (set_actors (delete s (actors w)) w)
  | None => w
  end.
Definition drop_guard (b : TaskId) (w : World) : World :=
  match tasks w !! b with
  | Some t =>
      match phase t with
      | Leaving => remove (session t) (on_task b (set_phase Unguarded) w)
      | _ => w
      end
  | None => w
  end.
Definition drop_receiver (t : Task) : Task :=
  match phase t with Unguarded => set_phase Gone (box_op Mailbox.OpDropReceiver t) | _ => t end.

(** *** The idle reaper and the shutdown *)

(** The sweep looks only at what is registered when it starts. *)
Definition reap_idle (candidates : list string) (w : World) : World :=
  set_reaping (List.filter (fun s => is_some (actors w !! s)) candidates) w.
(** One candidate: spared, gone meanwhile, or about to be sent [ActorStop]. *)
Definition reap_one (i : N) (w : World) : World :=
  match sends w !! i, reaping w with
  | None, s :: rest =>
      let w := set_reaping rest w in
      if has_in_flight_background_subagents s (in_flight_background_subagents w) then w
      else
        match actors w !! s with
        | None => w
        | Some b => begin_send i b Actor.ActorStop Try (clone_sender b w)
        end
  | _, _ => w
  end.
Definition shutdown_all (w : World) : World :=
  foldl (fun w b => set_closing (closing w ++ [b]) (clone_sender b w)) w (map snd (map_to_list (actors w))).
Definition shut_one (i : N) (w : World) : World :=
  match sends w !! i, closing w with
  | None, b :: rest => begin_send i b Actor.ActorStop Await (set_closing rest w)
  | _, _ => w
  end.

(** *** Histories *)
Inductive event :=
| Route (i : N) (s : string) (m : AgentMessage)
| RouteOrSpawn (i : N) (b : TaskId) (s : string) (m : AgentMessage)
| OneShot (b : TaskId) (s : string)
| SendHeld (i : N) (b : TaskId) (m : AgentMessage)
| ReleaseHeld (b : TaskId)
| Send (i : N)
| FirstPoll (b : TaskId)
| Take (b : TaskId)
| Panic (b : TaskId)
| DropGuard (b : TaskId)
| DropReceiver (b : TaskId)
| ReapIdle (candidates : list string)
| ReapOne (i : N)
| ShutdownAll
| ShutOne (i : N)
| JobStarted (parent child : string) (j : InFlightJob)
| JobFinished (parent child : string)
| StopCommand (parent : string)
| JobStop (parent h : string).

Definition run_event (e : event) (w : World) : World :=
  let jobs := in_flight_background_subagents w in
  match e with
  | Route i s m => route i s m w
  | RouteOrSpawn i b s m => route_or_spawn i b s m w
  | OneShot b s => build_oneshot_actor b s w
  | SendHeld i b m => send_held i b m w
  | ReleaseHeld b => release_held b w
  | Send i => send i w
  | FirstPoll b => on_task b first_poll w
  | Take b => on_task b take_next_message w
  | Panic b => on_task b panic w
  | DropGuard b => drop_guard b w
  | DropReceiver b => on_task b drop_receiver w
  | ReapIdle candidates => reap_idle candidates w
  | ReapOne i => reap_one i w
  | ShutdownAll => shutdown_all w
  | ShutOne i => shut_one i w
  | JobStarted p c j => set_in_flight (note_background_subagent_started p c j jobs) w
  | JobFinished p c => set_in_flight (note_background_subagent_finished p c jobs) w
  | StopCommand p => set_in_flight (take_in_flight_background_subagents p jobs).1 w
  | JobStop p h => set_in_flight (cancel_in_flight_background p h jobs).1 w
  end.
Fixpoint run (es : list event) (w : World) : World :=
  match es with [] => w | e :: es => run es (run_event e w) end.
Definition boot : World := mk_world ∅ ∅ ∅ ∅ [] [] [] ∅.

(** Whether a task still has its entry to take along. *)
Definition guarded (p : Phase) : bool :=
  match p with Spawned | Running | Leaving => true | _ => false end.
Definition serving (p : Phase) : bool := match p with Spawned | Running => true | _ => false end.

(** Only the registry's own road leads to session [s]. *)
Definition routed_only (s : string) (e : event) : Prop := match e with OneShot _ s' => s' <> s | _ => True end.
(** The entry of [s] is the task that holds [s]'s guard. *)
Definition owned (s : string) (w : World) : Prop :=
  forall b, actors w !! s = Some b <->
            exists t, tasks w !! b = Some t /\ session t = s /\ guarded (phase t) = true.

(** ** Who can still write to an actor *)
Definition one_if (b : bool) : nat := if b then 1 else 0.
Definition sends_to (b : TaskId) (ss : gmap N Sending) : nat := size (filter (fun kv : N * Sending => to kv.2 = b) ss).
(** The senders of a mailbox: its entry's, those in use, those the shutdown
    holds, its maker's. *)
Definition writers (b : TaskId) (s : string) (w : World) : nat :=
  one_if (bool_decide (actors w !! s = Some b)) + sends_to b (sends w)
  + length (List.filter (N.eqb b) (closing w)) + one_if (bool_decide (b ∈ held w)).
(** No name points at a task that is not there, and every holder of a sender is
    counted by the mailbox. *)
Record sane (w : World) : Prop := mk_sane {
  entry_ok : forall s b, actors w !! s = Some b -> exists t, tasks w !! b = Some t /\ session t = s;
  send_ok : forall i x, sends w !! i = Some x -> is_Some (tasks w !! to x);
  closing_ok : Forall (fun b => is_Some (tasks w !! b)) (closing w);
  held_ok : forall b, b ∈ held w -> is_Some (tasks w !! b);
  counted : forall b t, tasks w !! b = Some t -> writers b (session t) w <= Mailbox.senders (mailbox t);
  open_until_gone : forall b t, tasks w !! b = Some t -> phase t <> Gone -> Mailbox.hung_up (mailbox t) = false;
}.

(** Nobody is about to stop [b]. *)
Record unstopped (b : TaskId) (w : World) : Prop := mk_unstopped {
  still_serving : exists t, tasks w !! b = Some t /\ serving (phase t) = true
                            /\ Actor.ActorStop ∉ Mailbox.msgs (mailbox t);
  no_stop_sent : forall i x, sends w !! i = Some x -> to x = b -> msg x <> Actor.ActorStop;
  not_closing : b ∉ closing w;
}.
(** No event of these stops parent [p], whose actor is [b], except the sweeps. *)
Definition calm (p : string) (b : TaskId) (e : event) : Prop :=
  match e with
  | Route _ s m | RouteOrSpawn _ _ s m => s = p -> m <> Actor.ActorStop
  | SendHeld _ b' m => b' = b -> m <> Actor.ActorStop
  | Panic b' => b' <> b
  | ShutdownAll => False
  | _ => True
  end.
Fixpoint throughout (P : World -> Prop) (es : list event) (w : World) : Prop :=
  P w /\ match es with [] => True | e :: es => throughout P es (run_event e w) end.

(** ** One actor per session *)

(** A change of a task that its session and its guard do not show. *)
Definition keeps (f : Task -> Task) : Prop :=
  forall t, session (f t) = session t /\ guarded (phase (f t)) = guarded (phase t).

Lemma keeps_box o : keeps (box_op o).
Proof. done. Qed.
Lemma keeps_first_poll : keeps first_poll.
Proof. intros [s [] a l]; done. Qed.
Lemma keeps_panic : keeps panic.
Proof. intros [s [] a l]; done. Qed.
Lemma keeps_drop_receiver : keeps drop_receiver.
Proof. intros [s [] a l]; done. Qed.
Lemma keeps_take : keeps take_next_message.
Proof.
  intros [s [] a l]; unfold take_next_message; cbn -[Mailbox.spec_op]; [done| |done..].
  destruct (Mailbox.spec_op _ _) as [a' [?|?|[[m|]|]|?|?|?|]]; try done. by destruct m.
Qed.
Create HintDb supervisor.
#[local] Hint Resolve keeps_box keeps_first_poll keeps_panic keeps_drop_receiver keeps_take : supervisor.

Lemma owned_same s w w' : actors w' !! s = actors w !! s -> tasks w' = tasks w -> owned s w -> owned s w'.
Proof. intros Ha Ht Hw b. rewrite Ha, Ht. apply Hw. Qed.
Lemma owned_on_task s b f w : keeps f -> owned s w -> owned s (on_task b f w).
Proof.
  intros Hf Hw c. rewrite (Hw c). cbn. destruct (decide (b = c)) as [->|Hn].
  - rewrite lookup_alter_eq. destruct (tasks w !! c) as [t|]; cbn; [|naive_solver].
    destruct (Hf t) as [Hs Hg]. split; intros (t' & [= <-] & H1 & H2); eexists; (split; [done|]).
    + by rewrite Hs, Hg.
    + by rewrite <- Hs, <- Hg.
  - by rewrite lookup_alter_ne.
Qed.
Lemma owned_sent s i b a box w : owned s w -> owned s (sent i b a box w).
Proof.
  intros Hw. unfold sent, drop_sender. apply (owned_same s (on_task b (box_op Mailbox.OpDropSender)
    (on_task b (set_mailbox box) (set_sends (delete i (sends w)) w)))); [done..|].
  apply owned_on_task; [auto with supervisor|]. apply owned_on_task; [done|]. by apply (owned_same s w).
Qed.
#[local] Hint Resolve owned_on_task owned_sent : supervisor.

Lemma owned_begin s i b m h w : owned s w -> owned s (begin_send i b m h (clone_sender b w)).
Proof.
  intros Hw. apply (owned_same s (clone_sender b w)); [done..|].
  unfold clone_sender. auto with supervisor.
Qed.
Lemma owned_spawn_other s b s' w : s' <> s -> tasks w !! b = None -> owned s w -> owned s (spawn_actor b s' w).
Proof.
  intros Hs Hb Hw c. rewrite (Hw c). cbn. destruct (decide (b = c)) as [->|Hn].
  - rewrite lookup_insert_eq, Hb. split; [naive_solver|]. intros (t & [= <-] & He & _). by cbn in He.
  - by rewrite lookup_insert_ne.
Qed.
Lemma owned_spawn s b w :
  actors w !! s = None -> tasks w !! b = None -> owned s w ->
  owned s (set_actors (<[s := b]> (actors w)) (spawn_actor b s w)).
Proof.
  intros Ha Hb Hw c. cbn. rewrite lookup_insert_eq. destruct (decide (b = c)) as [->|Hn].
  - rewrite lookup_insert_eq. split; [|done]. intros _. by eexists.
  - rewrite lookup_insert_ne by done. rewrite <- (Hw c), Ha. split; [congruence|done].
Qed.
Lemma owned_remove s s' w : s' <> s -> owned s w -> owned s (remove s' w).
Proof.
  intros Hs Hw. unfold remove. destruct (actors w !! s'); [|done].
  apply owned_on_task; [auto with supervisor|].
  apply (owned_same s w); [cbn; by rewrite lookup_delete_ne|done..].
Qed.
Lemma owned_drop_guard s b w : owned s w -> owned s (drop_guard b w).
Proof.
  intros Hw. unfold drop_guard. destruct (tasks w !! b) as [t|] eqn:Hb; [|done].
  destruct (phase t) eqn:Hp; try done.
  destruct (decide (session t = s)) as [<-|Hn].
  - (* the entry is this task's, and both go *)
    assert (Ha : actors w !! session t = Some b) by (apply Hw; exists t; by rewrite Hp).
    unfold remove. cbn. rewrite Ha. apply owned_on_task; [auto with supervisor|]. intros c. cbn.
    rewrite lookup_delete_eq. split; [done|]. intros (t' & Ht' & He & Hg).
    destruct (decide (b = c)) as [->|Hc].
    + rewrite lookup_alter_eq, Hb in Ht'. cbn in Ht'. by injection Ht' as <-.
    + rewrite lookup_alter_ne in Ht' by done. destruct Hc.
      assert (actors w !! session t = Some c) by (apply Hw; by exists t'). congruence.
  - apply owned_remove; [done|]. intros c. rewrite (Hw c). cbn. destruct (decide (b = c)) as [->|Hc].
    + rewrite lookup_alter_eq, Hb. cbn. split; intros (t' & [= <-] & H1 & _); by cbn in H1.
    + by rewrite lookup_alter_ne.
Qed.
Lemma owned_shutdown s w : owned s w -> owned s (shutdown_all w).
Proof.
  unfold shutdown_all. generalize (map snd (map_to_list (actors w))). intros bs. revert w.
  induction bs as [|b bs IH]; intros w Hw; cbn; [done|]. apply IH.
  apply (owned_same s (clone_sender b w)); [done..|]. unfold clone_sender. auto with supervisor.
Qed.

Lemma owned_step s e w : routed_only s e -> owned s w -> owned s (run_event e w).
Proof.
  intros He Hw. destruct e as [i s' m|i b s' m|b s'|i b m|b|i|b|b|b|b|b|cs|i| |i|p c j|p c|p|p h]; cbn.
  - unfold route. destruct (sends w !! i); [done|]. destruct (actors w !! s'); [by apply owned_begin|].
    by apply (owned_same s w).
  - unfold route_or_spawn. destruct (sends w !! i); [done|].
    destruct (actors w !! s') eqn:Ha; [by apply owned_begin|]. destruct (tasks w !! b) eqn:Hb; [done|].
    apply owned_begin. destruct (decide (s' = s)) as [->|Hn]; [by apply owned_spawn|].
    apply (owned_same s (spawn_actor b s' w)); [cbn; by rewrite lookup_insert_ne|done|].
    by apply owned_spawn_other.
  - unfold build_oneshot_actor. destruct (tasks w !! b) eqn:Hb; [done|].
    apply (owned_same s (spawn_actor b s' w)); [done..|]. by apply owned_spawn_other.
  - unfold send_held. destruct (sends w !! i); [done|]. destruct (bool_decide _); [|done]. by apply owned_begin.
  - unfold release_held. destruct (bool_decide _); [|done].
    apply (owned_same s (drop_sender b w)); [done..|]. unfold drop_sender. auto with supervisor.
  - unfold send. destruct (sends w !! i) as [[b m []]|]; [| |done]; (destruct (tasks w !! b) as [t|]; [|done]).
    + destruct (Mailbox.spec_op _ _) as [a [?|[?|]|?|?|?|?|]]; auto with supervisor.
    + destruct (Mailbox.spec_op _ _) as [a [?|?|?|?|?|?|]]; auto with supervisor.
  - auto with supervisor.
  - auto with supervisor.
  - auto with supervisor.
  - by apply owned_drop_guard.
  - auto with supervisor.
  - by apply (owned_same s w).
  - unfold reap_one. destruct (sends w !! i); [done|]. destruct (reaping w) as [|s' rest]; [done|].
    assert (Hr : owned s (set_reaping rest w)) by by apply (owned_same s w).
    destruct (has_in_flight_background_subagents _ _); [done|].
    destruct (actors _ !! s'); [by apply owned_begin|done].
  - by apply owned_shutdown.
  - unfold shut_one. destruct (sends w !! i); [done|]. destruct (closing w); [done|]. by apply (owned_same s w).
  - by apply (owned_same s w).
  - by apply (owned_same s w).
  - by apply (owned_same s w).
  - by apply (owned_same s w).
Qed.
Lemma owned_run s es w : Forall (routed_only s) es -> owned s w -> owned s (run es w).
Proof.
  revert w. induction es as [|e es IH]; intros w Hf Hw; cbn; [done|].
  inversion Hf; subst. by apply IH, owned_step.
Qed.
Lemma owned_boot s : owned s boot.
Proof. intros b. cbn. rewrite !lookup_empty. split; [done|]. intros (t & [=] & _). Qed.

(** C19: However routes, spawns, stops, panics and teardowns interleave, a session
    reached through the registry alone is registered to exactly the task that
    still holds its guard: two actors never serve it, and its entry never
    outlives or points past its actor. *)
Theorem one_actor_per_session (es : list event) (s : string) (Hs : Forall (routed_only s) es) (b : TaskId) :
  actors (run es boot) !! s = Some b <->
  exists t, tasks (run es boot) !! b = Some t /\ session t = s /\ guarded (phase t) = true.
Proof. apply owned_run; [done|apply owned_boot]. Qed.

(** ** The senders add up *)

Lemma sends_to_insert b i x ss :
  ss !! i = None -> sends_to b (<[i := x]> ss) = one_if (N.eqb b (to x)) + sends_to b ss.
Proof.
  intros Hi. unfold sends_to. rewrite size_filter_insert, delete_id by done. cbn.
  by destruct (N.eqb_spec b (to x)), (decide (to x = b)).
Qed.
Lemma sends_to_delete b i x ss :
  ss !! i = Some x -> sends_to b ss = one_if (N.eqb b (to x)) + sends_to b (delete i ss).
Proof.
  intros Hi. unfold sends_to. rewrite (size_filter_delete _ ss i x Hi). cbn.
  by destruct (N.eqb_spec b (to x)), (decide (to x = b)).
Qed.

Lemma sane_boot : sane boot.
Proof. split; cbn; try done; intros; try (by rewrite lookup_empty in *); set_solver. Qed.

Lemma on_task_lookup b f w c t' :
  tasks (on_task b f w) !! c = Some t' ->
  exists t, tasks w !! c = Some t /\ t' = if decide (c = b) then f t else t.
Proof.
  cbn. destruct (decide (c = b)) as [->|Hn].
  - rewrite lookup_alter_eq. destruct (tasks w !! b) as [t|]; cbn; [|done]. intros [= <-]. by exists t.
  - rewrite lookup_alter_ne by done. intros Ht. by exists t'.
Qed.
Lemma on_task_some b f w c : is_Some (tasks (on_task b f w) !! c) <-> is_Some (tasks w !! c).
Proof. cbn. rewrite lookup_alter_is_Some. done. Qed.

(** A step of the task [b] that leaves [k] more senders counted. *)
Definition tame (k : nat -> nat) (f : Task -> Task) (t : Task) : Prop :=
  session (f t) = session t /\ Mailbox.senders (mailbox (f t)) = k (Mailbox.senders (mailbox t)) /\
            (phase (f t) <> Gone -> phase t <> Gone /\ (Mailbox.hung_up (mailbox t) = false -> Mailbox.hung_up (mailbox (f t)) = false)).
(** After such a step, with the names of [w'] among those of [w]. *)
Lemma sane_task b k f w w' :
  (forall t, tasks w !! b = Some t -> tame k f t) -> sane w ->
  (forall s c, actors w' !! s = Some c -> actors w !! s = Some c) ->
  (forall i x, sends w' !! i = Some x -> (exists i', sends w !! i' = Some x) \/ is_Some (tasks w !! to x)) ->
  (forall c, c ∈ closing w' -> is_Some (tasks w !! c)) ->
  (forall c, c ∈ held w' -> c ∈ held w) ->
  tasks w' = tasks (on_task b f w) ->
  (forall c t n, tasks w !! c = Some t -> writers c (session t) w <= n ->
   writers c (session t) w' <= if decide (c = b) then k n else n) ->
  sane w'.
Proof.
  intros Hf [E S C H N O] Ha Hs Hc Hh Ht Hn. split.
  - intros s c Hsc. destruct (E s c (Ha s c Hsc)) as (t & Hlt & Hse). rewrite Ht. cbn.
    destruct (decide (c = b)) as [->|Hne].
    + exists (f t). rewrite lookup_alter_eq, Hlt. split; [done|]. by destruct (Hf t Hlt) as [-> _].
    + exists t. by rewrite lookup_alter_ne.
  - intros i x Hx. rewrite Ht, on_task_some. destruct (Hs i x Hx) as [[i' Hi']|Hsome]; [by eapply S|done].
  - apply Forall_forall. intros c Hcc. rewrite Ht, on_task_some. auto.
  - intros c Hcc. rewrite Ht, on_task_some. auto.
  - intros c t' Hlt. rewrite Ht in Hlt. apply on_task_lookup in Hlt as (t & Hlt & ->).
    specialize (Hn c t _ Hlt (N c t Hlt)). destruct (decide (c = b)) as [->|]; [|done].
    destruct (Hf t Hlt) as (-> & -> & _). done.
  - intros c t' Hlt Hp. rewrite Ht in Hlt. apply on_task_lookup in Hlt as (t & Hlt & ->).
    destruct (decide (c = b)) as [->|]; [|by eapply O]. destruct (Hf t Hlt) as (_ & _ & Ho). destruct (Ho Hp) as [Hg Hu].
    apply Hu. by eapply O.
Qed.

Lemma tame_clone t : tame S (box_op Mailbox.OpClone) t.
Proof. done. Qed.
Lemma tame_drop t : tame pred (box_op Mailbox.OpDropSender) t.
Proof. done. Qed.
Lemma recv_senders (a : Mailbox.Spec AgentMessage) :
  Mailbox.senders (Mailbox.spec_op Mailbox.OpRecv a).1 = Mailbox.senders a /\
  Mailbox.hung_up (Mailbox.spec_op Mailbox.OpRecv a).1 = Mailbox.hung_up a.
Proof. cbn. unfold Mailbox.spec_take. destruct (Mailbox.take_next _) as [[m rest]|]; done. Qed.
Lemma tame_take t : tame id take_next_message t.
Proof.
  destruct t as [s ph a l]. unfold tame, take_next_message. cbn -[Mailbox.spec_op]. destruct ph; try done.
  destruct (recv_senders a) as [Hs Hu].
  destruct (Mailbox.spec_op Mailbox.OpRecv a) as [a' [?|?|[[m|]|]|?|?|?|]]; cbn in *; try done.
  destruct m; cbn; rewrite ?Hs, ?Hu; done.
Qed.
Lemma tame_first_poll t : tame id first_poll t.
Proof. by destruct t as [s [] a l]. Qed.
Lemma tame_panic t : tame id panic t.
Proof. by destruct t as [s [] a l]. Qed.
Lemma tame_drop_receiver t : tame id drop_receiver t.
Proof. by destruct t as [s [] a l]. Qed.
Lemma sane_tame b f w : (forall t, tame id f t) -> sane w -> sane (on_task b f w).
Proof.
  intros Hf Hw. apply (sane_task b id f w); try done.
  - intros i x Hx. left. by exists i.
  - intros c Hc. by apply (proj1 (Forall_forall _ _) (closing_ok _ Hw)).
  - intros c t n _ Hn. by destruct (decide (c = b)).
Qed.

Lemma closing_some w c : sane w -> c ∈ closing w -> is_Some (tasks w !! c).
Proof. intros Hw Hc. by apply (proj1 (Forall_forall _ _) (closing_ok _ Hw)). Qed.
Lemma writers_begin i b m h w c s :
  sends w !! i = None ->
  writers c s (begin_send i b m h (clone_sender b w)) = one_if (N.eqb c b) + writers c s w.
Proof. intros Hi. unfold writers. cbn. rewrite sends_to_insert by done. cbn. lia. Qed.
Lemma sane_begin i b m h w :
  sane w -> is_Some (tasks w !! b) -> sends w !! i = None -> sane (begin_send i b m h (clone_sender b w)).
Proof.
  intros Hw Hb Hi. apply (sane_task b S (box_op Mailbox.OpClone) w); try done.
  - intros j x. cbn. destruct (decide (j = i)) as [->|Hn].
    + rewrite lookup_insert_eq. intros [= <-]. by right.
    + rewrite lookup_insert_ne by done. intros Hx. left. by exists j.
  - intros c Hc. by apply closing_some.
  - intros c t n _ Hn. rewrite writers_begin by done. unfold one_if.
    destruct (N.eqb_spec c b), (decide (c = b)); try done; lia.
Qed.
Lemma writers_sent i b m h a box w c s :
  sends w !! i = Some (mk_sending b m h) ->
  writers c s w = one_if (N.eqb c b) + writers c s (sent i b a box w).
Proof. intros Hi. unfold writers. cbn. rewrite (sends_to_delete c i _ (sends w) Hi). cbn. lia. Qed.
Lemma sane_sent i b m h a box t w :
  sane w -> sends w !! i = Some (mk_sending b m h) -> tasks w !! b = Some t ->
  Mailbox.senders box = Mailbox.senders (mailbox t) -> Mailbox.hung_up box = Mailbox.hung_up (mailbox t) ->
  sane (sent i b a box w).
Proof.
  intros Hw Hi Ht Hs Hu.
  apply (sane_task b pred (fun t => box_op Mailbox.OpDropSender (set_mailbox box t)) w); try done.
  - intros t' Ht'. rewrite Ht in Ht'. injection Ht' as <-. unfold tame. cbn. by rewrite Hs, Hu.
  - intros j x. cbn. intros [_ Hx]%lookup_delete_Some. left. by exists j.
  - intros c Hc. by apply closing_some.
  - cbn. by rewrite alter_alter_eq.
  - intros c t' n _ Hn. rewrite (writers_sent i b m h a box) in Hn by done. unfold one_if in Hn.
    destruct (N.eqb_spec c b), (decide (c = b)); try done; lia.
Qed.
Lemma sane_remove s w : sane w -> sane (remove s w).
Proof.
  intros Hw. unfold remove. destruct (actors w !! s) as [b|] eqn:Hb; [|done].
  apply (sane_task b pred (box_op Mailbox.OpDropSender) w); try done.
  - intros s' c. cbn. by intros [_ Hc]%lookup_delete_Some.
  - intros i x Hx. left. by exists i.
  - intros c Hc. by apply closing_some.
  - intros c t n Ht Hn. unfold writers in *. cbn. destruct (decide (c = b)) as [->|Hc].
    + destruct (entry_ok _ Hw s b Hb) as (t' & Ht' & <-). rewrite Ht in Ht'. injection Ht' as <-.
      rewrite Hb in Hn. rewrite lookup_delete_eq. rewrite bool_decide_true in Hn by done.
      rewrite bool_decide_false by done. cbn in *. lia.
    + destruct (decide (session t = s)) as [->|Hs]; [|by rewrite lookup_delete_ne].
      rewrite lookup_delete_eq. rewrite bool_decide_false by done. cbn. lia.
Qed.
Lemma fresh_writers b s w : sane w -> tasks w !! b = None -> writers b s w = 0.
Proof.
  intros [E S C H _ _] Hb. unfold writers. rewrite !bool_decide_false.
  - enough (sends_to b (sends w) = 0 /\ List.filter (N.eqb b) (closing w) = []) as [-> ->] by done. split.
    + unfold sends_to. apply map_size_empty_iff, map_empty. intros i.
      apply map_lookup_filter_None. right. intros x Hx He. cbn in He. subst b. apply S in Hx. rewrite Hb in Hx. by destruct Hx.
    + induction C as [|c cs Hc _ IH]; cbn; [done|]. destruct (N.eqb_spec b c) as [->|]; [|done].
      rewrite Hb in Hc. by destruct Hc.
  - intros Hc%H. rewrite Hb in Hc. by destruct Hc.
  - intros (t & Ht & _)%E. congruence.
Qed.
(** A new task, and one way to it. *)
Lemma sane_new b s w w' :
  sane w -> tasks w !! b = None -> tasks w' = tasks (spawn_actor b s w) ->
  sends w' = sends w -> closing w' = closing w ->
  (forall s' c, actors w' !! s' = Some c -> actors w !! s' = Some c \/ (c = b /\ s' = s)) ->
  (forall c, c ∈ held w' -> c ∈ held w \/ c = b) ->
  writers b s w' <= 1 -> (forall c s', c <> b -> writers c s' w' <= writers c s' w) -> sane w'.
Proof.
  intros Hw Hb Ht Hs Hc Ha Hh H1 Hn. pose proof Hw as [E S C H N O].
  assert (Hsome : forall c, is_Some (tasks w !! c) -> is_Some (tasks w' !! c)).
  { intros c Hsc. rewrite Ht. cbn. destruct (decide (c = b)) as [->|]; [by rewrite lookup_insert_eq|].
    by rewrite lookup_insert_ne. }
  split.
  - intros s' c Hsc. rewrite Ht. cbn. destruct (Ha s' c Hsc) as [Hold|[-> ->]].
    + destruct (E s' c Hold) as (t & Hlt & He). exists t. split; [|done]. rewrite lookup_insert_ne; congruence.
    + exists (new_task s). by rewrite lookup_insert_eq.
  - intros i x Hx. apply Hsome. rewrite Hs in Hx. by eapply S.
  - rewrite Hc. eapply Forall_impl; [exact C|]. auto.
  - intros c [Hold| ->]%Hh; [by auto|]. rewrite Ht. cbn. by rewrite lookup_insert_eq.
  - intros c t. rewrite Ht. cbn. destruct (decide (c = b)) as [->|Hne].
    + rewrite lookup_insert_eq. by intros [= <-].
    + rewrite lookup_insert_ne by done. intros Hlt. specialize (Hn c (session t) Hne).
      specialize (N c t Hlt). lia.
  - intros c t. rewrite Ht. cbn. destruct (decide (c = b)) as [->|Hne].
    + rewrite lookup_insert_eq. by intros [= <-].
    + rewrite lookup_insert_ne by done. apply O.
Qed.
Lemma sane_spawn b s w :
  sane w -> tasks w !! b = None -> actors w !! s = None ->
  sane (set_actors (<[s := b]> (actors w)) (spawn_actor b s w)).
Proof.
  intros Hw Hb Ha. apply (sane_new b s w); try done.
  - intros s' c. cbn. intros [[-> ->]|[_ Hc]]%lookup_insert_Some; auto.
  - intros c Hc. by left.
  - pose proof (fresh_writers b s w Hw Hb) as Hz. unfold writers in *. cbn. rewrite lookup_insert_eq.
    rewrite (bool_decide_true (Some b = Some b)) by done. cbn. lia.
  - intros c s' Hc. unfold writers. cbn. destruct (decide (s' = s)) as [->|Hs].
    + rewrite lookup_insert_eq. rewrite bool_decide_false by congruence. cbn. lia.
    + by rewrite lookup_insert_ne.
Qed.
Lemma sane_oneshot b s w : sane w -> sane (build_oneshot_actor b s w).
Proof.
  intros Hw. unfold build_oneshot_actor. destruct (tasks w !! b) eqn:Hb; [done|].
  apply (sane_new b s w); try done.
  - intros s' c Hc. by left.
  - intros c. cbn. set_solver.
  - pose proof (fresh_writers b s w Hw Hb) as Hz. unfold writers in *. cbn.
    rewrite (bool_decide_true (b ∈ {[b]} ∪ held w)) by set_solver. cbn. lia.
  - intros c s' Hc. unfold writers. cbn. rewrite (bool_decide_ext (c ∈ {[b]} ∪ held w) (c ∈ held w)); [done|set_solver].
Qed.
Lemma sane_release b w : sane w -> sane (release_held b w).
Proof.
  intros Hw. unfold release_held. destruct (bool_decide_reflect (b ∈ held w)) as [Hb|]; [|done].
  apply (sane_task b pred (box_op Mailbox.OpDropSender) w); try done.
  - intros i x Hx. left. by exists i.
  - intros c Hc. by apply closing_some.
  - intros c. cbn. set_solver.
  - intros c t n _ Hn. unfold writers in *. cbn. destruct (decide (c = b)) as [->|Hc].
    + rewrite (bool_decide_true (b ∈ held w)) in Hn by done.
      rewrite (bool_decide_false (b ∈ held w ∖ {[b]})) by set_solver. cbn in *. lia.
    + rewrite (bool_decide_ext (c ∈ held w ∖ {[b]}) (c ∈ held w)); [done|set_solver].
Qed.
Lemma sane_closing b w :
  sane w -> is_Some (tasks w !! b) -> sane (set_closing (closing w ++ [b]) (clone_sender b w)).
Proof.
  intros Hw Hb. apply (sane_task b S (box_op Mailbox.OpClone) w); try done.
  - intros i x Hx. left. by exists i.
  - intros c. cbn. intros [Hc| ->%list_elem_of_singleton]%elem_of_app; [by apply closing_some|done].
  - intros c t n _ Hn. unfold writers in *. cbn. rewrite List.filter_app, length_app. cbn.
    destruct (decide (c = b)) as [->|Hc].
    + rewrite N.eqb_refl. cbn. lia.
    + destruct (N.eqb_spec c b); [done|]. cbn. lia.
Qed.
Lemma sane_shutdown w : sane w -> sane (shutdown_all w).
Proof.
  intros Hw. unfold shutdown_all.
  assert (Hbs : Forall (fun b => is_Some (tasks w !! b)) (map snd (map_to_list (actors w)))).
  { apply Forall_forall. intros b ([s c] & -> & Hin)%list_elem_of_fmap. apply elem_of_map_to_list in Hin.
    destruct (entry_ok _ Hw s c Hin) as (t & Ht & _). by exists t. }
  revert Hbs. generalize (map snd (map_to_list (actors w))). intros bs. revert w Hw.
  induction bs as [|b bs IH]; intros w Hw Hbs; cbn; [done|]. inversion Hbs as [|? ? Hb Hrest]; subst.
  apply IH; [by apply sane_closing|]. eapply Forall_impl; [exact Hrest|]. intros c Hc. by apply on_task_some.
Qed.
Lemma sane_shut_one i w : sane w -> sane (shut_one i w).
Proof.
  intros Hw. unfold shut_one. destruct (sends w !! i) eqn:Hi; [done|]. destruct (closing w) as [|b rest] eqn:Hc; [done|].
  assert (Hb : is_Some (tasks w !! b)) by (apply closing_some; [done|rewrite Hc; constructor]).
  apply (sane_task b id id w); try done.
  - intros j x. cbn. intros [[-> <-]|[_ Hx]]%lookup_insert_Some; [by right|]. left. by exists j.
  - intros c Hin. apply closing_some; [done|]. rewrite Hc. by constructor.
  - cbn. symmetry. apply alter_id. by intros.
  - intros c t n _ Hn. unfold writers in *. cbn. rewrite sends_to_insert by done. rewrite Hc in Hn. cbn in *.
    destruct (decide (c = b)) as [->|Hne]; [rewrite N.eqb_refl in * |destruct (N.eqb_spec c b); [done|]]; cbn in *; lia.
Qed.
Lemma sane_fields w w' :
  sane w -> actors w' = actors w -> tasks w' = tasks w -> sends w' = sends w -> closing w' = closing w ->
  held w' = held w -> sane w'.
Proof.
  intros [E S C H N O] Ha Ht Hs Hc Hh. split; rewrite ?Ha, ?Ht, ?Hs, ?Hc, ?Hh; try done.
  intros b t Hb. unfold writers. rewrite Ha, Hs, Hc, Hh. by apply N.
Qed.
Lemma sane_send i w : sane w -> sane (send i w).
Proof.
  intros Hw. unfold send. destruct (sends w !! i) as [[b m h]|] eqn:Hi; [|done].
  destruct (tasks w !! b) as [t|] eqn:Ht; [|destruct h; done].
  destruct h; cbn [Mailbox.spec_op]; destruct (Mailbox.hung_up (mailbox t)) eqn:Hu;
    try destruct (Nat.eqb (Mailbox.free (mailbox t)) 0); try done;
    by (eapply sane_sent; [done|exact Hi|exact Ht|..]).
Qed.
Lemma sane_drop_guard b w : sane w -> sane (drop_guard b w).
Proof.
  intros Hw. unfold drop_guard. destruct (tasks w !! b) as [t|] eqn:Ht; [|done].
  destruct (phase t) eqn:Hp; try done. apply sane_remove.
  apply (sane_task b id (set_phase Unguarded) w); try done.
  - intros t' Ht'. rewrite Ht in Ht'. injection Ht' as <-. unfold tame. cbn. rewrite Hp. done.
  - intros i x Hx. left. by exists i.
  - intros c Hc. by apply closing_some.
  - intros c t' n _ Hn. by destruct (decide (c = b)).
Qed.
Lemma entry_some w s b : sane w -> actors w !! s = Some b -> is_Some (tasks w !! b).
Proof. intros Hw Hs. destruct (entry_ok _ Hw s b Hs) as (t & Ht & _). by exists t. Qed.
#[local] Hint Resolve sane_begin sane_tame sane_release sane_oneshot sane_send sane_drop_guard sane_shutdown
  sane_shut_one tame_first_poll tame_take tame_panic tame_drop_receiver entry_some held_ok : supervisor.

Lemma sane_reap_one i w : sane w -> sane (reap_one i w).
Proof.
  intros Hw. unfold reap_one. destruct (sends w !! i) eqn:Hi; [done|]. destruct (reaping w) as [|s rest]; [done|].
  assert (Hr : sane (set_reaping rest w)) by by apply (sane_fields w).
  destruct (has_in_flight_background_subagents _ _); [done|].
  destruct (actors _ !! s) eqn:Hb; [|done]. apply sane_begin; [done|by eapply entry_some|done].
Qed.
Lemma sane_step e w : sane w -> sane (run_event e w).
Proof.
  intros Hw. destruct e as [i s m|i b s m|b s|i b m|b|i|b|b|b|b|b|cs|i| |i|p c j|p c|p|p h]; cbn;
    try (by apply (sane_fields w)); auto with supervisor.
  - unfold route. destruct (sends w !! i) eqn:Hi; [done|].
    destruct (actors w !! s) eqn:Ha; [eauto with supervisor|]. by apply (sane_fields w).
  - unfold route_or_spawn. destruct (sends w !! i) eqn:Hi; [done|].
    destruct (actors w !! s) eqn:Ha; [eauto with supervisor|]. destruct (tasks w !! b) eqn:Hb; [done|].
    apply sane_begin; [by apply sane_spawn| |done]. cbn. by rewrite lookup_insert_eq.
  - unfold send_held. destruct (sends w !! i) eqn:Hi; [done|].
    destruct (bool_decide_reflect (b ∈ held w)); [|done]. auto with supervisor.
  - by apply sane_reap_one.
Qed.
Lemma sane_run es w : sane w -> sane (run es w).
Proof. revert w. induction es as [|e es IH]; intros w Hw; cbn; [done|]. by apply IH, sane_step. Qed.

(** ** A parent with work out stays *)

Lemma take_next_perm (q rest : list AgentMessage) m : Mailbox.take_next q = Some (m, rest) -> q ≡ₚ m :: rest.
Proof.
  revert m rest. induction q as [|x q IH]; intros m rest; cbn; [done|].
  destruct (Mailbox.take_next q) as [[y r]|] eqn:E.
  - specialize (IH y r eq_refl). destruct (_ <=? _); intros [= <- <-]; [done|]. rewrite IH. apply Permutation_swap.
  - intros [= <- <-]. by apply Actor.take_next_none in E as ->.
Qed.

(** A step that neither ends the task nor puts a stop in its mailbox. *)
Definition gentle (f : Task -> Task) (t : Task) : Prop :=
  serving (phase t) = true -> Actor.ActorStop ∉ Mailbox.msgs (mailbox t) ->
  serving (phase (f t)) = true /\ Actor.ActorStop ∉ Mailbox.msgs (mailbox (f t)).

Lemma unstopped_task b c f w w' :
  unstopped b w -> tasks w' = tasks (on_task c f w) ->
  (forall t, c = b -> tasks w !! b = Some t -> gentle f t) ->
  (forall i x, sends w' !! i = Some x -> to x = b -> sends w !! i = Some x \/ msg x <> Actor.ActorStop) ->
  (b ∈ closing w' -> b ∈ closing w) -> unstopped b w'.
Proof.
  intros [(t & Ht & Hp & Hm) Hs Hc] Htk Hf Hss Hcc. split.
  - rewrite Htk. cbn. destruct (decide (c = b)) as [->|Hn].
    + rewrite lookup_alter_eq, Ht. cbn. destruct (Hf t eq_refl Ht Hp Hm). by eexists.
    + rewrite lookup_alter_ne by done. by exists t.
  - intros i x Hx Hto. destruct (Hss i x Hx Hto); [by eapply Hs|done].
  - auto.
Qed.
Lemma unstopped_same b w w' :
  unstopped b w -> tasks w' = tasks w -> sends w' = sends w -> closing w' = closing w -> unstopped b w'.
Proof. intros [T S C] Ht Hs Hc. split; by rewrite ?Ht, ?Hs, ?Hc. Qed.
Lemma unstopped_begin b i c m h w :
  (c = b -> m <> Actor.ActorStop) -> unstopped b w -> unstopped b (begin_send i c m h (clone_sender c w)).
Proof.
  intros Hm Hw. apply (unstopped_task b c (box_op Mailbox.OpClone) w); try done.
  intros j x. cbn. intros [[_ <-]|[_ Hx]]%lookup_insert_Some; cbn; auto.
Qed.
Lemma unstopped_new b c s w w' :
  tasks w !! c = None -> unstopped b w -> tasks w' = <[c := new_task s]> (tasks w) ->
  sends w' = sends w -> closing w' = closing w -> unstopped b w'.
Proof.
  intros Hc [(t & Ht & Hp) Hs Hcl] Hk Hss Hcc. split; rewrite ?Hss, ?Hcc; try done.
  exists t. rewrite Hk, lookup_insert_ne; [done|congruence].
Qed.
Lemma gentle_take t : Mailbox.senders (mailbox t) <> 0 -> gentle take_next_message t.
Proof.
  destruct t as [s ph a l]. intros Hs Hp Hm. unfold take_next_message. destruct ph; try done. cbn in *.
  unfold Mailbox.spec_take. destruct (Mailbox.take_next (Mailbox.msgs a)) as [[m rest]|] eqn:E; cbn.
  - apply take_next_perm in E. rewrite E, not_elem_of_cons in Hm. destruct Hm as [Hm Hr]. destruct m; by cbn.
  - destruct (Nat.eqb_spec (Mailbox.senders a) 0); by cbn.
Qed.
Lemma registered_writers p b t w :
  sane w -> actors w !! p = Some b -> tasks w !! b = Some t -> Mailbox.senders (mailbox t) <> 0.
Proof.
  intros Hw Ha Ht. destruct (entry_ok _ Hw p b Ha) as (t' & Ht' & He). rewrite Ht in Ht'. injection Ht' as <-.
  pose proof (counted _ Hw b t Ht) as Hc. rewrite He in Hc. unfold writers in Hc.
  rewrite bool_decide_true in Hc by done. cbn in Hc. lia.
Qed.
Lemma entry_unique w s s' b : sane w -> actors w !! s = Some b -> actors w !! s' = Some b -> s = s'.
Proof.
  intros Hw H1 H2. destruct (entry_ok _ Hw _ _ H1) as (t & Ht & <-), (entry_ok _ Hw _ _ H2) as (t' & Ht' & <-).
  congruence.
Qed.
Lemma unstopped_send b i w : unstopped b w -> unstopped b (send i w).
Proof.
  intros Hw. unfold send. destruct (sends w !! i) as [[c m h]|] eqn:Hi; [|done].
  destruct (tasks w !! c) as [t|] eqn:Ht; [|by destruct h].
  assert (Hsent : forall a box, Mailbox.msgs box = Mailbox.msgs (mailbox t) \/ Mailbox.msgs box = Mailbox.msgs (mailbox t) ++ [m] ->
    unstopped b (sent i c a box w)).
  { intros a box Hbox. apply (unstopped_task b c (fun t => box_op Mailbox.OpDropSender (set_mailbox box t)) w); try done.
    - cbn. by rewrite alter_alter_eq.
    - intros t' -> Ht'. rewrite Ht in Ht'. injection Ht' as <-. intros Hp Hm. split; [done|]. cbn.
      destruct Hbox as [->| ->]; [done|]. rewrite not_elem_of_app. split; [done|].
      rewrite list_elem_of_singleton. intros <-. by eapply (no_stop_sent _ _ Hw).
    - intros j x. cbn. intros [_ Hx]%lookup_delete_Some. by left. }
  destruct h; cbn [Mailbox.spec_op]; destruct (Mailbox.hung_up (mailbox t)) eqn:Hu;
    try destruct (Nat.eqb (Mailbox.free (mailbox t)) 0); try done; apply Hsent; cbn; auto.
Qed.

(** What the sweep and the teardown of other actors leave alone. *)
Lemma drop_guard_other p b c w :
  sane w -> owned p w -> actors w !! p = Some b -> unstopped b w ->
  actors (drop_guard c w) !! p = Some b /\ unstopped b (drop_guard c w).
Proof.
  intros Hw Ho Ha Hu. unfold drop_guard. destruct (tasks w !! c) as [t|] eqn:Ht; [|done].
  destruct (phase t) eqn:Hp; try done.
  assert (Hcb : c <> b).
  { intros ->. destruct (still_serving _ _ Hu) as (t' & Ht' & Hs & _). rewrite Ht in Ht'. injection Ht' as <-.
    by rewrite Hp in Hs. }
  assert (Hse : session t <> p).
  { intros <-. destruct Hcb. assert (actors w !! session t = Some c) by (apply Ho; exists t; by rewrite Hp). congruence. }
  assert (Hun : unstopped b (on_task c (set_phase Unguarded) w)).
  { apply (unstopped_task b c (set_phase Unguarded) w); try done. auto. }
  unfold remove. cbn [actors on_task set_tasks]. destruct (actors w !! session t) as [d|] eqn:Hd; [|done]. split.
  - cbn. by rewrite lookup_delete_ne.
  - apply (unstopped_task b d (box_op Mailbox.OpDropSender) (on_task c (set_phase Unguarded) w)); try done. auto.
Qed.
Lemma spawn_keeps p b c s w :
  actors w !! s = None -> actors w !! p = Some b -> tasks w !! c = None -> unstopped b w ->
  let w' := set_actors (<[s := c]> (actors w)) (spawn_actor c s w) in
  actors w' !! p = Some b /\ unstopped b w' /\ c <> b.
Proof.
  intros Hs Hp Hc Hu. cbn. split_and!.
  - rewrite lookup_insert_ne; [done|congruence].
  - by apply (unstopped_new b c s w).
  - intros ->. destruct (still_serving _ _ Hu) as (t & Ht & _). congruence.
Qed.
Lemma pinned_step p b e w :
  sane w -> owned p w -> routed_only p e -> calm p b e ->
  has_in_flight_background_subagents p (in_flight_background_subagents w) = true ->
  actors w !! p = Some b /\ unstopped b w ->
  actors (run_event e w) !! p = Some b /\ unstopped b (run_event e w).
Proof.
  intros Hw Ho Hr Hc Hj [Ha Hu].
  assert (Hbegin : forall i s c m h, actors w !! s = Some c -> (s = p -> m <> Actor.ActorStop) ->
    actors (begin_send i c m h (clone_sender c w)) !! p = Some b /\ unstopped b (begin_send i c m h (clone_sender c w))).
  { intros i s c m h Hs Hm. split; [done|]. apply unstopped_begin; [|done]. intros ->. apply Hm.
    by eapply entry_unique. }
  assert (Htask : forall c f, (forall t, c = b -> tasks w !! b = Some t -> gentle f t) ->
    actors (on_task c f w) !! p = Some b /\ unstopped b (on_task c f w)).
  { intros c f Hf. split; [done|]. apply (unstopped_task b c f w); auto. }
  destruct e as [i s m|i c s m|c s|i c m|c|i|c|c|c|c|c|cs|i| |i|q c j|q c|q|q h]; cbn in Hc, Hr |- *;
    try (split; [done|]; by apply (unstopped_same b w)).
  - unfold route. destruct (sends w !! i); [done|]. destruct (actors w !! s) eqn:Hs; [by eapply Hbegin|].
    split; [done|]. by apply (unstopped_same b w).
  - unfold route_or_spawn. destruct (sends w !! i); [done|]. destruct (actors w !! s) eqn:Hs; [by eapply Hbegin|].
    destruct (tasks w !! c) eqn:Hk; [done|]. destruct (spawn_keeps p b c s w) as (H1 & H2 & H3); try done.
    split; [done|]. by apply unstopped_begin.
  - unfold build_oneshot_actor. destruct (tasks w !! c) eqn:Hk; [done|]. split; [done|]. by apply (unstopped_new b c s w).
  - unfold send_held. destruct (sends w !! i); [done|]. destruct (bool_decide _); [|done]. split; [done|].
    by apply unstopped_begin.
  - unfold release_held. destruct (bool_decide _); [|done]. split; [done|].
    apply (unstopped_task b c (box_op Mailbox.OpDropSender) w); auto. done.
  - split; [|by apply unstopped_send]. unfold send. destruct (sends w !! i) as [[c m h]|]; [|done].
    destruct (tasks w !! c) as [t|], h; try done;
      destruct (Mailbox.spec_op _ _) as [a [?|[?|]|?|?|?|?|]]; done.
  - apply Htask. intros [s [] a l] _ _; by unfold gentle.
  - apply Htask. intros t -> Ht. apply gentle_take. by eapply registered_writers.
  - apply Htask. intros t -> _. done.
  - by apply drop_guard_other.
  - apply Htask. intros [s [] a l] _ _; by unfold gentle.
  - unfold reap_one. destruct (sends w !! i); [done|]. destruct (reaping w) as [|s rest]; [done|].
    assert (Hrest : actors (set_reaping rest w) !! p = Some b /\ unstopped b (set_reaping rest w)).
    { split; [done|]. by apply (unstopped_same b w). }
    cbn [in_flight_background_subagents set_reaping].
    destruct (has_in_flight_background_subagents s _) eqn:Hs; [done|].
    cbn [actors set_reaping]. destruct (actors w !! s) as [c|] eqn:Hd; [|done]. split; [done|].
    apply unstopped_begin; [|by destruct Hrest]. intros ->.
    assert (s = p) as -> by by eapply entry_unique. congruence.
  - unfold shut_one. destruct (sends w !! i); [done|]. destruct (closing w) as [|c rest] eqn:Hcl; [done|].
    split; [done|]. pose proof (not_closing _ _ Hu) as Hn. rewrite Hcl, not_elem_of_cons in Hn.
    apply (unstopped_task b c id w); try done.
    + cbn. symmetry. by apply alter_id.
    + intros j x. cbn. intros [[_ <-]|[_ Hx]]%lookup_insert_Some; cbn; [naive_solver|auto].
    + cbn. rewrite Hcl. by right.
Qed.
Lemma pinned_run p b es w :
  sane w -> owned p w -> Forall (routed_only p) es -> Forall (calm p b) es ->
  throughout (fun w => has_in_flight_background_subagents p (in_flight_background_subagents w) = true) es w ->
  actors w !! p = Some b /\ unstopped b w ->
  actors (run es w) !! p = Some b /\ unstopped b (run es w).
Proof.
  revert w. induction es as [|e es IH]; intros w Hw Ho Hr Hc Ht Hi; cbn; [done|].
  destruct Ht as [Hj Ht]. inversion Hr; inversion Hc; subst.
  apply IH; try done; [by apply sane_step|by apply owned_step|by apply pinned_step].
Qed.

Lemma route_delivers w p b t i m :
  sane w -> actors w !! p = Some b -> tasks w !! b = Some t -> serving (phase t) = true -> sends w !! i = None ->
  Mailbox.free (mailbox t) <> 0 -> answers (run [Route i p m; Send i] w) = answers w ++ [(i, Sent)].
Proof.
  intros Hw Ha Ht Hp Hi Hf. cbn. unfold route. rewrite Hi, Ha. unfold send. cbn.
  rewrite lookup_insert_eq, lookup_alter_eq, Ht. cbn. rewrite (open_until_gone _ Hw b t Ht) by (intros He; by rewrite He in Hp).
  destruct (Nat.eqb_spec (Mailbox.free (mailbox t)) 0); done.
Qed.

(** C20: A parent session with background work is not evicted under it.  Take a
    moment when its actor serves and nobody is about to stop it ([unstopped]: no
    stop is in its mailbox or on its way, and its senders are not being closed).
    As long as it has a job in flight, and nobody sends it [ActorStop], it does
    not panic and the process does not shut down, no sweep, message or departure
    of another actor takes it away: the same task is still registered and serving
    at the end, and a result routed to it is taken by its mailbox when there is
    room.  A sweep that found no job before the first one started is one that is
    about to stop it ([Sample.sweep_races_job]). *)
Theorem pinned_parent_survives (es es' : list event) (p : string) (b : TaskId)
    (Hr : Forall (routed_only p) (es ++ es')) (Hb : actors (run es boot) !! p = Some b)
    (Hu : unstopped b (run es boot)) (Hc : Forall (calm p b) es')
    (Hj : throughout (fun w => has_in_flight_background_subagents p (in_flight_background_subagents w) = true) es'
            (run es boot)) :
  let w := run es' (run es boot) in
  actors w !! p = Some b /\
  exists t, tasks w !! b = Some t /\ serving (phase t) = true /\
    forall i m, sends w !! i = None -> Mailbox.free (mailbox t) <> 0 ->
                answers (run [Route i p m; Send i] w) = answers w ++ [(i, Sent)].
Proof.
  cbn zeta. apply Forall_app in Hr as [Hr1 Hr2].
  assert (Hw : sane (run es boot)) by apply sane_run, sane_boot.
  destruct (pinned_run p b es' (run es boot)) as [Ha Hu']; try done; [by apply owned_run, owned_boot|].
  split; [done|]. destruct (still_serving _ _ Hu') as (t & Ht & Hp & _). exists t. split_and!; try done.
  intros i m Hi Hf. eapply route_delivers; try done. by apply sane_run.
Qed.

(** ** Samples *)

Module Sample.

Definition say (s : string) : AgentMessage := Actor.UserInput (Actor.mk_incoming [Message.Message.Text s] s 0).
Definition job : InFlightJob := mk_job "explore" "look around" "bg-1" 7.
Definition hello : list event := [RouteOrSpawn 1 1 "s" (say "hi"); Send 1; FirstPoll 1; Take 1].

Lemma one_actor_per_session_witness :
  tasks (run (hello ++ [Panic 1; DropGuard 1; RouteOrSpawn 2 2 "s" (say "again"); Send 2; DropReceiver 1]) boot) !! 2%N
  = Some (mk_task "s" Spawned (Mailbox.mk_spec [say "again"] (DEFAULT_CAPACITY - 1) 1 false) []) /\
  actors (run (hello ++ [Panic 1; DropGuard 1; RouteOrSpawn 2 2 "s" (say "again"); Send 2; DropReceiver 1]) boot) !! "s"
  = Some 2%N.
Proof.
  split; [vm_compute; reflexivity|]. apply (one_actor_per_session _ "s").
  - repeat constructor.
  - eexists. split; [vm_compute; reflexivity|]. done.
Defined.

Lemma pinned_parent_survives_witness :
  let w := run [ReapIdle ["s"]; ReapOne 2; Send 2; JobStarted "s" "c2" job; JobFinished "s" "c1"; ReapIdle ["s"]; ReapOne 3]
             (run (hello ++ [JobStarted "s" "c1" job]) boot) in
  answers (run [Route 4 "s" (say "result"); Send 4] w) = answers w ++ [(4%N, Sent)].
Proof.
  destruct (pinned_parent_survives (hello ++ [JobStarted "s" "c1" job])
    [ReapIdle ["s"]; ReapOne 2; Send 2; JobStarted "s" "c2" job; JobFinished "s" "c1"; ReapIdle ["s"]; ReapOne 3]
    "s" 1%N) as (_ & t & Ht & _ & Ha).
  - repeat constructor.
  - vm_compute. reflexivity.
  - split.
    + eexists. split; [vm_compute; reflexivity|]. split; [done|]. vm_compute. apply not_elem_of_nil.
    + intros i x Hx. vm_compute in Hx. by destruct i.
    + vm_compute. apply not_elem_of_nil.
  - repeat constructor; done.
  - repeat split; vm_compute; reflexivity.
  - apply Ha; [vm_compute; reflexivity|]. vm_compute in Ht. injection Ht as <-. vm_compute. lia.
Defined.

(** A message that arrives while the actor saves its state on the way out is
    reported sent and never taken. *)
Example stopping_actor_loses :
  let w := run (hello ++ [ReapIdle ["s"]; ReapOne 2; Send 2; Take 1; Route 3 "s" (say "lost"); Send 3; DropGuard 1;
                          DropReceiver 1]) boot in
  answers w = [(1%N, Sent); (2%N, Sent); (3%N, Sent)] /\ actors w !! "s" = None /\
  option_map served (tasks w !! 1%N) = Some [say "hi"; Actor.ActorStop] /\
  option_map (fun t => Mailbox.msgs (mailbox t)) (tasks w !! 1%N) = Some [say "lost"].
Proof. vm_compute. done. Qed.
(** Without any shutdown a route can fail: the sender was cloned before the
    actor left. *)
Example route_refused_by_reap :
  let w := run (hello ++ [ReapIdle ["s"]; ReapOne 2; Send 2; Take 1; RouteOrSpawn 3 9 "s" (say "late"); DropGuard 1;
                          DropReceiver 1; Send 3]) boot in
  answers w = [(1%N, Sent); (2%N, Sent); (3%N, Refused)] /\ closing w = [].
Proof. vm_compute. done. Qed.
(** A job that starts between the sweep's look and its stop does not keep the
    actor. *)
Example sweep_races_job :
  let w := run (hello ++ [ReapIdle ["s"]; ReapOne 2; JobStarted "s" "c1" job; Send 2; Take 1; DropGuard 1;
                          Route 3 "s" (say "result")]) boot in
  answers w = [(1%N, Sent); (2%N, Sent); (3%N, NoActor)] /\
  is_background_subagent_in_flight "s" "c1" (in_flight_background_subagents w) = true.
Proof. vm_compute. done. Qed.
End Sample.
End Supervisor.
