(* ===== verification/SpawnTool.v ===== *)
(** * The [spawn_subagent] tool ([crates/subagent/src/tool.rs], [dispatch.rs],
      [crates/model/src/spawn_protocol.rs], [external_agent.rs], [model_tier.rs])

    Before a subagent is dispatched its request is checked, the depth of the
    caller in the lineage is measured, and a slot is reserved under the root
    session, of which there are only so many.  When it ends, its result is put
    as text, with the road to its transcript.  The dispatch itself is in
    [Jobs]. *)

From S2P Require Import Prelude Effect Message Turn Wire Iteration Background.
Import Message.

Module SpawnTool.

Abbreviation SubagentExitStatus := Background.SubagentExitStatus.

(** ** The request *)

Inductive ModelTier := Lite | Balanced | Deep.
Definition parse_tier (label : string) : option ModelTier :=
  let l := Str.to_ascii_lowercase (Str.trim label) in
  if bool_decide (l ∈ ["lite"; "fast"]) then Some Lite
  else if bool_decide (l ∈ ["balanced"; "default"; "mid"]) then Some Balanced
  else if bool_decide (l ∈ ["deep"; "opus"; "max"]) then Some Deep
  else None.
Inductive ExternalAgentKind := Claude | Codex.
Definition kind_str (k : ExternalAgentKind) : string := match k with Claude => "claude" | Codex => "codex" end.
Definition parse_kind (s : string) : option ExternalAgentKind :=
  List.find (fun k => String.eqb (kind_str k) s) [Claude; Codex].
Inductive SubagentBackend := Baybo | External (k : ExternalAgentKind).
Definition BAYBO_BACKEND_TAG : string := "baybo".
Definition backend_label (b : SubagentBackend) : string :=
  match b with Baybo => BAYBO_BACKEND_TAG | External k => kind_str k end.
Inductive OnTimeout := OnBackground | OnKill.

Record SubagentProfile := mk_profile {
  name : string;
  default_tier : option ModelTier;
  tools : option (list string);
}.
Record SpawnParams := mk_params {
  p_subagent_type : string;
  p_description : string;
  p_prompt : string;
  p_backend : option string;
  p_model_tier : option string;
  p_background : bool;
  p_on_timeout : option string;
  p_resume_session_id : option string;
  p_group : option string;
}.
Record SubagentSpawnRequest := mk_request {
  subagent_type : string;
  tool_allowlist : option (list string);
  task_summary : string;
  prompt : string;
  model_tier : option ModelTier;
  background : bool;
  on_timeout : OnTimeout;
  fan_out_root : option string;
  backend : SubagentBackend;
  resume_session_id : option string;
  group : option string;
}.

(** [Debug] of a string: quoted, with its control characters, quotes and
    backslashes escaped; what Unicode calls unprintable is left as it is. *)
Definition hex_digit (n : N) : ascii := ascii_of_N (if (n <? 10)%N then n + 48 else n + 87).
Definition debug_char (c : ascii) : string :=
  let n := N_of_ascii c in
  if (n =? 34)%N then "\" +:+ dquote
  else if (n =? 92)%N then "\\"
  else if (n =? 9)%N then "\t"
  else if (n =? 10)%N then "\n"
  else if (n =? 13)%N then "\r"
  else if (n =? 0)%N then "\0"
  else if (n <? 16)%N then "\u{" +:+ String (hex_digit n) "}"
  else if (n <? 32)%N || (n =? 127)%N then "\u{" +:+ String (hex_digit (n / 16)) (String (hex_digit (n mod 16)) "}")
  else String c EmptyString.
Fixpoint debug_body (s : string) : string :=
  match s with EmptyString => EmptyString | String c s => debug_char c +:+ debug_body s end.
Definition str_debug (s : string) : string := (dquote +:+ debug_body s +:+ dquote)%string.

(** [map(str::trim).filter(|s| !s.is_empty())]. *)
Definition trimmed (o : option string) : option string :=
  s ← Str.trim <$> o; if String.eqb s "" then None else Some s.
Definition DEFAULT_MODEL_TIER : string := "default".
Definition all_names_sorted (registry : gmap string SubagentProfile) : list string :=
  merge_sort String.le (map (fun kv => name kv.2) (map_to_list registry)).

Definition parse_spawn_request (registry : gmap string SubagentProfile) (p : SpawnParams)
    : result SubagentSpawnRequest string :=
  if String.eqb (Str.trim (p_subagent_type p)) "" then Err "`subagent_type` must be a non-empty string"
  else
  match registry !! p_subagent_type p with
  | None =>
      let available := all_names_sorted registry in
      Err ("unknown subagent_type '" +:+ p_subagent_type p +:+ "'; available types: "
           +:+ (if bool_decide (available = []) then "<none registered>" else Wire.joined ", " available))%string
  | Some profile =>
      if String.eqb (Str.trim (p_description p)) "" then Err "`description` must be a non-empty 3-5 word task summary"
      else if String.eqb (Str.trim (p_prompt p)) "" then Err "`prompt` must be a non-empty self-contained brief"
      else
      let tier := match Str.trim <$> p_model_tier p with
                  | None => Ok (default_tier profile)
                  | Some label =>
                      if String.eqb label "" || String.eqb label DEFAULT_MODEL_TIER then Ok (default_tier profile)
                      else match parse_tier label with
                           | Some t => Ok (Some t)
                           | None => Err ("unknown model_tier '" +:+ label +:+ "'; expected lite|balanced|deep")%string
                           end
                  end in
      let backend := match Str.trim <$> p_backend p with
                     | None => Ok Baybo
                     | Some t =>
                         if String.eqb t "" || String.eqb t BAYBO_BACKEND_TAG then Ok Baybo
                         else match parse_kind t with
                              | Some k => Ok (External k)
                              | None => Err ("unknown backend " +:+ str_debug t)%string
                              end
                     end in
      let on_timeout := match Str.trim <$> p_on_timeout p with
                        | None => Ok OnBackground
                        | Some t =>
                            if String.eqb t "" || String.eqb t "background" then Ok OnBackground
                            else if String.eqb t "kill" then Ok OnKill
                            else Err ("unknown on_timeout " +:+ str_debug t +:+ "; expected background|kill")%string
                        end in
      match tier, backend, on_timeout with
      | Err e, _, _ | Ok _, Err e, _ | Ok _, Ok _, Err e => Err e
      | Ok tier, Ok backend, Ok on_timeout =>
          let group := trimmed (p_group p) in
          Ok (mk_request (name profile) (tools profile) (p_description p) (p_prompt p) tier
                (p_background p || is_some group) on_timeout None backend (trimmed (p_resume_session_id p)) group)
      end
  end.
Definition with_root (root : string) (r : SubagentSpawnRequest) : SubagentSpawnRequest :=
  mk_request (subagent_type r) (tool_allowlist r) (task_summary r) (prompt r) (model_tier r) (background r)
    (on_timeout r) (Some root) (backend r) (resume_session_id r) (group r).
(** The spawner scopes a cohort to the dispatching turn. *)
Definition with_cohort (turn_id : Turn.TurnId) (r : SubagentSpawnRequest) : SubagentSpawnRequest :=
  mk_request (subagent_type r) (tool_allowlist r) (task_summary r) (prompt r) (model_tier r) (background r)
    (on_timeout r) (fan_out_root r) (backend r) (resume_session_id r) (Iteration.cohort_key turn_id <$> group r).

(** ** Depth *)

(** What the gates and the spawner read of a session row. *)
Inductive LineageKind := SubagentLineage.
Record Lineage := mk_lineage { parent_session_id : string; lineage_kind : LineageKind }.
Inductive SubagentBackendTag := BayboTag | ExternalTag (k : ExternalAgentKind) (workspace_dir : string) (resume_key : option string).
Record SessionRow := mk_row {
  id : string;
  root_session_id : string;
  lineage : option Lineage;
  hidden : bool;
  subagent_backend : option SubagentBackendTag;
  row_subagent_type : option string;
}.

Definition MAX_LINEAGE_WALK_HOPS : nat := 128.
Section Lineage.
(** [SessionManager::get]. *)
Context (get : string -> result (option SessionRow) string).

Definition load_row (sid : string) : result SessionRow string :=
  match get sid with
  | Err e => Err ("load session for depth check: " +:+ e)%string
  | Ok None => Err ("lineage walk hit unknown session '" +:+ sid +:+ "' — store inconsistency")%string
  | Ok (Some row) => Ok row
  end.
(** The walk's loop, over the row it has at hand. *)
Fixpoint lineage_walk (hops : nat) (depth : N) (row : result SessionRow string) : result (option N) string :=
  match hops with
  | 0 => Ok None
  | S hops =>
      match row with
      | Err e => Err e
      | Ok row =>
          match lineage row with
          | None => Ok (Some depth)
          | Some link =>
              match hops with
              | 0 => Ok None
              | _ => lineage_walk hops (N.min (depth + 1) (2 ^ 32 - 1)) (load_row (parent_session_id link))
              end
          end
      end
  end.
Definition lineage_gate_inputs (parent : string) : result (N * string) string :=
  match load_row parent with
  | Err e => Err e
  | Ok row =>
      match lineage_walk MAX_LINEAGE_WALK_HOPS 0 (Ok row) with
      | Err e => Err e
      | Ok (Some depth) => Ok (depth, root_session_id row)
      | Ok None =>
          Err ("lineage walk exceeded " +:+ pretty MAX_LINEAGE_WALK_HOPS +:+ " hops starting at '" +:+ parent
               +:+ "'; possible cycle")%string
      end
  end.
End Lineage.

(** ** Fan-out ([FanOutLimiter]) *)

Abbreviation Counts := (gmap string N).
Definition u32_max : N := 2 ^ 32 - 1.
Definition try_reserve (root : string) (cap : N) (m : Counts) : Counts * result unit N :=
  if (cap =? 0)%N then (m, Err 0%N)
  else
    match m !! root with
    | Some current =>
        if (cap <=? current)%N then (m, Err current) else (<[root := N.min (current + 1) u32_max]> m, Ok tt)
    | None => (<[root := 1%N]> m, Ok tt)
    end.
Definition release (root : string) (m : Counts) : Counts :=
  match m !! root with
  | Some n => if (n - 1 =? 0)%N then delete root m else <[root := (n - 1)%N]> m
  | None => m
  end.
Definition in_flight (root : string) (m : Counts) : N := default 0%N (m !! root).

(** The gates of [execute], up to the spawner. *)
Inductive ToolError :=
| InvalidParams (reason : string)
| Execution (reason : string)
| SubagentDepthExceeded (current_depth cap : N)
| SubagentFanoutExceeded (current_count cap : N).
Section Gates.
Context (registry : gmap string SubagentProfile) (get : string -> result (option SessionRow) string).
Context (max_depth max_subagents_per_root : N).

Definition pass_gates (session_id : string) (params : SpawnParams) (m : Counts)
    : Counts * result SubagentSpawnRequest ToolError :=
  match parse_spawn_request registry params with
  | Err e => (m, Err (InvalidParams e))
  | Ok request =>
      match lineage_gate_inputs get session_id with
      | Err e => (m, Err (Execution e))
      | Ok (depth, root) =>
          if (max_depth <=? depth)%N then (m, Err (SubagentDepthExceeded depth max_depth))
          else
            match try_reserve root max_subagents_per_root m with
            | (m, Err current) => (m, Err (SubagentFanoutExceeded current max_subagents_per_root))
            | (m, Ok _) => (m, Ok (with_root root request))
            end
      end
  end.
End Gates.

(** ** The result *)

Record SubagentResult := mk_result {
  child_session_id : string;
  final_content : option (list ContentBlock);
  status : SubagentExitStatus;
}.
Definition failed (reason : string) : SubagentResult := mk_result "" None (Background.Failed reason).
Definition NO_FINAL_MESSAGE : string := "[subagent completed without producing a final message]".
Definition IDLE_TIMEOUT_NOTICE : string :=
  "[subagent idle timeout — its backend produced no output within the idle window]".
Definition FOREGROUND_WAIT_ELAPSED_NOTICE : string :=
  ("[subagent killed: it was still working when the foreground wait elapsed, and `on_timeout: " +:+ dquote +:+ "kill"
   +:+ dquote +:+ "` cancelled it before it wrote a final report. Re-run with `on_timeout: " +:+ dquote +:+ "background"
   +:+ dquote +:+ "` if it needs longer.]")%string.
Definition result_text (r : SubagentResult) : string :=
  match status r with
  | Background.Completed =>
      let text := match final_content r with Some blocks => Wire.extract_text blocks | None => "" end in
      if String.eqb text "" then NO_FINAL_MESSAGE else text
  | Background.Cancelled => "[subagent cancelled by parent before producing a result]"
  | Background.Failed reason => ("[subagent failed: " +:+ reason +:+ "]")%string
  | Background.Timeout => IDLE_TIMEOUT_NOTICE
  | Background.ForegroundWaitElapsed => FOREGROUND_WAIT_ELAPSED_NOTICE
  end.
Definition is_completed (s : SubagentExitStatus) : bool := match s with Background.Completed => true | _ => false end.
Definition transcript_tail (path : string) (r : SubagentResult) : option string :=
  if negb (is_completed (status r)) && negb (String.eqb (child_session_id r) "") then
    Some (newline +:+ "[whatever it did before stopping is in its transcript at " +:+ path
          +:+ " — `Read` that path rather than re-running it.]")%string
  else None.
Definition resume_tail (r : SubagentResult) : option string :=
  if is_completed (status r) && negb (String.eqb (child_session_id r) "") then
    Some (newline +:+ "[subagent_session_id: " +:+ child_session_id r +:+ "]")%string
  else None.
Definition to_tool_result_text (path : string) (r : SubagentResult) : string :=
  (result_text r +:+ match resume_tail r with Some t => t | None => default "" (transcript_tail path r) end)%string.
(** What the tool answers: the tail only for a call that was not asked for in
    the background. *)
Definition tool_text (root_dir : string) (asked_background : bool) (r : SubagentResult) : string :=
  if asked_background then result_text r
  else to_tool_result_text (Background.session_log_file root_dir (child_session_id r)) r.

(** [PendingBackgroundResult::subagent] and [::command]. *)
Definition pending_subagent (handle : string) (kind task_summary child text : string) (st : SubagentExitStatus)
    (group : option string) : Background.PendingBackgroundResult :=
  Background.mk_pending handle task_summary text st (Background.Subagent child kind) group.
Definition pending_command (handle command : string) (exit_code : Z) (output_path tail : string)
    (st : SubagentExitStatus) : Background.PendingBackgroundResult :=
  Background.mk_pending handle command tail st (Background.Command command exit_code output_path) None.

(** ** Resuming a child *)

Definition debug_id (s : string) : string := ("SessionId(" +:+ str_debug s +:+ ")")%string.
Definition tag_backend (t : SubagentBackendTag) : SubagentBackend :=
  match t with BayboTag => Baybo | ExternalTag k _ _ => External k end.
#[export] Instance kind_eq_dec : EqDecision ExternalAgentKind.
Proof. solve_decision. Defined.
#[export] Instance backend_eq_dec : EqDecision SubagentBackend.
Proof. solve_decision. Defined.
(** An external child without its key would start over under the old id. *)
Definition resume_key_check (resume_id : string) (stored : SubagentBackendTag) : result unit string :=
  match stored with
  | ExternalTag k _ None =>
      Err (resume_id +:+ "has no persisted " +:+ kind_str k
           +:+ " resume_key — the prior call never produced one. Spawn a fresh subagent instead.")%string
  | _ => Ok tt
  end.
Definition validate_resume_session (child : SessionRow) (parent : string) (b : SubagentBackend) (requested_type : string)
    : result unit string :=
  let resume_id := ("resume_session_id " +:+ debug_id (id child) +:+ " ")%string in
  if hidden child then Err (resume_id +:+ "was hidden — its conversation is no longer available")%string
  else
  match lineage child with
  | None => Err (resume_id +:+ "is not a subagent session")%string
  | Some l =>
      if negb (String.eqb (parent_session_id l) parent) then
        Err (resume_id +:+ "belongs to a different parent session")%string
      else
      match lineage_kind l with
      | SubagentLineage =>
          match subagent_backend child with
          | None =>
              Err (resume_id +:+ "has no recorded subagent_backend — either it's a pre-tag session that predates the durable backend field, or the row was created outside the spawn router. Refusing to resume.")%string
          | Some stored =>
              if negb (bool_decide (tag_backend stored = b)) then
                Err (resume_id +:+ "was created with backend=" +:+ backend_label (tag_backend stored)
                     +:+ "; cannot resume as backend=" +:+ backend_label b)%string
              else
              match row_subagent_type child with
              | Some stored_type =>
                  if negb (String.eqb stored_type requested_type) then
                    Err (resume_id +:+ "was spawned as subagent_type " +:+ str_debug stored_type
                         +:+ "; cannot resume it as " +:+ str_debug requested_type +:+ " (different profile)")%string
                  else resume_key_check resume_id stored
              | None => resume_key_check resume_id stored
              end
          end
      end
  end.

(** ** The depth that is measured *)

(** [n] links lead from [sid] to a session without lineage. *)
Inductive ancestors (get : string -> result (option SessionRow) string) : string -> nat -> Prop :=
| ancestors_root sid row : get sid = Ok (Some row) -> lineage row = None -> ancestors get sid 0
| ancestors_link sid row link n :
    get sid = Ok (Some row) -> lineage row = Some link -> ancestors get (parent_session_id link) n -> ancestors get sid (S n).

Section Depth.
Context (get : string -> result (option SessionRow) string).

Lemma load_row_ok sid row : load_row get sid = Ok row <-> get sid = Ok (Some row).
Proof. unfold load_row. destruct (get sid) as [[r|]|]; split; congruence. Qed.
Lemma walk_exact hops sid row depth d :
  (depth + N.of_nat hops <= 2 ^ 32 - 1)%N -> get sid = Ok (Some row) ->
  lineage_walk get hops depth (Ok row) = Ok (Some d) <->
  exists n, ancestors get sid n /\ n < hops /\ d = (depth + N.of_nat n)%N.
Proof.
  revert sid row depth. induction hops as [|hops IH]; intros sid row depth Hd Hg.
  - split; [done|]. intros (n & _ & Hn & _). lia.
  - cbn. destruct (lineage row) as [link|] eqn:Hl.
    + replace (N.min (depth + 1) (2 ^ 32 - 1)) with (depth + 1)%N by lia.
      destruct hops as [|hops].
      * split; [done|]. intros (n & Ha & Hn & _). assert (n = 0) as -> by lia.
        inversion Ha as [? row' Hg' Hl'|]; subst. congruence.
      * destruct (load_row get (parent_session_id link)) as [up|e] eqn:Hu.
        -- apply load_row_ok in Hu. rewrite (IH _ up) by (done || lia). split.
           ++ intros (n & Ha & Hn & ->). exists (S n). split_and!; [by econstructor|lia|lia].
           ++ intros (n & Ha & Hn & ->). inversion Ha as [? row' Hg' Hl'|? row' link' n' Hg' Hl' Ha']; subst; [congruence|].
              exists n'. assert (row' = row) as -> by congruence. assert (link' = link) as -> by congruence.
              split_and!; [done|lia|lia].
        -- split; [done|]. intros (n & Ha & _). inversion Ha as [? row' Hg' Hl'|? row' link' n' Hg' Hl' Ha']; subst; [congruence|].
           assert (link' = link) as -> by congruence.
           assert (Hx : exists r, get (parent_session_id link) = Ok (Some r)) by (inversion Ha'; eauto).
           destruct Hx as [r Hr]. apply load_row_ok in Hr. congruence.
    + split.
      * intros [= <-]. exists 0. split_and!; [by econstructor|lia|lia].
      * intros (n & Ha & _ & ->). inversion Ha; subst; [f_equal; f_equal; lia|congruence].
Qed.

(** The gate's depth is exact: it is answered, with the root of the caller's
    row, precisely when the caller's lineage reaches a session without one in
    fewer than 128 links, every row on the way being there, and it is the number
    of those links; a cycle or a longer chain is an error, never a hang. *)
Theorem lineage_depth_exact (parent root : string) (d : N) :
  lineage_gate_inputs get parent = Ok (d, root) <->
  exists row n, get parent = Ok (Some row) /\ root = root_session_id row /\
                ancestors get parent n /\ n < MAX_LINEAGE_WALK_HOPS /\ d = N.of_nat n.
Proof.
  unfold lineage_gate_inputs. destruct (load_row get parent) as [row|e] eqn:Hl.
  - apply load_row_ok in Hl.
    assert (Hw : forall d, lineage_walk get MAX_LINEAGE_WALK_HOPS 0 (Ok row) = Ok (Some d) <->
      exists n, ancestors get parent n /\ n < MAX_LINEAGE_WALK_HOPS /\ d = (0 + N.of_nat n)%N)
      by (intros d'; apply walk_exact; [unfold MAX_LINEAGE_WALK_HOPS; lia|done]).
    destruct (lineage_walk get MAX_LINEAGE_WALK_HOPS 0 (Ok row)) as [[d'|]|e].
    + split.
      * intros [= <- <-]. destruct (proj1 (Hw d') eq_refl) as (n & Ha & Hn & ->). exists row, n. auto.
      * intros (row' & n & Hg & -> & Ha & Hn & ->). assert (row' = row) as -> by congruence.
        assert (Hx : @Ok (option N) string (Some d') = Ok (Some (N.of_nat n))) by (apply Hw; by exists n).
        by injection Hx as ->.
    + split; [done|]. intros (row' & n & _ & _ & Ha & Hn & ->).
      assert (Hx : @Ok (option N) string None = Ok (Some (N.of_nat n))) by (apply Hw; by exists n). done.
    + split; [done|]. intros (row' & n & _ & _ & Ha & Hn & ->).
      assert (Hx : @Err (option N) string e = Ok (Some (N.of_nat n))) by (apply Hw; by exists n). done.
  - split; [done|]. intros (row & n & Hg & _). apply load_row_ok in Hg. congruence.
Qed.
End Depth.

(** ** Samples *)

Module Sample.
(** A cycle is an error, a chain of two has depth two. *)
Definition up (p : string) : option Lineage := Some (mk_lineage p SubagentLineage).
Definition ring (sid : string) : result (option SessionRow) string := Ok (Some (mk_row sid "r" (up sid) false None None)).
Definition chain (sid : string) : result (option SessionRow) string :=
  Ok (if String.eqb sid "c" then Some (mk_row "c" "r" (up "b") false None None)
      else if String.eqb sid "b" then Some (mk_row "b" "r" (up "r") false None None)
      else if String.eqb sid "r" then Some (mk_row "r" "r" None false None None) else None).
Example chain_depth : lineage_gate_inputs chain "c" = Ok (2%N, "r").
Proof. reflexivity. Qed.
Example ring_fails :
  lineage_gate_inputs ring "x" = Err "lineage walk exceeded 128 hops starting at 'x'; possible cycle".
Proof. vm_compute. reflexivity. Qed.
Example bad_tier :
  parse_spawn_request {["explore" := mk_profile "explore" None None]}
    (mk_params "explore" "d" "p" None (Some " Huge ") false None None None)
  = Err "unknown model_tier 'Huge'; expected lite|balanced|deep".
Proof. vm_compute. reflexivity. Qed.
End Sample.
End SpawnTool.
