(* ===== verification/Jobs.v ===== *)
(** * Dispatch and escort of background jobs
      ([crates/agent/src/runtime/subagent_spawner.rs], [background_jobs.rs],
      [handle_stop] of [crates/agent/src/actor/router/user_input.rs])

    A subagent's dispatch loads the parent, finds or makes the child, and then
    either answers at once and works in the background, or is waited for, and
    turned to the background when the wait gets long.  A background job is in the
    supervisor's registry from its dispatch until its escort has carried its
    result to the parent; taking it out of there ([/stop], [JobStop]) is what
    silences it.  Between two awaits of one job the others run: the file is a
    step per await.  What a child does is an answer of the world. *)

From S2P Require Import Prelude Effect Message Turn Background Supervisor SpawnTool.
Import Message Supervisor.Supervisor SpawnTool.

Module Jobs.

Abbreviation PendingBackgroundResult := Background.PendingBackgroundResult.

(** ** Jobs *)

Inductive CommandOutcome := Exited (code : Z) | Stopped | Shutdown.
Inductive Spec :=
(** A spawn request, whether its turn may create background work. *)
| Dispatch (request : SubagentSpawnRequest) (background_eligible : bool)
| Detached (command stdout_path : string).
Inductive Pc :=
| Loading
| Resolving
| Acking
| Feeding
| FeedingDetached
| Waiting
| Blocking
| Draining (st : SubagentExitStatus)
| Converting
| Working
| Escorting (r : SubagentResult)
| Running
| Flushing (o : CommandOutcome)
| CommandEscort (o : CommandOutcome)
| ReadingTail (o : CommandOutcome)
| Routing (pending : PendingBackgroundResult) (key : string)
| Clearing (key : string)
(** The call's future was dropped; whether its job was registered by then. *)
| Abandoned (registered : bool)
(** At its end, whether its entry is still there under another key. *)
| Over (left_behind : bool).
Record Proc := mk_proc {
  spec : Spec;
  parent : string;
  child : string;
  job_handle : string;
  token : Token;
  (** The member's cohort; a converted job has none. *)
  cohort : option string;
  pc : Pc;
}.
Definition set_pc (c : Pc) (p : Proc) : Proc := mk_proc (spec p) (parent p) (child p) (job_handle p) (token p) (cohort p) c.
Definition set_child (c : string) (t : Token) (p : Proc) : Proc :=
  mk_proc (spec p) (parent p) c (job_handle p) t (cohort p) (pc p).
Definition set_handle (h : string) (g : option string) (p : Proc) : Proc :=
  mk_proc (spec p) (parent p) (child p) h (token p) g (pc p).

Inductive Reply := Refusal (e : ToolError) | Report (r : SubagentResult).
Record World := mk_world {
  counts : Counts;
  jobs : InFlight;
  cancelled : gset Token;
  shutting_down : bool;
  procs : gmap N Proc;
  (** What each call was answered, and what each job sent to its parent, with
      whether the parent's actor took it. *)
  replies : list (N * Reply);
  reports : list (N * PendingBackgroundResult * bool);
  (** The session ids and handles given out; a new one is none of these. *)
  used : gset string;
}.
Definition set_counts (c : Counts) (w : World) : World :=
  mk_world c (jobs w) (cancelled w) (shutting_down w) (procs w) (replies w) (reports w) (used w).
Definition set_jobs (m : InFlight) (w : World) : World :=
  mk_world (counts w) m (cancelled w) (shutting_down w) (procs w) (replies w) (reports w) (used w).
Definition cancel (ts : gset Token) (w : World) : World :=
  mk_world (counts w) (jobs w) (ts ∪ cancelled w) (shutting_down w) (procs w) (replies w) (reports w) (used w).
Definition set_shutdown (w : World) : World :=
  mk_world (counts w) (jobs w) (cancelled w) true (procs w) (replies w) (reports w) (used w).
Definition put_proc (i : N) (p : Proc) (w : World) : World :=
  mk_world (counts w) (jobs w) (cancelled w) (shutting_down w) (<[i := p]> (procs w)) (replies w) (reports w) (used w).
Definition reply (i : N) (r : Reply) (w : World) : World :=
  mk_world (counts w) (jobs w) (cancelled w) (shutting_down w) (procs w) (replies w ++ [(i, r)]) (reports w) (used w).
Definition report (i : N) (r : PendingBackgroundResult) (taken : bool) (w : World) : World :=
  mk_world (counts w) (jobs w) (cancelled w) (shutting_down w) (procs w) (replies w) (reports w ++ [(i, r, taken)]) (used w).
Definition use (n : string) (w : World) : World :=
  mk_world (counts w) (jobs w) (cancelled w) (shutting_down w) (procs w) (replies w) (reports w) ({[n]} ∪ used w).

(** *** Shared steps *)

(** [release_reserved_slot]. *)
Definition slot_root (s : Spec) : option string :=
  match s with Dispatch r _ => fan_out_root r | Detached _ _ => None end.
Definition release_reserved_slot (p : Proc) (w : World) : World :=
  match slot_root (spec p) with Some root => set_counts (release root (counts w)) w | None => w end.
(** The call is answered, its slot goes, it is over. *)
Definition settle (i : N) (p : Proc) (r : SubagentResult) (w : World) : World :=
  release_reserved_slot p (reply i (Report r) (put_proc i (set_pc (Over false) p) w)).
Definition job_of (p : Proc) : InFlightJob :=
  match spec p with
  | Dispatch r _ => mk_job (subagent_type r) (task_summary r) (job_handle p) (token p)
  | Detached command _ => mk_job "command" command (job_handle p) (token p)
  end.
Definition note_started (p : Proc) (w : World) : World :=
  set_jobs (note_background_subagent_started (parent p) (child p) (job_of p) (jobs w)) w.

Definition BACKGROUND_DISPATCH_ACK_PREFIX : string := "[background subagent dispatched]".
Definition BACKGROUND_DISPATCH_YIELD_GUIDANCE : string :=
  "It runs in the background now. END YOUR TURN unless you have other independent work to do right now — do NOT sleep and do NOT poll JobList to wait for it. The runtime re-invokes you with its result prepended to a fresh turn once it finishes; that result can ONLY arrive after this turn ends, so waiting here cannot surface it and only delays it.".
(** Seconds. *)
Definition SUBAGENT_FOREGROUND_WAIT : N := 120.
Definition ack_body (p : Proc) (r : SubagentSpawnRequest) : string :=
  (newline +:+ "- handle: " +:+ job_handle p +:+ newline +:+ "- subagent_type: " +:+ subagent_type r +:+ newline
   +:+ "- child_session: " +:+ child p +:+ newline +:+ newline +:+ BACKGROUND_DISPATCH_YIELD_GUIDANCE)%string.
Definition dispatch_ack (p : Proc) (r : SubagentSpawnRequest) : SubagentResult :=
  mk_result (child p) (Some [Text (BACKGROUND_DISPATCH_ACK_PREFIX +:+ ack_body p r)%string]) Background.Completed.
(** An empty child: a converted job cannot be resumed yet. *)
Definition conversion_ack (p : Proc) (r : SubagentSpawnRequest) : SubagentResult :=
  mk_result "" (Some [Text ("[foreground subagent exceeded its " +:+ pretty SUBAGENT_FOREGROUND_WAIT
    +:+ "s foreground wait — converted to background]" +:+ ack_body p r)%string]) Background.Completed.

Section Machine.
Context (registry : gmap string SubagentProfile) (max_depth max_subagents_per_root : N).
(** The external agents found at boot. *)
Context (external_agents : ExternalAgentKind -> bool).

(** *** The call ([SpawnSubagentTool::execute], [handle_subagent_spawn]) *)

(** [get] is the session store as the call sees it. *)
Definition execute (i : N) (get : string -> result (option SessionRow) string) (session_id : string) (turn_id : Turn.TurnId) (eligible : bool) (params : SpawnParams)
    (w : World) : World :=
  match procs w !! i with
  | Some _ => w
  | None =>
      match pass_gates registry get max_depth max_subagents_per_root session_id params (counts w) with
      | (_, Err e) => reply i (Refusal e) w
      | (m, Ok r) =>
          let r := with_cohort turn_id r in
          put_proc i (mk_proc (Dispatch r eligible) session_id "" "" 0 (group r) Loading) (set_counts m w)
      end
  end.
Definition unregistered (k : ExternalAgentKind) : string :=
  ("external agent " +:+ (match k with Claude => "Claude" | Codex => "Codex" end) +:+ " is not registered: no `"
   +:+ kind_str k +:+ "` binary was found on this host's PATH at startup, or it is disabled in `external_agents."
   +:+ kind_str k +:+ ".enabled`. Install it (restart baybo if you just did) or use backend='baybo'. `baybo external-agent status` re-probes and reports the reason.")%string.
(** The parent row is loaded only to be there; [r] is the store's answer. *)
Definition loaded (i : N) (found : result bool string) (w : World) : World :=
  match procs w !! i with
  | Some p =>
      match pc p, spec p with
      | Loading, Dispatch req _ =>
          match found with
          | Err e => settle i p (failed ("load parent session: " +:+ e)%string) w
          | Ok false => settle i p (failed ("parent session " +:+ parent p +:+ " not found")%string) w
          | Ok true =>
              match backend req with
              | External k =>
                  if external_agents k then put_proc i (set_pc Resolving p) w
                  else settle i p (failed (unregistered k)) w
              | Baybo => put_proc i (set_pc Resolving p) w
              end
          end
      | _, _ => w
      end
  | None => w
  end.

(** *** The child *)

Inductive Resolution :=
| Fetched (r : result (option SessionRow) string)
| Created (r : result string string).
Definition resolve_child_session (p : Proc) (req : SubagentSpawnRequest) (a : Resolution) : result string string :=
  match resume_session_id req, a with
  | Some rid, Fetched (Ok (Some row)) =>
      match validate_resume_session row (parent p) (backend req) (subagent_type req) with
      | Ok _ => Ok rid
      | Err e => Err e
      end
  | Some rid, Fetched (Ok None) => Err ("resume_session_id " +:+ debug_id rid +:+ " not found")%string
  | Some rid, Fetched (Err e) => Err ("resume_session_id load failed: " +:+ e)%string
  | None, Created r => r
  | _, _ => Err "no such answer"
  end.
(** An answer is to the question asked, a new child has a new id, and no session
    has the empty one. *)
Definition fits (req : SubagentSpawnRequest) (a : Resolution) (h : string) (w : World) : bool :=
  bool_decide (h ∉ used w) &&
  match resume_session_id req, a with
  | Some rid, Fetched (Ok (Some row)) =>
      String.eqb (id row) rid && negb (String.eqb rid h) && negb (String.eqb rid "")
  | Some _, Fetched _ => true
  | None, Created (Ok c) => bool_decide (c ∉ used w) && negb (String.eqb c h)
  | None, Created (Err _) => true
  | _, _ => false
  end.
Definition background_run (req : SubagentSpawnRequest) (eligible : bool) : bool := background req && eligible.
Definition foreground_pc (eligible : bool) : Pc := if eligible then Waiting else Blocking.
(** [h] is the handle [new_background_handle] would give, [t] the child's
    token. *)
Definition resolved (i : N) (a : Resolution) (h : string) (t : Token) (w : World) : World :=
  match procs w !! i with
  | Some p =>
      match pc p, spec p with
      | Resolving, Dispatch req eligible =>
          if negb (fits req a h w) then w
          else
          match resolve_child_session p req a with
          | Err e => settle i p (failed e) w
          | Ok c =>
              let p := set_child c t p in
              let w := use c w in
              if background_run req eligible then
                let p := set_handle h (cohort p) p in
                note_started p (reply i (Report (dispatch_ack p req)) (put_proc i (set_pc Acking p) (use h w)))
              else
                match backend req with
                | Baybo => put_proc i (set_pc Feeding p) w
                | External _ => put_proc i (set_pc (foreground_pc eligible) p) w
                end
          end
      | _, _ => w
      end
  | None => w
  end.
(** The parent's row is touched, whatever the store says. *)
Definition touched (i : N) (w : World) : World :=
  match procs w !! i with
  | Some p =>
      match pc p, spec p with
      | Acking, Dispatch req _ =>
          put_proc i (set_pc (match backend req with Baybo => FeedingDetached | External _ => Working end) p) w
      | Converting, _ => put_proc i (set_pc Working p) w
      | _, _ => w
      end
  | None => w
  end.
Definition fed (i : N) (sent : result unit string) (w : World) : World :=
  match procs w !! i with
  | Some p =>
      match pc p, spec p with
      | Feeding, Dispatch _ eligible =>
          match sent with
          | Ok _ => put_proc i (set_pc (foreground_pc eligible) p) w
          | Err e => settle i p (failed ("dispatch child input: " +:+ e)%string) w
          end
      | FeedingDetached, _ =>
          match sent with
          | Ok _ => put_proc i (set_pc Working p) w
          | Err e => put_proc i (set_pc (Escorting (failed ("dispatch child input: " +:+ e)%string)) p) w
          end
      | _, _ => w
      end
  | None => w
  end.
(** The agent loop drops the calls of a cancelled batch where they are. *)
Definition dropped (i : N) (w : World) : World :=
  match procs w !! i with
  | Some p =>
      match pc p with
      | Loading | Resolving | Feeding => put_proc i (set_pc (Abandoned false) p) w
      | Acking => put_proc i (set_pc (Abandoned true) p) w
      | _ => w
      end
  | None => w
  end.

(** *** The foreground wait ([run_foreground_job]) *)

(** The child's end, as the world reports it. *)
Definition terminal (i : N) (content : option (list ContentBlock)) (st : SubagentExitStatus) (w : World) : World :=
  match procs w !! i with
  | Some p =>
      match pc p with
      | Waiting | Blocking => settle i p (mk_result (child p) content st) w
      | Draining st' => settle i p (mk_result (child p) None st') w
      | Working => put_proc i (set_pc (Escorting (mk_result (child p) content st)) p) w
      | _ => w
      end
  | None => w
  end.
Definition parent_cancelled (i : N) (w : World) : World :=
  match procs w !! i with
  | Some p =>
      match pc p with
      | Waiting => cancel {[token p]} (put_proc i (set_pc (Draining Background.Cancelled) p) w)
      | _ => w
      end
  | None => w
  end.
Definition wait_elapsed (i : N) (h : string) (w : World) : World :=
  match procs w !! i with
  | Some p =>
      match pc p, spec p with
      | Waiting, Dispatch req _ =>
          match on_timeout req with
          | OnBackground =>
              if bool_decide (h ∈ used w) then w
              else
                let p := set_handle h None p in
                note_started p (reply i (Report (conversion_ack p req)) (put_proc i (set_pc Converting p) (use h w)))
          | OnKill => cancel {[token p]} (put_proc i (set_pc (Draining Background.ForegroundWaitElapsed) p) w)
          end
      | _, _ => w
      end
  | None => w
  end.

(** *** Detached commands ([BackgroundJobManager], [escort_command]) *)

Definition detach_command (i : N) (session_id h command stdout_path : string) (t : Token) (w : World) : World :=
  match procs w !! i with
  | Some _ => w
  | None =>
      if bool_decide (h ∈ used w) then w
      else
        let p := mk_proc (Detached command stdout_path) session_id h h t None Running in
        note_started p (put_proc i p (use h w))
  end.
(** A poll of the biased wait: the shutdown, the stop, the child's exit. *)
Definition command_polled (i : N) (exit : option Z) (w : World) : World :=
  match procs w !! i with
  | Some p =>
      match pc p with
      | Running =>
          if shutting_down w then put_proc i (set_pc (Flushing Shutdown) p) w
          else if bool_decide (token p ∈ cancelled w) then put_proc i (set_pc (Flushing Stopped) p) w
          else match exit with Some code => put_proc i (set_pc (Flushing (Exited code)) p) w | None => w end
      | _ => w
      end
  | None => w
  end.
Definition clear_marker (p : Proc) (key : string) (w : World) : World :=
  set_jobs (note_background_subagent_finished (parent p) key (jobs w)) w.
Definition flushed (i : N) (w : World) : World :=
  match procs w !! i with
  | Some p =>
      match pc p, spec p with
      | Flushing o, Detached _ _ =>
          if match o with Shutdown => true | _ => shutting_down w end
          then clear_marker p (child p) (put_proc i (set_pc (Over false) p) w)
          else put_proc i (set_pc (CommandEscort o) p) w
      | _, _ => w
      end
  | None => w
  end.
Definition exit_status (code : Z) : SubagentExitStatus :=
  if (code =? 0)%Z then Background.Completed else Background.Failed ("exit code " +:+ pretty code)%string.
Definition tail_read (i : N) (tail : string) (w : World) : World :=
  match procs w !! i with
  | Some p =>
      match pc p, spec p with
      | ReadingTail o, Detached command path =>
          match o with
          | Shutdown => put_proc i (set_pc (Over true) p) w
          | _ =>
              let code := match o with Exited c => c | _ => (-1)%Z end in
              put_proc i (set_pc (Routing (pending_command (job_handle p) command code path tail (exit_status code))
                                    (child p)) p) w
          end
      | _, _ => w
      end
  | None => w
  end.

(** *** Escorts ([escort_background_terminal], the end of [escort_command]) *)

Definition peek (i : N) (w : World) : World :=
  match procs w !! i with
  | Some p =>
      match pc p, spec p with
      | Escorting r, Dispatch req _ =>
          let key := child_session_id r in
          if is_background_subagent_in_flight (parent p) key (jobs w) then
            put_proc i (set_pc (Routing (pending_subagent (job_handle p) (subagent_type req) (task_summary req) key
                                           (result_text r) (status r) (cohort p)) key) p) w
          else put_proc i (set_pc (Clearing key) p) w
      | CommandEscort o, _ =>
          put_proc i (set_pc (if is_background_subagent_in_flight (parent p) (child p) (jobs w) then ReadingTail o
                              else Clearing (child p)) p) w
      | _, _ => w
      end
  | None => w
  end.
(** What [route] said. *)
Definition routed (i : N) (taken : bool) (w : World) : World :=
  match procs w !! i with
  | Some p =>
      match pc p with
      | Routing pending key => report i pending taken (put_proc i (set_pc (Clearing key) p) w)
      | _ => w
      end
  | None => w
  end.
(** The marker goes, then the slot. *)
Definition cleared (i : N) (w : World) : World :=
  match procs w !! i with
  | Some p =>
      match pc p with
      | Clearing key =>
          release_reserved_slot p
            (clear_marker p key (put_proc i (set_pc (Over (negb (String.eqb key (child p)))) p) w))
      | _ => w
      end
  | None => w
  end.

(** *** Stops *)

(** The registry is drained first; the tokens follow, after calls to the store
    that change nothing here. *)
Definition handle_stop (session_id : string) (w : World) : World :=
  let (m, drained) := take_in_flight_background_subagents session_id (jobs w) in
  cancel (list_to_set (map (fun kv => cancel_token kv.2) drained)) (set_jobs m w).
Definition job_stop (session_id h : string) (w : World) : World :=
  match cancel_in_flight_background session_id h (jobs w) with
  | (m, Some info) => cancel {[cancel_token info]} (set_jobs m w)
  | (m, None) => set_jobs m w
  end.

(** *** Histories *)
Inductive event :=
| Execute (i : N) (get : string -> result (option SessionRow) string) (session_id : string) (turn_id : Turn.TurnId) (eligible : bool) (params : SpawnParams)
| Loaded (i : N) (found : result bool string)
| Resolved (i : N) (a : Resolution) (h : string) (t : Token)
| Touched (i : N)
| Fed (i : N) (sent : result unit string)
| Dropped (i : N)
| Terminal (i : N) (content : option (list ContentBlock)) (st : SubagentExitStatus)
| ParentCancelled (i : N)
| WaitElapsed (i : N) (h : string)
| DetachCommand (i : N) (session_id h command stdout_path : string) (t : Token)
| CommandPolled (i : N) (exit : option Z)
| Flushed (i : N)
| TailRead (i : N) (tail : string)
| Peek (i : N)
| Routed (i : N) (taken : bool)
| Cleared (i : N)
| Stop (session_id : string)
| StopJob (session_id h : string)
| ShuttingDown.
Definition run_event (e : event) (w : World) : World :=
  match e with
  | Execute i get s t b p => execute i get s t b p w
  | Loaded i r => loaded i r w
  | Resolved i a h t => resolved i a h t w
  | Touched i => touched i w
  | Fed i r => fed i r w
  | Dropped i => dropped i w
  | Terminal i c st => terminal i c st w
  | ParentCancelled i => parent_cancelled i w
  | WaitElapsed i h => wait_elapsed i h w
  | DetachCommand i s h c o t => detach_command i s h c o t w
  | CommandPolled i x => command_polled i x w
  | Flushed i => flushed i w
  | TailRead i t => tail_read i t w
  | Peek i => peek i w
  | Routed i b => routed i b w
  | Cleared i => cleared i w
  | Stop s => handle_stop s w
  | StopJob s h => job_stop s h w
  | ShuttingDown => set_shutdown w
  end.
Fixpoint run (es : list event) (w : World) : World :=
  match es with [] => w | e :: es => run es (run_event e w) end.
(** The empty id names no session. *)
Definition boot : World := mk_world ∅ ∅ ∅ false ∅ [] [] {[""]}.
End Machine.

(** ** What the slots account for *)

Definition is_over (c : Pc) : bool := match c with Over _ => true | _ => false end.
Definition holds (root : string) (p : Proc) : Prop := slot_root (spec p) = Some root /\ is_over (pc p) = false.
#[export] Instance holds_dec root p : Decision (holds root p).
Proof. unfold holds. apply _. Defined.
Definition holders (root : string) (ps : gmap N Proc) : nat := size (filter (fun kv : N * Proc => holds root kv.2) ps).
Definition counted (root : string) (w : World) : Prop :=
  counts w !! root = match holders root (procs w) with 0 => None | n => Some (N.of_nat n) end.

(** ** What a job's registry entry means *)

Definition marker (session_id key : string) (m : InFlight) : option InFlightJob := m !! session_id ≫= lookup key.

(** Where a job stands: no child yet or over; a child, but no entry; before its
    escort looks for the entry; the report on its way; about to take the entry
    out; gone, with the entry left. *)
Inductive Stage := Idle | Fore | Pre | Post | Clear | Left.
#[export] Instance stage_eq_dec : EqDecision Stage.
Proof. solve_decision. Defined.
Definition stage (c : Pc) : Stage :=
  match c with
  | Loading | Resolving | Abandoned false | Over false => Idle
  | Feeding | Waiting | Blocking | Draining _ => Fore
  | Acking | FeedingDetached | Converting | Working | Escorting _ | Running | Flushing _ | CommandEscort _ => Pre
  | ReadingTail _ | Routing _ _ => Post
  | Clearing _ => Clear
  | Abandoned true | Over true => Left
  end.
Definition live (p : Proc) : Prop := stage (pc p) <> Idle.
Definition marked (p : Proc) : Prop := stage (pc p) <> Idle /\ stage (pc p) <> Fore.
(** A result is under the job's own key, or under none. *)
Definition keyed (p : Proc) : Prop :=
  match pc p with
  | Escorting r => child_session_id r = child p \/ child_session_id r = ""
  | Routing _ key | Clearing key => key = child p \/ key = ""
  | _ => True
  end.
Definition clears (c : Pc) (key : string) : Prop := c = Clearing key.
(** A move of a job that touches nothing else. *)
Definition advance (p : Proc) (c : Pc) (m : InFlight) : Prop :=
  match pc p with
  | Loading | Resolving => stage c = Idle
  | Feeding | Waiting | Blocking | Draining _ => stage c = Fore \/ stage c = Idle
  | Acking | FeedingDetached | Converting | Working | Escorting _ | Running | Flushing _ | CommandEscort _ =>
      stage c = Pre \/ stage c = Left
      \/ (stage c = Post /\ is_Some (marker (parent p) (child p) m))
      \/ (stage c = Clear /\ (clears c (child p) -> marker (parent p) (child p) m = None))
  | ReadingTail _ | Routing _ _ => stage c = Post \/ stage c = Left
  | _ => False
  end.
(** Nobody else is on that child. *)
Definition alone (i : N) (session_id c : string) (w : World) : Prop :=
  forall j q, j <> i -> procs w !! j = Some q -> live q -> ~ (parent q = session_id /\ child q = c).

(** The steps, as the registry sees them. *)
Inductive step (e : event) (w w' : World) : Prop :=
| step_idle : jobs w' = jobs w -> procs w' = procs w -> reports w' = reports w -> used w' = used w -> step e w w'
| step_new i p :
    procs w !! i = None -> pc p = Loading -> procs w' = <[i := p]> (procs w) ->
    jobs w' = jobs w -> reports w' = reports w -> used w' = used w -> step e w w'
| step_move i p c :
    procs w !! i = Some p -> advance p c (jobs w) -> keyed (set_pc c p) -> procs w' = <[i := set_pc c p]> (procs w) ->
    jobs w' = jobs w -> reports w' = reports w -> used w' = used w -> step e w w'
| step_bind i p p' :
    procs w !! i = Some p -> pc p = Resolving -> stage (pc p') = Fore -> child p' <> "" -> alone i (parent p') (child p') w ->
    procs w' = <[i := p']> (procs w) -> jobs w' = jobs w -> reports w' = reports w ->
    used w' = {[child p']} ∪ used w -> step e w w'
| step_start i p' :
    (forall p, procs w !! i = Some p -> pc p = Resolving \/ pc p = Waiting) ->
    stage (pc p') = Pre -> keyed p' -> child p' <> "" -> alone i (parent p') (child p') w -> job_handle p' ∉ used w ->
    procs w' = <[i := p']> (procs w) ->
    jobs w' = note_background_subagent_started (parent p') (child p') (job_of p') (jobs w) -> reports w' = reports w ->
    used w ⊆ used w' -> child p' ∈ used w' -> job_handle p' ∈ used w' -> step e w w'
| step_report i p pending key taken :
    procs w !! i = Some p -> pc p = Routing pending key -> procs w' = <[i := set_pc (Clearing key) p]> (procs w) ->
    jobs w' = jobs w -> reports w' = reports w ++ [(i, pending, taken)] -> used w' = used w -> step e w w'
| step_clear i p key :
    procs w !! i = Some p -> (exists o, pc p = Flushing o /\ key = child p) \/ pc p = Clearing key ->
    procs w' = <[i := set_pc (Over (negb (String.eqb key (child p)))) p]> (procs w) ->
    jobs w' = note_background_subagent_finished (parent p) key (jobs w) -> reports w' = reports w -> used w' = used w ->
    step e w w'
| step_stop s :
    e = Stop s -> jobs w' = (take_in_flight_background_subagents s (jobs w)).1 -> procs w' = procs w -> reports w' = reports w ->
    used w' = used w -> step e w w'
| step_stop_job s h :
    e = StopJob s h -> jobs w' = (cancel_in_flight_background s h (jobs w)).1 -> procs w' = procs w -> reports w' = reports w ->
    used w' = used w -> step e w w'.

(** The entries are those of jobs that are under way, one each. *)
Record tidy (w : World) : Prop := mk_tidy {
  no_empty_name : "" ∈ used w;
  child_named : forall i p, procs w !! i = Some p -> live p -> child p <> "" /\ child p ∈ used w;
  handle_named : forall i p, procs w !! i = Some p -> marked p -> job_handle p ∈ used w;
  one_per_child : forall i j p q, procs w !! i = Some p -> procs w !! j = Some q -> live p -> live q ->
                                  parent p = parent q -> child p = child q -> i = j;
  one_per_handle : forall i j p q, procs w !! i = Some p -> procs w !! j = Some q -> marked p -> marked q ->
                                   job_handle p = job_handle q -> i = j;
  entry_owned : forall s c info, marker s c (jobs w) = Some info ->
                exists i p, procs w !! i = Some p /\ marked p /\ parent p = s /\ child p = c /\ handle info = job_handle p;
  all_keyed : forall i p, procs w !! i = Some p -> keyed p;
  reported_done : forall i r b, (i, r, b) ∈ reports w ->
                  exists p, procs w !! i = Some p /\ (stage (pc p) = Clear \/ is_over (pc p) = true);
}.

(** A child is resumed only when no other dispatch of that parent is on it. *)
Definition apart_at (e : event) (w : World) : Prop :=
  match e with
  | Resolved i (Fetched _) _ _ =>
      forall p req el rid, procs w !! i = Some p -> spec p = Dispatch req el -> resume_session_id req = Some rid ->
                           alone i (parent p) rid w
  | _ => True
  end.
Definition stops (p : Proc) (e : event) : Prop :=
  match e with
  | Stop s => s = parent p
  | StopJob s h => s = parent p /\ h = job_handle p
  | _ => False
  end.

Section Slots.
Context (registry : gmap string SubagentProfile) (max_depth cap : N) (external_agents : ExternalAgentKind -> bool).

(** Every slot counted is held by a call that is not over, and they fit. *)
Definition slots (w : World) : Prop := forall root, counted root w /\ (in_flight root (counts w) <= cap)%N.

Lemma holders_put root i p p' ps :
  ps !! i = Some p -> (holds root p <-> holds root p') -> holders root (<[i := p']> ps) = holders root ps.
Proof.
  intros Hi Hh. unfold holders. rewrite size_filter_insert, (size_filter_delete _ ps i p Hi). cbn.
  destruct (decide (holds root p)), (decide (holds root p')); tauto.
Qed.
Lemma slots_same w w' : counts w' = counts w -> procs w' = procs w -> slots w -> slots w'.
Proof. intros Hc Hp Hw root. unfold counted. rewrite Hc, Hp. apply Hw. Qed.
Lemma slots_put i p p' w w' :
  procs w !! i = Some p -> spec p' = spec p -> is_over (pc p') = is_over (pc p) ->
  counts w' = counts w -> procs w' = <[i := p']> (procs w) -> slots w -> slots w'.
Proof.
  intros Hi Hs Ho Hc Hp Hw root. unfold counted. rewrite Hc, Hp, (holders_put root i p p' _ Hi); [apply Hw|].
  unfold holds. by rewrite Hs, Ho.
Qed.
Lemma slots_put_free i p p' w w' :
  procs w !! i = Some p -> spec p' = spec p -> slot_root (spec p) = None ->
  counts w' = counts w -> procs w' = <[i := p']> (procs w) -> slots w -> slots w'.
Proof.
  intros Hi Hs Hr Hc Hp Hw root. unfold counted. rewrite Hc, Hp, (holders_put root i p p' _ Hi); [apply Hw|].
  unfold holds. rewrite Hs, Hr. split; intros [? _]; done.
Qed.
Lemma release_count root r n (m : Counts) :
  m !! r = Some (N.of_nat (S n)) ->
  release r m !! root = if decide (root = r) then match n with 0 => None | n => Some (N.of_nat n) end else m !! root.
Proof.
  intros Hr. unfold release. rewrite Hr. replace (N.of_nat (S n) - 1)%N with (N.of_nat n) by lia.
  destruct n as [|n]; destruct (decide (root = r)) as [->|Hne]; cbn.
  - apply lookup_delete_eq.
  - by apply lookup_delete_ne.
  - apply lookup_insert_eq.
  - by apply lookup_insert_ne.
Qed.
(** The end of a call gives its slot back. *)
Lemma slots_over i p p' w w' :
  procs w !! i = Some p -> is_over (pc p) = false -> spec p' = spec p -> is_over (pc p') = true ->
  counts w' = counts w -> procs w' = <[i := p']> (procs w) -> slots w -> slots (release_reserved_slot p w').
Proof.
  intros Hi Hn Hs Ho Hc Hp Hw.
  assert (Hh : forall root, holders root (procs w) = (if decide (holds root p) then 1 else 0) + holders root (procs w')).
  { intros root. rewrite Hp. unfold holders. rewrite size_filter_insert, (size_filter_delete _ (procs w) i p Hi). cbn.
    destruct (decide (holds root p')) as [[_ Hv]|]; [congruence|]. lia. }
  unfold release_reserved_slot. destruct (slot_root (spec p)) as [r|] eqn:Hr; intros root; destruct (Hw root) as [Hcr Hle].
  - assert (Hm : counts w !! r = Some (N.of_nat (S (holders r (procs w'))))).
    { destruct (Hw r) as [Hcr' _]. unfold counted in Hcr'. rewrite (Hh r) in Hcr'.
      destruct (decide (holds r p)) as [|Hnh]; [exact Hcr'|]. destruct Hnh. by split. }
    unfold counted, in_flight in *. cbn. rewrite Hc, (release_count root r _ _ Hm). specialize (Hh root).
    destruct (decide (root = r)) as [->|Hne].
    + rewrite Hm in Hle. cbn in Hle. destruct (holders r (procs w')); cbn; split; done || lia.
    + split; [|done]. rewrite Hcr, Hh. destruct (decide (holds root p)) as [[Hx _]|]; [congruence|]. done.
  - unfold counted, in_flight in *. rewrite Hc. specialize (Hh root). split; [|done]. rewrite Hcr, Hh.
    destruct (decide (holds root p)) as [[Hx _]|]; [congruence|]. done.
Qed.
Lemma slots_settle i p r w :
  procs w !! i = Some p -> is_over (pc p) = false -> slots w -> slots (settle i p r w).
Proof. intros Hi Hn Hw. by apply (slots_over i p (set_pc (Over false) p) w). Qed.

Lemma reserve_slots (get : string -> result (option SessionRow) string) sid params (m m' : Counts) r :
  (cap <= u32_max)%N -> (forall root, in_flight root m <= cap)%N ->
  pass_gates registry get max_depth cap sid params m = (m', Ok r) ->
  exists root, fan_out_root r = Some root /\ (in_flight root m < cap)%N /\ m' = <[root := (in_flight root m + 1)%N]> m.
Proof.
  intros Hcap Hle. unfold pass_gates. destruct (parse_spawn_request _ _) as [req|]; [|done].
  destruct (lineage_gate_inputs _ _) as [[depth root]|]; [|done]. destruct (_ <=? depth)%N; [done|].
  unfold try_reserve, in_flight in *. destruct (N.eqb_spec cap 0) as [->|Hz]; [done|].
  specialize (Hle root). destruct (m !! root) as [n|] eqn:Hr; cbn in *.
  - destruct (N.leb_spec cap n); [done|]. intros [= <- <-]. exists root. cbn. rewrite Hr. cbn.
    split_and!; [done|lia|]. f_equal. lia.
  - intros [= <- <-]. exists root. cbn. rewrite Hr. cbn. split_and!; [done|lia|done].
Qed.
Lemma gates_refused (get : string -> result (option SessionRow) string) sid params m m' e :
  pass_gates registry get max_depth cap sid params m = (m', Err e) -> m' = m.
Proof.
  unfold pass_gates. destruct (parse_spawn_request _ _); [|congruence].
  destruct (lineage_gate_inputs _ _) as [[depth root]|]; [|congruence]. destruct (_ <=? depth)%N; [congruence|].
  unfold try_reserve. destruct (cap =? 0)%N; [congruence|]. destruct (m !! root); [|done].
  destruct (cap <=? n)%N; congruence.
Qed.
Lemma slots_execute (Hcap : (cap <= u32_max)%N) i get sid t b params w :
  slots w -> slots (execute registry max_depth cap i get sid t b params w).
Proof.
  intros Hw. unfold execute. destruct (procs w !! i) eqn:Hi; [done|].
  destruct (pass_gates _ _ _ _ _ _ _) as [m [r|e]] eqn:Hg; [|by apply (slots_same w)].
  apply reserve_slots in Hg as (root & Hr & Hlt & ->); [|done|intros root; apply Hw].
  intros root'. destruct (Hw root') as [Hc Hle].
  assert (Hh : holders root' (<[i := mk_proc (Dispatch (with_cohort t r) b) sid "" "" 0 (group (with_cohort t r)) Loading]> (procs w))
               = (if decide (root' = root) then 1 else 0) + holders root' (procs w)).
  { unfold holders. rewrite size_filter_insert, delete_id by done. cbn.
    destruct (decide (holds root' _)) as [[Hs _]|Hn], (decide (root' = root)) as [->|Hne]; cbn in *; try done.
    - rewrite Hr in Hs. congruence.
    - destruct Hn. by split. }
  unfold counted, in_flight in *. cbn [counts procs put_proc set_counts]. rewrite Hh. destruct (decide (root' = root)) as [->|Hne].
  - rewrite lookup_insert_eq. cbn. split; [|lia]. rewrite Hc in *. f_equal. destruct (holders root (procs w)); cbn; lia.
  - by rewrite lookup_insert_ne.
Qed.

Ltac slots_tac :=
  first
    [ done
    | match goal with
      | Hi : procs ?w !! ?i = Some ?p, Hp : pc ?p = _ |- slots (settle ?i ?p ?r ?w) =>
          apply slots_settle; [exact Hi|by rewrite Hp|done]
      | Hi : procs ?w !! _ = Some ?p, Hp : pc ?p = _ |- slots _ =>
          eapply (slots_put _ p _ w); [exact Hi| | | |reflexivity|done]; [reflexivity|cbn; by rewrite Hp|reflexivity]
      end ].
Lemma slots_step (Hcap : (cap <= u32_max)%N) e w :
  slots w -> slots (run_event registry max_depth cap external_agents e w).
Proof.
  intros Hw. destruct e as [i get s t b p|i r|i a h t|i|i r|i|i c st|i|i h|i s h c o t|i x|i|i tl|i|i b|i|s|s h|]; cbn.
  - by apply slots_execute.
  - unfold loaded. destruct (procs w !! i) as [p|] eqn:Hi; [|done]. destruct (pc p) eqn:Hp; try done.
    destruct (spec p) eqn:Hs; [|done]. destruct r as [[]|]; [|slots_tac|slots_tac].
    destruct (backend request); [slots_tac|]. destruct (external_agents k); slots_tac.
  - unfold resolved. destruct (procs w !! i) as [p|] eqn:Hi; [|done]. destruct (pc p) eqn:Hp; try done.
    destruct (spec p) as [req el|] eqn:Hs; [|done]. destruct (negb _); [done|].
    destruct (resolve_child_session _ _ _); [|slots_tac].
    destruct (background_run _ _); [slots_tac|]. destruct (backend req); [slots_tac|].
    unfold foreground_pc. destruct el; slots_tac.
  - unfold touched. destruct (procs w !! i) as [p|] eqn:Hi; [|done]. destruct (pc p) eqn:Hp; try done; [|slots_tac].
    destruct (spec p) as [req el|] eqn:Hs; [|done]. destruct (backend req); slots_tac.
  - unfold fed. destruct (procs w !! i) as [p|] eqn:Hi; [|done].
    destruct (pc p) eqn:Hp; try done; (destruct (spec p) as [req el|] eqn:Hs; try done); destruct r; try slots_tac.
    unfold foreground_pc. destruct el; slots_tac.
  - unfold dropped. destruct (procs w !! i) as [p|] eqn:Hi; [|done]. destruct (pc p) eqn:Hp; slots_tac.
  - unfold terminal. destruct (procs w !! i) as [p|] eqn:Hi; [|done]. destruct (pc p) eqn:Hp; slots_tac.
  - unfold parent_cancelled. destruct (procs w !! i) as [p|] eqn:Hi; [|done]. destruct (pc p) eqn:Hp; slots_tac.
  - unfold wait_elapsed. destruct (procs w !! i) as [p|] eqn:Hi; [|done]. destruct (pc p) eqn:Hp; try done.
    destruct (spec p) as [req el|] eqn:Hs; [|done]. destruct (on_timeout req); [|slots_tac].
    destruct (bool_decide _); [done|slots_tac].
  - unfold detach_command. destruct (procs w !! i) as [p|] eqn:Hi; [done|]. destruct (bool_decide _); [done|].
    intros root. destruct (Hw root) as [Hc Hle]. split; [|done]. unfold counted, holders in *. cbn.
    rewrite size_filter_insert, delete_id by done. cbn. destruct (decide (holds root _)) as [[Hx _]|]; done.
  - unfold command_polled. destruct (procs w !! i) as [p|] eqn:Hi; [|done]. destruct (pc p) eqn:Hp; try done.
    destruct (shutting_down w); [slots_tac|]. destruct (bool_decide _); [slots_tac|]. destruct x; slots_tac.
  - unfold flushed. destruct (procs w !! i) as [p|] eqn:Hi; [|done]. destruct (pc p) eqn:Hp; try done.
    destruct (spec p) eqn:Hs; [done|].
    assert (Hover : forall w', counts w' = counts w -> procs w' = <[i := set_pc (Over false) p]> (procs w) -> slots w').
    { intros w' Hc' Hp'. by apply (slots_put_free i p (set_pc (Over false) p) w); [..|by rewrite Hs| | |]. }
    destruct o; cbn; try destruct (shutting_down w); try (by apply Hover); slots_tac.
  - unfold tail_read. destruct (procs w !! i) as [p|] eqn:Hi; [|done]. destruct (pc p) eqn:Hp; try done.
    destruct (spec p) eqn:Hs; [done|].
    destruct o; [slots_tac..|]. by apply (slots_put_free i p (set_pc (Over true) p) w); [..|by rewrite Hs| | |].
  - unfold peek. destruct (procs w !! i) as [p|] eqn:Hi; [|done]. destruct (pc p) eqn:Hp; try done.
    + destruct (spec p) eqn:Hs; [|done]. destruct (is_background_subagent_in_flight _ _ _); slots_tac.
    + destruct (is_background_subagent_in_flight _ _ _); slots_tac.
  - unfold routed. destruct (procs w !! i) as [p|] eqn:Hi; [|done]. destruct (pc p) eqn:Hp; slots_tac.
  - unfold cleared. destruct (procs w !! i) as [p|] eqn:Hi; [|done]. destruct (pc p) eqn:Hp; try done.
    by apply (slots_over i p (set_pc (Over (negb (String.eqb key (child p)))) p) w); [|by rewrite Hp|..].
  - unfold handle_stop. cbn. by apply (slots_same w).
  - unfold job_stop. destruct (cancel_in_flight_background _ _ _) as [m [info|]]; by apply (slots_same w).
  - by apply (slots_same w).
Qed.
Lemma slots_boot : slots boot.
Proof. intros root. split; [done|apply N.le_0_l]. Qed.
Lemma slots_run (Hcap : (cap <= u32_max)%N) es w : slots w -> slots (run registry max_depth cap external_agents es w).
Proof. revert w. induction es as [|e es IH]; intros w Hw; cbn; [done|]. by apply IH, slots_step. Qed.

(** C16: After any interleaving of calls, answers, cancellations, stops and ends,
    a root session's count is exactly the number of its dispatches that are not
    over, a dispatch whose call was dropped on the way included, its entry is
    gone when there is none, and the count never passes the cap: a slot is
    released once, on whatever path the dispatch ends. *)
Theorem slots_accounted (Hcap : (cap <= u32_max)%N) (es : list event) (root : string) :
  let w := run registry max_depth cap external_agents es boot in
  counts w !! root = match holders root (procs w) with 0 => None | n => Some (N.of_nat n) end /\
  (in_flight root (counts w) <= cap)%N.
Proof. cbn zeta. apply (slots_run Hcap es boot slots_boot root). Qed.
End Slots.

(** *** Markers *)

Lemma in_flight_marker s c m : is_background_subagent_in_flight s c m = is_some (marker s c m).
Proof. unfold is_background_subagent_in_flight, marker. by destruct (m !! s). Qed.
Lemma marker_put s s' c children m :
  marker s c (put_children s' children m) = if decide (s = s') then children !! c else marker s c m.
Proof.
  unfold put_children, marker. destruct (bool_decide_reflect (children = ∅)) as [->|]; destruct (decide (s = s')) as [->|].
  - by rewrite lookup_delete_eq, lookup_empty.
  - by rewrite lookup_delete_ne.
  - by rewrite lookup_insert_eq.
  - by rewrite lookup_insert_ne.
Qed.
Lemma marker_started s c s' c' j m :
  marker s c (note_background_subagent_started s' c' j m) =
  if decide (s = s' /\ c = c') then Some j else marker s c m.
Proof.
  unfold note_background_subagent_started, marker. destruct (decide (s = s')) as [->|Hs].
  - rewrite lookup_insert_eq. cbn. destruct (decide (c = c')) as [->|Hc].
    + rewrite decide_True by done. by rewrite lookup_insert_eq.
    + rewrite decide_False by tauto. rewrite lookup_insert_ne by done. by destruct (m !! s').
  - rewrite decide_False by tauto. by rewrite lookup_insert_ne.
Qed.
Lemma marker_finished s c s' c' m :
  marker s c (note_background_subagent_finished s' c' m) =
  if decide (s = s' /\ c = c') then None else marker s c m.
Proof.
  unfold note_background_subagent_finished. destruct (m !! s') as [children|] eqn:Hm.
  - rewrite marker_put. unfold marker. destruct (decide (s = s')) as [->|Hs]; [|by rewrite decide_False by tauto].
    rewrite Hm. cbn. destruct (decide (c = c')) as [->|Hc].
    + rewrite decide_True by done. apply lookup_delete_eq.
    + rewrite decide_False by tauto. by apply lookup_delete_ne.
  - destruct (decide (s = s' /\ c = c')) as [[-> ->]|]; [|done]. unfold marker. by rewrite Hm.
Qed.
Lemma marker_taken s c s' m :
  marker s c (take_in_flight_background_subagents s' m).1 = if decide (s = s') then None else marker s c m.
Proof.
  unfold marker. cbn. destruct (decide (s = s')) as [->|]; [by rewrite lookup_delete_eq|by rewrite lookup_delete_ne].
Qed.
(** [JobStop] takes out one entry with that handle, or there is none. *)
Lemma marker_stopped s' h m :
  let m' := (cancel_in_flight_background s' h m).1 in
  (exists c0 info, marker s' c0 m = Some info /\ handle info = h /\
     forall s c, marker s c m' = if decide (s = s' /\ c = c0) then None else marker s c m) \/
  ((forall s c, marker s c m' = marker s c m) /\ forall c info, marker s' c m = Some info -> handle info <> h).
Proof.
  cbn zeta. unfold cancel_in_flight_background. destruct (m !! s') as [children|] eqn:Hm.
  - destruct (List.find _ _) as [[c0 info]|] eqn:Hf; cbn.
    + left. apply List.find_some in Hf as [Hin Hh]. apply list_elem_of_In, elem_of_map_to_list in Hin.
      apply String.eqb_eq in Hh. exists c0, info. split_and!; [unfold marker; rewrite Hm; done|done|].
      intros s c. rewrite marker_put. destruct (decide (s = s')) as [->|]; [|by rewrite decide_False by tauto].
      unfold marker. rewrite Hm. cbn. destruct (decide (c = c0)) as [->|].
      * rewrite decide_True by done. apply lookup_delete_eq.
      * rewrite decide_False by tauto. by apply lookup_delete_ne.
    + right. split.
      * intros s c. rewrite marker_put. destruct (decide (s = s')) as [->|]; [|done]. unfold marker. by rewrite Hm.
      * intros c info. unfold marker. rewrite Hm. cbn. intros Hc Hh.
        apply elem_of_map_to_list, list_elem_of_In in Hc.
        pose proof (List.find_none _ _ Hf _ Hc) as Hn. cbn in Hn. apply String.eqb_neq in Hn. done.
  - right. split; [done|]. intros c info. unfold marker. by rewrite Hm.
Qed.

(** *** Tidiness *)

Lemma marked_live p : marked p -> live p.
Proof. by intros [H _]. Qed.
(** The process that moved, or another one. *)
Lemma insert_cases (ps : gmap N Proc) i p j q :
  <[i := p]> ps !! j = Some q -> (j = i /\ q = p) \/ (j <> i /\ ps !! j = Some q).
Proof. intros [[-> ->]|[? ?]]%lookup_insert_Some; auto. Qed.

(** A job changes: [p'] takes the place of what was there, its names are the old
    ones or nobody's, and every entry still has its job. *)
Lemma tidy_change i p' w w' :
  tidy w -> procs w' = <[i := p']> (procs w) -> used w ⊆ used w' ->
  (live p' -> child p' <> "" /\ child p' ∈ used w' /\ alone i (parent p') (child p') w) ->
  (marked p' -> job_handle p' ∈ used w' /\
     forall j q, j <> i -> procs w !! j = Some q -> marked q -> job_handle q <> job_handle p') ->
  keyed p' ->
  (forall s c info, marker s c (jobs w') = Some info ->
     (marked p' /\ parent p' = s /\ child p' = c /\ handle info = job_handle p') \/
     (marker s c (jobs w) = Some info /\ forall p, procs w !! i = Some p -> marked p -> ~ (parent p = s /\ child p = c))) ->
  (forall j r b, (j, r, b) ∈ reports w' ->
     if decide (j = i) then stage (pc p') = Clear \/ is_over (pc p') = true else (j, r, b) ∈ reports w) ->
  tidy w'.
Proof.
  intros [E C H K N M Y R] Hp Hu Hl Hm Hk He Hr. split.
  - set_solver.
  - intros j q. rewrite Hp. intros [[-> ->]|[Hn Hq]]%insert_cases Hlq; [naive_solver|].
    destruct (C j q Hq Hlq). set_solver.
  - intros j q. rewrite Hp. intros [[-> ->]|[Hn Hq]]%insert_cases Hmq; [by apply Hm|]. specialize (H j q Hq Hmq). set_solver.
  - intros j k q r. rewrite Hp. intros [[-> ->]|[Hn Hq]]%insert_cases [[-> ->]|[Hn' Hr']]%insert_cases Hlq Hlr Hpa Hch; try done.
    + destruct (Hl Hlq) as (_ & _ & Ha). by destruct (Ha k r Hn' Hr' Hlr).
    + destruct (Hl Hlr) as (_ & _ & Ha). by destruct (Ha j q Hn Hq Hlq).
    + by eapply K.
  - intros j k q r. rewrite Hp. intros [[-> ->]|[Hn Hq]]%insert_cases [[-> ->]|[Hn' Hr']]%insert_cases Hlq Hlr Hh; try done.
    + destruct (Hm Hlq) as (_ & Ha). by destruct (Ha k r Hn' Hr' Hlr).
    + destruct (Hm Hlr) as (_ & Ha). by destruct (Ha j q Hn Hq Hlq).
    + by eapply N.
  - intros s c info Hin. rewrite Hp. destruct (He s c info Hin) as [(H1 & H2 & H3 & H4)|[Hold Hnot]].
    + exists i, p'. by rewrite lookup_insert_eq.
    + destruct (M s c info Hold) as (j & q & Hq & Hmq & H1 & H2 & H3). exists j, q. split; [|done].
      rewrite lookup_insert_ne; [done|]. intros ->. by apply (Hnot q Hq Hmq).
  - intros j q. rewrite Hp. intros [[-> ->]|[Hn Hq]]%insert_cases; [done|by eapply Y].
  - intros j r b Hin. rewrite Hp. specialize (Hr j r b Hin). destruct (decide (j = i)) as [->|Hn].
    + exists p'. by rewrite lookup_insert_eq.
    + rewrite lookup_insert_ne by done. by eapply R.
Qed.
Lemma tidy_jobs w w' :
  tidy w -> procs w' = procs w -> reports w' = reports w -> used w' = used w ->
  (forall s c info, marker s c (jobs w') = Some info -> marker s c (jobs w) = Some info) -> tidy w'.
Proof.
  intros [E C H K N M Y R] Hp Hr Hu Hj. split; rewrite ?Hp, ?Hr, ?Hu; try done.
  intros s c info Hin%Hj. by apply M.
Qed.
(** A proc that is at work stays itself through a move. *)
Lemma alone_self i p w : tidy w -> procs w !! i = Some p -> live p -> alone i (parent p) (child p) w.
Proof.
  intros Ht Hi Hl j q Hn Hq Hlq [Hpa Hch]. destruct Hn. eapply (one_per_child _ Ht); try done; congruence.
Qed.
Lemma handle_self i p w : tidy w -> procs w !! i = Some p -> marked p ->
  forall j q, j <> i -> procs w !! j = Some q -> marked q -> job_handle q <> job_handle p.
Proof. intros Ht Hi Hm j q Hn Hq Hmq Hh. destruct Hn. by eapply (one_per_handle _ Ht). Qed.
Lemma entry_handle i p w info :
  tidy w -> procs w !! i = Some p -> marked p -> marker (parent p) (child p) (jobs w) = Some info ->
  handle info = job_handle p.
Proof.
  intros Ht Hi Hm Hin. destruct (entry_owned _ Ht _ _ _ Hin) as (j & q & Hq & Hmq & Hpa & Hch & Hh).
  assert (j = i) as -> by (eapply (one_per_child _ Ht); eauto using marked_live). congruence.
Qed.
(** No entry is under the empty name. *)
Lemma no_empty_entry w s : tidy w -> marker s "" (jobs w) = None.
Proof.
  intros Ht. destruct (marker s "" (jobs w)) eqn:Hm; [|done].
  destruct (entry_owned _ Ht _ _ _ Hm) as (j & q & Hq & Hmq & _ & Hch & _).
  by destruct (child_named _ Ht j q Hq (marked_live _ Hmq)).
Qed.
Lemma advance_live p c m : advance p c m -> live (set_pc c p) -> live p.
Proof. unfold advance, live. cbn. destruct (pc p) as [| | | | | | | | | | | | | | | | |[]|[]]; cbn; intros; try done; congruence. Qed.
Lemma advance_marked p c m : advance p c m -> marked (set_pc c p) <-> marked p.
Proof.
  unfold advance, marked. cbn.
  destruct (pc p) as [| | | | | | | | | | | | | | | | |[]|[]], (stage c); cbn; intros Ha; split; intros [? ?]; try done;
    repeat (destruct Ha as [Ha|Ha]; try done); destruct Ha; done.
Qed.
Lemma tidy_move i p c w w' :
  tidy w -> procs w !! i = Some p -> advance p c (jobs w) -> keyed (set_pc c p) ->
  procs w' = <[i := set_pc c p]> (procs w) -> jobs w' = jobs w -> reports w' = reports w -> used w' = used w -> tidy w'.
Proof.
  intros Ht Hi Ha Hk Hp Hj Hr Hu. apply (tidy_change i (set_pc c p) w); try done; [by rewrite Hu|..].
  - intros Hl%(advance_live p c _ Ha). destruct (child_named _ Ht i p Hi Hl). rewrite Hu. split_and!; [done..|].
    by apply (alone_self i p).
  - intros Hm%(advance_marked p c _ Ha). rewrite Hu. split; [by apply (handle_named _ Ht i p)|by apply (handle_self i p)].
  - intros s n info Hin. rewrite Hj in Hin. destruct (decide (marked p /\ parent p = s /\ child p = n)) as [(Hm & <- & <-)|Hn].
    + left. split; [by apply (advance_marked p c _ Ha)|]. split_and!; [done..|]. by apply (entry_handle i p w).
    + right. split; [done|]. intros q Hq Hmq. rewrite Hi in Hq. injection Hq as <-. naive_solver.
  - intros j r b. rewrite Hr. destruct (decide (j = i)) as [->|]; [|done]. intros Hin.
    destruct (reported_done _ Ht i r b Hin) as (q & Hq & Hd). rewrite Hi in Hq. injection Hq as <-.
    unfold advance in Ha. destruct (pc p) as [| | | | | | | | | | | | | | | | |[]|[]]; cbn in *; naive_solver.
Qed.
Lemma tidy_step e w w' : tidy w -> step e w w' -> tidy w'.
Proof.
  intros Ht Hs. destruct Hs as [Hj Hp Hr Hu|i p Hn Hpc Hp Hj Hr Hu|i p c Hi Ha Hk Hp Hj Hr Hu
    |i p p' Hi Hpc Hst Hne Hal Hp Hj Hr Hu|i p' Hfrom Hst Hk Hne Hal Hh Hp Hj Hr Hu Hu1 Hu2
    |i p pending key taken Hi Hpc Hp Hj Hr Hu|i p key Hi Hkey Hp Hj Hr Hu|s _ Hj Hp Hr Hu|s h _ Hj Hp Hr Hu].
  - apply (tidy_jobs w); try done. by rewrite Hj.
  - apply (tidy_change i p w); try done; unfold live, marked, keyed; rewrite ?Hpc; cbn; rewrite ?Hu; try done; try (by intros []).
    + intros s c info. rewrite Hj. intros Hin. right. split; [done|]. intros q Hq. congruence.
    + intros j r b. rewrite Hr. destruct (decide (j = i)) as [->|]; [|done]. intros Hin.
      destruct (reported_done _ Ht i r b Hin) as (q & Hq & _). congruence.
  - by apply (tidy_move i p c w).
  - apply (tidy_change i p' w); try done; [rewrite Hu; set_solver|..].
    + intros _. rewrite Hu. split_and!; [done|set_solver|done].
    + intros [_ Hf]. by rewrite Hst in Hf.
    + unfold keyed. destruct (pc p'); done.
    + intros s c info. rewrite Hj. intros Hin. right. split; [done|]. intros q Hq [Hmq _]. rewrite Hi in Hq. injection Hq as <-.
      by rewrite Hpc in Hmq.
    + intros j r b. rewrite Hr. destruct (decide (j = i)) as [->|]; [|done]. intros Hin.
      destruct (reported_done _ Ht i r b Hin) as (q & Hq & Hd). rewrite Hi in Hq. injection Hq as <-. rewrite Hpc in Hd. by destruct Hd.
  - assert (Hmk : marked p') by (split; by rewrite Hst).
    assert (Hnm : forall p, procs w !! i = Some p -> ~ marked p /\ ~ (stage (pc p) = Clear \/ is_over (pc p) = true)).
    { intros p [Hpc|Hpc]%Hfrom; unfold marked; rewrite Hpc; cbn; split; naive_solver. }
    apply (tidy_change i p' w); try done.
    + intros _. split; [done|]. intros j q Hji Hq Hmq Heq. apply Hh. rewrite <- Heq. by eapply (handle_named _ Ht).
    + intros s c info. rewrite Hj, marker_started. destruct (decide (s = parent p' /\ c = child p')) as [[-> ->]|Hne'].
      * intros [= <-]. left. split_and!; try done. unfold job_of. by destruct (spec p').
      * intros Hin. right. split; [done|]. intros q Hq Hmq. by destruct (Hnm q Hq).
    + intros j r b. rewrite Hr. destruct (decide (j = i)) as [->|]; [|done]. intros Hin.
      destruct (reported_done _ Ht i r b Hin) as (q & Hq & Hd). by destruct (Hnm q Hq).
  - assert (Hm : marked p) by (unfold marked; by rewrite Hpc).
    destruct (child_named _ Ht i p Hi (marked_live _ Hm)) as [Hc1 Hc2].
    apply (tidy_change i (set_pc (Clearing key) p) w); try done; rewrite ?Hu; try done.
    + intros _. split_and!; [done..|]. apply (alone_self i p); auto using marked_live.
    + intros _. split; [by apply (handle_named _ Ht i p)|by apply (handle_self i p)].
    + pose proof (all_keyed _ Ht i p Hi) as Hk. unfold keyed in *. by rewrite Hpc in Hk.
    + intros s c info. rewrite Hj. intros Hin. destruct (decide (parent p = s /\ child p = c)) as [[<- <-]|Hne].
      * left. split_and!; try done. by apply (entry_handle i p w).
      * right. split; [done|]. intros q Hq _. rewrite Hi in Hq. by injection Hq as <-.
    + intros j r b. rewrite Hr, elem_of_app, list_elem_of_singleton. destruct (decide (j = i)) as [->|Hji]; [by left|].
      intros [Hin|[= -> _ _]]; [done|congruence].
  - assert (Hm : marked p) by (unfold marked; destruct Hkey as [(o & -> & _)| ->]; done).
    destruct (child_named _ Ht i p Hi (marked_live _ Hm)) as [Hc1 Hc2].
    assert (Hk : key = child p \/ key = "").
    { destruct Hkey as [(o & _ & ->)|Hpc]; [by left|]. pose proof (all_keyed _ Ht i p Hi) as Hk. unfold keyed in Hk.
      by rewrite Hpc in Hk. }
    apply (tidy_change i (set_pc (Over (negb (String.eqb key (child p)))) p) w); try done; rewrite ?Hu; try done.
    + intros _. split_and!; [done..|]. apply (alone_self i p); auto using marked_live.
    + intros _. split; [by apply (handle_named _ Ht i p)|by apply (handle_self i p)].
    + intros s c info. rewrite Hj, marker_finished. destruct (decide (s = parent p /\ c = key)) as [|Hne]; [done|].
      intros Hin. destruct (String.eqb_spec key (child p)) as [->|Hkc]; cbn.
      * right. split; [done|]. intros q Hq _ [H1 H2]. rewrite Hi in Hq. injection Hq as <-. by destruct Hne.
      * destruct (decide (parent p = s /\ child p = c)) as [[<- <-]|Hn'].
        -- left. split_and!; try done. by apply (entry_handle i p w).
        -- right. split; [done|]. intros q Hq _. rewrite Hi in Hq. by injection Hq as <-.
    + intros j r b. rewrite Hr. destruct (decide (j = i)) as [->|]; [by right|done].
  - apply (tidy_jobs w); try done. intros s' c info. rewrite Hj, marker_taken. by destruct (decide (s' = s)).
  - apply (tidy_jobs w); try done. intros s' c info. rewrite Hj.
    destruct (marker_stopped s h (jobs w)) as [(c0 & info' & _ & _ & He)|[He _]]; rewrite He; [|done].
    by destruct (decide _).
Qed.

(** *** Every event is such a step *)

Lemma fresh_alone i s c w : tidy w -> c ∉ used w -> alone i s c w.
Proof. intros Ht Hc j q _ Hq Hl [_ <-]. by destruct (child_named _ Ht j q Hq Hl). Qed.
Lemma resolved_child i a h w p req el c :
  tidy w -> procs w !! i = Some p -> spec p = Dispatch req el -> fits req a h w = true ->
  (forall rid, (exists x, a = Fetched x) -> resume_session_id req = Some rid -> alone i (parent p) rid w) ->
  resolve_child_session p req a = Ok c ->
  (h ∉ used w) /\ c <> "" /\ alone i (parent p) c w.
Proof.
  intros Ht Hi Hs Hf Hap Hr. unfold fits, resolve_child_session in *.
  destruct (bool_decide_reflect (h ∉ used w)) as [Hh|]; [|done]. split; [done|].
  destruct (resume_session_id req) as [rid|]; destruct a as [[[row|]|]|[c'|]]; try done.
  - destruct (validate_resume_session _ _ _ _); [|done]. injection Hr as <-. cbn in Hf.
    destruct (String.eqb_spec rid ""); [by rewrite !andb_false_r in Hf|]. eauto.
  - injection Hr as ->. cbn in Hf. destruct (bool_decide_reflect (c ∉ used w)) as [Hc|]; [|done].
    split; [|by apply fresh_alone]. intros ->. apply Hc, (no_empty_name _ Ht).
Qed.

Section Events.
Context (registry : gmap string SubagentProfile) (max_depth cap : N) (external_agents : ExternalAgentKind -> bool).

Lemma settle_step e i p r w :
  procs w !! i = Some p -> advance p (Over false) (jobs w) -> step e w (settle i p r w).
Proof.
  intros Hi Ha. apply (step_move _ w _ i p (Over false)); try done; unfold settle, release_reserved_slot;
    by destruct (slot_root (spec p)).
Qed.
Lemma put_step e i p c w :
  procs w !! i = Some p -> advance p c (jobs w) -> keyed (set_pc c p) -> step e w (put_proc i (set_pc c p) w).
Proof. intros Hi Ha Hk. by apply (step_move _ w _ i p c). Qed.
(** Moves that need nothing but the place they start from. *)
Ltac move_tac :=
  first [ by apply step_idle
        | match goal with
          | Hi : procs ?w !! ?i = Some ?p, Hp : pc ?p = _ |- step _ ?w (settle ?i ?p _ ?w) =>
              apply settle_step; [exact Hi|unfold advance; rewrite Hp; cbn; auto]
          | Hi : procs ?w !! ?i = Some ?p, Hp : pc ?p = _ |- step _ ?w (put_proc ?i (set_pc _ ?p) ?w) =>
              apply put_step; [exact Hi|unfold advance; rewrite Hp; cbn; auto|unfold keyed; cbn; auto]
          end ].

Lemma resolved_step e i a h t w :
  tidy w -> apart_at (Resolved i a h t) w -> step e w (resolved i a h t w).
Proof.
  intros Ht Hap. unfold resolved. destruct (procs w !! i) as [p|] eqn:Hi; [|by apply step_idle].
  destruct (pc p) eqn:Hp; try (by apply step_idle). destruct (spec p) as [req el|] eqn:Hs; [|by apply step_idle].
  destruct (fits req a h w) eqn:Hf; cbn [negb]; [|by apply step_idle].
  destruct (resolve_child_session p req a) as [c|] eqn:Hr; [|move_tac].
  assert (Hres : forall rid, (exists x, a = Fetched x) -> resume_session_id req = Some rid -> alone i (parent p) rid w).
  { intros rid [x ->] Hrid. by eapply Hap. }
  destruct (resolved_child i a h w p req el c Ht Hi Hs Hf Hres Hr) as (Hh & Hc & Hal).
  destruct (background_run req el).
  - apply (step_start _ w _ i (set_pc Acking (set_handle h (cohort p) (set_child c t p)))); try done; cbn; try set_solver.
  - destruct (backend req).
    + by apply (step_bind _ w _ i p (set_pc Feeding (set_child c t p))).
    + apply (step_bind _ w _ i p (set_pc (foreground_pc el) (set_child c t p))); try done. by destruct el.
Qed.
Lemma wait_elapsed_step e i h w : tidy w -> step e w (wait_elapsed i h w).
Proof.
  intros Ht. unfold wait_elapsed. destruct (procs w !! i) as [p|] eqn:Hi; [|by apply step_idle].
  destruct (pc p) eqn:Hp; try (by apply step_idle). destruct (spec p) as [req el|] eqn:Hs; [|by apply step_idle].
  assert (Hl : live p) by (unfold live; by rewrite Hp). destruct (child_named _ Ht i p Hi Hl) as [Hc1 Hc2].
  destruct (on_timeout req).
  - destruct (bool_decide_reflect (h ∈ used w)); [by apply step_idle|].
    apply (step_start _ w _ i (set_pc Converting (set_handle h None p))); try done; cbn; try set_solver.
    by apply (alone_self i p).
  - apply (step_move _ w _ i p (Draining Background.ForegroundWaitElapsed)); try done. unfold advance. rewrite Hp. by left.
Qed.
Lemma detach_step e i s h c o t w : tidy w -> step e w (detach_command i s h c o t w).
Proof.
  intros Ht. unfold detach_command. destruct (procs w !! i) as [p|] eqn:Hi; [by apply step_idle|].
  destruct (bool_decide_reflect (h ∈ used w)); [by apply step_idle|].
  apply (step_start _ w _ i (mk_proc (Detached c o) s h h t None Running)); try done; cbn; try set_solver.
  - intros ->. apply n, (no_empty_name _ Ht).
  - by apply fresh_alone.
Qed.
Lemma peek_step e i w : tidy w -> step e w (peek i w).
Proof.
  intros Ht. unfold peek. destruct (procs w !! i) as [p|] eqn:Hi; [|by apply step_idle].
  destruct (pc p) eqn:Hp; try (by apply step_idle).
  - destruct (spec p) as [req el|] eqn:Hs; [|by apply step_idle]. rewrite in_flight_marker.
    pose proof (all_keyed _ Ht i p Hi) as Hk. unfold keyed in Hk. rewrite Hp in Hk.
    destruct (marker (parent p) (child_session_id r) (jobs w)) as [info|] eqn:Hm; cbn [is_some].
    + destruct Hk as [Hk|Hk]; rewrite Hk in *; [|by rewrite no_empty_entry in Hm].
      apply put_step; [done|unfold advance; rewrite Hp|unfold keyed; cbn; auto]. cbn. rewrite Hm. eauto 8.
    + apply put_step; [done|unfold advance; rewrite Hp|unfold keyed; cbn; auto]. cbn. right. right. right. split; [done|].
      intros [= <-]. done.
  - rewrite in_flight_marker. destruct (marker (parent p) (child p) (jobs w)) as [info|] eqn:Hm; cbn [is_some].
    + apply put_step; [done|unfold advance; rewrite Hp|done]. cbn. rewrite Hm. eauto 8.
    + apply put_step; [done|unfold advance; rewrite Hp|unfold keyed; cbn; auto]. cbn. rewrite Hm. auto.
Qed.
Lemma event_step e w :
  tidy w -> apart_at e w -> step e w (run_event registry max_depth cap external_agents e w).
Proof.
  intros Ht Hap. destruct e as [i get s t b p|i r|i a h t|i|i r|i|i c st|i|i h|i s h c o t|i x|i|i tl|i|i b|i|s|s h|]; cbn.
  - unfold execute. destruct (procs w !! i) eqn:Hi; [by apply step_idle|].
    destruct (pass_gates _ _ _ _ _ _ _) as [m [r|e]]; [|by apply step_idle].
    by apply (step_new _ w _ i (mk_proc (Dispatch (with_cohort t r) b) s "" "" 0 (group (with_cohort t r)) Loading)).
  - unfold loaded. destruct (procs w !! i) as [p|] eqn:Hi; [|move_tac]. destruct (pc p) eqn:Hp; try move_tac.
    destruct (spec p); [|move_tac]. destruct r as [[]|]; [|move_tac..].
    destruct (backend request); [move_tac|]. destruct (external_agents k); move_tac.
  - by apply resolved_step.
  - unfold touched. destruct (procs w !! i) as [p|] eqn:Hi; [|move_tac]. destruct (pc p) eqn:Hp; try move_tac.
    destruct (spec p); [|move_tac]. destruct (backend request); move_tac.
  - unfold fed. destruct (procs w !! i) as [p|] eqn:Hi; [|move_tac].
    destruct (pc p) eqn:Hp; try move_tac; destruct (spec p) as [req el|]; try move_tac; destruct r; try move_tac.
    all: destruct el; cbn; auto.
  - unfold dropped. destruct (procs w !! i) as [p|] eqn:Hi; [|move_tac]. destruct (pc p) eqn:Hp; move_tac.
  - unfold terminal. destruct (procs w !! i) as [p|] eqn:Hi; [|move_tac]. destruct (pc p) eqn:Hp; move_tac.
  - unfold parent_cancelled. destruct (procs w !! i) as [p|] eqn:Hi; [|move_tac]. destruct (pc p) eqn:Hp; try move_tac.
    apply (step_move _ w _ i p (Draining Background.Cancelled)); try done. unfold advance. rewrite Hp. by left.
  - by apply wait_elapsed_step.
  - by apply detach_step.
  - unfold command_polled. destruct (procs w !! i) as [p|] eqn:Hi; [|move_tac]. destruct (pc p) eqn:Hp; try move_tac.
    destruct (shutting_down w); [move_tac|]. destruct (bool_decide _); [move_tac|]. destruct x; move_tac.
  - unfold flushed. destruct (procs w !! i) as [p|] eqn:Hi; [|move_tac]. destruct (pc p) eqn:Hp; try move_tac.
    destruct (spec p) eqn:Hs; [move_tac|].
    assert (Hend : forall w', procs w' = <[i := set_pc (Over false) p]> (procs w) -> reports w' = reports w -> used w' = used w ->
      jobs w' = note_background_subagent_finished (parent p) (child p) (jobs w) -> step (Flushed i) w w').
    { intros w' H1 H2 H3 H4. apply (step_clear _ w w' i p (child p)); try done; [left; by exists o|].
      by rewrite String.eqb_refl. }
    destruct o; cbn; try destruct (shutting_down w); try (by apply Hend); move_tac.
  - unfold tail_read. destruct (procs w !! i) as [p|] eqn:Hi; [|move_tac]. destruct (pc p) eqn:Hp; try move_tac.
    destruct (spec p); [move_tac|]. destruct o; move_tac.
  - by apply peek_step.
  - unfold routed. destruct (procs w !! i) as [p|] eqn:Hi; [|move_tac]. destruct (pc p) eqn:Hp; try move_tac.
    by apply (step_report _ w _ i p pending key b).
  - unfold cleared. destruct (procs w !! i) as [p|] eqn:Hi; [|move_tac]. destruct (pc p) eqn:Hp; try move_tac.
    apply (step_clear _ w _ i p key); try done; [by right|..]; unfold release_reserved_slot; by destruct (slot_root (spec p)).
  - by apply (step_stop _ w _ s).
  - apply (step_stop_job _ w _ s h); [done|..]; unfold job_stop; by destruct (cancel_in_flight_background _ _ _) as [m [info|]].
  - by apply step_idle.
Qed.

(** *** Histories in which resumed children are apart *)

Abbreviation run := (run registry max_depth cap external_agents).
Abbreviation run_event := (run_event registry max_depth cap external_agents).
Fixpoint apart (es : list event) (w : World) : Prop :=
  match es with [] => True | e :: es => apart_at e w /\ apart es (run_event e w) end.

Lemma apart_app es es' w : apart (es ++ es') w <-> apart es w /\ apart es' (run es w).
Proof. revert w. induction es as [|e es IH]; intros w; cbn; [tauto|]. rewrite IH. tauto. Qed.
Lemma events_app es es' w : run (es ++ es') w = run es' (run es w).
Proof. revert w. induction es as [|e es IH]; intros w; cbn; [done|]. by rewrite IH. Qed.
Lemma tidy_boot : tidy boot.
Proof.
  split; cbn; try (intros; by rewrite lookup_empty in * ); [set_solver|..].
  - intros s c info. unfold marker. by rewrite lookup_empty.
  - intros i r b Hin. by apply not_elem_of_nil in Hin.
Qed.
Lemma tidy_run es w : tidy w -> apart es w -> tidy (run es w).
Proof.
  revert w. induction es as [|e es IH]; intros w Ht Ha; cbn; [done|]. destruct Ha as [Ha Hr].
  apply IH; [|done]. eapply tidy_step; [exact Ht|]. by apply event_step.
Qed.

(** A property of one job that each step of a tidy world keeps. *)
Lemma kept_events (P : World -> Prop) (Q : event -> Prop) es w :
  (forall e w w', tidy w -> step e w w' -> Q e -> P w -> P w') ->
  tidy w -> apart es w -> Forall Q es -> P w -> P (run es w).
Proof.
  intros Hs. revert w. induction es as [|e es IH]; intros w Ht Ha Hq Hp; cbn; [done|].
  destruct Ha as [Ha Hr]. inversion Hq as [|? ? He Hes]; subst.
  assert (Hst : step e w (run_event e w)) by by apply event_step.
  apply IH; [by eapply tidy_step|done|done|by eapply Hs].
Qed.
End Events.

Definition ended (c : Pc) : bool := match c with Over _ | Abandoned _ => true | _ => false end.
(** The job [i], which was [p] when its entry went, has said nothing. *)
Definition silenced (i : N) (p : Proc) (w : World) : Prop :=
  exists c, procs w !! i = Some (set_pc c p) /\ (forall r b, (i, r, b) ∉ reports w) /\
    ((stage c = Pre /\ marker (parent p) (child p) (jobs w) = None) \/ stage c = Clear \/ ended c = true).
Lemma other_entry w i j p q c :
  tidy w -> procs w !! i = Some p -> live p -> procs w !! j = Some q -> live q -> i <> j -> c = child q ->
  ~ (parent p = parent q /\ child p = c).
Proof. intros Ht Hi Hp Hj Hq Hn -> [H1 H2]. apply Hn. by eapply (one_per_child _ Ht). Qed.
Lemma silenced_step e i p w w' : tidy w -> step e w w' -> silenced i p w -> silenced i p w'.
Proof.
  intros Ht Hs (c & Hi & Hn & Hc).
  assert (Hlive : stage c = Pre -> live (set_pc c p)) by (unfold live; cbn; congruence).
  assert (Hsame : forall j q, procs w' = <[j := q]> (procs w) -> j <> i -> reports w' = reports w ->
    (stage c = Pre -> marker (parent p) (child p) (jobs w) = None -> marker (parent p) (child p) (jobs w') = None) ->
    silenced i p w').
  { intros j q Hp Hne Hr Hm. exists c. rewrite Hp, lookup_insert_ne by done. rewrite Hr. naive_solver. }
  destruct Hs as [Hj Hp Hr Hu|j q Hnj Hpc Hp Hj Hr Hu|j q c' Hij Ha Hk Hp Hj Hr Hu
    |j q q' Hij Hpc Hst Hne Hal Hp Hj Hr Hu|j q' Hfrom Hst Hk Hne Hal Hh Hp Hj Hr Hu Hu1 Hu2
    |j q pending key taken Hij Hpc Hp Hj Hr Hu|j q key Hij Hkey Hp Hj Hr Hu|s _ Hj Hp Hr Hu|s h _ Hj Hp Hr Hu].
  - exists c. rewrite Hp, Hr, Hj. done.
  - apply (Hsame j q); try done; [congruence|by rewrite Hj].
  - destruct (decide (j = i)) as [->|Hne]; [|apply (Hsame j (set_pc c' q)); try done; by rewrite Hj].
    rewrite Hi in Hij. injection Hij as <-. exists c'. rewrite Hp, lookup_insert_eq, Hr, Hj.
    split_and!; [done|done|]. unfold advance in Ha. cbn in Ha.
    destruct Hc as [[Hc Hm]|[Hc|Hc]]; [|by destruct c as [| | | | | | | | | | | | | | | | |[]|[]]..].
    assert (Hadv : stage c' = Pre \/ stage c' = Left \/ stage c' = Clear).
    { destruct c as [| | | | | | | | | | | | | | | | |[]|[]]; cbn in Hc; try done;
        (destruct Ha as [?|[?|[[_ Hx]|[? _]]]]; [by left|by right; left| |by right; right]); rewrite Hm in Hx; by destruct Hx. }
    destruct Hadv as [H1|[H1|H1]]; [by left| |by right; left]. right. right. by destruct c' as [| | | | | | | | | | | | | | | | |[]|[]].
  - assert (j <> i).
    { intros ->. rewrite Hi in Hij. injection Hij as <-. cbn in Hpc. subst c. cbn in Hc. naive_solver. }
    apply (Hsame j q'); try done. by rewrite Hj.
  - assert (j <> i).
    { intros ->. destruct (Hfrom _ Hi) as [Hpc|Hpc]; cbn in Hpc; subst c; cbn in Hc; naive_solver. }
    apply (Hsame j q'); try done. intros Hpre Hm. rewrite Hj, marker_started, decide_False; [done|].
    intros [H1 H2]. by apply (Hal i (set_pc c p)); auto.
  - assert (j <> i).
    { intros ->. rewrite Hi in Hij. injection Hij as <-. cbn in Hpc. subst c. cbn in Hc. naive_solver. }
    exists c. rewrite Hp, lookup_insert_ne, Hr, Hj by done. split_and!; [done| |done].
    intros r b. rewrite elem_of_app, list_elem_of_singleton. intros [Hin|[= -> _ _]]; [by eapply Hn|done].
  - destruct (decide (j = i)) as [->|Hne].
    + rewrite Hi in Hij. injection Hij as <-. eexists. rewrite Hp, lookup_insert_eq, Hr.
      split_and!; [reflexivity|done|by right; right].
    + apply (Hsame j _ Hp); try done. intros _ Hm. rewrite Hj, marker_finished. by destruct (decide _).
  - exists c. rewrite Hp, Hr, Hj. split_and!; [done..|]. rewrite marker_taken. destruct (decide _); naive_solver.
  - exists c. rewrite Hp, Hr, Hj. split_and!; [done..|].
    destruct (marker_stopped s h (jobs w)) as [(c0 & info & _ & _ & He)|[He _]]; rewrite He; [|done].
    destruct (decide _); naive_solver.
Qed.

(** The job [i] is not past its escort's look, and its entry is there. *)
Definition tracked (i : N) (p : Proc) (w : World) : Prop :=
  exists c, procs w !! i = Some (set_pc c p) /\ stage c <> Fore /\ c <> Loading /\ c <> Resolving /\
    (stage c = Pre -> is_Some (marker (parent p) (child p) (jobs w))).
Lemma tracked_step i p e w w' : tidy w -> step e w w' -> ~ stops p e -> tracked i p w -> tracked i p w'.
Proof.
  intros Ht Hs Hns (c & Hi & Hf & Hl & Hr0 & Hm).
  assert (Hlive : stage c = Pre -> live (set_pc c p)) by (unfold live; cbn; congruence).
  assert (Hmark : stage c = Pre -> marked (set_pc c p)) by (unfold marked; cbn; intros ->; done).
  assert (Hsame : forall j q, procs w' = <[j := q]> (procs w) -> j <> i ->
    (stage c = Pre -> is_Some (marker (parent p) (child p) (jobs w')) \/ marker (parent p) (child p) (jobs w') = marker (parent p) (child p) (jobs w)) ->
    tracked i p w').
  { intros j q Hp Hne Hmm. exists c. rewrite Hp, lookup_insert_ne by done. split_and!; try done.
    intros Hpre. destruct (Hmm Hpre) as [|He]; [done|]. rewrite He. auto. }
  destruct Hs as [Hj Hp Hr Hu|j q Hnj Hpc Hp Hj Hr Hu|j q c' Hij Ha Hk Hp Hj Hr Hu
    |j q q' Hij Hpc Hst Hne Hal Hp Hj Hr Hu|j q' Hfrom Hst Hk Hne Hal Hh Hp Hj Hr Hu Hu1 Hu2
    |j q pending key taken Hij Hpc Hp Hj Hr Hu|j q key Hij Hkey Hp Hj Hr Hu|s He Hj Hp Hr Hu|s h He Hj Hp Hr Hu].
  - exists c. rewrite Hp, Hj. done.
  - apply (Hsame j q); try done; [congruence|]. rewrite Hj. by right.
  - destruct (decide (j = i)) as [->|Hne]; [|apply (Hsame j (set_pc c' q)); try done; rewrite Hj; by right].
    rewrite Hi in Hij. injection Hij as <-. exists c'. rewrite Hp, lookup_insert_eq, Hj. unfold advance in Ha. cbn in Ha.
    assert (Hadv : stage c' <> Fore /\ stage c' <> Idle /\ (stage c' = Pre -> stage c = Pre)).
    { destruct c as [| | | | | | | | | | | | | | | | |[]|[]]; cbn in Ha, Hf |- *; try done;
        repeat (destruct Ha as [Ha|Ha]); try match type of Ha with _ /\ _ => destruct Ha as [Ha _] end; rewrite Ha; done. }
    destruct Hadv as (H1 & H2 & H3). split_and!; try done; [by intros ->..|auto].
  - assert (j <> i) by (intros ->; rewrite Hi in Hij; injection Hij as <-; done).
    apply (Hsame j q'); try done. rewrite Hj. by right.
  - assert (j <> i).
    { intros ->. destruct (Hfrom _ Hi) as [Hpc|Hpc]; cbn in Hpc; subst c; done. }
    apply (Hsame j q'); try done. intros Hpre. right. rewrite Hj, marker_started, decide_False; [done|].
    intros [H1 H2]. by apply (Hal i (set_pc c p)); auto.
  - destruct (decide (j = i)) as [->|Hne]; [|apply (Hsame j _ Hp); try done; rewrite Hj; by right].
    rewrite Hi in Hij. injection Hij as <-. exists (Clearing key). rewrite Hp, lookup_insert_eq. done.
  - destruct (decide (j = i)) as [->|Hne].
    + rewrite Hi in Hij. injection Hij as <-. eexists. rewrite Hp, lookup_insert_eq. split; [reflexivity|].
      by destruct (negb _).
    + apply (Hsame j _ Hp); try done. intros Hpre. right. rewrite Hj, marker_finished, decide_False; [done|].
      assert (Hmq : marked q) by (unfold marked; destruct Hkey as [(o & -> & _)| ->]; done).
      assert (Hkq : key = child q \/ key = "").
      { destruct Hkey as [(o & _ & ->)|Hpc]; [by left|]. pose proof (all_keyed _ Ht j q Hij) as Hk. unfold keyed in Hk.
        by rewrite Hpc in Hk. }
      destruct Hkq as [->| ->].
      * apply (other_entry w i j (set_pc c p) q (child q)); auto using marked_live.
      * intros [_ Hc]. by destruct (child_named _ Ht i _ Hi (Hlive Hpre)).
  - exists c. rewrite Hp, Hj. split_and!; try done. intros Hpre. rewrite marker_taken, decide_False; [auto|].
    intros Heq. apply Hns. subst e. by cbn.
  - exists c. rewrite Hp, Hj. split_and!; try done. intros Hpre. specialize (Hm Hpre).
    destruct (marker_stopped s h (jobs w)) as [(c0 & info & Hin & Hh & Hall)|[Hall _]]; rewrite Hall; [|done].
    rewrite decide_False; [done|]. intros [<- <-]. apply Hns. subst e. cbn. split; [done|].
    rewrite <- Hh. by apply (entry_handle i (set_pc c p) w); auto.
Qed.

Lemma set_pc_same p : set_pc (pc p) p = p.
Proof. by destruct p. Qed.

Section Reports.
Context (registry : gmap string SubagentProfile) (max_depth cap : N) (external_agents : ExternalAgentKind -> bool).
Abbreviation run := (run registry max_depth cap external_agents).
Abbreviation run_event := (run_event registry max_depth cap external_agents).
Abbreviation apart := (apart registry max_depth cap external_agents).

Lemma stop_silences e i p w :
  tidy w -> procs w !! i = Some p -> stage (pc p) = Pre -> stops p e -> silenced i p (run_event e w).
Proof.
  intros Ht Hi Hp He.
  assert (Hm : marked p) by (unfold marked; rewrite Hp; done).
  assert (Hn : forall r b, (i, r, b) ∉ reports w).
  { intros r b Hin. destruct (reported_done _ Ht i r b Hin) as (q & Hq & Hd). rewrite Hi in Hq. injection Hq as <-.
    destruct (pc p) as [| | | | | | | | | | | | | | | | |[]|[]]; cbn in *; naive_solver. }
  assert (Hw : forall w', procs w' = procs w -> reports w' = reports w -> marker (parent p) (child p) (jobs w') = None ->
    silenced i p w').
  { intros w' H1 H2 H3. exists (pc p). rewrite H1, H2, set_pc_same. auto. }
  destruct e; cbn in He; try done.
  - apply Hw; try done. cbn [run_event handle_stop]. unfold handle_stop.
    pose proof (marker_taken (parent p) (child p) session_id (jobs w)) as Hk. rewrite decide_True in Hk by done.
    by destruct (take_in_flight_background_subagents session_id (jobs w)).
  - destruct He as [-> ->]. unfold run_event, Jobs.run_event, job_stop.
    pose proof (marker_stopped (parent p) (job_handle p) (jobs w)) as Hk. cbn zeta in Hk.
    assert (Hnone : marker (parent p) (child p) (cancel_in_flight_background (parent p) (job_handle p) (jobs w)).1 = None).
    { destruct Hk as [(c0 & info & Hin & Hh & Hall)|[Hall Hno]].
      - destruct (entry_owned _ Ht _ _ _ Hin) as (j & q & Hq & Hmq & Hpa & Hch & Hqh).
        assert (j = i) as -> by (eapply (one_per_handle _ Ht); try done; congruence).
        rewrite Hi in Hq. injection Hq as <-. rewrite Hall. by rewrite decide_True.
      - rewrite Hall. destruct (marker (parent p) (child p) (jobs w)) as [info|] eqn:Hin; [|done].
        by destruct (Hno _ _ Hin (entry_handle i p w info Ht Hi Hm Hin)). }
    by destruct (cancel_in_flight_background _ _ _) as [m [info|]]; apply Hw.
Qed.

(** C17: Once [/stop] in its parent, or [JobStop] on its handle, has come while a
    background job is in flight and its escort has not looked yet, no later
    event sends its result to the parent, whatever the child, the escort and the
    other jobs do.  This holds for histories in which no child is resumed while a
    dispatch of it is under way ([apart]): a resume puts the shared entry back,
    and with it the result the stop was to silence. *)
Theorem stopped_job_silent (es es' : list event) (e : event) (i : N) (p : Proc)
    (Ha : apart (es ++ e :: es') boot) (Hi : procs (run es boot) !! i = Some p) (Hp : stage (pc p) = Pre)
    (He : stops p e) (r : PendingBackgroundResult) (b : bool) :
  (i, r, b) ∉ reports (run (es ++ e :: es') boot).
Proof.
  rewrite events_app. apply apart_app in Ha as [Ha1 [Ha2 Ha3]].
  assert (Ht : tidy (run es boot)) by (apply tidy_run; [apply tidy_boot|done]).
  assert (Hsil : silenced i p (run es' (run_event e (run es boot)))).
  { apply (kept_events _ _ _ _ (silenced i p) (fun _ => True)); try done.
    - intros e' w w' Hw Hs _. by eapply silenced_step.
    - eapply tidy_step; [exact Ht|]. by apply event_step.
    - by apply Forall_true.
    - by apply stop_silences. }
  destruct Hsil as (c & _ & Hn & _). apply Hn.
Qed.

(** C18: A background job that nobody stops keeps its entry until its own escort
    takes it out, in histories in which no child is resumed while a dispatch of
    it is under way: when a subagent has ended with a result that names it, or a
    command has exited, and the escort looks, exactly that result goes to the
    parent, under its handle.  A failure to feed the child names no child and is
    dropped ([Sample.unfed_child_keeps_entry]); a command that did not exit is
    not spoken of. *)
Theorem finished_job_reported (es es' : list event) (i : N) (p : Proc)
    (Ha : apart (es ++ es') boot) (Hi : procs (run es boot) !! i = Some p) (Hp : stage (pc p) = Pre)
    (Hm : is_background_subagent_in_flight (parent p) (child p) (jobs (run es boot)) = true)
    (Hns : Forall (fun e => ~ stops p e) es') (tail : string) (b : bool) :
  let w := run (es ++ es') boot in
  match procs w !! i with
  | None => False
  | Some q =>
      match pc q, spec q with
      | Escorting r, Dispatch req _ =>
          child_session_id r = child p ->
          reports (run [Peek i; Routed i b] w) =
          reports w ++ [(i, pending_subagent (job_handle p) (subagent_type req) (task_summary req) (child p)
                              (result_text r) (status r) (cohort p), b)]
      | CommandEscort (Exited code), Detached command path =>
          reports (run [Peek i; TailRead i tail; Routed i b] w) =
          reports w ++ [(i, pending_command (job_handle p) command code path tail (exit_status code), b)]
      | _, _ => True
      end
  end.
Proof.
  cbn zeta. rewrite events_app. apply apart_app in Ha as [Ha1 Ha2].
  assert (Ht : tidy (run es boot)) by (apply tidy_run; [apply tidy_boot|done]).
  rewrite in_flight_marker in Hm.
  assert (Htr : tracked i p (run es' (run es boot))).
  { apply (kept_events _ _ _ _ (tracked i p) (fun e => ~ stops p e)); try done.
    - intros e w w' Hw Hs Hn. by eapply tracked_step.
    - exists (pc p). rewrite set_pc_same. split_and!; [done|congruence|by intros Heq; rewrite Heq in Hp..|].
      intros _. destruct (marker _ _ _); [by eexists|done]. }
  destruct Htr as (c & Hc & _ & _ & _ & Hk). rewrite Hc. cbn. destruct c; try done.
  - destruct (spec p) as [req el|] eqn:Hs; [|done]. intros Hr. destruct (Hk eq_refl) as [info Hin].
    unfold peek. rewrite Hc. cbn. rewrite Hs, in_flight_marker, Hr, Hin. cbn. unfold routed. cbn.
    by rewrite lookup_insert_eq.
  - destruct o as [code| |]; try done. destruct (spec p) as [|command path] eqn:Hs; [done|].
    destruct (Hk eq_refl) as [info Hin]. unfold peek. rewrite Hc. cbn. rewrite in_flight_marker, Hin. cbn.
    unfold tail_read. cbn. rewrite lookup_insert_eq. cbn. rewrite Hs. unfold routed. cbn. by rewrite lookup_insert_eq.
Qed.
End Reports.

(** ** Samples *)

Module Sample.

Definition profiles : gmap string SubagentProfile := {["explore" := mk_profile "explore" None None]}.
Definition user_row : SessionRow := mk_row "s" "s" None false None None.
Definition child_row : SessionRow :=
  mk_row "c1" "s" (Some (mk_lineage "s" SubagentLineage)) false (Some BayboTag) (Some "explore").
Definition store (sid : string) : result (option SessionRow) string :=
  Ok (if String.eqb sid "s" then Some user_row else None).
Definition ask (background : bool) (resume : option string) : SpawnParams :=
  mk_params "explore" "look around" "List the files." None None background None resume None.
Abbreviation go := (run profiles 3 2 (fun _ => false)).
(** A background dispatch up to the work of its child. *)
Definition dispatch (i : N) (a : Resolution) (resume : option string) (h : string) (t : Token) : list event :=
  [Execute i store "s" 7 true (ask true resume); Loaded i (Ok true); Resolved i a h t; Touched i; Fed i (Ok tt)].
Definition work : list event := dispatch 1 (Created (Ok "c1")) None "bg-1" 5.
Definition finish (i : N) : list event := [Terminal i (Some [Text "done"]) Background.Completed; Peek i; Routed i true; Cleared i].
Definition the_job : Proc :=
  mk_proc (Dispatch (with_cohort 7 (with_root "s" (mk_request "explore" None "look around" "List the files." None true
    OnBackground None Baybo None None))) true) "s" "c1" "bg-1" 5 None Working.
Definition the_report (h : string) : PendingBackgroundResult :=
  pending_subagent h "explore" "look around" "c1" "done" Background.Completed None.

Lemma slots_accounted_witness : counts (go work boot) !! "s" = Some 1%N.
Proof.
  assert (Hcap : (2 <= u32_max)%N) by done.
  pose proof (slots_accounted profiles 3 2 (fun _ => false) Hcap work "s") as Hc. cbn zeta in Hc.
  rewrite (proj1 Hc). vm_compute. reflexivity.
Defined.
Lemma stopped_job_silent_witness :
  (1%N, the_report "bg-1", true) ∉ reports (go (work ++ StopJob "s" "bg-1" :: finish 1) boot).
Proof.
  apply (stopped_job_silent profiles 3 2 (fun _ => false) work (finish 1) (StopJob "s" "bg-1") 1%N the_job).
  - by repeat split.
  - vm_compute. reflexivity.
  - reflexivity.
  - done.
Defined.
Definition at_end : list event := [Terminal 1 (Some [Text "done"]) Background.Completed].
Lemma finished_job_reported_witness :
  reports (go [Peek 1; Routed 1 true] (go (work ++ at_end) boot)) = [(1%N, the_report "bg-1", true)].
Proof.
  assert (Ha : apart profiles 3 2 (fun _ => false) (work ++ at_end) boot) by by repeat split.
  assert (Hi : procs (go work boot) !! 1%N = Some the_job) by (vm_compute; reflexivity).
  assert (Hm : is_background_subagent_in_flight "s" "c1" (jobs (go work boot)) = true) by (vm_compute; reflexivity).
  assert (Hn : Forall (fun e => ~ stops the_job e) at_end) by (repeat constructor; by intros []).
  assert (Hq : procs (go (work ++ at_end) boot) !! 1%N
               = Some (set_pc (Escorting (mk_result "c1" (Some [Text "done"]) Background.Completed)) the_job))
    by (vm_compute; reflexivity).
  pose proof (finished_job_reported profiles 3 2 (fun _ => false) work at_end 1%N the_job Ha Hi eq_refl Hm Hn "" true) as Hr.
  cbn zeta in Hr. rewrite Hq in Hr. rewrite (Hr eq_refl). vm_compute. reflexivity.
Defined.

(** A call dropped while its child is looked up keeps its slot for good. *)
Example dropped_call_keeps_slot :
  let w := go [Execute 1 store "s" 7 true (ask false None); Loaded 1 (Ok true); Dropped 1;
               Execute 2 store "s" 7 true (ask false None); Loaded 2 (Ok true); Dropped 2;
               Execute 3 store "s" 7 true (ask false None)] boot in
  counts w !! "s" = Some 2%N /\ replies w = [(3%N, Refusal (SubagentFanoutExceeded 2 2))].
Proof. vm_compute. done. Qed.
(** Dropped at its acknowledgement, it leaves the job's entry as well. *)
Example dropped_ack_keeps_entry :
  let w := go [Execute 1 store "s" 7 true (ask true None); Loaded 1 (Ok true); Resolved 1 (Created (Ok "c1")) "bg-1" 5;
               Dropped 1; Terminal 1 None Background.Cancelled; Peek 1; Cleared 1] boot in
  is_background_subagent_in_flight "s" "c1" (jobs w) = true /\ counts w !! "s" = Some 1%N.
Proof. vm_compute. done. Qed.
(** A child resumed in the background while it is still at work: whichever ends
    first takes the other's entry out, and a result nobody stopped is dropped. *)
Example resumed_at_work_loses_result :
  let w := go (work ++ dispatch 2 (Fetched (Ok (Some child_row))) (Some "c1") "bg-2" 6 ++ finish 1 ++ finish 2) boot in
  reports w = [(1%N, the_report "bg-1", true)] /\ is_over <$> (pc <$> procs w !! 2%N) = Some true.
Proof. vm_compute. done. Qed.
(** A child that cannot be fed fails under no session id: its entry stays and
    its failure is not reported. *)
Example unfed_child_keeps_entry :
  let w := go ([Execute 1 store "s" 7 true (ask true None); Loaded 1 (Ok true); Resolved 1 (Created (Ok "c1")) "bg-1" 5;
                Touched 1; Fed 1 (Err "mailbox closed"); Peek 1; Routed 1 true; Cleared 1]) boot in
  is_background_subagent_in_flight "s" "c1" (jobs w) = true /\ reports w = [] /\ counts w !! "s" = None.
Proof. vm_compute. done. Qed.
End Sample.
End Jobs.
