(* ===== verification/BashScan.v ===== *)
(** * What a shell command may delete ([crates/tools/src/builtin/bash/parse.rs])

    The Bash tool asks for permission when a command line deletes.  It looks at
    the command position of every simple command the line can run, through
    wrappers, interpreters, substitutions and redirections, in the tree of a
    third-party parser.  The tree is here as the scan takes it apart; the parsers
    of programs, of words and of quoting are arguments.  [runs] says what runs
    what, without a budget; the option grammars of wrappers, interpreters and
    git it rests on are inductive relations written apart from the scan's code,
    and the scan is proved to agree with it. *)

From S2P Require Import Prelude Message Wire.

Module BashScan.

(** ** The tree *)

Inductive CompoundList := mk_list (items : list AndOrList)
with AndOrList := mk_and_or (first : Pipeline) (additional : list Pipeline)
with Pipeline := mk_pipeline (seq : list Command)
with Command :=
| Simple (prefix : list Item) (word_or_name : option string) (suffix : list Item)
| Compound (c : CompoundCommand) (redirs : list IoRedirect)
| Function (body : CompoundCommand) (redirs : list IoRedirect)
| ExtendedTest (e : ExtendedTestExpr) (redirs : list IoRedirect)
with Item :=
| ItemRedirect (r : IoRedirect)
| ItemWord (w : string)
| ItemAssignment (w : string)
| ItemProcess (subshell : CompoundList)
with IoRedirect :=
| FileProcess (subshell : CompoundList)
| FileWord (w : string)          (** a file name, or a duplicated descriptor's word *)
| FileFd
| HereDocument (requires_expansion : bool) (doc : string)
| HereString (w : string)
| OutputAndError (w : string)
with CompoundCommand :=
| BraceGroup (l : CompoundList)
| Subshell (l : CompoundList)
| ForClause (values : list string) (body : CompoundList)
| ArithmeticForClause (initializer condition updater : option string) (body : CompoundList)
| LoopClause (condition body : CompoundList)   (** [while] and [until] *)
| IfClause (condition body : CompoundList) (elses : list (option CompoundList * CompoundList))
| CaseClause (value : string) (cases : list (list string * option CompoundList))
| Coprocess (body : Command)
| Arithmetic (expr : string)
with ExtendedTestExpr :=
| TestBoth (a b : ExtendedTestExpr)             (** [And], [Or] *)
| TestInner (e : ExtendedTestExpr)              (** [Not], [Parenthesized] *)
| UnaryTest (w : string)
| BinaryTest (a b : string).
(** The complete commands of a program. *)
Abbreviation Program := (list CompoundList).

Inductive WordPiece :=
| CommandSubstitution (inner : string)          (** [$(…)] or backquotes *)
| DoubleQuoted (inner : list WordPieceWithSource)
| Expansion                                     (** a parameter or an arithmetic expansion *)
| OtherPiece
with WordPieceWithSource := mk_piece (piece : WordPiece) (start_index end_index : nat).

(** ** Words *)

Definition strip_path (s : string) : string := default s (last (Str.split_char "/" s)).
Definition first_token (command : string) : option string :=
  match head (Str.words command) with
  | None => None
  | Some raw =>
      let bare := Str.trim_start_chars ["\"]%char raw in
      if Str.contains "=" bare && negb (Str.starts_with "=" bare) then None else Some (strip_path bare)
  end.
Definition STANDALONE_DELETE_TOKENS : list string := ["rm"; "rmdir"; "unlink"; "shred"; "srm"; "wipe"].
Definition WRAPPER_COMMANDS : list string :=
  ["xargs"; "nohup"; "nice"; "ionice"; "timeout"; "sudo"; "doas"; "env"; "command"; "exec"].
Definition MAX_PARSE_DEPTH : nat := 32.
Definition MAX_EVENT_COMMAND_CHARS : nat := 2000.
Definition truncate_for_event (command : string) : string :=
  if Nat.leb (Str.char_count command) MAX_EVENT_COMMAND_CHARS then command
  else (Str.take_chars MAX_EVENT_COMMAND_CHARS command +:+ "…(truncated)…")%string.
Definition raw_mentions_delete_keyword (command : string) : bool :=
  existsb (fun t => Str.contains t command) STANDALONE_DELETE_TOKENS
  || Str.contains "-delete" command || Str.contains "git" command.

Definition one_of (l : list string) (s : string) : bool := bool_decide (s ∈ l).

(** *** Flags *)

Definition is_flag (a : string) : bool := Str.starts_with "-" a && Nat.ltb 1 (String.length a).
(** Letters after one dash, one of them [c]. *)
Definition short_group (c : string) (a : string) : bool :=
  match Str.strip_prefix "-" a with
  | Some rest => negb (String.eqb rest "") && Str.forallb Str.is_ascii_alphabetic rest && Str.contains c rest
  | None => false
  end.
Definition is_c_flag (a : string) : bool :=
  String.eqb a "-c" || (negb (Str.starts_with "--" a) && short_group "c" a).
Definition command_string_after_c_flag (args : list string) : option string :=
  position is_c_flag args ≫= fun i => args !! S i.
Fixpoint split_string_value (args : list string) : option string :=
  match args with
  | [] => None
  | a :: args =>
      if one_of ["-S"; "--split-string"] a then head args
      else match Str.strip_prefix "--split-string=" a with
           | Some v => Some v
           | None => match Str.strip_prefix "-S" a with
                     | Some v => if String.eqb v "" then split_string_value args else Some v
                     | None => split_string_value args
                     end
           end
  end.
Definition is_env_assignment (tok : string) : bool :=
  match Str.split_at_char "=" tok with
  | Some (String first rest, _) =>
      (Str.is_ascii_alphabetic first || Ascii.eqb first "_")
      && Str.forallb (fun c => Str.is_ascii_alphanumeric c || Ascii.eqb c "_") rest
  | _ => false
  end.

(** *** Git and find *)

Definition is_git_clean_destructive_flag (arg : string) : bool :=
  one_of ["-f"; "--force"] arg || (negb (Str.starts_with "--" arg) && short_group "f" arg).
(** The options before the subcommand, and the values of those that take one. *)
Fixpoint git_subcommand (args : list string) : list string :=
  match args with
  | [] => []
  | a :: args' =>
      if one_of ["-c"; "-C"; "--git-dir"; "--work-tree"; "--namespace"; "--super-prefix"] a then
        match args' with _ :: args'' => git_subcommand args'' | [] => [] end
      else if Str.starts_with "--" a || one_of ["-p"; "-P"] a then git_subcommand args'
      else args
  end.
Definition git_args_are_destructive (args : list string) : bool :=
  match git_subcommand args with
  | [] => false
  | sub :: rest =>
      if String.eqb sub "clean" then existsb is_git_clean_destructive_flag rest
      else if String.eqb sub "reset" then one_of rest "--hard"
      else if String.eqb sub "branch" then existsb (one_of ["-d"; "-D"; "--delete"; "--delete-merged"]) rest
      else if String.eqb sub "tag" then existsb (one_of ["-d"; "--delete"]) rest
      else if String.eqb sub "push" then
        existsb (fun a => one_of ["-f"; "-d"; "--force"; "--force-with-lease"; "--delete"] a
                          || Str.starts_with "--force-with-lease=" a || Str.starts_with "--force-if-includes" a) rest
      else if String.eqb sub "stash" then match head rest with Some a => one_of ["drop"; "clear"] a | None => false end
      else if String.eqb sub "worktree" then match head rest with Some a => String.eqb a "remove" | None => false end
      else if String.eqb sub "update-ref" then existsb (one_of ["-d"; "--delete"]) rest
      else if one_of ["filter-branch"; "filter-repo"] sub then true
      else if String.eqb sub "rm" then negb (existsb (one_of ["--cached"; "-n"; "--dry-run"]) rest)
      else false
  end.
Definition EXEC_PRIMARIES : list string := ["-exec"; "-execdir"; "-ok"; "-okdir"].
(** What each [-exec] runs. *)
Fixpoint exec_targets (args : list string) : list (list string) :=
  match args with
  | [] => []
  | a :: args => (if one_of EXEC_PRIMARIES a then [args] else []) ++ exec_targets args
  end.

(** *** Wrappers *)

(** The arguments from the first that is not an option; an option of [valued]
    takes the next argument along. *)
Fixpoint skip_options (valued : list string) (other : string -> bool) (rest : list string) : list string :=
  match rest with
  | [] => []
  | a :: rest' =>
      if one_of valued a then match rest' with _ :: rest'' => skip_options valued other rest'' | [] => [] end
      else if is_flag a || other a then skip_options valued other rest'
      else rest
  end.
Definition no_other (_ : string) : bool := false.
(** [command -v] asks, it runs nothing. *)
Fixpoint skip_command_options (rest : list string) : list string :=
  match rest with
  | [] => []
  | a :: rest' => if one_of ["-v"; "-V"] a then [] else if is_flag a then skip_command_options rest' else rest
  end.
Definition wrapped_rest (wrapper : string) (rest : list string) : list string :=
  if String.eqb wrapper "command" then skip_command_options rest
  else if String.eqb wrapper "env" then
    skip_options ["-u"; "--unset"; "-C"; "--chdir"; "-a"; "--argv0"] is_env_assignment rest
  else if String.eqb wrapper "xargs" then
    skip_options ["-I"; "-n"; "-P"; "-L"; "-d"; "-E"; "-s"; "-a"; "--max-args"; "--max-procs"; "--delimiter";
                  "--max-chars"; "--arg-file"] no_other rest
  else if String.eqb wrapper "timeout" then drop 1 (skip_options ["-s"; "--signal"; "-k"; "--kill-after"] no_other rest)
  else if one_of ["nice"; "ionice"] wrapper then skip_options ["-n"; "--adjustment"; "-c"; "-p"; "-t"] no_other rest
  else if one_of ["sudo"; "doas"] wrapper then
    skip_options ["-u"; "--user"; "-g"; "--group"; "-U"; "--other-user"; "-C"; "--close-from"; "-D"; "--chdir"; "-h";
                  "--host"; "-p"; "--prompt"; "-r"; "--role"; "-t"; "--type"; "-R"; "--chroot"; "-T";
                  "--command-timeout"] no_other rest
  else if String.eqb wrapper "exec" then skip_options ["-a"] no_other rest
  else skip_options [] no_other rest.
Definition resolve_wrapped (wrapper : string) (rest : list string) : option (list string) :=
  match wrapped_rest wrapper rest with [] => None | inner => Some inner end.

Lemma skip_options_length valued other rest : length (skip_options valued other rest) <= length rest.
Proof.
  remember (length rest) as n eqn:E. assert (length rest <= n) as H by lia. clear E. revert rest H.
  induction n as [|n IH]; intros [|a rest]; cbn [length skip_options]; try lia. intros H.
  destruct (one_of valued a); [destruct rest as [|b rest]; cbn [length] in *; [lia|] |
    destruct (is_flag a || other a); cbn [length]; [|lia]].
  - specialize (IH rest ltac:(lia)). lia.
  - specialize (IH rest ltac:(lia)). lia.
Qed.
Lemma wrapped_length wrapper rest : length (wrapped_rest wrapper rest) <= length rest.
Proof.
  unfold wrapped_rest. repeat case_match; try apply skip_options_length.
  - induction rest as [|a rest IH]; cbn [skip_command_options]; [lia|]. repeat case_match; cbn [length]; lia.
  - rewrite length_drop. pose proof (skip_options_length ["-s"; "--signal"; "-k"; "--kill-after"] no_other rest). lia.
Qed.
Lemma resolve_wrapped_length wrapper rest inner : resolve_wrapped wrapper rest = Some inner -> length inner <= length rest.
Proof.
  unfold resolve_wrapped. pose proof (wrapped_length wrapper rest). case_match; [done|]. by intros [= <-].
Qed.
Lemma exec_targets_length args t : t ∈ exec_targets args -> length t < length args.
Proof.
  induction args as [|a args IH]; cbn [exec_targets]; [by intros H%not_elem_of_nil|].
  intros [Ht|Ht]%elem_of_app; cbn [length].
  - destruct (one_of _ a); [apply list_elem_of_singleton in Ht as ->; lia | by apply not_elem_of_nil in Ht].
  - specialize (IH Ht). lia.
Qed.


(** *** Expansions *)

Definition stripped (open close s : string) : option string := Str.strip_prefix open s ≫= Str.strip_suffix close.
Definition expansion_body (src : string) : option string :=
  match stripped "$((" "))" src with
  | Some inner => Some inner
  | None => match stripped "$[" "]" src with
            | Some inner => Some inner
            | None => stripped "${" "}" src
            end
  end.

(** ** What utilities do with their arguments

    Said apart from the scan: which name a path ends in, which of a utility's
    words are its own options, what it runs and what it deletes.  These are the
    forms the scan knows; a form it does not know, such as an assignment after
    [sudo], is not here. *)

(** [b] is the last component of the path [a]. *)
Definition named (a b : string) : Prop :=
  Str.contains_char "/" b = false /\ (a = b \/ exists dir, a = (dir +:+ "/" +:+ b)%string).
Definition dashed (a : string) : Prop := exists c s, a = String "-" (String c s).
(** Letters after one dash, among them [c]. *)
Definition letters_with (c a : string) : Prop :=
  exists x y, a = ("-" +:+ x +:+ c +:+ y)%string /\ Str.forallb Str.is_ascii_alphabetic (x +:+ c +:+ y)%string = true.
Definition assigns (a : string) : Prop :=
  exists c name value, a = (String c name +:+ "=" +:+ value)%string /\
    (Str.is_ascii_alphabetic c = true \/ c = "_"%char) /\
    Str.forallb (fun d => Str.is_ascii_alphanumeric d || Ascii.eqb d "_") name = true.
Definition opens (p a : string) : Prop := exists s, a = (p +:+ s)%string.

(** The words a utility keeps for itself: an option of [valued] with its value,
    or a [plain] word; and what begins after them. *)
Inductive own (valued : list string) (plain : string -> Prop) : list string -> Prop :=
| own_none : own valued plain []
| own_value o v l : o ∈ valued -> own valued plain l -> own valued plain (o :: v :: l)
| own_plain o l : o ∉ valued -> plain o -> own valued plain l -> own valued plain (o :: l).
Definition begins (valued : list string) (plain : string -> Prop) (inner : list string) : Prop :=
  match inner with a :: _ => (a ∉ valued) /\ ~ plain a | [] => False end.

(** [wraps w args inner]: given [args], the utility [w] runs [inner]. *)
Inductive wraps : string -> list string -> list string -> Prop :=
| wraps_nohup o inner : own [] dashed o -> begins [] dashed inner -> wraps "nohup" (o ++ inner) inner
| wraps_exec o inner : own ["-a"] dashed o -> begins ["-a"] dashed inner -> wraps "exec" (o ++ inner) inner
| wraps_command o inner :
    Forall (fun a => dashed a /\ a <> "-v" /\ a <> "-V")%string o -> begins ["-v"; "-V"] dashed inner ->
    wraps "command" (o ++ inner) inner
| wraps_nice w o inner :
    let valued := ["-n"; "--adjustment"; "-c"; "-p"; "-t"] in
    w ∈ ["nice"; "ionice"] -> own valued dashed o -> begins valued dashed inner -> wraps w (o ++ inner) inner
| wraps_timeout o duration inner :
    let valued := ["-s"; "--signal"; "-k"; "--kill-after"] in
    own valued dashed o -> begins valued dashed [duration] -> inner <> [] -> wraps "timeout" (o ++ duration :: inner) inner
| wraps_sudo w o inner :
    let valued := ["-u"; "--user"; "-g"; "--group"; "-U"; "--other-user"; "-C"; "--close-from"; "-D"; "--chdir"; "-h";
                   "--host"; "-p"; "--prompt"; "-r"; "--role"; "-t"; "--type"; "-R"; "--chroot"; "-T";
                   "--command-timeout"] in
    w ∈ ["sudo"; "doas"] -> own valued dashed o -> begins valued dashed inner -> wraps w (o ++ inner) inner
| wraps_env o inner :
    let valued := ["-u"; "--unset"; "-C"; "--chdir"; "-a"; "--argv0"] in
    let plain a := dashed a \/ assigns a in
    own valued plain o -> begins valued plain inner -> wraps "env" (o ++ inner) inner
| wraps_xargs o inner :
    let valued := ["-I"; "-n"; "-P"; "-L"; "-d"; "-E"; "-s"; "-a"; "--max-args"; "--max-procs"; "--delimiter";
                   "--max-chars"; "--arg-file"] in
    own valued dashed o -> begins valued dashed inner -> wraps "xargs" (o ++ inner) inner.

(** [interprets w args s]: given [args], [w] reads the text [s] as commands. *)
Definition splits (a : string) : Prop := a = "-S"%string \/ a = "--split-string"%string \/ opens "--split-string=" a \/ opens "-S" a.
Inductive interprets : string -> list string -> string -> Prop :=
| interprets_shell w before f s after :
    w ∈ ["sh"; "bash"; "dash"; "zsh"; "ksh"; "mksh"; "ash"] -> Forall (fun a => ~ letters_with "c" a) before ->
    letters_with "c" f -> interprets w (before ++ f :: s :: after) s
| interprets_eval args : interprets "eval" args (Wire.joined " " args)
| interprets_split before o s after :
    Forall (fun a => ~ splits a) before -> o ∈ ["-S"; "--split-string"] -> interprets "env" (before ++ o :: s :: after) s
| interprets_split_long before s after :
    Forall (fun a => ~ splits a) before -> interprets "env" (before ++ ("--split-string=" +:+ s)%string :: after) s
| interprets_split_short before s after :
    Forall (fun a => ~ splits a) before -> s <> EmptyString -> interprets "env" (before ++ ("-S" +:+ s)%string :: after) s.

(** What [git] deletes. *)
Inductive subcommand_deletes : string -> list string -> Prop :=
| git_clean args a : a ∈ args -> a = "--force"%string \/ letters_with "f" a -> subcommand_deletes "clean" args
| git_reset args : "--hard" ∈ args -> subcommand_deletes "reset" args
| git_branch args a : a ∈ args -> a ∈ ["-d"; "-D"; "--delete"; "--delete-merged"] -> subcommand_deletes "branch" args
| git_tag args a : a ∈ args -> a ∈ ["-d"; "--delete"] -> subcommand_deletes "tag" args
| git_push args a :
    a ∈ args -> a ∈ ["-f"; "-d"; "--force"; "--force-with-lease"; "--delete"] \/ opens "--force-with-lease=" a
                \/ opens "--force-if-includes" a ->
    subcommand_deletes "push" args
| git_stash a args : a ∈ ["drop"; "clear"] -> subcommand_deletes "stash" (a :: args)
| git_worktree args : subcommand_deletes "worktree" ("remove" :: args)
| git_update_ref args a : a ∈ args -> a ∈ ["-d"; "--delete"] -> subcommand_deletes "update-ref" args
| git_filter sub args : sub ∈ ["filter-branch"; "filter-repo"] -> subcommand_deletes sub args
| git_rm args : Forall (fun a => a ∉ ["--cached"; "-n"; "--dry-run"]) args -> subcommand_deletes "rm" args.
Definition git_deletes (args : list string) : Prop :=
  let valued := ["-c"; "-C"; "--git-dir"; "--work-tree"; "--namespace"; "--super-prefix"] in
  let plain a := opens "--" a \/ a ∈ ["-p"; "-P"] in
  exists o sub rest, args = o ++ sub :: rest /\ own valued plain o /\ begins valued plain [sub] /\ subcommand_deletes sub rest.

(** A text that speaks of deletion. *)
Definition mentions (s : string) : Prop :=
  exists k x y, k ∈ ["rm"; "rmdir"; "unlink"; "shred"; "srm"; "wipe"; "-delete"; "git"] /\ s = (x +:+ k +:+ y)%string.

(** *** The scan's reading of them *)

Lemma one_of_true l s : one_of l s = true <-> s ∈ l.
Proof. apply bool_decide_eq_true. Qed.
Lemma one_of_false l s : one_of l s = false <-> s ∉ l.
Proof. apply bool_decide_eq_false. Qed.
Lemma opens_spec p a : Str.starts_with p a = true <-> opens p a.
Proof. apply Str.starts_with_spec. Qed.
Lemma is_flag_spec a : is_flag a = true <-> dashed a.
Proof.
  unfold is_flag. rewrite andb_true_iff, Nat.ltb_lt, Str.starts_with_spec. split.
  - intros [[[|c s] ->] H]; [cbn in H; lia | by exists c, s].
  - intros (c & s & ->). split; [by exists (String c s) | cbn; lia].
Qed.
Lemma short_group_spec c a : c <> EmptyString -> short_group c a = true <-> letters_with c a.
Proof.
  intros Hc. unfold short_group, letters_with. destruct (Str.strip_prefix "-" a) as [rest|] eqn:E.
  - apply Str.strip_prefix_spec in E as ->. rewrite !andb_true_iff, Str.contains_spec. split.
    + intros [[_ Hl] (x & y & ->)]. by exists x, y.
    + intros (x & y & Ea & Hl). injection Ea as ->. split_and!; [|done|by exists x, y].
      by destruct x, c.
  - split; [done|]. intros (x & y & -> & _). discriminate E.
Qed.
Lemma double_dash_no_letters c a : Str.starts_with "--" a = true -> letters_with c a -> False.
Proof.
  intros (r & ->)%Str.starts_with_spec (x & y & E & H). cbn in E. injection E as E. rewrite <- E in H. discriminate H.
Qed.
Lemma is_c_flag_spec a : is_c_flag a = true <-> letters_with "c" a.
Proof.
  unfold is_c_flag. rewrite orb_true_iff, andb_true_iff, negb_true_iff, short_group_spec, String.eqb_eq by done. split.
  - intros [->|[_ H]]; [by exists EmptyString, EmptyString | done].
  - intros H. right. split; [|done]. destruct (Str.starts_with "--" a) eqn:E; [|done]. by destruct (double_dash_no_letters "c" a).
Qed.
Lemma clean_flag_spec a : is_git_clean_destructive_flag a = true <-> a = "--force"%string \/ letters_with "f" a.
Proof.
  unfold is_git_clean_destructive_flag. rewrite orb_true_iff, andb_true_iff, negb_true_iff, short_group_spec, one_of_true by done. split.
  - intros [H|[_ H]]; [|by right]. apply elem_of_cons in H as [->|H%list_elem_of_singleton]; [right; by exists EmptyString, EmptyString | by left].
  - intros [->|H]; [left; set_solver|]. right. split; [|done]. destruct (Str.starts_with "--" a) eqn:E; [|done].
    by destruct (double_dash_no_letters "f" a).
Qed.
Lemma split_at_char_inv c s a b : Str.split_at_char c s = Some (a, b) -> s = (a +:+ String c b)%string.
Proof.
  revert a. induction s as [|d s IH]; intros a; cbn [Str.split_at_char]; [done|].
  destruct (Ascii.eqb_spec c d) as [->|_]; [by intros [= <- <-]|].
  destruct (Str.split_at_char c s) as [[a' b']|]; [|done]. intros [= <- <-]. by rewrite (IH a' eq_refl).
Qed.
Lemma assigns_spec a : is_env_assignment a = true <-> assigns a.
Proof.
  unfold is_env_assignment, assigns. split.
  - destruct (Str.split_at_char "=" a) as [[[|c name] value]|] eqn:E; try done. apply split_at_char_inv in E as ->.
    rewrite andb_true_iff, orb_true_iff, Ascii.eqb_eq. intros [Hc Hn]. by exists c, name, value.
  - intros (c & name & value & -> & Hc & Hn). change (String c name +:+ "=" +:+ value)%string with (String c name +:+ String "=" value)%string.
    rewrite Str.split_at_char_app; [rewrite andb_true_iff, orb_true_iff, Ascii.eqb_eq; by split|].
    cbn [Str.contains_char]. apply orb_false_iff. split.
    + destruct (Ascii.eqb_spec "=" c) as [<-|]; [by destruct Hc | done].
    + clear Hc. induction name as [|d name IH]; [done|]. cbn [Str.forallb Str.contains_char] in Hn |- *. apply andb_true_iff in Hn as [Hd Hn].
      rewrite IH by done. destruct (Ascii.eqb_spec "=" d) as [<-|]; [discriminate Hd | done].
Qed.
Lemma skip_options_spec valued other plain rest inner :
  (forall a, is_flag a || other a = true <-> plain a) -> inner <> [] ->
  skip_options valued other rest = inner <-> exists o, rest = o ++ inner /\ own valued plain o /\ begins valued plain inner.
Proof.
  intros Hp Hne. split.
  - intros E. remember (length rest) as n eqn:En. assert (length rest <= n) as H by lia. clear En. revert rest H E.
    induction n as [|n IH]; intros [|a rest]; cbn [length skip_options]; try lia; try (by intros _ <-).
    intros H. destruct (one_of valued a) eqn:Ev.
    + destruct rest as [|v rest]; [by intros <-|]. cbn [length] in H. intros E.
      destruct (IH rest ltac:(lia) E) as (o & -> & Ho & Hb). exists (a :: v :: o). split_and!; [done| |done].
      apply own_value; [by apply one_of_true | done].
    + destruct (is_flag a || other a) eqn:Ea; intros E.
      * destruct (IH rest ltac:(lia) E) as (o & -> & Ho & Hb). exists (a :: o). split_and!; [done| |done].
        apply own_plain; [by apply one_of_false | by apply Hp | done].
      * exists []. subst inner. split_and!; [done | constructor|]. split; [by apply one_of_false|].
        intros Ha%Hp. congruence.
  - intros (o & -> & Ho & Hb). induction Ho as [|k v o Hk _ IH|k o Hk Hf _ IH]; cbn [app skip_options].
    + destruct inner as [|a inner]; [done|]. destruct Hb as [Hv Hf]. cbn [skip_options].
      rewrite (proj2 (one_of_false _ _) Hv). destruct (is_flag a || other a) eqn:Ea; [by apply Hp in Ea | done].
    + by rewrite (proj2 (one_of_true _ _) Hk).
    + by rewrite (proj2 (one_of_false _ _) Hk), (proj2 (Hp k) Hf).
Qed.
Lemma skip_dashed valued rest inner : inner <> [] ->
  skip_options valued no_other rest = inner <-> exists o, rest = o ++ inner /\ own valued dashed o /\ begins valued dashed inner.
Proof. apply skip_options_spec. intros a. unfold no_other. rewrite orb_false_r. apply is_flag_spec. Qed.
Lemma skip_command_spec rest inner : inner <> [] ->
  skip_command_options rest = inner <-> exists o, rest = o ++ inner /\
    Forall (fun a => dashed a /\ a <> "-v" /\ a <> "-V")%string o /\ begins ["-v"; "-V"] dashed inner.
Proof.
  intros Hne. split.
  - induction rest as [|a rest IH]; cbn [skip_command_options]; [by intros <-|].
    destruct (one_of ["-v"; "-V"] a) eqn:Ev; [by intros <-|]. apply one_of_false in Ev. destruct (is_flag a) eqn:Ea.
    + intros E. destruct (IH E) as (o & -> & Ho & Hb). exists (a :: o). split_and!; [done| |done]. constructor; [|done].
      split; [by apply is_flag_spec | set_solver].
    + intros <-. exists []. split_and!; [done | constructor|]. split; [done|]. intros H%is_flag_spec. congruence.
  - intros (o & -> & Ho & Hb). induction Ho as [|k o (Hk & H1 & H2) _ IH]; cbn [app skip_command_options].
    + destruct inner as [|a inner]; [done|]. destruct Hb as [Hv Hf]. cbn [skip_command_options].
      rewrite (proj2 (one_of_false _ _) Hv). destruct (is_flag a) eqn:Ea; [by apply is_flag_spec in Ea | done].
    + rewrite (proj2 (one_of_false ["-v"; "-V"] k)) by set_solver. by rewrite (proj2 (is_flag_spec k) Hk).
Qed.
Lemma exec_targets_spec args t : t ∈ exec_targets args <->
  exists before p, args = before ++ p :: t /\ p ∈ ["-exec"; "-execdir"; "-ok"; "-okdir"].
Proof.
  induction args as [|a args IH]; cbn [exec_targets].
  { rewrite elem_of_nil. split; [done|]. by intros ([|? ?] & p & E & _). }
  rewrite elem_of_app, IH. split.
  - intros [H|(before & p & -> & Hp)]; [|by exists (a :: before), p]. destruct (one_of EXEC_PRIMARIES a) eqn:Ea.
    + apply list_elem_of_singleton in H as ->. exists [], a. split; [done|]. by apply one_of_true in Ea.
    + by apply not_elem_of_nil in H.
  - intros ([|b before] & p & E & Hp); injection E as -> ->; [|right; by exists before, p].
    left. rewrite (proj2 (one_of_true EXEC_PRIMARIES p) Hp). by left.
Qed.
Lemma wrapped_skip w rest inner valued :
  wrapped_rest w rest = skip_options valued no_other rest ->
  resolve_wrapped w rest = Some inner <->
  exists o, rest = o ++ inner /\ own valued dashed o /\ begins valued dashed inner.
Proof.
  unfold resolve_wrapped. intros ->. split.
  - destruct (skip_options valued no_other rest) as [|a l] eqn:E; [done|]. intros [= <-]. by apply skip_dashed in E.
  - intros H. assert (inner <> []) as Hne by (by destruct H as (o & _ & _ & Hb); destruct inner).
    apply skip_dashed in H as ->; [|done]. by destruct inner.
Qed.
Lemma env_skip rest inner :
  resolve_wrapped "env" rest = Some inner <->
  exists o, let valued := ["-u"; "--unset"; "-C"; "--chdir"; "-a"; "--argv0"] in let plain a := dashed a \/ assigns a in
    rest = o ++ inner /\ own valued plain o /\ begins valued plain inner.
Proof.
  unfold resolve_wrapped. change (wrapped_rest "env" rest)
    with (skip_options ["-u"; "--unset"; "-C"; "--chdir"; "-a"; "--argv0"] is_env_assignment rest).
  set (valued := ["-u"; "--unset"; "-C"; "--chdir"; "-a"; "--argv0"]).
  assert (forall a, is_flag a || is_env_assignment a = true <-> dashed a \/ assigns a) as Hp.
  { intros a. by rewrite orb_true_iff, is_flag_spec, assigns_spec. }
  split.
  - destruct (skip_options valued is_env_assignment rest) as [|a l] eqn:E; [done|]. intros [= <-].
    by apply (skip_options_spec _ _ _ _ _ Hp) in E.
  - intros H. assert (inner <> []) as Hne by (by destruct H as (o & _ & _ & Hb); destruct inner).
    apply (skip_options_spec _ _ _ _ _ Hp Hne) in H as ->. by destruct inner.
Qed.
Lemma command_skip rest inner :
  resolve_wrapped "command" rest = Some inner <->
  exists o, rest = o ++ inner /\ Forall (fun a => dashed a /\ a <> "-v" /\ a <> "-V")%string o /\ begins ["-v"; "-V"] dashed inner.
Proof.
  unfold resolve_wrapped. change (wrapped_rest "command" rest) with (skip_command_options rest). split.
  - destruct (skip_command_options rest) as [|a l] eqn:E; [done|]. intros [= <-]. by apply skip_command_spec in E.
  - intros H. assert (inner <> []) as Hne by (by destruct H as (o & _ & _ & Hb); destruct inner).
    apply skip_command_spec in H as ->; [|done]. by destruct inner.
Qed.
Lemma timeout_skip rest inner :
  resolve_wrapped "timeout" rest = Some inner <->
  exists o duration, let valued := ["-s"; "--signal"; "-k"; "--kill-after"] in
    rest = o ++ duration :: inner /\ own valued dashed o /\ begins valued dashed [duration] /\ inner <> [].
Proof.
  unfold resolve_wrapped. set (valued := ["-s"; "--signal"; "-k"; "--kill-after"]).
  change (wrapped_rest "timeout" rest) with (drop 1 (skip_options valued no_other rest)). split.
  - destruct (skip_options valued no_other rest) as [|d [|a l]] eqn:E; [done..|]. intros [= <-].
    apply skip_dashed in E as (o & -> & Ho & Hb); [|done]. by exists o, d.
  - intros (o & d & -> & Ho & Hb & Hne).
    assert (skip_options valued no_other (o ++ d :: inner) = d :: inner) as ->.
    { apply skip_dashed; [done|]. by exists o. }
    by destruct inner.
Qed.
Lemma resolve_wraps w rest inner :
  one_of WRAPPER_COMMANDS w = true /\ resolve_wrapped w rest = Some inner <-> wraps w rest inner.
Proof.
  split.
  - intros [Hw E]. apply one_of_true in Hw. unfold WRAPPER_COMMANDS in Hw.
    repeat (apply elem_of_cons in Hw as [->|Hw]); [.. | by apply not_elem_of_nil in Hw].
    + eapply wrapped_skip in E as (o & -> & Ho & Hb); [|reflexivity]. by constructor.
    + eapply wrapped_skip in E as (o & -> & Ho & Hb); [|reflexivity]. by constructor.
    + eapply wrapped_skip in E as (o & -> & Ho & Hb); [|reflexivity]. apply wraps_nice; [set_solver | done..].
    + eapply wrapped_skip in E as (o & -> & Ho & Hb); [|reflexivity]. apply wraps_nice; [set_solver | done..].
    + apply timeout_skip in E as (o & d & -> & Ho & Hb & Hne). by constructor.
    + eapply wrapped_skip in E as (o & -> & Ho & Hb); [|reflexivity]. apply wraps_sudo; [set_solver | done..].
    + eapply wrapped_skip in E as (o & -> & Ho & Hb); [|reflexivity]. apply wraps_sudo; [set_solver | done..].
    + apply env_skip in E as (o & -> & Ho & Hb). by constructor.
    + apply command_skip in E as (o & -> & Ho & Hb). by constructor.
    + eapply wrapped_skip in E as (o & -> & Ho & Hb); [|reflexivity]. by constructor.
  - intros H. split.
    + apply one_of_true. unfold WRAPPER_COMMANDS. destruct H; set_solver.
    + destruct H as [o inner Ho Hb|o inner Ho Hb|o inner Ho Hb|w o inner v Hw Ho Hb|o d inner v Ho Hb Hne|w o inner v Hw Ho Hb
                    |o inner v p Ho Hb|o inner v Ho Hb].
      * eapply wrapped_skip; [reflexivity | by exists o].
      * eapply wrapped_skip; [reflexivity | by exists o].
      * apply command_skip. by exists o.
      * repeat (apply elem_of_cons in Hw as [->|Hw]); [.. | by apply not_elem_of_nil in Hw];
          (eapply wrapped_skip; [reflexivity | by exists o]).
      * apply timeout_skip. by exists o, d.
      * repeat (apply elem_of_cons in Hw as [->|Hw]); [.. | by apply not_elem_of_nil in Hw];
          (eapply wrapped_skip; [reflexivity | by exists o]).
      * apply env_skip. by exists o.
      * eapply wrapped_skip; [reflexivity | by exists o].
Qed.
Lemma c_flag_behind a args s : ~ letters_with "c" a ->
  (exists before f after, args = before ++ f :: s :: after /\ Forall (fun a => ~ letters_with "c" a) before /\ letters_with "c" f) <->
  (exists before f after, a :: args = before ++ f :: s :: after /\ Forall (fun a => ~ letters_with "c" a) before /\ letters_with "c" f).
Proof.
  intros Ha. split.
  - intros (before & f & after & -> & Hb & Hf). exists (a :: before), f, after. by split_and!; [|constructor|].
  - intros ([|k before] & f & after & E & Hb & Hf); injection E as -> ->; [done|]. exists before, f, after.
    split_and!; [done | by apply Forall_inv_tail in Hb | done].
Qed.
Lemma c_flag_spec args s :
  command_string_after_c_flag args = Some s <->
  exists before f after, args = before ++ f :: s :: after /\ Forall (fun a => ~ letters_with "c" a) before /\ letters_with "c" f.
Proof.
  unfold command_string_after_c_flag. induction args as [|a args IH].
  { split; [done|]. by intros ([|? ?] & f & after & E & _). }
  cbn [position]. destruct (is_c_flag a) eqn:Ea.
  - cbn [mbind option_bind]. change ((a :: args) !! 1) with (args !! 0). apply is_c_flag_spec in Ea. split.
    + intros E. destruct args as [|b args]; [done|]. injection E as ->. exists [], a, args. by split_and!.
    + intros (before & f & after & E & Hb & Hf). destruct before as [|k before]; [by injection E as -> ->|].
      injection E as <- ->. by apply Forall_inv in Hb.
  - destruct (position is_c_flag args) as [i|]; cbn [fmap option_fmap option_map mbind option_bind] in *.
    + change ((a :: args) !! S (S i)) with (args !! S i). rewrite IH. apply c_flag_behind. intros H%is_c_flag_spec. congruence.
    + rewrite IH. apply c_flag_behind. intros H%is_c_flag_spec. congruence.
Qed.
Lemma splits_spec a :
  splits a <-> one_of ["-S"; "--split-string"] a = true \/ is_some (Str.strip_prefix "--split-string=" a) = true
               \/ is_some (Str.strip_prefix "-S" a) = true.
Proof.
  assert (forall p, is_some (Str.strip_prefix p a) = true <-> opens p a) as Ho.
  { intros p. destruct (Str.strip_prefix p a) as [r|] eqn:E; split; try done.
    - intros _. apply Str.strip_prefix_spec in E. by exists r.
    - intros (r & ->). by rewrite Str.strip_prefix_app in E. }
  rewrite one_of_true, !Ho. unfold splits. set_solver.
Qed.
Lemma split_string_skip before rest : Forall (fun a => ~ splits a) before ->
  split_string_value (before ++ rest) = split_string_value rest.
Proof.
  induction 1 as [|a before Ha _ IH]; [done|]. cbn [app split_string_value].
  destruct (one_of ["-S"; "--split-string"] a) eqn:E1; [by destruct Ha; apply splits_spec; left|].
  destruct (Str.strip_prefix "--split-string=" a) eqn:E2; [by destruct Ha; apply splits_spec; right; left; rewrite E2|].
  destruct (Str.strip_prefix "-S" a) eqn:E3; [by destruct Ha; apply splits_spec; right; right; rewrite E3 | done].
Qed.
Lemma env_text_later a args s : ~ splits a -> interprets "env" args s -> interprets "env" (a :: args) s.
Proof.
  intros Ha H. inversion H as [? ? ? ? ? Hw| |before o ? after Hb Ho|before ? after Hb|before ? after Hb Hs]; subst.
  - set_solver.
  - by apply (interprets_split (a :: before)); [constructor|].
  - by apply (interprets_split_long (a :: before)); constructor.
  - by apply (interprets_split_short (a :: before)); [constructor|].
Qed.
Lemma env_text_spec args s : split_string_value args = Some s <-> interprets "env" args s.
Proof.
  split.
  - induction args as [|a args IH]; cbn [split_string_value]; [done|].
    destruct (one_of ["-S"; "--split-string"] a) eqn:E1.
    { intros E. destruct args as [|b args]; [done|]. injection E as ->. apply (interprets_split []); [constructor | by apply one_of_true]. }
    destruct (Str.strip_prefix "--split-string=" a) as [v|] eqn:E2.
    { intros [= ->]. apply Str.strip_prefix_spec in E2 as ->. apply (interprets_split_long []). constructor. }
    destruct (Str.strip_prefix "-S" a) as [v|] eqn:E3.
    { destruct (String.eqb_spec v "") as [->|Hv].
      - apply Str.strip_prefix_spec in E3 as ->. rewrite (proj2 (one_of_true _ _)) in E1; [done | by left].
      - intros [= ->]. apply Str.strip_prefix_spec in E3 as ->. by apply (interprets_split_short []). }
    intros E. apply env_text_later; [|by apply IH]. rewrite splits_spec, E1, E2, E3. by intros [?|[?|?]].
  - intros H. inversion H as [? ? ? ? ? Hw| |before o ? after Hb Ho|before ? after Hb|before ? after Hb Hs]; subst.
    + set_solver.
    + rewrite split_string_skip by done. cbn [split_string_value]. by rewrite (proj2 (one_of_true _ _) Ho).
    + rewrite split_string_skip by done. cbn [split_string_value]. by rewrite (proj2 (one_of_false _ _)), Str.strip_prefix_app by (intros Hin; set_solver).
    + rewrite split_string_skip by done. cbn [split_string_value]. rewrite Str.strip_prefix_app.
      destruct s as [|c s]; [done|]. rewrite (proj2 (one_of_false _ _)) by (intros Hin; set_solver). done.
Qed.
Definition git_valued : list string := ["-c"; "-C"; "--git-dir"; "--work-tree"; "--namespace"; "--super-prefix"].
Definition git_plain (a : string) : Prop := opens "--" a \/ a ∈ ["-p"; "-P"].
Lemma git_plain_spec a : Str.starts_with "--" a || one_of ["-p"; "-P"] a = true <-> git_plain a.
Proof. by rewrite orb_true_iff, opens_spec, one_of_true. Qed.
Lemma git_subcommand_spec args sub rest :
  git_subcommand args = sub :: rest <->
  exists o, args = o ++ sub :: rest /\ own git_valued git_plain o /\ begins git_valued git_plain [sub].
Proof.
  split.
  - intros E. remember (length args) as n eqn:En. assert (length args <= n) as H by lia. clear En. revert args H E.
    induction n as [|n IH]; intros [|a args]; cbn [length git_subcommand]; try lia; try done.
    intros H. fold git_valued. destruct (one_of git_valued a) eqn:Ev.
    + destruct args as [|v args]; [done|]. cbn [length] in H. intros E.
      destruct (IH args ltac:(lia) E) as (o & -> & Ho & Hb). exists (a :: v :: o). split_and!; [done| |done].
      apply own_value; [by apply one_of_true | done].
    + destruct (Str.starts_with "--" a || one_of ["-p"; "-P"] a) eqn:Ea; intros E.
      * destruct (IH args ltac:(lia) E) as (o & -> & Ho & Hb). exists (a :: o). split_and!; [done| |done].
        apply own_plain; [by apply one_of_false | by apply git_plain_spec | done].
      * injection E as -> ->. exists []. split_and!; [done | constructor|]. split; [by apply one_of_false|].
        intros Ha%git_plain_spec. congruence.
  - intros (o & -> & Ho & Hv & Hf). induction Ho as [|k v o Hk _ IH|k o Hk Hp _ IH]; cbn [app git_subcommand]; fold git_valued.
    + rewrite (proj2 (one_of_false _ _) Hv). destruct (Str.starts_with "--" sub || one_of ["-p"; "-P"] sub) eqn:Ea; [|done].
      by apply git_plain_spec in Ea.
    + by rewrite (proj2 (one_of_true _ _) Hk).
    + by rewrite (proj2 (one_of_false _ _) Hk), (proj2 (git_plain_spec k) Hp).
Qed.
Lemma any_of (l args : list string) : existsb (one_of l) args = true <-> exists a, a ∈ args /\ a ∈ l.
Proof. rewrite existsb_elem. by setoid_rewrite one_of_true. Qed.
Lemma git_destructive_spec args : git_args_are_destructive args = true <-> git_deletes args.
Proof.
  unfold git_deletes. fold git_valued. change (fun a => opens "--" a \/ a ∈ ["-p"; "-P"]) with git_plain.
  unfold git_args_are_destructive. split.
  - destruct (git_subcommand args) as [|sub rest] eqn:E; [done|].
    apply git_subcommand_spec in E as (o & -> & Ho & Hb). intros H. exists o, sub, rest. split_and!; [done..|]. clear Ho Hb. revert H.
    destruct (String.eqb_spec sub "clean") as [->|_].
    { intros (a & Ha & Hf%clean_flag_spec)%existsb_elem. by apply git_clean with a. }
    destruct (String.eqb_spec sub "reset") as [->|_]; [intros H%one_of_true; by constructor|].
    destruct (String.eqb_spec sub "branch") as [->|_]; [intros (a & Ha & Hl)%any_of; by apply git_branch with a|].
    destruct (String.eqb_spec sub "tag") as [->|_]; [intros (a & Ha & Hl)%any_of; by apply git_tag with a|].
    destruct (String.eqb_spec sub "push") as [->|_].
    { intros (a & Ha & Hl)%existsb_elem. rewrite !orb_true_iff, one_of_true, !opens_spec in Hl. apply git_push with a; [done|]. tauto. }
    destruct (String.eqb_spec sub "stash") as [->|_].
    { destruct rest as [|a rest]; [done|]. intros H%one_of_true. by constructor. }
    destruct (String.eqb_spec sub "worktree") as [->|_].
    { destruct rest as [|a rest]; [done|]. intros ->%String.eqb_eq. constructor. }
    destruct (String.eqb_spec sub "update-ref") as [->|_]; [intros (a & Ha & Hl)%any_of; by apply git_update_ref with a|].
    destruct (one_of ["filter-branch"; "filter-repo"] sub) eqn:Ef; [intros _; apply git_filter; by apply one_of_true|].
    destruct (String.eqb_spec sub "rm") as [->|_]; [|done]. intros H. apply git_rm, Forall_forall. intros a Ha Hl.
    apply negb_true_iff, not_true_iff_false in H. apply H, any_of. by exists a.
  - intros (o & sub & rest & -> & Ho & Hb & H).
    assert (git_subcommand (o ++ sub :: rest) = sub :: rest) as -> by (apply git_subcommand_spec; by exists o).
    destruct H as [args a Ha Hf|args Hh|args a Ha Hl|args a Ha Hl|args a Ha Hl|a args Hl|args|args a Ha Hl|sub args Hs|args Hr].
    + cbn. apply existsb_elem. exists a. split; [done|]. by apply clean_flag_spec.
    + cbn. by apply one_of_true.
    + cbn. apply any_of. by exists a.
    + cbn. apply any_of. by exists a.
    + cbn [String.eqb Ascii.eqb Bool.eqb]. apply existsb_elem. exists a. split; [done|].
      rewrite !orb_true_iff, one_of_true, !opens_spec. tauto.
    + cbn. by apply one_of_true.
    + done.
    + cbn. apply any_of. by exists a.
    + apply elem_of_cons in Hs as [->|Hs%list_elem_of_singleton]; [|subst]; reflexivity.
    + cbn. apply negb_true_iff, not_true_iff_false. intros (a & Ha & Hl)%any_of. rewrite Forall_forall in Hr. by apply (Hr a).
Qed.
Lemma mentions_spec s : raw_mentions_delete_keyword s = true <-> mentions s.
Proof.
  unfold raw_mentions_delete_keyword, mentions. rewrite !orb_true_iff, existsb_elem. setoid_rewrite Str.contains_spec. split.
  - intros [[(k & Hk & x & y & ->)|(x & y & ->)]|(x & y & ->)]; eexists _, x, y; (split; [|done]);
      try unfold STANDALONE_DELETE_TOKENS in Hk; set_solver.
  - intros (k & x & y & Hk & ->).
    repeat (apply elem_of_cons in Hk as [->|Hk]); [.. | by apply not_elem_of_nil in Hk];
      try (left; left; eexists; split; [|by eexists x, y]; unfold STANDALONE_DELETE_TOKENS; set_solver).
    + left. right. by exists x, y.
    + right. by exists x, y.
Qed.
Lemma split_char_whole c b : Str.contains_char c b = false -> Str.split_char c b = [b].
Proof.
  induction b as [|d b IH]; [done|]. cbn [Str.contains_char Str.split_char]. intros [-> Hb]%orb_false_iff. by rewrite IH.
Qed.
Lemma split_char_after c dir b : exists l, Str.split_char c (dir +:+ String c b) = l ++ Str.split_char c b.
Proof.
  enough (exists w l, Str.split_char c (dir +:+ String c b) = (w :: l) ++ Str.split_char c b) as (w & l & ->) by by exists (w :: l).
  induction dir as [|d dir (w & l & IH)].
  - exists EmptyString, []. rewrite Str.app_nil_str. cbn [Str.split_char]. by rewrite Ascii.eqb_refl.
  - rewrite Str.app_cons_str. cbn [Str.split_char]. rewrite IH. destruct (Ascii.eqb c d).
    + by exists EmptyString, (w :: l).
    + by exists (String d w), l.
Qed.
Lemma last_component c a : exists b, Str.contains_char c b = false /\ (a = b \/ exists dir, a = (dir +:+ String c b)%string).
Proof.
  induction a as [|d a (b & Hb & H)]; [by exists EmptyString; split; [|left]|].
  destruct H as [->|(dir & ->)].
  - destruct (Ascii.eqb_spec c d) as [->|Hd]; [exists b; split; [done|]; right; by exists EmptyString|].
    exists (String d b). split; [|by left]. cbn [Str.contains_char]. rewrite Hb, orb_false_r. by apply Ascii.eqb_neq.
  - exists b. split; [done|]. right. by exists (String d dir).
Qed.
Lemma strip_path_spec a b : strip_path a = b <-> named a b.
Proof.
  assert (forall b, named a b -> strip_path a = b) as Hn.
  { clear b. intros b [Hb [->|(dir & ->)]]; unfold strip_path.
    - by rewrite split_char_whole.
    - change (dir +:+ "/" +:+ b)%string with (dir +:+ String "/" b)%string.
      destruct (split_char_after "/" dir b) as (l & ->). by rewrite split_char_whole, last_snoc. }
  split; [|apply Hn]. intros <-. destruct (last_component "/" a) as (b & Hb & H).
  assert (named a b) as H' by (split; [done|]; destruct H as [->|(dir & ->)]; [by left | right; by exists dir]).
  by rewrite (Hn b H').
Qed.
(** The text inside an expansion. *)
Definition expands (t w : string) : Prop :=
  t = ("$((" +:+ w +:+ "))")%string \/ t = ("$[" +:+ w +:+ "]")%string \/ t = ("${" +:+ w +:+ "}")%string.
Lemma stripped_spec p q s w : stripped p q s = Some w <-> s = (p +:+ w +:+ q)%string.
Proof.
  unfold stripped. split.
  - intros (r & Hr & E)%bind_Some. apply Str.strip_prefix_spec in Hr as ->. f_equal. revert E. unfold Str.strip_suffix.
    destruct (String.eqb_spec (Str.drop (String.length r - String.length q) r) q) as [Eq|]; [|done]. intros [= <-].
    rewrite <- Eq at 2. symmetry. apply Str.take_drop_str.
  - intros ->. rewrite Str.strip_prefix_app. apply Str.strip_suffix_app.
Qed.
Lemma expansion_body_spec t w : expansion_body t = Some w <-> expands t w.
Proof.
  unfold expansion_body, expands. rewrite <- !stripped_spec. split.
  - destruct (stripped "$((" "))" t); [by left|]. destruct (stripped "$[" "]" t); [by right; left | by right; right].
  - assert (forall p q s w, stripped p q s = Some w -> exists r, s = (p +:+ r)%string) as Hp.
    { intros p q s v ->%stripped_spec. by eexists. }
    intros [H|[H|H]]; [by rewrite H|..]; rewrite H; destruct (stripped "$((" "))" t) as [v|] eqn:E1.
    + apply Hp in E1 as (r & ->). apply Hp in H as (r' & H). discriminate H.
    + done.
    + apply Hp in E1 as (r & ->). apply Hp in H as (r' & H). discriminate H.
    + destruct (stripped "$[" "]" t) as [v|] eqn:E2; [|done].
      apply Hp in E2 as (r & ->). apply Hp in H as (r' & H). discriminate H.
Qed.

(** ** The parsers *)

Class Parsers := {
  parse_program : string -> option Program;        (** [brush_parser] *)
  word_parse : string -> option (list WordPieceWithSource);
  shell_split : string -> option (list string)     (** [shell_words::split] *)
}.

Section Scan.
Context {P : Parsers}.

Definition dequote (value : string) : string :=
  match shell_split value with Some [w] => w | _ => value end.

(** The text an interpreter is given to run. *)
Definition command_string (argv0 : string) (rest : list string) : option string :=
  let deq := dequote <$> rest in
  if one_of ["sh"; "bash"; "dash"; "zsh"; "ksh"; "mksh"; "ash"] argv0 then command_string_after_c_flag deq
  else if String.eqb argv0 "env" then split_string_value deq
  else if String.eqb argv0 "eval" then Some (Wire.joined " " deq)
  else None.

Lemma command_string_spec w rest s : command_string w rest = Some s <-> interprets w (dequote <$> rest) s.
Proof using Type.
  unfold command_string. generalize (dequote <$> rest) as args. intros args. split.
  - destruct (one_of _ w) eqn:Ew; [intros (before & f & after & -> & Hb & Hf)%c_flag_spec; apply interprets_shell; [by apply one_of_true | done..]|].
    destruct (String.eqb_spec w "env") as [->|_]; [apply env_text_spec|].
    destruct (String.eqb_spec w "eval") as [->|_]; [|done]. intros [= <-]. constructor.
  - intros H. destruct (one_of _ w) eqn:Ew.
    + apply c_flag_spec. apply one_of_true in Ew. inversion H as [? before f ? after| | | |]; subst;
        [by exists before, f, after | set_solver..].
    + apply one_of_false in Ew. inversion H; subst; try done; by apply env_text_spec.
Qed.

(** *** One argv

    [text] answers for command texts; an argv found inside one is shorter. *)
Fixpoint argv_loop (text : string -> bool) (fuel : nat) (argv : list string) : bool :=
  match fuel, argv with
  | S fuel, argv0 :: rest =>
      let bare := strip_path argv0 in
      one_of STANDALONE_DELETE_TOKENS bare
      || is_some_and text (command_string bare rest)
      || (if String.eqb bare "git" then git_args_are_destructive rest
          else if String.eqb bare "find" then
            one_of rest "-delete" || existsb (argv_loop text fuel) (exec_targets rest)
          else if one_of WRAPPER_COMMANDS bare then is_some_and (argv_loop text fuel) (resolve_wrapped bare rest)
          else false)
  | _, _ => false
  end.
Definition argv_is_destructive (text : string -> bool) (argv : list string) : bool := argv_loop text (length argv) argv.

(** *** The tree, at one depth

    [compound], [word] and [text] answer one level down. *)
Section Tree.
Context (compound : CompoundCommand -> bool) (word text : string -> bool).

Definition simple_command_words (prefix : list Item) (name : option string) (suffix : list Item) : list string :=
  from_option (fun n => [n]) [] name
  ++ omap (fun i => match i with ItemWord w | ItemAssignment w => Some w | _ => None end) (prefix ++ suffix).
Definition simple_argv (name : option string) (suffix : list Item) : list string :=
  dequote <$> (from_option (fun n => [n]) [] name
               ++ omap (fun i => match i with ItemWord w => Some w | _ => None end) suffix).
Fixpoint extended_test_is_destructive (e : ExtendedTestExpr) : bool :=
  match e with
  | TestBoth a b => extended_test_is_destructive a || extended_test_is_destructive b
  | TestInner e => extended_test_is_destructive e
  | UnaryTest w => word w
  | BinaryTest a b => word a || word b
  end.

Fixpoint list_is_destructive (l : CompoundList) : bool :=
  match l with mk_list items => existsb and_or_is_destructive items end
with and_or_is_destructive (a : AndOrList) : bool :=
  match a with mk_and_or first additional =>
    pipeline_is_destructive first || existsb pipeline_is_destructive additional end
with pipeline_is_destructive (p : Pipeline) : bool :=
  match p with mk_pipeline seq => existsb command_is_destructive seq end
with command_is_destructive (c : Command) : bool :=
  match c with
  | Simple prefix name suffix =>
      existsb word (simple_command_words prefix name suffix)
      || (existsb item_side_effect_is_destructive prefix || existsb item_side_effect_is_destructive suffix)
      || argv_is_destructive text (simple_argv name suffix)
  | Compound c redirs | Function c redirs => compound c || existsb io_redirect_is_destructive redirs
  | ExtendedTest e redirs => extended_test_is_destructive e || existsb io_redirect_is_destructive redirs
  end
with item_side_effect_is_destructive (i : Item) : bool :=
  match i with
  | ItemProcess l => list_is_destructive l
  | ItemRedirect r => io_redirect_is_destructive r
  | ItemWord _ | ItemAssignment _ => false
  end
with io_redirect_is_destructive (r : IoRedirect) : bool :=
  match r with
  | FileProcess l => list_is_destructive l
  | FileWord w | HereString w | OutputAndError w => word w
  | FileFd => false
  | HereDocument requires_expansion doc => requires_expansion && word doc
  end.

Definition compound_is_destructive (c : CompoundCommand) : bool :=
  match c with
  | BraceGroup l | Subshell l => list_is_destructive l
  | ForClause values body => existsb word values || list_is_destructive body
  | ArithmeticForClause i c u body => existsb word (omap id [i; c; u]) || list_is_destructive body
  | LoopClause c body => list_is_destructive c || list_is_destructive body
  | IfClause c body elses =>
      list_is_destructive c || list_is_destructive body
      || existsb (fun e => is_some_and list_is_destructive e.1 || list_is_destructive e.2) elses
  | CaseClause value cases =>
      word value || existsb (fun i => existsb word i.1 || is_some_and list_is_destructive i.2) cases
  | Coprocess body => command_is_destructive body
  | Arithmetic expr => word expr
  end.
Definition program_is_destructive (p : Program) : bool := existsb list_is_destructive p.
(** A text at this depth: a word's substitution, a whole command. *)
Definition shell_is_destructive (s : string) : bool :=
  match parse_program s with Some p => program_is_destructive p | None => raw_mentions_delete_keyword s end.
Definition expansion_of (src : string) (first last : nat) : option string :=
  Str.get_range src first last ≫= expansion_body.
Fixpoint piece_is_destructive (src : string) (p : WordPieceWithSource) : bool :=
  match p with mk_piece piece first last =>
    match piece with
    | CommandSubstitution inner => shell_is_destructive inner
    | DoubleQuoted inner => existsb (piece_is_destructive src) inner
    | Expansion => is_some_and word (expansion_of src first last)
    | OtherPiece => false
    end
  end.
End Tree.

(** *** Every depth: past the budget the answer is yes *)

Fixpoint compound_at (depth : nat) (c : CompoundCommand) : bool :=
  match depth with
  | 0 => true
  | S depth => compound_is_destructive (compound_at depth) (word_at depth) (text_at depth) c
  end
with word_at (depth : nat) (value : string) : bool :=
  match depth with
  | 0 => true
  | S depth =>
      match word_parse value with
      | Some pieces =>
          existsb (piece_is_destructive (compound_at depth) (word_at depth) (text_at depth) value) pieces
      | None => false
      end
  end
with text_at (depth : nat) (s : string) : bool :=
  match depth with
  | 0 => true
  | S depth => shell_is_destructive (compound_at depth) (word_at depth) (text_at depth) s
  end.
Definition shell_at (depth : nat) : string -> bool :=
  shell_is_destructive (compound_at depth) (word_at depth) (text_at depth).
Definition contains_delete_command (command : string) : bool := shell_at MAX_PARSE_DEPTH command.

(** ** What runs what

    The places of a command line.  [runs n n'] is one step from a place to one
    the shell executes or expands on its behalf. *)
Inductive node :=
| NShell (s : string)                  (** a text to parse *)
| NString (s : string)                 (** a text an interpreter is given *)
| NList (l : CompoundList)
| NCommand (c : Command)
| NItem (i : Item)
| NRedirect (r : IoRedirect)
| NCompound (c : CompoundCommand)
| NWord (value : string)
| NPiece (src : string) (p : WordPieceWithSource)
| NArgv (argv : list string).

Definition list_commands (l : CompoundList) : list Command :=
  let 'mk_list items := l in
  items ≫= fun a => let 'mk_and_or first additional := a in
  (first :: additional) ≫= fun p => let 'mk_pipeline seq := p in seq.
Fixpoint test_words (e : ExtendedTestExpr) : list string :=
  match e with
  | TestBoth a b => test_words a ++ test_words b
  | TestInner e => test_words e
  | UnaryTest w => [w]
  | BinaryTest a b => [a; b]
  end.
(** What a redirection expands; the body of a quoted here-document it does not. *)
Definition redirect_word (r : IoRedirect) : option string :=
  match r with
  | FileWord w | HereString w | OutputAndError w | HereDocument true w => Some w
  | _ => None
  end.
Definition compound_lists (c : CompoundCommand) : list CompoundList :=
  match c with
  | BraceGroup l | Subshell l | ForClause _ l | ArithmeticForClause _ _ _ l => [l]
  | LoopClause c l => [c; l]
  | IfClause c l elses => [c; l] ++ (elses ≫= fun e => from_option (fun l => [l]) [] e.1 ++ [e.2])
  | CaseClause _ cases => omap snd cases
  | Coprocess _ | Arithmetic _ => []
  end.
Definition compound_words (c : CompoundCommand) : list string :=
  match c with
  | ForClause values _ => values
  | ArithmeticForClause i c u _ => omap id [i; c; u]
  | CaseClause value cases => value :: (cases ≫= fst)
  | Arithmetic e => [e]
  | _ => []
  end.

Inductive runs : node -> node -> Prop :=
| runs_program s p l : parse_program s = Some p -> l ∈ p -> runs (NShell s) (NList l)
| runs_string s : runs (NString s) (NShell s)
| runs_command l c : c ∈ list_commands l -> runs (NList l) (NCommand c)
| runs_simple_word p n x w : w ∈ simple_command_words p n x -> runs (NCommand (Simple p n x)) (NWord w)
| runs_simple_item p n x i : i ∈ p ++ x -> runs (NCommand (Simple p n x)) (NItem i)
| runs_simple_argv p n x : runs (NCommand (Simple p n x)) (NArgv (simple_argv n x))
| runs_compound c rs : runs (NCommand (Compound c rs)) (NCompound c)
| runs_compound_redirect c rs r : r ∈ rs -> runs (NCommand (Compound c rs)) (NRedirect r)
| runs_function c rs : runs (NCommand (Function c rs)) (NCompound c)
| runs_function_redirect c rs r : r ∈ rs -> runs (NCommand (Function c rs)) (NRedirect r)
| runs_test e rs w : w ∈ test_words e -> runs (NCommand (ExtendedTest e rs)) (NWord w)
| runs_test_redirect e rs r : r ∈ rs -> runs (NCommand (ExtendedTest e rs)) (NRedirect r)
| runs_item_process l : runs (NItem (ItemProcess l)) (NList l)
| runs_item_redirect r : runs (NItem (ItemRedirect r)) (NRedirect r)
| runs_file_process l : runs (NRedirect (FileProcess l)) (NList l)
| runs_redirect_word r w : redirect_word r = Some w -> runs (NRedirect r) (NWord w)
| runs_body c l : l ∈ compound_lists c -> runs (NCompound c) (NList l)
| runs_expanded c w : w ∈ compound_words c -> runs (NCompound c) (NWord w)
| runs_coprocess c : runs (NCompound (Coprocess c)) (NCommand c)
| runs_pieces v ps p : word_parse v = Some ps -> p ∈ ps -> runs (NWord v) (NPiece v p)
| runs_substitution v s i j : runs (NPiece v (mk_piece (CommandSubstitution s) i j)) (NShell s)
| runs_quoted v ps i j p : p ∈ ps -> runs (NPiece v (mk_piece (DoubleQuoted ps) i j)) (NPiece v p)
| runs_expansion v i j t w :
    Str.get_range v i j = Some t -> expands t w -> runs (NPiece v (mk_piece Expansion i j)) (NWord w)
| runs_interpreter a b rest s : named a b -> interprets b (dequote <$> rest) s -> runs (NArgv (a :: rest)) (NString s)
| runs_wrapped a b rest inner : named a b -> wraps b rest inner -> runs (NArgv (a :: rest)) (NArgv inner)
| runs_exec a before p t :
    named a "find" -> p ∈ ["-exec"; "-execdir"; "-ok"; "-okdir"] -> runs (NArgv (a :: before ++ p :: t)) (NArgv t).

(** A place that deletes by itself: a command that is a deletion, or a text that
    cannot be read and could be one. *)
Inductive deletes : node -> Prop :=
| deletes_argv0 a b rest :
    named a b -> b ∈ ["rm"; "rmdir"; "unlink"; "shred"; "srm"; "wipe"] -> deletes (NArgv (a :: rest))
| deletes_git a rest : named a "git" -> git_deletes rest -> deletes (NArgv (a :: rest))
| deletes_find a rest : named a "find" -> "-delete" ∈ rest -> deletes (NArgv (a :: rest))
| deletes_unread s : parse_program s = None -> mentions s -> deletes (NShell s).

(** The places that open a level of nesting. *)
Definition nests (n : node) : bool := match n with NString _ | NCompound _ | NWord _ => true | _ => false end.
(** [n'] is reached from [n], leaving [k] nesting places on the way. *)
Inductive reaches : nat -> node -> node -> Prop :=
| reaches_here n : reaches 0 n n
| reaches_step k n n' m : runs n n' -> reaches k n' m -> reaches (if nests n then S k else k) n m.

(** The scan of a place. *)
Definition scan_at (depth : nat) (n : node) : bool :=
  let compound := compound_at depth in let word := word_at depth in let text := text_at depth in
  match n with
  | NShell s => shell_at depth s
  | NString s => text s
  | NList l => list_is_destructive compound word text l
  | NCommand c => command_is_destructive compound word text c
  | NItem i => item_side_effect_is_destructive compound word text i
  | NRedirect r => io_redirect_is_destructive compound word text r
  | NCompound c => compound c
  | NWord v => word v
  | NPiece v p => piece_is_destructive compound word text v p
  | NArgv argv => argv_is_destructive text argv
  end.

(** ** One step of the scan *)

Lemma argv_loop_fuel text fuel fuel' argv : length argv <= fuel -> length argv <= fuel' ->
  argv_loop text fuel argv = argv_loop text fuel' argv.
Proof using Type.
  revert fuel' argv. induction fuel as [|fuel IH]; intros [|fuel'] [|a rest] H H'; cbn [length] in *; try done; try lia.
  cbn [argv_loop]. f_equal. case_match; [done|]. case_match.
  - f_equal. apply existsb_ext_elem. intros t Ht%exec_targets_length. apply IH; lia.
  - case_match; [|done]. destruct (resolve_wrapped _ rest) as [inner|] eqn:E; [|done].
    apply resolve_wrapped_length in E. cbn [is_some_and]. apply IH; lia.
Qed.

Lemma deletes_argv a rest : deletes (NArgv (a :: rest)) <->
  strip_path a ∈ STANDALONE_DELETE_TOKENS \/ (strip_path a = "git" /\ git_args_are_destructive rest = true)
  \/ (strip_path a = "find" /\ "-delete" ∈ rest).
Proof using Type.
  rewrite git_destructive_spec, !strip_path_spec. split.
  - inversion 1 as [? b ? Hn Hb| | |]; subst; auto. apply strip_path_spec in Hn as ->. by left.
  - intros [H|[[? ?]|[? ?]]]; [by apply (deletes_argv0 a (strip_path a)); [apply strip_path_spec|] | by constructor..].
Qed.
Lemma runs_argv a rest inner : runs (NArgv (a :: rest)) (NArgv inner) <->
  (one_of WRAPPER_COMMANDS (strip_path a) = true /\ resolve_wrapped (strip_path a) rest = Some inner)
  \/ (strip_path a = "find" /\ inner ∈ exec_targets rest).
Proof using Type.
  rewrite resolve_wraps, exec_targets_spec, strip_path_spec. split.
  - inversion 1 as [| | | | | | | | | | | | | | | | | | | | | | | |? b ? ? Hn Hw|? before p ? Hn Hp]; subst.
    + left. by apply strip_path_spec in Hn as ->.
    + right. split; [done|]. by exists before, p.
  - intros [Hw|[Hn (before & p & -> & Hp)]]; [by eapply runs_wrapped; [apply strip_path_spec|] | by apply runs_exec].
Qed.
Lemma runs_text a rest s : runs (NArgv (a :: rest)) (NString s) <-> command_string (strip_path a) rest = Some s.
Proof using Type.
  rewrite command_string_spec. split.
  - inversion 1 as [| | | | | | | | | | | | | | | | | | | | | | |? b ? ? Hn Hi| |]; subst. by apply strip_path_spec in Hn as ->.
  - intros H. by eapply runs_interpreter; [apply strip_path_spec|].
Qed.
Lemma runs_expanded_word v i j w : runs (NPiece v (mk_piece Expansion i j)) (NWord w) <-> expansion_of v i j = Some w.
Proof using Type.
  unfold expansion_of. rewrite bind_Some. setoid_rewrite expansion_body_spec. split.
  - inversion 1; subst. eauto.
  - intros (t & Ht & He). by eapply runs_expansion.
Qed.

Lemma exists_app {A} (Q : A -> Prop) l k : (exists x, x ∈ l ++ k /\ Q x) <-> (exists x, x ∈ l /\ Q x) \/ (exists x, x ∈ k /\ Q x).
Proof using Type. set_solver. Qed.

Lemma argv_step text argv :
  argv_is_destructive text argv = true <->
  deletes (NArgv argv) \/ (exists s, runs (NArgv argv) (NString s) /\ text s = true)
  \/ (exists inner, runs (NArgv argv) (NArgv inner) /\ argv_is_destructive text inner = true).
Proof using Type.
  destruct argv as [|a rest].
  { split; [done|]. intros [H|[(s & H & _)|(i & H & _)]]; inversion H. }
  unfold argv_is_destructive at 1. cbn [length argv_loop].
  assert (forall inner, length inner <= length rest ->
            argv_loop text (length rest) inner = argv_is_destructive text inner) as L.
  { intros inner H. by apply argv_loop_fuel. }
  rewrite !orb_true_iff, one_of_true, is_some_and_true. split.
  - intros [[H|(s & E & H)]|H]; [left; apply deletes_argv; by left | right; left; exists s; by rewrite runs_text |].
    destruct (String.eqb_spec (strip_path a) "git") as [Eg|_]; [left; apply deletes_argv; by right; left|].
    destruct (String.eqb_spec (strip_path a) "find") as [Ef|_].
    + apply orb_true_iff in H as [H|H]; [left; apply deletes_argv; right; right; split; [done | by apply one_of_true]|].
      apply existsb_elem in H as (t & Ht & H). right; right. exists t. split; [apply runs_argv; by right|].
      rewrite <- L; [done|]. apply exec_targets_length in Ht. lia.
    + destruct (one_of _ _) eqn:Ew; [|done]. apply is_some_and_true in H as (i & Ei & H).
      right; right. exists i. split; [apply runs_argv; by left|]. rewrite <- L; [done|].
      by apply (resolve_wrapped_length (strip_path a)).
  - intros [H|[(s & H & E)|(i & H & E)]].
    + apply deletes_argv in H as [H1|[[E1 H1]|[E1 H1]]]; [by left; left| |]; right; rewrite E1; cbn; [done|].
      apply one_of_true in H1. by rewrite H1.
    + apply runs_text in H. left; right. eauto.
    + right. apply runs_argv in H as [[Hw Hr]|[Hf Ht]].
      * destruct (String.eqb_spec (strip_path a) "git") as [Eg|_]; [by rewrite Eg in Hw|].
        destruct (String.eqb_spec (strip_path a) "find") as [Ef|_]; [by rewrite Ef in Hw|].
        rewrite Hw. apply is_some_and_true. exists i. split; [done|]. rewrite L; [done|].
        by apply (resolve_wrapped_length (strip_path a)).
      * rewrite Hf. cbn [String.eqb Ascii.eqb Bool.eqb]. apply orb_true_iff. right. apply existsb_elem. exists i.
        split; [done|]. rewrite L; [done|]. apply exec_targets_length in Ht. lia.
Qed.

Section OneStep.
Context (compound : CompoundCommand -> bool) (word text : string -> bool).
Abbreviation list_is := (list_is_destructive compound word text).
Abbreviation command_is := (command_is_destructive compound word text).

Lemma list_step l : list_is l = existsb command_is (list_commands l).
Proof using Type.
  destruct l as [items]. cbn [list_is_destructive list_commands].
  induction items as [|[first additional] items IH]; [done|].
  rewrite bind_cons, existsb_app, <- IH. cbn [existsb and_or_is_destructive]. f_equal.
  rewrite bind_cons, existsb_app. f_equal; [by destruct first|].
  clear. induction additional as [|p additional IH]; [done|].
  rewrite bind_cons, existsb_app, <- IH. cbn [existsb]. f_equal. by destruct p.
Qed.
Lemma test_step e : extended_test_is_destructive word e = existsb word (test_words e).
Proof using Type.
  induction e as [a IHa b IHb|e IH|w|a b]; cbn [extended_test_is_destructive test_words existsb].
  - by rewrite existsb_app, IHa, IHb.
  - done.
  - by rewrite orb_false_r.
  - by rewrite orb_false_r.
Qed.
Lemma compound_step c :
  compound_is_destructive compound word text c
  = match c with Coprocess body => command_is body
    | _ => existsb word (compound_words c) || existsb list_is (compound_lists c) end.
Proof using Type.
  destruct c as [| |v b|i c u b|c b|c b elses|v cases| |];
    cbn [compound_is_destructive compound_words compound_lists existsb app orb]; rewrite ?orb_false_r; try done.
  - rewrite !orb_assoc. f_equal.
    induction elses as [|[[c'|] b'] elses IH]; [done| |]; rewrite bind_cons, existsb_app, <- IH; cbn;
      by rewrite ?orb_false_r, ?orb_assoc.
  - rewrite <- orb_assoc. f_equal.
    induction cases as [|[ps l] cases IH]; [done|]. rewrite bind_cons, existsb_app. cbn [existsb fst snd omap list_omap].
    rewrite IH. destruct l as [l|]; cbn [is_some_and existsb]; rewrite ?orb_false_r, <- ?orb_assoc; [|done].
    f_equal. rewrite !orb_assoc. f_equal. apply orb_comm.
Qed.
End OneStep.

(** The level a place's own places are scanned at. *)
Definition below (depth : nat) (n : node) : option nat :=
  if nests n then match depth with 0 => None | S depth => Some depth end else Some depth.
Definition onward (depth : nat) (n : node) : Prop := exists n', runs n n' /\ scan_at depth n' = true.

(** The shell's places one by one: forwards by finding the step, backwards by
    the inversion of [runs]. *)
Ltac from_runs :=
  let R := fresh "R" in let E := fresh "E" in
  intros (? & R & E); inversion R; subst; clear R; cbn [scan_at] in E.
Ltac step_to n := exists n; split; [by eauto using runs | done].

Lemma shell_onward d s : shell_at d s = true <-> deletes (NShell s) \/ onward d (NShell s).
Proof using Type.
  unfold shell_at, shell_is_destructive, program_is_destructive. destruct (parse_program s) as [p|] eqn:Ep.
  - rewrite existsb_elem. split.
    + intros (l & Hl & E). right. step_to (NList l).
    + intros [D|H]; [inversion D; congruence|]. revert H. from_runs. eexists. split; [|done]. congruence.
  - rewrite mentions_spec. split; [by intros H; left; constructor|]. intros [D|H]; [by inversion D|]. revert H. from_runs. congruence.
Qed.
Lemma list_onward d l : scan_at d (NList l) = true <-> onward d (NList l).
Proof using Type.
  cbn [scan_at]. rewrite list_step, existsb_elem. split.
  - intros (c & Hc & E). step_to (NCommand c).
  - from_runs. eauto.
Qed.
Lemma redirect_onward d r : scan_at d (NRedirect r) = true <-> onward d (NRedirect r).
Proof using Type.
  split.
  - destruct r as [l|w| |[] w|w|w]; cbn [scan_at io_redirect_is_destructive andb]; intros E; try done;
      [step_to (NList l) | step_to (NWord w) ..].
  - from_runs; [done|]. destruct r as [l|v| |[] v|v|v]; cbn in *; by simplify_eq.
Qed.
Lemma redirects_onward d c rs n :
  (forall r, r ∈ rs -> runs (NCommand c) (NRedirect r)) -> n = NCommand c ->
  existsb (io_redirect_is_destructive (compound_at d) (word_at d) (text_at d)) rs = true -> onward d n.
Proof using Type. intros H -> (r & Hr & E)%existsb_elem. exists (NRedirect r). split; [by apply H | done]. Qed.
Lemma item_onward d i : scan_at d (NItem i) = true <-> onward d (NItem i).
Proof using Type.
  split.
  - destruct i as [r|w|w|l]; cbn [scan_at item_side_effect_is_destructive]; intros E; try done;
      [step_to (NRedirect r) | step_to (NList l)].
  - by from_runs.
Qed.

Lemma simple_onward d p n x : scan_at d (NCommand (Simple p n x)) = true <-> onward d (NCommand (Simple p n x)).
Proof using Type.
  cbn [scan_at command_is_destructive]. rewrite <- existsb_app, !orb_true_iff, !existsb_elem. split.
  - intros [[(w & Hw & E)|(i & Hi & E)]|E];
      [step_to (NWord w) | step_to (NItem i) | step_to (NArgv (simple_argv n x))].
  - from_runs; eauto.
Qed.
Lemma command_onward d c : scan_at d (NCommand c) = true <-> onward d (NCommand c).
Proof using Type.
  destruct c as [p n x|c rs|c rs|e rs]; [apply simple_onward|..]; cbn [scan_at command_is_destructive];
    rewrite orb_true_iff, ?test_step, ?existsb_elem; split.
  1, 3: intros [E|(r & Hr & E)]; [step_to (NCompound c) | step_to (NRedirect r)].
  1, 2: from_runs; eauto.
  - intros [(w & Hw & E)|(r & Hr & E)]; [step_to (NWord w) | step_to (NRedirect r)].
  - from_runs; eauto.
Qed.
Lemma compound_onward d c : scan_at (S d) (NCompound c) = true <-> onward d (NCompound c).
Proof using Type.
  cbn [scan_at compound_at]. rewrite compound_step. split.
  - intros H. assert (existsb (word_at d) (compound_words c) || existsb (list_is_destructive (compound_at d) (word_at d) (text_at d)) (compound_lists c) = true
      \/ exists b, c = Coprocess b /\ command_is_destructive (compound_at d) (word_at d) (text_at d) b = true) as [E|(b & -> & E)].
    { destruct c; eauto. }
    + apply orb_true_iff in E as [(w & Hw & E)%existsb_elem|(l & Hl & E)%existsb_elem];
        [step_to (NWord w) | step_to (NList l)].
    + step_to (NCommand b).
  - from_runs; [| |done]; destruct c;
      first [by match goal with H : _ ∈ _ (Coprocess _) |- _ => apply not_elem_of_nil in H end |
             apply orb_true_iff; rewrite !existsb_elem; eauto].
Qed.
Lemma piece_onward d v p : scan_at d (NPiece v p) = true <-> onward d (NPiece v p).
Proof using Type.
  split.
  - destruct p as [[s|ps| |] i j]; cbn [scan_at piece_is_destructive]; intros E; [step_to (NShell s) | | | done].
    + apply existsb_elem in E as (p & Hp & E). step_to (NPiece v p).
    + apply is_some_and_true in E as (w & Hw & E). exists (NWord w). split; [by apply runs_expanded_word | done].
  - from_runs; cbn [scan_at piece_is_destructive]; [done | apply existsb_elem; eauto | apply is_some_and_true].
    eexists. split; [apply runs_expanded_word; by eapply runs_expansion | done].
Qed.
Lemma word_onward d v : scan_at (S d) (NWord v) = true <-> onward d (NWord v).
Proof using Type.
  cbn [scan_at word_at]. destruct (word_parse v) as [ps|] eqn:Ev.
  - rewrite existsb_elem. split; [intros (p & Hp & E); step_to (NPiece v p)|].
    from_runs. simplify_eq. eauto.
  - split; [done|]. from_runs. congruence.
Qed.

Lemma scan_step d n :
  scan_at d n = true <-> match below d n with None => True | Some d' => deletes n \/ onward d' n end.
Proof using Type.
  assert (forall Q, ~ deletes n -> Q <-> deletes n \/ Q) as N by tauto.
  unfold below. destruct n as [s|s|l|c|i|r|c|v|v p|argv]; cbn [nests];
    [apply shell_onward | | | | | | | | |]; try (destruct d as [|d]; [done|]); try (rewrite <- N by (by inversion 1)).
  - cbn [scan_at text_at]. split; [intros E; step_to (NShell s) | by from_runs].
  - apply list_onward.
  - apply command_onward.
  - apply item_onward.
  - apply redirect_onward.
  - apply compound_onward.
  - apply word_onward.
  - apply piece_onward.
  - cbn [scan_at]. rewrite argv_step. split.
    + intros [D|[(s & R & E)|(i & R & E)]]; [by left | right; by exists (NString s) | right; by exists (NArgv i)].
    + intros [D|(n & R & E)]; [by left | right]. inversion R; subst; eauto.
Qed.

(** ** Every step within a level gets smaller *)

Fixpoint list_size (l : CompoundList) : nat :=
  match l with mk_list items => S (sum_list_with and_or_size items) end
with and_or_size (a : AndOrList) : nat :=
  match a with mk_and_or first additional => pipeline_size first + sum_list_with pipeline_size additional end
with pipeline_size (p : Pipeline) : nat :=
  match p with mk_pipeline seq => sum_list_with command_size seq end
with command_size (c : Command) : nat :=
  match c with
  | Simple prefix _ suffix => S (sum_list_with item_size prefix + sum_list_with item_size suffix)
  | Compound _ rs | Function _ rs | ExtendedTest _ rs => S (sum_list_with redirect_size rs)
  end
with item_size (i : Item) : nat :=
  match i with
  | ItemRedirect r => S (redirect_size r)
  | ItemProcess l => S (list_size l)
  | ItemWord _ | ItemAssignment _ => 0
  end
with redirect_size (r : IoRedirect) : nat :=
  match r with FileProcess l => S (list_size l) | _ => 0 end.
Fixpoint piece_size (p : WordPieceWithSource) : nat :=
  match p with mk_piece (DoubleQuoted inner) _ _ => S (sum_list_with piece_size inner) | _ => 0 end.
Definition rank (n : node) : nat * nat :=
  match n with
  | NPiece _ p => (4, piece_size p)
  | NShell _ => (3, 0)
  | NList l => (2, list_size l)
  | NCommand c => (2, command_size c)
  | NItem i => (2, item_size i)
  | NRedirect r => (2, redirect_size r)
  | NArgv argv => (1, length argv)
  | NString _ | NCompound _ | NWord _ => (0, 0)
  end.

Lemma list_commands_size l c : c ∈ list_commands l -> command_size c < list_size l.
Proof using Type.
  destruct l as [items]. cbn [list_commands list_size]. intros ([first additional] & Hc & Ha)%list_elem_of_bind.
  apply list_elem_of_bind in Hc as ([seq] & Hc & Hp).
  pose proof (sum_list_with_in _ and_or_size _ Ha) as La. pose proof (sum_list_with_in _ command_size _ Hc) as Lc.
  cbn [and_or_size] in La. apply elem_of_cons in Hp as [Hp|Hp].
  - rewrite <- Hp in La. cbn [pipeline_size] in La. lia.
  - pose proof (sum_list_with_in _ pipeline_size _ Hp) as Lp. cbn [pipeline_size] in Lp. lia.
Qed.
Lemma runs_rank n n' : runs n n' -> nests n = false ->
  (rank n').1 < (rank n).1 \/ ((rank n').1 = (rank n).1 /\ (rank n').2 < (rank n).2).
Proof using Type.
  intros R N. inversion R; subst; try discriminate N; cbn [rank fst snd]; try (left; lia); right; (split; [done|]).
  - by apply list_commands_size.
  - cbn [command_size]. rewrite <- sum_list_with_app. by apply le_n_S, sum_list_with_in.
  - cbn [command_size]. by apply le_n_S, sum_list_with_in.
  - cbn [command_size]. by apply le_n_S, sum_list_with_in.
  - cbn [command_size]. by apply le_n_S, sum_list_with_in.
  - cbn [item_size]. lia.
  - cbn [item_size]. lia.
  - cbn [redirect_size]. lia.
  - cbn [piece_size]. by apply le_n_S, sum_list_with_in.
  - match goal with H : wraps _ _ _ |- _ => apply resolve_wraps in H as [_ H]; apply resolve_wrapped_length in H end.
    cbn [length]. lia.
  - cbn [length]. rewrite length_app. cbn [length]. lia.
Qed.

(** ** What the scan finds *)

(** [m] is found with [depth] levels left after [k] were opened: a deletion, or
    a level too many. *)
Definition found (depth k : nat) (m : node) : Prop := (deletes m /\ k <= depth) \/ (nests m = true /\ k = depth).

Lemma deletes_nests n : deletes n -> nests n = false.
Proof using Type. by inversion 1. Qed.
Lemma scan_complete d k n m : reaches k n m -> found d k m -> scan_at d n = true.
Proof using Type.
  intros R. revert d. induction R as [n|k n n' m R _ IH]; intros d F; apply scan_step; unfold below.
  - destruct F as [[D _]|[N <-]]; [rewrite (deletes_nests n D); by left | by rewrite N].
  - unfold found in F. destruct (nests n); [destruct d as [|d]; [done|]|]; right; exists n'; (split; [done|]); apply IH;
      unfold found; intuition lia.
Qed.
Lemma scan_finds d n : scan_at d n = true -> exists k m, reaches k n m /\ found d k m.
Proof using Type.
  revert n. induction d as [d IHd] using lt_wf_ind. intros n. remember (rank n).1 as a eqn:Ea. revert n Ea.
  induction a as [a IHa] using lt_wf_ind. intros n. remember (rank n).2 as b eqn:Eb. revert n Eb.
  induction b as [b IHb] using lt_wf_ind. intros n -> Ea E. apply scan_step in E. unfold below in E.
  destruct (nests n) eqn:N.
  - destruct d as [|d]; [exists 0, n; split; [constructor | by right]|].
    destruct E as [D|(n' & R & E)]; [by rewrite (deletes_nests n D) in N|].
    destruct (IHd d ltac:(lia) n' E) as (k & m & Hk & F). exists (S k), m. split.
    + pose proof (reaches_step k n n' m R Hk) as H. by rewrite N in H.
    + unfold found in *. intuition lia.
  - destruct E as [D|(n' & R & E)]; [exists 0, n; split; [constructor | left; split; [done | lia]]|].
    assert (exists k m, reaches k n' m /\ found d k m) as (k & m & Hk & F).
    { destruct (runs_rank n n' R N) as [L|[L1 L2]]; [by eapply IHa; [rewrite Ea; apply L|..]|].
      eapply (IHb _ L2 n'); [done | by rewrite L1 | done]. }
    exists k, m. split; [|done]. pose proof (reaches_step k n n' m R Hk) as H. by rewrite N in H.
Qed.

(** C5: whatever a command line runs, at any depth, through substitutions and
    redirections and through wrappers and interpreters in the forms [wraps] and
    [interprets] describe, if one of its commands deletes (a deleting utility by
    any path, a subcommand of git that deletes, [find -delete]) then the scan
    says so: the budget is never a way around it.  What those relations do not
    describe the scan does not see either ([Sample.sudo_assignment_missed]). *)
Theorem delete_scan_sound command argv :
  rtc runs (NShell command) (NArgv argv) -> deletes (NArgv argv) -> contains_delete_command command = true.
Proof using Type.
  intros R D. change (scan_at MAX_PARSE_DEPTH (NShell command) = true). generalize MAX_PARSE_DEPTH.
  remember (NArgv argv) as m eqn:E. clear E. induction R as [n|n n' m R _ IH]; intros d; apply scan_step; unfold below.
  - rewrite (deletes_nests _ D). by left.
  - destruct (nests n); [destruct d; [done|]|]; right; exists n'; auto.
Qed.

(** And it says so of nothing else: of a command line it is true exactly when
    within thirty-two levels there is a command that deletes or an unreadable
    text with a keyword of deletion in it, or when something is nested deeper. *)
Theorem delete_scan_exact command :
  contains_delete_command command = true <->
  exists k m, reaches k (NShell command) m /\ ((deletes m /\ k <= 32) \/ (nests m = true /\ k = 32)).
Proof using Type.
  change (contains_delete_command command) with (scan_at MAX_PARSE_DEPTH (NShell command)). split.
  - apply scan_finds.
  - intros (k & m & R & F). by eapply scan_complete.
Qed.

End Scan.

(** ** A parser that knows two lines *)
Module Sample.
Definition words_of (words : list string) : Program :=
  match words with
  | [] => []
  | name :: args => [mk_list [mk_and_or (mk_pipeline [Simple [] (Some name) (ItemWord <$> args)]) []]]
  end.
#[export] Instance parsers : Parsers := {
  parse_program s :=
    if String.eqb s "sudo -u root sh -c 'rm -rf x'" then Some (words_of ["sudo"; "-u"; "root"; "sh"; "-c"; "'rm -rf x'"])
    else Some (words_of (Str.words s));
  word_parse _ := Some [];
  shell_split s := Some [default s (stripped "'" "'" s)]
}.
Lemma sudo_runs : wraps "sudo" ["-u"; "root"; "sh"; "-c"; "rm -rf x"] ["sh"; "-c"; "rm -rf x"].
Proof.
  apply (wraps_sudo "sudo" ["-u"; "root"]); [by left | apply own_value; [by left | constructor]|].
  split; [apply (bool_decide_unpack _); vm_compute; exact I | by intros (c & s & E)].
Qed.
Lemma sh_reads : interprets "sh" (dequote <$> ["-c"; "rm -rf x"]) "rm -rf x".
Proof.
  apply (interprets_shell "sh" [] "-c" "rm -rf x" []); [by left | constructor | by exists EmptyString, EmptyString].
Qed.
Lemma delete_scan_sound_witness :
  contains_delete_command "sudo -u root sh -c 'rm -rf x'" = true /\ contains_delete_command "grep rm x" = false.
Proof.
  split; [|reflexivity]. apply (delete_scan_sound _ ["rm"; "-rf"; "x"]).
  - eapply rtc_l; [eapply runs_program; [reflexivity | by left]|].
    eapply rtc_l; [eapply runs_command; by left|].
    eapply rtc_l; [apply runs_simple_argv|].
    eapply rtc_l; [by apply (runs_wrapped "sudo" "sudo" _ _ ltac:(split; [done | by left]) sudo_runs)|].
    eapply rtc_l; [by apply (runs_interpreter "sh" "sh" _ _ ltac:(split; [done | by left]) sh_reads)|].
    eapply rtc_l; [apply runs_string|].
    eapply rtc_l; [eapply runs_program; [reflexivity | by left]|].
    eapply rtc_l; [eapply runs_command; by left|].
    eapply rtc_l; [apply runs_simple_argv|]. apply rtc_refl.
  - apply (deletes_argv0 "rm" "rm"); [by split; [|left] | by left].
Defined.
(** An assignment between [sudo] and its command, which [sudo] takes, is taken
    for the command. *)
Example sudo_assignment_missed : contains_delete_command "sudo FOO=1 rm -rf x" = false.
Proof. vm_compute. reflexivity. Qed.
End Sample.

End BashScan.
