(* ===== verification/BashRoute.v ===== *)
(** * Where a shell command may run ([crates/tools/src/builtin/bash/mod.rs],
      [parse.rs], [permission.rs])

    The route of a command line: whether it is an invocation of the gateway's own
    command line, which sub-command says so, which paths its words may name, and
    the shell text it is run as.  The quoting parser is [BashScan]'s; the file
    system answers canonical paths. *)

From S2P Require Import Prelude Message Approval Upkeep BashScan.
Import BashScan(Parsers, shell_split).

Module BashRoute.

#[local] Existing Instance Approval.Component_eq_dec.

(** ** Sub-commands

    [start] is the text of the token being read. *)
Record Lexer := mk_lexer {
  subs : list (list string);
  current : list string;
  start : option string;
  in_single : bool;
  in_double : bool;
}.
Definition idle : Lexer := mk_lexer [] [] None false false.
Definition grow (b : ascii) (x : Lexer) : Lexer :=
  mk_lexer (subs x) (current x) (Some (default "" (start x) +:+ String b "")%string) (in_single x) (in_double x).
Definition toggle_single (x : Lexer) : Lexer :=
  mk_lexer (subs x) (current x) (start x) (negb (in_single x)) (in_double x).
Definition toggle_double (x : Lexer) : Lexer :=
  mk_lexer (subs x) (current x) (start x) (in_single x) (negb (in_double x)).
Definition end_token (x : Lexer) : Lexer :=
  mk_lexer (subs x) (current x ++ option_list (start x)) None (in_single x) (in_double x).
Definition end_sub (x : Lexer) : Lexer :=
  let x := end_token x in
  mk_lexer (subs x ++ match current x with [] => [] | c => [c] end) [] None (in_single x) (in_double x).

Definition outside_quotes (x : Lexer) : bool := negb (in_single x) && negb (in_double x).
Definition is_subcmd_separator (x : Lexer) (b : ascii) : bool :=
  (outside_quotes x && bool_decide (b ∈ [";"; "|"; "&"; "("; ")"]%char))
  || (negb (in_single x) && Ascii.eqb b "`").
Definition plain_step (b : ascii) (x : Lexer) : Lexer :=
  if negb (in_double x) && Ascii.eqb b "'" then toggle_single (grow b x)
  else if negb (in_single x) && Ascii.eqb b "034" then toggle_double (grow b x)
  else if is_subcmd_separator x b then end_sub x
  else if outside_quotes x && Str.is_ascii_whitespace b then end_token x
  else grow b x.
Fixpoint lex (s : string) (x : Lexer) : Lexer :=
  match s with
  | EmptyString => x
  | String b rest =>
      if negb (in_single x) && Ascii.eqb b "\" then
        match rest with
        | String c rest => lex rest (grow c (grow b x))
        | EmptyString => plain_step b x
        end
      else lex rest (plain_step b x)
  end.
Definition split_into_subcommands (command : string) : list (list string) := subs (end_sub (lex command idle)).

(** ** The permission mode and the route *)

Inductive PermissionMode := Auto | Manual | Free.
#[export] Instance PermissionMode_eq_dec : EqDecision PermissionMode.
Proof. solve_decision. Defined.
Definition waives_approval (p : PermissionMode) : bool := bool_decide (p = Free).
Definition encode (p : PermissionMode) : N := match p with Auto => 0 | Manual => 1 | Free => 2 end.
Definition from_u8 (v : N) : PermissionMode := if (v =? 1)%N then Manual else if (v =? 2)%N then Free else Auto.

(** [BENCH] is false outside the benchmark build. *)
Definition permission_skips_os_sandbox (p : PermissionMode) : bool := bool_decide (p = Free).
Inductive SandboxPermissions := UseDefault | RequireEscalated.
#[export] Instance SandboxPermissions_eq_dec : EqDecision SandboxPermissions.
Proof. solve_decision. Defined.
Definition requires_approval (s : SandboxPermissions) (p : PermissionMode) : bool :=
  bool_decide (s = RequireEscalated) && negb (permission_skips_os_sandbox p).

Inductive BayboCliCommandKind :=
| CanonicalSelfInvocation | NonCanonicalSelfInvocation | ChainedSelfInvocation | OtherCommand.
#[export] Instance BayboCliCommandKind_eq_dec : EqDecision BayboCliCommandKind.
Proof. solve_decision. Defined.
Inductive SandboxEscapePolicy := NoEscape | AutoJudge | ManualApproval.
#[export] Instance SandboxEscapePolicy_eq_dec : EqDecision SandboxEscapePolicy.
Proof. solve_decision. Defined.
Inductive BashExecutionRoute :=
| RejectNonCanonicalBayboCliPath
| RejectChainedBayboCli
| RunBayboCliUnsandboxed
| RunUnsandboxed
| RunSandboxed (judged : bool) (escape : SandboxEscapePolicy).
Inductive DetachedExecutionRoute := Sandboxed | Unsandboxed.
#[export] Instance DetachedExecutionRoute_eq_dec : EqDecision DetachedExecutionRoute.
Proof. solve_decision. Defined.

Definition is_sandboxed (r : BashExecutionRoute) : bool := match r with RunSandboxed _ _ => true | _ => false end.
Definition is_unsandboxed (r : BashExecutionRoute) : bool :=
  match r with RunBayboCliUnsandboxed | RunUnsandboxed => true | _ => false end.
Definition detached_route (r : BashExecutionRoute) : option DetachedExecutionRoute :=
  match r with
  | RunSandboxed _ _ => Some Sandboxed
  | RunBayboCliUnsandboxed | RunUnsandboxed => Some Unsandboxed
  | _ => None
  end.
Definition pre_exec_judge (r : BashExecutionRoute) : bool := match r with RunSandboxed true _ => true | _ => false end.
Definition escape_policy (r : BashExecutionRoute) : SandboxEscapePolicy :=
  match r with RunSandboxed _ p => p | _ => NoEscape end.

Definition bash_execution_route_for_kind (k : BayboCliCommandKind) (p : PermissionMode) : BashExecutionRoute :=
  match k with
  | CanonicalSelfInvocation => RunBayboCliUnsandboxed
  | NonCanonicalSelfInvocation => RejectNonCanonicalBayboCliPath
  | ChainedSelfInvocation => RejectChainedBayboCli
  | OtherCommand =>
      if permission_skips_os_sandbox p then RunUnsandboxed
      else match p with
           | Auto => RunSandboxed true AutoJudge
           | Manual => RunSandboxed false ManualApproval
           | Free => RunUnsandboxed
           end
  end.
Definition bash_execution_route_for_kind_and_permissions (k : BayboCliCommandKind) (p : PermissionMode)
    (s : SandboxPermissions) : BashExecutionRoute :=
  let default_route := bash_execution_route_for_kind k p in
  if negb (requires_approval s p) then default_route
  else match default_route with
       | RejectNonCanonicalBayboCliPath | RejectChainedBayboCli => default_route
       | _ => RunUnsandboxed
       end.

Definition NON_CANONICAL_BAYBO_CLI_REJECTION : string :=
  "Baybo CLI invocations must use the absolute path of the gateway binary. Replace the argv0 with `{{baybo_bin}}` (e.g. `{{baybo_bin}} cost` instead of `baybo cost`). Bare-name and relative-path invocations are rejected so the unsandboxed shell never resolves `baybo` through `$PATH`.".
Definition CHAINED_BAYBO_CLI_REJECTION : string :=
  "This command runs the Baybo CLI, but not as the FIRST sub-command on the line. Only a leading `{{baybo_bin}}` runs unsandboxed; anything else makes the WHOLE line run inside the OS sandbox, where `{{baybo_bin}}` is not mounted — you would get `exit 127` / `No such file or directory`, which does NOT mean the binary is missing on the host. Split this into two Bash calls: run the non-baybo part first, then run `{{baybo_bin}} …` as its own call with the baybo invocation first. Chaining other commands AFTER a leading baybo invocation is fine.".
Definition baybo_cli_rejection_template (r : BashExecutionRoute) : option string :=
  match r with
  | RejectNonCanonicalBayboCliPath => Some NON_CANONICAL_BAYBO_CLI_REJECTION
  | RejectChainedBayboCli => Some CHAINED_BAYBO_CLI_REJECTION
  | _ => None
  end.
Definition baybo_bin_display (bin : option string) : string := default "<unknown>" bin.
Definition BAYBO_BIN_PLACEHOLDER : string := "{{baybo_bin}}".

(** ** Invocations of the gateway's command line *)

(** [Path::file_name]: the last component, when it is a name. *)
Definition file_name (path : string) : option string :=
  last (Approval.components path) ≫= fun c => match c with Approval.Normal s => Some s | _ => None end.
Definition is_absolute (path : string) : bool := Str.starts_with "/" path.

Section Paths.
Context {P : Parsers} (canonicalize : string -> option string).

Definition is_safe_baybo_env_assignment (tok : string) : bool :=
  match Str.split_at_char "=" tok with
  | Some (key, _) => Str.starts_with "BAYBO_" key || BashScan.one_of ["RUST_LOG"; "RUST_BACKTRACE"] key
  | None => false
  end.
(** Two paths are equal when their components are. *)
Definition canon (p : string) : list Approval.Component := Approval.components (default p (canonicalize p)).
Definition argv0_matches_gateway_binary (argv0 bin : string) : bool :=
  is_absolute argv0 && bool_decide (canon argv0 = canon bin).

(** A token without its quotes; [None] when it is not one word. *)
Definition unquote (tok : string) : option string :=
  match shell_split tok with Some [] => Some ""%string | Some [w] => Some w | _ => None end.
(** The program of a sub-command, behind the assignments a trusted invocation may have. *)
Fixpoint argv0_of (unquoted : list string) : option string :=
  match unquoted with
  | [] => None
  | tok :: rest =>
      if BashScan.is_env_assignment tok then
        if is_safe_baybo_env_assignment tok then argv0_of rest else None
      else Some tok
  end.
Definition looks_like_baybo (argv0 bin : string) : bool :=
  match file_name argv0, file_name bin with Some a, Some b => String.eqb a b | _, _ => false end.
Definition classify_tokens (tokens : list string) (bin : string) : BayboCliCommandKind :=
  match mapM unquote tokens ≫= argv0_of with
  | None => OtherCommand
  | Some argv0 =>
      if negb (looks_like_baybo argv0 bin) then OtherCommand
      else if argv0_matches_gateway_binary argv0 bin then CanonicalSelfInvocation
      else NonCanonicalSelfInvocation
  end.
Definition classify_baybo_cli_command_with_bin (command bin : string) : BayboCliCommandKind :=
  match split_into_subcommands command with
  | [] => OtherCommand
  | leader :: rest =>
      match classify_tokens leader bin with
      | OtherCommand =>
          if existsb (fun tokens => negb (bool_decide (classify_tokens tokens bin = OtherCommand))) rest
          then ChainedSelfInvocation else OtherCommand
      | leading => leading
      end
  end.
(** [bin]: the running gateway's binary, if it could be found. *)
Definition classify_baybo_cli_command (bin : option string) (command : string) : BayboCliCommandKind :=
  match bin with None => OtherCommand | Some bin => classify_baybo_cli_command_with_bin command bin end.

(** ** The work directory *)

Definition require_absolute (dir tool field : string) : result unit string :=
  if is_absolute dir then Ok tt
  else Err (tool +:+ " `" +:+ field +:+ "` must be an absolute path, got `" +:+ dir +:+ "`")%string.
Definition strays (path workspace_root work_dir : string) : bool :=
  Approval.path_starts_with path workspace_root && negb (Approval.path_starts_with path work_dir).
Definition require_within_work_dir (path workspace_root work_dir label : string) : result unit string :=
  if negb (is_absolute path) then Ok tt
  else if strays path workspace_root work_dir then
    Err ("Bash " +:+ label +:+ " `" +:+ path +:+ "` is inside the workspace but outside the work directory. Only `"
         +:+ work_dir +:+ "` is writable for shell operations (your own skill directory and blob payload paths from `GetBlob` are also nameable, read-only) — move the action under `"
         +:+ work_dir +:+ "/` or use Read/Edit/Write for the read-only workspace subtrees (personas/, config/, state/, logs/, .key/).")%string
  else Ok tt.

Definition BAYBO_CONFIG_PATH_HINT : string :=
  "The Baybo self-CLI already receives the active config through `BAYBO_CONFIG_PATH`; omit an explicit `--config` argument.".
Definition has_explicit_baybo_config_arg (command : string) : bool :=
  match head (split_into_subcommands command) with
  | Some sub => existsb (existsb (fun w => String.eqb w "--config" || Str.starts_with "--config=" w)) (omap shell_split sub)
  | None => false
  end.
Definition with_baybo_config_hint (reason : string) : string := (reason +:+ " " +:+ BAYBO_CONFIG_PATH_HINT)%string.

Section Jail.
Context (workspace_root work_dir : string) (exempt_roots : list string) (leading_baybo_bin : option string).

(** One word; [pending] is whether the leading program is still to come. *)
Definition word_step (pending : bool) (word : string) : result bool string :=
  let is_leading_argv0 := pending && negb (BashScan.is_env_assignment word) in
  let pending' := pending && negb is_leading_argv0 in
  if is_leading_argv0 && is_some_and (argv0_matches_gateway_binary word) leading_baybo_bin then Ok pending'
  else if is_absolute word && existsb (Approval.path_starts_with word) exempt_roots then Ok pending'
  else let? _ := require_within_work_dir word workspace_root work_dir "command argument" in Ok pending'.
Fixpoint walk_words (pending : bool) (words : list string) : result bool string :=
  match words with
  | [] => Ok pending
  | w :: ws => let? pending := word_step pending w in walk_words pending ws
  end.
(** A token that does not unquote is skipped. *)
Definition token_words (tokens : list string) : list string := concat (omap shell_split tokens).
Fixpoint walk_subs (first : bool) (l : list (list string)) : result unit string :=
  match l with
  | [] => Ok tt
  | sub :: l => let? _ := walk_words first (token_words sub) in walk_subs false l
  end.
Definition require_command_paths_within_work_dir (command : string) : result unit string :=
  match walk_subs true (split_into_subcommands command) with
  | Ok _ => Ok tt
  | Err e => Err (if is_some leading_baybo_bin && has_explicit_baybo_config_arg command
                  then with_baybo_config_hint e else e)
  end.
End Jail.

End Paths.

(** ** The text the shell is given *)

(** Between double quotes. *)
Definition dq (s : string) : string := (Message.dquote +:+ s +:+ Message.dquote)%string.
Definition BIN_NAME : string := "baybo".
Definition ENV_CONFIG_PATH : string := "BAYBO_CONFIG_PATH".
Fixpoint quote_body (s : string) : string :=
  match s with
  | EmptyString => EmptyString
  | String c s => ((if Ascii.eqb c "'" then "'\''" else String c "") +:+ quote_body s)%string
  end.
Definition sh_quote (s : string) : string := ("'" +:+ quote_body s +:+ "'")%string.
Definition inject_baybo_env_with (command config_path : string) : string :=
  if negb (Str.contains BIN_NAME command) then command
  else ("export BAYBO_HELP_AGENT=1; export " +:+ ENV_CONFIG_PATH +:+ "=" +:+ sh_quote config_path +:+ "; " +:+ command)%string.

Definition UV_SHELL_SHIMS : string :=
  ("python() { uv run python " +:+ dq "$@" +:+ "; }; python3() { uv run python " +:+ dq "$@" +:+ "; }; pip() { uv pip "
   +:+ dq "$@" +:+ "; }; ")%string.
Definition UV_ENV_VARS : list (string * string) :=
  [("UV_CACHE_DIR", "cache"); ("UV_PYTHON_INSTALL_DIR", "python"); ("UV_TOOL_DIR", "tools"); ("UV_TOOL_BIN_DIR", "bin")].
Definition export_line (name value : string) : string := ("export " +:+ name +:+ "=" +:+ sh_quote value +:+ "; ")%string.
(** [uv_state]: the directory under [work/] that uv's own are joined to. *)
Definition build_uv_env_exports (uv_state : string) (uv_dir : option string) : string :=
  (match uv_dir with Some dir => "export PATH=" +:+ sh_quote dir +:+ ":" +:+ dq "$PATH" +:+ "; " | None => "" end
   +:+ Str.whole ((fun v => export_line v.1 (uv_state +:+ "/" +:+ v.2)) <$> UV_ENV_VARS) +:+ UV_SHELL_SHIMS)%string.

(** ** What a result means *)

Definition interpret_exit (command : string) (exit_code : Z) : option string :=
  if negb (exit_code =? 1)%Z then None
  else BashScan.first_token command ≫= fun argv0 =>
       if BashScan.one_of ["grep"; "rg"; "ag"; "fgrep"; "egrep"] argv0 then Some "no matches"%string
       else if BashScan.one_of ["diff"; "cmp"] argv0 then Some "differences found"%string else None.
Definition EXIT_COMMAND_NOT_FOUND : Z := 127.
Definition SHELL_ENOENT_MARKER : string := "No such file or directory".
Definition SANDBOX_VISIBILITY_NOTE : string :=
  ("`{{path}}` was never mounted into this sandbox, which exposes only the workspace work dir, $HOME and the read-only FHS roots. Exit 127 here means "
   +:+ dq "not visible from inside the sandbox" +:+ " — it is NOT evidence that the file is missing on the host, where it may well exist. Re-running the same command will fail identically; read the path with a tool that runs outside the sandbox (Read / Glob) before concluding anything about whether it exists.")%string.
Definition enoent_line (line : string) : option string :=
  Str.strip_suffix SHELL_ENOENT_MARKER (Str.trim_end line) ≫= fun head =>
  Str.strip_suffix ":" (Str.trim_end head) ≫= fun named =>
  let path := match Str.rfind ": " named with Some i => Str.drop (i + 2) named | None => named end in
  if Str.starts_with "/" path then Some path else None.
Definition enoent_program_path (stderr : string) : option string := head (omap enoent_line (Str.lines stderr)).
(** [path_is_visible]: what the sandbox knows of a path. *)
Definition sandbox_visibility_note (exit_code : Z) (stderr : string) (path_is_visible : string -> option bool) : option string :=
  if negb (exit_code =? EXIT_COMMAND_NOT_FOUND)%Z then None
  else enoent_program_path stderr ≫= fun path =>
       if bool_decide (path_is_visible path = Some false)
       then Some (Str.replace "{{path}}" path SANDBOX_VISIBILITY_NOTE) else None.

Definition MAX_OUTPUT_BYTES : nat := N.to_nat (2 * Upkeep.MAX_TOOL_OUTPUT_BYTES).
Definition truncate_utf8 (bytes : string) (max : nat) : string :=
  if Nat.leb (String.length bytes) max then Str.from_utf8_lossy bytes
  else
    let cut := Str.char_cut bytes max in
    (Str.from_utf8_lossy (Str.take cut bytes) +:+ Message.newline +:+ "... [truncated "
     +:+ pretty (String.length bytes - cut) +:+ " bytes, total " +:+ pretty (String.length bytes) +:+ "] ...")%string.

(** ** Quoted text is one token *)

Lemma lex_grow c s x : negb (in_single x) && Ascii.eqb c "\" = false -> plain_step c x = grow c x -> lex (String c s) x = lex s (grow c x).
Proof. intros E <-. cbn [lex]. by rewrite E. Qed.
(** Inside single quotes: a quote character leaves them, escapes itself and
    enters them again. *)
Lemma lex_quote_body s r sb cu t :
  lex (quote_body s +:+ r)%string (mk_lexer sb cu (Some t) true false)
  = lex r (mk_lexer sb cu (Some (t +:+ quote_body s)%string) true false).
Proof.
  revert t. induction s as [|c s IH]; intros t; cbn [quote_body].
  - by rewrite Str.app_nil_str, Str.app_nil_r_str.
  - rewrite <- Str.app_assoc_str. destruct (Ascii.eqb_spec c "'") as [->|Hc].
    + cbn [String.append]. cbn -[quote_body String.append]. unfold grow, toggle_single. cbn -[quote_body String.append]. rewrite IH. by rewrite <- !Str.app_assoc_str.
    + rewrite Str.app_cons_str, Str.app_nil_str, lex_grow; [|done|].
      * unfold grow. cbn -[quote_body String.append]. rewrite IH. by rewrite <- Str.app_assoc_str.
      * unfold plain_step. cbn. by destruct (Ascii.eqb_spec c "'").
Qed.
Lemma lex_sh_quote s r sb cu t :
  lex (sh_quote s +:+ r)%string (mk_lexer sb cu (Some t) false false)
  = lex r (mk_lexer sb cu (Some (t +:+ sh_quote s)%string) false false).
Proof.
  unfold sh_quote. rewrite <- !Str.app_assoc_str. cbn [String.append lex]. cbn -[quote_body String.append lex].
  unfold grow, toggle_single. cbn -[quote_body String.append]. rewrite lex_quote_body. cbn [lex].
  cbn -[quote_body String.append]. unfold grow, toggle_single. cbn -[quote_body String.append]. by rewrite <- !Str.app_assoc_str.
Qed.

(** What is read later is put behind what is there. *)
Definition behind (l : list (list string)) (x : Lexer) : Lexer :=
  mk_lexer (l ++ subs x) (current x) (start x) (in_single x) (in_double x).
Lemma end_sub_behind l x : end_sub (behind l x) = behind l (end_sub x).
Proof. unfold end_sub, end_token, behind. cbn. by rewrite app_assoc. Qed.
Lemma plain_step_behind b l x : plain_step b (behind l x) = behind l (plain_step b x).
Proof.
  unfold plain_step. cbn [behind in_single in_double]. rewrite end_sub_behind.
  change (is_subcmd_separator (behind l x) b) with (is_subcmd_separator x b).
  change (outside_quotes (behind l x)) with (outside_quotes x). by repeat case_match.
Qed.
Lemma lex_behind s l x : lex s (behind l x) = behind l (lex s x).
Proof.
  remember (String.length s) as n eqn:E. revert s E x. induction n as [n IH] using lt_wf_ind. intros s -> x.
  destruct s as [|b rest]; [done|]. cbn [lex]. change (in_single (behind l x)) with (in_single x).
  destruct (negb (in_single x) && Ascii.eqb b "\").
  - destruct rest as [|c rest]; [apply plain_step_behind|].
    change (grow c (grow b (behind l x))) with (behind l (grow c (grow b x))).
    apply (IH (String.length rest)); [cbn; lia | done].
  - rewrite plain_step_behind. apply (IH (String.length rest)); [cbn; lia | done].
Qed.
Lemma lex_app a r x : Str.contains_char "\" a = false -> lex (a +:+ r)%string x = lex r (lex a x).
Proof.
  revert x. induction a as [|c a IH]; intros x; [done|]. cbn [Str.contains_char]. intros [E Ha]%orb_false_iff.
  rewrite Str.app_cons_str. cbn [lex]. rewrite (Ascii.eqb_sym c), E, andb_false_r. by apply IH.
Qed.

(** The environment put in front of a command that mentions the gateway is two
    exports of its own, whatever characters the configuration's path has; the
    command behind them is read as it would be alone. *)
Theorem injected_exports_stand_alone command config_path :
  Str.contains BIN_NAME command = true ->
  split_into_subcommands (inject_baybo_env_with command config_path)
  = [["export"; "BAYBO_HELP_AGENT=1"]; ["export"; ("BAYBO_CONFIG_PATH=" +:+ sh_quote config_path)%string]]
    ++ split_into_subcommands command.
Proof.
  intros H. unfold inject_baybo_env_with, split_into_subcommands. rewrite H. cbn [negb].
  set (quoted := sh_quote config_path). rewrite lex_app by done.
  rewrite (lex_app ENV_CONFIG_PATH), (lex_app "=") by done.
  match goal with |- context [lex (quoted +:+ _)%string ?x] =>
    replace x with (mk_lexer [["export"; "BAYBO_HELP_AGENT=1"]] ["export"] (Some "BAYBO_CONFIG_PATH=") false false)
      by (by vm_compute) end.
  subst quoted. rewrite lex_sh_quote, lex_app by done. set (p := ("BAYBO_CONFIG_PATH=" +:+ sh_quote config_path)%string).
  change (lex "; " _) with (behind [["export"; "BAYBO_HELP_AGENT=1"]; ["export"; p]] idle).
  by rewrite lex_behind, end_sub_behind.
Qed.

(** ** The route *)

Section Routes.
Context {P : Parsers} (canonicalize : string -> option string).

(** The first sub-command is the gateway's binary by its absolute path, behind
    nothing but assignments it is trusted with. *)
Definition leads_with_gateway (command bin : string) : Prop :=
  exists leader rest env argv0 args,
    split_into_subcommands command = leader :: rest /\
    mapM unquote leader = Some (env ++ argv0 :: args) /\
    Forall (fun a => BashScan.is_env_assignment a = true /\ is_safe_baybo_env_assignment a = true) env /\
    BashScan.is_env_assignment argv0 = false /\
    is_absolute argv0 = true /\ canon canonicalize argv0 = canon canonicalize bin /\
    looks_like_baybo argv0 bin = true.

Lemma argv0_of_spec words argv0 :
  argv0_of words = Some argv0 <->
  exists env args, words = env ++ argv0 :: args /\ BashScan.is_env_assignment argv0 = false /\
    Forall (fun a => BashScan.is_env_assignment a = true /\ is_safe_baybo_env_assignment a = true) env.
Proof.
  induction words as [|w words IH]; cbn [argv0_of].
  - split; [done|]. by intros ([] & ? & ? & _).
  - destruct (BashScan.is_env_assignment w) eqn:Ew; [destruct (is_safe_baybo_env_assignment w) eqn:Es|].
    + rewrite IH. split.
      * intros (env & args & -> & Ha & Hf). exists (w :: env), args. by split_and!; [|done|constructor].
      * intros ([|e env] & args & E & Ha & Hf); simplify_list_eq; [congruence|].
        exists env, args. by inversion Hf.
    + split; [done|]. intros ([|e env] & args & E & Ha & Hf); simplify_list_eq; [congruence|].
      inversion Hf as [|? ? []]; congruence.
    + split.
      * intros [= <-]. exists [], words. by split_and!.
      * intros ([|e env] & args & E & Ha & Hf); simplify_list_eq; [done|]. inversion Hf as [|? ? []]; congruence.
Qed.
Lemma classify_tokens_canonical tokens bin :
  classify_tokens canonicalize tokens bin = CanonicalSelfInvocation <->
  exists argv0, mapM unquote tokens ≫= argv0_of = Some argv0 /\ looks_like_baybo argv0 bin = true /\
    is_absolute argv0 = true /\ canon canonicalize argv0 = canon canonicalize bin.
Proof.
  unfold classify_tokens, argv0_matches_gateway_binary. destruct (_ ≫= argv0_of) as [a|].
  - destruct (looks_like_baybo a bin) eqn:El, (is_absolute a) eqn:Ea; cbn [negb andb]; try case_bool_decide as Ec;
      (split; [try done; by exists a | by intros (b & [= <-] & Hl & Ha & Hc); congruence]).
  - split; [done | by intros (? & ? & _)].
Qed.
Lemma classify_canonical command bin :
  classify_baybo_cli_command_with_bin canonicalize command bin = CanonicalSelfInvocation <-> leads_with_gateway command bin.
Proof.
  unfold classify_baybo_cli_command_with_bin, leads_with_gateway.
  destruct (split_into_subcommands command) as [|leader rest]; [split; [done | by intros (?&?&?&?&?&?&?)]|].
  transitivity (classify_tokens canonicalize leader bin = CanonicalSelfInvocation).
  { destruct (classify_tokens _ leader bin); try done. by case_match. }
  rewrite classify_tokens_canonical. split.
  - intros (argv0 & E & Hl & Ha & Hc). apply bind_Some in E as (words & Ew & E).
    apply argv0_of_spec in E as (env & args & -> & He & Hf). by exists leader, rest, env, argv0, args.
  - intros (? & ? & env & argv0 & args & [= <- <-] & Ew & Hf & He & Ha & Hc & Hl). exists argv0. split_and!; [|done..].
    rewrite Ew. cbn. apply argv0_of_spec. by exists env, args.
Qed.

(** C31: outside free mode a line that asks for no escalation is put on an
    unsandboxed route exactly when its first sub-command is the gateway's own
    binary, named by an absolute path of the same file and behind trusted
    assignments only: no later part of a line, and no other program of that
    name, takes it out of the sandbox. *)
Theorem unsandboxed_route_exact bin command mode :
  mode <> Free ->
  is_unsandboxed (bash_execution_route_for_kind_and_permissions
                    (classify_baybo_cli_command canonicalize bin command) mode UseDefault) = true <->
  exists b, bin = Some b /\ leads_with_gateway command b.
Proof.
  intros Hm. transitivity (classify_baybo_cli_command canonicalize bin command = CanonicalSelfInvocation).
  - destruct (classify_baybo_cli_command _ bin command), mode; done.
  - unfold classify_baybo_cli_command. destruct bin as [b|].
    + rewrite classify_canonical. split; [by exists b | by intros (? & [= <-] & ?)].
    + split; [done | by intros (? & ? & _)].
Qed.

(** ** The jail *)

Section Jailed.
Context (workspace_root work_dir : string) (exempt_roots : list string) (leading_baybo_bin : option string).

(** A word the guard has no objection to. *)
Definition nameable (word : string) : Prop :=
  is_absolute word = true -> strays word workspace_root work_dir = true ->
  exists root, root ∈ exempt_roots /\ Approval.path_starts_with word root = true.
(** The word is the first of the line that is not an assignment, and the binary. *)
Definition leading_program (words : list string) (i : nat) (word : string) : Prop :=
  Forall (fun w => BashScan.is_env_assignment w = true) (take i words) /\ BashScan.is_env_assignment word = false /\
  exists b, leading_baybo_bin = Some b /\ argv0_matches_gateway_binary canonicalize word b = true.

Abbreviation step := (word_step canonicalize workspace_root work_dir exempt_roots leading_baybo_bin).
Abbreviation walk := (walk_words canonicalize workspace_root work_dir exempt_roots leading_baybo_bin).

Lemma word_step_spec pending word :
  step pending word = Ok (pending && BashScan.is_env_assignment word)
  /\ (nameable word \/ (pending = true /\ leading_program [] 0 word))
  \/ is_Ok (step pending word) = false /\ ~ (nameable word \/ (pending = true /\ leading_program [] 0 word)).
Proof.
  unfold word_step. set (lead := pending && negb (BashScan.is_env_assignment word)).
  assert (pending && negb lead = pending && BashScan.is_env_assignment word) as ->.
  { subst lead. by destruct pending, (BashScan.is_env_assignment word). }
  destruct (lead && _) eqn:El.
  { left. split; [done|]. right. apply andb_true_iff in El as [El (b & -> & Hb)%is_some_and_true].
    subst lead. apply andb_true_iff in El as [-> Hn%negb_true_iff]. split; [done|]. split_and!; [constructor | done | eauto]. }
  assert (~ (pending = true /\ leading_program [] 0 word)) as N.
  { intros (-> & _ & He & b & -> & Hb). subst lead. rewrite He in El. cbn in El. congruence. }
  destruct (is_absolute word && existsb _ exempt_roots) eqn:Ex.
  { left. split; [done|]. left. intros _ _. apply andb_true_iff in Ex as [_ (r & Hr & E)%existsb_elem]. eauto. }
  unfold require_within_work_dir. destruct (is_absolute word) eqn:Ea; cbn [negb].
  - destruct (strays word workspace_root work_dir) eqn:Es; cbn [result_bind].
    + right. split; [done|]. intros [H|H]; [|done]. destruct (H Ea Es) as (r & Hr & E).
      cbn [andb] in Ex. apply not_true_iff_false in Ex. apply Ex, existsb_elem. eauto.
    + left. split; [done|]. left. intros _. congruence.
  - left. split; [done|]. left. intros H. congruence.
Qed.
Lemma walk_words_spec pending words :
  is_Ok (walk pending words) = true <->
  forall i w, words !! i = Some w -> nameable w \/ (pending = true /\ leading_program words i w).
Proof.
  revert pending. induction words as [|v words IH]; intros pending; cbn [walk_words]; [done|].
  destruct (word_step_spec pending v) as [[-> Hv]|[E Hv]].
  - cbn [result_bind]. rewrite IH. split.
    + intros H [|i] w Hw; cbn in Hw; [simplify_eq; done|].
      destruct (H i w Hw) as [Hn|[[-> He]%andb_true_iff (Hf & Hl)]]; [by left | right].
      split; [done|]. split; [by constructor | done].
    + intros H i w Hw. destruct (H (S i) w Hw) as [Hn|[-> (Hf & Hl)]]; [by left | right].
      cbn in Hf. inversion Hf as [|? ? He Hf']. rewrite He. split; [done|]. by split.
  - split; [by destruct (step pending v)|]. intros H. exfalso. apply Hv. exact (H 0 v eq_refl).
Qed.

(** The guard passes a line exactly when every word of every token of it that
    is an absolute path into the workspace stays below the work directory, or
    below an exempt root, or is the gateway's binary as the line's program. *)
Theorem jail_exact command :
  is_Ok (require_command_paths_within_work_dir canonicalize workspace_root work_dir exempt_roots leading_baybo_bin
           command) = true <->
  forall k sub i word,
    split_into_subcommands command !! k = Some sub -> token_words sub !! i = Some word ->
    nameable word \/ (k = 0 /\ leading_program (token_words sub) i word).
Proof.
  unfold require_command_paths_within_work_dir.
  set (l := split_into_subcommands command). clearbody l.
  transitivity (is_Ok (walk_subs canonicalize workspace_root work_dir exempt_roots leading_baybo_bin true l) = true);
    [by case_match|].
  assert (forall first l, is_Ok (walk_subs canonicalize workspace_root work_dir exempt_roots leading_baybo_bin first l) = true <->
    forall k sub i word, l !! k = Some sub -> token_words sub !! i = Some word ->
      nameable word \/ ((first = true /\ k = 0) /\ leading_program (token_words sub) i word)) as G.
  { clear. intros first l. revert first. induction l as [|sub l IH]; intros first; cbn [walk_subs]; [done|].
    pose proof (walk_words_spec first (token_words sub)) as W. destruct (walk first (token_words sub)) as [p|e]; cbn [result_bind].
    - rewrite IH. split.
      + intros H [|k] sub' i w Hk Hi; cbn in Hk; [simplify_eq; destruct (proj1 W eq_refl i w Hi); tauto|].
        destruct (H k sub' i w Hk Hi) as [?|[[? ?] ?]]; [by left | done].
      + intros H k sub' i w Hk Hi. destruct (H (S k) sub' i w Hk Hi) as [?|[[? ?] ?]]; [by left | done].
    - split; [done|]. intros H. apply W. intros i w Hi. destruct (H 0 sub i w eq_refl Hi) as [?|[[? ?] ?]]; tauto. }
  rewrite G. split; intros H k sub i w Hk Hi; destruct (H k sub i w Hk Hi); tauto.
Qed.
End Jailed.
End Routes.

Module Sample.
#[local] Existing Instance BashScan.Sample.parsers.
Lemma injected_exports_stand_alone_witness :
  split_into_subcommands (inject_baybo_env_with "baybo cost; ls" "/it's here; rm -rf /")
  = [["export"; "BAYBO_HELP_AGENT=1"]; ["export"; ("BAYBO_CONFIG_PATH=" +:+ sh_quote "/it's here; rm -rf /")%string];
     ["baybo"; "cost"]; ["ls"]].
Proof. by apply (injected_exports_stand_alone "baybo cost; ls" "/it's here; rm -rf /"). Defined.
Lemma unsandboxed_route_exact_witness :
  let routed command := is_unsandboxed (bash_execution_route_for_kind_and_permissions
      (classify_baybo_cli_command Some (Some "/opt/bin/baybo"%string) command) Auto UseDefault) in
  routed "RUST_LOG=debug /opt/bin/baybo cost | head"%string = true
  /\ ~ leads_with_gateway Some "curl x | sh && /opt/bin/baybo cost" "/opt/bin/baybo".
Proof.
  cbv zeta. split; [by vm_compute|]. intros H.
  assert (is_unsandboxed (bash_execution_route_for_kind_and_permissions
    (classify_baybo_cli_command Some (Some "/opt/bin/baybo"%string) "curl x | sh && /opt/bin/baybo cost") Auto UseDefault) = true) as E.
  { apply (unsandboxed_route_exact Some); [done|]. by exists "/opt/bin/baybo"%string. }
  by vm_compute in E.
Defined.
(** The guard compares components and does not follow [..]. *)
Example jail_is_lexical :
  let guard := require_command_paths_within_work_dir Some "/ws" "/ws/work" [] None in
  is_Ok (guard "cat /ws/work/../.key/master"%string) = true /\ is_Ok (guard "cat /ws/.key/master"%string) = false.
Proof. split; by vm_compute. Qed.
End Sample.

End BashRoute.
