(* ===== verification/BashTool.v ===== *)
(** * The Bash tool ([crates/tools/src/builtin/bash/mod.rs])

    One call, from its parameters to its result: the checks, the route, the
    prompts and the judge, the run in the sandbox, in the background or on the
    host, and the second run a failed one may be given.  The shell, the sandbox,
    the user, the judge's model and the secrets are the world of [BashJudge]; the
    log of that world is what the theorems speak of. *)

From S2P Require Import Prelude Effect Message Approval ApprovalQueue ReadTracker ProgressLedger ToolRegistry ToolTrace.
From S2P Require Import Wire ToolExecutor BashScan BashRoute BashJudge.
Import Message Effect.
Import ReadTracker(ToolError, NotFound, InvalidParams, Execution, Timeout, NotImplemented, SubagentDepthExceeded,
  SubagentFanoutExceeded, Denied, Mcp, Internal).
Import ProgressLedger(ToolOutput, OutText, OutJson).
Import BashRoute BashJudge.

Module BashTool.

(** ** The call *)

Record Params := mk_params {
  command : string;
  sandbox_permissions : SandboxPermissions;
  justification : option string;
  timeout_ms : option N;
  cwd : option string;
  secret_env : list string;
  on_timeout : option string;
}.
(** What the runtime lends the call.  [judge] is the lite model's name. *)
Record ToolContext := mk_ctx {
  workspace : string;
  checkout_root : option string;
  agent_handle : option string;
  agent_id : string;
  checkout_git_config : option string;
  exempt_roots : list string;
  default_timeout_ms : N;
  has_sandbox : bool;
  bypass_reason : option string;
  has_secrets : bool;
  judge : option string;
  has_approval : bool;
  has_notifier : bool;
  background_eligible : bool;
  has_background_jobs : bool;
  background_dir : string;
}.
Record Tool := mk_tool {
  workspace_root : string;
  work_dir : string;
  uv_env_prefix : string;
  baybo_bin : option string;
  config_path : string;
}.
Record ChildEnv := mk_env { vars : list (string * string); secret_values : list string }.

(** [Duration]'s debug form, for whole milliseconds. *)
Definition frac_digits (ms : N) : string :=
  Str.trim_end_char "0" (pretty (ms / 100)%N +:+ pretty (ms / 10 mod 10)%N +:+ pretty (ms mod 10)%N)%string.
Definition debug_millis (n : N) : string :=
  let secs := (n / 1000)%N in
  let ms := (n mod 1000)%N in
  (if (0 <? secs)%N then
     if (ms =? 0)%N then pretty secs +:+ "s" else pretty secs +:+ "." +:+ frac_digits ms +:+ "s"
   else if (0 <? ms)%N then pretty ms +:+ "ms" else "0ns")%string.

(** [ToolError]'s text. *)
Definition error_text (e : ToolError) : string :=
  match e with
  | NotFound s => "tool not found: " +:+ s
  | InvalidParams s => "invalid parameters: " +:+ s
  | Execution s => "tool execution error: " +:+ s
  | Timeout s => "tool timeout: " +:+ s
  | NotImplemented s => "tool not implemented: " +:+ s
  | SubagentDepthExceeded d cap => "subagent depth exceeded: parent at depth " +:+ pretty d +:+ ", cap is " +:+ pretty cap
  | SubagentFanoutExceeded n cap =>
      "subagent fan-out exceeded under root session: " +:+ pretty n +:+ " already running, cap is " +:+ pretty cap
  | Denied tool reason => "tool '" +:+ tool +:+ "' permission denied: " +:+ reason
  | Mcp s => "mcp error: " +:+ s
  | Internal s => s
  end%string.

Definition commit_trailer (ctx : ToolContext) : option string :=
  match checkout_root ctx, agent_handle ctx with
  | Some _, Some handle => Some ("Co-authored-by: " +:+ handle +:+ " <" +:+ agent_id ctx +:+ "@baybo.local>")%string
  | _, _ => None
  end.
Definition COMMIT_TRAILER_ENV : string := "BAYBO_COMMIT_TRAILER".
Definition GIT_COMMIT_TRAILER_SHIM_TEMPLATE : string :=
  ("git() {
    __bb_at=0; __bb_i=0; __bb_skip=0
    for __bb_a in " +:+ dq "$@" +:+ "; do
        __bb_i=$((__bb_i + 1))
        if [ " +:+ dq "$__bb_skip" +:+ " = 1 ]; then __bb_skip=0; continue; fi
        case " +:+ dq "$__bb_a" +:+ " in
            -C|-c|--git-dir|--work-tree|--namespace|--exec-path|--super-prefix|--attr-source) __bb_skip=1 ;;
            -*) ;;
            commit) __bb_at=$__bb_i; break ;;
            *) break ;;
        esac
    done
    if [ " +:+ dq "$__bb_at" +:+ " = 0 ] || [ -z " +:+ dq "${{trailer_env}}" +:+ " ]; then command git " +:+ dq "$@" +:+ "; return; fi
    __bb_n=$#; __bb_i=0
    while [ " +:+ dq "$__bb_i" +:+ " -lt " +:+ dq "$__bb_n" +:+ " ]; do
        __bb_i=$((__bb_i + 1)); __bb_v=$1; shift
        set -- " +:+ dq "$@" +:+ " " +:+ dq "$__bb_v" +:+ "
        if [ " +:+ dq "$__bb_i" +:+ " = " +:+ dq "$__bb_at" +:+ " ]; then set -- " +:+ dq "$@" +:+ " --trailer " +:+ dq "${{trailer_env}}" +:+ "; fi
    done
    command git " +:+ dq "$@" +:+ "
}
")%string.
Definition GIT_COMMIT_TRAILER_SHIM : string :=
  Str.replace "{{trailer_env}}" COMMIT_TRAILER_ENV GIT_COMMIT_TRAILER_SHIM_TEMPLATE.

Section Tool.
Context {P : BashScan.Parsers} {W : Type} {O : Outside W} (canonicalize : string -> option string).
Context (tool : Tool).

Abbreviation BM := (BashJudge.BM (W := W)).
Abbreviation emit e := (note (W := W) e).

Definition wrap_command (command : string) (ctx : ToolContext) : string :=
  (uv_env_prefix tool +:+ (match commit_trailer ctx with Some _ => GIT_COMMIT_TRAILER_SHIM | None => "" end)
   +:+ inject_baybo_env_with command (config_path tool))%string.
Definition shell_args (command : string) (ctx : ToolContext) : list string := ["-c"; wrap_command command ctx]%string.

(** ** Prompts *)

Definition approved (o : ApprovalQueue.ApprovalOutcome) : bool :=
  match ApprovalQueue.decision o with Approve | ApproveAlways => true | Deny => false end.
Definition request (cached : bool) (command preview : string) (description : option string)
    : BM ApprovalQueue.ApprovalOutcome :=
  let accesses := [Approval.ExecCommand command] in
  let* outcome := ask (approval_request cached accesses preview description) in
  let* _ := emit (Asked cached accesses preview description outcome) in
  ret outcome.
Definition unsandboxed_warning : string :=
  "This command will run without the OS sandbox and may access host files and credentials normally hidden by it.".
Definition request_explicit_unsandboxed_approval (command : string) (justification : option string) (ctx : ToolContext)
    : BM unit :=
  if negb (has_approval ctx) then
    throw (Execution "sandbox_permissions=require_escalated needs user approval, but no approval channel is available")
  else
    let hint := default "Run this Bash command without the OS sandbox?"%string justification in
    let description := (hint +:+ newline +:+ newline +:+ unsandboxed_warning)%string in
    let preview := (description +:+ newline +:+ newline +:+ "Command:" +:+ newline +:+ command +:+ newline +:+ newline
                    +:+ "Baybo's workspace path rules still apply.")%string in
    let* outcome := request false command preview (Some description) in
    if approved outcome then ret tt
    else throw (Denied "Bash" ("unsandboxed execution was not approved: "
                               +:+ ToolExecutor.refusal_reason (ApprovalQueue.resolution outcome))%string).
Definition request_unsandboxed_retry_approval (command : string) (ctx : ToolContext) (why : string) (failure : string)
    : BM bool :=
  if negb (has_approval ctx) then ret false
  else
    let preview := ("Sandboxed `Bash` command failed." +:+ newline +:+ "Command : " +:+ command +:+ newline +:+ "Failure : "
                    +:+ failure +:+ newline +:+ "Reason  : " +:+ why +:+ newline
                    +:+ "Approve to retry WITHOUT the OS sandbox (full shell, no workspace guard).")%string in
    let* outcome := request false command preview None in
    ret (approved outcome).
Definition pre_exec_gate (command cwd : string) (ctx : ToolContext) (sandboxed : bool) : BM unit :=
  let* decision := match judge ctx with
                   | Some model => judge_pre_exec model command cwd sandboxed
                   | None => ret (PromptFirst judge_unavailable)
                   end in
  match decision with
  | Proceed => ret tt
  | PromptFirst why =>
      if negb (has_approval ctx) then
        throw (Execution ("destructive command requires approval but no approval channel is available (" +:+ why +:+ ")")%string)
      else
        let preview := ("Destructive `Bash` command flagged by the risk judge." +:+ newline +:+ "Command : " +:+ command
                        +:+ newline +:+ "Reason  : " +:+ why +:+ newline +:+ "Approve to run it ("
                        +:+ (if sandboxed then "inside the OS sandbox" else "without the OS sandbox") +:+ ").")%string in
        let* outcome := request true command preview None in
        if approved outcome then ret tt else throw (Execution ("destructive command denied (" +:+ why +:+ ")")%string)
  end.

(** ** Notices *)

Definition notify_sandbox_bypass (ctx : ToolContext) (command : string) : BM unit :=
  match bypass_reason ctx with
  | None => ret tt
  | Some reason =>
      when (has_notifier ctx) (emit (Noticed "Bash is running without the OS sandbox"
                                       (reason +:+ newline +:+ "Command: " +:+ command)%string))
  end.
Definition notify_escape (ctx : ToolContext) (command why : string) : BM unit :=
  when (has_notifier ctx) (emit (Noticed "Ran a command outside the sandbox" (command +:+ newline +:+ "— " +:+ why)%string)).

(** ** Runs *)

(** A run against the cancellation of the turn. *)
Definition blocking (place : DetachedExecutionRoute) (args : list string) (opts : SpawnOpts)
    : BM (result SandboxedOutput ToolError) :=
  let* _ := emit (Ran place args) in
  let* answer := ask (match place with Sandboxed => spawn_command | Unsandboxed => run_unsandboxed end args opts) in
  match answer with
  | None => throw (Execution "cancelled")
  | Some r => ret r
  end.
Definition run_unsandboxed_wrapped (command cwd : string) (env : list (string * string)) (timeout : N) (ctx : ToolContext)
    : BM SandboxedOutput :=
  let* r := blocking Unsandboxed (shell_args command ctx) (mk_opts cwd env timeout) in of_result r.

(** ** Escapes *)

Inductive SandboxEscapeDecision := EscapeKeep | EscapeRun (why : string) | EscapePrompt (why : string).
(** [String::from_utf8_lossy] was taken by the caller. *)
Definition auto_sandbox_escape_decision (command cwd : string) (code : Z) (stdout stderr : string) (env : ChildEnv)
    (ctx : ToolContext) : BM SandboxEscapeDecision :=
  match judge ctx with
  | None => ret (EscapePrompt "risk judge unavailable — approval required for sandbox escape")
  | Some model =>
      let proven := has_sandbox ctx && is_some (sandbox_visibility_note code stderr path_is_visible) in
      let redacted text := match secret_values env with
                           | [] => ret text
                           | values => if has_secrets ctx then let* r := ask (redact text values) in of_result r else ret text
                           end in
      let sanitized text := if has_secrets ctx then let* r := ask (sanitize text) in of_result r else ret text in
      let* out := redacted stdout in
      let* err := redacted stderr in
      let* out := sanitized out in
      let* err := sanitized err in
      let* verdict := judge_post_fail model command cwd code out err proven in
      ret match verdict with
          | Unsandbox why => EscapeRun why
          | Prompt why => EscapePrompt why
          | Keep => EscapeKeep
          end
  end.
Definition handle_sandbox_start_failure (command cwd : string) (env : ChildEnv) (timeout : N) (ctx : ToolContext)
    (sandbox_err : ToolError) (policy : SandboxEscapePolicy) : BM SandboxedOutput :=
  let reason := error_text sandbox_err in
  let* decision := match policy with
                   | AutoJudge => auto_sandbox_escape_decision command cwd (-1) "" reason env ctx
                   | ManualApproval => ret (EscapePrompt reason)
                   | NoEscape => throw (Execution ("sandboxed run failed and sandbox escape is disabled: " +:+ reason)%string)
                   end in
  let escape why := let* _ := notify_escape ctx command why in run_unsandboxed_wrapped command cwd (vars env) timeout ctx in
  match decision with
  | EscapeRun why => escape why
  | EscapePrompt _ | EscapeKeep =>
      let why := match decision with EscapePrompt why => why | _ => reason end in
      let* yes := request_unsandboxed_retry_approval command ctx why reason in
      if yes : bool then escape why
      else throw (Execution ("sandboxed run failed and the unsandboxed retry was not approved: " +:+ reason)%string)
  end.
Definition escalate_if_failed (command cwd : string) (out : SandboxedOutput) (env : ChildEnv) (timeout : N)
    (ctx : ToolContext) (policy : SandboxEscapePolicy) : BM (SandboxedOutput * option string) :=
  if bool_decide (policy = NoEscape) || (exit_code out =? 0)%Z || timed_out out then ret (out, None)
  else
    let failure := ("exit code " +:+ pretty (exit_code out))%string in
    let* decision := match policy with
                     | AutoJudge =>
                         auto_sandbox_escape_decision command cwd (exit_code out) (Str.from_utf8_lossy (stdout out))
                           (Str.from_utf8_lossy (stderr out)) env ctx
                     | ManualApproval => ret (EscapePrompt ("sandboxed command failed with " +:+ failure)%string)
                     | NoEscape => ret EscapeKeep
                     end in
    let escape how why :=
      let* _ := notify_escape ctx command why in
      let* new := run_unsandboxed_wrapped command cwd (vars env) timeout ctx in
      ret (new, Some ("ran outside the OS sandbox after " +:+ how +:+ ": " +:+ why)%string) in
    match decision with
    | EscapeKeep => ret (out, None)
    | EscapeRun why => escape "risk check"%string why
    | EscapePrompt why =>
        let* yes := request_unsandboxed_retry_approval command ctx why failure in
        if yes : bool then escape "user approval"%string why else ret (out, None)
    end.

(** ** Results *)

Definition optional_field (name : string) (v : option string) : list (string * json) :=
  match v with Some s => [(name, JString s)] | None => [] end.
(** The object's keys in their order; [visible] when the output came out of the sandbox. *)
Definition format_command_result (command : string) (out : SandboxedOutput) (env : ChildEnv) (ctx : ToolContext)
    (escalation_note : option string) (visible : bool) : BM ToolOutput :=
  let scrubbed text := match secret_values env with
                       | [] => ret text
                       | values => if has_secrets ctx then let* r := ask (redact text values) in of_result r else ret text
                       end in
  let* o := scrubbed (truncate_utf8 (stdout out) MAX_OUTPUT_BYTES) in
  let* e := scrubbed (truncate_utf8 (stderr out) MAX_OUTPUT_BYTES) in
  let note := if visible then sandbox_visibility_note (exit_code out) e path_is_visible else None in
  ret (OutJson (JObject
    ([("exit_code"%string, JNumber (pretty (exit_code out)))]
     ++ optional_field "return_code_interpretation" (interpret_exit command (exit_code out))
     ++ optional_field "sandbox_escalation" escalation_note
     ++ optional_field "sandbox_visibility" note
     ++ [("stderr"%string, JString e); ("stdout"%string, JString o)]))).

(** ** The background *)

Definition BACKGROUND_DISPATCH_YIELD_GUIDANCE : string :=
  "It runs in the background now. END YOUR TURN unless you have other independent work to do right now — do NOT sleep and do NOT poll JobList to wait for it. The runtime re-invokes you with its result prepended to a fresh turn once it finishes; that result can ONLY arrive after this turn ends, so waiting here cannot surface it and only delays it.".
Definition background_handoff (timeout : N) (handle display_path secret_risk_note : string) : string :=
  ("Command still running after " +:+ debug_millis timeout +:+ "; moved to the background as `" +:+ handle
   +:+ "`. Output is streaming to `" +:+ display_path +:+ "` (Read it for progress). " +:+ BACKGROUND_DISPATCH_YIELD_GUIDANCE
   +:+ secret_risk_note)%string.
Definition secret_risk (env : ChildEnv) : string :=
  match secret_values env with
  | [] => ""
  | _ => " Secret environment variables were injected; background output files and completion tails are stored raw and are not secret-redacted."
  end.
Definition run_detached (route : DetachedExecutionRoute) (command : string) (args : list string) (cwd : string)
    (env : ChildEnv) (timeout : N) (ctx : ToolContext) (policy : SandboxEscapePolicy) : BM (option ToolOutput) :=
  if bool_decide (route = Sandboxed) && negb (has_sandbox ctx) then ret None
  else
    let* _ := emit (Ran route args) in
    let* spawned := ask (spawn_detached route args (mk_opts cwd (vars env) timeout)) in
    if negb spawned then ret None
    else
      let* handle_id := ask new_background_handle in
      let* waited := ask (wait_child timeout) in
      match waited with
      | WaitCancelled => throw (Execution "cancelled")
      | WaitCompleted code =>
          let* files := ask captured in
          let* r := escalate_if_failed command cwd (mk_output code files.1 files.2 false) env timeout ctx policy in
          let* o := format_command_result command r.1 env ctx r.2
                      (bool_decide (route = Sandboxed) && negb (is_some r.2) && has_sandbox ctx) in
          ret (Some o)
      | WaitOverran =>
          let* returned := ask (detach_command handle_id) in
          let* _ := emit (HandedOff handle_id command) in
          ret (Some (OutText (background_handoff timeout returned
                 (background_dir ctx +:+ "/" +:+ handle_id +:+ ".out")%string (secret_risk env))))
      end.

(** ** One call *)

Definition normalized (p : Params) : Params :=
  mk_params (command p) (sandbox_permissions p)
    (justification p ≫= fun j => let j := Str.trim j in if String.eqb j "" then None else Some j)
    (timeout_ms p ≫= fun t => if (0 <? t)%N then Some t else None)
    (cwd p ≫= fun d => if String.eqb d "" then None else Some d)
    (secret_env p) (on_timeout p).
Definition invalid {A} (r : result A string) : result A ToolError :=
  match r with Ok a => Ok a | Err e => Err (InvalidParams e) end.
(** The checks before anything happens. *)
Definition preconditions (p : Params) (ctx : ToolContext) : result BayboCliCommandKind ToolError :=
  let? _ := match cwd p with
            | None => Ok tt
            | Some dir =>
                let? _ := invalid (require_absolute dir "Bash" "cwd") in
                invalid (require_within_work_dir dir (workspace_root tool) (work_dir tool) "cwd")
            end in
  let kind := classify_baybo_cli_command canonicalize (baybo_bin tool) (command p) in
  let leading := if bool_decide (kind = CanonicalSelfInvocation) then baybo_bin tool else None in
  let? _ := invalid (require_command_paths_within_work_dir canonicalize (workspace_root tool) (work_dir tool)
                       (exempt_roots ctx) leading (command p)) in
  Ok kind.
(** [parse_program] could not read the command. *)
Definition note_unparsed (command : string) : BM unit :=
  match BashScan.parse_program command with
  | Some _ => ret tt
  | None => emit (Traced "delete_scan" (ToolTrace.ParseFailure (BashScan.truncate_for_event command)))
  end.
Definition child_env (p : Params) (ctx : ToolContext) : BM ChildEnv :=
  let* secrets := match secret_env p with
                  | [] => ret []
                  | names =>
                      if negb (has_secrets ctx) then
                        throw (Execution "secret_env was requested but no secret store is available in this context")
                      else let* r := ask (resolve_env names) in of_result r
                  end in
  ret (mk_env (secrets
               ++ match commit_trailer ctx with Some t => [(COMMIT_TRAILER_ENV, t)] | None => [] end
               ++ match checkout_git_config ctx with Some c => [("GIT_CONFIG_GLOBAL"%string, c)] | None => [] end)
              (snd <$> secrets)).
Definition convert_on_timeout (p : Params) : bool :=
  negb (is_some_and (fun s => Str.eq_ignore_ascii_case (Str.trim s) "kill") (on_timeout p)).
Definition run_blocking (route : BashExecutionRoute) (bypassed : bool) (command : string) (args : list string)
    (cwd : string) (env : ChildEnv) (timeout : N) (ctx : ToolContext) (policy : SandboxEscapePolicy) : BM SandboxedOutput :=
  let opts := mk_opts cwd (vars env) timeout in
  if is_unsandboxed route || bypassed then let* r := blocking Unsandboxed args opts in of_result r
  else
    let* attempt := blocking Sandboxed args opts in
    match attempt with
    | Ok out => ret out
    | Err e => handle_sandbox_start_failure command cwd env timeout ctx e policy
    end.
Definition bypassed (ctx : ToolContext) (route : BashExecutionRoute) : bool := is_sandboxed route && negb (has_sandbox ctx).
Definition run_dir (p : Params) (ctx : ToolContext) : string := default (default (workspace ctx) (checkout_root ctx)) (cwd p).
Definition try_detached (p : Params) (ctx : ToolContext) (route : BashExecutionRoute) (env : ChildEnv) (timeout : N)
    (policy : SandboxEscapePolicy) : BM (option ToolOutput) :=
  match (if bypassed ctx route then Some Unsandboxed else detached_route route) with
  | Some place =>
      if convert_on_timeout p && background_eligible ctx && has_background_jobs ctx then
        run_detached place (command p) (shell_args (command p) ctx) (run_dir p ctx) env timeout ctx policy
      else ret None
  | None => ret None
  end.
Definition after_gate (p : Params) (ctx : ToolContext) (route : BashExecutionRoute) (env : ChildEnv) : BM ToolOutput :=
  let timeout := default (default_timeout_ms ctx) (timeout_ms p) in
  let policy := if bypassed ctx route then NoEscape else escape_policy route in
  let* _ := when (bypassed ctx route) (notify_sandbox_bypass ctx (command p)) in
  let* early := try_detached p ctx route env timeout policy in
  match early with
  | Some o => ret o
  | None =>
      let* out := run_blocking route (bypassed ctx route) (command p) (shell_args (command p) ctx) (run_dir p ctx) env
                    timeout ctx policy in
      if timed_out out then throw (Timeout ("Bash exceeded " +:+ debug_millis timeout)%string)
      else
        let* r := escalate_if_failed (command p) (run_dir p ctx) out env timeout ctx policy in
        format_command_result (command p) r.1 env ctx r.2
          (is_sandboxed route && negb (bypassed ctx route) && negb (is_some r.2) && has_sandbox ctx)
  end.
(** Everything after the route is chosen. *)
Definition run_route (p : Params) (ctx : ToolContext) (route : BashExecutionRoute) : BM ToolOutput :=
  let* env := child_env p ctx in
  let* _ := when (pre_exec_judge route && BashScan.contains_delete_command (command p))
              (pre_exec_gate (command p) (run_dir p ctx) ctx (is_sandboxed route && negb (bypassed ctx route))) in
  after_gate p ctx route env.
Definition dispatch (p : Params) (ctx : ToolContext) (kind : BayboCliCommandKind) (mode : PermissionMode) : BM ToolOutput :=
  let route := bash_execution_route_for_kind_and_permissions kind mode (sandbox_permissions p) in
  match baybo_cli_rejection_template route with
  | Some template =>
      throw (InvalidParams (Str.replace BAYBO_BIN_PLACEHOLDER (baybo_bin_display (baybo_bin tool)) template))
  | None =>
      let* _ := when (requires_approval (sandbox_permissions p) mode)
                  (request_explicit_unsandboxed_approval (command p) (justification p) ctx) in
      run_route p ctx route
  end.
(** [parsed]: the parameters as [serde_json] read them. *)
Definition execute (parsed : result Params string) (ctx : ToolContext) : BM ToolOutput :=
  let* p := of_result (invalid parsed) in
  let p := normalized p in
  let* kind := of_result (preconditions p ctx) in
  let* _ := note_unparsed (command p) in
  let* mode := gets (fun x => live_permission (world x)) in
  dispatch p ctx kind mode.

(** ** What the executor asks before *)

Definition parameter_names : list string :=
  ["command"; "sandbox_permissions"; "justification"; "timeout_ms"; "cwd"; "secret_env"; "on_timeout"]%string.
(** The parameters the schema offers to a session. *)
Definition offered_parameters (trigger : ToolRegistry.TriggerSource) (mode : PermissionMode) : list string :=
  List.filter (fun n => negb (String.eqb n "on_timeout" && negb (ToolRegistry.can_host_background_jobs trigger))
                        && negb (BashScan.one_of ["sandbox_permissions"; "justification"]%string n
                                 && permission_skips_os_sandbox mode)) parameter_names.
Definition MAX_TIMEOUT_MS : N := 600000.


Definition field (name : string) (v : json) : option json :=
  match v with
  | JObject fields => snd <$> find_first (fun kv => String.eqb kv.1 name) fields
  | _ => None
  end.
Definition sandbox_permissions_from_params (params : json) : SandboxPermissions :=
  match field "sandbox_permissions" params with
  | Some (JString "require_escalated") => RequireEscalated
  | _ => UseDefault
  end.
Definition accessed_resources (params : json) (mode : PermissionMode) : list Approval.ResourceAccess :=
  if bool_decide (sandbox_permissions_from_params params = RequireEscalated) || negb (bool_decide (mode = Manual)) then []
  else match field "command" params with Some (JString s) => [Approval.ExecCommand s] | _ => [] end.
Definition DESTRUCTIVE_LABEL : string :=
  "Destructive command: contains a file-delete operation (rm / rmdir / git clean / git reset --hard / …). The action is irreversible — review the command and the target paths carefully before approving.".
Definition call_label (params : json) : option string :=
  match field "command" params with
  | Some (JString c) => if BashScan.contains_delete_command c then Some DESTRUCTIVE_LABEL else None
  | _ => None
  end.
Definition PROGRESS_LABEL_MAX : nat := 60.
Definition preview_arg (s : string) : option string :=
  let one_line := Wire.joined " " (Str.words s) in
  if String.eqb one_line "" then None
  else Some (if Nat.ltb PROGRESS_LABEL_MAX (Str.char_count one_line)
             then (Str.take_chars PROGRESS_LABEL_MAX one_line +:+ "…")%string else one_line).
Definition progress_label (params : json) : option string :=
  match field "command" params with Some (JString c) => preview_arg c | _ => None end.

(** ** The log

    [logs Q m]: what [m] puts in the log is all of [Q]. *)
Definition logs {A} (Q : Event -> Prop) (m : BM A) : Prop :=
  forall x, exists k, log (m x).1 = log x ++ k /\ Forall Q k.
Lemma logs_bind {A B} Q (m : BM A) (k : A -> BM B) : logs Q m -> (forall a, logs Q (k a)) -> logs Q (bind m k).
Proof using Type.
  intros Hm Hk x. unfold bind. destruct (Hm x) as (l & El & Ql). destruct (m x) as [y [a|e]]; [|eauto].
  destruct (Hk a y) as (l' & El' & Ql'). exists (l ++ l'). cbn in *. rewrite El', El, app_assoc. by rewrite Forall_app.
Qed.
Lemma logs_quiet {A} Q (m : BM A) : (forall x, log (m x).1 = log x) -> logs Q m.
Proof using Type. intros H x. exists []. by rewrite H, app_nil_r. Qed.
Lemma logs_ret {A} Q (a : A) : logs Q (ret a).
Proof using Type. by apply logs_quiet. Qed.
Lemma logs_throw {A} Q e : logs Q (throw e : BM A).
Proof using Type. by apply logs_quiet. Qed.
Lemma logs_gets {A} Q (f : Shell W -> A) : logs Q (gets f : BM A).
Proof using Type. by apply logs_quiet. Qed.
Lemma logs_of_result {A} Q (r : result A ToolError) : logs Q (of_result r : BM A).
Proof using Type. by apply logs_quiet. Qed.
Lemma logs_ask {A} Q (f : W -> W * A) : logs Q (ask f).
Proof using Type. apply logs_quiet. intros x. unfold ask. by destruct (f (world x)). Qed.
Lemma logs_note Q e : Q e -> logs Q (emit e).
Proof using Type. intros H x. exists [e]. split; [done | by constructor]. Qed.
Lemma logs_when Q b (m : BM unit) : logs Q m -> logs Q (when b m).
Proof using Type. intros H. destruct b; [exact H | apply logs_ret]. Qed.
Lemma logs_mono {A} (Q R : Event -> Prop) (m : BM A) : (forall e, Q e -> R e) -> logs Q m -> logs R m.
Proof using Type. intros H Hm x. destruct (Hm x) as (k & E & F). exists k. split; [done | by eapply Forall_impl]. Qed.

(** Peels a program into its notes, whose events it leaves to [tac]. *)
Ltac logs_with tac :=
  repeat first
    [ apply logs_bind; [|intros ?] | apply logs_ret | apply logs_throw | apply logs_gets | apply logs_of_result
    | apply logs_ask | apply logs_when | apply logs_note; tac
    | match goal with
      | |- logs _ (if ?b then _ else _) => destruct b
      | |- logs _ (match ?o with _ => _ end) => destruct o
      end ].

Definition is_run (e : Event) : bool := match e with Ran _ _ => true | _ => false end.
Definition on_host (e : Event) : bool := match e with Ran Unsandboxed _ => true | _ => false end.
(** The runs of the call's own text. *)
Definition own_run (args : list string) (e : Event) : Prop := match e with Ran _ a => a = args | _ => True end.
Abbreviation no_run := (fun e => is_run e = false).

Lemma judge_loop_quiet n model action user messages : logs no_run (judge_loop n model action user messages).
Proof using Type.
  revert messages. induction n as [|n IH]; intros messages; cbn [judge_loop]; logs_with done. apply IH.
Qed.
Lemma run_judge_quiet model action system_text user : logs no_run (run_judge model action system_text user).
Proof using Type. unfold run_judge. apply logs_bind; [apply judge_loop_quiet | intros v]. logs_with done. Qed.
Lemma request_quiet cached command preview description : logs no_run (request cached command preview description).
Proof using Type. unfold request. logs_with done. Qed.
Lemma explicit_quiet command j ctx : logs no_run (request_explicit_unsandboxed_approval command j ctx).
Proof using Type.
  unfold request_explicit_unsandboxed_approval. case_match; [apply logs_throw|].
  apply logs_bind; [apply request_quiet | intros o]. logs_with done.
Qed.
Lemma retry_quiet command ctx why failure : logs no_run (request_unsandboxed_retry_approval command ctx why failure).
Proof using Type.
  unfold request_unsandboxed_retry_approval. case_match; [apply logs_ret|].
  apply logs_bind; [apply request_quiet | intros o]. apply logs_ret.
Qed.
Lemma pre_exec_quiet command cwd ctx sandboxed : logs no_run (pre_exec_gate command cwd ctx sandboxed).
Proof using Type.
  unfold pre_exec_gate, judge_pre_exec. apply logs_bind.
  - destruct (judge ctx); [|apply logs_ret]. apply logs_bind; [apply run_judge_quiet | intros v; apply logs_ret].
  - intros [|why]; [apply logs_ret|]. case_match; [apply logs_throw|].
    apply logs_bind; [apply request_quiet | intros o]. logs_with done.
Qed.
Lemma decision_quiet command cwd code out err env ctx :
  logs no_run (auto_sandbox_escape_decision command cwd code out err env ctx).
Proof using Type.
  unfold auto_sandbox_escape_decision, judge_post_fail. destruct (judge ctx); [|apply logs_ret].
  do 4 (apply logs_bind; [logs_with done | intros ?]). apply logs_bind; [|intros; apply logs_ret].
  apply logs_bind; [apply run_judge_quiet | intros v; apply logs_ret].
Qed.
Lemma format_quiet command out env ctx escalation visible : logs no_run (format_command_result command out env ctx escalation visible).
Proof using Type. unfold format_command_result. logs_with done. Qed.
Lemma escape_notice_quiet ctx command why : logs no_run (notify_escape ctx command why).
Proof using Type. unfold notify_escape. logs_with done. Qed.

(** Every run of a call is of its own command, wrapped. *)
Section OwnRuns.
Context (command : string) (ctx : ToolContext).
Abbreviation own := (own_run (shell_args command ctx)).

Lemma quiet_own {A} (m : BM A) : logs no_run m -> logs own m.
Proof using Type. apply logs_mono. intros []; try done. Qed.
Lemma blocking_own place opts : logs own (blocking place (shell_args command ctx) opts).
Proof using Type. unfold blocking. logs_with done. Qed.
Lemma wrapped_own cwd env timeout : logs own (run_unsandboxed_wrapped command cwd env timeout ctx).
Proof using Type. unfold run_unsandboxed_wrapped. apply logs_bind; [apply blocking_own | intros; apply logs_of_result]. Qed.
Lemma escape_own cwd env timeout why {A} (k : SandboxedOutput -> A) :
  logs own (let* _ := notify_escape ctx command why in
            let* out := run_unsandboxed_wrapped command cwd env timeout ctx in ret (k out)).
Proof using Type.
  apply logs_bind; [apply quiet_own, escape_notice_quiet | intros _]. apply logs_bind; [apply wrapped_own | intros; apply logs_ret].
Qed.
Lemma escalate_own cwd out env timeout policy : logs own (escalate_if_failed command cwd out env timeout ctx policy).
Proof using Type.
  unfold escalate_if_failed. case_match; [apply logs_ret|]. apply logs_bind.
  - destruct policy; [apply logs_ret | apply quiet_own, decision_quiet | apply logs_ret].
  - intros [|why|why]; [apply logs_ret | apply escape_own |].
    apply logs_bind; [apply quiet_own, retry_quiet | intros []; [apply escape_own | apply logs_ret]].
Qed.
Lemma start_failure_own cwd env timeout err policy :
  logs own (handle_sandbox_start_failure command cwd env timeout ctx err policy).
Proof using Type.
  unfold handle_sandbox_start_failure. apply logs_bind.
  - destruct policy; [apply logs_throw | apply quiet_own, decision_quiet | apply logs_ret].
  - assert (forall why, logs own (let* _ := notify_escape ctx command why in
                                  run_unsandboxed_wrapped command cwd (vars env) timeout ctx)) as E.
    { intros why. apply logs_bind; [apply quiet_own, escape_notice_quiet | intros; apply wrapped_own]. }
    intros [|why|why]; [|apply E|]; (apply logs_bind; [apply quiet_own, retry_quiet | intros []; [apply E | apply logs_throw]]).
Qed.
Lemma detached_own place cwd env timeout policy :
  logs own (run_detached place command (shell_args command ctx) cwd env timeout ctx policy).
Proof using Type.
  unfold run_detached. case_match; [apply logs_ret|]. apply logs_bind; [by apply logs_note | intros _].
  apply logs_bind; [apply logs_ask | intros spawned]. case_match; [apply logs_ret|].
  do 2 (apply logs_bind; [apply logs_ask | intros ?]). case_match; [apply logs_throw | | by logs_with done].
  apply logs_bind; [apply logs_ask | intros files]. apply logs_bind; [apply escalate_own | intros r].
  apply logs_bind; [apply quiet_own, format_quiet | intros o; apply logs_ret].
Qed.
Lemma run_blocking_own route bypassed cwd env timeout policy :
  logs own (run_blocking route bypassed command (shell_args command ctx) cwd env timeout ctx policy).
Proof using Type.
  unfold run_blocking. case_match.
  - apply logs_bind; [apply blocking_own | intros; apply logs_of_result].
  - apply logs_bind; [apply blocking_own | intros []; [apply logs_ret | apply start_failure_own]].
Qed.
End OwnRuns.
Lemma child_env_quiet p ctx : logs no_run (child_env p ctx).
Proof using Type. unfold child_env. logs_with done. Qed.
Lemma bypass_notice_quiet ctx command : logs no_run (notify_sandbox_bypass ctx command).
Proof using Type. unfold notify_sandbox_bypass. logs_with done. Qed.
Lemma unparsed_quiet command : logs no_run (note_unparsed command).
Proof using Type. unfold note_unparsed. logs_with done. Qed.
Lemma after_gate_own p ctx route env : logs (own_run (shell_args (command p) ctx)) (after_gate p ctx route env).
Proof using Type.
  unfold after_gate, try_detached. cbv zeta. apply logs_bind; [apply logs_when, quiet_own, bypass_notice_quiet | intros _].
  apply logs_bind.
  - destruct (if bypassed ctx route then _ else _) as [place|]; [|apply logs_ret].
    destruct (_ && _ && _); [apply detached_own | apply logs_ret].
  - intros [o|]; [apply logs_ret|]. apply logs_bind; [apply run_blocking_own | intros out]. case_match; [apply logs_throw|].
    apply logs_bind; [apply escalate_own | intros r; apply quiet_own, format_quiet].
Qed.

(** ** Runs behind a justification

    [bad] events need what [J] says to be in the log before them; once there it
    stays. *)
Section Guards.
Context (bad : Event -> bool) (J : list Event -> Prop).
Context (bad_run : forall e, is_run e = false -> bad e = false) (J_grows : forall l k, J l -> J (l ++ k)).

Definition guarded (x : Shell W) : Prop :=
  forall pre e post, log x = pre ++ e :: post -> bad e = true -> J pre.
Abbreviation safe m := (keeps guarded m).
Definition good (e : Event) : Prop := bad e = false.

Lemma guarded_adds x y k : guarded x -> log y = log x ++ k -> (J (log x) \/ Forall good k) -> guarded y.
Proof using J_grows.
  intros G E H pre e post E' B. rewrite E in E'. apply app_eq_inv in E' as [(l & E1 & E2)|(l & -> & E2)].
  - destruct l as [|e' l]; cbn in E2.
    + rewrite app_nil_r in E1. rewrite <- E1. destruct H as [H|H]; [done|]. rewrite <- E2 in H.
      inversion H; subst. unfold good in *. congruence.
    + injection E2 as <- _. by apply (G pre e l).
  - destruct H as [H|H]; [by apply J_grows|]. rewrite E2 in H. apply Forall_app in H as [_ H].
    inversion H; subst. unfold good in *. congruence.
Qed.
Lemma safe_good {A} (m : BM A) : logs good m -> safe m.
Proof using J_grows. intros H x G. destruct (H x) as (k & E & F). eapply guarded_adds; eauto. Qed.
Lemma safe_quiet {A} (m : BM A) : logs no_run m -> safe m.
Proof using J_grows bad_run. intros H. apply safe_good. eapply logs_mono; [|exact H]. exact bad_run. Qed.
(** Behind a justification anything may run. *)
Lemma safe_after {A} (m : BM A) Q x : logs Q m -> J (log x) -> guarded x -> guarded (m x).1.
Proof using J_grows. intros H Hj G. destruct (H x) as (k & E & F). eapply guarded_adds; eauto. Qed.

(** [learns q m]: [m] is safe, and when its answer satisfies [q] there is a
    justification. *)
Definition learns {A} (q : A -> bool) (m : BM A) : Prop :=
  forall x, guarded x -> guarded (m x).1 /\ (forall a, (m x).2 = Ok a -> q a = true -> J (log (m x).1)).
Lemma learns_ret {A} (q : A -> bool) a : q a = false -> learns q (ret a).
Proof using Type. intros Hq x G. split; [done | intros b [= <-]; by rewrite Hq]. Qed.
Lemma learns_throw {A} (q : A -> bool) e : learns q (throw e).
Proof using Type. by intros x G. Qed.
Lemma learns_bind {A B} (q : B -> bool) (m : BM A) (k : A -> BM B) : safe m -> (forall a, learns q (k a)) -> learns q (bind m k).
Proof using Type.
  intros Hm Hk x G. unfold bind. specialize (Hm x G). destruct (m x) as [y [a|e]]; [by apply Hk | done].
Qed.
Lemma learns_map {A B} (q : A -> bool) (q' : B -> bool) (f : A -> B) (m : BM A) :
  learns q m -> (forall a, q' (f a) = true -> q a = true) -> learns q' (let* a := m in ret (f a)).
Proof using Type.
  intros Hm Hf x G. unfold bind. destruct (Hm x G) as [G' Hj]. destruct (m x) as [y [a|e]]; [|done].
  split; [done|]. intros b [= <-] Hb. apply (Hj a eq_refl), Hf, Hb.
Qed.
Lemma safe_learned {A B} (q : A -> bool) (m : BM A) (k : A -> BM B) :
  learns q m -> (forall a, q a = true -> exists Q, logs Q (k a)) -> (forall a, q a = false -> safe (k a)) -> safe (bind m k).
Proof using J_grows.
  intros Hm Ht Hf x G. unfold bind. destruct (Hm x G) as [G' Hj]. destruct (m x) as [y [a|e]]; [|done].
  destruct (q a) eqn:E; [|by apply Hf]. destruct (Ht a E) as [Q HQ]. eapply safe_after; [apply HQ | by apply (Hj a) | done].
Qed.
Lemma learns_chain {A B} (q : A -> bool) (q' : B -> bool) (m : BM A) (k : A -> BM B) : learns q m ->
  (forall a, q a = true -> exists Q, logs Q (k a)) -> (forall a, q a = false -> learns q' (k a)) -> learns q' (bind m k).
Proof using J_grows.
  intros Hm Ht Hf x G. unfold bind. destruct (Hm x G) as [G' Hj]. destruct (m x) as [y [a|e]]; [|done].
  destruct (q a) eqn:E; [|by apply Hf]. destruct (Ht a E) as [Q HQ]. specialize (Hj a eq_refl E).
  split; [by eapply safe_after|]. intros _ _ _. destruct (HQ y) as (l & -> & _). by apply J_grows.
Qed.
Lemma learns_note {A} (q : A -> bool) e a : good e -> (q a = true -> forall l, J (l ++ [e])) ->
  learns q (let* _ := emit e in ret a).
Proof using J_grows.
  intros He Hq x G. split; [|intros b [= <-] Hb; by apply Hq].
  eapply (guarded_adds x _ [e]); [done | done | right; by constructor].
Qed.
Lemma run_judge_learns q model action system_text user :
  (forall v, q v = true -> forall l, J (l ++ [Judged action v])) -> learns q (run_judge model action system_text user).
Proof using J_grows bad_run.
  intros H. unfold run_judge. apply learns_bind; [apply safe_quiet, judge_loop_quiet | intros v].
  do 2 (apply learns_bind; [apply safe_quiet; by logs_with done | intros ?]).
  apply learns_note; [by apply bad_run | apply H].
Qed.
Lemma request_learns q cached command preview description :
  (forall o, q o = true -> forall l, J (l ++ [Asked cached [Approval.ExecCommand command] preview description o])) ->
  learns q (request cached command preview description).
Proof using J_grows bad_run.
  intros H. unfold request. apply learns_bind; [apply safe_quiet, logs_ask | intros o].
  apply learns_note; [by apply bad_run | apply H].
Qed.
End Guards.

(** ** What puts a command on the host *)

(** A verdict that may do it: the judge itself tied the failure to the sandbox
    and called the command safe. *)
Definition escape_verdict (v : RawVerdict) : bool :=
  sandbox_related v && match parse_risk (risk v) with Safe => true | Risky => false end.
Definition authorizes (command : string) (e : Event) : Prop :=
  match e with
  | Asked false accesses _ _ o => accesses = [Approval.ExecCommand command] /\ approved o = true
  | Judged action (Some v) => action = POST_FAIL_JUDGE_ACTION /\ escape_verdict v = true
  | _ => False
  end.
Definition behind (ok : Event -> Prop) (l : list Event) : Prop := exists a, a ∈ l /\ ok a.
Lemma behind_grows ok l k : behind ok l -> behind ok (l ++ k).
Proof using Type. intros (a & Ha & Hok). exists a. split; [apply elem_of_app; by left | done]. Qed.
Lemma behind_last (ok : Event -> Prop) l e : ok e -> behind ok (l ++ [e]).
Proof using Type. intros H. exists e. split; [apply elem_of_app; right; by left | done]. Qed.
Lemma on_host_run e : is_run e = false -> on_host e = false.
Proof using Type. by destruct e. Qed.

Section Escapes.
Context (command : string) (ctx : ToolContext).
Abbreviation J := (behind (authorizes command)).
Abbreviation safe m := (keeps (guarded on_host J) m).
Abbreviation learns q m := (learns on_host J q m).
Abbreviation own := (own_run (shell_args command ctx)).

Lemma quiet_safe {A} (m : BM A) : logs no_run m -> safe m.
Proof using Type. apply safe_quiet; [exact on_host_run | apply behind_grows]. Qed.
Definition is_escape_run (d : SandboxEscapeDecision) : bool := match d with EscapeRun _ => true | _ => false end.
Lemma decision_learns cwd code out err env :
  learns is_escape_run (auto_sandbox_escape_decision command cwd code out err env ctx).
Proof using Type.
  unfold auto_sandbox_escape_decision, judge_post_fail. destruct (judge ctx); [|by apply learns_ret].
  do 4 (apply learns_bind; [apply quiet_safe; logs_with done | intros ?]).
  apply (learns_map _ _ (fun v => match v with Unsandbox _ => true | _ => false end)); [|by intros []].
  apply (learns_map _ _ (is_some_and escape_verdict)).
  - apply run_judge_learns; [exact on_host_run | apply behind_grows|]. intros [v|] Hv l; [|done]. by apply behind_last.
  - intros [v|]; [|done]. unfold is_some_and, escape_verdict.
    destruct (sandbox_related v); cbn [negb andb]; [by destruct (parse_risk _) | by repeat case_match].
Qed.
Lemma retry_learns why failure : learns (fun b => b) (request_unsandboxed_retry_approval command ctx why failure).
Proof using Type.
  unfold request_unsandboxed_retry_approval. case_match.
  - by apply learns_ret.
  - apply (learns_map _ _ approved); [|done]. apply request_learns; [exact on_host_run | apply behind_grows|].
    intros o Ho l. by apply behind_last.
Qed.
(** An escape that a decision authorizes, or a prompt. *)
Lemma escape_safe {A} (decide : BM SandboxEscapeDecision) (k : SandboxEscapeDecision -> BM A) :
  learns is_escape_run decide -> (forall why, logs own (k (EscapeRun why))) ->
  (forall d, is_escape_run d = false -> safe (k d)) -> safe (bind decide k).
Proof using Type.
  intros Hd Hr Hp. eapply safe_learned; [apply behind_grows | exact Hd | | exact Hp].
  intros [|why|why] E; try done. exists own. apply Hr.
Qed.
Lemma prompt_safe {A} why failure (k : bool -> BM A) : logs own (k true) -> safe (k false) ->
  safe (let* yes := request_unsandboxed_retry_approval command ctx why failure in k yes).
Proof using Type.
  intros Ht Hf. eapply safe_learned; [apply behind_grows | apply retry_learns | |]; intros []; [intros _; by exists own | done..].
Qed.
Lemma escalate_safe cwd out env timeout policy : safe (escalate_if_failed command cwd out env timeout ctx policy).
Proof using Type.
  unfold escalate_if_failed. case_match; [apply quiet_safe, logs_ret|]. apply escape_safe.
  - destruct policy; [by apply learns_ret | apply decision_learns | by apply learns_ret].
  - intros why. apply escape_own.
  - intros [|why|why] E; try done; [apply quiet_safe, logs_ret|].
    apply (prompt_safe why _ (fun yes => if yes then _ else _)); [apply escape_own | apply quiet_safe, logs_ret].
Qed.
Lemma start_failure_safe cwd env timeout err policy :
  safe (handle_sandbox_start_failure command cwd env timeout ctx err policy).
Proof using Type.
  assert (forall why, logs own (let* _ := notify_escape ctx command why in
                                run_unsandboxed_wrapped command cwd (vars env) timeout ctx)) as E.
  { intros why. apply logs_bind; [apply quiet_own, escape_notice_quiet | intros; apply wrapped_own]. }
  unfold handle_sandbox_start_failure. apply escape_safe.
  - destruct policy; [apply learns_throw | apply decision_learns | by apply learns_ret].
  - exact E.
  - intros [|why|why] N; try done;
      (apply (prompt_safe _ _ (fun yes => if yes then _ else _)); [apply E | apply quiet_safe, logs_throw]).
Qed.
Lemma sandboxed_safe args opts : safe (blocking Sandboxed args opts).
Proof using Type. apply safe_good; [apply behind_grows|]. unfold blocking. logs_with done. Qed.
Lemma detached_safe cwd env timeout policy :
  safe (run_detached Sandboxed command (shell_args command ctx) cwd env timeout ctx policy).
Proof using Type.
  unfold run_detached. case_match; [apply quiet_safe, logs_ret|].
  apply keeps_bind; [apply safe_good; [apply behind_grows | by apply logs_note] | intros _].
  apply keeps_bind; [apply quiet_safe, logs_ask | intros spawned]. case_match; [apply quiet_safe, logs_ret|].
  do 2 (apply keeps_bind; [apply quiet_safe, logs_ask | intros ?]).
  case_match; [apply quiet_safe, logs_throw | | apply quiet_safe; logs_with done].
  apply keeps_bind; [apply quiet_safe, logs_ask | intros files]. apply keeps_bind; [apply escalate_safe | intros r].
  apply keeps_bind; [apply quiet_safe, format_quiet | intros o; apply quiet_safe, logs_ret].
Qed.
End Escapes.

(** A sandboxed route leaves the sandbox only by an escape. *)
Lemma after_gate_safe p ctx judged policy env :
  has_sandbox ctx = true ->
  keeps (guarded on_host (behind (authorizes (command p)))) (after_gate p ctx (RunSandboxed judged policy) env).
Proof using Type.
  intros Hs. unfold after_gate, try_detached, run_blocking, bypassed. rewrite Hs. cbn [is_sandboxed negb andb when].
  apply keeps_bind; [apply keeps_ret | intros _]. apply keeps_bind.
  - cbn [detached_route]. case_match; [apply detached_safe | apply keeps_ret].
  - intros [o|]; [apply keeps_ret|]. cbn [is_unsandboxed orb]. apply keeps_bind.
    + apply keeps_bind; [apply sandboxed_safe | intros [out|e]; [apply keeps_ret | apply start_failure_safe]].
    + intros out. case_match; [apply keeps_throw|].
      apply keeps_bind; [apply escalate_safe | intros r; apply quiet_safe, format_quiet].
Qed.
Lemma run_route_own p ctx route : logs (own_run (shell_args (command p) ctx)) (run_route p ctx route).
Proof using Type.
  unfold run_route. apply logs_bind; [apply quiet_own, child_env_quiet | intros env].
  apply logs_bind; [apply logs_when, quiet_own, pre_exec_quiet | intros _]. apply after_gate_own.
Qed.
Lemma dispatch_own p ctx kind mode : logs (own_run (shell_args (command p) ctx)) (dispatch p ctx kind mode).
Proof using Type.
  unfold dispatch. case_match; [apply logs_throw|].
  apply logs_bind; [apply logs_when, quiet_own, explicit_quiet | intros _]. apply run_route_own.
Qed.

(** A prompt whose refusal is an error. *)
Lemma asked_learns bad J cached command preview description (k : ApprovalQueue.ApprovalOutcome -> BM unit) :
  (forall e, is_run e = false -> bad e = false) -> (forall l k, J l -> J (l ++ k)) ->
  (forall o l, approved o = true -> J (l ++ [Asked cached [Approval.ExecCommand command] preview description o])) ->
  (forall o, exists e, k o = if approved o then ret tt else throw e) ->
  learns bad J (fun _ : unit => true) (let* o := request cached command preview description in k o).
Proof using Type.
  intros Hb Hg Hj Hk. apply (learns_chain _ _ Hg approved).
  - apply request_learns; [done..|]. intros o Ho l. by apply Hj.
  - intros o Ho. exists (fun _ => True). destruct (Hk o) as [e ->]. rewrite Ho. apply logs_ret.
  - intros o Ho. destruct (Hk o) as [e ->]. rewrite Ho. apply learns_throw.
Qed.
Lemma explicit_learns bad J command j ctx :
  (forall e, is_run e = false -> bad e = false) -> (forall l k, J l -> J (l ++ k)) ->
  (forall preview d o l, approved o = true -> J (l ++ [Asked false [Approval.ExecCommand command] preview d o])) ->
  learns bad J (fun _ : unit => true) (request_explicit_unsandboxed_approval command j ctx).
Proof using Type.
  intros Hb Hg Hj. unfold request_explicit_unsandboxed_approval. case_match; [apply learns_throw|].
  apply asked_learns; [done | done | intros; by apply Hj|]. intros o.
  destruct (approved o); [by exists (Execution "") | by eexists].
Qed.
Lemma dispatch_safe p ctx kind mode :
  kind <> CanonicalSelfInvocation -> mode <> Free -> has_sandbox ctx = true ->
  keeps (guarded on_host (behind (authorizes (command p)))) (dispatch p ctx kind mode).
Proof using Type.
  intros Hk Hm Hs. unfold dispatch. case_match; [apply keeps_throw|].
  destruct (requires_approval (sandbox_permissions p) mode) eqn:Er; cbn [when].
  - eapply (safe_learned _ _ (behind_grows _) (fun _ => true)); [| |done].
    + apply explicit_learns; [exact on_host_run | apply behind_grows|]. intros. by apply behind_last.
    + intros _ _. exists (own_run (shell_args (command p) ctx)). apply run_route_own.
  - apply keeps_bind; [apply keeps_ret | intros _].
    assert (exists judged policy, bash_execution_route_for_kind_and_permissions kind mode (sandbox_permissions p)
              = RunSandboxed judged policy) as (judged & policy & ->).
    { revert H. unfold bash_execution_route_for_kind_and_permissions. rewrite Er. destruct kind, mode; cbn; intros; try done; eauto. }
    unfold run_route. apply keeps_bind; [apply quiet_safe, child_env_quiet | intros env].
    apply keeps_bind; [apply keeps_when, quiet_safe, pre_exec_quiet | intros _]. by apply after_gate_safe.
Qed.

(** ** From the call to its dispatch *)

Lemma preconditions_kind p ctx kind : preconditions p ctx = Ok kind ->
  kind = classify_baybo_cli_command canonicalize (baybo_bin tool) (command p).
Proof using Type.
  unfold preconditions, result_bind. intros H. repeat (case_match; try done); by injection H as <-.
Qed.
Lemma note_unparsed_world command x : exists l,
  note_unparsed command x = (mk_shell (world x) (log x ++ l), Ok tt) /\ Forall no_run l.
Proof using Type.
  unfold note_unparsed. destruct (BashScan.parse_program command).
  - exists []. rewrite app_nil_r. by destruct x.
  - eexists [_]. split; [done | by repeat constructor].
Qed.
Lemma execute_dispatches parsed ctx w :
  log (execute parsed ctx (mk_shell w [])).1 = [] \/
  exists p kind l, parsed = Ok p /\ preconditions (normalized p) ctx = Ok kind /\ Forall no_run l /\
    execute parsed ctx (mk_shell w []) = dispatch (normalized p) ctx kind (live_permission w) (mk_shell w l).
Proof using Type.
  unfold execute, bind, of_result, gets. destruct parsed as [p|e]; cbn [invalid]; [|by left].
  destruct (preconditions (normalized p) ctx) as [kind|e] eqn:Ek; [|by left].
  right. destruct (note_unparsed_world (command (normalized p)) (mk_shell w [])) as (l & El & Fl).
  exists p, kind, l. split_and!; [done..|]. by rewrite El.
Qed.
Lemma no_run_guarded bad J l : (forall e, is_run e = false -> bad e = false) -> Forall no_run l ->
  forall w : W, guarded bad J (mk_shell w l).
Proof using Type.
  intros Hb F w pre e post E B. cbn in E. subst. apply Forall_app in F as [_ F]. inversion F; subst.
  rewrite Hb in B; done.
Qed.
(** A run of the call and what came before it. *)
Lemma execute_guarded bad J parsed ctx w pre place args post :
  (forall e, is_run e = false -> bad e = false) -> bad (Ran place args) = true ->
  log (execute parsed ctx (mk_shell w [])).1 = pre ++ Ran place args :: post ->
  exists p kind, parsed = Ok p /\ kind = classify_baybo_cli_command canonicalize (baybo_bin tool) (command p) /\
    args = shell_args (command p) ctx /\
    (keeps (guarded bad J) (dispatch (normalized p) ctx kind (live_permission w)) -> J pre).
Proof using Type.
  intros Hb B E. destruct (execute_dispatches parsed ctx w) as [E'|(p & kind & l & -> & Ek & Fl & E')].
  { rewrite E' in E. by destruct pre. }
  exists p, kind. rewrite E' in E. split_and!; [done | by apply preconditions_kind in Ek | |].
  - destruct (dispatch_own (normalized p) ctx kind (live_permission w) (mk_shell w l)) as (k & E1 & F).
    rewrite E in E1. cbn [log] in E1. assert (Forall (own_run (shell_args (command p) ctx)) (l ++ k)) as Fk.
    { apply Forall_app. split; [|exact F]. eapply Forall_impl; [exact Fl|]. by intros []. }
    rewrite <- E1 in Fk. apply Forall_app in Fk as [_ Fk]. by inversion Fk.
  - intros K. eapply (K (mk_shell w l)); [by apply no_run_guarded | exact E | exact B].
Qed.

(** C3: nothing a call runs reaches the host by accident.  What runs outside the
    sandbox is the call's own command, and either the user's mode is free, or the
    line is led by the gateway's own binary, or there is no sandbox to run in, or
    earlier in the call the user approved this very command in a prompt that no
    grant answers, or the judge itself tied the failure to the sandbox and called
    the command safe. *)
Theorem host_runs_authorized parsed ctx w pre args post :
  log (execute parsed ctx (mk_shell w [])).1 = pre ++ Ran Unsandboxed args :: post ->
  exists p, parsed = Ok p /\ args = shell_args (command p) ctx /\
    (live_permission w = Free \/
     (exists b, baybo_bin tool = Some b /\ leads_with_gateway canonicalize (command p) b) \/
     has_sandbox ctx = false \/ behind (authorizes (command p)) pre).
Proof using Type.
  intros E. destruct (execute_guarded on_host (behind (authorizes (match parsed with Ok p => command p | Err _ => "" end)))
    parsed ctx w pre Unsandboxed args post on_host_run eq_refl E) as (p & kind & -> & -> & -> & K).
  exists p. split_and!; [done..|].
  destruct (decide (live_permission w = Free)) as [|Hm]; [by left | right].
  destruct (has_sandbox ctx) eqn:Hs; [|by right; left].
  destruct (decide (classify_baybo_cli_command canonicalize (baybo_bin tool) (command p) = CanonicalSelfInvocation)) as [Hc|Hc].
  - left. unfold classify_baybo_cli_command in Hc. destruct (baybo_bin tool) as [b|]; [|done].
    exists b. split; [done|]. by apply classify_canonical in Hc.
  - right; right. apply K. exact (dispatch_safe (normalized p) ctx _ _ Hc Hm Hs).
Qed.

(** ** The gates before a run *)

(** The user was asked about this very command, and no grant could answer. *)
Definition approved_afresh (command : string) (e : Event) : Prop :=
  match e with Asked false accesses _ _ o => accesses = [Approval.ExecCommand command] /\ approved o = true | _ => False end.
(** The judge called the command safe, or it was approved, possibly by a grant. *)
Definition clears (command : string) (e : Event) : Prop :=
  match e with
  | Judged action (Some v) => action = PRE_EXEC_JUDGE_ACTION /\ parse_risk (risk v) = Safe
  | Asked true accesses _ _ o => accesses = [Approval.ExecCommand command] /\ approved o = true
  | _ => False
  end.

Lemma gate_learns command cwd ctx sandboxed :
  learns is_run (behind (clears command)) (fun _ : unit => true) (pre_exec_gate command cwd ctx sandboxed).
Proof using Type.
  unfold pre_exec_gate. eapply (learns_chain _ _ (behind_grows _) (fun d => match d with Proceed => true | _ => false end)).
  - destruct (judge ctx); [|by apply learns_ret]. unfold judge_pre_exec.
    apply (learns_map _ _ (is_some_and (fun v => match parse_risk (risk v) with Safe => true | Risky => false end))).
    + apply run_judge_learns; [done | apply behind_grows|]. intros [v|] Hv l; [|done]. apply behind_last. split; [done|].
      cbn in Hv. by destruct (parse_risk (risk v)).
    + intros [v|]; [|done]. cbn. by destruct (parse_risk (risk v)).
  - intros [|why] E; [|done]. exists (fun _ => True). apply logs_ret.
  - intros [|why] E; [done|]. case_match; [apply learns_throw|].
    apply asked_learns; [done | apply behind_grows | intros; by apply behind_last|]. intros o.
    destruct (approved o); [by exists (Execution "") | by eexists].
Qed.

(** C4: in auto mode a command that deletes is not run, in the sandbox or out of
    it, unless the judge has called it safe or the user has approved it.  This is
    for the calls that go the usual way: one that asks to leave the sandbox is
    for [escalation_asks], and a line that the gateway's own binary leads, or
    that is refused for naming it elsewhere, is not classified as an ordinary
    command ([gateway_line_unjudged]). *)
Theorem destructive_gated p ctx w pre place args post :
  live_permission w = Auto -> sandbox_permissions p = UseDefault ->
  BashScan.contains_delete_command (command p) = true ->
  classify_baybo_cli_command canonicalize (baybo_bin tool) (command p) = OtherCommand ->
  log (execute (Ok p) ctx (mk_shell w [])).1 = pre ++ Ran place args :: post ->
  behind (clears (command p)) pre.
Proof using Type.
  intros Hm Hu Hd Hc E.
  destruct (execute_guarded is_run (behind (clears (command p))) (Ok p) ctx w pre place args post (fun _ H => H) eq_refl E)
    as (p' & kind & [= <-] & -> & -> & K). apply K. clear K E.
  unfold dispatch. rewrite Hc, Hm. cbn [normalized sandbox_permissions command]. rewrite Hu. cbn.
  apply keeps_bind; [apply keeps_ret | intros _]. unfold run_route. cbn [pre_exec_judge normalized command andb].
  apply keeps_bind; [apply safe_quiet; [done | apply behind_grows | apply child_env_quiet] | intros env].
  rewrite Hd. cbn [when]. eapply (safe_learned _ _ (behind_grows _) (fun _ => true)); [apply gate_learns | | done].
  intros _ _. exists (own_run (shell_args (command p) ctx)). apply (after_gate_own (normalized p)).
Qed.

(** A call that asks to leave the sandbox runs nothing, anywhere, before the
    user has approved this very command in a prompt no grant answers. *)
Theorem escalation_asks p ctx w pre place args post :
  live_permission w <> Free -> sandbox_permissions p = RequireEscalated ->
  log (execute (Ok p) ctx (mk_shell w [])).1 = pre ++ Ran place args :: post ->
  behind (approved_afresh (command p)) pre.
Proof using Type.
  intros Hm Hu E.
  destruct (execute_guarded is_run (behind (approved_afresh (command p))) (Ok p) ctx w pre place args post (fun _ H => H) eq_refl E)
    as (p' & kind & [= <-] & -> & -> & K). apply K. clear K E.
  unfold dispatch. case_match; [apply keeps_throw|]. cbn [normalized sandbox_permissions command justification]. rewrite Hu.
  assert (requires_approval RequireEscalated (live_permission w) = true) as -> by (by destruct (live_permission w)).
  cbn [when]. eapply (safe_learned _ _ (behind_grows _) (fun _ => true)); [| |done].
  - apply explicit_learns; [done | apply behind_grows|]. intros. by apply behind_last.
  - intros _ _. exists (own_run (shell_args (command p) ctx)). apply (run_route_own (normalized p)).
Qed.

End Tool.

(** ** A small host

    The sandbox has no compiler; the judge says safe; the user says yes. *)
Module Sample.
#[local] Existing Instance BashScan.Sample.parsers.
#[export] Instance host : Outside N := {
  live_permission _ := Auto;
  spawn_command _ _ w := (w, Some (Ok (mk_output 2 "" "make: cc: not found" false)));
  run_unsandboxed _ _ w := (w, Some (Ok (mk_output 0 "built" "" false)));
  spawn_detached _ _ _ w := (w, false);
  wait_child _ w := (w, WaitOverran);
  captured w := (w, (""%string, ""%string));
  detach_command h w := (w, h);
  new_background_handle w := ((w + 1)%N, ("job-" +:+ pretty w)%string);
  path_is_visible _ := None;
  approval_request _ _ _ _ w := (w, ApprovalQueue.answered Approve);
  chat _ w := (w, Ok "Verdict: {safe} as I see it"%string);
  elapsed_ms w := (w, 7%N);
  resolve_env names w := (w, Ok ((fun n => (n, n)) <$> names));
  redact s _ w := (w, Ok s);
  sanitize s w := (w, Ok s);
  parse_verdict s := if String.eqb s "{safe}" then Some (mk_verdict true "safe" "builds") else None;
  scan_injection _ := []
}.
Definition tool : Tool := mk_tool "/ws" "/ws/work" "" (Some "/usr/bin/baybo"%string) "/ws/config/baybo.json".
Definition ctx : ToolContext :=
  mk_ctx "/ws/work" None None "agent" None [] 30000 true None false (Some "lite"%string) true true true true "/ws/logs/background".
Definition params (command : string) (s : SandboxPermissions) : Params := mk_params command s None None None [] None.
Definition run (command : string) (s : SandboxPermissions) : Shell N :=
  (execute Some tool (Ok (params command s)) ctx (mk_shell 0%N [])).1.

Definition split_at (k : nat) (l : list Event) : list Event * list Event := (take k l, drop (S k) l).
Lemma host_runs_authorized_witness :
  let l := log (run "make" UseDefault) in
  exists p, Ok (params "make" UseDefault) = Ok (E := string) p /\
    shell_args tool "make" ctx = shell_args tool (command p) ctx /\
    (live_permission 0%N = Free \/
     (exists b, baybo_bin tool = Some b /\ leads_with_gateway Some (command p) b) \/
     has_sandbox ctx = false \/ behind (authorizes (command p)) (take 6 l)).
Proof.
  cbv zeta. apply (host_runs_authorized Some tool (Ok (params "make" UseDefault)) ctx 0%N _ _
    (drop 7 (log (run "make" UseDefault)))). vm_compute. reflexivity.
Defined.
Lemma destructive_gated_witness :
  behind (clears "rm -rf build") (take 3 (log (run "rm -rf build" UseDefault))).
Proof.
  apply (destructive_gated Some tool (params "rm -rf build" UseDefault) ctx 0%N _ Sandboxed
    (shell_args tool "rm -rf build" ctx) (drop 4 (log (run "rm -rf build" UseDefault))));
    vm_compute; reflexivity.
Defined.
Lemma escalation_asks_witness :
  behind (approved_afresh "make install") (take 1 (log (run "make install" RequireEscalated))).
Proof.
  apply (escalation_asks Some tool (params "make install" RequireEscalated) ctx 0%N _ Unsandboxed
    (shell_args tool "make install" ctx) (drop 2 (log (run "make install" RequireEscalated))));
    [done | reflexivity | vm_compute; reflexivity].
Defined.
(** The route decides the whole line: what follows the gateway's binary is run
    with it, outside the sandbox and unjudged. *)
Example gateway_line_unjudged :
  head (log (run "/usr/bin/baybo cost; rm -rf x" UseDefault)) =
  Some (Ran Unsandboxed ["-c"; "export BAYBO_HELP_AGENT=1; export BAYBO_CONFIG_PATH='/ws/config/baybo.json'; /usr/bin/baybo cost; rm -rf x"]).
Proof. vm_compute. reflexivity. Qed.
End Sample.

End BashTool.
