(* ===== verification/CronStore.v ===== *)
(** * Scheduled jobs and their store ([crates/model/src/cron.rs],
      [crates/store/src/cron.rs], [crates/storage/src/sqlite/cron.rs])

    A job and the executions of its fires are rows that keep the whole value
    in a [data] blob and project what queries need into columns.  Each method
    here is one transaction on the two tables; where an async method runs two,
    both are given and the scheduler's file composes them. *)

From S2P Require Import Prelude Lifecycle.
Import Lifecycle.

Module CronStore.

(** ** Data *)

Inductive CronStatus := Enabled | Disabled | Executed.
#[export] Instance CronStatus_eq_dec : EqDecision CronStatus.
Proof. solve_decision. Defined.
Definition as_str (s : CronStatus) : string :=
  match s with Enabled => "enabled" | Disabled => "disabled" | Executed => "executed" end.

(** A [DateTime<Utc>] is its nanoseconds since the epoch. *)
Abbreviation Time := Z.
Definition MICROSECOND : Z := 1000.
(** [DateTime::timestamp_micros] *)
Definition to_us (t : Time) : Z := (t / MICROSECOND)%Z.

Inductive CronSchedule := Cron (expr : string) | At (time : Time).
Definition schedule_is_one_shot (s : CronSchedule) : bool :=
  match s with At _ => true | Cron _ => false end.

Record CronJob := mk_job {
  id : string;
  user_id : string;
  channel : string;
  title : string;
  schedule : CronSchedule;
  prompt : string;
  timezone : string;
  status : CronStatus;
  last_triggered_at : option Time;
  next_trigger_at : option Time;
  created_at : Time;
  updated_at : Time;
  project_id : option string;
  origin_session_id : option string;
  deleted_at : option Time;
  pinned : bool;
  builtin : bool;
}.
(** The groups of fields that change together. *)
Definition with_config (ti p : string) (s : CronSchedule) (z : string) (j : CronJob) : CronJob :=
  mk_job (id j) (user_id j) (channel j) ti s p z (status j) (last_triggered_at j) (next_trigger_at j)
    (created_at j) (updated_at j) (project_id j) (origin_session_id j) (deleted_at j) (pinned j) (builtin j).
Definition with_timing (st : CronStatus) (last next : option Time) (updated : Time) (j : CronJob) : CronJob :=
  mk_job (id j) (user_id j) (channel j) (title j) (schedule j) (prompt j) (timezone j) st last next
    (created_at j) updated (project_id j) (origin_session_id j) (deleted_at j) (pinned j) (builtin j).
Definition with_columns (deleted : option Time) (pin built : bool) (j : CronJob) : CronJob :=
  mk_job (id j) (user_id j) (channel j) (title j) (schedule j) (prompt j) (timezone j) (status j)
    (last_triggered_at j) (next_trigger_at j) (created_at j) (updated_at j) (project_id j)
    (origin_session_id j) deleted pin built.

Definition is_deleted (j : CronJob) : bool := is_some (deleted_at j).
Definition is_one_shot (j : CronJob) : bool := schedule_is_one_shot (schedule j).

Definition LEGACY_TITLE_MAX_CHARS : nat := 40.
Definition ELLIPSIS : string := Str.bytes [0xE2; 0x80; 0xA6]%N.
Definition display_title (title prompt : string) : string :=
  let title := Str.trim title in
  if negb (String.eqb title "") then title
  else
    let prompt := Str.trim prompt in
    let truncated := Str.take_chars LEGACY_TITLE_MAX_CHARS prompt in
    if Nat.ltb LEGACY_TITLE_MAX_CHARS (Str.char_count prompt) then (truncated +:+ ELLIPSIS)%string
    else truncated.

Record CronJobPatch := mk_patch {
  new_title : option string;
  new_prompt : option string;
  new_schedule : option CronSchedule;
  new_timezone : option string;
}.
Definition is_empty (p : CronJobPatch) : bool :=
  negb (is_some (new_title p)) && negb (is_some (new_prompt p))
  && negb (is_some (new_schedule p)) && negb (is_some (new_timezone p)).
Definition reschedules (p : CronJobPatch) : bool := is_some (new_schedule p) || is_some (new_timezone p).
Definition apply_to (p : CronJobPatch) (j : CronJob) : CronJob :=
  with_config (default (title j) (new_title p)) (default (prompt j) (new_prompt p))
    (default (schedule j) (new_schedule p)) (default (timezone j) (new_timezone p)) j.

(** The jobs the runtime owns. *)
Inductive BuiltinCronJob := Dream.
Definition builtin_id (b : BuiltinCronJob) : string := match b with Dream => "baybo-dream" end.

(** ** Executions *)

Inductive ExecutionStatus := Pending | Dispatched.
#[export] Instance ExecutionStatus_eq_dec : EqDecision ExecutionStatus.
Proof. solve_decision. Defined.
Definition execution_status_str (s : ExecutionStatus) : string :=
  match s with Pending => "pending" | Dispatched => "dispatched" end.
Inductive ExecutionOutcome := Success | Blank | Failed.

Record CronExecution := mk_execution {
  exec_id : string;
  exec_job_id : string;
  exec_user_id : string;
  exec_channel : string;
  exec_title : string;
  exec_timezone : string;
  exec_schedule : CronSchedule;
  exec_prompt : string;
  scheduled_fire_time : Time;
  triggered_at : Time;
  exec_status : ExecutionStatus;
  exec_origin_session_id : option string;
  exec_project_id : option string;
  fire_session_id : option string;
  completed_at : option Time;
  outcome : option ExecutionOutcome;
  reply_ordinal : option Z;
  notified_at : option Time;
  previous_fire_at : option Time;
}.
(** [CronExecution::pending], its id drawn by the caller. *)
Definition pending (uuid : string) (j : CronJob) (slot triggered : Time) : CronExecution :=
  mk_execution uuid (id j) (user_id j) (channel j) (title j) (timezone j) (schedule j) (prompt j)
    slot triggered Pending (origin_session_id j) (project_id j) None None None None None
    (last_triggered_at j).
Definition with_exec_status (s : ExecutionStatus) (e : CronExecution) : CronExecution :=
  mk_execution (exec_id e) (exec_job_id e) (exec_user_id e) (exec_channel e) (exec_title e)
    (exec_timezone e) (exec_schedule e) (exec_prompt e) (scheduled_fire_time e) (triggered_at e) s
    (exec_origin_session_id e) (exec_project_id e) (fire_session_id e) (completed_at e) (outcome e)
    (reply_ordinal e) (notified_at e) (previous_fire_at e).
Definition with_ledger (session : option string) (done : option Time) (o : option ExecutionOutcome)
    (reply : option Z) (told : option Time) (e : CronExecution) : CronExecution :=
  mk_execution (exec_id e) (exec_job_id e) (exec_user_id e) (exec_channel e) (exec_title e)
    (exec_timezone e) (exec_schedule e) (exec_prompt e) (scheduled_fire_time e) (triggered_at e)
    (exec_status e) (exec_origin_session_id e) (exec_project_id e) session done o reply told
    (previous_fire_at e).
Definition exec_is_one_shot (e : CronExecution) : bool := schedule_is_one_shot (exec_schedule e).
Definition exec_display_title (e : CronExecution) : string := display_title (exec_title e) (exec_prompt e).
Definition awaits_delivery (e : CronExecution) : bool :=
  is_some (completed_at e) && negb (is_some (notified_at e)).

(** What a fire writes onto its job, and its end onto its execution. *)
Record CronFire := mk_fire {
  fire_status : CronStatus;
  fire_next_trigger_at : option Time;
  fire_last_triggered_at : Time;
  fire_updated_at : Time;
}.
Record ExecutionCompletion := mk_completion {
  completion_session_id : string;
  completion_outcome : ExecutionOutcome;
  completion_reply_ordinal : option Z;
  completion_at : Time;
}.

(** ** The tables

    A blob is the value its JSON reads back to: [serde] skips [pinned] and
    [builtin], and [serialize_job] clears [deleted_at] first. *)
Record JobRow := mk_row {
  col_user_id : string;
  col_status : string;
  col_next_trigger_at : Z;
  col_deleted_at : option Z;
  col_pinned : Z;
  col_builtin : Z;
  col_data : CronJob;
}.
Record ExecutionRow := mk_exec_row {
  col_exec_id : string;
  col_job_id : string;
  col_exec_user_id : string;
  col_slot : Z;
  col_triggered_at : Z;
  col_exec_status : string;
  col_completed_at : option Z;
  col_notified_at : option Z;
  col_exec_data : CronExecution;
}.
Record Db := mk_db {
  cron_jobs : gmap string JobRow;
  cron_executions : list ExecutionRow;
}.
Definition set_jobs (m : gmap string JobRow) (d : Db) : Db := mk_db m (cron_executions d).
Definition set_executions (l : list ExecutionRow) (d : Db) : Db := mk_db (cron_jobs d) l.

(** chrono and SQLite: a microsecond count back to an instant, the order an
    unordered query visits rows in, and the error of a broken constraint. *)
Class Sqlite := {
  from_us : Z -> option Time;
  scan : list JobRow -> list JobRow;
  constraint_failed : StorageError;
}.

Section Store.
Context {Q : Sqlite}.

Abbreviation Transaction A := (Db -> Db * result A StorageError).

Definition serialize_job (j : CronJob) : CronJob := with_columns None false false j.
Definition job_from_row (deleted_us : option Z) (pinned_col builtin_col : Z) (data : CronJob)
    : result CronJob StorageError :=
  match deleted_us with
  | Some us =>
      match from_us us with
      | Some t => Ok (with_columns (Some t) (negb (pinned_col =? 0)%Z) (negb (builtin_col =? 0)%Z) data)
      | None =>
          Err (StorageText ("cron job " +:+ id data +:+ " has an out-of-range deleted_at: " +:+ pretty us)%string)
      end
  | None => Ok (with_columns None (negb (pinned_col =? 0)%Z) (negb (builtin_col =? 0)%Z) data)
  end.
Definition execution_from_row (status_col : string) (data : CronExecution) : CronExecution :=
  with_exec_status (if String.eqb status_col "dispatched" then Dispatched else Pending) data.
Definition decode_row (r : JobRow) : result CronJob StorageError :=
  job_from_row (col_deleted_at r) (col_pinned r) (col_builtin r) (col_data r).
Fixpoint decode_jobs (l : list JobRow) : result (list CronJob) StorageError :=
  match l with
  | [] => Ok []
  | r :: l => let? j := decode_row r in let? js := decode_jobs l in Ok (j :: js)
  end.
Definition decode_executions (l : list ExecutionRow) : list CronExecution :=
  map (fun r => execution_from_row (col_exec_status r) (col_exec_data r)) l.

(** [Option::map(to_us).unwrap_or(0)]: the column's zero is no slot. *)
Definition next_us (j : CronJob) : Z := default 0%Z (to_us <$> next_trigger_at j).
Definition flag (b : bool) : Z := if b then 1%Z else 0%Z.

(** [UNMOVED] against the projection of a snapshot. *)
Definition unmoved (expected : CronJob) (r : JobRow) : bool :=
  String.eqb (col_status r) (as_str (status expected))
  && (col_next_trigger_at r =? next_us expected)%Z && negb (is_some (col_deleted_at r)).

(** *** Jobs *)

Definition create (j : CronJob) : Transaction unit := fun d =>
  match cron_jobs d !! id j with
  | Some _ => (d, Err constraint_failed)
  | None =>
      (set_jobs (<[id j := mk_row (user_id j) (as_str (status j)) (next_us j) (to_us <$> deleted_at j)
                             (flag (pinned j)) (flag (builtin j)) (serialize_job j)]> (cron_jobs d)) d, Ok tt)
  end.

Definition get (job_id : string) : Transaction (option CronJob) := fun d =>
  (d, match cron_jobs d !! job_id with
      | Some r => let? j := decode_row r in Ok (Some j)
      | None => Ok None
      end).

(** [UPDATE cron_jobs SET user_id, status, next_trigger_at, data]. *)
Definition rewritten (j : CronJob) (r : JobRow) : JobRow :=
  mk_row (user_id j) (as_str (status j)) (next_us j) (col_deleted_at r) (col_pinned r) (col_builtin r)
    (serialize_job j).

Definition save (j : CronJob) : Transaction unit := fun d =>
  match cron_jobs d !! id j with
  | None => (d, Err (StorageNotFound (id j)))
  | Some r => (set_jobs (<[id j := rewritten j r]> (cron_jobs d)) d, Ok tt)
  end.

Definition set_pinned (job_id : string) (pin : bool) : Transaction bool := fun d =>
  match cron_jobs d !! job_id with
  | None => (d, Ok false)
  | Some r =>
      (set_jobs (<[job_id := mk_row (col_user_id r) (col_status r) (col_next_trigger_at r)
                               (col_deleted_at r) (flag pin) (col_builtin r) (col_data r)]> (cron_jobs d)) d,
       Ok true)
  end.

Definition save_if_unchanged (j expected : CronJob) : Transaction bool := fun d =>
  match cron_jobs d !! id j with
  | None => (d, Ok false)
  | Some r =>
      if negb (unmoved expected r) then (d, Ok false)
      else
        match job_from_row None 0 0 (col_data r) with
        | Err e => (d, Err e)
        | Ok stored =>
            if negb (updated_at stored =? updated_at expected)%Z then (d, Ok false)
            else (set_jobs (<[id j := rewritten j r]> (cron_jobs d)) d, Ok true)
        end
  end.

Definition stamped (f : CronFire) (j : CronJob) : CronJob :=
  with_timing (fire_status f) (Some (fire_last_triggered_at f)) (fire_next_trigger_at f) (fire_updated_at f) j.

Definition record_fire (expected : CronJob) (f : CronFire) : Transaction bool := fun d =>
  match cron_jobs d !! id expected with
  | None => (d, Ok false)
  | Some r =>
      if negb (unmoved expected r) then (d, Ok false)
      else
        match job_from_row None 0 0 (col_data r) with
        | Err e => (d, Err e)
        | Ok stored =>
            let j := stamped f stored in
            (set_jobs (<[id expected := mk_row (col_user_id r) (as_str (status j)) (next_us j)
                                          (col_deleted_at r) (col_pinned r) (col_builtin r)
                                          (serialize_job j)]> (cron_jobs d)) d, Ok true)
        end
  end.

Definition write_deleted_at (job_id : string) (deleted : option Time) : Transaction unit := fun d =>
  match cron_jobs d !! job_id with
  | None => (d, Err (StorageNotFound job_id))
  | Some r =>
      (set_jobs (<[job_id := mk_row (col_user_id r) (col_status r) (col_next_trigger_at r)
                               (to_us <$> deleted) (col_pinned r) (col_builtin r) (col_data r)]> (cron_jobs d)) d,
       Ok tt)
  end.

Definition select (p : JobRow -> bool) (d : Db) : list JobRow :=
  List.filter p (scan (map snd (map_to_list (cron_jobs d)))).
Definition live_only (r : JobRow) : bool := negb (is_some (col_deleted_at r)).
Definition list_by_user (user : string) : Transaction (list CronJob) := fun d =>
  (d, decode_jobs (select (fun r => String.eqb (col_user_id r) user && live_only r) d)).
Definition list_all : Transaction (list CronJob) := fun d => (d, decode_jobs (select live_only d)).
Definition list_enabled : Transaction (list CronJob) := fun d =>
  (d, decode_jobs (select (fun r => String.eqb (col_status r) "enabled" && live_only r) d)).
Definition later_deleted (a b : JobRow) : Prop :=
  (default 0 (col_deleted_at b) <= default 0 (col_deleted_at a))%Z.
#[global] Instance later_deleted_dec : RelDecision later_deleted.
Proof. intros a b. unfold later_deleted. apply _. Defined.
Definition list_deleted : Transaction (list CronJob) := fun d =>
  (d, decode_jobs (merge_sort later_deleted (select (fun r => negb (live_only r)) d))).
Definition is_due (now_us : Z) (r : JobRow) : bool :=
  live_only r && String.eqb (col_status r) "enabled"
  && negb (col_next_trigger_at r =? 0)%Z && (col_next_trigger_at r <=? now_us)%Z.
Definition list_due (now_us : Z) : Transaction (list CronJob) := fun d =>
  (d, decode_jobs (select (is_due now_us) d)).

(** *** Executions *)

Definition same_slot (job_id : string) (slot_us : Z) (r : ExecutionRow) : bool :=
  String.eqb (col_job_id r) job_id && (col_slot r =? slot_us)%Z.
Definition exec_row (e : CronExecution) : ExecutionRow :=
  mk_exec_row (exec_id e) (exec_job_id e) (exec_user_id e) (to_us (scheduled_fire_time e))
    (to_us (triggered_at e)) (execution_status_str (exec_status e)) None None e.
(** [INSERT OR IGNORE] under the primary key and the index over job and slot. *)
Definition insert_or_ignore (r : ExecutionRow) (l : list ExecutionRow) : option (list ExecutionRow) :=
  if existsb (fun x => String.eqb (col_exec_id x) (col_exec_id r) || same_slot (col_job_id r) (col_slot r) x) l
  then None else Some (l ++ [r]).

Definition record_execution_if_job_unchanged (e : CronExecution) (expected : CronJob) : Transaction bool := fun d =>
  match cron_jobs d !! exec_job_id e with
  | None => (d, Ok false)
  | Some r =>
      if negb (unmoved expected r) then (d, Ok false)
      else
        match job_from_row None 0 0 (col_data r) with
        | Err err => (d, Err err)
        | Ok stored =>
            if negb (updated_at stored =? updated_at expected)%Z then (d, Ok false)
            else
              match insert_or_ignore (exec_row e) (cron_executions d) with
              | Some l => (set_executions l d, Ok true)
              | None =>
                  (d, Err (Conflict (exec_job_id e +:+ "@" +:+ pretty (to_us (scheduled_fire_time e)))%string))
              end
        end
  end.

Definition has_execution_for_schedule (job_id : string) (slot_us : Z) : Transaction bool := fun d =>
  (d, Ok (existsb (same_slot job_id slot_us) (cron_executions d))).

(** An [UPDATE … WHERE id = …], and how many rows it changed. *)
Definition update_execution (execution_id : string) (f : ExecutionRow -> ExecutionRow) (l : list ExecutionRow)
    : list ExecutionRow :=
  map (fun r => if String.eqb (col_exec_id r) execution_id then f r else r) l.
Definition has_execution_id (execution_id : string) (l : list ExecutionRow) : bool :=
  existsb (fun r => String.eqb (col_exec_id r) execution_id) l.
Definition with_col_status (s : string) (r : ExecutionRow) : ExecutionRow :=
  mk_exec_row (col_exec_id r) (col_job_id r) (col_exec_user_id r) (col_slot r) (col_triggered_at r) s
    (col_completed_at r) (col_notified_at r) (col_exec_data r).

Definition update_execution_status (execution_id : string) (s : ExecutionStatus) : Transaction unit := fun d =>
  (set_executions (update_execution execution_id (with_col_status (execution_status_str s)) (cron_executions d)) d,
   if has_execution_id execution_id (cron_executions d) then Ok tt else Err (StorageNotFound execution_id)).

Definition later_triggered (a b : ExecutionRow) : Prop := (col_triggered_at b <= col_triggered_at a)%Z.
#[global] Instance later_triggered_dec : RelDecision later_triggered.
Proof. intros a b. unfold later_triggered. apply _. Defined.
Definition earlier_completed (a b : ExecutionRow) : Prop :=
  (default 0 (col_completed_at a) <= default 0 (col_completed_at b))%Z.
#[global] Instance earlier_completed_dec : RelDecision earlier_completed.
Proof. intros a b. unfold earlier_completed. apply _. Defined.

Definition list_executions_by_job (job_id : string) : Transaction (list CronExecution) := fun d =>
  (d, Ok (decode_executions (merge_sort later_triggered
            (List.filter (fun r => String.eqb (col_job_id r) job_id) (cron_executions d))))).
Definition list_executions_by_user (user : string) : Transaction (list CronExecution) := fun d =>
  (d, Ok (decode_executions (merge_sort later_triggered
            (List.filter (fun r => String.eqb (col_exec_user_id r) user) (cron_executions d))))).
Definition list_executions_by_status (s : ExecutionStatus) : Transaction (list CronExecution) := fun d =>
  (d, Ok (decode_executions
            (List.filter (fun r => String.eqb (col_exec_status r) (execution_status_str s)) (cron_executions d)))).
Definition load_execution (execution_id : string) : Transaction CronExecution := fun d =>
  (d, match find_first (fun r => String.eqb (col_exec_id r) execution_id) (cron_executions d) with
      | Some r => Ok (execution_from_row (col_exec_status r) (col_exec_data r))
      | None => Err (StorageNotFound execution_id)
      end).
(** The two writes of the delivery ledger, from the value loaded before. *)
Definition completed (c : ExecutionCompletion) (e : CronExecution) : CronExecution :=
  with_ledger (Some (completion_session_id c)) (Some (completion_at c)) (Some (completion_outcome c))
    (completion_reply_ordinal c) (notified_at e) e.
Definition write_completion (execution_id : string) (at_us : Z) (data : CronExecution) : Transaction unit := fun d =>
  (set_executions (update_execution execution_id (fun r =>
     mk_exec_row (col_exec_id r) (col_job_id r) (col_exec_user_id r) (col_slot r) (col_triggered_at r)
       (col_exec_status r) (Some at_us) (col_notified_at r) data) (cron_executions d)) d, Ok tt).
Definition notified (at_ : Time) (e : CronExecution) : CronExecution :=
  with_ledger (fire_session_id e) (completed_at e) (outcome e) (reply_ordinal e) (Some at_) e.
Definition write_notified (execution_id : string) (at_us : Z) (data : CronExecution) : Transaction unit := fun d =>
  (set_executions (update_execution execution_id (fun r =>
     mk_exec_row (col_exec_id r) (col_job_id r) (col_exec_user_id r) (col_slot r) (col_triggered_at r)
       (col_exec_status r) (col_completed_at r) (Some at_us) data) (cron_executions d)) d, Ok tt).
Definition list_executions_awaiting_delivery : Transaction (list CronExecution) := fun d =>
  (d, Ok (decode_executions (merge_sort earlier_completed
            (List.filter (fun r => is_some (col_completed_at r) && negb (is_some (col_notified_at r)))
               (cron_executions d))))).

(** ** Every write

    Several tasks write the tables: schedulers, the interface, delivery.  What
    holds under each of their transactions, in any order and with any
    arguments, holds always. *)
Inductive Tx :=
| TxCreate (j : CronJob)
| TxSave (j : CronJob)
| TxSaveIf (j expected : CronJob)
| TxFire (expected : CronJob) (f : CronFire)
| TxPin (job_id : string) (pin : bool)
| TxDeleted (job_id : string) (deleted : option Time)
| TxRecord (e : CronExecution) (expected : CronJob)
| TxStatus (execution_id : string) (s : ExecutionStatus)
| TxCompletion (execution_id : string) (at_us : Z) (data : CronExecution)
| TxNotified (execution_id : string) (at_us : Z) (data : CronExecution).

Definition run_tx (t : Tx) (d : Db) : Db :=
  match t with
  | TxCreate j => (create j d).1
  | TxSave j => (save j d).1
  | TxSaveIf j e => (save_if_unchanged j e d).1
  | TxFire e f => (record_fire e f d).1
  | TxPin i b => (set_pinned i b d).1
  | TxDeleted i t => (write_deleted_at i t d).1
  | TxRecord x e => (record_execution_if_job_unchanged x e d).1
  | TxStatus i s => (update_execution_status i s d).1
  | TxCompletion i us x => (write_completion i us x d).1
  | TxNotified i us x => (write_notified i us x d).1
  end.
Definition run_txs (ts : list Tx) (d : Db) : Db := foldl (fun d t => run_tx t d) d ts.
Definition empty_db : Db := mk_db ∅ [].

(** The columns of a row say what its blob says, and the blob leaves the flat
    columns alone. *)
Definition row_ok (k : string) (r : JobRow) : Prop :=
  id (col_data r) = k /\ col_user_id r = user_id (col_data r)
  /\ col_status r = as_str (status (col_data r)) /\ col_next_trigger_at r = next_us (col_data r)
  /\ deleted_at (col_data r) = None /\ pinned (col_data r) = false /\ builtin (col_data r) = false.
Definition jobs_ok (d : Db) : Prop := map_Forall row_ok (cron_jobs d).
Definition slot_key (r : ExecutionRow) : string * Z := (col_job_id r, col_slot r).
Definition slots (d : Db) : list (string * Z) := map slot_key (cron_executions d).
Definition execution_ids (d : Db) : list string := map col_exec_id (cron_executions d).
Definition executions_ok (d : Db) : Prop := NoDup (execution_ids d) /\ NoDup (slots d).

(** *** What one transaction does to one row *)

(** The row a transaction leaves under [k], from the one it finds. *)
Definition tx_row (k : string) (t : Tx) (d : Db) : option JobRow := cron_jobs (run_tx t d) !! k.

Lemma job_from_blob (j : CronJob) : job_from_row None 0 0 j = Ok (serialize_job j).
Proof. done. Qed.

Lemma rewritten_ok j r : row_ok (id j) (rewritten j r).
Proof. by destruct j. Qed.

(** Each write of the job table: nothing, or one row under its own key. *)
Lemma tx_jobs t d :
  cron_jobs (run_tx t d) = cron_jobs d \/
  exists k r, cron_jobs (run_tx t d) = <[k := r]> (cron_jobs d) /\
    (jobs_ok d -> row_ok k r).
Proof.
  destruct t as [j|j|j e|e f|i b|i t|x e|i s|i us x|i us x]; cbn; [..|by left|by left|by left].
  - unfold create. destruct (_ !! _); [by left | right]. do 2 eexists. split; [done | by destruct j].
  - unfold save. destruct (_ !! _) as [r|]; [right | by left]. do 2 eexists. split; [done|].
    intros _. apply rewritten_ok.
  - unfold save_if_unchanged. destruct (_ !! _) as [r|]; [|by left]. destruct (negb _); [by left|].
    rewrite job_from_blob. destruct (negb _); [by left | right]. do 2 eexists. split; [done|].
    intros _. apply rewritten_ok.
  - unfold record_fire. destruct (_ !! _) as [r|] eqn:E; [|by left]. destruct (negb _); [by left|].
    rewrite job_from_blob. right. do 2 eexists. split; [done|].
    intros H. destruct (H _ _ E) as (? & ? & ? & ? & ?). by destruct (col_data r).
  - unfold set_pinned. destruct (_ !! _) as [r|] eqn:E; [right | by left]. do 2 eexists. split; [done|].
    intros H. by destruct (H _ _ E) as (? & ? & ? & ? & ?).
  - unfold write_deleted_at. destruct (_ !! _) as [r|] eqn:E; [right | by left]. do 2 eexists. split; [done|].
    intros H. by destruct (H _ _ E) as (? & ? & ? & ? & ?).
  - unfold record_execution_if_job_unchanged. destruct (_ !! _) as [r|]; [|by left].
    destruct (negb _); [by left|]. rewrite job_from_blob. destruct (negb _); [by left|].
    by destruct (insert_or_ignore _ _); left.
Qed.

Lemma tx_jobs_ok t d : jobs_ok d -> jobs_ok (run_tx t d).
Proof.
  intros H. destruct (tx_jobs t d) as [E | (k & r & E & Hr)]; unfold jobs_ok; rewrite E; [done|].
  apply map_Forall_insert_2; [by apply Hr | done].
Qed.

(** Each write of the execution table: keys in place, or one fresh row at the
    end. *)
Lemma update_execution_keys {A} (g : ExecutionRow -> A) i f l :
  (forall r, g (f r) = g r) -> map g (update_execution i f l) = map g l.
Proof.
  intros H. unfold update_execution. rewrite map_map. apply map_ext. intros r.
  destruct (String.eqb _ _); [apply H | done].
Qed.
Lemma insert_or_ignore_fresh r l l' :
  insert_or_ignore r l = Some l' ->
  l' = l ++ [r] /\ (col_exec_id r ∉ map col_exec_id l) /\ (slot_key r ∉ map slot_key l).
Proof.
  unfold insert_or_ignore. destruct (existsb _ l) eqn:E; [done | intros [= <-]].
  split; [done|]. rewrite <- not_true_iff_false, existsb_exists in E.
  split; intros (x & Hx & Hin)%list_elem_of_fmap; apply E; exists x;
    (split; [by apply list_elem_of_In|]); apply orb_true_iff; [left | right].
  - rewrite <- Hx. apply String.eqb_refl.
  - unfold same_slot. injection Hx as -> ->. by rewrite String.eqb_refl, Z.eqb_refl.
Qed.
Lemma tx_executions t d :
  (execution_ids (run_tx t d) = execution_ids d /\ slots (run_tx t d) = slots d) \/
  exists r, execution_ids (run_tx t d) = execution_ids d ++ [col_exec_id r] /\
    slots (run_tx t d) = slots d ++ [slot_key r] /\
    (col_exec_id r ∉ execution_ids d) /\ (slot_key r ∉ slots d).
Proof.
  unfold execution_ids, slots.
  destruct t as [j|j|j e|e f|i b|i t|x e|i s|i us x|i us x]; cbn;
    try (left; split; by apply update_execution_keys).
  - left. unfold create. by destruct (_ !! _).
  - left. unfold save. by destruct (_ !! _).
  - left. unfold save_if_unchanged. destruct (_ !! _); [|done]. destruct (negb _); [done|].
    rewrite job_from_blob. by destruct (negb _).
  - left. unfold record_fire. destruct (_ !! _); [|done]. by destruct (negb _).
  - left. unfold set_pinned. by destruct (_ !! _).
  - left. unfold write_deleted_at. by destruct (_ !! _).
  - unfold record_execution_if_job_unchanged. destruct (_ !! _); [|by left]. destruct (negb _); [by left|].
    rewrite job_from_blob. destruct (negb _); [by left|].
    destruct (insert_or_ignore _ _) as [l|] eqn:E; [|by left]. right.
    apply insert_or_ignore_fresh in E as (-> & Hi & Hs). exists (exec_row x). cbn.
    by rewrite !map_app.
Qed.
Lemma NoDup_snoc_fresh {A} (l : list A) x : NoDup l -> x ∉ l -> NoDup (l ++ [x]).
Proof.
  intros Hl Hx. apply NoDup_app. split_and!; [done | | apply NoDup_singleton].
  intros y Hy ->%list_elem_of_singleton. done.
Qed.
Lemma tx_executions_ok t d : executions_ok d -> executions_ok (run_tx t d).
Proof.
  intros [Hi Hs]. unfold executions_ok.
  destruct (tx_executions t d) as [[-> ->] | (r & -> & -> & Hi' & Hs')]; [done|].
  by split; apply NoDup_snoc_fresh.
Qed.
Lemma tx_slots t d k : k ∈ slots d -> k ∈ slots (run_tx t d).
Proof.
  intros H. destruct (tx_executions t d) as [[_ ->] | (r & _ & -> & _)]; [done|].
  apply elem_of_app. by left.
Qed.

(** What every transaction keeps, a run of them keeps. *)
Lemma run_txs_keeps (P : Db -> Prop) ts d : (forall t d, t ∈ ts -> P d -> P (run_tx t d)) -> P d -> P (run_txs ts d).
Proof.
  revert d; induction ts as [|t ts IH]; intros d H Hd; [done|]. cbn. apply IH.
  - intros t' d' Ht. apply H. by constructor 2.
  - apply H; [constructor | done].
Qed.

Lemma run_txs_jobs_ok ts : jobs_ok (run_txs ts empty_db).
Proof. apply run_txs_keeps; [|apply map_Forall_empty]. intros t d _. apply tx_jobs_ok. Qed.
Lemma run_txs_executions_ok ts : executions_ok (run_txs ts empty_db).
Proof. apply run_txs_keeps; [|split; apply NoDup_nil_2]. intros t d _. apply tx_executions_ok. Qed.

(** Whatever transactions ran on the empty tables, every job row's columns
    say what its blob says (owner, status, next slot; the flat columns never
    ride in the blob), no two executions share an id, and no two record the
    same slot of the same job. *)
Theorem tables_agree (ts : list Tx) : jobs_ok (run_txs ts empty_db) /\ executions_ok (run_txs ts empty_db).
Proof.
  split; [apply run_txs_jobs_ok | apply run_txs_executions_ok].
Qed.

Definition authored (j : CronJob) : string * string * CronSchedule * string :=
  (title j, prompt j, schedule j, timezone j).
(** The writers of a row's authored fields. *)
Definition rewrites (k : string) (t : Tx) : Prop :=
  exists j, id j = k /\ (t = TxSave j \/ exists e, t = TxSaveIf j e).

Lemma lookup_insert_cases {A} (m : gmap string A) k i x y :
  m !! k = Some y ->
  (i = k /\ <[i := x]> m !! k = Some x) \/ (i <> k /\ <[i := x]> m !! k = Some y).
Proof.
  intros H. destruct (decide (i = k)) as [->|Hne]; [left; by rewrite lookup_insert_eq | right].
  by rewrite lookup_insert_ne.
Qed.

(** How a transaction may leave a row: what it does not own it keeps. *)
Definition owned_change (k : string) (t : Tx) (r r' : JobRow) : Prop :=
  col_builtin r' = col_builtin r
  /\ (col_pinned r' = col_pinned r \/ exists b, t = TxPin k b)
  /\ (col_deleted_at r' = col_deleted_at r \/ exists at_, t = TxDeleted k at_)
  /\ (authored (col_data r') = authored (col_data r) \/ rewrites k t).
Lemma owned_refl k t r : owned_change k t r r.
Proof. split_and!; by try left. Qed.

Lemma put_row (m : gmap string JobRow) k i x r r0 t :
  m !! k = Some r -> m !! i = Some r0 -> owned_change i t r0 x ->
  exists r', <[i := x]> m !! k = Some r' /\ owned_change k t r r'.
Proof.
  intros Hk Hi Hx. destruct (lookup_insert_cases m k i x r Hk) as [[-> ->] | [_ ->]];
    [|eauto using owned_refl].
  rewrite Hk in Hi. injection Hi as <-. eauto.
Qed.
Lemma rewritten_owned j r t : rewrites (id j) t -> owned_change (id j) t r (rewritten j r).
Proof. intros H. split_and!; [done | by left.. | by right]. Qed.

(** No transaction drops a job's row, and each part of the row has its own
    writer: nothing changes whether the job is built in, only [set_pinned] its
    pin, only [delete] and [restore] its place in the recycle bin, and only a
    save its title, prompt, schedule and timezone, so the stamp of a fire, made
    from whatever snapshot, reverts none of them. *)
Theorem parts_have_owners t d k r :
  cron_jobs d !! k = Some r ->
  exists r', cron_jobs (run_tx t d) !! k = Some r' /\ owned_change k t r r'.
Proof.
  intros Hk. pose proof (owned_refl k t r) as Hr.
  destruct t as [j|j|j e|e f|i b|i t|x e|i s|i us x|i us x]; cbn -[stamped]; eauto.
  - unfold create. destruct (_ !! id j) eqn:E; [eauto | cbn].
    rewrite lookup_insert_ne by congruence. eauto.
  - unfold save. destruct (_ !! id j) as [r0|] eqn:E; [cbn | eauto].
    eapply put_row, rewritten_owned; [done.. | exists j; eauto].
  - unfold save_if_unchanged. destruct (_ !! id j) as [r0|] eqn:E; [|eauto].
    destruct (negb _); [eauto|]. rewrite job_from_blob. destruct (negb _); cbn; [eauto|].
    eapply put_row, rewritten_owned; [done.. | exists j; eauto].
  - unfold record_fire. destruct (_ !! id e) as [r0|] eqn:E; [|eauto].
    destruct (negb _); [eauto|]. rewrite job_from_blob.
    eapply put_row; [done..|]. split_and!; [done | by left..].
  - unfold set_pinned. destruct (_ !! i) as [r0|] eqn:E; [cbn | eauto].
    eapply put_row; [done..|]. split_and!; [done | right; eauto | by left | by left].
  - unfold write_deleted_at. destruct (_ !! i) as [r0|] eqn:E; [cbn | eauto].
    eapply put_row; [done..|]. split_and!; [done | by left | right; eauto | by left].
  - unfold record_execution_if_job_unchanged. destruct (_ !! exec_job_id x); [|eauto].
    destruct (negb _); [eauto|]. rewrite job_from_blob. destruct (negb _); [eauto|].
    destruct (insert_or_ignore _ _); eauto.
Qed.

End Store.

Module Sample.
#[export] Instance plain_sqlite : Sqlite :=
  {| from_us us := Some (us * MICROSECOND)%Z; scan l := l; constraint_failed := StorageInternal "constraint" |}.
(** A daily job armed for second 100, written at second 1. *)
Definition second : Z := 1000000000.
Definition digest : CronJob :=
  mk_job "j1" "u1" "tui" "Digest" (Cron "0 9 * * *") "Send the digest" "UTC" Enabled None
    (Some (100 * second)%Z) second second None (Some "s1") None false false.
Definition tables : Db := run_txs [TxCreate digest; TxPin "j1" true] empty_db.
(** A fire that read the job before it was pinned and renamed. *)
Definition stale_fire : Tx := TxFire digest (mk_fire Enabled (Some (200 * second)%Z) (101 * second)%Z (101 * second)%Z).
Definition renamed : CronJob := with_config "News" "Send the news" (Cron "0 9 * * *") "UTC" digest.

Lemma parts_have_owners_witness :
  exists r, cron_jobs (run_txs [TxSaveIf renamed digest] tables) !! "j1" = Some r
    /\ title (col_data r) = "News"
    /\ exists r', cron_jobs (run_tx stale_fire (run_txs [TxSaveIf renamed digest] tables)) !! "j1" = Some r'
         /\ owned_change "j1" stale_fire r r'.
Proof.
  eexists. split; [vm_compute; reflexivity | split; [reflexivity|]].
  apply parts_have_owners. vm_compute. reflexivity.
Defined.
Example stale_fire_lands :
  match cron_jobs (run_tx stale_fire (run_txs [TxSaveIf renamed digest] tables)) !! "j1" with
  | Some r => (title (col_data r), col_pinned r, next_trigger_at (col_data r)) = ("News", 1%Z, Some (200 * second)%Z)
  | None => False
  end.
Proof. vm_compute. reflexivity. Qed.
End Sample.
End CronStore.
