(* ===== verification/CronScheduler.v ===== *)
(** * The cron scheduler ([crates/cron/src/scheduler.rs], [error.rs])

    Jobs are created, edited, paused, deleted and restored; a loop fires the
    due ones.  Every store call is a point where other tasks may have written
    the tables: [meddle] says which transactions they ran just before it, and
    [fault] whether the call itself failed, before or after it took effect.
    The cron and time zone parsers are not the repository's. *)

From S2P Require Import Prelude Lifecycle Effect CronStore.
Import Lifecycle Effect CronStore.

Module CronScheduler.

(** ** Errors ([error.rs]) *)

Inductive CronError :=
| NotFound (s : string)
| InvalidSchedule (s : string)
| EmptyUpdate (s : string)
| BlankPrompt
| Contended (s : string)
| AlreadyDispatched (s : string)
| Builtin (s : string)
| Storage (s : string)
| Internal (s : string).
Definition from_storage (e : StorageError) : CronError :=
  match e with
  | Conflict s => AlreadyDispatched s
  | StorageNotFound s => NotFound s
  | StorageInternal s => Internal s
  | other => Storage (storage_error_text other)
  end.

(** ** Events and requests *)

Record CronTriggerEvent := mk_event {
  event_job_id : string;
  execution_id : string;
  event_user_id : string;
  event_channel : string;
  event_title : string;
  event_timezone : string;
  event_prompt : string;
  event_one_shot : bool;
  event_project_id : option string;
  event_origin_session_id : option string;
  event_previous_fire_at : option Time;
}.
Definition for_execution (e : CronExecution) : CronTriggerEvent :=
  mk_event (exec_job_id e) (exec_id e) (exec_user_id e) (exec_channel e) (exec_display_title e)
    (exec_timezone e) (exec_prompt e) (exec_is_one_shot e) (exec_project_id e)
    (exec_origin_session_id e) (previous_fire_at e).

Record NewCronJob := mk_new_job {
  spec_user_id : string;
  spec_channel : string;
  spec_title : string;
  spec_schedule : CronSchedule;
  spec_prompt : string;
  spec_timezone : string;
  spec_origin_session_id : option string;
  spec_project_id : option string;
}.
Record BuiltinJobSpec := mk_builtin_spec {
  builtin_job : BuiltinCronJob;
  builtin_enabled : bool;
  builtin_schedule : string;
  builtin_timezone : string;
  builtin_user_id : string;
  builtin_channel : string;
}.

Definition DREAM_JOB_TITLE : string := "Dream".
Definition DREAM_JOB_PROMPT : string := "Tend your memory.

This pass has two inputs, not one: the conversations listed above, and the four files that ride your prompt. Read the transcripts that look like they carry something worth keeping — then open all four files and read them whole. A line no recent conversation touched still costs you on every single call, so it is this pass's business too.

1. **Record** what is worth carrying forward: durable facts about your human, corrections they gave you, the state of ongoing work, pointers to things outside this system. Skip anything that only mattered inside its own conversation.
2. **Consolidate**: merge memories that say the same thing, tighten wording that has gone vague, fix links between related memories. Two files saying one thing are also two index lines, and the index rides every prompt.
3. **Prune, and prune the files too.** Delete memories that turned out wrong, or that a newer one supersedes (`MemoryDelete`). Then turn the same knife on the four files: a line recording what your human asked *once*, carrying no instruction you could reuse, is not a memory — cut it outright. Demoting only moves a token; deleting is the only thing that gives one back.
4. **Rebalance everything that rides the prompt** — your `SOUL.md`, your `IDENTITY.md`, your own `USER.md`, and the shared profile. All four are sent in full on every call; memory files cost nothing until read. Promote what *every* conversation needs; demote the long tail into memory, where an index line stands in for it. The budget above says what each file is costing you right now — treat a file that is large without earning it as the finding, not as the background.
5. **The shared profile is the strictest of the four.** Every agent reads it and every agent may write it, so it holds only what is true for all of them: a name, a timezone, a standing constraint. Your own working notes belong in your own `USER.md`, and task detail belongs in memory. If it has grown past that, cut it back — it is the one file whose weight every agent pays.
6. **Rewrite the index** (`MEMORY.md`) so it names exactly the files that exist, one line each.

Your memory and your own identity files are yours alone — every other agent keeps its own, and writing into theirs is refused. The shared profile is the one thing you hold in common.

Say what you cut and what you moved, with the numbers. If there was nothing new worth remembering *and* the files were already lean, use `report_nothing` rather than inventing work to report.".
Definition builtin_job_text (b : BuiltinCronJob) : string * string :=
  match b with Dream => (DREAM_JOB_TITLE, DREAM_JOB_PROMPT) end.

(** ** The world *)

Class Outside := {
  #[global] sqlite :: Sqlite;
  (** The [n]th answer of the clock, of the random ids and of each call. *)
  clock : nat -> Time;
  uuid : nat -> string;
  meddle : nat -> list Tx;
  fault : nat -> option (bool * StorageError);
  closed : nat -> option string;
  (** [cron::Schedule], [chrono_tz::Tz] and the text of an instant. *)
  Expression : Type;
  Tz : Type;
  parse_expression : string -> result Expression string;
  first_after : Expression -> Tz -> Time -> option Time;
  parse_tz : string -> result Tz string;
  UTC : Tz;
  rfc3339 : Time -> string;
  rfc3339_in : Tz -> Time -> string;
}.
(** What the scheduler relies on: [Schedule::after] starts strictly later. *)
Class CronLaws (O : Outside) :=
  first_after_later : forall e z t u, first_after e z t = Some u -> (t < u)%Z.

(** [sent]: the events on the trigger channel.  [used]: how many answers the
    world has given. *)
Record World := mk_world {
  db : Db;
  sent : list CronTriggerEvent;
  used : nat;
}.

Section Scheduler.
Context {O : Outside}.

Abbreviation Run A := (M World CronError A).

Definition now_ : Run Time :=
  draw (fun w => (mk_world (db w) (sent w) (S (used w)), clock (used w))).
Definition new_uuid : Run string :=
  draw (fun w => (mk_world (db w) (sent w) (S (used w)), uuid (used w))).

(** One store call: what the others wrote, then this transaction, unless it
    fails; [true] in the fault says it took effect all the same. *)
Definition call {A} (f : Db -> Db * result A StorageError) : M World StorageError A := fun w =>
  let n := used w in
  let d := run_txs (meddle n) (db w) in
  match fault n with
  | None => let (d, r) := f d in (mk_world d (sent w) (S n), r)
  | Some (took, e) => (mk_world (if took then (f d).1 else d) (sent w) (S n), Err e)
  end.
Definition stored {A} (f : Db -> Db * result A StorageError) : Run A := map_error from_storage (call f).

(** [trigger_tx.send]: fails when the receiver is gone. *)
Definition send (e : CronTriggerEvent) : M World string unit := fun w =>
  let n := used w in
  match closed n with
  | None => (mk_world (db w) (sent w ++ [e]) (S n), Ok tt)
  | Some err => (mk_world (db w) (sent w) (S n), Err err)
  end.

(** ** The methods of the store that take two transactions *)

Definition load_job (job_id : string) : M World StorageError CronJob :=
  let* got := call (get job_id) in
  match got with Some j => ret j | None => throw (StorageNotFound job_id) end.
Definition store_now : M World StorageError Time :=
  draw (fun w => (mk_world (db w) (sent w) (S (used w)), clock (used w))).
Definition store_delete (job_id : string) : M World StorageError unit :=
  let* job := load_job job_id in
  if builtin job then
    throw (Conflict ("cron job " +:+ job_id +:+ " is built in and cannot be deleted; pause it instead")%string)
  else if is_deleted job then ret tt
  else
    let* now := store_now in
    call (write_deleted_at job_id (Some now)).
Definition store_restore (job_id : string) : M World StorageError unit :=
  let* _ := load_job job_id in
  call (write_deleted_at job_id None).
Definition store_completion (execution_id : string) (c : ExecutionCompletion) : M World StorageError unit :=
  let* exec := call (load_execution execution_id) in
  call (write_completion execution_id (to_us (completion_at c)) (completed c exec)).
Definition store_notified (execution_id : string) (at_ : Time) : M World StorageError unit :=
  let* exec := call (load_execution execution_id) in
  call (write_notified execution_id (to_us at_) (notified at_ exec)).

(** ** Schedules *)

Definition normalize_cron_expression (expression : string) : string :=
  if Nat.eqb (length (Str.words expression)) 5 then ("0 " +:+ expression)%string else expression.

Definition validate_prompt (prompt : string) : result unit CronError :=
  if String.eqb (Str.trim prompt) "" then Err BlankPrompt else Ok tt.

Definition validate_schedule (s : CronSchedule) : result unit CronError :=
  match s with
  | Cron expr =>
      match parse_expression (normalize_cron_expression expr) with
      | Ok _ => Ok tt
      | Err e => Err (InvalidSchedule (expr +:+ ": " +:+ e)%string)
      end
  | At _ => Ok tt
  end.

Definition parse_timezone (name : string) : result Tz CronError :=
  match parse_tz name with
  | Ok z => Ok z
  | Err e => Err (InvalidSchedule ("invalid timezone " +:+ name +:+ ": " +:+ e)%string)
  end.
Definition parse_timezone_or_utc (name : string) : Tz :=
  match parse_tz name with Ok z => z | Err _ => UTC end.

Definition compute_next_trigger (s : CronSchedule) (z : Tz) (after : Time) : option Time :=
  match s with
  | Cron expr =>
      match parse_expression (normalize_cron_expression expr) with
      | Ok e => first_after e z after
      | Err _ => None
      end
  | At time => if (after <? time)%Z then Some time else None
  end.

Definition display (s : CronSchedule) : string :=
  match s with Cron expr => expr | At time => rfc3339 time end.
Definition arm_schedule (s : CronSchedule) (timezone : string) (now : Time) : result Time CronError :=
  let? _ := validate_schedule s in
  let? z := parse_timezone timezone in
  match compute_next_trigger s z now with
  | Some t => Ok t
  | None =>
      Err (InvalidSchedule ("schedule " +:+ display s +:+ " has no future fire time (now is "
                            +:+ rfc3339 now +:+ " / " +:+ rfc3339_in z now +:+ ")")%string)
  end.

(** ** Jobs *)

Definition create_job (spec : NewCronJob) : Run CronJob :=
  let* _ := of_result (validate_prompt (spec_prompt spec)) in
  let* now := now_ in
  let* next := of_result (arm_schedule (spec_schedule spec) (spec_timezone spec) now) in
  let* i := new_uuid in
  let job := mk_job i (spec_user_id spec) (spec_channel spec) (spec_title spec) (spec_schedule spec)
    (spec_prompt spec) (spec_timezone spec) Enabled None (Some next) now now (spec_project_id spec)
    (spec_origin_session_id spec) None false false in
  let* _ := stored (create job) in
  ret job.

Definition UPDATE_ATTEMPTS : nat := 3.

(** [get], with a job in the recycle bin as absent. *)
Definition live_job (job_id : string) : Run CronJob :=
  let* got := stored (get job_id) in
  match got with
  | Some j => if is_deleted j then throw (NotFound job_id) else ret j
  | None => throw (NotFound job_id)
  end.
Definition with_version (u : Time) (j : CronJob) : CronJob :=
  with_timing (status j) (last_triggered_at j) (next_trigger_at j) u j.

Fixpoint edit_attempts (attempts : nat) (job_id : string) (change : CronJob -> Time -> result CronJob CronError)
    : Run CronJob :=
  match attempts with
  | 0 => throw (Contended job_id)
  | S attempts =>
      let* current := live_job job_id in
      let* now := now_ in
      let* changed := of_result (change current now) in
      let updated := with_version (Z.max now (updated_at current + MICROSECOND)) changed in
      let* landed := stored (save_if_unchanged updated current) in
      if landed then ret updated else edit_attempts attempts job_id change
  end.
Definition edit_in_place : string -> (CronJob -> Time -> result CronJob CronError) -> Run CronJob :=
  edit_attempts UPDATE_ATTEMPTS.

Definition set_status_next (st : CronStatus) (next : option Time) (j : CronJob) : CronJob :=
  with_timing st (last_triggered_at j) next (updated_at j) j.

(** The closure of [update_job]. *)
Definition update_change (patch : CronJobPatch) (job : CronJob) (now : Time) : result CronJob CronError :=
  if builtin job && (is_some (new_prompt patch) || is_some (new_title patch)) then Err (Builtin (id job))
  else
    let job := apply_to patch job in
    if reschedules patch then
      let? next := arm_schedule (schedule job) (timezone job) now in
      Ok (match status job with
          | Disabled => set_status_next Disabled None job
          | Enabled | Executed => set_status_next Enabled (Some next) job
          end)
    else Ok job.
Definition update_job (job_id : string) (patch : CronJobPatch) : Run CronJob :=
  if is_empty patch then throw (EmptyUpdate job_id)
  else
    let* _ := of_result (match new_prompt patch with Some p => validate_prompt p | None => Ok tt end) in
    edit_in_place job_id (update_change patch).

Definition enable_change (job : CronJob) (now : Time) : result CronJob CronError :=
  let? next := arm_schedule (schedule job) (timezone job) now in
  Ok (set_status_next Enabled (Some next) job).
Definition enable_job (job_id : string) : Run unit :=
  let* _ := edit_in_place job_id enable_change in ret tt.
Definition disable_job (job_id : string) : Run unit :=
  let* _ := edit_in_place job_id (fun job _ => Ok (set_status_next Disabled None job)) in ret tt.

Definition rewrite_builtin_instruction (job_id title prompt : string) : Run unit :=
  let* _ := edit_in_place job_id (fun job _ =>
    Ok (with_config title prompt (schedule job) (timezone job) job)) in
  ret tt.
Definition ensure_builtin_job (spec : BuiltinJobSpec) : Run unit :=
  let job_id := builtin_id (builtin_job spec) in
  let (title_, prompt_) := builtin_job_text (builtin_job spec) in
  let* existing := stored (get job_id) in
  if negb (builtin_enabled spec) then
    match existing with
    | None => ret tt
    | Some job => if bool_decide (status job = Disabled) then ret tt else disable_job job_id
    end
  else
    match existing with
    | Some job =>
        if negb (String.eqb (prompt job) prompt_) || negb (String.eqb (title job) title_)
        then rewrite_builtin_instruction (id job) title_ prompt_ else ret tt
    | None =>
        let s := Cron (builtin_schedule spec) in
        let* now := now_ in
        let* next := of_result (arm_schedule s (builtin_timezone spec) now) in
        stored (create (mk_job job_id (builtin_user_id spec) (builtin_channel spec) title_ s prompt_
          (builtin_timezone spec) Enabled None (Some next) now now None None None false true))
    end.

Definition delete_job (job_id : string) : Run unit :=
  let* got := stored (get job_id) in
  if is_some_and builtin got then throw (Builtin job_id)
  else map_error from_storage (store_delete job_id).

(** The job as [restore_job] saves it before the row is visible again. *)
Definition restored (job : CronJob) (now : Time) : CronJob :=
  let z := parse_timezone_or_utc (timezone job) in
  let next := match status job with
              | Enabled => compute_next_trigger (schedule job) z now
              | Disabled | Executed => None
              end in
  let st := if bool_decide (status job = Enabled) && negb (is_some next) then Disabled else status job in
  with_timing st (last_triggered_at job) next now job.
Definition restore_job (job_id : string) : Run unit :=
  let* got := stored (get job_id) in
  match got with
  | None => throw (NotFound job_id)
  | Some job =>
      if negb (is_deleted job) then ret tt
      else
        let* now := now_ in
        let* _ := stored (save (restored job now)) in
        map_error from_storage (store_restore job_id)
  end.

Definition get_job (job_id : string) : Run (option CronJob) := stored (get job_id).
Definition list_jobs (user : string) : Run (list CronJob) := stored (list_by_user user).
Definition list_all_jobs : Run (list CronJob) := stored list_all.
Definition list_deleted_jobs : Run (list CronJob) := stored list_deleted.
Definition set_job_pinned (job_id : string) (pin : bool) : Run bool := stored (set_pinned job_id pin).
Definition list_executions (job_id : string) : Run (list CronExecution) := stored (list_executions_by_job job_id).
Definition record_execution_completion (execution_id : string) (c : ExecutionCompletion) : Run unit :=
  map_error from_storage (store_completion execution_id c).
Definition mark_execution_notified (execution_id : string) (at_ : Time) : Run unit :=
  map_error from_storage (store_notified execution_id at_).
Definition executions_awaiting_delivery : Run (list CronExecution) :=
  let* rows := stored list_executions_awaiting_delivery in
  ret (List.filter exec_is_one_shot rows).

(** ** Fires *)

(** A failed write is logged and the fire goes on. *)
Definition write_back (job : CronJob) (fire : CronFire) : Run unit :=
  let* _ := attempt (stored (record_fire job fire)) in ret tt.
Definition advance_recurring (job : CronJob) (now : Time) : Run unit :=
  let z := parse_timezone_or_utc (timezone job) in
  write_back job (mk_fire (status job) (compute_next_trigger (schedule job) z now) now now).
Definition mark_one_shot_executed (job : CronJob) (now : Time) : Run unit :=
  write_back job (mk_fire Executed None now now).

Fixpoint trigger_attempts (attempts : nat) (job_id : string) : Run CronExecution :=
  match attempts with
  | 0 => throw (Contended job_id)
  | S attempts =>
      let* job := live_job job_id in
      let* now := now_ in
      let* i := new_uuid in
      let execution := pending i job now now in
      let* recorded := stored (record_execution_if_job_unchanged execution job) in
      if negb recorded then trigger_attempts attempts job_id
      else
        let* _ := map_error (fun e => Storage ("failed to dispatch trigger: " +:+ e)%string)
                    (send (for_execution execution)) in
        let* _ := stored (update_execution_status (exec_id execution) Dispatched) in
        let* _ := when (is_one_shot job) (mark_one_shot_executed job now) in
        ret (with_exec_status Dispatched execution)
  end.
Definition trigger_now : string -> Run CronExecution := trigger_attempts UPDATE_ATTEMPTS.

(** [send], then [Dispatched]; either failure is logged, and a failed send
    leaves the execution pending. *)
Definition dispatch (execution : CronExecution) : Run unit :=
  let* r := attempt (map_error Internal (send (for_execution execution))) in
  match r with
  | Err _ => ret tt
  | Ok _ =>
      let* _ := attempt (stored (update_execution_status (exec_id execution) Dispatched)) in ret tt
  end.

Definition recover_one (exec : CronExecution) : Run unit :=
  let* got := attempt (stored (get (exec_job_id exec))) in
  match got with
  | Err _ => ret tt
  | Ok (Some job) =>
      if negb (is_deleted job) then dispatch exec
      else let* _ := attempt (stored (update_execution_status (exec_id exec) Dispatched)) in ret tt
  | Ok None =>
      let* _ := attempt (stored (update_execution_status (exec_id exec) Dispatched)) in ret tt
  end.
Definition recover_pending : Run unit :=
  let* rows := attempt (stored (list_executions_by_status Pending)) in
  match rows with
  | Err _ => ret tt
  | Ok rows => each recover_one rows
  end.

(** The body of the loop of [tick]. *)
Definition fire_due (now : Time) (job : CronJob) : Run unit :=
  match next_trigger_at job with
  | None => ret tt
  | Some slot =>
      let* dup := attempt (stored (has_execution_for_schedule (id job) (to_us slot))) in
      match dup with
      | Err _ => ret tt
      | Ok true => advance_recurring job now
      | Ok false =>
          let* i := new_uuid in
          let execution := pending i job slot now in
          let* recorded := attempt (stored (record_execution_if_job_unchanged execution job)) in
          match recorded with
          | Ok true =>
              let* _ := (if is_one_shot job then mark_one_shot_executed job now
                         else advance_recurring job now) in
              dispatch execution
          | Ok false | Err _ => ret tt
          end
      end
  end.
Definition tick : Run unit :=
  let* now := now_ in
  let* due := attempt (stored (list_due (to_us now))) in
  match due with
  | Err _ => ret tt
  | Ok due => each (fire_due now) due
  end.
(** [run]: recovery, then as many ticks as come before the shutdown. *)
Definition run (ticks : nat) : Run unit :=
  let* _ := recover_pending in each (fun _ => tick) (seq 0 ticks).

End Scheduler.
(** ** What other tasks may do

    [stable A P]: [P] survives any answer of the world and every transaction
    [A] allows.  [by_tx A f]: the call [f] reads, or runs such a transaction. *)
Section Stable.
Context {O : Outside} (A : Tx -> Prop) (P : World -> Prop).

Record stable : Prop := {
  stable_tx : forall w t, A t -> P w -> P (mk_world (run_tx t (db w)) (sent w) (used w));
  stable_used : forall w n, P w -> P (mk_world (db w) (sent w) n);
}.
Definition by_tx {R} (f : Db -> Db * result R StorageError) : Prop :=
  (forall d, (f d).1 = d) \/ exists t, A t /\ forall d, (f d).1 = run_tx t d.
Definition polite : Prop := forall n, Forall A (meddle n).

Lemma reads {R} (f : Db -> Db * result R StorageError) : (forall d, (f d).1 = d) -> by_tx f.
Proof. by left. Qed.
Lemma runs {R} (f : Db -> Db * result R StorageError) t :
  A t -> (forall d, (f d).1 = run_tx t d) -> by_tx f.
Proof. right. eauto. Qed.

Hypothesis HP : stable.
Hypothesis HM : polite.

Lemma meddled w n : P w -> P (mk_world (run_txs (meddle n) (db w)) (sent w) (used w)).
Proof using HP HM.
  intros H. apply (run_txs_keeps (fun d => P (mk_world d (sent w) (used w)))); [|by destruct w].
  intros t d Ht Hd. apply (stable_tx HP _ t) in Hd; [done|].
  by apply (proj1 (Forall_forall _ _) (HM n)).
Qed.
Lemma by_tx_keeps {R} (f : Db -> Db * result R StorageError) w :
  by_tx f -> P w -> P (mk_world (f (db w)).1 (sent w) (used w)).
Proof using HP.
  intros [E | (t & Ht & E)] Hw; rewrite E; [by destruct w | by apply (stable_tx HP)].
Qed.
Lemma call_keeps {R} (f : Db -> Db * result R StorageError) : by_tx f -> keeps P (call f).
Proof using HP HM.
  intros Hf w Hw. apply (meddled w (used w)) in Hw. unfold call.
  assert (Hn : forall w', P w' -> P (mk_world (db w') (sent w') (S (used w)))) by (intros; by apply (stable_used HP)).
  pose proof (by_tx_keeps f _ Hf Hw) as Hf'. cbn in Hf'.
  destruct (fault (used w)) as [[took e]|].
  - destruct took; [by apply Hn in Hf' | by apply Hn in Hw].
  - destruct (f _) as [d r]. by apply Hn in Hf'.
Qed.
Lemma stored_keeps {R} (f : Db -> Db * result R StorageError) : by_tx f -> keeps P (stored f).
Proof using HP HM. intros Hf. by apply keeps_map_error, call_keeps. Qed.
Lemma now_keeps : keeps P now_.
Proof using HP. apply keeps_draw. intros w. apply (stable_used HP). Qed.
Lemma store_now_keeps : keeps P store_now.
Proof using HP. apply keeps_draw. intros w. apply (stable_used HP). Qed.
Lemma new_uuid_keeps : keeps P new_uuid.
Proof using HP. apply keeps_draw. intros w. apply (stable_used HP). Qed.
End Stable.

(** The property of a program that sends nothing. *)
Ltac tx_is t := apply (runs _ _ t); [try done | reflexivity].
Ltac by_tx_auto :=
  first
    [ apply reads; reflexivity
    | match goal with
      | |- by_tx _ (create ?j) => tx_is (TxCreate j)
      | |- by_tx _ (save ?j) => tx_is (TxSave j)
      | |- by_tx _ (save_if_unchanged ?j ?e) => tx_is (TxSaveIf j e)
      | |- by_tx _ (record_fire ?e ?f) => tx_is (TxFire e f)
      | |- by_tx _ (set_pinned ?i ?b) => tx_is (TxPin i b)
      | |- by_tx _ (write_deleted_at ?i ?t) => tx_is (TxDeleted i t)
      | |- by_tx _ (record_execution_if_job_unchanged ?x ?e) => tx_is (TxRecord x e)
      | |- by_tx _ (update_execution_status ?i ?s) => tx_is (TxStatus i s)
      | |- by_tx _ (write_completion ?i ?u ?x) => tx_is (TxCompletion i u x)
      | |- by_tx _ (write_notified ?i ?u ?x) => tx_is (TxNotified i u x)
      end ].
(** Peels a program that sends nothing into its calls. *)
Ltac quiet HP HM :=
  repeat first
    [ apply (now_keeps _ _ HP) | apply (store_now_keeps _ _ HP) | apply (new_uuid_keeps _ _ HP)
    | apply (stored_keeps _ _ HP HM); by_tx_auto | apply (call_keeps _ _ HP HM); by_tx_auto
    | keeps_step
    | match goal with |- keeps _ (match ?x with _ => _ end) => destruct x end ].

Section Quiet.
Context {O : Outside} (P : World -> Prop).
Abbreviation anyone := (fun _ : Tx => True).
Hypothesis HP : stable anyone P.

Lemma anyone_polite : polite anyone.
Proof. intros n. by apply Forall_forall. Qed.

Lemma live_job_keeps i : keeps P (live_job i).
Proof using HP. unfold live_job. quiet HP anyone_polite. Qed.
Lemma edit_keeps n i c : keeps P (edit_attempts n i c).
Proof using HP.
  induction n as [|n IH]; cbn; [apply keeps_throw|].
  apply keeps_bind; [apply live_job_keeps | intros j]. quiet HP anyone_polite. apply IH.
Qed.
Lemma edit_in_place_keeps i c : keeps P (edit_in_place i c).
Proof using HP. apply edit_keeps. Qed.
#[local] Opaque edit_in_place.
Lemma write_back_keeps j f : keeps P (write_back j f).
Proof using HP. unfold write_back. quiet HP anyone_polite. Qed.
Lemma advance_keeps j t : keeps P (advance_recurring j t).
Proof using HP. apply write_back_keeps. Qed.
Lemma mark_keeps j t : keeps P (mark_one_shot_executed j t).
Proof using HP. apply write_back_keeps. Qed.
Lemma create_job_keeps s : keeps P (create_job s).
Proof using HP. unfold create_job. quiet HP anyone_polite. Qed.
Lemma update_job_keeps i p : keeps P (update_job i p).
Proof using HP. unfold update_job. quiet HP anyone_polite. apply edit_in_place_keeps. Qed.
Lemma enable_keeps i : keeps P (enable_job i).
Proof using HP. unfold enable_job. quiet HP anyone_polite. apply edit_in_place_keeps. Qed.
Lemma disable_keeps i : keeps P (disable_job i).
Proof using HP. unfold disable_job. quiet HP anyone_polite. apply edit_in_place_keeps. Qed.
Lemma ensure_keeps s : keeps P (ensure_builtin_job s).
Proof using HP.
  unfold ensure_builtin_job, rewrite_builtin_instruction. quiet HP anyone_polite;
    first [apply disable_keeps | apply edit_in_place_keeps].
Qed.
Lemma delete_keeps i : keeps P (delete_job i).
Proof using HP.
  unfold delete_job, store_delete. quiet HP anyone_polite.
Qed.
Lemma restore_keeps i : keeps P (restore_job i).
Proof using HP.
  unfold restore_job, store_restore. quiet HP anyone_polite.
Qed.
End Quiet.

(** ** One fire per slot *)

(** A request to the scheduler, between two restarts. *)
Inductive Request :=
| RTick
| RTrigger (job_id : string)
| RCreate (spec : NewCronJob)
| RUpdate (job_id : string) (patch : CronJobPatch)
| REnable (job_id : string)
| RDisable (job_id : string)
| RDelete (job_id : string)
| RRestore (job_id : string)
| REnsure (spec : BuiltinJobSpec)
| RPin (job_id : string) (pin : bool)
| RCompleted (execution_id : string) (c : ExecutionCompletion)
| RNotified (execution_id : string) (at_ : Time).

Section Slots.
Context {O : Outside}.

Definition ignored {A} (m : M World CronError A) : M World CronError unit :=
  let* _ := m in ret tt.
Definition serve (r : Request) : M World CronError unit :=
  match r with
  | RTick => tick
  | RTrigger i => ignored (trigger_now i)
  | RCreate s => ignored (create_job s)
  | RUpdate i p => ignored (update_job i p)
  | REnable i => enable_job i
  | RDisable i => disable_job i
  | RDelete i => delete_job i
  | RRestore i => restore_job i
  | REnsure s => ensure_builtin_job s
  | RPin i b => ignored (set_job_pinned i b)
  | RCompleted i c => record_execution_completion i c
  | RNotified i t => mark_execution_notified i t
  end.
Definition history (l : list Request) (w : World) : World := foldl (fun w r => (serve r w).1) w l.

Definition sent_ids (w : World) : list string := map execution_id (sent w).
(** Every event is of its own recorded execution. *)
Definition accounted (w : World) : Prop :=
  executions_ok (db w) /\ NoDup (sent_ids w) /\ sent_ids w ⊆ execution_ids (db w).
(** And execution [i] is recorded and not sent. *)
Definition unsent (i : string) (w : World) : Prop :=
  accounted w /\ (i ∈ execution_ids (db w)) /\ (i ∉ sent_ids w).

Abbreviation anyone := (fun _ : Tx => True).

Lemma tx_ids t d i : i ∈ execution_ids d -> i ∈ execution_ids (run_tx t d).
Proof.
  intros H. destruct (tx_executions t d) as [[-> _] | (r & -> & _)]; [done|].
  apply elem_of_app. by left.
Qed.
Lemma accounted_stable : stable anyone accounted.
Proof.
  split; [|done]. intros w t _ (Hx & Hn & Hs). split_and!; cbn; [by apply tx_executions_ok | done|].
  intros i Hi. by apply tx_ids, Hs.
Qed.
Lemma unsent_stable i : stable anyone (unsent i).
Proof.
  split; [|done]. intros w t Ht (Ha & Hi & Hs). split_and!; cbn; [|by apply tx_ids | done].
  by apply (stable_tx _ _ accounted_stable).
Qed.

Lemma record_unsent e job w :
  accounted w ->
  wp (call (record_execution_if_job_unchanged e job))
     (fun r w' => accounted w' /\ (r = Ok true -> unsent (exec_id e) w')) w.
Proof.
  intros Hw. apply (wp_keeps_and accounted); [|done|].
  { apply (call_keeps _ _ accounted_stable anyone_polite). by_tx_auto. }
  apply (meddled _ _ accounted_stable anyone_polite w (used w)) in Hw.
  unfold wp, call. destruct (fault _) as [[? ?]|]; [done|].
  set (d := run_txs _ _) in *. revert Hw. generalize d. clear d. intros d Hw.
  unfold record_execution_if_job_unchanged.
  destruct (_ !! _) as [r|]; [|done]. destruct (negb _); [done|]. rewrite job_from_blob.
  destruct (negb _); [done|]. destruct (insert_or_ignore _ _) as [l|] eqn:E; [|done].
  apply insert_or_ignore_fresh in E as (-> & Hi & Hs). intros _.
  destruct Hw as ([Hids Hsl] & Hn & Hsub). cbn in *.
  unfold unsent, accounted, executions_ok, execution_ids, slots. cbn. rewrite !map_app. cbn.
  split_and!.
  - by apply NoDup_snoc_fresh.
  - by apply NoDup_snoc_fresh.
  - done.
  - intros x Hx. apply elem_of_app. left. by apply Hsub.
  - apply elem_of_app. right. by apply list_elem_of_singleton.
  - intros Hx. by apply Hi, Hsub.
Qed.
Lemma stored_record_unsent e job w :
  accounted w ->
  wp (stored (record_execution_if_job_unchanged e job))
     (fun r w' => accounted w' /\ (r = Ok true -> unsent (exec_id e) w')) w.
Proof.
  intros Hw. pose proof (record_unsent e job w Hw) as [Ha Hu]. unfold wp, stored, map_error in *.
  destruct (call _ w) as [w' [a|err]]; cbn in *; [|done]. split; [done|]. intros [= ->]. by apply Hu.
Qed.

Lemma send_accounted e w :
  unsent (execution_id e) w -> wp (send e) (fun _ w' => accounted w') w.
Proof.
  intros ((Hx & Hn & Hs) & Hi & Hni). unfold wp, send.
  destruct (closed _); [done|]. unfold accounted, sent_ids. cbn. rewrite map_app. split_and!; [done | |].
  - by apply NoDup_snoc_fresh.
  - intros x [Hx' | ->%list_elem_of_singleton]%elem_of_app; [by apply Hs | done].
Qed.
Lemma keeps_by_wp {B} (Q : World -> Prop) (m : M World CronError B) :
  (forall w, Q w -> wp m (fun _ w' => Q w') w) -> keeps Q m.
Proof. done. Qed.
Lemma map_error_wp {F G B} (f : F -> G) (m : M World F B) (Q : World -> Prop) w :
  wp m (fun _ w' => Q w') w -> wp (map_error f m) (fun _ w' => Q w') w.
Proof. unfold wp, map_error. by destruct (m w). Qed.
Lemma dispatch_accounted e w : unsent (exec_id e) w -> accounted (dispatch e w).1.
Proof.
  intros Hw. pose proof accounted_stable as HP.
  enough (wp (dispatch e) (fun _ w' => accounted w') w) by done.
  apply wp_bind, wp_attempt, (wp_mono _ (fun _ w' => accounted w')).
  - by apply map_error_wp, send_accounted.
  - intros [u|err] w' Ha; [|done].
    revert w' Ha. change (keeps accounted (let* _ := attempt (stored (update_execution_status (exec_id e) Dispatched)) in ret tt : M World CronError unit)).
    quiet HP anyone_polite.
Qed.

Lemma fire_due_accounted t job : keeps accounted (fire_due t job).
Proof.
  pose proof accounted_stable as HP. unfold fire_due.
  destruct (next_trigger_at job) as [slot|]; [|apply keeps_ret].
  apply keeps_bind; [quiet HP anyone_polite | intros [[]|]]; [by apply advance_keeps | | apply keeps_ret].
  apply keeps_bind; [quiet HP anyone_polite | intros i]. apply keeps_by_wp. intros w Hw.
  apply wp_bind, wp_attempt.
  eapply wp_mono; [by apply stored_record_unsent|]. intros [[]|err] w' [Ha Hu]; [|done|done].
  specialize (Hu eq_refl). apply wp_bind. eapply wp_mono.
  - apply (wp_keeps (unsent i)); [|exact Hu].
    destruct (is_one_shot job); [apply mark_keeps | apply advance_keeps]; apply unsent_stable.
  - intros [u|err] w'' Hu'; [by apply dispatch_accounted | apply Hu'].
Qed.
Lemma tick_accounted : keeps accounted tick.
Proof.
  unfold tick. apply keeps_bind; [apply (now_keeps _ _ accounted_stable) | intros now].
  apply keeps_bind; [quiet accounted_stable anyone_polite | intros [due|err]]; [|apply keeps_ret].
  apply keeps_each. intros job. apply fire_due_accounted.
Qed.
Lemma trigger_accounted n i : keeps accounted (trigger_attempts n i).
Proof.
  pose proof accounted_stable as HP. induction n as [|n IH]; cbn; [apply keeps_throw|].
  apply keeps_bind; [by apply live_job_keeps | intros job].
  apply keeps_bind; [quiet HP anyone_polite | intros now].
  apply keeps_bind; [quiet HP anyone_polite | intros x]. apply keeps_by_wp. intros w Hw.
  apply wp_bind. eapply wp_mono; [by apply stored_record_unsent|].
  intros [[]|err] w' [Ha Hu]; [|by apply IH | done].
  apply wp_bind. eapply wp_mono; [apply map_error_wp, send_accounted, Hu; done|].
  intros [u|err] w'' Ha'; [|done]. revert w'' Ha'.
  match goal with |- forall w, _ -> wp ?m _ w => change (keeps accounted m) end.
  quiet HP anyone_polite.
Qed.
Lemma serve_accounted r : keeps accounted (serve r).
Proof.
  pose proof accounted_stable as HP. destruct r; cbn [serve];
    try match goal with |- keeps _ (ignored _) => apply keeps_bind; [|intros ?; apply keeps_ret] end.
  - apply tick_accounted.
  - apply trigger_accounted.
  - by apply create_job_keeps.
  - by apply update_job_keeps.
  - by apply enable_keeps.
  - by apply disable_keeps.
  - by apply delete_keeps.
  - by apply restore_keeps.
  - by apply ensure_keeps.
  - unfold set_job_pinned. quiet HP anyone_polite.
  - unfold record_execution_completion, store_completion. quiet HP anyone_polite.
  - unfold mark_execution_notified, store_notified. quiet HP anyone_polite.
Qed.
Lemma history_accounted l w : accounted w -> accounted (history l w).
Proof. revert w; induction l as [|r l IH]; intros w Hw; [done|]. by apply IH, serve_accounted. Qed.

(** C21: a slot fires once.  Over any history of ticks, manual fires, edits,
    pauses, deletions and restores, with any other writers of the tables in
    between and any store calls failing before or after they took effect, every
    event on the trigger channel names a recorded execution, and no two events
    are for the same slot of the same job. *)
Theorem slot_fires_once l :
  let w := history l (mk_world empty_db [] 0) in
  (forall e, e ∈ sent w -> exists r, r ∈ cron_executions (db w) /\ col_exec_id r = execution_id e) /\
  (forall i j e f r s,
     sent w !! i = Some e -> sent w !! j = Some f ->
     r ∈ cron_executions (db w) -> s ∈ cron_executions (db w) ->
     col_exec_id r = execution_id e -> col_exec_id s = execution_id f ->
     slot_key r = slot_key s -> i = j).
Proof.
  intros w. assert (Hw : accounted w).
  { apply history_accounted. split; [split; apply NoDup_nil_2 | by split; [apply NoDup_nil_2|]]. }
  destruct Hw as ([Hids Hslots] & Hn & Hsub). split.
  - intros e He. assert (Hi : execution_id e ∈ sent_ids w) by by apply list_elem_of_fmap_2.
    apply Hsub, list_elem_of_fmap in Hi as (r & ? & ?). eauto.
  - intros i j e f r s He Hf Hr Hs Er Es Hk.
    assert (r = s) as <-.
    { apply list_elem_of_lookup in Hr as [a Ha], Hs as [b Hb].
      assert (a = b) as <-; [|congruence].
      apply (NoDup_lookup (slots (db w)) a b (slot_key s)); [done | |];
        unfold slots; rewrite list_lookup_fmap.
      - by rewrite Ha, <- Hk.
      - by rewrite Hb. }
    apply (NoDup_lookup (sent_ids w) i j (execution_id f)); [done | |]; unfold sent_ids; rewrite list_lookup_fmap.
    + rewrite He. cbn. congruence.
    + by rewrite Hf.
Qed.
End Slots.

(** ** A stop wins over the fire it races with *)
Section Overtaken.
Context {O : Outside}.

(** [t] does not write the row of job [k]. *)
Definition spares (k : string) (t : Tx) : Prop :=
  match t with
  | TxCreate j | TxSave j | TxSaveIf j _ | TxFire j _ => id j <> k
  | TxPin i _ | TxDeleted i _ => i <> k
  | TxRecord _ _ | TxStatus _ _ | TxCompletion _ _ _ | TxNotified _ _ _ => True
  end.
Lemma spares_row k t d : spares k t -> cron_jobs (run_tx t d) !! k = cron_jobs d !! k.
Proof.
  destruct t; cbn -[stamped]; intros H; try done.
  - unfold create. destruct (_ !! id _); [done | by apply lookup_insert_ne].
  - unfold save. destruct (_ !! id _); [by apply lookup_insert_ne | done].
  - unfold save_if_unchanged. destruct (_ !! id _); [|done]. destruct (negb _); [done|].
    rewrite job_from_blob. destruct (negb _); [done | by apply lookup_insert_ne].
  - unfold record_fire. destruct (_ !! id _); [|done]. destruct (negb _); [done|].
    rewrite job_from_blob. by apply lookup_insert_ne.
  - unfold set_pinned. destruct (_ !! job_id); [by apply lookup_insert_ne | done].
  - unfold write_deleted_at. destruct (_ !! job_id); [by apply lookup_insert_ne | done].
  - unfold record_execution_if_job_unchanged. destruct (_ !! exec_job_id e); [|done].
    destruct (negb _); [done|]. rewrite job_from_blob. destruct (negb _); [done|].
    by destruct (insert_or_ignore _ _).
Qed.

(** The row has moved on from the snapshot: gone, deleted, rescheduled, paused
    or edited. *)
Definition overtaken (job : CronJob) (row : option JobRow) : bool :=
  match row with
  | None => true
  | Some r => negb (unmoved job r) || negb (updated_at (col_data r) =? updated_at job)%Z
  end.

(** Job [k]'s row is [row] and the channel holds [s]. *)
Definition still (k : string) (row : option JobRow) (s : list CronTriggerEvent) (w : World) : Prop :=
  cron_jobs (db w) !! k = row /\ sent w = s.
Lemma still_stable k row s : stable (spares k) (still k row s).
Proof. split; [|done]. intros w t Ht [Hr Hs]. split; [by cbn; rewrite spares_row | done]. Qed.
Lemma sent_stable s : stable (fun _ => True) (fun w => sent w = s).
Proof. by split. Qed.

(** A call that answers from the row as it stands, and leaves it. *)
Lemma call_still {R} k row s (f : Db -> Db * result R StorageError) (Q : result R StorageError -> Prop) w :
  polite (spares k) ->
  (forall d, cron_jobs d !! k = row -> cron_jobs (f d).1 !! k = row /\ Q (f d).2) ->
  (forall e, Q (Err e)) ->
  still k row s w -> wp (call f) (fun r w' => still k row s w' /\ Q r) w.
Proof.
  intros HM Hf He Hw. apply (meddled _ _ (still_stable k row s) HM w (used w)) in Hw as [Hr Hs].
  unfold wp, call. cbn in Hr, Hs. destruct (Hf _ Hr) as [H1 H2].
  destruct (fault _) as [[took e]|]; cbn.
  - split; [split; [by destruct took | done] | apply He].
  - destruct (f _) as [d r]. by repeat split.
Qed.
Lemma stored_still {R} k row s (f : Db -> Db * result R StorageError) (bad : R -> Prop) w :
  polite (spares k) ->
  (forall d, cron_jobs d !! k = row ->
     cron_jobs (f d).1 !! k = row /\ forall a, (f d).2 = Ok a -> ~ bad a) ->
  still k row s w -> wp (stored f) (fun r w' => still k row s w' /\ forall a, r = Ok a -> ~ bad a) w.
Proof.
  intros HM Hf Hw.
  pose proof (call_still k row s f (fun r => forall a, r = Ok a -> ~ bad a) w HM Hf ltac:(done) Hw) as [H1 H2].
  unfold wp, stored, map_error in *. destruct (call f w) as [w' [a|e]]; cbn in *; split; try done.
  intros a' [= <-]. by apply H2.
Qed.

Lemma overtaken_not_recorded e job row d :
  exec_job_id e = id job -> overtaken job row = true -> cron_jobs d !! id job = row ->
  record_execution_if_job_unchanged e job d = (d, Ok false).
Proof.
  intros He Ho Hr. unfold record_execution_if_job_unchanged. rewrite He, Hr.
  destruct row as [r|]; [|done]. cbn in Ho. destruct (unmoved job r); [|done]. cbn in *.
  by rewrite Ho.
Qed.
Lemma moved_not_stamped f job row d :
  (forall r, row = Some r -> unmoved job r = false) -> cron_jobs d !! id job = row ->
  (record_fire job f d).1 = d.
Proof.
  intros Hm Hr. unfold record_fire. rewrite Hr. destruct row as [r|]; [|done]. by rewrite Hm.
Qed.
Lemma write_back_still f job row s :
  polite (spares (id job)) -> (forall r, row = Some r -> unmoved job r = false) ->
  keeps (still (id job) row s) (write_back job f).
Proof.
  intros HM Hm w Hw. unfold write_back.
  enough (wp (attempt (stored (record_fire job f))) (fun _ w' => still (id job) row s w') w) as H.
  { unfold wp in H. unfold bind. by destruct (attempt _ _) as [w' [a|e]]. }
  apply wp_attempt. eapply wp_mono; [apply (stored_still (id job) row s _ (fun _ => False)); [done| |done]|].
  - intros d Hd. split; [by rewrite (moved_not_stamped f job row) | naive_solver].
  - by intros r w' [H _].
Qed.

(** What is left of a stale fire. *)
Definition yielded (job : CronJob) (row : option JobRow) (s : list CronTriggerEvent) (w : World) : Prop :=
  sent w = s /\ (forall r, row = Some r -> unmoved job r = false -> cron_jobs (db w) !! id job = Some r).
Lemma still_yields job row s w : still (id job) row s w -> yielded job row s w.
Proof. intros [Hr Hs]. split; [done | congruence]. Qed.
Lemma advance_yields now job row s w : polite (spares (id job)) -> still (id job) row s w ->
  yielded job row s (advance_recurring job now w).1.
Proof.
  intros HM Hw. split.
  - apply (advance_keeps (fun v => sent v = s) (sent_stable _)), Hw.
  - intros r Hr Hmv. rewrite <- Hr. apply (write_back_still _ job row s); [done | | done].
    intros r' Hr'. congruence.
Qed.

(** C22: a tick works from the rows it read at its start.  When one has since
    been deleted, paused, rescheduled or edited, and the others then leave the
    row alone while the tick is at it, firing it sends nothing; and when its
    status or slot moved, or it is in the bin, its row is left exactly as the
    other writer put it, so the stale fire neither revives nor re-arms it.  An
    edit that moved neither may still have its slot stamped, when that slot was
    recorded before ([CronStore.Sample.stale_fire_lands]). *)
Theorem stop_beats_fire (now : Time) (job : CronJob) (w : World) :
  polite (spares (id job)) ->
  overtaken job (cron_jobs (db w) !! id job) = true ->
  sent (fire_due now job w).1 = sent w /\
  (forall r, cron_jobs (db w) !! id job = Some r -> unmoved job r = false ->
     cron_jobs (db (fire_due now job w).1) !! id job = Some r).
Proof.
  intros HM Ho. set (row := cron_jobs (db w) !! id job) in *.
  assert (Hw : still (id job) row (sent w) w) by done.
  pose proof (still_stable (id job) row (sent w)) as HP.
  change (wp (fire_due now job) (fun _ w' => yielded job row (sent w) w') w). unfold fire_due.
  destruct (next_trigger_at job) as [slot|]; [|by apply still_yields].
  assert (Hk := stored_keeps _ _ HP HM (has_execution_for_schedule (id job) (to_us slot)) ltac:(by_tx_auto)).
  apply wp_bind, wp_attempt. eapply wp_mono; [apply (wp_keeps _ _ _ Hk Hw)|].
  intros [[]|err] w1 Hw1; [by apply advance_yields | | by apply still_yields].
  apply wp_bind. eapply wp_mono; [apply (wp_keeps _ _ _ (new_uuid_keeps _ _ HP) Hw1)|].
  intros [i|err] w2 Hw2; [|by apply still_yields].
  apply wp_bind, wp_attempt. eapply wp_mono.
  - apply (stored_still (id job) row (sent w) _ (fun b => b = true)); [done | | done].
    intros d Hd. rewrite (overtaken_not_recorded _ _ row) by done. split; [done | by intros ? [= <-]].
  - intros [[]|err] w3 [Hw3 Hb]; [by destruct (Hb true) | by apply still_yields..].
Qed.
End Overtaken.

(** ** Runs that nothing disturbs *)
Section Calm.
Context {O : Outside}.

(** Nobody else writes, no call fails and the channel is open. *)
Definition calm : Prop := forall n, meddle n = [] /\ fault n = None /\ closed n = None.

Definition stepped (d : Db) (s : list CronTriggerEvent) (w : World) : World := mk_world d s (S (used w)).

Hypothesis Hcalm : calm.

Lemma call_calm {A} (f : Db -> Db * result A StorageError) w :
  call f w = (stepped (f (db w)).1 (sent w) w, (f (db w)).2).
Proof using Hcalm.
  unfold call. destruct (Hcalm (used w)) as (-> & -> & _). cbn. by destruct (f (db w)).
Qed.
Lemma stored_calm {A} (f : Db -> Db * result A StorageError) w :
  stored f w = (stepped (f (db w)).1 (sent w) w,
                match (f (db w)).2 with Ok a => Ok a | Err e => Err (from_storage e) end).
Proof using Hcalm. unfold stored, map_error. by rewrite call_calm. Qed.
Lemma send_calm e w : send e w = (stepped (db w) (sent w ++ [e]) w, Ok tt).
Proof using Hcalm. unfold send. by destruct (Hcalm (used w)) as (_ & _ & ->). Qed.

Lemma dispatch_calm e w :
  exists n, (dispatch e w).1 =
    mk_world (update_execution_status (exec_id e) Dispatched (db w)).1 (sent w ++ [for_execution e]) n.
Proof using Hcalm.
  unfold dispatch, bind, attempt, map_error. rewrite send_calm. cbn [stepped].
  rewrite stored_calm. cbn. eauto.
Qed.
Lemma dispatch_ok e w : (dispatch e w).2 = Ok tt.
Proof using Hcalm. unfold dispatch, bind, attempt, map_error. rewrite send_calm. cbn [stepped]. by rewrite stored_calm. Qed.

(** *** A due job *)

Definition fire_of (job : CronJob) (now : Time) : CronFire :=
  if is_one_shot job then mk_fire Executed None now now
  else mk_fire (status job) (compute_next_trigger (schedule job) (parse_timezone_or_utc (timezone job)) now) now now.

Lemma write_back_calm job f r w :
  cron_jobs (db w) !! id job = Some r -> unmoved job r = true ->
  exists r' n, write_back job f w = (mk_world (set_jobs (<[id job := r']> (cron_jobs (db w))) (db w)) (sent w) n, Ok tt)
    /\ col_data r' = serialize_job (stamped f (serialize_job (col_data r))).
Proof using Hcalm.
  intros Hr Hu. unfold write_back, bind, attempt. rewrite stored_calm. unfold record_fire.
  rewrite Hr, Hu. cbn -[stamped]. eexists _, _. split; [reflexivity|]. done.
Qed.
Lemma insert_fresh r l :
  (col_exec_id r ∉ map col_exec_id l) -> existsb (same_slot (col_job_id r) (col_slot r)) l = false ->
  insert_or_ignore r l = Some (l ++ [r]).
Proof.
  intros Hi Hs. unfold insert_or_ignore.
  match goal with |- context [existsb ?p l] => destruct (existsb p l) eqn:E end; [|done]. exfalso.
  apply existsb_exists in E as (x & Hx & [He | He]%orb_true_iff).
  - apply Hi, list_elem_of_fmap. exists x. apply String.eqb_eq in He. split; [done | by apply list_elem_of_In].
  - rewrite <- not_true_iff_false, existsb_exists in Hs. apply Hs. eauto.
Qed.
Lemma update_last i f r l :
  (i ∉ map col_exec_id l) -> col_exec_id r = i -> update_execution i f (l ++ [r]) = l ++ [f r].
Proof.
  intros Hi Hr. unfold update_execution. rewrite map_app. cbn. rewrite Hr, String.eqb_refl. f_equal.
  induction l as [|x l IH]; [done|]. cbn in *. apply not_elem_of_cons in Hi as [Hne Hi].
  rewrite (proj2 (String.eqb_neq _ _)) by done. f_equal. by apply IH.
Qed.
Lemma decoded_live r job : decode_row r = Ok job -> col_deleted_at r = None -> 
  id job = id (col_data r) /\ serialize_job (col_data r) = serialize_job job /\
  updated_at (col_data r) = updated_at job /\ status (col_data r) = status job /\
  next_trigger_at (col_data r) = next_trigger_at job.
Proof. intros Hd Hn. unfold decode_row in Hd. rewrite Hn in Hd. by injection Hd as <-. Qed.

(** A due job fires.  When nothing disturbs the tick, a live row read as
    [job] with a slot no execution records gets exactly one new execution, of
    that slot and the job as it stands, which ends dispatched, and exactly one
    event; the job is stamped with the instant of the fire, and is either spent
    (a one-shot) or armed strictly later (a recurring one that has a next
    time); what its owner wrote is untouched. *)
Theorem due_job_fires (L : CronLaws O) (now slot : Time) (job : CronJob) (r : JobRow) (w : World) :
  jobs_ok (db w) -> cron_jobs (db w) !! id job = Some r -> col_deleted_at r = None ->
  decode_row r = Ok job -> next_trigger_at job = Some slot ->
  existsb (same_slot (id job) (to_us slot)) (cron_executions (db w)) = false ->
  (forall n, uuid n ∉ execution_ids (db w)) ->
  exists w' x r', fire_due now job w = (w', Ok tt)
    /\ x = pending (exec_id x) job slot now
    /\ sent w' = sent w ++ [for_execution x]
    /\ cron_executions (db w') = cron_executions (db w) ++ [with_col_status "dispatched" (exec_row x)]
    /\ cron_jobs (db w') = <[id job := r']> (cron_jobs (db w))
    /\ last_triggered_at (col_data r') = Some now
    /\ authored (col_data r') = authored job
    /\ match schedule job with
       | At _ => status (col_data r') = Executed /\ next_trigger_at (col_data r') = None
       | Cron _ => status (col_data r') = status job /\
                   forall t, next_trigger_at (col_data r') = Some t -> (now < t)%Z
       end.
Proof using Hcalm.
  intros Hok Hr Hlive Hdec Hslot Hfresh Huuid.
  destruct (Hok _ _ Hr) as (Hid & _ & Hst & Hnx & _).
  destruct (decoded_live r job Hdec Hlive) as (_ & Hser & Hup & Hstd & Hnxd).
  assert (Hu : unmoved job r = true).
  { unfold unmoved. rewrite Hst, Hnx, Hlive. unfold next_us. by rewrite Hstd, Hnxd, String.eqb_refl, Z.eqb_refl. }
  set (x := pending (uuid (S (used w))) job slot now).
  unfold fire_due. rewrite Hslot. unfold bind at 1, attempt at 1. rewrite stored_calm. cbn.
  rewrite Hfresh. unfold bind at 1, attempt at 1. cbn. fold x. unfold bind at 1. rewrite stored_calm. cbn [db stepped].
  unfold record_execution_if_job_unchanged. change (exec_job_id x) with (id job). rewrite Hr, Hu. cbn [negb].
  rewrite job_from_blob. change (updated_at (serialize_job (col_data r))) with (updated_at (col_data r)).
  rewrite Hup, Z.eqb_refl. cbn [negb].
  rewrite insert_fresh; [|apply Huuid|exact Hfresh]. cbn [fst snd].
  match goal with |- context [bind (if is_one_shot job then _ else _) _ ?v] => set (w1 := v) end.
  assert (Hwb : exists r' n, (if is_one_shot job then mark_one_shot_executed job now else advance_recurring job now) w1
    = (mk_world (set_jobs (<[id job := r']> (cron_jobs (db w1))) (db w1)) (sent w1) n, Ok tt)
    /\ col_data r' = serialize_job (stamped (fire_of job now) (serialize_job (col_data r)))).
  { unfold fire_of. destruct (is_one_shot job); by apply (write_back_calm job _ r). }
  destruct Hwb as (r' & n & E & Hr'). unfold bind at 1. rewrite E.
  match goal with |- context [dispatch x ?v] => destruct (dispatch_calm x v) as [m Hd]; pose proof (dispatch_ok x v) as Ho end.
  destruct (dispatch x _) as [w' res]. cbn in Hd, Ho. subst res.
  exists w', x, r'. rewrite Hd, Hr', Hser. cbn. split_and!; try done.
  - exact (update_last (exec_id x) (with_col_status "dispatched") (exec_row x) _ (Huuid _) eq_refl).
  - unfold fire_of. by destruct (is_one_shot job).
  - unfold fire_of, is_one_shot. destruct (schedule job); cbn; [split; [done|] | done].
    intros t. unfold compute_next_trigger. destruct (parse_expression _); [|done]. apply L.
Qed.
End Calm.

(** ** Recovery after a restart *)
Section Recovery.
Context {O : Outside} (Hcalm : calm).

Definition is_live (d : Db) (job_id : string) : bool :=
  match cron_jobs d !! job_id with Some r => live_only r | None => false end.
Definition decodable (d : Db) : Prop := map_Forall (fun _ r => is_Ok (decode_row r) = true) (cron_jobs d).
(** The columns of an execution name what its blob names. *)
Definition execution_ok (r : ExecutionRow) : Prop :=
  exec_id (col_exec_data r) = col_exec_id r /\ exec_job_id (col_exec_data r) = col_job_id r.
Definition pending_rows (d : Db) : list ExecutionRow :=
  List.filter (fun r => String.eqb (col_exec_status r) "pending") (cron_executions d).

Lemma update_calm i w :
  exists n, attempt (stored (update_execution_status i Dispatched)) w
    = (mk_world (update_execution_status i Dispatched (db w)).1 (sent w) n,
       Ok (match (update_execution_status i Dispatched (db w)).2 with
           | Ok a => Ok a | Err e => Err (from_storage e) end)).
Proof using Hcalm. unfold attempt. rewrite stored_calm by done. eauto. Qed.
Lemma recover_one_calm e w :
  decodable (db w) ->
  exists n, recover_one e w =
    (mk_world (update_execution_status (exec_id e) Dispatched (db w)).1
       (sent w ++ if is_live (db w) (exec_job_id e) then [for_execution e] else []) n, Ok tt).
Proof using Hcalm.
  intros Hd. unfold recover_one, is_live, bind at 1, attempt at 1. rewrite stored_calm by done.
  unfold get. destruct (cron_jobs (db w) !! exec_job_id e) as [r|] eqn:E; cbn [fst snd].
  - pose proof (Hd _ _ E) as Hok. unfold live_only.
    assert (exists j, decode_row r = Ok j /\ is_deleted j = is_some (col_deleted_at r)) as (j & Hj & Hdel).
    { cbn in Hok. revert Hok. unfold decode_row, job_from_row. destruct (col_deleted_at r); [|eauto].
      destruct (from_us _); [eauto | done]. }
    rewrite Hj. cbn [result_bind]. rewrite Hdel. destruct (negb _).
    + match goal with |- context [dispatch e ?v] =>
        destruct (dispatch_calm Hcalm e v) as [m Hm]; pose proof (dispatch_ok Hcalm e v) as Ho end.
      destruct (dispatch e _) as [w' res]. cbn in Hm, Ho. subst. eauto.
    + rewrite app_nil_r. unfold bind. match goal with |- context [attempt _ ?v] =>
        destruct (update_calm (exec_id e) v) as [m ->] end. eauto.
  - rewrite app_nil_r. unfold bind. match goal with |- context [attempt _ ?v] =>
      destruct (update_calm (exec_id e) v) as [m ->] end. eauto.
Qed.

Definition retire (ids : list string) (r : ExecutionRow) : ExecutionRow :=
  if existsb (String.eqb (col_exec_id r)) ids then with_col_status "dispatched" r else r.
Lemma retire_cons i ids r :
  retire ids (if String.eqb (col_exec_id r) i then with_col_status "dispatched" r else r) = retire (i :: ids) r.
Proof.
  unfold retire. cbn [existsb]. destruct (String.eqb (col_exec_id r) i); [|done]. cbn.
  by destruct (existsb _ ids).
Qed.
Lemma recover_each_calm l w :
  decodable (db w) ->
  exists n, each recover_one l w =
    (mk_world (set_executions (map (retire (map exec_id l)) (cron_executions (db w))) (db w))
       (sent w ++ map for_execution (List.filter (fun e => is_live (db w) (exec_job_id e)) l)) n, Ok tt).
Proof using Hcalm.
  revert w; induction l as [|e l IH]; intros w Hd; cbn [each map].
  { exists (used w). cbn. rewrite app_nil_r. destruct w as [[jobs xs] s n]. cbn.
    unfold ret, set_executions. cbn. by rewrite map_id. }
  unfold bind. destruct (recover_one_calm e w Hd) as [n ->].
  edestruct IH as [m ->]; [exact Hd|]. exists m. cbn. f_equal. f_equal.
  - unfold set_executions. cbn. f_equal. unfold update_execution. rewrite map_map.
    apply map_ext. intros r. apply retire_cons.
  - cbn [List.filter]. unfold is_live. cbn. fold (is_live (db w) (exec_job_id e)).
    rewrite <- app_assoc. by destruct (is_live (db w) (exec_job_id e)).
Qed.

Abbreviation is_pending := (fun r => String.eqb (col_exec_status r) "pending").
Lemma retire_settles l : List.filter is_pending (map (retire (map col_exec_id (List.filter is_pending l))) l) = [].
Proof.
  destruct (List.filter _ (map _ l)) as [|r l0] eqn:E; [done | exfalso].
  assert (Hr : In r (r :: l0)) by by left. rewrite <- E in Hr. clear E.
  apply List.filter_In in Hr as [Hr Hp]. apply in_map_iff in Hr as (r0 & <- & Hr0).
  unfold retire in Hp. destruct (existsb _ _) eqn:Hex; [done|].
  rewrite <- not_true_iff_false, existsb_exists in Hex. apply Hex. exists (col_exec_id r0).
  split; [|apply String.eqb_refl]. apply in_map. apply List.filter_In. done.
Qed.
Lemma decoded_ids l :
  Forall execution_ok l -> map exec_id (decode_executions l) = map col_exec_id l.
Proof. unfold decode_executions. induction 1 as [|r l [Hi _] _ IH]; [done|]. cbn. by rewrite IH, Hi. Qed.
Lemma sent_live d l :
  Forall execution_ok l ->
  map execution_id (map for_execution (List.filter (fun e => is_live d (exec_job_id e)) (decode_executions l)))
  = map col_exec_id (List.filter (fun r => is_live d (col_job_id r)) l).
Proof.
  unfold decode_executions. induction 1 as [|r l [Hi Hj] _ IH]; [done|]. cbn [map List.filter].
  change (exec_job_id (execution_from_row (col_exec_status r) (col_exec_data r))) with (exec_job_id (col_exec_data r)).
  rewrite Hj. destruct (is_live d (col_job_id r)); [|exact IH]. cbn [map]. rewrite IH. cbn. by rewrite Hi.
Qed.
Lemma pending_ok d : Forall execution_ok (cron_executions d) -> Forall execution_ok (pending_rows d).
Proof.
  intros Hx. apply Forall_forall. intros r Hr%list_elem_of_In%List.filter_In.
  apply (proj1 (Forall_forall _ _) Hx). apply list_elem_of_In, Hr.
Qed.

(** Recovery settles every pending fire.  After a restart that nothing
    disturbs, no execution is left pending; exactly the pending ones whose job
    is still there and not in the recycle bin are sent, once each and in
    order, the others are retired without an event, and no job row changes. *)
Theorem recovery_settles (w : World) :
  decodable (db w) -> Forall execution_ok (cron_executions (db w)) ->
  exists w', recover_pending w = (w', Ok tt)
    /\ pending_rows (db w') = []
    /\ cron_jobs (db w') = cron_jobs (db w)
    /\ map execution_id (sent w') = map execution_id (sent w)
         ++ map col_exec_id (List.filter (fun r => is_live (db w) (col_job_id r)) (pending_rows (db w))).
Proof using Hcalm.
  intros Hd Hx. apply pending_ok in Hx. unfold recover_pending, bind, attempt. rewrite stored_calm by done. cbn.
  match goal with |- context [each recover_one _ ?v] =>
    destruct (recover_each_calm (decode_executions (pending_rows (db w))) v Hd) as [n E] end.
  unfold pending_rows in E at 1. cbn in E. change (execution_status_str Pending) with "pending". rewrite E.
  eexists. split; [done|]. cbn. split_and!; [|done|].
  - unfold pending_rows at 1. cbn. rewrite decoded_ids by done. apply retire_settles.
  - rewrite map_app. f_equal. by apply sent_live.
Qed.
End Recovery.

(** ** Edits and restores *)
Section Edits.
Context {O : Outside}.

Lemma call_ok {A} (f : Db -> Db * result A StorageError) w w' a :
  call f w = (w', Ok a) ->
  let d := run_txs (meddle (used w)) (db w) in db w' = (f d).1 /\ (f d).2 = Ok a /\ sent w' = sent w.
Proof. unfold call. destruct (fault _) as [[? ?]|]; [done|]. destruct (f _) as [d r]. by intros [= <- ->]. Qed.
Lemma stored_ok {A} (f : Db -> Db * result A StorageError) w w' a :
  stored f w = (w', Ok a) ->
  let d := run_txs (meddle (used w)) (db w) in db w' = (f d).1 /\ (f d).2 = Ok a /\ sent w' = sent w.
Proof.
  unfold stored, map_error. intros H. apply call_ok.
  destruct (call f w) as [w1 [b|e]]; [|done]. by injection H as -> ->.
Qed.
Lemma stored_used {A} (f : Db -> Db * result A StorageError) w w' a : stored f w = (w', Ok a) -> used w' = S (used w).
Proof.
  unfold stored, map_error, call. destruct (fault _) as [[? ?]|]; [done|]. destruct (f _) as [d [x|e]]; by intros [= <- _].
Qed.
Lemma bind_ok {A B} (m : M World CronError A) (k : A -> M World CronError B) w w' b :
  bind m k w = (w', Ok b) -> exists w1 a, m w = (w1, Ok a) /\ k a w1 = (w', Ok b).
Proof. unfold bind. destruct (m w) as [w1 [a|e]]; [eauto | done]. Qed.
Lemma map_error_ok {E A} (f : E -> CronError) (m : M World E A) w w' a :
  map_error f m w = (w', Ok a) -> m w = (w', Ok a).
Proof. unfold map_error. destruct (m w) as [w1 [b|e]]; [|done]. by intros [= -> ->]. Qed.

Lemma meddled_jobs_ok w n : jobs_ok (db w) -> jobs_ok (run_txs (meddle n) (db w)).
Proof. intros H. apply run_txs_keeps; [|done]. intros t d _. apply tx_jobs_ok. Qed.
Lemma meddled_row k w n : polite (spares k) -> cron_jobs (run_txs (meddle n) (db w)) !! k = cron_jobs (db w) !! k.
Proof.
  intros HM. apply (run_txs_keeps (fun d => cron_jobs d !! k = cron_jobs (db w) !! k)); [|done].
  intros t d Ht <-. apply spares_row. by apply (proj1 (Forall_forall _ _) (HM n)).
Qed.
Lemma decode_id r j : decode_row r = Ok j -> id j = id (col_data r).
Proof.
  unfold decode_row, job_from_row. destruct (col_deleted_at r); [destruct (from_us _)|]; by intros [= <-].
Qed.

Lemma live_job_ok i w w' j :
  jobs_ok (db w) -> live_job i w = (w', Ok j) ->
  db w' = run_txs (meddle (used w)) (db w) /\ used w' = S (used w) /\
  exists r, cron_jobs (db w') !! i = Some r /\ decode_row r = Ok j /\ col_deleted_at r = None /\ id j = i.
Proof.
  intros Hok H. unfold live_job in H. apply bind_ok in H as (w1 & got & H1 & H2).
  pose proof (stored_used _ _ _ _ H1) as Hn. apply stored_ok in H1 as (Hdb & Hget & _). cbn in Hdb, Hget.
  pose proof (meddled_jobs_ok w (used w) Hok) as Hok1. rewrite <- Hdb in Hok1, Hget.
  destruct (cron_jobs (db w1) !! i) as [r|] eqn:E; [|by injection Hget as <-].
  destruct (decode_row r) as [j'|] eqn:Er; [|done]. injection Hget as <-.
  destruct (is_deleted j') eqn:Ed; [done|]. injection H2 as <- <-. split_and!; [done..|]. exists r.
  split_and!; [done | done | | rewrite (decode_id _ _ Er); apply (Hok1 _ _ E)].
  revert Er Ed. unfold decode_row, job_from_row. destruct (col_deleted_at r); [|done].
  destruct (from_us _); [|done]. by intros [= <-].
Qed.

(** What the [k]th attempt of an edit reads: what the others wrote before each
    of its calls so far, and nothing of its own; an attempt has three answers
    of the world. *)
Fixpoint read_by (n k : nat) (d : Db) : Db :=
  match k with
  | 0 => run_txs (meddle n) d
  | S k => read_by (3 + n) k (run_txs (meddle (2 + n)) (run_txs (meddle n) d))
  end.
(** The tables the [k]th attempt reads and the ones its write finds. *)
Definition at_read (w : World) (k : nat) : Db := read_by (used w) k (db w).
Definition at_write (w : World) (k : nat) : Db := run_txs (meddle (2 + (3 * k + used w))) (at_read w k).

(** [r0] is the row an attempt read, [r] the row its write found. *)
Definition landed (i : string) (change : CronJob -> Time -> result CronJob CronError) (j : CronJob) (k : nat) (w w' : World)
    : Prop :=
  exists r0 r current changed,
    cron_jobs (at_read w k) !! i = Some r0 /\ decode_row r0 = Ok current /\ col_deleted_at r0 = None
    /\ change current (clock (1 + (3 * k + used w))) = Ok changed
    /\ cron_jobs (at_write w k) !! i = Some r
    /\ unmoved current r = true /\ updated_at (col_data r) = updated_at current
    /\ j = with_version (Z.max (clock (1 + (3 * k + used w))) (updated_at current + MICROSECOND)) changed
    /\ cron_jobs (db w') = <[i := rewritten j r]> (cron_jobs (at_write w k)).

Lemma read_jobs_ok k w : jobs_ok (db w) -> jobs_ok (at_read w k).
Proof.
  assert (forall n d, jobs_ok d -> jobs_ok (run_txs (meddle n) d)) as Hm.
  { intros n d. apply run_txs_keeps. intros t e _. apply tx_jobs_ok. }
  unfold at_read. generalize (used w) (db w). induction k as [|k IH]; intros n d H; cbn [read_by]; auto.
Qed.
(** What lands at a later attempt, seen from the first. *)
Lemma edit_later n i change w w3 w' j :
  used w3 = 3 + used w -> db w3 = run_txs (meddle (2 + used w)) (run_txs (meddle (used w)) (db w)) ->
  (exists k, k < n /\ landed i change j k w3 w') -> exists k, k < S n /\ landed i change j k w w'.
Proof.
  intros Hn Hd (k & Hk & H). exists (S k). split; [lia|]. revert H. unfold landed, at_write, at_read. cbn [read_by].
  rewrite Hn, Hd. replace (3 * S k + used w) with (3 * k + (3 + used w)) by lia. done.
Qed.
Lemma edit_lands_go n i change w w' j :
  jobs_ok (db w) -> (forall c now c', change c now = Ok c' -> id c' = id c) ->
  edit_attempts n i change w = (w', Ok j) -> exists k, k < n /\ landed i change j k w w'.
Proof.
  intros Hok Hid. revert w Hok; induction n as [|n IH]; intros w Hok H; [done|]. cbn in H.
  apply bind_ok in H as (w1 & current & H1 & H).
  apply live_job_ok in H1 as (Hdb1 & Hn1 & r0 & Hr0 & Hdec & Hlive & Hc); [|done].
  apply bind_ok in H as (w2 & now & H2 & H). injection H2 as <- <-.
  apply bind_ok in H as (w2 & changed & H2 & H). injection H2 as <- Hch.
  apply bind_ok in H as (w3 & won & H3 & H). pose proof (stored_used _ _ _ _ H3) as Hn3.
  apply stored_ok in H3 as (Hdb & Hr & _). cbn [db used] in Hdb, Hr, Hn3. rewrite Hn1, Hdb1 in *.
  set (d := run_txs (meddle (S (S (used w)))) _) in *. set (j' := with_version _ _) in *.
  assert (Hj' : id j' = i) by (rewrite <- Hc; apply (Hid _ _ _ Hch)).
  assert (Hokd : jobs_ok d).
  { apply run_txs_keeps; [intros t e _; apply tx_jobs_ok | by apply (meddled_jobs_ok w)]. }
  revert Hdb Hr. unfold save_if_unchanged. rewrite Hj'.
  destruct (cron_jobs d !! i) as [r|] eqn:E; [destruct (unmoved current r) eqn:Hu; cbn [negb];
    [rewrite job_from_blob; change (updated_at (serialize_job (col_data r))) with (updated_at (col_data r));
     destruct (Z.eqb_spec (updated_at (col_data r)) (updated_at current)) as [Hv|]; cbn [negb fst snd]|]|];
    cbn [fst snd]; intros Hdb [= <-].
  - injection H as <- <-. exists 0. split; [lia|]. exists r0, r, current, changed. unfold at_write, at_read. cbn [read_by Nat.add Nat.mul].
    rewrite Hdb. by split_and!.
  - apply (edit_later n i change w w3); [done | done|]. by apply IH; [rewrite Hdb|].
  - apply (edit_later n i change w w3); [done | done|]. by apply IH; [rewrite Hdb|].
  - apply (edit_later n i change w w3); [done | done|]. by apply IH; [rewrite Hdb|].
Qed.

(** C23: an edit that reports success loses nobody's write.  Whoever else writes
    the tables before each of its calls, the job it returns is the change
    applied, at the instant of the clock, to the row one of its three attempts
    read, when nobody but the others had written; the row its write found was
    still that one in status, slot and version, and live both times; the job's
    new version is strictly above the old one whatever the clock says; and the
    write left every other row, the place in the bin, the pin and the ownership
    as they stood at that moment. *)
Theorem edit_lands (i : string) (change : CronJob -> Time -> result CronJob CronError) (w w' : World) (j : CronJob) :
  jobs_ok (db w) -> (forall c now c', change c now = Ok c' -> id c' = id c) ->
  edit_in_place i change w = (w', Ok j) ->
  exists k r0 r changed, k < 3
    /\ cron_jobs (at_read w k) !! i = Some r0 /\ cron_jobs (at_write w k) !! i = Some r
    /\ (exists current, decode_row r0 = Ok current /\ change current (clock (1 + (3 * k + used w))) = Ok changed)
    /\ (col_status r, col_next_trigger_at r, updated_at (col_data r))
       = (col_status r0, col_next_trigger_at r0, updated_at (col_data r0))
    /\ (col_deleted_at r0, col_deleted_at r) = (None, None)
    /\ j = with_version (updated_at j) changed /\ (updated_at (col_data r) < updated_at j)%Z
    /\ exists r', cron_jobs (db w') = <[i := r']> (cron_jobs (at_write w k)) /\ col_data r' = serialize_job j
         /\ (col_deleted_at r', col_pinned r', col_builtin r') = (None, col_pinned r, col_builtin r).
Proof.
  intros Hok Hid H.
  destruct (edit_lands_go _ _ _ _ _ _ Hok Hid H) as (k & Hk & r0 & r & c & ch & E0 & Hd & H0 & Hch & E & Hu & Hv & Hj & Hw).
  assert (row_ok i r0) as (_ & _ & Hst & Hnx & _) by (eapply (read_jobs_ok k); [exact Hok | exact E0]).
  exists k, r0, r, ch. revert Hd. unfold decode_row, job_from_row. rewrite H0. intros [= Ec].
  assert (col_deleted_at r = None /\ col_status r = as_str (status c) /\ col_next_trigger_at r = next_us c) as (H1 & H2 & H3).
  { unfold unmoved in Hu. rewrite !andb_true_iff, String.eqb_eq, Z.eqb_eq in Hu. destruct Hu as [[-> ->] Hu].
    by destruct (col_deleted_at r). }
  subst c. split_and!; try done.
  - by eexists.
  - by rewrite H2, H3, Hv, Hst, Hnx.
  - by rewrite H1.
  - by rewrite Hj.
  - rewrite Hj, Hv. cbn. unfold MICROSECOND. lia.
  - exists (rewritten j r). split_and!; [done..|]. cbn. by rewrite H1.
Qed.

(** A restored job never makes up for what it missed.  When [restore_job]
    reports success on a job in the bin that nobody else is writing, the row is
    live again with what its owner wrote; it is armed exactly when it comes back
    enabled, and then strictly after the instant of the restore; an enabled job
    with no fire time left comes back disabled, any other keeps its status. *)
Theorem restore_never_backfires (L : CronLaws O) (i : string) (w w' : World) (r : JobRow) (us : Z) :
  polite (spares i) -> jobs_ok (db w) -> cron_jobs (db w) !! i = Some r -> col_deleted_at r = Some us ->
  restore_job i w = (w', Ok tt) ->
  exists r', cron_jobs (db w') !! i = Some r' /\ col_deleted_at r' = None
    /\ authored (col_data r') = authored (col_data r)
    /\ (status (col_data r') = status (col_data r) \/
        status (col_data r) = Enabled /\ status (col_data r') = Disabled)
    /\ (status (col_data r') = Enabled <-> is_some (next_trigger_at (col_data r')) = true)
    /\ forall t, next_trigger_at (col_data r') = Some t -> (updated_at (col_data r') < t)%Z.
Proof.
  intros HM Hok Hr Hus H. unfold restore_job in H.
  apply bind_ok in H as (w1 & got & H1 & H). apply stored_ok in H1 as (Hdb1 & Hget & _). cbn in Hdb1, Hget.
  rewrite (meddled_row i) in Hget by done. rewrite Hr in Hget.
  assert (Hr1 : cron_jobs (db w1) !! i = Some r) by (rewrite Hdb1, meddled_row; done).
  destruct (decode_row r) as [j|] eqn:Ej; [|done]. injection Hget as <-.
  assert (Hj : serialize_job j = serialize_job (col_data r) /\ is_deleted j = true /\ id j = i).
  { pose proof (decode_id _ _ Ej) as Hi. destruct (Hok _ _ Hr) as (Hi' & _). revert Ej Hi.
    unfold decode_row, job_from_row. rewrite Hus. destruct (from_us us); [|done].
    intros [= <-] Hi. split_and!; [done..|]. by rewrite Hi. }
  destruct Hj as (Hser & Hdel & Hij). rewrite Hdel in H. cbn [negb] in H.
  apply bind_ok in H as (w2 & now & H2 & H). injection H2 as <- <-.
  apply bind_ok in H as (w3 & u & H3 & H). apply stored_ok in H3 as (Hdb3 & Hs & _). cbn [db used] in Hdb3, Hs.
  set (now := clock (used w1)) in *. set (j' := restored j now) in *.
  assert (Hi' : id j' = i) by done.
  unfold save in Hdb3, Hs. rewrite Hi', (meddled_row i), Hr1 in Hdb3 by done.
  assert (Hr3 : cron_jobs (db w3) !! i = Some (rewritten j' r)) by (rewrite Hdb3; apply lookup_insert_eq).
  apply map_error_ok in H. unfold store_restore in H.
  destruct (load_job i w3) as [w4 [j4|]] eqn:H4; [|by unfold bind in H; rewrite H4 in H].
  assert (Hr4 : cron_jobs (db w4) !! i = Some (rewritten j' r)).
  { unfold load_job, bind in H4. destruct (call (get i) w3) as [w4' [g|]] eqn:Hg; [|done].
    apply call_ok in Hg as (Hdb4 & _). assert (w4' = w4) as -> by by destruct g; injection H4.
    rewrite Hdb4. cbn. by rewrite meddled_row. }
  unfold bind in H. rewrite H4 in H. apply call_ok in H as (Hdb' & _).
  unfold write_deleted_at in Hdb'. rewrite (meddled_row i), Hr4 in Hdb' by done.
  eexists. split; [rewrite Hdb'; apply lookup_insert_eq|]. cbn [col_deleted_at col_data fmap option_fmap option_map].
  change (status (col_data r)) with (status (serialize_job (col_data r))).
  change (authored (col_data r)) with (authored (serialize_job (col_data r))). rewrite <- Hser.
  unfold j', restored. cbn.
  assert (Hlt : forall t, compute_next_trigger (schedule j) (parse_timezone_or_utc (timezone j)) now = Some t -> (now < t)%Z).
  { intros t. unfold compute_next_trigger. destruct (schedule j) as [e|t0]; [destruct (parse_expression _); [apply L | done]|].
    destruct (Z.ltb_spec now t0); [by intros [= <-] | done]. }
  destruct (compute_next_trigger _ _ _) as [t|]; destruct (status j); cbn; split_and!; try done; try (by left); try (by right);
    naive_solver.
Qed.
End Edits.

(** ** A sample world

    Sixty seconds pass between two answers; an expression is a period, and the
    only one that parses is a day. *)
Module Sample.
Import CronStore.Sample.

Definition day : positive := 86400000000000.
Definition world (m : nat -> list Tx) (f : nat -> option (bool * StorageError)) : Outside := {|
  sqlite := plain_sqlite;
  clock n := (Z.of_nat n * 60 * second)%Z;
  uuid n := ("x" +:+ pretty n)%string;
  meddle := m;
  fault := f;
  closed _ := None;
  Expression := positive;
  Tz := unit;
  parse_expression s := if String.eqb s "0 0 9 * * *" then Ok day else Err "bad expression";
  first_after p _ t := Some ((t / Zpos p + 1) * Zpos p)%Z;
  parse_tz s := if String.eqb s "UTC" then Ok tt else Err "unknown zone";
  UTC := tt;
  rfc3339 t := pretty t;
  rfc3339_in _ t := pretty t;
|}.
Definition quiet_world : Outside := world (fun _ => []) (fun _ => None).
(** Before the third and the sixth answer others write: a pin, a new job. *)
Definition other : CronJob :=
  mk_job "j2" "u2" "tui" "Other" (At (Zpos day)) "Go" "UTC" Enabled None (Some (Zpos day)) 0 0 None None None false false.
Definition busy_world : Outside :=
  world (fun n => match n with 2 => [TxPin "j1" true] | 6 => [TxCreate other] | _ => [] end) (fun _ => None).
Definition at_rest (d : Db) : World := mk_world d [] 0.

Lemma quiet_calm : calm (O := quiet_world).
Proof. done. Qed.
Lemma sample_later m f : CronLaws (world m f).
Proof. intros p z t u [= <-]. pose proof (Z.mul_succ_div_gt t (Zpos p)). lia. Qed.

(** A reminder at second 250, ticks at seconds 180, 300 and 780. *)
Definition tea : NewCronJob :=
  mk_new_job "u1" "tui" "Tea" (At (250 * second)) "Say that the tea is ready" "UTC" (Some "s1") None.
Definition tea_day : list Request := [RCreate tea; RTick; RTick; RTick].

Lemma slot_fires_once_witness :
  let w := history (O := busy_world) tea_day (at_rest empty_db) in
  map execution_id (sent w) = ["x8"] /\
  (forall e, e ∈ sent w -> exists r, r ∈ cron_executions (db w) /\ col_exec_id r = execution_id e).
Proof.
  split; [vm_compute; reflexivity | apply (slot_fires_once (O := busy_world) tea_day)].
Defined.

Definition paused : CronJob := with_version (2 * second) (set_status_next Disabled None digest).
Definition paused_world : World := at_rest (run_txs [TxCreate digest; TxSaveIf paused digest] empty_db).
Lemma stop_beats_fire_witness :
  (exists r, cron_jobs (db paused_world) !! "j1" = Some r /\ unmoved digest r = false) /\
  sent (fire_due (O := world (fun n => match n with 1 => [TxCreate other] | _ => [] end) (fun _ => None))
          (150 * second) digest paused_world).1 = [].
Proof.
  split; [eexists; split; vm_compute; reflexivity|].
  apply stop_beats_fire; [|vm_compute; reflexivity].
  intros [|[|n]]; cbn; repeat constructor. done.
Defined.

Definition digest_row : JobRow :=
  mk_row "u1" "enabled" 100000000 None 0 0 digest.
Lemma due_job_fires_witness :
  exists w' x r', fire_due (O := quiet_world) (150 * second) digest (at_rest (run_txs [TxCreate digest] empty_db)) = (w', Ok tt)
    /\ sent w' = [for_execution x] /\ scheduled_fire_time x = (100 * second)%Z
    /\ cron_jobs (db w') !! "j1" = Some r' /\ last_triggered_at (col_data r') = Some (150 * second)%Z.
Proof.
  destruct (due_job_fires quiet_calm (sample_later _ _) (150 * second) (100 * second) digest digest_row
    (at_rest (run_txs [TxCreate digest] empty_db))) as (w' & x & r' & E & Hx & Hs & _ & Hj & Hl & _).
  - apply run_txs_jobs_ok.
  - vm_compute. reflexivity.
  - reflexivity.
  - reflexivity.
  - reflexivity.
  - vm_compute. reflexivity.
  - intros n H. vm_compute in H. inversion H.
  - exists w', x, r'. split_and!; [exact E | exact Hs | by rewrite Hx | | exact Hl].
    rewrite Hj. apply lookup_insert_eq.
Defined.

(** Two fires a crash left pending, one of a job deleted since. *)
Definition crashed : Db :=
  run_txs [TxCreate digest; TxCreate other; TxRecord (pending "a" digest (100 * second) (101 * second)) digest;
           TxRecord (pending "b" other (Zpos day) (Zpos day)) other; TxDeleted "j2" (Some second)] empty_db.
Lemma recovery_settles_witness :
  exists w', recover_pending (O := quiet_world) (at_rest crashed) = (w', Ok tt)
    /\ length (pending_rows crashed) = 2 /\ pending_rows (db w') = [] /\ map execution_id (sent w') = ["a"].
Proof.
  destruct (recovery_settles quiet_calm (at_rest crashed)) as (w' & E & Hp & _ & Hs).
  - apply (bool_decide_unpack _). vm_compute. exact I.
  - vm_compute. repeat constructor.
  - exists w'. split_and!; [exact E | vm_compute; reflexivity | exact Hp | rewrite Hs; vm_compute; reflexivity].
Defined.

(** The job is paused between the first read of an edit and its write: the edit
    is made again, from the paused job. *)
Definition contended_world : Outside :=
  world (fun n => match n with 2 => [TxSaveIf paused digest] | _ => [] end) (fun _ => None).
Definition new_prompt_change : CronJob -> Time -> result CronJob CronError :=
  update_change (O := contended_world) (mk_patch None (Some "Send the news") None None).
Definition one_job : World := at_rest (run_txs [TxCreate digest] empty_db).
Definition edited_world : World := (edit_in_place (O := contended_world) "j1" new_prompt_change one_job).1.
Definition edited : CronJob :=
  with_version (240 * second) (with_config "Digest" "Send the news" (Cron "0 9 * * *") "UTC" paused).
Lemma new_prompt_id c now c' : new_prompt_change c now = Ok c' -> id c' = id c.
Proof. unfold new_prompt_change, update_change. destruct (builtin c && _); [done|]. by intros [= <-]. Qed.
Lemma edit_lands_witness :
  edit_in_place (O := contended_world) "j1" new_prompt_change one_job = (edited_world, Ok edited) /\
  exists k r, cron_jobs (at_write (O := contended_world) one_job k) !! "j1" = Some r /\
    (updated_at (col_data r) < updated_at edited)%Z.
Proof.
  assert (E : edit_in_place (O := contended_world) "j1" new_prompt_change one_job = (edited_world, Ok edited))
    by (vm_compute; reflexivity).
  split; [exact E|].
  destruct (edit_lands (O := contended_world) "j1" new_prompt_change one_job edited_world edited)
    as (k & r0 & r & ch & _ & _ & Hr & _ & _ & _ & _ & Hlt & _).
  - apply run_txs_jobs_ok.
  - apply new_prompt_id.
  - exact E.
  - exists k, r. split; [exact Hr | exact Hlt].
Defined.

Definition binned : World := at_rest (run_txs [TxCreate digest; TxDeleted "j1" (Some (2 * second)%Z)] empty_db).
Definition binned_row : JobRow := mk_row "u1" "enabled" 100000000 (Some 2000000%Z) 0 0 digest.
Lemma restore_never_backfires_witness :
  exists w' r', restore_job (O := quiet_world) "j1" binned = (w', Ok tt)
    /\ cron_jobs (db w') !! "j1" = Some r'
    /\ forall t, next_trigger_at (col_data r') = Some t -> (updated_at (col_data r') < t)%Z.
Proof.
  assert (E : exists w', restore_job (O := quiet_world) "j1" binned = (w', Ok tt)) by (eexists; vm_compute; reflexivity).
  destruct E as [w' E].
  destruct (restore_never_backfires (O := quiet_world) (sample_later _ _) "j1" binned w' binned_row 2000000) as (r' & Hr & _ & _ & _ & _ & Hlt).
  - intros n. constructor.
  - apply run_txs_jobs_ok.
  - vm_compute. reflexivity.
  - reflexivity.
  - exact E.
  - exists w', r'. split_and!; [exact E | exact Hr | exact Hlt].
Defined.

(** The write that spends a one-shot fails as the reminder fires: the reminder
    is sent once, and the next tick, which finds its slot recorded, advances it
    as if it recurred and leaves it enabled with no fire time. *)
Definition failing_world : Outside :=
  world (fun _ => []) (fun n => if Nat.eqb n 10 then Some (false, StorageText "disk") else None).
Example one_shot_left_enabled :
  let w := history (O := failing_world) tea_day (at_rest empty_db) in
  map execution_id (sent w) = ["x8"] /\
  match cron_jobs (db w) !! "x1" with
  | Some r => status (col_data r) = Enabled /\ next_trigger_at (col_data r) = None
  | None => False
  end.
Proof. vm_compute. done. Qed.
Example one_shot_spent :
  match cron_jobs (db (history (O := quiet_world) tea_day (at_rest empty_db))) !! "x1" with
  | Some r => status (col_data r) = Executed
  | None => False
  end.
Proof. vm_compute. done. Qed.
End Sample.

End CronScheduler.
