(* ===== verification/Dedup.v ===== *)
(** * Inbound deduplication ([crates/channels/src/dedup.rs])

    A bounded first-in first-out window over the messages already admitted: a
    hash set for the lookup, a queue for the order of eviction. *)
From S2P Require Import Prelude.

Module Dedup.

Definition DEFAULT_CAPACITY : nat := 8 * 1024.

(** [(channel_type, bot_id, msg_id)] *)
Definition Key : Type := string * string * string.

Record InboundDedup := mk_dedup {
  set : gset Key;
  fifo : list Key;
  capacity : nat;
}.

Definition with_capacity (cap : nat) : InboundDedup := mk_dedup ∅ [] cap.
Definition new : InboundDedup := with_capacity DEFAULT_CAPACITY.

(** [while fifo.len() > capacity { pop the front and forget it }] *)
Fixpoint evict (cap : nat) (s : gset Key) (q : list Key) : gset Key * list Key :=
  if Nat.leb (length q) cap then (s, q)
  else match q with
       | [] => (s, q)
       | k :: q => evict cap (s ∖ {[k]}) q
       end.

Definition check_and_record (channel_type bot_id msg_id : string) (d : InboundDedup)
    : InboundDedup * bool :=
  if String.eqb msg_id "" then (d, true)
  else
    let key := (channel_type, bot_id, msg_id) in
    if bool_decide (key ∈ set d) then (d, false)
    else
      let '(s, q) := evict (capacity d) ({[key]} ∪ set d) (fifo d ++ [key]) in
      (mk_dedup s q (capacity d), true).

Definition remove (channel_type bot_id msg_id : string) (d : InboundDedup) : InboundDedup :=
  if String.eqb msg_id "" then d
  else
    let key := (channel_type, bot_id, msg_id) in
    if bool_decide (key ∈ set d) then
      mk_dedup (set d ∖ {[key]}) (List.filter (fun k => bool_decide (k <> key)) (fifo d)) (capacity d)
    else d.

(** ** Runs *)

Inductive op := OpCheck (k : Key) | OpRemove (k : Key).

Definition run_op (o : op) (d : InboundDedup) : InboundDedup * bool :=
  match o with
  | OpCheck (c, b, m) => check_and_record c b m d
  | OpRemove (c, b, m) => (remove c b m d, false)
  end.
Fixpoint run_ops (os : list op) (d : InboundDedup) : InboundDedup :=
  match os with
  | [] => d
  | o :: os => run_ops os (fst (run_op o d))
  end.

(** How many messages a run admits. *)
Fixpoint admitted (os : list op) (d : InboundDedup) : nat :=
  match os with
  | [] => 0
  | o :: os => (if snd (run_op o d) then 1 else 0) + admitted os (fst (run_op o d))
  end.

Definition wf (d : InboundDedup) : Prop :=
  set d = list_to_set (fifo d) /\ NoDup (fifo d) /\ length (fifo d) <= capacity d.

Lemma evict_spec cap s q :
  NoDup q -> s = list_to_set q ->
  exists dropped kept, q = dropped ++ kept /\ evict cap s q = (list_to_set kept, kept) /\
    length kept <= cap /\ (dropped = [] \/ length kept = cap).
Proof.
  revert s; induction q as [|k q IH]; intros s Hn ->; cbn [evict].
  { exists [], []. split_and!; [done | | cbn; lia | by left]. by destruct (Nat.leb _ _). }
  destruct (Nat.leb_spec (length (k :: q)) cap) as [Hle|Hgt].
  { exists [], (k :: q). split_and!; [done.. | by left]. }
  apply NoDup_cons in Hn as [Hk Hn].
  assert (Hset : list_to_set (k :: q) ∖ {[k]} = (list_to_set q : gset Key)) by set_solver.
  rewrite Hset. destruct (IH _ Hn eq_refl) as (dr & kept & -> & He & Hlen & Hor).
  exists (k :: dr), kept. split_and!; [done | done | done | right].
  destruct Hor as [-> | ->]; [|done]. cbn in *. lia.
Qed.

Lemma check_wf c b m d : wf d -> wf (fst (check_and_record c b m d)).
Proof.
  intros (Hs & Hn & Hl). unfold check_and_record. destruct (String.eqb m ""); [done|].
  case_bool_decide as Hin; [done|].
  destruct (evict_spec (capacity d) ({[(c, b, m)]} ∪ set d) (fifo d ++ [(c, b, m)]))
    as (dr & kept & Hq & -> & Hlen & _).
  - apply NoDup_app. split_and!; [done | | apply NoDup_singleton].
    intros x Hx Hx'%list_elem_of_singleton. subst x. apply Hin. rewrite Hs. by apply elem_of_list_to_set.
  - rewrite list_to_set_app_L, Hs. set_solver.
  - cbn. split_and!; [done | | done].
    assert (Hnd : NoDup (dr ++ kept)).
    { rewrite <- Hq. apply NoDup_app. split_and!; [done | | apply NoDup_singleton].
      intros x Hx Hx'%list_elem_of_singleton. subst x. apply Hin. rewrite Hs.
      by apply elem_of_list_to_set. }
    by apply NoDup_app in Hnd as (_ & _ & ?).
Qed.

Lemma filter_other (q : list Key) k :
  List.filter (fun x => bool_decide (x <> k)) q = filter (fun x => x <> k) q.
Proof.
  induction q as [|x q IH]; [done|]. cbn [List.filter]. rewrite list.filter_cons, IH.
  case_bool_decide; by case_decide.
Qed.

Lemma remove_wf c b m d : wf d -> wf (remove c b m d).
Proof.
  intros (Hs & Hn & Hl). unfold remove. destruct (String.eqb m ""); [done|].
  case_bool_decide as Hin; [|done]. unfold wf. cbn. rewrite filter_other. split_and!.
  - rewrite Hs. apply set_eq. intros x.
    rewrite elem_of_difference, !elem_of_list_to_set, list_elem_of_filter. set_solver.
  - by apply NoDup_filter.
  - etrans; [apply length_filter | done].
Qed.

Lemma run_wf os d : wf d -> wf (run_ops os d).
Proof.
  revert d; induction os as [|[[[c b] m]|[[c b] m]] os IH]; intros d Hd; [done| |];
    apply IH; [by apply check_wf | by apply remove_wf].
Qed.

(** A key stays in the window while few enough are admitted behind it. *)
Definition within (k : Key) (n : nat) (d : InboundDedup) : Prop :=
  exists before behind, fifo d = before ++ k :: behind /\ length behind <= n.

Lemma check_within c b m d k n :
  wf d -> within k n d -> S n < capacity d ->
  within k (if snd (check_and_record c b m d) then S n else n) (fst (check_and_record c b m d)).
Proof.
  intros Hwf (bf & bh & Hq & Hn) Hcap. unfold check_and_record.
  destruct (String.eqb m ""); [exists bf, bh; split; [done | cbn; lia]|].
  case_bool_decide as Hin; [by exists bf, bh|].
  destruct Hwf as (Hs & Hnd & Hl).
  destruct (evict_spec (capacity d) ({[(c, b, m)]} ∪ set d) (fifo d ++ [(c, b, m)]))
    as (dr & kept & Hsplit & -> & Hlen & Hor).
  - apply NoDup_app. split_and!; [done | | apply NoDup_singleton].
    intros x Hx Hx'%list_elem_of_singleton. subst x. apply Hin. rewrite Hs. by apply elem_of_list_to_set.
  - rewrite list_to_set_app_L, Hs. set_solver.
  - cbn. unfold within. cbn. rewrite Hq, <- app_assoc in Hsplit. cbn [app] in Hsplit.
    assert (Hbh : length (k :: bh ++ [(c, b, m)]) <= length kept).
    { destruct Hor as [-> | ->].
      - cbn [app] in Hsplit. rewrite <- Hsplit. len_app.
      - cbn. rewrite length_app. cbn. lia. }
    exists (drop (length dr) bf), (bh ++ [(c, b, m)]). split.
    + assert (Hlen2 : length dr <= length bf).
      { apply (f_equal length) in Hsplit. rewrite !length_app in Hsplit. cbn in *. lia. }
      apply (f_equal (drop (length dr))) in Hsplit.
      rewrite drop_app_length in Hsplit. rewrite <- Hsplit.
      by rewrite drop_app_le.
    + len_app.
Qed.

Lemma filter_split (bf bh : list Key) k key :
  k <> key ->
  List.filter (fun x => bool_decide (x <> key)) (bf ++ k :: bh) =
  List.filter (fun x => bool_decide (x <> key)) bf ++
  k :: List.filter (fun x => bool_decide (x <> key)) bh.
Proof.
  intros Hne. rewrite List.filter_app. cbn [List.filter]. by rewrite bool_decide_eq_true_2.
Qed.

Lemma remove_within c b m d k n :
  k <> (c, b, m) -> within k n d -> within k n (remove c b m d).
Proof.
  intros Hne (bf & bh & Hq & Hn). unfold remove. destruct (String.eqb m ""); [by exists bf, bh|].
  case_bool_decide; [|by exists bf, bh]. unfold within. cbn. rewrite Hq, filter_split by done.
  eexists _, _. split; [done|]. rewrite filter_other. etrans; [apply length_filter | done].
Qed.

Lemma run_within os d k n :
  wf d -> within k n d -> OpRemove k ∉ os -> n + admitted os d < capacity d ->
  within k (n + admitted os d) (run_ops os d).
Proof.
  revert d n; induction os as [|o os IH]; intros d n Hwf Hw Hno Hcap; cbn [run_ops admitted] in *.
  { by rewrite Nat.add_0_r. }
  apply not_elem_of_cons in Hno as [Hno1 Hno].
  assert (Hcapd : capacity (fst (run_op o d)) = capacity d).
  { destruct o as [[[c b] m]|[[c b] m]]; cbn; unfold check_and_record, remove;
      destruct (String.eqb m ""); cbn; try done; case_bool_decide; try done.
    by destruct (evict _ _ _). }
  assert (Hstep : within k (n + (if snd (run_op o d) then 1 else 0)) (fst (run_op o d))).
  { destruct o as [[[c b] m]|[[c b] m]]; cbn [run_op fst snd] in *.
    - destruct (decide (S n < capacity d)) as [Hlt|Hge].
      + pose proof (check_within c b m d k n Hwf Hw Hlt) as H.
        destruct (snd (check_and_record c b m d)); [by rewrite Nat.add_1_r | by rewrite Nat.add_0_r].
      + destruct (snd (check_and_record c b m d)) eqn:Hacc; [cbn in Hcap; lia|].
        rewrite Nat.add_0_r. unfold check_and_record in *.
        destruct (String.eqb m ""); [done|]. case_bool_decide; [done|].
        by destruct (evict _ _ _).
    - rewrite Nat.add_0_r. apply remove_within; [congruence | done]. }
  rewrite Nat.add_assoc in *. apply IH; [ | done | done | by rewrite Hcapd].
  destruct o as [[[c b] m]|[[c b] m]]; [by apply check_wf | by apply remove_wf].
Qed.

(** A replayed message is admitted once.  After any traffic, a message the
    window admits is refused when it comes again, as long as fewer than the
    capacity of others were admitted since and its key was not withdrawn; and
    once it is withdrawn the next attempt is admitted. *)
Theorem replay_refused (cap : nat) (earlier later : list op) (c b m : string)
    (Hid : m <> ""%string)
    (Hfresh : snd (check_and_record c b m (run_ops earlier (with_capacity cap))) = true)
    (Hkept : OpRemove (c, b, m) ∉ later)
    (Hfew : admitted later
              (fst (check_and_record c b m (run_ops earlier (with_capacity cap)))) < cap) :
  let d := run_ops later (fst (check_and_record c b m (run_ops earlier (with_capacity cap)))) in
  snd (check_and_record c b m d) = false /\
  snd (check_and_record c b m (remove c b m d)) = true.
Proof.
  cbv zeta.
  assert (Hwf0 : wf (run_ops earlier (with_capacity cap))).
  { apply run_wf. split_and!; [done | constructor | cbn; lia]. }
  assert (Hcap0 : forall os d, capacity (run_ops os d) = capacity d).
  { clear. induction os as [|o os IH]; intros d; [done|]. cbn. rewrite IH.
    destruct o as [[[c b] m]|[[c b] m]]; cbn; unfold check_and_record, remove;
      destruct (String.eqb m ""); cbn; try done; case_bool_decide; try done.
    by destruct (evict _ _ _). }
  set (d0 := run_ops earlier (with_capacity cap)) in *.
  assert (Hcapd : capacity d0 = cap) by apply Hcap0.
  pose proof (check_wf c b m d0 Hwf0) as Hwf1.
  assert (Hw : within (c, b, m) 0 (fst (check_and_record c b m d0)) /\
               capacity (fst (check_and_record c b m d0)) = cap).
  { unfold check_and_record in *. destruct (String.eqb_spec m "") as [|Hm]; [done|].
    case_bool_decide as Hin; [discriminate|]. destruct Hwf0 as (Hs & Hnd & Hl).
    destruct (evict_spec (capacity d0) ({[(c, b, m)]} ∪ set d0) (fifo d0 ++ [(c, b, m)]))
      as (dr & kept & Hsplit & -> & Hlen & Hor).
    - apply NoDup_app. split_and!; [done | | apply NoDup_singleton].
      intros x Hx Hx'%list_elem_of_singleton. subst x. apply Hin. rewrite Hs.
      by apply elem_of_list_to_set.
    - rewrite list_to_set_app_L, Hs. set_solver.
    - split; [|done]. cbn. assert (Hk : kept <> []).
      { destruct Hor as [-> | Hk]; [cbn in Hsplit; by rewrite <- Hsplit; destruct (fifo d0)|].
        intros ->. cbn in Hk. lia. }
      destruct kept as [|x kept] using rev_ind; [done|]. clear IHkept.
      rewrite app_assoc in Hsplit. apply app_inj_tail in Hsplit as [_ <-].
      exists kept, []. by split. }
  destruct Hw as [Hw Hcap1].
  pose proof (run_within later _ _ 0 Hwf1 Hw Hkept ltac:(rewrite Hcap1; lia)) as (bf & bh & Hq & _).
  destruct (run_wf later _ Hwf1) as (Hs & Hnd & _).
  set (d := run_ops later _) in *.
  assert (Hin : (c, b, m) ∈ set d).
  { rewrite Hs, elem_of_list_to_set, Hq. apply elem_of_app. right. by left. }
  unfold check_and_record, remove. destruct (String.eqb_spec m "") as [|_]; [done|].
  rewrite (bool_decide_eq_true_2 _ Hin). split; [done|]. cbn.
  rewrite bool_decide_eq_false_2 by set_solver. by destruct (evict _ _ _).
Qed.

Lemma replay_refused_witness :
  let d := run_ops [OpCheck ("tg", "bot", "2")%string]
             (fst (check_and_record "tg" "bot" "1" (with_capacity 2))) in
  snd (check_and_record "tg" "bot" "1" d) = false.
Proof.
  apply (replay_refused 2 [] [OpCheck ("tg", "bot", "2")%string] "tg" "bot" "1").
  - discriminate.
  - vm_compute. reflexivity.
  - intros Hin. apply list_elem_of_singleton in Hin. discriminate.
  - vm_compute. lia.
Defined.

End Dedup.
