(* ===== verification/BoardRows.v ===== *)
(** * Rows of the project board ([crates/store/src/project.rs])

    Issues, their runs and timeline entries, with the stored spellings.
    Timestamps are [Z]; identifiers are strings. *)

From S2P Require Import Prelude Message Approval.
Import Message Approval.

Module BoardRows.

Inductive IssueStatus := Backlog | Todo | InProgress | Review | Done.
#[export] Instance IssueStatus_eq_dec : EqDecision IssueStatus.
Proof. solve_decision. Defined.
Definition ALL_STATUSES : list IssueStatus := [Backlog; Todo; InProgress; Review; Done].
Definition IssueStatus_as_str (s : IssueStatus) : string :=
  match s with
  | Backlog => "backlog" | Todo => "todo" | InProgress => "in_progress"
  | Review => "review" | Done => "done"
  end.
Definition IssueStatus_parse (value : string) : option IssueStatus :=
  if String.eqb value "backlog" then Some Backlog
  else if String.eqb value "todo" then Some Todo
  else if String.eqb value "in_progress" then Some InProgress
  else if String.eqb value "review" then Some Review
  else if String.eqb value "done" then Some Done
  else None.

Inductive IssuePriority := Urgent | High | Medium | Low | NoPriority.
#[export] Instance IssuePriority_eq_dec : EqDecision IssuePriority.
Proof. solve_decision. Defined.
Definition ALL_PRIORITIES : list IssuePriority := [Urgent; High; Medium; Low; NoPriority].
Definition IssuePriority_as_str (p : IssuePriority) : string :=
  match p with
  | Urgent => "urgent" | High => "high" | Medium => "medium" | Low => "low" | NoPriority => "none"
  end.
Definition IssuePriority_parse (value : string) : option IssuePriority :=
  if String.eqb value "urgent" then Some Urgent
  else if String.eqb value "high" then Some High
  else if String.eqb value "medium" then Some Medium
  else if String.eqb value "low" then Some Low
  else if String.eqb value "none" then Some NoPriority
  else None.

Record IssueAttachment := mk_attachment {
  att_blob_id : string;
  att_mime_type : string;
  att_size : Z;
  att_filename : option string;
}.

Record IssueRow := mk_issue {
  id : string;
  project_id : string;
  number : Z;
  title : string;
  description : string;
  attachments : list IssueAttachment;
  status : IssueStatus;
  priority : IssuePriority;
  assignee : option string;
  position : Z;
  pinned : bool;
  blocked_reason : option string;
  branch : option string;
  parent_issue_id : option string;
  stage : Z;
  source_key : option string;
  filed_from : option string;
  cancelled_at : option Z;
  created_at : Z;
  updated_at : Z;
}.

Inductive RunTrigger :=
| Started | Assigned | Retry | CommentTrigger | Promoted | Triage | StageBarrier | ReviewTrigger
| Stalled | BlockedTrigger | Grooming | BoardIdle.
#[export] Instance RunTrigger_eq_dec : EqDecision RunTrigger.
Proof. solve_decision. Defined.
Definition RunTrigger_as_str (t : RunTrigger) : string :=
  match t with
  | Started => "started" | Assigned => "assigned" | Retry => "retry" | CommentTrigger => "comment"
  | Promoted => "promoted" | Triage => "triage" | StageBarrier => "stage_barrier"
  | ReviewTrigger => "review" | Stalled => "stalled" | BlockedTrigger => "blocked"
  | Grooming => "grooming" | BoardIdle => "board_idle"
  end.
Definition RunTrigger_parse (value : string) : option RunTrigger :=
  if String.eqb value "started" then Some Started
  else if String.eqb value "assigned" then Some Assigned
  else if String.eqb value "retry" then Some Retry
  else if String.eqb value "comment" then Some CommentTrigger
  else if String.eqb value "promoted" then Some Promoted
  else if String.eqb value "triage" then Some Triage
  else if String.eqb value "stage_barrier" then Some StageBarrier
  else if String.eqb value "review" then Some ReviewTrigger
  else if String.eqb value "stalled" then Some Stalled
  else if String.eqb value "blocked" then Some BlockedTrigger
  else if String.eqb value "grooming" then Some Grooming
  else if String.eqb value "board_idle" then Some BoardIdle
  else None.
Definition is_coordination (t : RunTrigger) : bool :=
  match t with
  | Triage | ReviewTrigger | Stalled | BlockedTrigger | Grooming | BoardIdle => true
  | _ => false
  end.

Inductive RunStatus := Held | Queued | Running | RunDone | Failed | Cancelled.
#[export] Instance RunStatus_eq_dec : EqDecision RunStatus.
Proof. solve_decision. Defined.
Definition RunStatus_as_str (s : RunStatus) : string :=
  match s with
  | Held => "held" | Queued => "queued" | Running => "running" | RunDone => "done"
  | Failed => "failed" | Cancelled => "cancelled"
  end.
Definition RunStatus_parse (value : string) : option RunStatus :=
  if String.eqb value "held" then Some Held
  else if String.eqb value "queued" then Some Queued
  else if String.eqb value "running" then Some Running
  else if String.eqb value "done" then Some RunDone
  else if String.eqb value "failed" then Some Failed
  else if String.eqb value "cancelled" then Some Cancelled
  else None.
Definition is_settled (s : RunStatus) : bool :=
  match s with RunDone | Failed | Cancelled => true | _ => false end.

Record IssueRunRow := mk_run {
  run_id : string;
  run_issue_id : string;
  run_project_id : string;
  run_number : Z;
  agent_id : string;
  session_id : option string;
  trigger : RunTrigger;
  run_status : RunStatus;
  attempt : Z;
  resumes : Z;
  run_error : option string;
  run_created_at : Z;
  started_at : option Z;
  settled_at : option Z;
}.
Definition was_claimed (r : IssueRunRow) : bool := is_some (session_id r).

Inductive IssueActor := User | AgentActor (id : string) | SystemActor.

Inductive IssueEventBody :=
| Comment (text : string) (attachments : list IssueAttachment)
| Opened
| TitleChanged (from to : string)
| DescriptionChanged
| Moved (from to : IssueStatus)
| AssignedEvent (from to : option string)
| RunStarted (run_id : string) (attempt : Z) (trigger : RunTrigger)
| RunInterrupted (run_id : string) (attempt resumes : Z)
| RunSettled (run_id : string) (attempt : Z) (status : RunStatus) (error : option string)
| RunRefused (trigger : RunTrigger) (attempt : option Z)
| Blocked (reason : string)
| Unblocked
| CancelledEvent
| Uncancelled
| WorktreeReclaimed (branch_deleted : bool)
| BranchMerged (branch into commit : string) (commits : nat)
| WorktreeKept (reason : string)
| ApprovalRequested (call_id : string) (attempt : option Z) (tool summary : string)
| ApprovalResolved (call_id : string) (decision : ApprovalDecision) (resolution : ApprovalResolution)
| StageCompleted (stage : Z)
| Filed (number : Z)
| BudgetExhausted (spent_micros limit_micros : Z)
| BudgetRestored (spent_micros limit_micros : Z)
| TokenBudgetExhausted (spent_tokens limit_tokens : Z)
| TokenBudgetRestored (spent_tokens limit_tokens : Z).

Definition event_kind (b : IssueEventBody) : string :=
  match b with
  | Comment _ _ => "comment" | Opened => "opened" | TitleChanged _ _ => "title_changed"
  | DescriptionChanged => "description_changed" | Moved _ _ => "moved"
  | AssignedEvent _ _ => "assigned" | RunStarted _ _ _ => "run_started"
  | RunInterrupted _ _ _ => "run_interrupted" | RunSettled _ _ _ _ => "run_settled"
  | RunRefused _ _ => "run_refused" | Blocked _ => "blocked" | Unblocked => "unblocked"
  | CancelledEvent => "cancelled" | Uncancelled => "uncancelled"
  | BranchMerged _ _ _ _ => "branch_merged" | WorktreeReclaimed _ => "worktree_reclaimed"
  | WorktreeKept _ => "worktree_kept" | Filed _ => "filed"
  | ApprovalRequested _ _ _ _ => "approval_requested"
  | ApprovalResolved _ _ _ => "approval_resolved" | StageCompleted _ => "stage_completed"
  | BudgetExhausted _ _ => "budget_exhausted" | BudgetRestored _ _ => "budget_restored"
  | TokenBudgetExhausted _ _ => "token_budget_exhausted"
  | TokenBudgetRestored _ _ => "token_budget_restored"
  end.

Record IssueEventRow := mk_event {
  event_id : string;
  event_issue_id : string;
  event_project_id : string;
  event_number : Z;
  actor : IssueActor;
  body : IssueEventBody;
  client_msg_id : option string;
  event_created_at : Z;
}.

Record DrainMarks := mk_marks { looked_at : option Z; worked_at : option Z }.

Record Spend := mk_spend { input_tokens : Z; output_tokens : Z; cost : Z }.
Definition spend_tokens (s : Spend) : Z := (input_tokens s + output_tokens s)%Z.

(** Every stored spelling parses back, and only the canonical ones parse. *)
Lemma status_roundtrip s v : IssueStatus_parse v = Some s <-> IssueStatus_as_str s = v.
Proof.
  unfold IssueStatus_parse. split; [by_spelling | intros <-; by destruct s].
Qed.
Lemma priority_roundtrip p v : IssuePriority_parse v = Some p <-> IssuePriority_as_str p = v.
Proof.
  unfold IssuePriority_parse. split; [by_spelling | intros <-; by destruct p].
Qed.
Lemma trigger_roundtrip t v : RunTrigger_parse v = Some t <-> RunTrigger_as_str t = v.
Proof.
  unfold RunTrigger_parse. split; [by_spelling | intros <-; by destruct t].
Qed.
Lemma run_status_roundtrip s v : RunStatus_parse v = Some s <-> RunStatus_as_str s = v.
Proof.
  unfold RunStatus_parse. split; [by_spelling | intros <-; by destruct s].
Qed.
End BoardRows.
