(* ===== verification/Board.v ===== *)
(** * The rules of the project board ([crates/project/src])

    [stages.rs], [driver.rs], [runs.rs], [budget.rs] and [timeline.rs]: which
    cards the board starts, when it asks the lead, when a recorded run may still
    run, and which ceiling speaks for a spent budget.  Everything here is a rule
    over rows the caller has read. *)

From S2P Require Import Prelude Message Money BoardRows.
Import BoardRows.

Module Board.

(** ** Stages *)

Definition is_finished (i : IssueRow) : bool :=
  bool_decide (status i = Done) || is_some (cancelled_at i).

Definition stage_complete (children : list IssueRow) (stage_ : Z) : bool :=
  let members := List.filter (fun c => Z.eqb (stage c) stage_) children in
  forallb is_finished members && negb (Nat.eqb (length members) 0).

Definition stage_is_open (siblings : list IssueRow) (stage_ : Z) : bool :=
  negb (existsb (fun s => negb (is_finished s) && (stage s <? stage_)%Z) siblings).

Definition barrier_opens (children : list IssueRow) (stage_ : Z) : bool :=
  stage_complete children stage_ && stage_is_open children stage_.

Definition progress (children : list IssueRow) : nat * nat :=
  let live := List.filter (fun c => negb (is_some (cancelled_at c))) children in
  (length (List.filter (fun c => bool_decide (status c = Done)) live), length live).

Definition open_stages (children : list IssueRow) : list Z :=
  vec_dedup (merge_sort Z.le (map stage (List.filter (fun c => negb (is_finished c)) children))).

(** ** Runs ([runs.rs]) *)

Definition accepts_runs (i : IssueRow) : bool := negb (is_finished i).

Record Transition := mk_transition {
  before_status : IssueStatus;
  before_assignee : option string;
  after_status : IssueStatus;
  after_assignee : option string;
}.
Definition between (before after : IssueRow) : Transition :=
  mk_transition (status before) (assignee before) (status after) (assignee after).
Definition created (after : IssueRow) : Transition :=
  mk_transition Backlog None (status after) (assignee after).
Definition triggers_run (t : Transition) : option RunTrigger :=
  if negb (bool_decide (after_status t = InProgress)) || negb (is_some (after_assignee t)) then None
  else if negb (bool_decide (before_status t = InProgress)) then Some Started
  else if bool_decide (before_assignee t = after_assignee t) then None else Some Assigned.

Definition ever_ran (r : IssueRunRow) : bool := was_claimed r.
Definition is_unsettled (r : IssueRunRow) : bool := negb (is_some (settled_at r)).
Definition unsettled (runs : list IssueRunRow) : option IssueRunRow := find_first is_unsettled runs.

Definition refused_itself (holder : IssueRunRow) (a : IssueActor) : bool :=
  bool_decide (run_status holder = Running)
  && match a with AgentActor id => String.eqb id (agent_id holder) | _ => false end.

(** [Iterator::max_by_key]: the last of the greatest. *)
Definition max_by_key (key : IssueRunRow -> Z) (runs : list IssueRunRow) : option IssueRunRow :=
  foldl (fun best r =>
    match best with
    | Some b => if (key b <=? key r)%Z then Some r else Some b
    | None => Some r
    end) None runs.
Definition newest_run_that_ran (agent : string) (runs : list IssueRunRow) : option IssueRunRow :=
  max_by_key attempt (List.filter (fun c => String.eqb (agent_id c) agent && ever_ran c) runs).
Definition session_run_to_continue (r : IssueRunRow) (runs : list IssueRunRow) : option IssueRunRow :=
  newest_run_that_ran (agent_id r) runs.
Definition session_run_before (r : IssueRunRow) (runs : list IssueRunRow) : option IssueRunRow :=
  newest_run_that_ran (agent_id r)
    (List.filter (fun c => negb (String.eqb (run_id c) (run_id r))) runs).

Definition MAX_RUN_RESUMES : Z := 2.
Definition MAX_QUEUED_WAIT_HOURS : Z := 48.
(** One hour in the unit of timestamps, nanoseconds. *)
Definition HOUR : Z := 3600 * 1000000000.

Inductive GaveUpOn := Resumes | QueuedWait.
Inductive Verdict :=
| Stands | Park (why : string) | CallOff | GiveUp (bound : GaveUpOn) (reason : string).
Definition GAVE_UP_RESUMING : string :=
  "this run was interrupted and handed back out too many times without ever finishing, so the board stopped resuming it — retry the card once you know why".
Definition WAITED_TOO_LONG : string :=
  "this run waited too long to be picked up and never was; the card has moved on since — retry it if the work is still wanted".
Definition PARKED_BY_A_BLOCK : string := "the card is blocked; leaving its recorded run parked".

Definition board_may_start (i : IssueRow) : bool := negb (is_some (blocked_reason i)).
Definition survives_a_block (t : RunTrigger) : bool := bool_decide (t = BlockedTrigger).
Definition parked_by_a_block (r : IssueRunRow) (card : IssueRow) : bool :=
  negb (board_may_start card) && negb (survives_a_block (trigger r))
  && negb (bool_decide (run_status r = Running)).

Definition verdict (r : IssueRunRow) (card : option IssueRow) (now : Z) : Verdict :=
  if bool_decide (run_status r = Running) then Stands
  else
    match card with
    | None => CallOff
    | Some card =>
        if negb (accepts_runs card) then CallOff
        else if parked_by_a_block r card then Park PARKED_BY_A_BLOCK
        else if negb (bool_decide (run_status r = Queued)) then Stands
        else if ever_ran r then
          if (MAX_RUN_RESUMES <? resumes r)%Z then GiveUp Resumes GAVE_UP_RESUMING else Stands
        else if (MAX_QUEUED_WAIT_HOURS * HOUR <? now - Z.max (run_created_at r) (updated_at card))%Z
        then GiveUp QueuedWait WAITED_TOO_LONG else Stands
    end.

(** ** The driver ([driver.rs]) *)

(** The plan each parent owns, in the order of the rows. *)
Definition plans (issues : list IssueRow) : gmap string (list IssueRow) :=
  foldl (fun m i =>
    match parent_issue_id i with
    | Some p => <[p := default [] (m !! p) ++ [i]]> m
    | None => m
    end) ∅ issues.

Definition behind_a_stage (issues : list IssueRow) (i : IssueRow) : bool :=
  match parent_issue_id i with
  | Some p => match plans issues !! p with
              | Some siblings => negb (stage_is_open siblings (stage i))
              | None => false
              end
  | None => false
  end.
Definition held_by_a_stage (issues : list IssueRow) : gset Z :=
  list_to_set (map number (List.filter (behind_a_stage issues) issues)).

Definition is_waiting (i : IssueRow) (spoken_for held : gset Z) : bool :=
  bool_decide (status i = Todo) && accepts_runs i && board_may_start i
  && negb (bool_decide (number i ∈ held)) && negb (bool_decide (number i ∈ spoken_for)).

Definition is_live_work (s : IssueStatus) : bool :=
  match s with Todo | InProgress | Review => true | _ => false end.
Definition board_may_take_up (i : IssueRow) (agent_opened : gset Z) : bool :=
  accepts_runs i && (is_live_work (status i) || bool_decide (number i ∈ agent_opened)).

Definition is_promotable (i : IssueRow) (spoken_for held : gset Z) : bool :=
  is_waiting i spoken_for held && is_some (assignee i).
Definition needs_staffing (i : IssueRow) (spoken_for held : gset Z) : bool :=
  is_waiting i spoken_for held && negb (is_some (assignee i)).

(** [IssuePriority::ALL.iter().position]. *)
Definition rank (p : IssuePriority) : nat :=
  default 0 (Prelude.position (fun q => bool_decide (q = p)) ALL_PRIORITIES).
Definition promotion_order (a b : IssueRow) : comparison :=
  match Nat.compare (rank (priority a)) (rank (priority b)) with
  | Eq => match Z.compare (BoardRows.position a) (BoardRows.position b) with
          | Eq => Z.compare (number a) (number b)
          | c => c
          end
  | c => c
  end.

Definition before_or_with (a b : IssueRow) : Prop := promotion_order a b <> Gt.
#[export] Instance before_or_with_dec a b : Decision (before_or_with a b).
Proof. unfold before_or_with. destruct (promotion_order a b); [by left | by left | right; intros H; by apply H]. Defined.

Definition in_promotion_order (issues : list IssueRow) (keep : IssueRow -> bool) : list IssueRow :=
  merge_sort before_or_with (List.filter keep issues).

Definition slate (issues : list IssueRow) (busy : gset Z) (slots : nat) : list IssueRow :=
  if Nat.eqb slots 0 then []
  else
    let held := held_by_a_stage issues in
    take slots (in_promotion_order issues (fun i => is_promotable i busy held)).

Definition awaiting_triage (issues : list IssueRow) (in_flight : gset Z) : list IssueRow :=
  let held := held_by_a_stage issues in
  in_promotion_order issues (fun i => needs_staffing i in_flight held).

Definition takes_a_lead_question (i : IssueRow) (in_flight : gset Z) (lead : string) : bool :=
  accepts_runs i && negb (bool_decide (number i ∈ in_flight))
  && negb (bool_decide (assignee i = Some lead)).

Definition blocked (issues : list IssueRow) (in_flight : gset Z) (lead : string) : list IssueRow :=
  in_promotion_order issues (fun i =>
    negb (board_may_start i) && takes_a_lead_question i in_flight lead).
Definition awaiting_review (issues : list IssueRow) (in_flight : gset Z) (lead : string)
    : list IssueRow :=
  in_promotion_order issues (fun i =>
    bool_decide (status i = Review) && board_may_start i && takes_a_lead_question i in_flight lead).
Definition stalled (issues : list IssueRow) (in_flight : gset Z) (lead : string) : list IssueRow :=
  in_promotion_order issues (fun i =>
    bool_decide (status i = InProgress) && board_may_start i
    && takes_a_lead_question i in_flight lead).
Definition awaiting_grooming (issues : list IssueRow) (in_flight agent_opened : gset Z)
    (lead : string) : list IssueRow :=
  in_promotion_order issues (fun i =>
    bool_decide (status i = Backlog) && board_may_take_up i agent_opened && board_may_start i
    && takes_a_lead_question i in_flight lead).

(** Timeline reads ([events] oldest first). *)
Definition is_blocked_event (b : IssueEventBody) : bool :=
  match b with Blocked _ => true | _ => false end.
Definition newest_block (events : list IssueEventRow) : option IssueEventRow :=
  find_first (fun e => is_blocked_event (body e)) (reverse events).
Definition by_agent (e : IssueEventRow) : bool :=
  match actor e with AgentActor _ => true | _ => false end.
Definition block_is_an_agents_question (events : list IssueEventRow) : bool :=
  match newest_block events with Some e => by_agent e | None => false end.
Definition cancel_is_a_persons_stop (events : list IssueEventRow) : bool :=
  match find_first (fun e => match body e with CancelledEvent | Uncancelled => true | _ => false end)
          (reverse events) with
  | Some e => match body e with CancelledEvent => negb (by_agent e) | _ => false end
  | None => false
  end.
Definition blocked_at (events : list IssueEventRow) : option Z :=
  event_created_at <$> newest_block events.
Definition a_block_was_lifted (events : list IssueEventRow) : bool :=
  existsb (fun e => match body e with Unblocked => true | _ => false end) events.
Definition block_standing_at (events : list IssueEventRow) (at_ : Z) : option Z :=
  match find_first (fun e => (event_created_at e <=? at_)%Z
          && match body e with Blocked _ | Unblocked => true | _ => false end) (reverse events) with
  | Some latest => if is_blocked_event (body latest) then Some (event_created_at latest) else None
  | None => None
  end.

(** The board question. *)
Definition ran_dry (issues : list IssueRow) (working agent_opened : gset Z) (promoted : nat) : bool :=
  Nat.eqb promoted 0 && bool_decide (working = ∅)
  && existsb (fun i => board_may_take_up i agent_opened) issues.
Definition nothing_has_happened_since_the_lead_looked (marks : DrainMarks) (rules_changed_at : Z)
    : bool :=
  match looked_at marks with
  | None => false
  | Some looked =>
      (rules_changed_at <=? looked)%Z
      && match worked_at marks with Some worked => (worked <=? looked)%Z | None => true end
  end.
(** [min_by]: the first of the least. *)
Definition min_by_order (issues : list IssueRow) : option IssueRow :=
  foldl (fun best i =>
    match best with
    | Some b => match promotion_order b i with Gt => Some i | _ => Some b end
    | None => Some i
    end) None issues.
Definition drain_anchor (issues : list IssueRow) (in_flight agent_opened : gset Z)
    : option IssueRow :=
  min_by_order (List.filter (fun i =>
    board_may_take_up i agent_opened && board_may_start i
    && negb (bool_decide (number i ∈ in_flight))) issues).

(** The guard of the per-card questions. *)
Definition newest_run_was_cancelled (runs : list IssueRunRow) : bool :=
  match max_by_key run_created_at runs with
  | Some r => bool_decide (run_status r = Cancelled)
  | None => false
  end.
Definition max_opt (l : list Z) : option Z :=
  foldl (fun m z => Some (match m with Some k => Z.max k z | None => z end)) None l.
Definition last_activity (i : IssueRow) (runs : list IssueRunRow) : Z :=
  match max_opt (omap settled_at (List.filter (fun r => negb (is_coordination (trigger r))) runs)) with
  | Some settled => Z.max settled (updated_at i)
  | None => updated_at i
  end.
Definition MAX_ASKS_PER_CARD_STATE : nat := 2.
Definition already_asked (i : IssueRow) (runs : list IssueRunRow) (question : RunTrigger) : bool :=
  let activity := last_activity i runs in
  let asks := List.filter (fun r => bool_decide (trigger r = question)) runs in
  let delivered := existsb (fun r =>
    (activity <=? run_created_at r)%Z
    && negb (bool_decide (run_status r = Failed) && negb (was_claimed r))) asks in
  delivered
  || Nat.leb MAX_ASKS_PER_CARD_STATE
       (length (List.filter (fun r => (updated_at i <=? run_created_at r)%Z) asks)).

(** ** Budgets ([budget.rs]) *)

Record Meter := mk_meter { spent : Z; limit : Z }.
Definition meter_of (limit : option Z) (spent : Z) : option Meter :=
  (fun l => mk_meter spent l) <$> limit.
Definition meter_exhausted (m : Meter) : bool := (limit m <=? spent m)%Z.
Definition tighter_than (a b : Meter) : bool := (spent b * limit a <? spent a * limit b)%Z.
Definition speaks_money (money tokens : Meter) : bool :=
  match meter_exhausted money, meter_exhausted tokens with
  | true, false => true
  | false, true => false
  | _, _ => tighter_than money tokens
  end.

Inductive Figures :=
| MoneyFigures (spent_micros limit_micros : Z)
| TokenFigures (spent_tokens limit_tokens : Z).
Definition money_figures (m : Meter) : Figures := MoneyFigures (spent m) (limit m).
Definition token_figures (m : Meter) : Figures := TokenFigures (spent m) (limit m).
Definition exhausted_event (f : Figures) : IssueEventBody :=
  match f with
  | MoneyFigures s l => BudgetExhausted s l
  | TokenFigures s l => TokenBudgetExhausted s l
  end.
Definition restored_event (f : Figures) : IssueEventBody :=
  match f with
  | MoneyFigures s l => BudgetRestored s l
  | TokenFigures s l => TokenBudgetRestored s l
  end.

Inductive Headroom := Unlimited | Limited (money tokens : option Meter).
Definition opt_exhausted (m : option Meter) : bool :=
  match m with Some m => meter_exhausted m | None => false end.
Definition is_exhausted (h : Headroom) : bool :=
  match h with
  | Unlimited => false
  | Limited money tokens => opt_exhausted money || opt_exhausted tokens
  end.
Definition headroom_money (h : Headroom) : option Meter :=
  match h with Unlimited => None | Limited money _ => money end.
Definition money_exhausted (h : Headroom) : bool := opt_exhausted (headroom_money h).
Definition figures (h : Headroom) : option Figures :=
  match h with
  | Unlimited => None
  | Limited (Some money) (Some tokens) =>
      if speaks_money money tokens then Some (money_figures money) else Some (token_figures tokens)
  | Limited None (Some tokens) => Some (token_figures tokens)
  | Limited (Some money) None => Some (money_figures money)
  | Limited None None => None
  end.
Definition headroom (money_limit token_limit : option Z) (s : Spend) : Headroom :=
  let money := meter_of money_limit (cost s) in
  let tokens := meter_of token_limit (spend_tokens s) in
  if negb (is_some money) && negb (is_some tokens) then Unlimited else Limited money tokens.

(** ** Timeline ([timeline.rs]) *)

Definition diff_events (before after : IssueRow) : list IssueEventBody :=
  (if String.eqb (title before) (title after) then []
   else [TitleChanged (title before) (title after)])
  ++ (if String.eqb (description before) (description after) then [] else [DescriptionChanged])
  ++ (if bool_decide (status before = status after) then []
      else [Moved (status before) (status after)])
  ++ (if bool_decide (assignee before = assignee after) then []
      else [AssignedEvent (assignee before) (assignee after)])
  ++ (match blocked_reason before, blocked_reason after with
      | b, Some reason => if bool_decide (b = Some reason) then [] else [Blocked reason]
      | Some _, None => [Unblocked]
      | None, None => []
      end)
  ++ (match cancelled_at before, cancelled_at after with
      | None, Some _ => [CancelledEvent]
      | Some _, None => [Uncancelled]
      | _, _ => []
      end).

Definition left_a_mark (b : IssueEventBody) : bool :=
  match b with
  | Comment _ _ | TitleChanged _ _ | DescriptionChanged | Moved _ _ | AssignedEvent _ _
  | Blocked _ | Unblocked | CancelledEvent | Uncancelled | Filed _ | BranchMerged _ _ _ _ => true
  | _ => false
  end.

(** ** Order *)

Lemma promotion_order_spec a b :
  before_or_with a b <->
  rank (priority a) < rank (priority b)
  \/ rank (priority a) = rank (priority b)
     /\ (BoardRows.position a < BoardRows.position b
         \/ BoardRows.position a = BoardRows.position b /\ number a <= number b)%Z.
Proof.
  unfold before_or_with, promotion_order.
  destruct (Nat.compare_spec (rank (priority a)) (rank (priority b))); [|split; [lia|done]|split; [done|lia]].
  destruct (Z.compare_spec (BoardRows.position a) (BoardRows.position b)); [|split; [lia|done]|split; [done|lia]].
  destruct (Z.compare_spec (number a) (number b)); (split; [lia || done | lia || done]).
Qed.

#[export] Instance before_or_with_total : Total before_or_with.
Proof. intros a b. rewrite !promotion_order_spec. lia. Qed.
#[export] Instance before_or_with_trans : Transitive before_or_with.
Proof. intros a b c. rewrite !promotion_order_spec. lia. Qed.

Lemma before_or_with_number a b : before_or_with a b -> before_or_with b a -> number a = number b.
Proof. rewrite !promotion_order_spec. lia. Qed.

Lemma in_promotion_order_perm issues keep :
  in_promotion_order issues keep ≡ₚ List.filter keep issues.
Proof. apply merge_sort_Permutation. Qed.
Lemma in_promotion_order_sorted issues keep :
  StronglySorted before_or_with (in_promotion_order issues keep).
Proof. apply (StronglySorted_merge_sort _). Qed.
Lemma elem_of_in_promotion_order issues keep i :
  i ∈ in_promotion_order issues keep <-> i ∈ issues /\ keep i = true.
Proof.
  rewrite in_promotion_order_perm, list_elem_of_In, List.filter_In, <- list_elem_of_In. done.
Qed.

(** Rows with numbers of their own are sorted one way only. *)
Lemma in_promotion_order_unique issues issues' keep keep' :
  NoDup (map number issues) -> issues ≡ₚ issues' ->
  (forall i, i ∈ issues -> keep i = keep' i) ->
  in_promotion_order issues keep = in_promotion_order issues' keep'.
Proof.
  intros Hn Hp Hk.
  assert (Hf : List.filter keep issues ≡ₚ List.filter keep' issues').
  { transitivity (List.filter keep' issues).
    - clear Hn Hp. induction issues as [|i l IH]; [done|]. cbn.
      rewrite <- (Hk i) by (constructor). destruct (keep i); rewrite IH; auto;
        intros j Hj; apply Hk; by constructor.
    - clear Hn Hk. induction Hp; cbn; repeat case_match; eauto using Permutation. }
  apply (StronglySorted_unique_strong before_or_with).
  - intros a b Ha Hb Hab Hba. apply elem_of_in_promotion_order in Ha as [Ha _].
    apply elem_of_in_promotion_order in Hb as [Hb _]. rewrite <- Hp in Hb.
    eapply NoDup_map_inj; eauto using before_or_with_number.
  - apply in_promotion_order_sorted.
  - apply in_promotion_order_sorted.
  - by rewrite !in_promotion_order_perm.
Qed.

(** ** Plans *)

Lemma plans_lookup issues p :
  plans issues !! p =
  match List.filter (fun i => bool_decide (parent_issue_id i = Some p)) issues with
  | [] => None
  | l => Some l
  end.
Proof.
  unfold plans. induction issues as [|i issues IH] using rev_ind; [apply lookup_empty|].
  rewrite foldl_snoc, List.filter_app. cbn. destruct (parent_issue_id i) as [q|] eqn:E.
  - destruct (decide (q = p)) as [->|Hne].
    + rewrite lookup_insert_eq, bool_decide_eq_true_2, IH by done.
      by destruct (List.filter _ issues).
    + rewrite lookup_insert_ne, bool_decide_eq_false_2, app_nil_r by congruence. exact IH.
  - rewrite bool_decide_eq_false_2, app_nil_r by done. exact IH.
Qed.

Definition siblings_of (issues : list IssueRow) (p : string) : list IssueRow :=
  List.filter (fun i => bool_decide (parent_issue_id i = Some p)) issues.
Lemma elem_of_siblings issues p i :
  i ∈ siblings_of issues p <-> i ∈ issues /\ parent_issue_id i = Some p.
Proof.
  unfold siblings_of. rewrite list_elem_of_In, List.filter_In, <- list_elem_of_In.
  by rewrite bool_decide_eq_true.
Qed.

Lemma stage_is_open_spec siblings st :
  stage_is_open siblings st = true <->
  forall s, s ∈ siblings -> is_finished s = false -> (st <= stage s)%Z.
Proof.
  unfold stage_is_open. rewrite negb_true_iff, <- not_true_iff_false, existsb_exists. split.
  - intros H s Hs Hf. apply Z.nlt_ge. intros Hlt. apply H. exists s.
    split; [by apply list_elem_of_In|]. rewrite Hf. by apply Z.ltb_lt in Hlt as ->.
  - intros H (s & Hs%list_elem_of_In & [Hf%negb_true_iff Hlt%Z.ltb_lt]%andb_true_iff).
    specialize (H s Hs Hf). lia.
Qed.

(** A card is behind a stage when its plan has unfinished work in an earlier
    one. *)
Definition waits_for_a_stage (issues : list IssueRow) (i : IssueRow) : Prop :=
  exists p s, parent_issue_id i = Some p /\ s ∈ issues /\ parent_issue_id s = Some p
    /\ is_finished s = false /\ (stage s < stage i)%Z.

Lemma behind_a_stage_spec issues i :
  behind_a_stage issues i = true <-> waits_for_a_stage issues i.
Proof.
  unfold behind_a_stage, waits_for_a_stage. destruct (parent_issue_id i) as [p|]; [|naive_solver].
  rewrite plans_lookup. fold (siblings_of issues p).
  assert (Hs : negb (stage_is_open (siblings_of issues p) (stage i)) = true <->
    exists s, s ∈ siblings_of issues p /\ is_finished s = false /\ (stage s < stage i)%Z).
  { rewrite negb_true_iff. unfold stage_is_open. rewrite negb_false_iff, existsb_exists.
    split; intros (s & H1 & H2); exists s.
    - apply list_elem_of_In in H1. apply andb_true_iff in H2 as [?%negb_true_iff ?%Z.ltb_lt]. done.
    - rewrite <- list_elem_of_In. destruct H2 as [-> H2]. by apply Z.ltb_lt in H2 as ->. }
  destruct (siblings_of issues p) as [|x l] eqn:E.
  - split; [done|]. intros (q & s & [= <-] & Hin & Hp & _).
    assert (s ∈ siblings_of issues p) as H by by apply elem_of_siblings.
    rewrite E in H. by apply not_elem_of_nil in H.
  - rewrite Hs, <- E. setoid_rewrite elem_of_siblings. naive_solver.
Qed.

Lemma elem_of_held issues i :
  NoDup (map number issues) -> i ∈ issues ->
  number i ∈ held_by_a_stage issues <-> waits_for_a_stage issues i.
Proof.
  intros Hn Hi. unfold held_by_a_stage. rewrite elem_of_list_to_set, list_elem_of_fmap.
  rewrite <- behind_a_stage_spec. split.
  - intros (j & Hj & [Hin Hb]%list_elem_of_In%List.filter_In).
    rewrite (NoDup_map_inj number issues i j); [done | done | done | by apply list_elem_of_In | done].
  - intros H. exists i. split; [done|]. apply list_elem_of_In, List.filter_In.
    by rewrite <- list_elem_of_In.
Qed.

(** ** The slate *)

(** A card the board may start on its own. *)
Definition startable (issues : list IssueRow) (busy : gset Z) (i : IssueRow) : Prop :=
  i ∈ issues /\ status i = Todo /\ cancelled_at i = None /\ blocked_reason i = None
  /\ (assignee i <> None) /\ (number i ∉ busy) /\ ~ waits_for_a_stage issues i.

Lemma is_promotable_spec issues busy i :
  NoDup (map number issues) -> i ∈ issues ->
  is_promotable i busy (held_by_a_stage issues) = true <-> startable issues busy i.
Proof.
  intros Hn Hi. unfold is_promotable, is_waiting, accepts_runs, is_finished, board_may_start, startable.
  rewrite <- elem_of_held by done.
  destruct (status i); cbn; try (split; [done | by intros (_ & ? & _)]).
  destruct (cancelled_at i), (blocked_reason i), (assignee i); cbn;
    rewrite ?andb_true_iff, ?negb_true_iff, ?bool_decide_eq_false; naive_solver.
Qed.

Lemma elem_of_slate_source issues busy i :
  NoDup (map number issues) ->
  i ∈ in_promotion_order issues (fun i => is_promotable i busy (held_by_a_stage issues))
  <-> startable issues busy i.
Proof.
  intros Hn. rewrite elem_of_in_promotion_order. split.
  - intros [Hi Hp]. by apply is_promotable_spec.
  - intros H. assert (i ∈ issues) by apply H. split; [done|]. by apply is_promotable_spec.
Qed.

Lemma StronglySorted_take_drop {A} (R : relation A) (l : list A) n x y :
  StronglySorted R l -> x ∈ take n l -> y ∈ drop n l -> R x y.
Proof.
  rewrite <- (take_drop n l) at 1. intros Hs Hx Hy. by eapply StronglySorted_app_1_elem_of.
Qed.

(** The board starts the best cards, whatever order the store lists them in.
    The slate holds startable cards only — in Todo, live, unblocked, staffed,
    without a run, and with no unfinished step in an earlier stage of their plan
    — in promotion order, at most as many as there are slots; a startable card
    is left out only for cards that go before it, and only when the slots are
    full; and a permutation of the rows gives the same slate. *)
Theorem slate_best (issues issues' : list IssueRow) (busy : gset Z) (slots : nat)
    (Hnum : NoDup (map number issues)) (Hperm : issues ≡ₚ issues') :
  let s := slate issues busy slots in
  (forall i, i ∈ s -> startable issues busy i)
  /\ StronglySorted before_or_with s /\ length s <= slots
  /\ (forall i j, i ∈ s -> startable issues busy j -> j ∉ s -> before_or_with i j)
  /\ (length s < slots -> forall j, startable issues busy j -> j ∈ s)
  /\ slate issues' busy slots = s.
Proof.
  cbv zeta. unfold slate. destruct (Nat.eqb_spec slots 0) as [->|Hs].
  { split_and!; [by intros i ?%not_elem_of_nil | constructor | done | by intros i j ?%not_elem_of_nil
                | cbn; lia | done]. }
  set (l := in_promotion_order issues _).
  assert (Hmem : forall i, i ∈ l <-> startable issues busy i) by (intros i; by apply elem_of_slate_source).
  assert (Hsort : StronglySorted before_or_with l) by apply in_promotion_order_sorted.
  assert (Hout : forall j, startable issues busy j -> j ∉ take slots l -> j ∈ drop slots l).
  { intros j Hj%Hmem Hn. rewrite <- (take_drop slots l) in Hj. apply elem_of_app in Hj as [?|?]; done. }
  split_and!.
  - intros i Hi. apply Hmem. rewrite <- (take_drop slots l). apply elem_of_app. by left.
  - rewrite <- (take_drop slots l) in Hsort. by apply StronglySorted_app_1_l in Hsort.
  - rewrite length_take. lia.
  - intros i j Hi Hj Hn. eapply StronglySorted_take_drop; eauto.
  - rewrite length_take. intros Hlen j Hj. rewrite take_ge by lia. by apply Hmem.
  - f_equal. symmetry. apply in_promotion_order_unique; [done | done |]. intros i Hi.
    assert (Hw : waits_for_a_stage issues i <-> waits_for_a_stage issues' i)
      by (unfold waits_for_a_stage; by setoid_rewrite Hperm).
    apply eq_true_iff_eq. rewrite !is_promotable_spec; rewrite <- ?Hperm; try done.
    unfold startable. by rewrite Hw, Hperm.
Qed.

(** ** Barriers *)

Lemma elem_of_open_stages children st :
  st ∈ open_stages children <-> exists c, c ∈ children /\ is_finished c = false /\ stage c = st.
Proof.
  unfold open_stages. rewrite elem_of_vec_dedup, merge_sort_Permutation, list_elem_of_fmap.
  setoid_rewrite list_elem_of_In. setoid_rewrite List.filter_In. setoid_rewrite negb_true_iff.
  naive_solver.
Qed.

(** The lowest stage with work left. *)
Lemma head_open_stages children st :
  head (open_stages children) = Some st <->
  st ∈ open_stages children /\ forall u, u ∈ open_stages children -> (st <= u)%Z.
Proof.
  unfold open_stages. rewrite head_vec_dedup. setoid_rewrite elem_of_vec_dedup.
  set (l := merge_sort Z.le _).
  assert (Hs : StronglySorted Z.le l) by apply (StronglySorted_merge_sort _).
  destruct l as [|x l]; cbn.
  - split; [done | by intros [?%not_elem_of_nil _]].
  - inversion Hs as [|? ? Hl Hx]; subst. rewrite Forall_forall in Hx. split.
    + intros [= ->]. split; [by constructor|]. intros u [->|Hu]%elem_of_cons; [done | auto].
    + intros [Hin Hle]. f_equal. apply elem_of_cons in Hin as [->|Hin]; [done|].
      specialize (Hle x ltac:(by constructor)). specialize (Hx st Hin). lia.
Qed.

(** The barrier and the scheduler ask one question.  Finishing a step of
    stage [st] wakes the parent exactly when that stage exists and every stage
    with work left is a later one; and the unfinished steps of a plan that the
    board does not hold back are exactly those of its lowest stage with work
    left. *)
Theorem stage_gate_agrees (issues : list IssueRow) (p : string) (st : Z) :
  let plan := siblings_of issues p in
  (barrier_opens plan st = true <->
     (exists c, c ∈ plan /\ stage c = st) /\ forall u, u ∈ open_stages plan -> (st < u)%Z)
  /\ forall i, i ∈ plan -> is_finished i = false ->
       (behind_a_stage issues i = false <-> head (open_stages plan) = Some (stage i)).
Proof.
  cbv zeta. set (plan := siblings_of issues p). split.
  - unfold barrier_opens, stage_complete. rewrite !andb_true_iff, negb_true_iff, Nat.eqb_neq.
    rewrite List.forallb_forall, stage_is_open_spec.
    assert (Hne : length (List.filter (fun c => (stage c =? st)%Z) plan) <> 0 <->
      exists c, c ∈ plan /\ stage c = st).
    { split.
      - destruct (List.filter _ plan) as [|c l] eqn:E; [done|]. intros _. exists c.
        assert (In c (c :: l)) as H by by left. rewrite <- E in H.
        apply List.filter_In in H as [H1%list_elem_of_In H2%Z.eqb_eq]. done.
      - intros (c & Hc%list_elem_of_In & He%Z.eqb_eq).
        assert (In c (List.filter (fun c => (stage c =? st)%Z) plan)) as H by by apply List.filter_In.
        by destruct (List.filter _ plan). }
    rewrite Hne. setoid_rewrite elem_of_open_stages. split.
    + intros [[Hfin Hex] Hopen]. split; [done|]. intros u (c & Hc & Hf & <-).
      specialize (Hopen c Hc Hf). destruct (Z.eq_dec (stage c) st) as [He|]; [|lia].
      rewrite (Hfin c) in Hf; [done|]. apply List.filter_In.
      split; [by apply list_elem_of_In | by apply Z.eqb_eq].
    + intros [Hex Hlt]. split_and!; [|done|].
      * intros c [Hc%list_elem_of_In He%Z.eqb_eq]%List.filter_In.
        destruct (is_finished c) eqn:Hf; [done|].
        assert (st < stage c)%Z by (apply Hlt; eauto). lia.
      * intros c Hc Hf. assert (st < stage c)%Z by (apply Hlt; eauto). lia.
  - intros i Hi Hf. apply elem_of_siblings in Hi as [Hi Hp].
    rewrite <- not_true_iff_false, behind_a_stage_spec, head_open_stages.
    setoid_rewrite elem_of_open_stages. unfold plan. setoid_rewrite elem_of_siblings.
    unfold waits_for_a_stage. split.
    + intros Hno. split; [by exists i|]. intros u (c & [Hc Hcp] & Hcf & <-).
      apply Z.nlt_ge. intros Hlt. apply Hno. by exists p, c.
    + intros [_ Hle] (q & s & Hq & Hs & Hsp & Hsf & Hlt). rewrite Hp in Hq. injection Hq as <-.
      specialize (Hle (stage s)). assert (stage i <= stage s)%Z by (apply Hle; eauto). lia.
Qed.

(** ** Asking the lead *)

Definition asks_since (since : Z) (q : RunTrigger) (runs : list IssueRunRow) : nat :=
  length (List.filter (fun r => (since <=? run_created_at r)%Z)
    (List.filter (fun r => bool_decide (trigger r = q)) runs)).

(** What can happen to a card's runs while the card row stands unchanged: the
    board asks when the guard lets it, another run is recorded, or a recorded
    run moves on. *)
Inductive card_step (i : IssueRow) (q : RunTrigger) : list IssueRunRow -> list IssueRunRow -> Prop :=
| step_ask runs r :
    already_asked i runs q = false -> trigger r = q -> card_step i q runs (runs ++ [r])
| step_other runs r :
    trigger r <> q -> card_step i q runs (runs ++ [r])
| step_update before r r' after :
    trigger r' = trigger r -> run_created_at r' = run_created_at r ->
    card_step i q (before ++ r :: after) (before ++ r' :: after).

Lemma asks_since_app since q a b :
  asks_since since q (a ++ b) = asks_since since q a + asks_since since q b.
Proof. unfold asks_since. by split_app. Qed.

Lemma asks_since_same since q r r' :
  trigger r' = trigger r -> run_created_at r' = run_created_at r ->
  asks_since since q [r'] = asks_since since q [r].
Proof. intros Ht Hc. unfold asks_since. cbn. rewrite Ht.
  destruct (bool_decide _); cbn; [|done]. rewrite Hc. by destruct (since <=? run_created_at r)%Z.
Qed.

Lemma asks_since_other since q r : trigger r <> q -> asks_since since q [r] = 0.
Proof. intros Hn. unfold asks_since. cbn. by rewrite bool_decide_eq_false_2. Qed.

Lemma asks_since_one since q r : asks_since since q [r] <= 1.
Proof. unfold asks_since. cbn. destruct (bool_decide _); cbn; [destruct (since <=? _)%Z; cbn|]; lia. Qed.

Lemma asks_since_cons since q r l :
  asks_since since q (r :: l) = asks_since since q [r] + asks_since since q l.
Proof. apply (asks_since_app since q [r] l). Qed.

(** A question about a card that stands unchanged is asked at most twice.
    Whatever else runs on the card, settles or fails in between — so a lead and
    an assignee that keep answering each other cannot bill without end — the
    board adds an ask only below the cap. *)
Theorem asks_bounded (i : IssueRow) (q : RunTrigger) (runs runs' : list IssueRunRow)
    (Hstart : asks_since (updated_at i) q runs <= MAX_ASKS_PER_CARD_STATE)
    (Hsteps : rtc (card_step i q) runs runs') :
  asks_since (updated_at i) q runs' <= MAX_ASKS_PER_CARD_STATE.
Proof.
  induction Hsteps as [runs|runs mid runs' Hstep _ IH]; [done|]. apply IH. clear IH.
  destruct Hstep as [runs r Hask Ht|runs r Hn|before r r' after Ht Hc];
    rewrite !asks_since_app in *.
  - pose proof (asks_since_one (updated_at i) q r).
    unfold already_asked in Hask. apply orb_false_iff in Hask as [_ Hcap%Nat.leb_gt].
    unfold asks_since at 1. lia.
  - rewrite asks_since_other by done. lia.
  - rewrite (asks_since_cons _ _ r), (asks_since_cons _ _ r') in *.
    rewrite (asks_since_same _ _ r r') by done. lia.
Qed.

(** ** Spending *)

(** The meter a set of figures reports. *)
Definition reports (h : Headroom) (m : Meter) : Prop :=
  match h with
  | Unlimited => False
  | Limited money tokens =>
      (money = Some m /\ figures h = Some (money_figures m))
      \/ (tokens = Some m /\ figures h = Some (token_figures m))
  end.
Definition meters (h : Headroom) : list Meter :=
  match h with Unlimited => [] | Limited a b => option_list a ++ option_list b end.

(** The figures explain the stop.  A board with a ceiling always reports one
    of its meters; when the board may not start work the meter reported is an
    exhausted one, and otherwise it is the one with the largest used fraction,
    compared without rounding and without leaving 128 bits. *)
Theorem figures_explain (h : Headroom) (Hlimits : meters h <> [])
    (Hrange : Forall (fun m => in_i64 (spent m) /\ in_i64 (limit m)) (meters h)) :
  exists m, reports h m
    /\ (is_exhausted h = true -> meter_exhausted m = true)
    /\ (is_exhausted h = false -> forall m', m' ∈ meters h ->
          (spent m' * limit m <= spent m * limit m')%Z
          /\ in_i128 (spent m' * limit m) /\ in_i128 (spent m * limit m')).
Proof.
  assert (Hprod : forall a b, in_i64 a -> in_i64 b -> in_i128 (a * b)) by (unfold_ints; nia).
  destruct h as [|money tokens]; [done|]. unfold is_exhausted, opt_exhausted, meters, reports, figures in *.
  destruct money as [a|], tokens as [b|]; cbn in Hrange; try done.
  - apply Forall_cons in Hrange as [[Ha1 Ha2] [[Hb1 Hb2] _]%Forall_cons].
    unfold speaks_money, tighter_than.
    destruct (meter_exhausted a) eqn:Ea, (meter_exhausted b) eqn:Eb;
      [destruct (Z.ltb_spec (spent b * limit a) (spent a * limit b)) |
       | | destruct (Z.ltb_spec (spent b * limit a) (spent a * limit b))];
      first [exists a; split; [by left|] | exists b; split; [by right|]]; cbn;
      (split; [by rewrite ?Ea, ?Eb|]); try done;
      intros _ m' [->|[->|?%not_elem_of_nil]%elem_of_cons]%elem_of_cons; try done;
      split_and!; auto; lia.
  - apply Forall_cons in Hrange as [[Ha1 Ha2] _]. exists a. rewrite orb_false_r.
    split_and!; [by left | done |]. intros _ m' [->|?%not_elem_of_nil]%elem_of_cons; [|done]. split_and!; auto; lia.
  - apply Forall_cons in Hrange as [[Ha1 Ha2] _]. exists b.
    split_and!; [by right | done |]. intros _ m' [->|?%not_elem_of_nil]%elem_of_cons; [|done]. split_and!; auto; lia.
Qed.

(** ** A small board *)
Module Sample.

Definition card (n : Z) (p : IssuePriority) (who : option string) (st : Z) : IssueRow :=
  mk_issue "i" "p" n "step" "" [] Todo p who n false None None (Some "plan"%string) st None None None 0 0.
Definition cards : list IssueRow :=
  [card 1 Low (Some "a"%string) 0; card 2 High (Some "b"%string) 0; card 3 Urgent (Some "a"%string) 1;
   card 4 Urgent None 0].
Definition ask (at_ : Z) : IssueRunRow :=
  mk_run "r" "i" "p" 1 "lead" (Some "s"%string) Stalled RunDone 1 0 None at_ None (Some at_).
Definition work (at_ : Z) : IssueRunRow :=
  mk_run "w" "i" "p" 1 "a" (Some "s"%string) Started RunDone 1 0 None at_ None (Some at_).
Definition asked_twice : list IssueRunRow := [ask 1; work 2; ask 3; work 4].
End Sample.

(** The unstaffed card and the step of the later stage wait. *)
Example sample_slate : map number (slate Sample.cards ∅ 3) = [2; 1]%Z.
Proof. vm_compute. reflexivity. Qed.

Lemma slate_best_witness :
  map number (slate Sample.cards ∅ 1) = [2]%Z
  /\ slate (reverse Sample.cards) ∅ 1 = slate Sample.cards ∅ 1.
Proof.
  split; [vm_compute; reflexivity|].
  apply (slate_best Sample.cards (reverse Sample.cards) ∅ 1).
  - apply (bool_decide_unpack _). vm_compute. exact I.
  - symmetry. apply reverse_Permutation.
Defined.

Lemma stage_gate_agrees_witness :
  behind_a_stage Sample.cards (Sample.card 1 Low (Some "a"%string) 0) = false
  /\ head (open_stages (siblings_of Sample.cards "plan")) = Some 0%Z.
Proof.
  assert (H : behind_a_stage Sample.cards (Sample.card 1 Low (Some "a"%string) 0) = false)
    by (vm_compute; reflexivity).
  split; [exact H|].
  apply (proj2 (stage_gate_agrees Sample.cards "plan" 0)
          (Sample.card 1 Low (Some "a"%string) 0)); [| reflexivity | exact H].
  unfold Sample.cards, siblings_of. cbn. constructor.
Defined.

Lemma asks_bounded_witness :
  asks_since 0 Stalled Sample.asked_twice <= MAX_ASKS_PER_CARD_STATE
  /\ already_asked (Sample.card 1 Low None 0) Sample.asked_twice Stalled = true.
Proof.
  split; [|vm_compute; reflexivity].
  apply (asks_bounded (Sample.card 1 Low None 0) Stalled []).
  - cbn. lia.
  - unfold Sample.asked_twice.
    apply rtc_l with [Sample.ask 1];
      [exact (step_ask _ _ [] (Sample.ask 1) eq_refl eq_refl)|].
    apply rtc_l with [Sample.ask 1; Sample.work 2];
      [apply (step_other _ _ [_] (Sample.work 2)); discriminate|].
    apply rtc_l with [Sample.ask 1; Sample.work 2; Sample.ask 3];
      [exact (step_ask (Sample.card 1 Low None 0) Stalled [Sample.ask 1; Sample.work 2] (Sample.ask 3) eq_refl eq_refl)|].
    apply rtc_once. apply (step_other _ _ [_; _; _] (Sample.work 4)). discriminate.
Defined.

Lemma figures_explain_witness :
  is_exhausted (Limited (Some (mk_meter 5 10)) (Some (mk_meter 7 7))) = true
  /\ exists m, reports (Limited (Some (mk_meter 5 10)) (Some (mk_meter 7 7))) m
               /\ meter_exhausted m = true.
Proof.
  split; [reflexivity|].
  destruct (figures_explain (Limited (Some (mk_meter 5 10)) (Some (mk_meter 7 7)))) as (m & Hm & Hex & _).
  - discriminate.
  - cbn. unfold_ints. repeat constructor; cbn; lia.
  - exists m. split; [exact Hm | apply Hex; reflexivity].
Defined.
End Board.
